(* ===== verification/_CoqProject ===== *)
-Q . S2P
Prelude.v
JsRuntime.v
Base64.v
EventBus.v
MessageView.v
AgentRuntime.v
AgentReplay.v
DaemonState.v
Carrier.v
DataPlane.v
DataPlaneFlow.v
DataPlaneProps.v
ControlRouters.v
Json.v
JsText.v
Canonical.v
ContextBudget.v
ContextAccounting.v
Wire.v
WireFrames.v
WireRound.v
WireProps.v
WireEnvelope.v
WireTerm.v
WireCodec.v
Dispatcher.v
DispatcherProps.v
TerminalGrid.v
TerminalInput.v
OutputStore.v
OutputReads.v
OutputTable.v
OutputIngest.v
Invocation.v
InvocationProps.v
InvocationLeases.v
InvocationClaims.v
ContextStore.v
ProviderLedger.v
Conversation.v
Compactor.v
ContextProps.v
CompactorProps.v
CompactorRuns.v
ContextClaims.v
AccountingClaims.v
ConversationClaims.v
ConversationResume.v
Presence.v
PresenceProps.v
PresenceClaims.v
ThreadMessages.v
ThreadClient.v
ThreadProps.v
ThreadClaims.v
Sessions.v
SessionStore.v
SessionManager.v
SessionProps.v
SessionHistory.v
SessionClaims.v
FilePaths.v
FilePathProps.v
Jobs.v
FileRuntime.v
FileSessions.v
FileResolve.v
FileEdge.v
FileProps.v
FileSafety.v
FileClaims.v
