(* ===== verification/Prelude.v ===== *)
(** * Bud: the service between web clients, agents and Bud daemons

    Bud runs terminals, files, localhost proxies and agents on a user's machine
    (the Bud daemon) and shows them in web and mobile clients.  The TypeScript
    service in [src/service/src] sits in the middle: daemons connect to it over
    WebSocket, gRPC or QUIC carriers, clients follow threads and terminals over
    SSE.  This library models the service's own state machines and proves what
    makes them correct.

    ** Parts and files

    [Prelude] (this file): notation [o ?? d], tactics, lemmas on lists, options
    and integers.  [JsRuntime]: what the code uses of JavaScript: values
    ([jsval], numbers with NaN and infinities), insertion-ordered [Map] and
    [Set] ([JsMap], [JsSet]), string order, truthiness.  [JsText]: white space,
    [trim], lower case, lengths and slices in UTF-16 units.  [Base64]: Node's base64 of a [Buffer], decoder with its
    leniency.

    Event streams to clients.
    - [EventBus] ([runtime/event-bus.ts], class [SseEventBus]): bounded replay
      buffers per channel, listeners, resume by last event id.
    - [MessageView] ([agent/message-view.ts], [toolPresentation]), [AgentRuntime]
      ([runtime/agent-runtime-state.ts], class [AgentRuntimeStateManager]: every
      method, in a state monad [M] whose state holds the snapshots, the cursor
      buffers, the listeners, the clock and a trace) and [AgentReplay] (its
      theorems).

    Terminal output.
    - [OutputStore] ([runtime/terminal/output-store.ts]: the store's algorithms
      over a persistence interface, a record of operations), [OutputTable] (the
      Drizzle implementation over keyed tables, against the laws of the
      interface), [OutputReads] (paginated reads equal a direct scan of the
      stored bytes), [OutputIngest] (ingest, retention, redelivery).

    Terminal sessions.
    - [Sessions] (the rows of [terminal_session], [terminal_command] and
      [terminal_session_input_log], and [runtime/terminal/runtime-state.ts]),
      [SessionStore] ([session-store.ts], [terminal-command-store.ts]: asynchronous
      code as a [job], a statement of the database or a piece of synchronous code at
      a time) and [SessionManager] ([runtime/terminal-session-manager.ts],
      [idle-monitor.ts]: frames wait in the ingest queue of their session, calls run
      beside them; [station_step] interleaves the nodes).  The manager is proved
      against the interfaces [DaemonTransportRouter] of [Carrier] and
      [TerminalOutputPersistence] of [OutputStore]; its calls to the event bus, the
      output store and the request dispatcher are recorded as [effect]s.
      [SessionProps] (the rule [safe] for jobs, the invariant [sound]),
      [SessionHistory] (histories of commands, the rule [post]), [SessionClaims].

    Daemons and carriers.
    - [DaemonState] ([runtime/daemon-state.ts], [DaemonStateStore] and the tables
      of [db/schema.ts] it uses): device and transport sessions, operations,
      streams, audit events; every method a statement on the database.
    - [Carrier] ([transport/carrier-health.ts], [carrier-policy.ts],
      [gateway-drain.ts], [daemon-router.ts], [composite-daemon-router.ts]): the
      interface of a control router is the class [DaemonTransportRouter] with
      its laws [RouterLaws]; the composite is an instance over any two routers.
    - [ControlRouters] ([ws/session-trackers.ts], [presence-events.ts],
      [websocket-daemon-router.ts], [grpc-daemon-router.ts]): one registry of
      trackers over a class [Tracker], the two routers as instances that
      discharge [RouterLaws], and the service's [daemonTransportRouter].
    - [DataPlane] ([transport/data-plane-router.ts]): carriers, runtime streams,
      frames.  Objects live in a heap ([world]); asynchronous code is a [prog]
      that stops at each [await] (a callback or database call may reject there);
      [sys_step] interleaves the queued frame handlers, sends and finalisations.
      [DataPlaneFlow] and [DataPlaneProps] hold its theorems.

    Files.
    - [Jobs]: asynchronous code over a shared world, for any world: a [job] stops at each
      [await], [resume] says how a statement went, [safe] is the rule by which all jobs
      keep an invariant.  [FilePaths] (the texts of [files/file-session.ts]: paths, lines,
      permissions, and the byte range of [file-edge.ts]) and [FilePathProps].
    - [FileRuntime] ([files/file-runtime.ts], the stream object as a value),
      [FileSessions] (the rest of [file-session.ts], the routes of [routes/files.ts] on
      sessions, and [fworld], which has the tables, the data plane of [DataPlane] with the
      daemon state, the routers of [ControlRouters], the stream objects by reference and
      a history), [FileResolve] ([files/file-resolve.ts], [routes/threads/files.ts]) and
      [FileEdge] ([files/file-edge.ts], the route of a file; [fstep] interleaves requests,
      frames, timers, listeners and work nobody waits for).
    - [FileProps] (the invariant [inv]), [FileSafety] (every job keeps it), [FileClaims].

    Frames on the wire.
    - [Json]: UTF-8 text, [JSON.stringify] and [JSON.parse] on [jsval].  [Wire]
      ([proto/wire.ts]): varints, [ProtoReader], the field writers, the loop over
      the fields of a message.  [WireFrames] ([proto/wire.ts],
      [proto/envelope.ts]): the tables of frame types and proto fields, the
      typed payload of each frame type as two tables of cases (encode, decode),
      the envelope.  [WireRound] (the schema of what a receiver keeps of a
      frame, with no field numbers), [WireProps], [WireEnvelope], [WireTerm]
      (lemmas), [WireCodec] (claims).

    Agent invocations.
    - [Invocation] ([agent/invocation-repository.ts], [invocation-timing.ts],
      the wait of [browser/repository.ts]): the queue of turns, leased to workers.
      A transaction is a program of the monad [tx]; [call_tx] runs the calls, and
      [inv_step] interleaves them with the statements of claims ([claim_step],
      which lock the thread and not the invocation), with changes of the other
      tables and with time.  [InvocationProps] (every transaction is a [change] of
      rows), [InvocationLeases] (the invariant and the leases), [InvocationClaims]
      (calm runs, an executable scheduler, the claims).

    The context of an agent.
    - [Canonical] ([llm/types.ts]: messages and blocks), [ContextBudget]
      ([agent/context-budget.ts], [browser/image-references.ts], the catalog of
      [llm/model-catalog.ts]: estimates and windows), [ContextAccounting]
      ([agent/context-accounting.ts], [context-budget-state.ts]: baselines of measured
      requests, the meter and the decision to compact).
    - [ContextStore] ([agent/context-checkpoint-repository.ts],
      [compaction-message.ts]): the tables ([context_db], over those of [Invocation])
      and the monad [CM] of programs that await statements: before each one others may
      commit, and it may fail before or after it took effect ([Surroundings]).
      [ProviderLedger] ([llm/provider-ledger.ts]), [Conversation]
      ([agent/conversation-loader.ts], the stored calls of [contracts.ts]) and
      [Compactor] ([agent/context-compactor.ts]) are programs of it.  A compaction reads
      the end of the thread, asks the provider and writes a checkpoint; a load takes the
      newest checkpoint, the rows and calls after its boundary, and repairs calls without
      results.
    - [ContextProps] (estimates, screenshots), [CompactorProps] (trimming, the newest
      messages), [CompactorRuns] (the rule [runs] for programs; requests and rows of a
      compaction), [ContextClaims], [AccountingClaims], [ConversationClaims] and
      [ConversationResume] (a thread loaded after a compaction).

    Terminal requests and the web client.
    - [Dispatcher] ([runtime/terminal/request-dispatcher.ts], class
      [TerminalRequestDispatcher]): pending observations and sends, their
      promises, timers and debug states; [DispatcherProps] its theorems.
    - [TerminalGrid] and [TerminalInput]
      ([web/src/features/threads/terminal-grid-state.ts],
      [terminal-input-queue.ts]): the reducer over grid frames, and the queue of
      input typed while disconnected.
    - [ThreadMessages] ([web/src/features/threads/thread-message-state.ts]: the rows
      of a thread and how snapshots, pages and stream events merge into them),
      [ThreadClient] ([use-thread-messages.ts]: the state of the view as a machine of
      operations, [step] and [run]), [ThreadProps] and [ThreadClaims] (theorems).

    Where the owner is.
    - [Presence] ([personal-data/place-presence.ts], [places.ts]): geofence reports,
      readings and visits; a transaction under the owner lock is a function of the
      tables (the monad [PM]).  [PresenceProps] and [PresenceClaims] hold its
      theorems.

    ** What is shown

    - Event streams: the bus buffer is the last [limit] events published since the
      last clear, and resuming replays exactly the later events or reports that it
      cannot (C1).  For agents: resuming at a cursor still buffered gives exactly the
      later events (C5), the snapshot invariant, growing cursors, and invalidation
      forces a resync (C6).
    - Terminal output: paginated range and tail reads equal a direct scan and
      terminate (C2); stored bytes stay under the cap and redelivery is idempotent
      while the chunk is stored (C3); ingest and read are inverse (C4); two places
      where retention counts twice ([retention_counts_twice]).
    - The context of an agent: what a compaction asks, whatever else is committed (C7),
      what it leaves when nobody else writes, a failed one the error of its last attempt
      (C8); what is loaded after
      it (C9); repairing (C10); the replacement history within its budget (C11); the
      ordered budget of a turn (C12); measured tokens are reused exactly (C13).  Small
      runs show where calls lose their results ([two_calls_trimmed]), an old terminal
      context is kept ([terminal_context_real]) and a compacted row comes back
      ([gone_on_texts]).
    - Terminal sessions: the tables stay sound whatever interleaves, frames of a Bud
      that does not own the session have no effect (C35); the row of a command is the
      history of its frames (C36).  [SessionClaims.Terminal] has three runs that end
      badly.
    - Files: a daemon is asked only for what the viewer may read, whatever interleaves,
      and session rows stay as they were made but for revocation (C37); a reader gets
      the bytes the daemon sent, in order and within the limit, and an ended stream
      leaves nothing registered (C38); a path is confined to the root (C39); the path
      and the line of a click are the ones written (C40).  [FileClaims.Work] has two
      runs that end badly.
    - Daemon state: operations and streams move only along their transition
      tables and settled rows are final under every interleaving of statements
      (C14, [transitionOperation_spec]); closing a transport marks exactly its live work
      unknown ([close_transport_marks_unknown]); reconciliation decisions (C15).
    - Carriers: a frame is sent at most once ([composite_send_once]), the service's
      router over the real routers sends exactly when a carrier can take the frame and
      never long-lived work while draining (C18), a superseded connection never takes
      its successor offline (C19).  [normalize_health_stable]: health normalisation.
    - Data plane: in every reachable state of the interleaved system the receive
      and send windows are conserved and the chunks contiguous (C16);
      carrier selection is optimal and explains failures ([select_carrier_correct]);
      finalising a carrier ends all its streams whatever fails meanwhile (C17).
    - Wire codec: a decoded frame is the projection of the encoded one by its
      schema (C20), an envelope arrives as sent and one with a payload that is not known
      is refused (C21), both but for types named like a member of [Object.prototype],
      which are encoded and cannot be decoded ([inherited_type_lost]); decoding ends on every input (C22), varints are exact and
      bounded (C23).
    - Terminal requests: no request is lost and none is settled twice, what is left of one
      that ended, and what answers and rejections give (C24); every request ends by its timer at the latest (C25).
    - Invocations: rows are well typed (C28), a thread has one reservation under
      every interleaving, a Bud keeps its capacity when no claim is overtaken
      (C29; [claim_overtaken] is a run that exceeds it), leases are fenced, for every call that
      presents one (C30).
    - Presence: what is published of a place is in order and, but for visits that begin
      another stay, in turns (C31), a
      reading publishes only what it warrants (C32), an exit and the entry after it
      commute ([exit_entry_commute]).
    - Web client: the grid shows what the daemon's frames describe and takes exactly those
      that follow (C26), the
      input queue keeps the newest bytes under its cap (C27), a thread shows each
      message once and in order (C33), a saved message stays as it is (C34).

    ** Conventions and bounds

    A string is a Rocq [string] of bytes.  Numbers of the code that are lengths,
    offsets, credits or times are [Z]; the code keeps them below 2^53 and rejects
    wire values above [Number.MAX_SAFE_INTEGER].  Times, ids and random values
    are arguments or come from streams in the state.  Recursion is structural,
    except the page loops of [OutputStore], which take fuel: the theorems show
    that one more turn than there are stored chunks is enough, and the decoders
    of [Wire], which take the number of bytes of the message (each turn reads at
    least one: C22), and the loop that trims a request, which takes the number of its
    messages (each turn removes one); the varint writer has ten turns, which is what 64 bits need.
    The text of numbers other than small integers ([NumberText]), [Date.parse]
    ([DateParse]), the last output offset of a session and the sending of a frame
    to a Bud are parameters.  [toLowerCase] is that of ASCII.  Runs of [prog]
    are finite by structure; [run] takes the list of settlements of the awaited
    promises, [sys_step] leaves them to the environment.  What a database
    transaction isolates runs as one statement; the statements of a claim, which
    is not isolated, are steps of their own, six at most ([run_claim]).  Of
    PostgreSQL, the hash of a lock name, the reading of a timestamp and the text
    of a JSON value that is no string are parameters ([InvocationEnv]); so are the
    automation policy and its evidence, which only read.  Of presence, the
    trigonometric functions, the reading of a date and fresh ids are parameters
    ([PresenceEnv]); coordinates are rationals.  Of the thread client, the order of
    strings by locale, the reading of a date and the text of a value that is no string
    are ([ClientEnv] with the laws [LocaleLaws]); each class has a concrete instance where its claims run.  A
    [job] of a terminal session gives way at every node, so that the model has more
    interleavings than the code, never fewer; a statement may reject before or after
    it took effect.  [getCommandOutput] takes the fuel of the page loop of
    [readRange].  A [Date] is a whole number of milliseconds, a time of the database of
    microseconds.  Of the context, the hash ([Sha256]), the system prompt and the
    validation of questions ([ConversationEnv]), the database of others, the clock, ids,
    the provider's answers and what [jsonb] refuses ([Surroundings]) are parameters; a
    replacement history is kept as messages, and the product of the compaction ratio and a
    window is exact.  Of files, [zod]'s issues and uuids, the address of a file, the
    ids drawn ([FileIds]), what a carrier takes and the configuration are parameters; a
    daemon may send any frame at any time, the rest of the service may change the other
    tables, the carriers and the clock ([outside]), and a limit timer or the end of a
    response may come whenever it is armed, so that no length of time is assumed.

    ** Not modelled, and the plan

    Not modelled: network I/O of the gateways, the other HTTP routes, LLM providers,
    authentication, media, React components, the Rust daemon.
    Of the provider ledger, the metadata derived from the usage of a call.
    Of the invocation repository, the restoring of tool results in the provider
    ledger ([prepareQuestionContinuation]) and the read-only queries.  Of the terminal
    session manager, the interrupt of a thread, which is a send of the dispatcher, and
    the timer of the idle check.  Of the thread client, loading flags, error texts and
    scrolling.  Of files, the deletion of a bud, which takes its sessions with it, the
    further fields of a JSON error, and back pressure of a response beyond the wait for it.
    Left in the plan, in this order: terminal freshness ([terminal/freshness.ts]);
    the agent loop ([agent/agent-service.ts]); automation matching and admission; proxy
    sessions; the merge of visits; the connection state machine of
    [ws/bud-connection.ts]. *)
From Stdlib Require Import ZArith Lia.
From stdpp Require Import base tactics strings gmap sorting option.
From stdpp Require Import list.

Declare Scope bud_scope.
Delimit Scope bud_scope with bud.
Open Scope bud_scope.

(** JavaScript's nullish coalescing [o ?? d]. *)
Notation "o '??' d" := (default d o)
  (at level 55, right associativity) : bud_scope.

Create HintDb bud.

(** ** Tactics *)

(** Split every [match]/[if] of the goal and of the hypotheses, remembering
    the equations, and clean up. *)
Ltac split_cases :=
  repeat (case_match; simplify_eq/=; try done).

(** Turn boolean comparisons on [Z] into propositions. *)
Ltac zbool :=
  repeat match goal with
  | H : (_ <? _)%Z = true |- _ => apply Z.ltb_lt in H
  | H : (_ <? _)%Z = false |- _ => apply Z.ltb_ge in H
  | H : (_ <=? _)%Z = true |- _ => apply Z.leb_le in H
  | H : (_ <=? _)%Z = false |- _ => apply Z.leb_gt in H
  | H : (_ =? _)%Z = true |- _ => apply Z.eqb_eq in H
  | H : (_ =? _)%Z = false |- _ => apply Z.eqb_neq in H
  | H : (_ >? _)%Z = true |- _ => rewrite Z.gtb_ltb in H
  | H : (_ >? _)%Z = false |- _ => rewrite Z.gtb_ltb in H
  | H : (_ >=? _)%Z = true |- _ => rewrite Z.geb_leb in H
  | H : (_ >=? _)%Z = false |- _ => rewrite Z.geb_leb in H
  | H : (_ <? _)%nat = true |- _ => apply Nat.ltb_lt in H
  | H : (_ <? _)%nat = false |- _ => apply Nat.ltb_ge in H
  | H : andb _ _ = true |- _ => apply andb_true_iff in H as [? ?]
  | H : orb _ _ = false |- _ => apply orb_false_iff in H as [? ?]
  | H : negb _ = true |- _ => apply negb_true_iff in H
  | H : negb _ = false |- _ => apply negb_false_iff in H
  end.

(** ** Lengths as integers *)

(** [xs.length] as a JavaScript integer. *)
Definition zlen {A} (l : list A) : Z := Z.of_nat (length l).

Lemma zlen_nonneg {A} (l : list A) : (0 <= zlen l)%Z.
Proof. unfold zlen. lia. Qed.

Lemma zlen_app {A} (l k : list A) : zlen (l ++ k) = (zlen l + zlen k)%Z.
Proof. unfold zlen. rewrite length_app. lia. Qed.

Lemma zlen_cons {A} (x : A) l : zlen (x :: l) = (1 + zlen l)%Z.
Proof. unfold zlen. simpl. lia. Qed.

Lemma zlen_nil {A} : zlen (@nil A) = 0%Z.
Proof. done. Qed.

Lemma zlen_zero_inv {A} (l : list A) : (zlen l <= 0)%Z -> l = [].
Proof. destruct l; [done|]. rewrite zlen_cons. pose proof (zlen_nonneg l). lia. Qed.

#[export] Hint Resolve zlen_nonneg : bud.
Create HintDb zlen discriminated.
#[export] Hint Rewrite @zlen_app @zlen_cons @zlen_nil : zlen.

(** ** The last [n] elements of a list: what a bounded queue retains *)

Definition last_n {A} (n : nat) (l : list A) : list A := drop (length l - n) l.

Lemma last_n_length {A} n (l : list A) : length (last_n n l) = min n (length l).
Proof. unfold last_n. rewrite length_drop. lia. Qed.

Lemma last_n_suffix {A} n (l : list A) : last_n n l `suffix_of` l.
Proof. exists (take (length l - n) l). unfold last_n. by rewrite take_drop. Qed.

Lemma last_n_all {A} n (l : list A) : length l <= n -> last_n n l = l.
Proof. intros H. unfold last_n. by replace (length l - n) with 0 by lia. Qed.

Lemma last_n_nil {A} n : last_n n (@nil A) = [].
Proof. done. Qed.

(** Two suffixes of one list with the same length are equal. *)
Lemma suffix_same_length {A} (a b l : list A) :
  a `suffix_of` l -> b `suffix_of` l -> length a = length b -> a = b.
Proof.
  intros [p ->] [q E] Hl.
  by apply app_inj_2 in E as [_ ->].
Qed.

(** Pushing elements and trimming the front again keeps the window. *)
Lemma last_n_last_n_app {A} n (l k : list A) :
  last_n n (last_n n l ++ k) = last_n n (l ++ k).
Proof.
  apply (suffix_same_length _ _ (l ++ k)).
  - etrans; [apply last_n_suffix|]. destruct (last_n_suffix n l) as [p E].
    exists p. rewrite E at 1. by rewrite (assoc_L (++)).
  - apply last_n_suffix.
  - rewrite !last_n_length, !length_app, last_n_length. lia.
Qed.

Lemma suffix_of_last_n {A} n (l k : list A) :
  k `suffix_of` l -> last_n n k `suffix_of` l.
Proof. intros. etrans; [apply last_n_suffix | done]. Qed.

(** ** Suffixes *)

Lemma suffix_drop {A} n (l : list A) : drop n l `suffix_of` l.
Proof. exists (take n l). by rewrite take_drop. Qed.

Lemma suffix_app_same {A} (l k m : list A) :
  l `suffix_of` k -> (l ++ m) `suffix_of` (k ++ m).
Proof. intros [p ->]. exists p. by rewrite (assoc_L (++)). Qed.

#[export] Hint Resolve suffix_drop suffix_app_same last_n_suffix : bud.

(** ** Sums *)

Fixpoint zsum (l : list Z) : Z :=
  match l with [] => 0 | x :: l => x + zsum l end%Z.

Lemma zsum_app l k : zsum (l ++ k) = (zsum l + zsum k)%Z.
Proof. induction l; simpl; lia. Qed.

Lemma zsum_nonneg l : Forall (fun x => 0 <= x)%Z l -> (0 <= zsum l)%Z.
Proof. induction 1; simpl; lia. Qed.

#[export] Instance zsum_perm : Proper ((≡ₚ) ==> (=)) zsum.
Proof. intros l k. induction 1; simpl; lia. Qed.

Lemma zsum_reverse l : zsum (reverse l) = zsum l.
Proof.
  induction l as [|x l IH]; [done|]. rewrite reverse_cons, zsum_app. simpl. lia.
Qed.

Lemma foldl_zsum {A} (f : A -> Z) (l : list A) n :
  foldl (fun n x => n + f x)%Z n l = (n + zsum (f <$> l))%Z.
Proof. revert n. induction l as [|x l IH]; intros n; cbn; [lia|]. rewrite IH. lia. Qed.

(** ** Filters *)

Lemma filter_all {A} (P : A -> Prop) `{!forall x, Decision (P x)} (l : list A) :
  Forall P l -> filter P l = l.
Proof.
  induction 1 as [|x l Hx _ IH]; [done|].
  rewrite filter_cons. rewrite decide_True by done. by rewrite IH.
Qed.

Lemma filter_none {A} (P : A -> Prop) `{!forall x, Decision (P x)} (l : list A) :
  Forall (fun x => ~ P x) l -> filter P l = [].
Proof.
  induction 1 as [|x l Hx _ IH]; [done|].
  rewrite filter_cons. by rewrite decide_False.
Qed.

Lemma head_filter_None {A} (P : A -> Prop) `{!forall x, Decision (P x)} (l : list A) x :
  head (filter P l) = None -> x ∈ l -> ~ P x.
Proof.
  intros Hh Hx HP. assert (Hf : x ∈ filter P l) by by apply list_elem_of_filter.
  destruct (filter P l); [by apply elem_of_nil in Hf|done].
Qed.

Lemma filter_conj {A} (P Q R : A -> Prop) `{!forall x, Decision (P x)}
    `{!forall x, Decision (Q x)} `{!forall x, Decision (R x)} (l : list A) :
  (forall x, R x <-> P x /\ Q x) -> filter R l = filter Q (filter P l).
Proof.
  intros HR. induction l as [|x l IH]; [done|]. rewrite (filter_cons R), (filter_cons P).
  specialize (HR x). destruct (decide (P x)); [rewrite (filter_cons Q)|];
    repeat case_decide; rewrite ?IH; naive_solver.
Qed.

Lemma bind_filter {A B} (f : A -> list B) (P : B -> Prop) `{!forall x, Decision (P x)} l :
  filter P (l ≫= f) = l ≫= (fun x => filter P (f x)).
Proof.
  induction l as [|x l IH]; [done|]. by rewrite !bind_cons, filter_app, IH.
Qed.

(** ** Sorted lists *)

Lemma StronglySorted_filter_sub {A} (R : A -> A -> Prop) (P : A -> Prop)
    `{!forall x, Decision (P x)} (l : list A) :
  StronglySorted R l -> StronglySorted R (filter P l).
Proof.
  induction 1 as [|x l _ IH Hx]; [constructor|].
  rewrite filter_cons. case_decide; [|done]. constructor; [done|].
  apply Forall_forall. intros y [_ Hy]%list_elem_of_filter.
  by eapply Forall_forall in Hx.
Qed.

Lemma StronglySorted_weaken {A} (R S : A -> A -> Prop) (l : list A) :
  (forall x y, R x y -> S x y) -> StronglySorted R l -> StronglySorted S l.
Proof.
  intros HRS. induction 1 as [|x l _ IH Hx]; constructor; [done|].
  eapply Forall_impl; [exact Hx|]. auto.
Qed.

(** The position of an element splits a list. *)
Lemma last_take_split {A} n (l : list A) x :
  last (take n l) = Some x -> exists pre, take n l = pre ++ [x] /\ l = pre ++ x :: drop n l.
Proof.
  intros [pre E]%last_Some. exists pre. split; [done|].
  rewrite <-(take_drop n l) at 1. rewrite E. by rewrite <-(assoc_L (++)).
Qed.

Lemma last_elem {A} (l : list A) x : last l = Some x -> x ∈ l.
Proof. intros [l' ->]%last_Some. set_solver. Qed.
