(* ===== verification/JsRuntime.v ===== *)
(** The part of the JavaScript runtime the modelled sources use: numbers that
    may be fractional or not finite, the values of an [unknown], and the
    insertion-ordered [Map] and [Set].

    - [jsnum]: a number of the language. The finite doubles are rationals, and
      the sources only floor, clamp and compare them, so a finite number is a
      [Q].
    - [jsval]: a JSON-like value, what a parsed frame or a metadata column is.
    - [JsMap]: [Map<K, V>] as an association list in insertion order, because
      the sources iterate over their maps ([Array.from(m.values())]).
    - [JsSet]: [Set<T>] likewise. *)
From Stdlib Require Import ZArith QArith Qround Lia.
From stdpp Require Import base tactics strings gmap sorting option.
From stdpp Require Import list.
From S2P Require Import Prelude.

(** ** Numbers *)

Inductive jsnum :=
  | JFin (q : Q)
  | JNaN
  | JInf (negative : bool).

(** [Number.isFinite]. *)
Definition is_finite (n : jsnum) : bool :=
  match n with JFin _ => true | _ => false end.

(** [Number.MAX_SAFE_INTEGER]. *)
Definition MAX_SAFE_INTEGER : Z := 9007199254740991.

(** [Math.max(0, Math.floor(x))] for a finite [x]. *)
Definition floor_nonneg (q : Q) : Z := Z.max 0 (Qfloor q).

Lemma floor_nonneg_Z z : (0 <= z)%Z -> floor_nonneg (inject_Z z) = z.
Proof. intros. unfold floor_nonneg. rewrite Qfloor_Z. lia. Qed.

Lemma floor_nonneg_ge0 q : (0 <= floor_nonneg q)%Z.
Proof. unfold floor_nonneg. lia. Qed.

#[export] Hint Resolve floor_nonneg_ge0 : bud.

(** ** Results

    What returns [Ok], what throws [Err] with the message. *)

Inductive res (A : Type) :=
  | Ok (a : A)
  | Err (message : string).
Arguments Ok {A} a.
Arguments Err {A} message.

#[export] Instance res_mret : MRet res := fun _ a => Ok a.
#[export] Instance res_mbind : MBind res :=
  fun A B k r => match r with Ok a => k a | Err m => Err m end.

(** ** Values *)

Inductive jsval :=
  | JUndef
  | JNull
  | JBool (b : bool)
  | JNum (n : jsnum)
  | JStr (s : string)
  | JArr (l : list jsval)
  | JObj (fields : list (string * jsval)).

(** Own-property read of an object literal: the last binding written for a
    key is the visible one; the lists built here bind each key once. *)
Fixpoint field_lookup (k : string) (fs : list (string * jsval)) : jsval :=
  match fs with
  | [] => JUndef
  | (k', v) :: fs => if decide (k = k') then v else field_lookup k fs
  end.

(** The [isRecord]/[asRecord] guard the sources repeat: a non-null object that
    is not an array. *)
Definition as_record (v : jsval) : option (list (string * jsval)) :=
  match v with JObj fs => Some fs | _ => None end.

Definition as_string (v : jsval) : option string :=
  match v with JStr s => Some s | _ => None end.

(** Truthiness of a string: [if (s)]. *)
Definition str_truthy (s : string) : bool :=
  match s with EmptyString => false | _ => true end.

Lemma str_truthy_true s : str_truthy s = true <-> s <> "".
Proof. by destruct s. Qed.

(** Truthiness of a [string | null]. *)
Definition ostr_truthy (o : option string) : bool :=
  match o with Some s => str_truthy s | None => false end.

(** ** Insertion-ordered maps *)

Module JsMap.
Section JsMap.
Context {K V : Type} `{EqDecision K}.

Definition t := list (K * V).

Definition empty : list (K * V) := [].

(** [m.get(k)]. *)
Fixpoint get (k : K) (m : list (K * V)) : option V :=
  match m with
  | [] => None
  | (k', v) :: m => if decide (k = k') then Some v else get k m
  end.

(** [m.set(k, v)]: an existing key keeps its position. *)
Fixpoint set (k : K) (v : V) (m : list (K * V)) : list (K * V) :=
  match m with
  | [] => [(k, v)]
  | (k', v') :: m =>
      if decide (k = k') then (k', v) :: m else (k', v') :: set k v m
  end.

(** [m.delete(k)]. *)
Definition delete (k : K) (m : list (K * V)) : list (K * V) :=
  filter (fun kv => kv.1 <> k) m.

Definition keys (m : list (K * V)) : list K := m.*1.
Definition values (m : list (K * V)) : list V := m.*2.

(** Each key is bound once. *)
Definition wf (m : list (K * V)) : Prop := NoDup (keys m).

Lemma get_set_eq k v m : get k (set k v m) = Some v.
Proof.
  induction m as [|[k' v'] m IH]; simpl; [by rewrite decide_True|].
  case_decide; simpl; [by rewrite decide_True|]. by rewrite decide_False.
Qed.

Lemma get_set_ne k k' v m : k <> k' -> get k (set k' v m) = get k m.
Proof.
  intros Hne. induction m as [|[k1 v1] m IH]; simpl.
  - by rewrite decide_False.
  - destruct (decide (k' = k1)) as [<-|]; simpl.
    + by rewrite !decide_False.
    + destruct (decide (k = k1)); [done|]. apply IH.
Qed.

Lemma get_set k k' v m :
  get k (set k' v m) = if decide (k = k') then Some v else get k m.
Proof. case_decide; subst; [apply get_set_eq | by apply get_set_ne]. Qed.

Lemma set_set k v w m : set k v (set k w m) = set k v m.
Proof.
  induction m as [|[k' v'] m IH]; simpl; [by rewrite decide_True|].
  case_decide; simpl; [by rewrite decide_True|]. by rewrite decide_False, IH.
Qed.

Lemma set_get k v m : get k m = Some v -> set k v m = m.
Proof.
  induction m as [|[k' v'] m IH]; simpl; [done|].
  case_decide; intros; simplify_eq; [done|]. by rewrite IH.
Qed.

Lemma get_delete_eq k m : get k (delete k m) = None.
Proof.
  induction m as [|[k' v'] m IH]; [done|].
  unfold delete. rewrite filter_cons. simpl. case_decide; simpl; [|done].
  by rewrite decide_False.
Qed.

Lemma get_delete_ne k k' m : k <> k' -> get k (delete k' m) = get k m.
Proof.
  intros. induction m as [|[k1 v1] m IH]; [done|].
  unfold delete. rewrite filter_cons. simpl. case_decide; simpl.
  - destruct (decide (k = k1)); [done|]. apply IH.
  - destruct (decide (k = k1)); [congruence|]. apply IH.
Qed.

Lemma get_delete k k' m :
  get k (delete k' m) = if decide (k = k') then None else get k m.
Proof. case_decide; subst; [apply get_delete_eq | by apply get_delete_ne]. Qed.

Lemma get_Some_elem k v m : get k m = Some v -> (k, v) ∈ m.
Proof.
  induction m as [|[k' v'] m IH]; simpl; [done|].
  case_decide; intros; simplify_eq; set_solver.
Qed.

Lemma elem_get k v m : wf m -> (k, v) ∈ m -> get k m = Some v.
Proof.
  unfold wf, keys. induction m as [|[k' v'] m IH]; simpl; [set_solver|].
  rewrite NoDup_cons, elem_of_cons. intros [Hk Hnd] [?|Hin]; simplify_eq.
  - by rewrite decide_True.
  - rewrite decide_False; [auto|]. intros ->. apply Hk.
    apply list_elem_of_fmap. by exists (k', v).
Qed.

Lemma keys_set_elem k k' v m : k ∈ keys (set k' v m) <-> k = k' \/ k ∈ keys m.
Proof.
  unfold keys. induction m as [|[k1 v1] m IH]; simpl; [set_solver|].
  case_decide; simpl; set_solver.
Qed.

Lemma get_None_keys k m : get k m = None <-> k ∉ keys m.
Proof.
  unfold keys. induction m as [|[k1 v1] m IH]; simpl; [set_solver|].
  case_decide; set_solver.
Qed.

Lemma wf_set k v m : wf m -> wf (set k v m).
Proof.
  unfold wf. induction m as [|[k1 v1] m IH]; simpl.
  - intros _. apply NoDup_singleton.
  - rewrite NoDup_cons. intros [Hk Hnd]. case_decide; simpl; rewrite NoDup_cons.
    + done.
    + split; [|by apply IH]. change (k1 ∉ keys (set k v m)).
      rewrite keys_set_elem. intros [?|?]; congruence.
Qed.

Lemma wf_delete k m : wf m -> wf (delete k m).
Proof.
  unfold wf, keys, delete. intros. apply (sublist_NoDup _ m.*1); [done|].
  apply fmap_sublist, sublist_filter.
Qed.

Lemma delete_notin k m : k ∉ keys m -> delete k m = m.
Proof.
  unfold delete, keys. intros Hk. apply filter_all, Forall_forall. intros [k' v] Hin. cbn.
  intros ->. apply Hk, list_elem_of_fmap. by exists (k, v).
Qed.

(** The bindings of a map, one of them singled out. *)
Lemma get_perm k v m : wf m -> get k m = Some v -> m ≡ₚ (k, v) :: delete k m.
Proof.
  unfold wf. induction m as [|[k' v'] m IH]; simpl; [done|].
  rewrite NoDup_cons. intros [Hk Hnd] E. unfold delete. rewrite filter_cons. simpl.
  destruct (decide (k = k')) as [->|Hne].
  - simplify_eq. rewrite decide_False by naive_solver. fold (delete k' m).
    by rewrite delete_notin.
  - rewrite decide_True by done. fold (delete k m). rewrite (IH Hnd E) at 1. by rewrite Permutation_swap.
Qed.

Lemma set_perm k v m : wf m -> set k v m ≡ₚ (k, v) :: delete k m.
Proof.
  intros Hwf. rewrite (get_perm k v (set k v m)); [| by apply wf_set | apply get_set_eq].
  apply reflexive_eq. f_equal. clear Hwf.
  unfold delete. induction m as [|[k' v'] m IH]; simpl.
  - rewrite filter_cons. by rewrite decide_False by naive_solver.
  - case_decide as Hd; rewrite !filter_cons; simpl; subst.
    + by rewrite !decide_False by naive_solver.
    + rewrite !decide_True by done. by rewrite IH.
Qed.

Lemma set_fresh k v m : k ∉ keys m -> set k v m = m ++ [(k, v)].
Proof.
  unfold keys. induction m as [|[k' v'] m IH]; simpl; [done|]. intros Hk.
  rewrite decide_False by set_solver. by rewrite IH by set_solver.
Qed.

Lemma wf_empty : wf empty.
Proof. apply NoDup_nil_2. Qed.
End JsMap.
End JsMap.

#[export] Hint Resolve JsMap.wf_set JsMap.wf_delete JsMap.wf_empty : bud.

(** ** Insertion-ordered sets *)

Module JsSet.
Section JsSet.
Context {A : Type} `{EqDecision A}.

(** [s.add(x)]. *)
Definition add (x : A) (s : list A) : list A :=
  if decide (x ∈ s) then s else s ++ [x].

(** [s.delete(x)]. *)
Definition delete (x : A) (s : list A) : list A := filter (fun y => y <> x) s.

(** [new Set(xs)], then spread: first occurrences in order. *)
Definition of_list (l : list A) : list A := foldl (fun s x => add x s) [] l.

Lemma elem_add x y s : y ∈ add x s <-> y = x \/ y ∈ s.
Proof. unfold add. case_decide; set_solver. Qed.

Lemma elem_delete x y s : y ∈ delete x s <-> y <> x /\ y ∈ s.
Proof. unfold delete. by rewrite list_elem_of_filter. Qed.

Lemma NoDup_add x s : NoDup s -> NoDup (add x s).
Proof.
  unfold add. case_decide; [done|]. intros.
  apply NoDup_app; split_and!; [done | set_solver | apply NoDup_singleton].
Qed.

Lemma NoDup_delete x s : NoDup s -> NoDup (delete x s).
Proof. apply NoDup_filter. Qed.

Lemma of_list_acc l acc :
  (forall x, x ∈ foldl (fun s x => add x s) acc l <-> x ∈ acc \/ x ∈ l)
  /\ (NoDup acc -> NoDup (foldl (fun s x => add x s) acc l)).
Proof.
  revert acc. induction l as [|y l IH]; intros acc; simpl; [set_solver|].
  destruct (IH (add y acc)) as [He Hn]. split.
  - intros x. rewrite He, elem_add. set_solver.
  - intros. by apply Hn, NoDup_add.
Qed.

Lemma elem_of_list x l : x ∈ of_list l <-> x ∈ l.
Proof. unfold of_list. rewrite (proj1 (of_list_acc l [])). set_solver. Qed.

Lemma NoDup_of_list l : NoDup (of_list l).
Proof. apply (proj2 (of_list_acc l [])), NoDup_nil_2. Qed.

Lemma of_list_app_acc l acc :
  NoDup (acc ++ l) -> foldl (fun s x => add x s) acc l = acc ++ l.
Proof.
  revert acc. induction l as [|y l IH]; intros acc Hnd; simpl.
  - by rewrite app_nil_r.
  - assert (y ∉ acc).
    { intros Hin. apply NoDup_app in Hnd as (_ & H & _). set_solver. }
    unfold add. rewrite decide_False by done.
    rewrite IH; [by rewrite <-(assoc_L (++))|].
    by rewrite <-(assoc_L (++)).
Qed.

Lemma of_list_NoDup l : NoDup l -> of_list l = l.
Proof. intros. by apply (of_list_app_acc l []). Qed.
End JsSet.
End JsSet.

#[export] Hint Resolve JsSet.NoDup_add JsSet.NoDup_delete JsSet.NoDup_of_list : bud.

(** [findIndex(p)], [None] for -1. *)
Definition find_index {A} (p : A -> bool) : list A -> option nat :=
  fix go l :=
    match l with
    | [] => None
    | x :: l => if p x then Some 0%nat else S <$> go l
    end.

Lemma find_index_Some {A} (p : A -> bool) l i :
  find_index p l = Some i ->
  exists a x b, l = a ++ x :: b /\ length a = i /\ p x = true
    /\ Forall (fun y => p y = false) a.
Proof.
  revert i. induction l as [|y l IH]; intros i; simpl; [done|].
  destruct (p y) eqn:E; intros; simplify_eq.
  - by exists [], y, l.
  - destruct (find_index p l) as [j|]; [|done]. simplify_eq/=.
    destruct (IH j eq_refl) as (a & x & b & -> & Hl & Hx & Ha).
    exists (y :: a), x, b. split_and!; simpl; [done | lia | done | by constructor].
Qed.

Lemma find_index_None {A} (p : A -> bool) l :
  find_index p l = None <-> Forall (fun y => p y = false) l.
Proof.
  induction l as [|y l IH]; simpl; [done|].
  rewrite Forall_cons. destruct (p y); [naive_solver|].
  rewrite fmap_None, IH. naive_solver.
Qed.

Lemma find_index_hit {A} (p : A -> bool) a x b :
  Forall (fun y => p y = false) a -> p x = true ->
  find_index p (a ++ x :: b) = Some (length a).
Proof.
  induction 1 as [|y a Hy _ IH]; simpl; intros Hx; [by rewrite Hx|].
  by rewrite Hy, IH.
Qed.

(** ** Strings *)

(** [a < b] on strings: code unit by code unit, which on the ASCII identifiers
    the sources compare is the order of the characters. *)
Definition str_lt (a b : string) : bool := String.ltb a b.

Lemma str_lt_le a b : str_lt a b = true <-> String.le a b /\ a <> b.
Proof.
  unfold str_lt, String.le, String.ltb, String.leb.
  destruct (String.compare a b) eqn:E; simpl; split; try done.
  - apply String.compare_eq_iff in E. naive_solver.
  - intros _. split; [done|]. intros ->.
    pose proof (String.compare_antisym b b) as A. by rewrite E in A.
  - by intros [? _].
Qed.

Lemma str_lt_irrefl a : str_lt a a = false.
Proof.
  destruct (str_lt a a) eqn:E; [|done]. apply str_lt_le in E. naive_solver.
Qed.

Lemma str_lt_trans a b c : str_lt a b = true -> str_lt b c = true -> str_lt a c = true.
Proof.
  rewrite !str_lt_le. intros [? ?] [? ?]. split; [by etrans|].
  intros ->. by apply (anti_symm String.le c b) in H as ->.
Qed.

Lemma str_lt_total a b : str_lt a b = true \/ a = b \/ str_lt b a = true.
Proof.
  rewrite !str_lt_le. destruct (decide (a = b)); [by right; left|].
  destruct (total String.le a b); naive_solver.
Qed.

(** [Number.prototype.toString] padded to a fixed width with zeros. *)
Fixpoint pad_digits (width : nat) (z : Z) : string :=
  match width with
  | O => ""
  | S w => pad_digits w (z / 10)
           +:+ String (Ascii.ascii_of_nat (48 + Z.to_nat (z mod 10))) ""
  end.

(** The civil date of a day count since 1970-01-01, proleptic Gregorian: the
    year starts in March, so that the leap day is the last of the year. *)
Definition civil_of_days (days : Z) : Z * Z * Z :=
  (let z := days + 719468 in
   let era := z / 146097 in
   let doe := z mod 146097 in
   let yoe := (doe - doe / 1460 + doe / 36524 - doe / 146096) / 365 in
   let doy := doe - (365 * yoe + yoe / 4 - yoe / 100) in
   let mp := (5 * doy + 2) / 153 in
   let d := doy - (153 * mp + 2) / 5 + 1 in
   let m := if mp <? 10 then mp + 3 else mp - 9 in
   let y := yoe + era * 400 + (if m <=? 2 then 1 else 0) in
   (y, m, d))%Z.

(** [date.toISOString()] of a time in milliseconds since the epoch. *)
Definition toISOString (ms : Z) : string :=
  let '(y, m, d) := civil_of_days (ms / 86400000)%Z in
  let t := (ms mod 86400000)%Z in
  let year := if (y <? 0)%Z then "-" +:+ pad_digits 6 (- y)
              else if (9999 <? y)%Z then "+" +:+ pad_digits 6 y
              else pad_digits 4 y in
  year +:+ "-" +:+ pad_digits 2 m +:+ "-" +:+ pad_digits 2 d
  +:+ "T" +:+ pad_digits 2 (t / 3600000)
  +:+ ":" +:+ pad_digits 2 (t / 60000 mod 60)
  +:+ ":" +:+ pad_digits 2 (t / 1000 mod 60)
  +:+ "." +:+ pad_digits 3 (t mod 1000) +:+ "Z".

Example toISOString_leap_day : toISOString 1709210096789 = "2024-02-29T12:34:56.789Z".
Proof. vm_compute. reflexivity. Qed.

Example toISOString_before_epoch : toISOString (-1) = "1969-12-31T23:59:59.999Z".
Proof. vm_compute. reflexivity. Qed.

(** [s.startsWith(p)]. *)
Definition starts_with (p s : string) : bool := String.prefix p s.

(** [isString(v) && v.length > 0 ? v : null]. *)
Definition nonempty_string (v : jsval) : option string :=
  match v with JStr s => if str_truthy s then Some s else None | _ => None end.
