(* ===== verification/Base64.v ===== *)
(** Node's base64 codec, [Buffer.from(s, "base64")] and
    [buffer.toString("base64")], which carry terminal output and stream chunks
    through JSON frames.

    Decoding is Node's forgiving decoder: it accepts the standard and the
    URL-safe alphabet, skips every other character, stops at the first ['='],
    and drops an incomplete trailing group. *)
From Stdlib Require Import Ascii Strings.Byte NArith ZArith Lia.
From stdpp Require Import base tactics strings gmap sorting option.
From stdpp Require Import list.
From S2P Require Import Prelude.

#[local] Open Scope N_scope.

(** The character of a 6-bit group. *)
Definition sextet_char (n : N) : Ascii.ascii :=
  default "="%char
    (String.get (N.to_nat n)
       "ABCDEFGHIJKLMNOPQRSTUVWXYZabcdefghijklmnopqrstuvwxyz0123456789+/").

(** The 6-bit group of a character of either alphabet. *)
Definition char_sextet (c : Ascii.ascii) : option N :=
  let n := Ascii.N_of_ascii c in
  if (65 <=? n) && (n <=? 90) then Some (n - 65)
  else if (97 <=? n) && (n <=? 122) then Some (n - 71)
  else if (48 <=? n) && (n <=? 57) then Some (n + 4)
  else if (n =? 43) || (n =? 45) then Some 62
  else if (n =? 47) || (n =? 95) then Some 63
  else None.

(** The low byte of a number. *)
Definition byte_of (n : N) : byte := default x00 (Byte.of_N (n mod 256)).

(** [buffer.toString("base64")]. *)
Fixpoint encode (bs : list byte) : string :=
  match bs with
  | [] => ""
  | [a] =>
      let a := Byte.to_N a in
      String (sextet_char (a / 4)) (String (sextet_char (a mod 4 * 16)) "==")
  | [a; b] =>
      let a := Byte.to_N a in
      let b := Byte.to_N b in
      String (sextet_char (a / 4))
        (String (sextet_char (a mod 4 * 16 + b / 16))
          (String (sextet_char (b mod 16 * 4)) "="))
  | a :: b :: c :: r =>
      let a := Byte.to_N a in
      let b := Byte.to_N b in
      let c := Byte.to_N c in
      String (sextet_char (a / 4))
        (String (sextet_char (a mod 4 * 16 + b / 16))
          (String (sextet_char (b mod 16 * 4 + c / 64))
            (String (sextet_char (c mod 64)) (encode r))))
  end.

(** The groups of a text, up to the first ['=']. *)
Fixpoint sextets (s : string) : list N :=
  match s with
  | "" => []
  | String c s =>
      if Ascii.eqb c "="%char then []
      else match char_sextet c with
           | Some n => n :: sextets s
           | None => sextets s
           end
  end%string.

(** The bytes of a list of groups. *)
Fixpoint regroup (l : list N) : list byte :=
  match l with
  | a :: b :: c :: d :: r =>
      byte_of (a * 4 + b / 16) :: byte_of (b * 16 + c / 4)
        :: byte_of (c * 64 + d) :: regroup r
  | [a; b; c] => [byte_of (a * 4 + b / 16); byte_of (b * 16 + c / 4)]
  | [a; b] => [byte_of (a * 4 + b / 16)]
  | _ => []
  end.

(** [Buffer.from(s, "base64")]. *)
Definition decode (s : string) : list byte := regroup (sextets s).

(** ** Every group survives its character *)

Lemma sextet_table :
  forallb (fun n => match char_sextet (sextet_char n) with
                    | Some m => (m =? n) && negb (Ascii.eqb (sextet_char n) "="%char)
                    | None => false
                    end) (N.of_nat <$> seq 0 64) = true.
Proof. vm_compute. reflexivity. Qed.

Lemma sextet_char_ok n : n < 64 ->
  char_sextet (sextet_char n) = Some n /\ Ascii.eqb (sextet_char n) "="%char = false.
Proof.
  intros. pose proof sextet_table as T. rewrite forallb_forall in T.
  assert (In n (N.of_nat <$> seq 0 64)) as Hin.
  { apply list_elem_of_In, list_elem_of_fmap. exists (N.to_nat n).
    rewrite elem_of_seq. lia. }
  specialize (T n Hin). simpl in T.
  case_match; [|done]. apply andb_true_iff in T as [->%N.eqb_eq T%negb_true_iff]. done.
Qed.

Lemma sextets_char n s : n < 64 -> sextets (String (sextet_char n) s) = n :: sextets s.
Proof. intros [Hc He]%sextet_char_ok. simpl. by rewrite He, Hc. Qed.

(** Packing [x] above [k] low values and unpacking it again. *)
Lemma pack_div k x y : y < k -> (x * k + y) / k = x.
Proof. intros. rewrite N.div_add_l by lia. rewrite N.div_small by done. lia. Qed.

Lemma pack_mod k x y : y < k -> (x * k + y) mod k = y.
Proof.
  intros. rewrite N.add_comm, N.Div0.mod_add. by apply N.mod_small.
Qed.

Lemma byte_of_pack b x n : n = x * 256 + Byte.to_N b -> byte_of n = b.
Proof.
  intros ->. unfold byte_of.
  rewrite pack_mod by (pose proof (Byte.to_N_bounded b); lia).
  by rewrite Byte.of_to_N.
Qed.

Lemma to_N_lt b : Byte.to_N b < 256.
Proof. pose proof (Byte.to_N_bounded b). lia. Qed.

(** Quotients and remainders of a byte, bounded. *)
Lemma split_at k n m : 0 < k -> n < k * m -> n = n / k * k + n mod k /\ n mod k < k /\ n / k < m.
Proof.
  intros. pose proof (N.mod_lt n k). pose proof (N.div_mod n k).
  pose proof (N.Div0.div_lt_upper_bound n k m). split_and!; try lia.
Qed.

#[local] Ltac bound_bytes :=
  repeat match goal with x : byte |- _ =>
    lazymatch goal with
    | _ : Byte.to_N x < 256 |- _ => fail
    | _ => pose proof (to_N_lt x);
           pose proof (split_at 4 (Byte.to_N x) 64);
           pose proof (split_at 16 (Byte.to_N x) 16);
           pose proof (split_at 64 (Byte.to_N x) 4)
    end end.

(** Induction three bytes at a time, the way the codec walks a buffer. *)
Lemma three_ind {A} (P : list A -> Prop) :
  P [] -> (forall a, P [a]) -> (forall a b, P [a; b]) ->
  (forall a b c l, P l -> P (a :: b :: c :: l)) -> forall l, P l.
Proof.
  intros H0 H1 H2 H3. fix IH 1. intros [|a [|b [|c l]]];
    [done | apply H1 | apply H2 | apply H3, IH].
Qed.

(** The three bytes of a group come back from its four sextets. *)
Lemma byte0_back a r :
  r < 16 -> byte_of (Byte.to_N a / 4 * 4 + (Byte.to_N a mod 4 * 16 + r) / 16) = a.
Proof. intros. apply (byte_of_pack _ 0). rewrite pack_div by done. bound_bytes. lia. Qed.

Lemma byte1_back x b r :
  r < 4 ->
  byte_of ((x * 16 + Byte.to_N b / 16) * 16 + (Byte.to_N b mod 16 * 4 + r) / 4) = b.
Proof. intros. apply (byte_of_pack _ x). rewrite pack_div by done. bound_bytes. lia. Qed.

Lemma byte2_back x c :
  byte_of ((x * 4 + Byte.to_N c / 64) * 64 + Byte.to_N c mod 64) = c.
Proof. apply (byte_of_pack _ x). bound_bytes. lia. Qed.

Lemma decode_encode bs : decode (encode bs) = bs.
Proof.
  unfold decode. induction bs as [|a|a b|a b c bs IH] using three_ind; [done|..].
  all: bound_bytes; cbn [encode]; rewrite ?sextets_char by lia; simpl.
  - f_equal. rewrite <-(N.add_0_r (_ mod 4 * 16)). by apply byte0_back.
  - rewrite byte0_back by lia. rewrite <-(N.add_0_r (_ mod 16 * 4)).
    by rewrite byte1_back.
  - by rewrite IH, byte0_back, byte1_back, byte2_back by lia.
Qed.

(** The encoder emits one four-character group per three bytes. *)
Lemma encode_length bs :
  String.length (encode bs) = (4 * ((length bs + 2) / 3))%nat.
Proof.
  induction bs as [|a|a b|a b c bs IH] using three_ind; [done..|].
  cbn [encode String.length length]. rewrite IH.
  replace (S (S (S (length bs))) + 2)%nat with (length bs + 2 + 1 * 3)%nat by lia.
  rewrite Nat.div_add by lia. lia.
Qed.
