(* ===== verification/EventBus.v ===== *)
(** The in-memory SSE fan-out of [service/src/runtime/event-bus.ts].

    A bus keeps, per channel, the set of live listeners and a bounded replay
    buffer. [emit] appends to the buffer (unless the event is live-only) and
    calls every listener; [attach] and [attachCallback] register a listener and
    replay what it missed after the last event it saw.

    A listener is the identity of its closure; a call of a listener is an
    element of the returned delivery list. [emit] catches what a listener
    throws and goes on, so a delivery does not depend on the earlier ones. The
    listeners do not call the bus back. *)
From Stdlib Require Import ZArith Lia.
From stdpp Require Import base tactics strings gmap sorting option.
From stdpp Require Import list.
From S2P Require Import Prelude JsRuntime.

Record SseEvent := mkEvent {
  ev_event : string;
  ev_data : list (string * jsval);
  ev_id : option string;
}.

Record SseEventBus := mkBus {
  bus_listeners : list (string * list nat);
  bus_buffers : list (string * list SseEvent);
  bufferLimit : nat;
}.

(** [new SseEventBus(bufferLimit = 1000)]. *)
Definition new_bus (limit : nat) : SseEventBus := mkBus [] [] limit.
Definition default_buffer_limit : nat := 1000.

Definition set_buffers (bs : list (string * list SseEvent)) (b : SseEventBus) : SseEventBus :=
  mkBus (bus_listeners b) bs (bufferLimit b).
Definition set_listeners (ls : list (string * list nat)) (b : SseEventBus) : SseEventBus :=
  mkBus ls (bus_buffers b) (bufferLimit b).

(** [this.buffers.get(channelId) ?? []]. *)
Definition bus_buffer (ch : string) (b : SseEventBus) : list SseEvent :=
  JsMap.get ch (bus_buffers b) ?? [].

(** [this.listeners.get(channelId)], empty when there is none. *)
Definition bus_channel (ch : string) (b : SseEventBus) : list nat :=
  JsMap.get ch (bus_listeners b) ?? [].

(** [buffer.push(event); if (buffer.length > this.bufferLimit) buffer.shift()]. *)
Definition push_bounded (limit : nat) (e : SseEvent) (buf : list SseEvent) : list SseEvent :=
  let buf := buf ++ [e] in
  if (limit <? length buf)%nat then tail buf else buf.

(** [emit(channelId, event, { buffer })]: the new bus and the listener calls,
    in the order of the listener set. *)
Definition emit (ch : string) (e : SseEvent) (buffer : bool) (b : SseEventBus)
  : SseEventBus * list (nat * SseEvent) :=
  let b := if buffer
           then set_buffers
                  (JsMap.set ch (push_bounded (bufferLimit b) e (bus_buffer ch b))
                     (bus_buffers b)) b
           else b in
  (b, (fun l => (l, e)) <$> bus_channel ch b).

(** [clearBuffer(channelId)]. *)
Definition clearBuffer (ch : string) (b : SseEventBus) : SseEventBus :=
  set_buffers (JsMap.delete ch (bus_buffers b)) b.

Record ReplayState := mkReplay {
  rp_buffer : list SseEvent;
  rp_replay : list SseEvent;
  rp_resumeFound : option bool;
}.

Definition event_has_id (i : string) (e : SseEvent) : bool :=
  bool_decide (ev_id e = Some i).

(** [getReplayBuffer(channelId, { lastEventId })]. *)
Definition getReplayBuffer (ch : string) (lastEventId : option string) (b : SseEventBus)
  : ReplayState :=
  let buffer := bus_buffer ch b in
  match lastEventId with
  | Some i =>
      if str_truthy i then
        match find_index (event_has_id i) buffer with
        | None => mkReplay buffer [] (Some false)
        | Some k => mkReplay buffer (drop (S k) buffer) (Some true)
        end
      else mkReplay buffer buffer None
  | None => mkReplay buffer buffer None
  end.

(** [listeners.get(ch) ?? new Set()], add, store back. *)
Definition add_listener (ch : string) (l : nat) (b : SseEventBus) : SseEventBus :=
  set_listeners (JsMap.set ch (JsSet.add l (bus_channel ch b)) (bus_listeners b)) b.

(** What [attach] writes to the SSE reply. *)
Inductive sse_write :=
  | Heartbeat (ts : Z) (initial : bool)
  | SseSend (e : SseEvent).

(** [attach(channelId, reply, options)]: [l] is the listener closure it
    creates; the second component is what it writes to [reply]. *)
Definition attach (ch : string) (l : nat) (lastEventId : option string) (now : Z)
    (b : SseEventBus) : SseEventBus * list sse_write :=
  let b := add_listener ch l b in
  let rs := getReplayBuffer ch lastEventId b in
  (b,
   (if bool_decide (rp_replay rs = [])
    then [Heartbeat now (bool_decide (rp_buffer rs = []))] else [])
   ++ (SseSend <$> rp_replay rs)).

(** [attachCallback(channelId, callback, options)]. *)
Definition attachCallback (ch : string) (l : nat) (lastEventId : option string)
    (replay : bool) (b : SseEventBus) : SseEventBus * list (nat * SseEvent) :=
  let b := add_listener ch l b in
  (b, if replay then (fun e => (l, e)) <$> rp_replay (getReplayBuffer ch lastEventId b)
      else []).

(** The closure [attach] and [attachCallback] return. *)
Definition detach (ch : string) (l : nat) (b : SseEventBus) : SseEventBus :=
  match JsMap.get ch (bus_listeners b) with
  | None => b
  | Some set =>
      let set := JsSet.delete l set in
      set_listeners
        (if bool_decide (set = []) then JsMap.delete ch (bus_listeners b)
         else JsMap.set ch set (bus_listeners b)) b
  end.

(** ** A bus in use: sequences of operations *)

Inductive bus_op :=
  | OpEmit (ch : string) (e : SseEvent) (buffer : bool)
  | OpClear (ch : string)
  | OpAttach (ch : string) (l : nat) (lastEventId : option string) (replay : bool)
  | OpDetach (ch : string) (l : nat).

Definition bus_step (o : bus_op) (b : SseEventBus) : SseEventBus :=
  match o with
  | OpEmit ch e buffer => (emit ch e buffer b).1
  | OpClear ch => clearBuffer ch b
  | OpAttach ch l i replay => (attachCallback ch l i replay b).1
  | OpDetach ch l => detach ch l b
  end.

Definition bus_run (os : list bus_op) (b : SseEventBus) : SseEventBus :=
  foldl (fun b o => bus_step o b) b os.

(** The specification: a channel's history is what was published to it since
    it was last cleared. *)
Module BusSpec.
Definition step (o : bus_op) (ch : string) (h : list SseEvent) : list SseEvent :=
  match o with
  | OpEmit ch' e true => if decide (ch = ch') then h ++ [e] else h
  | OpClear ch' => if decide (ch = ch') then [] else h
  | _ => h
  end.

Definition history (os : list bus_op) (ch : string) : list SseEvent :=
  foldl (fun h o => step o ch h) [] os.

(** The listeners attached to a channel and not detached since. *)
Definition listener_step (o : bus_op) (ch : string) (ls : list nat) : list nat :=
  match o with
  | OpAttach ch' l _ _ => if decide (ch = ch') then JsSet.add l ls else ls
  | OpDetach ch' l => if decide (ch = ch') then JsSet.delete l ls else ls
  | _ => ls
  end.

Definition live (os : list bus_op) (ch : string) : list nat :=
  foldl (fun ls o => listener_step o ch ls) [] os.
End BusSpec.

(** ** One operation at a time *)

Lemma push_bounded_last_n limit e h :
  push_bounded limit e (last_n limit h) = last_n limit (h ++ [e]).
Proof.
  rewrite <-last_n_last_n_app. unfold push_bounded.
  assert (length (last_n limit h) <= limit) by (rewrite last_n_length; lia).
  rewrite length_app. simpl. destruct (Nat.ltb_spec limit (length (last_n limit h) + 1)).
  - unfold last_n at 2. rewrite length_app. simpl.
    replace (length (last_n limit h) + 1 - limit) with 1 by lia.
    by destruct (last_n limit h ++ [e]).
  - rewrite (last_n_all limit (last_n limit h ++ [e])); [done|].
    rewrite length_app. simpl. lia.
Qed.

Lemma bus_step_buffer o ch b h :
  bus_buffer ch b = last_n (bufferLimit b) h ->
  bus_buffer ch (bus_step o b) = last_n (bufferLimit b) (BusSpec.step o ch h)
  /\ bufferLimit (bus_step o b) = bufferLimit b.
Proof.
  intros Hb. destruct o as [ch' e []|ch'|ch' l i r|ch' l]; simpl; unfold bus_buffer in *; simpl.
  - rewrite JsMap.get_set. case_decide; subst; simpl; split; auto.
    fold (bus_buffer ch' b) in Hb |- *. by rewrite Hb, push_bounded_last_n.
  - auto.
  - rewrite JsMap.get_delete. case_decide; subst; simpl; by split.
  - auto.
  - unfold detach. case_match; auto.
Qed.

Lemma bus_step_channel o ch b :
  bus_channel ch (bus_step o b) = BusSpec.listener_step o ch (bus_channel ch b).
Proof.
  destruct o as [ch' e []|ch'|ch' l i r|ch' l]; simpl; unfold bus_channel; simpl; try done.
  - rewrite JsMap.get_set. case_decide; by subst.
  - unfold detach. destruct (JsMap.get ch' (bus_listeners b)) as [s|] eqn:E; simpl.
    + case_bool_decide as Hs; rewrite ?JsMap.get_delete, ?JsMap.get_set;
        (case_decide; subst; [|done]); by rewrite E, ?Hs.
    + case_decide; subst; [|done]. by rewrite E.
Qed.

Lemma bus_run_buffer os ch b h :
  bus_buffer ch b = last_n (bufferLimit b) h ->
  bus_buffer ch (bus_run os b)
  = last_n (bufferLimit b) (foldl (fun h o => BusSpec.step o ch h) h os).
Proof.
  revert b h. induction os as [|o os IH]; intros b h Hb; [done|]. simpl.
  destruct (bus_step_buffer o ch b h Hb) as [Hs Hl].
  rewrite <-Hl in Hs. apply IH in Hs. unfold bus_run in Hs |- *. by rewrite Hs, Hl.
Qed.

Lemma bus_run_channel os ch b :
  bus_channel ch (bus_run os b)
  = foldl (fun ls o => BusSpec.listener_step o ch ls) (bus_channel ch b) os.
Proof.
  revert b. induction os as [|o os IH]; intros b; [done|]. simpl.
  unfold bus_run in *. simpl. by rewrite IH, bus_step_channel.
Qed.

Lemma live_NoDup os ch : NoDup (BusSpec.live os ch).
Proof.
  unfold BusSpec.live. generalize (NoDup_nil_2 (A := nat)). generalize (@nil nat).
  induction os as [|o os IH]; intros ls Hls; [done|]. simpl. apply IH.
  destruct o; simpl; try case_decide; auto with bud.
Qed.

Lemma bufferLimit_run os b : bufferLimit (bus_run os b) = bufferLimit b.
Proof.
  revert b. induction os as [|o os IH]; intros b; [done|].
  unfold bus_run in *. simpl. rewrite IH.
  destruct o as [? ? []| | |]; try done. simpl. unfold detach. by case_match.
Qed.

(** Locating the last seen event in the retained window. *)
Lemma find_event_unique i buf pre e post :
  buf = pre ++ e :: post -> ev_id e = Some i ->
  Forall (fun x => ev_id x <> Some i) pre ->
  find_index (event_has_id i) buf = Some (length pre).
Proof.
  intros -> He Hpre. apply find_index_hit.
  - eapply Forall_impl; [exact Hpre|]. intros x Hx. unfold event_has_id.
    by apply bool_decide_eq_false.
  - unfold event_has_id. by apply bool_decide_eq_true.
Qed.

Lemma suffix_split {A} (w pre post : list A) e :
  w `suffix_of` (pre ++ e :: post) -> length post < length w ->
  exists mid, w = mid ++ e :: post /\ mid `suffix_of` pre.
Proof.
  intros Hw Hl. exists (last_n (length w - S (length post)) pre).
  assert (length w <= length pre + S (length post)).
  { apply suffix_length in Hw. rewrite length_app in Hw. simpl in Hw. lia. }
  split; [|apply last_n_suffix].
  eapply suffix_same_length; [exact Hw| |].
  - apply suffix_app_same, last_n_suffix.
  - rewrite length_app, last_n_length. simpl. lia.
Qed.

(** The replay of a channel whose history holds the last seen event once. *)
Lemma replay_after_last_seen ch i b pre e post :
  bus_buffer ch b = last_n (bufferLimit b) (pre ++ e :: post) ->
  ev_id e = Some i -> i <> "" ->
  Forall (fun x => ev_id x <> Some i) (pre ++ post) ->
  getReplayBuffer ch (Some i) b
  = mkReplay (bus_buffer ch b)
      (if (length post <? bufferLimit b)%nat then post else [])
      (Some (length post <? bufferLimit b)%nat).
Proof.
  intros Hb He Hi [Hpre Hpost]%Forall_app. unfold getReplayBuffer.
  rewrite (proj2 (str_truthy_true i) Hi).
  destruct (Nat.ltb_spec (length post) (bufferLimit b)) as [Hlt|Hge].
  - destruct (suffix_split (bus_buffer ch b) pre post e) as (mid & Hw & [p ->]).
    { rewrite Hb. apply last_n_suffix. }
    { rewrite Hb, last_n_length, length_app. simpl. lia. }
    apply Forall_app in Hpre as [_ Hmid].
    rewrite (find_event_unique i _ mid e post Hw He Hmid).
    f_equal. rewrite Hw, (cons_middle e), (assoc_L (++)).
    apply drop_app_length'. rewrite length_app. simpl. lia.
  - assert (find_index (event_has_id i) (bus_buffer ch b) = None) as ->; [|done].
    apply find_index_None. rewrite Hb.
    replace (last_n (bufferLimit b) (pre ++ e :: post)) with (last_n (bufferLimit b) post).
    + eapply Forall_impl; [eapply Forall_drop, Hpost|]. intros x Hx.
      by apply bool_decide_eq_false.
    + apply (suffix_same_length _ _ (pre ++ e :: post)).
      * etrans; [apply last_n_suffix|]. exists (pre ++ [e]).
        by rewrite <-(assoc_L (++)).
      * apply last_n_suffix.
      * rewrite !last_n_length, length_app. simpl. lia.
Qed.

(** ** Properties *)

(** After any sequence of operations, the replay buffer of a channel is
    the last [bufferLimit] events published to it since it was last cleared, in
    publication order, and its listener set is the listeners attached and not
    detached since, each once. *)
Lemma bus_history (os : list bus_op) (limit : nat) (ch : string) :
  bus_buffer ch (bus_run os (new_bus limit)) = last_n limit (BusSpec.history os ch)
  /\ bus_channel ch (bus_run os (new_bus limit)) = BusSpec.live os ch
  /\ NoDup (bus_channel ch (bus_run os (new_bus limit))).
Proof.
  rewrite bus_run_channel. split_and!.
  - by apply (bus_run_buffer os ch (new_bus limit) []).
  - done.
  - apply live_NoDup.
Qed.

(** A listener that resumes after the last event it saw is replayed
    exactly the events published after it, in order, as long as the bounded
    buffer still holds that event; once the event has been evicted nothing is
    replayed and the resume is reported as not found. *)
Lemma bus_resume (os : list bus_op) (limit : nat) (ch i : string) (l : nat)
    (pre post : list SseEvent) (e : SseEvent) :
  BusSpec.history os ch = pre ++ e :: post ->
  ev_id e = Some i -> i <> "" ->
  Forall (fun x => ev_id x <> Some i) (pre ++ post) ->
  let b := bus_run os (new_bus limit) in
  (attachCallback ch l (Some i) true b).2
  = (if (length post <? limit)%nat then (fun e => (l, e)) <$> post else [])
  /\ rp_resumeFound (getReplayBuffer ch (Some i) b) = Some (length post <? limit)%nat.
Proof.
  intros Hh He Hi Hu b.
  assert (bufferLimit b = limit) as Hlim by apply bufferLimit_run.
  assert (Hb : bus_buffer ch b = last_n (bufferLimit b) (pre ++ e :: post)).
  { rewrite <-Hh, Hlim. by apply (bus_run_buffer os ch (new_bus limit) []). }
  rewrite (replay_after_last_seen ch i b pre e post Hb He Hi Hu), Hlim. split; [|done].
  unfold attachCallback. cbn [snd].
  rewrite (replay_after_last_seen ch i (add_listener ch l b) pre e post Hb He Hi Hu).
  cbn [rp_replay bufferLimit add_listener set_listeners]. rewrite Hlim. by case_match.
Qed.

(** C1: After any sequence of operations the replay buffer of a channel is the last
    [bufferLimit] events published to it since it was last cleared, in order, and its
    listener set the listeners attached and not detached since, each once; and a
    listener that resumes after the last event it saw is replayed exactly the later
    events while the buffer still holds that event, and once it is evicted nothing,
    the resume being reported as not found. *)
Theorem bus_refines_history (os : list bus_op) (limit : nat) (ch : string) :
  let b := bus_run os (new_bus limit) in
  bus_buffer ch b = last_n limit (BusSpec.history os ch)
  /\ bus_channel ch b = BusSpec.live os ch /\ NoDup (bus_channel ch b)
  /\ forall i l pre post e,
       BusSpec.history os ch = pre ++ e :: post -> ev_id e = Some i -> i <> "" ->
       Forall (fun x => ev_id x <> Some i) (pre ++ post) ->
       (attachCallback ch l (Some i) true b).2
       = (if (length post <? limit)%nat then (fun e => (l, e)) <$> post else [])
       /\ rp_resumeFound (getReplayBuffer ch (Some i) b) = Some (length post <? limit)%nat.
Proof.
  intros b. destruct (bus_history os limit ch) as (H1 & H2 & H3). split_and!; [done..|].
  intros i l pre post e. apply bus_resume.
Qed.

Lemma bus_refines_history_witness :
  let ev i := mkEvent "terminal.output" [] (Some i) in
  (attachCallback "s1" 7 (Some "8") true
     (bus_run [OpEmit "s1" (ev "4") true; OpEmit "s1" (ev "8") true;
               OpEmit "s2" (ev "9") true; OpEmit "s1" (ev "12") true] (new_bus 2))).2
  = [(7%nat, ev "12")].
Proof.
  intros ev.
  refine (proj1 (proj2 (proj2 (proj2 (bus_refines_history
    [OpEmit "s1" (ev "4") true; OpEmit "s1" (ev "8") true;
     OpEmit "s2" (ev "9") true; OpEmit "s1" (ev "12") true] 2 "s1"))) "8" 7%nat
    [ev "4"] [ev "12"] (ev "8") _ _ _ _)); try reflexivity; try discriminate.
  repeat constructor; discriminate.
Defined.
