(* ===== verification/MessageView.v ===== *)
(** How a tool call is presented to clients: [toolPresentation] of
    [service/src/agent/message-view.ts]. *)
From Stdlib Require Import ZArith Lia.
From stdpp Require Import base tactics strings gmap sorting option.
From stdpp Require Import list.
From S2P Require Import Prelude JsRuntime.

Inductive tool_kind :=
  | Kquestions | Kapp_permission | Kautomation_activation | Kbootstrap
  | Kbrowser_handoff | Kterminal | Kgeneric.

#[export] Instance tool_kind_eq_dec : EqDecision tool_kind.
Proof. solve_decision. Defined.

Record ToolPresentation := mkPresentation {
  tp_kind : tool_kind;
  tp_id : option string;
  tp_status : option string;
}.

(** The kind a tool name and its payload select. *)
Definition tool_kind_of (name : string) (payload : list (string * jsval)) : tool_kind :=
  if bool_decide (name = "ask_user_questions") then Kquestions
  else if bool_decide (name = "data_request_api_key") then Kapp_permission
  else if bool_decide (name = "automations_request_activation") then Kautomation_activation
  else if bool_decide (name = "automations_request_existing_contacts") then Kbootstrap
  else if bool_decide (name = "browser_request_handoff")
          || bool_decide (as_string (field_lookup "wait_kind" payload) = Some "return_control")
  then Kbrowser_handoff
  else if starts_with "terminal." name then Kterminal else Kgeneric.

(** [a ?? b] where both are [string | null]. *)
Definition or_else {A} (a b : option A) : option A :=
  match a with Some x => Some x | None => b end.

Definition toolPresentation (name : string) (payload : list (string * jsval)) (pending : bool)
  : ToolPresentation :=
  let result := as_record (field_lookup "result" payload) ?? payload in
  let proposal := as_record (field_lookup "proposal" payload) ?? result in
  let request := as_record (field_lookup "request" payload) ?? result in
  let kind := tool_kind_of name payload in
  let id := match kind with
            | Kquestions | Kapp_permission => nonempty_string (field_lookup "request_id" request)
            | Kautomation_activation | Kbootstrap =>
                nonempty_string (field_lookup "proposal_id" proposal)
            | Kbrowser_handoff =>
                or_else (nonempty_string (field_lookup "handoff_id" payload))
                        (nonempty_string (field_lookup "handoff_id" result))
            | Kterminal | Kgeneric => None
            end in
  let status := if pending then Some "pending"
                else or_else (nonempty_string (field_lookup "status" proposal))
                       (or_else (nonempty_string (field_lookup "status" request))
                          (nonempty_string (field_lookup "status" payload))) in
  mkPresentation kind id status.

(** The presentation as the object literal the source builds. *)
Definition presentation_value (p : ToolPresentation) : jsval :=
  let str o := match o with Some s => JStr s | None => JNull end in
  JObj [("kind", JStr (match tp_kind p with
                       | Kquestions => "questions" | Kapp_permission => "app_permission"
                       | Kautomation_activation => "automation_activation"
                       | Kbootstrap => "bootstrap" | Kbrowser_handoff => "browser_handoff"
                       | Kterminal => "terminal" | Kgeneric => "generic"
                       end));
        ("id", str (tp_id p)); ("status", str (tp_status p))].
