(* ===== verification/AgentRuntime.v ===== *)
(** The agent runtime state of [service/src/runtime/agent-runtime-state.ts]:
    per thread, the snapshot of the running turn, the bounded replay buffer of
    published events, and the live listeners.

    The class is a state monad [M] over [manager]. A snapshot is a heap object
    the methods alias with the entry of the [snapshots] map; no method replaces
    or removes an entry once it is there, so a mutation through the alias is an
    update of the entry ([modify_snapshot]).

    - [nextCursor] is the [monotonicFactory] of the ulid package: the [n]-th
      call of the factory returns [nextCursor n].
    - [clock] is the wall clock: the [n]-th [Date.now()] or [new Date()] of the
      process reads [clock n].
    - [am_trace] records what happened (appends, buffer clears, listener
      calls) for the theorems; no operation reads it.

    A listener is the identity of its closure. [emit] catches what listeners
    throw, and listeners do not call the manager back. *)
From Stdlib Require Import ZArith Lia.
From stdpp Require Import base tactics strings gmap sorting option.
From stdpp Require Import list.
From S2P Require Import Prelude JsRuntime EventBus MessageView.

(** ** Data *)

Inductive AgentOutputActivityState := Working | Text | AwaitingCompletion.

#[export] Instance activity_state_eq_dec : EqDecision AgentOutputActivityState.
Proof. solve_decision. Defined.

Record AgentOutputActivity := mkActivity {
  oa_llm_call_id : string;
  oa_state : AgentOutputActivityState;
}.

Inductive AgentRuntimePhase :=
  | Idle | Starting | Thinking | ToolRunning | WaitingForUser | WaitingForTerminal
  | StreamingMessage.

#[export] Instance phase_eq_dec : EqDecision AgentRuntimePhase.
Proof. solve_decision. Defined.

Record AgentPendingTool := mkTool {
  pt_presentation : option ToolPresentation;
  pt_client_id : string;
  pt_call_id : string;
  pt_name : string;
  pt_args : list (string * jsval);
  pt_started_at : string;
}.

Inductive SegmentKind := Intermediate | Final.

Record DraftAssistant := mkDraft {
  da_clientId : string;
  da_segmentKind : option SegmentKind;
  da_text : string;
  da_startedAt : Z;
  da_updatedAt : Z;
}.

Record DraftReasoning := mkReasoning {
  dr_turnId : string;
  dr_clientId : string;
  dr_text : string;
  dr_llmCallId : string;
  dr_index : Z;
  dr_provider : string;
  dr_providerModel : string;
  dr_startedAt : Z;
  dr_updatedAt : Z;
}.

Record AgentRuntimeLastError := mkLastError {
  le_turn_id : string;
  le_code : string;
  le_message : string;
  le_retryable : bool;
  le_occurred_at : string;
}.

Record InternalSnapshot := mkSnapshot {
  output_activity : option AgentOutputActivity;
  active : bool;
  turnId : option string;
  phase : AgentRuntimePhase;
  canCancel : bool;
  streamCursor : string;
  pendingTool : option AgentPendingTool;
  draftAssistant : option DraftAssistant;
  draftReasoning : list DraftReasoning;
  environment : jsval;
  contextBudget : jsval;
  lastError : option AgentRuntimeLastError;
  updatedAt : Z;
}.

Definition set_output_activity (v : option AgentOutputActivity) (s : InternalSnapshot) : InternalSnapshot :=
  mkSnapshot v (active s) (turnId s) (phase s) (canCancel s) (streamCursor s) (pendingTool s) (draftAssistant s) (draftReasoning s) (environment s) (contextBudget s) (lastError s) (updatedAt s).
Definition set_active (v : bool) (s : InternalSnapshot) : InternalSnapshot :=
  mkSnapshot (output_activity s) v (turnId s) (phase s) (canCancel s) (streamCursor s) (pendingTool s) (draftAssistant s) (draftReasoning s) (environment s) (contextBudget s) (lastError s) (updatedAt s).
Definition set_turnId (v : option string) (s : InternalSnapshot) : InternalSnapshot :=
  mkSnapshot (output_activity s) (active s) v (phase s) (canCancel s) (streamCursor s) (pendingTool s) (draftAssistant s) (draftReasoning s) (environment s) (contextBudget s) (lastError s) (updatedAt s).
Definition set_phase (v : AgentRuntimePhase) (s : InternalSnapshot) : InternalSnapshot :=
  mkSnapshot (output_activity s) (active s) (turnId s) v (canCancel s) (streamCursor s) (pendingTool s) (draftAssistant s) (draftReasoning s) (environment s) (contextBudget s) (lastError s) (updatedAt s).
Definition set_canCancel (v : bool) (s : InternalSnapshot) : InternalSnapshot :=
  mkSnapshot (output_activity s) (active s) (turnId s) (phase s) v (streamCursor s) (pendingTool s) (draftAssistant s) (draftReasoning s) (environment s) (contextBudget s) (lastError s) (updatedAt s).
Definition set_streamCursor (v : string) (s : InternalSnapshot) : InternalSnapshot :=
  mkSnapshot (output_activity s) (active s) (turnId s) (phase s) (canCancel s) v (pendingTool s) (draftAssistant s) (draftReasoning s) (environment s) (contextBudget s) (lastError s) (updatedAt s).
Definition set_pendingTool (v : option AgentPendingTool) (s : InternalSnapshot) : InternalSnapshot :=
  mkSnapshot (output_activity s) (active s) (turnId s) (phase s) (canCancel s) (streamCursor s) v (draftAssistant s) (draftReasoning s) (environment s) (contextBudget s) (lastError s) (updatedAt s).
Definition set_draftAssistant (v : option DraftAssistant) (s : InternalSnapshot) : InternalSnapshot :=
  mkSnapshot (output_activity s) (active s) (turnId s) (phase s) (canCancel s) (streamCursor s) (pendingTool s) v (draftReasoning s) (environment s) (contextBudget s) (lastError s) (updatedAt s).
Definition set_draftReasoning (v : list DraftReasoning) (s : InternalSnapshot) : InternalSnapshot :=
  mkSnapshot (output_activity s) (active s) (turnId s) (phase s) (canCancel s) (streamCursor s) (pendingTool s) (draftAssistant s) v (environment s) (contextBudget s) (lastError s) (updatedAt s).
Definition set_environment (v : jsval) (s : InternalSnapshot) : InternalSnapshot :=
  mkSnapshot (output_activity s) (active s) (turnId s) (phase s) (canCancel s) (streamCursor s) (pendingTool s) (draftAssistant s) (draftReasoning s) v (contextBudget s) (lastError s) (updatedAt s).
Definition set_contextBudget (v : jsval) (s : InternalSnapshot) : InternalSnapshot :=
  mkSnapshot (output_activity s) (active s) (turnId s) (phase s) (canCancel s) (streamCursor s) (pendingTool s) (draftAssistant s) (draftReasoning s) (environment s) v (lastError s) (updatedAt s).
Definition set_lastError (v : option AgentRuntimeLastError) (s : InternalSnapshot) : InternalSnapshot :=
  mkSnapshot (output_activity s) (active s) (turnId s) (phase s) (canCancel s) (streamCursor s) (pendingTool s) (draftAssistant s) (draftReasoning s) (environment s) (contextBudget s) v (updatedAt s).
Definition set_updatedAt (v : Z) (s : InternalSnapshot) : InternalSnapshot :=
  mkSnapshot (output_activity s) (active s) (turnId s) (phase s) (canCancel s) (streamCursor s) (pendingTool s) (draftAssistant s) (draftReasoning s) (environment s) (contextBudget s) (lastError s) v.

(** What [getSnapshot] and the mutators return to callers. *)
Record SerializedDraft := mkSDraft {
  sd_client_id : string;
  sd_segment_kind : option SegmentKind;
  sd_text : string;
  sd_started_at : string;
  sd_updated_at : string;
}.

Record SerializedReasoning := mkSReasoning {
  sr_client_id : string;
  sr_text : string;
  sr_llm_call_id : string;
  sr_index : Z;
  sr_provider : string;
  sr_provider_model : string;
  sr_started_at : string;
  sr_updated_at : string;
}.

Record AgentRuntimeSnapshot := mkAgentSnapshot {
  ars_output_activity : option AgentOutputActivity;
  ars_active : bool;
  ars_turn_id : option string;
  ars_phase : AgentRuntimePhase;
  ars_can_cancel : bool;
  ars_stream_cursor : string;
  ars_pending_tool : option AgentPendingTool;
  ars_draft_assistant : option SerializedDraft;
  ars_draft_reasoning : list SerializedReasoning;
  ars_environment : jsval;
  ars_context_budget : jsval;
  ars_last_error : option AgentRuntimeLastError;
  ars_updated_at : string;
}.

(** A buffered event, or a checkpoint when [be_event] is [None]. *)
Record BufferEntry := mkEntry {
  be_cursor : string;
  be_event : option SseEvent;
  be_recordedAt : Z;
}.

Inductive trace_item :=
  | TAppend (thread : string) (e : BufferEntry)
  | TClearBuffers
  | TCall (l : nat) (e : SseEvent).

Record manager := mkManager {
  am_listeners : list (string * list nat);
  am_buffers : list (string * list BufferEntry);
  am_snapshots : list (string * InternalSnapshot);
  am_cursors : nat;
  am_ticks : nat;
  am_trace : list trace_item;
}.

Definition set_am_listeners (v : list (string * list nat)) (s : manager) : manager :=
  mkManager v (am_buffers s) (am_snapshots s) (am_cursors s) (am_ticks s) (am_trace s).
Definition set_am_buffers (v : list (string * list BufferEntry)) (s : manager) : manager :=
  mkManager (am_listeners s) v (am_snapshots s) (am_cursors s) (am_ticks s) (am_trace s).
Definition set_am_snapshots (v : list (string * InternalSnapshot)) (s : manager) : manager :=
  mkManager (am_listeners s) (am_buffers s) v (am_cursors s) (am_ticks s) (am_trace s).
Definition set_am_cursors (v : nat) (s : manager) : manager :=
  mkManager (am_listeners s) (am_buffers s) (am_snapshots s) v (am_ticks s) (am_trace s).
Definition set_am_ticks (v : nat) (s : manager) : manager :=
  mkManager (am_listeners s) (am_buffers s) (am_snapshots s) (am_cursors s) v (am_trace s).
Definition set_am_trace (v : list trace_item) (s : manager) : manager :=
  mkManager (am_listeners s) (am_buffers s) (am_snapshots s) (am_cursors s) (am_ticks s) v.

Definition new_manager : manager := mkManager [] [] [] 0 0 [].
Definition DEFAULT_BUFFER_LIMIT : nat := 256.
Definition DEFAULT_BUFFER_TTL_MS : Z := 60000.

(** ** The monad *)

Definition M (A : Type) : Type := manager -> A * manager.

#[export] Instance M_ret : MRet M := fun A x s => (x, s).
#[export] Instance M_bind : MBind M := fun A B f m s => let '(x, s') := m s in f x s'.

Definition gets {A} (f : manager -> A) : M A := fun s => (f s, s).
Definition modify (f : manager -> manager) : M unit := fun s => (tt, f s).
Definition log_item (i : trace_item) : M unit :=
  modify (fun s => set_am_trace (am_trace s ++ [i]) s).

(** [if (c) m]. *)
Definition when (c : bool) (m : M unit) : M unit := if c then m else mret tt.

(** [this.buffers.get(threadId) ?? []]. *)
Definition buffer_of (th : string) (s : manager) : list BufferEntry :=
  JsMap.get th (am_buffers s) ?? [].

(** [this.listeners.get(threadId) ?? new Set()]. *)
Definition listeners_of (th : string) (s : manager) : list nat :=
  JsMap.get th (am_listeners s) ?? [].

(** A mutation through an alias of [threadId]'s snapshot object. *)
Definition modify_snapshot (th : string) (f : InternalSnapshot -> InternalSnapshot) : M unit :=
  modify (fun s => match JsMap.get th (am_snapshots s) with
                   | Some snap => set_am_snapshots (JsMap.set th (f snap) (am_snapshots s)) s
                   | None => s
                   end).

(** [while (buffer.length > 0 && buffer[0].recordedAt < cutoff) buffer.shift()]. *)
Fixpoint drop_expired (cutoff : Z) (buf : list BufferEntry) : list BufferEntry :=
  match buf with
  | [] => []
  | e :: rest => if (be_recordedAt e <? cutoff)%Z then drop_expired cutoff rest else buf
  end.

(** [while (buffer.length > limit) buffer.shift()]. *)
Fixpoint shift_while (limit : nat) (buf : list BufferEntry) : list BufferEntry :=
  match buf with
  | [] => []
  | _ :: rest => if (limit <? length buf)%nat then shift_while limit rest else buf
  end.

(** The value of an entry that is not there; [ensureSnapshot] runs before
    every read. *)
Definition blank_snapshot (cursor : string) (now : Z) : InternalSnapshot :=
  mkSnapshot None false None Idle false cursor None None [] JNull JNull None now.

Definition snapshot_at (th : string) (s : manager) : InternalSnapshot :=
  JsMap.get th (am_snapshots s) ?? blank_snapshot "" 0.

Definition serialize_draft (d : DraftAssistant) : SerializedDraft :=
  mkSDraft (da_clientId d) (da_segmentKind d) (da_text d)
    (toISOString (da_startedAt d)) (toISOString (da_updatedAt d)).

Definition serialize_reasoning (d : DraftReasoning) : SerializedReasoning :=
  mkSReasoning (dr_clientId d) (dr_text d) (dr_llmCallId d) (dr_index d) (dr_provider d)
    (dr_providerModel d) (toISOString (dr_startedAt d)) (toISOString (dr_updatedAt d)).

Definition serializeSnapshot (sn : InternalSnapshot) : AgentRuntimeSnapshot :=
  mkAgentSnapshot (output_activity sn) (active sn) (turnId sn) (phase sn) (canCancel sn)
    (streamCursor sn)
    ((fun t => mkTool (Some (toolPresentation (pt_name t) (pt_args t) true))
                 (pt_client_id t) (pt_call_id t) (pt_name t) (pt_args t) (pt_started_at t))
       <$> pendingTool sn)
    (serialize_draft <$> draftAssistant sn)
    (serialize_reasoning <$> draftReasoning sn)
    (environment sn) (contextBudget sn) (lastError sn) (toISOString (updatedAt sn)).

(** The initial data of an attachment. *)
Inductive attachment :=
  | Attached (replay : list SseEvent) (resumeFound : option bool) (buffered : nat)
  | ResyncRequired (provided_cursor : string).

(** What [attach] writes to its reply: an SSE frame, a heartbeat, or the end of
    the response. *)
Inductive reply_write :=
  | RSse (e : SseEvent)
  | RHeartbeat (ts : Z) (initial : bool)
  | REnd.

(** The listener [attach] registers. *)
Definition reply_listener (e : SseEvent) : list reply_write :=
  RSse e :: (if bool_decide (ev_event e = "agent.resync_required") then [REnd] else []).

(** The parameter of [setDraftReasoning]. *)
Record ReasoningDraft := mkReasoningDraft {
  rd_turnId : string;
  rd_clientId : string;
  rd_text : string;
  rd_llmCallId : string;
  rd_index : Z;
  rd_provider : string;
  rd_providerModel : string;
  rd_startedAt : option Z;
}.

Definition activity_state_value (st : option AgentOutputActivityState) : jsval :=
  match st with
  | None => JNull
  | Some Working => JStr "working"
  | Some Text => JStr "text"
  | Some AwaitingCompletion => JStr "awaiting_completion"
  end.

(** The tool-call decoration at the start of [emit]. *)
Definition decorate_event (name : string) (data : list (string * jsval)) : list (string * jsval) :=
  match bool_decide (name = "agent.tool_call"), field_lookup "name" data with
  | true, JStr tool =>
      let args := as_record (field_lookup "args" data) ?? [] in
      JsMap.set "presentation" (presentation_value (toolPresentation tool args true)) data
  | _, _ => data
  end.

(** ** The operations *)

Section Manager.
Context (nextCursor : nat -> string) (clock : nat -> Z).
Context (bufferLimit : nat) (bufferTtlMs : Z).

(** [Date.now()] and [new Date()]. *)
Definition date_now : M Z := fun s => (clock (am_ticks s), set_am_ticks (S (am_ticks s)) s).

(** [this.nextCursor()]. *)
Definition next_cursor : M string :=
  fun s => (nextCursor (am_cursors s), set_am_cursors (S (am_cursors s)) s).

Definition pruneBuffer (th : string) : M unit :=
  stored ← gets (fun s => JsMap.get th (am_buffers s));
  match stored with
  | None | Some [] => mret tt
  | Some buffer =>
      now ← date_now;
      let buffer := shift_while bufferLimit (drop_expired (now - bufferTtlMs) buffer) in
      modify (fun s =>
        set_am_buffers (if bool_decide (buffer = []) then JsMap.delete th (am_buffers s)
                        else JsMap.set th buffer (am_buffers s)) s)
  end.

Definition appendBuffer (th : string) (entry : BufferEntry) : M unit :=
  pruneBuffer th;;
  log_item (TAppend th entry);;
  modify (fun s =>
    set_am_buffers (JsMap.set th (shift_while bufferLimit (buffer_of th s ++ [entry]))
                      (am_buffers s)) s).

Definition pushCheckpoint (th : string) : M string :=
  cursor ← next_cursor;
  now ← date_now;
  appendBuffer th (mkEntry cursor None now);;
  mret cursor.

(** [for (const listener of listeners) listener(event)]. *)
Definition notify (th : string) (e : SseEvent) : M unit :=
  modify (fun s => set_am_trace (am_trace s ++ ((fun l => TCall l e) <$> listeners_of th s)) s).

Definition emit (th : string) (name : string) (data : list (string * jsval))
    (beforePublish : string -> M unit) : M string :=
  cursor ← next_cursor;
  let e := mkEvent name (decorate_event name data) (Some cursor) in
  beforePublish cursor;;
  now ← date_now;
  appendBuffer th (mkEntry cursor (Some e) now);;
  notify th e;;
  mret cursor.

Definition ensureSnapshot (th : string) : M InternalSnapshot :=
  existing ← gets (fun s => JsMap.get th (am_snapshots s));
  match existing with
  | Some snap => pruneBuffer th;; mret snap
  | None =>
      cursor ← pushCheckpoint th;
      now ← date_now;
      let snap := blank_snapshot cursor now in
      modify (fun s => set_am_snapshots (JsMap.set th snap (am_snapshots s)) s);;
      mret snap
  end.

Definition ensureCursorAvailable (th : string) (snap : InternalSnapshot) : M unit :=
  pruneBuffer th;;
  buffer ← gets (buffer_of th);
  if existsb (fun e => bool_decide (be_cursor e = streamCursor snap)) buffer then mret tt
  else
    cursor ← pushCheckpoint th;
    modify_snapshot th (set_streamCursor cursor);;
    now ← date_now;
    modify_snapshot th (set_updatedAt now).

(** [cursor > snapshot.streamCursor ? cursor : snapshot.streamCursor]. *)
Definition later_cursor (cursor : string) (snap : InternalSnapshot) : InternalSnapshot :=
  set_streamCursor
    (if str_lt (streamCursor snap) cursor then cursor else streamCursor snap) snap.

Definition updateSnapshot (th : string) (updater : M unit) (cursor : option string)
  : M AgentRuntimeSnapshot :=
  ensureSnapshot th;;
  updater;;
  (if ostr_truthy cursor
   then modify_snapshot th (later_cursor (cursor ?? ""))
   else c ← pushCheckpoint th; modify_snapshot th (set_streamCursor c));;
  now ← date_now;
  modify_snapshot th (set_updatedAt now);;
  gets (fun s => serializeSnapshot (snapshot_at th s)).

Definition getSnapshot (th : string) (freshBoundary : bool) : M AgentRuntimeSnapshot :=
  snap ← ensureSnapshot th;
  ensureCursorAvailable th snap;;
  when freshBoundary (c ← pushCheckpoint th; modify_snapshot th (set_streamCursor c));;
  gets (fun s => serializeSnapshot (snapshot_at th s)).

Definition setOutputActivity (th turn llm : string) (state : option AgentOutputActivityState)
    (begin : bool) : M unit :=
  snap ← ensureSnapshot th;
  if negb (active snap) || negb (bool_decide (turnId snap = Some turn)) then mret tt
  else
    let current := output_activity snap in
    if negb begin && negb (bool_decide (oa_llm_call_id <$> current = Some llm)) then mret tt
    else if bool_decide (oa_llm_call_id <$> current = Some llm)
            && bool_decide (oa_state <$> current = state) then mret tt
    else
      emit th "agent.output_activity"
        [("turn_id", JStr turn); ("llm_call_id", JStr llm); ("state", activity_state_value state)]
        (fun cursor =>
           modify_snapshot th (set_output_activity (mkActivity llm <$> state));;
           modify_snapshot th (set_streamCursor cursor);;
           now ← date_now;
           modify_snapshot th (set_updatedAt now));;
      mret tt.

Definition clearOutputActivity (th : string) : M unit :=
  snap ← ensureSnapshot th;
  match turnId snap, output_activity snap with
  | Some turn, Some act =>
      when (str_truthy turn) (setOutputActivity th turn (oa_llm_call_id act) None false)
  | _, _ => mret tt
  end.

Definition startTurn (th turn : string) (env : option jsval) : M AgentRuntimeSnapshot :=
  updateSnapshot th
    (modify_snapshot th (fun sn =>
       set_lastError None (set_contextBudget JNull (set_environment (env ?? JNull)
         (set_draftReasoning [] (set_draftAssistant None (set_pendingTool None
           (set_canCancel true (set_phase Starting (set_turnId (Some turn)
             (set_active true (set_output_activity None sn))))))))))))
    None.

Definition markThinking (th : string) (cursor : option string) : M AgentRuntimeSnapshot :=
  clearOutputActivity th;;
  updateSnapshot th
    (modify_snapshot th (fun sn => set_pendingTool None (set_phase Thinking sn))) cursor.

(** [setPendingTool], [setPendingUserQuestions] and [setPendingTerminalWait]
    differ in the phase only. *)
Definition set_pending (ph : AgentRuntimePhase) (th : string) (tool : AgentPendingTool)
    (cursor : string) : M AgentRuntimeSnapshot :=
  clearOutputActivity th;;
  updateSnapshot th
    (modify_snapshot th (fun sn =>
       set_draftAssistant None (set_pendingTool (Some tool) (set_phase ph sn))))
    (Some cursor).

Definition setPendingTool := set_pending ToolRunning.
Definition setPendingUserQuestions := set_pending WaitingForUser.
Definition setPendingTerminalWait := set_pending WaitingForTerminal.

Definition setDraftAssistant (th clientId text cursor : string) (startedAt : option Z)
    (segmentKind : option SegmentKind) : M AgentRuntimeSnapshot :=
  updateSnapshot th
    (snap ← gets (snapshot_at th);
     let started := match draftAssistant snap with
                    | Some d => if decide (da_clientId d = clientId)
                                then Some (da_startedAt d) else startedAt
                    | None => startedAt
                    end in
     modify_snapshot th (fun sn => set_pendingTool None (set_phase StreamingMessage sn));;
     start ← match started with Some t => mret t | None => date_now end;
     now ← date_now;
     modify_snapshot th (set_draftAssistant (Some (mkDraft clientId segmentKind text start now))))
    (Some cursor).

Definition clearDraftAssistant (th : string) (cursor : option string) : M AgentRuntimeSnapshot :=
  updateSnapshot th
    (modify_snapshot th (fun sn => set_draftAssistant None (set_phase Thinking sn))) cursor.

Definition reasoning_of (clientId : string) (d : DraftReasoning) : bool :=
  bool_decide (dr_clientId d = clientId).

Definition setDraftReasoning (th : string) (draft : ReasoningDraft) (cursor : string)
  : M AgentRuntimeSnapshot :=
  updateSnapshot th
    (modify_snapshot th (fun sn => set_pendingTool None (set_phase Thinking sn));;
     snap ← gets (snapshot_at th);
     let existing := find_index (reasoning_of (rd_clientId draft)) (draftReasoning snap) in
     let current := k ← existing; draftReasoning snap !! k in
     start ← match current, rd_startedAt draft with
             | Some c, _ => mret (dr_startedAt c)
             | None, Some t => mret t
             | None, None => date_now
             end;
     now ← date_now;
     let next := mkReasoning (rd_turnId draft) (rd_clientId draft) (rd_text draft)
                   (rd_llmCallId draft) (rd_index draft) (rd_provider draft)
                   (rd_providerModel draft) start now in
     modify_snapshot th (fun sn =>
       set_draftReasoning (match existing with
                           | Some k => <[k := next]> (draftReasoning sn)
                           | None => draftReasoning sn ++ [next]
                           end) sn))
    (Some cursor).

Definition clearDraftReasoning (th clientId : string) (cursor : option string)
  : M AgentRuntimeSnapshot :=
  updateSnapshot th
    (modify_snapshot th (fun sn =>
       set_draftReasoning (filter (fun d => dr_clientId d <> clientId) (draftReasoning sn))
         (set_phase Thinking sn))) cursor.

Definition advanceCursor (th cursor : string) : M AgentRuntimeSnapshot :=
  updateSnapshot th (mret tt) (Some cursor).

Definition setContextBudget (th : string) (budget : jsval) (cursor : option string)
  : M AgentRuntimeSnapshot :=
  updateSnapshot th (modify_snapshot th (set_contextBudget budget)) cursor.

Definition clearContextBudget (th : string) (cursor : option string) : M AgentRuntimeSnapshot :=
  setContextBudget th JNull cursor.

Definition setLastError (th : string) (err : AgentRuntimeLastError) (cursor : option string)
  : M AgentRuntimeSnapshot :=
  updateSnapshot th (modify_snapshot th (set_lastError (Some err))) cursor.

Definition clearLastError (th : string) (cursor : option string) : M AgentRuntimeSnapshot :=
  updateSnapshot th (modify_snapshot th (set_lastError None)) cursor.

Definition setEnvironment (th : string) (env : jsval) (cursor : option string)
  : M AgentRuntimeSnapshot :=
  updateSnapshot th (modify_snapshot th (set_environment env)) cursor.

Definition finishTurn (th : string) : M AgentRuntimeSnapshot :=
  clearOutputActivity th;;
  updateSnapshot th
    (modify_snapshot th (fun sn =>
       set_contextBudget JNull (set_environment JNull (set_draftReasoning []
         (set_draftAssistant None (set_pendingTool None (set_canCancel false
           (set_phase Idle (set_turnId None (set_active false sn)))))))))) 
    None.

Definition resync_data : list (string * jsval) := [("reason", JStr "publication_failed")].

(** [for (const threadId of threads) this.emit(...)]. *)
Fixpoint emit_resync (threads : list string) : M unit :=
  match threads with
  | [] => mret tt
  | th :: rest => emit th "agent.resync_required" resync_data (fun _ => mret tt);; emit_resync rest
  end.

Definition invalidateReplay : M unit :=
  threads ← gets (fun s => JsSet.of_list (JsMap.keys (am_buffers s) ++ JsMap.keys (am_listeners s)));
  log_item TClearBuffers;;
  modify (set_am_buffers []);;
  emit_resync threads.

Definition prepareAttachment (th : string) (afterCursor : option string) : M attachment :=
  snap ← ensureSnapshot th;
  ensureCursorAvailable th snap;;
  buffer ← gets (buffer_of th);
  mret (match afterCursor with
        | Some c =>
            if str_truthy c then
              match find_index (fun e => bool_decide (be_cursor e = c)) buffer with
              | None => ResyncRequired c
              | Some k => Attached (omap be_event (drop (S k) buffer)) (Some true) (length buffer)
              end
            else Attached [] None (length buffer)
        | None => Attached [] None (length buffer)
        end).

(** [listeners.get(th) ?? new Set()], add, store back. *)
Definition add_listener (th : string) (l : nat) : M unit :=
  modify (fun s => set_am_listeners
                     (JsMap.set th (JsSet.add l (listeners_of th s)) (am_listeners s)) s).

(** [attachCallback]: the attachment, its replay delivered to [l]. *)
Definition attachCallback (th : string) (l : nat) (afterCursor : option string) : M attachment :=
  att ← prepareAttachment th afterCursor;
  match att with
  | ResyncRequired _ => mret att
  | Attached replay _ _ =>
      add_listener th l;;
      modify (fun s => set_am_trace (am_trace s ++ (TCall l <$> replay)) s);;
      mret att
  end.

(** [attach]: [l] is the listener it creates; also what it writes to the reply. *)
Definition attach (th : string) (l : nat) (afterCursor : option string)
  : M (attachment * list reply_write) :=
  att ← prepareAttachment th afterCursor;
  match att with
  | ResyncRequired _ => mret (att, [])
  | Attached replay _ buffered =>
      add_listener th l;;
      heartbeat ← (if bool_decide (replay = [])
                   then ts ← date_now; mret [RHeartbeat ts (bool_decide (buffered = 0%nat))]
                   else mret []);
      modify (fun s => set_am_trace (am_trace s ++ (TCall l <$> replay)) s);;
      mret (att, heartbeat ++ (replay ≫= reply_listener))
  end.

(** The closure both return. *)
Definition detach (th : string) (l : nat) : M unit :=
  modify (fun s =>
    match JsMap.get th (am_listeners s) with
    | None => s
    | Some set =>
        let set := JsSet.delete l set in
        set_am_listeners (if bool_decide (set = []) then JsMap.delete th (am_listeners s)
                          else JsMap.set th set (am_listeners s)) s
    end).

(** ** A manager in use *)

Inductive op :=
  | OSetOutputActivity (th turn llm : string) (st : option AgentOutputActivityState) (begin : bool)
  | OClearOutputActivity (th : string)
  | OGetSnapshot (th : string) (fresh : bool)
  | OStartTurn (th turn : string) (env : option jsval)
  | OMarkThinking (th : string) (cursor : option string)
  | OSetPendingTool (th : string) (tool : AgentPendingTool) (cursor : string)
  | OSetPendingUserQuestions (th : string) (tool : AgentPendingTool) (cursor : string)
  | OSetPendingTerminalWait (th : string) (tool : AgentPendingTool) (cursor : string)
  | OSetDraftAssistant (th clientId text cursor : string) (startedAt : option Z)
      (kind : option SegmentKind)
  | OClearDraftAssistant (th : string) (cursor : option string)
  | OSetDraftReasoning (th : string) (draft : ReasoningDraft) (cursor : string)
  | OClearDraftReasoning (th clientId : string) (cursor : option string)
  | OAdvanceCursor (th cursor : string)
  | OSetContextBudget (th : string) (budget : jsval) (cursor : option string)
  | OSetLastError (th : string) (err : AgentRuntimeLastError) (cursor : option string)
  | OClearLastError (th : string) (cursor : option string)
  | OSetEnvironment (th : string) (env : jsval) (cursor : option string)
  | OFinishTurn (th : string)
  | OEmit (th name : string) (data : list (string * jsval))
  | OInvalidateReplay
  | OAttach (th : string) (l : nat) (after : option string)
  | OAttachCallback (th : string) (l : nat) (after : option string)
  | ODetach (th : string) (l : nat).

Definition exec (o : op) : M unit :=
  match o with
  | OSetOutputActivity th turn llm st begin => setOutputActivity th turn llm st begin
  | OClearOutputActivity th => clearOutputActivity th
  | OGetSnapshot th fresh => getSnapshot th fresh;; mret tt
  | OStartTurn th turn env => startTurn th turn env;; mret tt
  | OMarkThinking th c => markThinking th c;; mret tt
  | OSetPendingTool th tool c => setPendingTool th tool c;; mret tt
  | OSetPendingUserQuestions th tool c => setPendingUserQuestions th tool c;; mret tt
  | OSetPendingTerminalWait th tool c => setPendingTerminalWait th tool c;; mret tt
  | OSetDraftAssistant th cid text c t k => setDraftAssistant th cid text c t k;; mret tt
  | OClearDraftAssistant th c => clearDraftAssistant th c;; mret tt
  | OSetDraftReasoning th d c => setDraftReasoning th d c;; mret tt
  | OClearDraftReasoning th cid c => clearDraftReasoning th cid c;; mret tt
  | OAdvanceCursor th c => advanceCursor th c;; mret tt
  | OSetContextBudget th b c => setContextBudget th b c;; mret tt
  | OSetLastError th e c => setLastError th e c;; mret tt
  | OClearLastError th c => clearLastError th c;; mret tt
  | OSetEnvironment th e c => setEnvironment th e c;; mret tt
  | OFinishTurn th => finishTurn th;; mret tt
  | OEmit th name data => emit th name data (fun _ => mret tt);; mret tt
  | OInvalidateReplay => invalidateReplay
  | OAttach th l after => attach th l after;; mret tt
  | OAttachCallback th l after => attachCallback th l after;; mret tt
  | ODetach th l => detach th l
  end.

(** A cursor the factory has already returned. *)
Definition issued (s : manager) (c : string) : Prop :=
  exists k, k < am_cursors s /\ c = nextCursor k.

(** What the callers promise: the cursors they pass were returned by [emit],
    and turn ids are not empty. *)
Definition op_ok (s : manager) (o : op) : Prop :=
  match o with
  | OStartTurn _ turn _ => turn <> ""
  | OMarkThinking _ (Some c) | OClearDraftAssistant _ (Some c)
  | OClearDraftReasoning _ _ (Some c) | OSetContextBudget _ _ (Some c)
  | OSetLastError _ _ (Some c) | OClearLastError _ (Some c) | OSetEnvironment _ _ (Some c)
  | OSetPendingTool _ _ c | OSetPendingUserQuestions _ _ c | OSetPendingTerminalWait _ _ c
  | OSetDraftAssistant _ _ _ c _ _ | OSetDraftReasoning _ _ c | OAdvanceCursor _ c => issued s c
  | _ => True
  end.

Inductive steps : manager -> manager -> Prop :=
  | steps_refl s : steps s s
  | steps_op s s' o : steps s s' -> op_ok s' o -> steps s (exec o s').2.

Definition reachable : manager -> Prop := steps new_manager.
End Manager.

(** The specification of the replay buffer: what was appended for a thread
    since the buffers were last cleared. *)
Definition log_step (th : string) (log : list BufferEntry) (i : trace_item) : list BufferEntry :=
  match i with
  | TAppend th' e => if decide (th = th') then log ++ [e] else log
  | TClearBuffers => []
  | TCall _ _ => log
  end.

Definition thread_log (th : string) (tr : list trace_item) : list BufferEntry :=
  foldl (log_step th) [] tr.

(** What a client may rely on in a snapshot. *)
Record snapshot_ok (sn : InternalSnapshot) : Prop := {
  sok_cancel : canCancel sn = active sn;
  sok_turn : active sn = true <-> is_Some (turnId sn);
  sok_turn_nonempty : turnId sn <> Some "";
  sok_pending : phase sn ∈ [ToolRunning; WaitingForUser; WaitingForTerminal] ->
    is_Some (pendingTool sn);
  sok_streaming : phase sn = StreamingMessage ->
    is_Some (draftAssistant sn) /\ pendingTool sn = None;
  sok_idle : phase sn = Idle ->
    active sn = false /\ pendingTool sn = None /\ draftAssistant sn = None
    /\ draftReasoning sn = [];
  sok_activity : is_Some (output_activity sn) -> active sn = true;
  sok_reasoning : NoDup (dr_clientId <$> draftReasoning sn);
}.
