(* ===== verification/AgentReplay.v ===== *)
(** Replay of the agent stream: the buffers of [AgentRuntime] are suffixes of
    the log of published entries in every reachable state, cursors identify
    entries, and the snapshot invariant holds. The theorems on resuming,
    cursors and invalidation follow. *)
From Stdlib Require Import ZArith Lia.
From stdpp Require Import base tactics strings gmap sorting option.
From stdpp Require Import list.
From S2P Require Import Prelude JsRuntime EventBus MessageView AgentRuntime.

(** ** Running the monad *)

Lemma bind_run {A B} (m : M A) (f : A -> M B) s : (m ≫= f) s = f (m s).1 (m s).2.
Proof. unfold mbind, M_bind. by destruct (m s). Qed.

Lemma ret_run {A} (x : A) (s : manager) : (mret (M := M) x) s = (x, s).
Proof. done. Qed.

Lemma gets_run {A} (f : manager -> A) s : gets f s = (f s, s).
Proof. done. Qed.

Ltac run := repeat (rewrite bind_run || rewrite ret_run || rewrite gets_run); cbn beta iota delta [fst snd].

(** ** The two trimming loops *)

Lemma shift_while_last_n limit buf : shift_while limit buf = last_n limit buf.
Proof.
  unfold last_n. induction buf as [|e rest IH]; [done|]. cbn [shift_while].
  destruct (Nat.ltb_spec limit (length (e :: rest))) as [H|H]; simpl in H.
  - rewrite IH. cbn [length]. by replace (S (length rest) - limit)
      with (S (length rest - limit)) by lia.
  - cbn [length]. by replace (S (length rest) - limit) with 0 by lia.
Qed.

Lemma drop_expired_suffix cutoff buf : drop_expired cutoff buf `suffix_of` buf.
Proof.
  induction buf as [|e rest IH]; [done|]. simpl.
  destruct (_ <? _)%Z; [by apply suffix_cons_r | done].
Qed.

Lemma drop_expired_fresh cutoff buf :
  Forall (fun e => cutoff <= be_recordedAt e)%Z buf -> drop_expired cutoff buf = buf.
Proof. destruct 1 as [|e rest He _]; [done|]. simpl. case_match; zbool; [lia | done]. Qed.

Lemma drop_expired_idemp cutoff buf :
  drop_expired cutoff (drop_expired cutoff buf) = drop_expired cutoff buf.
Proof.
  induction buf as [|e rest IH]; [done|]. simpl.
  destruct (_ <? _)%Z eqn:E; [done|]. simpl. by rewrite E.
Qed.

Lemma drop_expired_app cutoff p buf :
  drop_expired cutoff buf `suffix_of` drop_expired cutoff (p ++ buf).
Proof.
  induction p as [|e p IH]; [done|]. simpl. destruct (_ <? _)%Z; [done|].
  apply suffix_cons_r, suffix_app_r, drop_expired_suffix.
Qed.

Lemma drop_expired_mono cutoff cutoff' buf :
  (cutoff <= cutoff')%Z -> drop_expired cutoff' buf `suffix_of` drop_expired cutoff buf.
Proof.
  intros Hc. induction buf as [|e rest IH]; [done|]. simpl.
  destruct (_ <? cutoff)%Z eqn:E; destruct (_ <? cutoff')%Z eqn:E'; zbool; try lia; try done.
  apply suffix_cons_r, drop_expired_suffix.
Qed.

Lemma drop_expired_suffix_mono cutoff a b :
  a `suffix_of` b -> drop_expired cutoff a `suffix_of` drop_expired cutoff b.
Proof. intros [p ->]. apply drop_expired_app. Qed.

Lemma drop_expired_keeps cutoff a e post :
  (cutoff <= be_recordedAt e)%Z -> (e :: post) `suffix_of` drop_expired cutoff (a ++ e :: post).
Proof.
  intros He. induction a as [|x a IH]; simpl.
  - case_match; zbool; [lia | done].
  - case_match; [done|]. apply suffix_cons_r. by apply suffix_app_r.
Qed.

Lemma drop_expired_snoc cutoff buf e :
  drop_expired cutoff (buf ++ [e]) `suffix_of` drop_expired cutoff buf ++ [e].
Proof.
  induction buf as [|x rest IH]; simpl; [by case_match; [apply suffix_nil|]|].
  by destruct (_ <? _)%Z.
Qed.

Lemma last_n_suffix_le {A} n (a b : list A) :
  a `suffix_of` b -> length a <= n -> a `suffix_of` last_n n b.
Proof.
  intros [p ->] Hl. unfold last_n. rewrite length_app. rewrite drop_app_le by lia.
  by apply suffix_app_r.
Qed.

Lemma thread_log_snoc th tr i : thread_log th (tr ++ [i]) = log_step th (thread_log th tr) i.
Proof. unfold thread_log. by rewrite foldl_app. Qed.

Lemma thread_log_calls th tr e ls :
  thread_log th (tr ++ ((fun l => TCall l e) <$> ls)) = thread_log th tr.
Proof.
  unfold thread_log. rewrite foldl_app. generalize (foldl (log_step th) [] tr).
  induction ls as [|l ls IH]; intros log; [done|]. apply IH.
Qed.

Lemma thread_log_replay th tr l es :
  thread_log th (tr ++ (TCall l <$> es)) = thread_log th tr.
Proof.
  unfold thread_log. rewrite foldl_app. generalize (foldl (log_step th) [] tr).
  induction es as [|e es IH]; intros log; [done|]. apply IH.
Qed.

Section Replay.
Context (nextCursor : nat -> string) (clock : nat -> Z).
Context (bufferLimit : nat) (bufferTtlMs : Z).

Notation pruneBuffer := (pruneBuffer clock bufferLimit bufferTtlMs).
Notation appendBuffer := (appendBuffer clock bufferLimit bufferTtlMs).
Notation pushCheckpoint := (pushCheckpoint nextCursor clock bufferLimit bufferTtlMs).
Notation emit := (AgentRuntime.emit nextCursor clock bufferLimit bufferTtlMs).
Notation ensureSnapshot := (ensureSnapshot nextCursor clock bufferLimit bufferTtlMs).
Notation ensureCursorAvailable :=
  (ensureCursorAvailable nextCursor clock bufferLimit bufferTtlMs).
Notation updateSnapshot := (updateSnapshot nextCursor clock bufferLimit bufferTtlMs).
Notation setOutputActivity := (setOutputActivity nextCursor clock bufferLimit bufferTtlMs).
Notation clearOutputActivity := (clearOutputActivity nextCursor clock bufferLimit bufferTtlMs).
Notation prepareAttachment := (prepareAttachment nextCursor clock bufferLimit bufferTtlMs).
Notation exec := (exec nextCursor clock bufferLimit bufferTtlMs).
Notation steps := (steps nextCursor clock bufferLimit bufferTtlMs).
Notation reachable := (reachable nextCursor clock bufferLimit bufferTtlMs).
Notation issued := (issued nextCursor).

(** ** Primitives on the buffers *)

(** What pruning and appending leave alone. *)
Record frame (s s' : manager) : Prop := {
  fr_listeners : am_listeners s' = am_listeners s;
  fr_snapshots : am_snapshots s' = am_snapshots s;
  fr_cursors : am_cursors s' = am_cursors s;
}.

Lemma buffer_put th th' b s t :
  am_buffers t = am_buffers s ->
  buffer_of th' (set_am_buffers
    (if bool_decide (b = []) then JsMap.delete th (am_buffers s)
     else JsMap.set th b (am_buffers s)) t)
  = if decide (th' = th) then b else buffer_of th' s.
Proof.
  intros Ht. unfold buffer_of, set_am_buffers. cbn [am_buffers].
  case_bool_decide; rewrite ?JsMap.get_delete, ?JsMap.get_set; by case_decide; subst.
Qed.

Lemma buffer_set th th' b s :
  buffer_of th' (set_am_buffers (JsMap.set th b (am_buffers s)) s)
  = if decide (th' = th) then b else buffer_of th' s.
Proof.
  unfold buffer_of, set_am_buffers. cbn [am_buffers]. rewrite JsMap.get_set.
  by case_decide.
Qed.

Lemma pruneBuffer_spec th s :
  let s' := (pruneBuffer th s).2 in
  frame s s' /\ am_trace s' = am_trace s
  /\ (forall th', buffer_of th' s' `suffix_of` buffer_of th' s)
  /\ (forall th', th' <> th -> buffer_of th' s' = buffer_of th' s)
  /\ buffer_of th s'
     = last_n bufferLimit (drop_expired (clock (am_ticks s) - bufferTtlMs) (buffer_of th s))
  /\ am_ticks s <= am_ticks s'.
Proof.
  intros s'. subst s'. unfold AgentRuntime.pruneBuffer. run.
  destruct (JsMap.get th (am_buffers s)) as [[|e buf]|] eqn:E.
  1,3: rewrite ret_run; cbn [snd]; split_and!; try done; try (by split);
    assert (buffer_of th s = []) as -> by (unfold buffer_of; by rewrite E); done.
  run. unfold date_now, modify. cbn [fst snd].
  assert (Hb : buffer_of th s = e :: buf) by (unfold buffer_of; by rewrite E).
  set (b := shift_while _ _).
  assert (b `suffix_of` e :: buf).
  { subst b. rewrite shift_while_last_n. etrans; [apply last_n_suffix | apply drop_expired_suffix]. }
  split_and!; [done | done | | | | cbn; lia].
  - intros th'. rewrite (buffer_put th _ b s) by done. case_decide; [|done]. subst th'. by rewrite Hb.
  - intros th' Hne. rewrite (buffer_put th _ b s) by done. by rewrite decide_False.
  - rewrite Hb. rewrite (buffer_put th _ b s), decide_True by done.
    subst b. by rewrite shift_while_last_n.
Qed.

Lemma appendBuffer_spec th e s :
  let s' := (appendBuffer th e s).2 in
  frame s s' /\ am_trace s' = am_trace s ++ [TAppend th e]
  /\ buffer_of th s' = last_n bufferLimit
       (last_n bufferLimit (drop_expired (clock (am_ticks s) - bufferTtlMs) (buffer_of th s)) ++ [e])
  /\ (forall th', th' <> th -> buffer_of th' s' = buffer_of th' s)
  /\ am_ticks s <= am_ticks s'.
Proof.
  intros s'. subst s'. unfold AgentRuntime.appendBuffer. run.
  destruct (pruneBuffer_spec th s) as ([F1 F2 F3] & Ht & Hs & Hn & Hp & Htk).
  unfold log_item, modify. cbn [fst snd]. split_and!; [| | | |done].
  - by split.
  - by rewrite Ht.
  - etrans; [apply buffer_set|]. rewrite decide_True, shift_while_last_n by done.
    by rewrite <-Hp.
  - intros th' Hne. etrans; [apply buffer_set|]. rewrite decide_False by done. by apply Hn.
Qed.

(** ** The log invariant *)

(** The cursors of a log are calls of the factory before the [k]-th, in order. *)
Definition cursors_below (k : nat) (log : list BufferEntry) : Prop :=
  exists idx, be_cursor <$> log = nextCursor <$> idx /\ StronglySorted lt idx
              /\ Forall (fun i => i < k) idx.

(** Under a clock that does not go back, nothing is lost but what the limit or
    the age excludes. *)
Definition retains (s : manager) (th : string) : Prop :=
  (forall i j, i <= j -> (clock i <= clock j)%Z) ->
  drop_expired (clock (am_ticks s) - bufferTtlMs) (last_n bufferLimit (thread_log th (am_trace s)))
    `suffix_of` buffer_of th s.

Definition log_inv (k : nat) (s : manager) : Prop :=
  forall th, buffer_of th s `suffix_of` thread_log th (am_trace s)
             /\ length (buffer_of th s) <= bufferLimit
             /\ cursors_below k (thread_log th (am_trace s))
             /\ retains s th.

Definition snap_inv (s : manager) : Prop :=
  forall th sn, JsMap.get th (am_snapshots s) = Some sn ->
    issued s (streamCursor sn) /\ snapshot_ok sn.

Definition inv (s : manager) : Prop := log_inv (am_cursors s) s /\ snap_inv s.

Lemma cursors_below_snoc k log e :
  cursors_below k log -> be_cursor e = nextCursor k -> cursors_below (S k) (log ++ [e]).
Proof.
  intros (idx & Hm & Hs & Hf) He. exists (idx ++ [k]). split_and!.
  - rewrite !fmap_app, Hm. cbn. by rewrite He.
  - apply StronglySorted_app_2; [|done|by repeat constructor].
    intros x y Hx ->%list_elem_of_singleton. by eapply Forall_forall in Hf.
  - apply Forall_app. split; [|by repeat constructor].
    eapply Forall_impl; [exact Hf|]. simpl. lia.
Qed.

Lemma cursors_below_weaken k k' log : k <= k' -> cursors_below k log -> cursors_below k' log.
Proof.
  intros Hk (idx & Hm & Hs & Hf). exists idx. split_and!; [done..|].
  eapply Forall_impl; [exact Hf|]. simpl. lia.
Qed.

Lemma cursors_below_nil k : cursors_below k [].
Proof. exists []. split_and!; [done | constructor | constructor]. Qed.

(** What pruning keeps of a window that the buffer covers. *)
Lemma prune_covers cutoff cutoff' (w b : list BufferEntry) :
  (cutoff <= cutoff')%Z -> length w <= bufferLimit ->
  drop_expired cutoff w `suffix_of` b ->
  drop_expired cutoff' w `suffix_of` last_n bufferLimit (drop_expired cutoff b).
Proof.
  intros Hc Hl Hw. etrans; [by apply drop_expired_mono|]. apply last_n_suffix_le.
  - rewrite <-drop_expired_idemp. by apply drop_expired_suffix_mono.
  - pose proof (suffix_length _ _ (drop_expired_suffix cutoff w)). lia.
Qed.

Lemma retains_later s s' th :
  am_ticks s <= am_ticks s' -> thread_log th (am_trace s') = thread_log th (am_trace s) ->
  buffer_of th s' = buffer_of th s -> retains s th -> retains s' th.
Proof.
  intros Ht Hl Hb Hr Hm. rewrite Hl, Hb. etrans; [|by apply Hr].
  apply drop_expired_mono. specialize (Hm _ _ Ht). lia.
Qed.

Lemma log_inv_append th e k s :
  log_inv k s -> be_cursor e = nextCursor k -> log_inv (S k) (appendBuffer th e s).2.
Proof.
  intros Hinv He th'. destruct (appendBuffer_spec th e s) as (_ & Ht & Hbuf & Hn & Htk).
  destruct (Hinv th') as (Hs & Hl & Hc & Hr).
  assert (Hlog : thread_log th' (am_trace (appendBuffer th e s).2)
                 = log_step th' (thread_log th' (am_trace s)) (TAppend th e))
    by (rewrite Ht; apply thread_log_snoc).
  cbn [log_step] in Hlog. case_decide as Hth.
  - subst th'. rewrite Hbuf, Hlog. split_and!.
    + etrans; [apply last_n_suffix|]. apply suffix_app_same.
      etrans; [apply last_n_suffix|]. etrans; [apply drop_expired_suffix | done].
    + rewrite last_n_length. lia.
    + by apply cursors_below_snoc.
    + intros Hm. rewrite Hlog, Hbuf. apply last_n_suffix_le.
      * rewrite <-last_n_last_n_app. etrans; [apply drop_expired_suffix_mono, last_n_suffix|].
        etrans; [apply drop_expired_snoc|]. apply suffix_app_same, prune_covers.
        -- specialize (Hm _ _ Htk). lia.
        -- rewrite last_n_length. lia.
        -- by apply Hr.
      * etrans; [apply suffix_length, drop_expired_suffix|]. rewrite last_n_length. lia.
  - rewrite Hn, Hlog by done. split_and!; [done..| |].
    + eapply cursors_below_weaken; [|done]. lia.
    + eapply retains_later; [done..| |done]. by apply Hn.
Qed.

Lemma log_inv_prune th k s : log_inv k s -> log_inv k (pruneBuffer th s).2.
Proof.
  intros Hinv th'. destruct (pruneBuffer_spec th s) as (_ & Ht & Hs & Hn & Hp & Htk).
  destruct (Hinv th') as (Hsuf & Hl & Hc & Hr). specialize (Hs th'). rewrite Ht.
  split_and!; [by etrans| |done|].
  - apply suffix_length in Hs. lia.
  - destruct (decide (th' = th)) as [->|Hne].
    + intros Hm. rewrite Hp, Ht. apply prune_covers.
      * specialize (Hm _ _ Htk). lia.
      * rewrite last_n_length. lia.
      * by apply Hr.
    + eapply retains_later; [done| | |exact Hr]; [by rewrite Ht | by apply Hn].
Qed.

(** The invariant reads the buffers, the log and the clock, nothing else. *)
Lemma log_inv_ext k s s' :
  am_buffers s' = am_buffers s -> am_ticks s <= am_ticks s' ->
  (forall th, thread_log th (am_trace s') = thread_log th (am_trace s)) ->
  log_inv k s -> log_inv k s'.
Proof.
  intros Hb Htk Ht Hinv th. destruct (Hinv th) as (? & ? & ? & ?).
  assert (buffer_of th s' = buffer_of th s) as Hbuf by (unfold buffer_of; by rewrite Hb).
  rewrite Hbuf, Ht. split_and!; try done. by eapply retains_later.
Qed.

Lemma snap_inv_ext s s' :
  am_snapshots s' = am_snapshots s -> am_cursors s <= am_cursors s' -> snap_inv s -> snap_inv s'.
Proof.
  intros Hs Hc Hinv th sn. rewrite Hs. intros [(k & Hk & ->) Hok]%Hinv. split; [|done].
  exists k. split; [lia | done].
Qed.

(** ** Snapshots *)

Lemma get_modify_snapshot th th' f s :
  JsMap.get th' (am_snapshots (modify_snapshot th f s).2)
  = if decide (th' = th) then f <$> JsMap.get th (am_snapshots s)
    else JsMap.get th' (am_snapshots s).
Proof.
  unfold modify_snapshot, modify. cbn [snd].
  destruct (JsMap.get th (am_snapshots s)) as [sn|] eqn:E.
  - unfold set_am_snapshots. cbn [am_snapshots]. rewrite JsMap.get_set. by case_decide.
  - case_decide; [by subst | done].
Qed.

Lemma modify_snapshot_frame th f s :
  let s' := (modify_snapshot th f s).2 in
  am_buffers s' = am_buffers s /\ am_trace s' = am_trace s /\ am_cursors s' = am_cursors s
  /\ am_listeners s' = am_listeners s /\ am_ticks s' = am_ticks s.
Proof. unfold modify_snapshot, modify. cbn [snd]. by case_match. Qed.

Hypothesis cursor_mono : forall i j, i < j -> str_lt (nextCursor i) (nextCursor j) = true.
Hypothesis cursor_nonempty : forall i, nextCursor i <> "".

(** Nothing moves backwards. *)
Record progress_to (s s' : manager) : Prop := {
  pg_cursors : am_cursors s <= am_cursors s';
  pg_snapshots : forall th sn, JsMap.get th (am_snapshots s) = Some sn ->
    exists sn', JsMap.get th (am_snapshots s') = Some sn'
                /\ str_lt (streamCursor sn') (streamCursor sn) = false;
}.

Lemma progress_same s s' :
  am_snapshots s' = am_snapshots s -> am_cursors s <= am_cursors s' -> progress_to s s'.
Proof.
  intros Hs Hc. split; [done|]. intros th sn H. exists sn. rewrite Hs.
  split; [done | apply str_lt_irrefl].
Qed.

Lemma str_lt_cmp_trans a b c :
  str_lt b a = false -> str_lt c b = false -> str_lt c a = false.
Proof.
  intros H1 H2. destruct (str_lt c a) eqn:E; [|done].
  destruct (str_lt_total b c) as [?|[->|?]]; [|congruence..].
  pose proof (str_lt_trans b c a). naive_solver.
Qed.

Lemma progress_trans s1 s2 s3 : progress_to s1 s2 -> progress_to s2 s3 -> progress_to s1 s3.
Proof.
  intros [H1 H1'] [H2 H2']. split; [lia|]. intros th sn (sn2 & E2 & L2)%H1'.
  destruct (H2' th sn2 E2) as (sn3 & E3 & L3). exists sn3. split; [done|].
  by eapply str_lt_cmp_trans.
Qed.

(** The outcome of an operation that keeps the invariant. *)
Definition good (s s' : manager) : Prop := inv s' /\ progress_to s s'.

Lemma good_trans s1 s2 s3 : good s1 s2 -> (inv s2 -> good s2 s3) -> good s1 s3.
Proof. intros [? ?] Hk. destruct Hk; [done|]. split; [done|]. by eapply progress_trans. Qed.

Lemma good_refl s : inv s -> good s s.
Proof. intros. split; [done|]. by apply progress_same. Qed.

(** Only the listeners, the clock or the listener calls of the trace changed. *)
Lemma good_quiet s s' :
  inv s -> am_buffers s' = am_buffers s -> am_snapshots s' = am_snapshots s ->
  am_cursors s' = am_cursors s -> am_ticks s <= am_ticks s' ->
  (forall th, thread_log th (am_trace s') = thread_log th (am_trace s)) -> good s s'.
Proof.
  intros [Hl Hs] Hb Hsn Hc Htk Ht. split; [split|].
  - rewrite Hc. by eapply log_inv_ext.
  - eapply snap_inv_ext; [done| |done]. lia.
  - apply progress_same; [done | lia].
Qed.

Lemma good_prune th s : inv s -> good s (pruneBuffer th s).2.
Proof.
  intros [Hl Hs]. destruct (pruneBuffer_spec th s) as ([F1 F2 F3] & _).
  split; [split|].
  - rewrite F3. by apply log_inv_prune.
  - eapply snap_inv_ext; [done| |done]. lia.
  - apply progress_same; [done | lia].
Qed.

(** Appending the entry of a freshly issued cursor, from a state in which the
    factory has been called and the log not yet extended. *)
Lemma inv_append th e s :
  log_inv (am_cursors s) s -> be_cursor e = nextCursor (am_cursors s) ->
  forall t, am_buffers t = am_buffers s -> am_trace t = am_trace s ->
    am_cursors t = S (am_cursors s) -> am_ticks s <= am_ticks t -> snap_inv t ->
    inv (appendBuffer th e t).2 /\ progress_to t (appendBuffer th e t).2.
Proof.
  intros Hl He t Hb Ht Hc Htk Hs.
  destruct (appendBuffer_spec th e t) as ([F1 F2 F3] & _). split; [split|].
  - rewrite F3, Hc. apply log_inv_append; [|done].
    eapply log_inv_ext; [done|done| |done]. intros. by rewrite Ht.
  - eapply snap_inv_ext; [done| |done]. lia.
  - apply progress_same; [done | lia].
Qed.

Lemma pushCheckpoint_spec th s :
  inv s ->
  let s' := (pushCheckpoint th s).2 in
  good s s' /\ (pushCheckpoint th s).1 = nextCursor (am_cursors s)
  /\ am_cursors s' = S (am_cursors s) /\ am_snapshots s' = am_snapshots s
  /\ am_listeners s' = am_listeners s
  /\ (exists b t, b `suffix_of` buffer_of th s
       /\ buffer_of th s' = last_n bufferLimit (b ++ [mkEntry (nextCursor (am_cursors s)) None t])).
Proof.
  intros [Hl Hs] s'. subst s'. unfold AgentRuntime.pushCheckpoint. run.
  unfold next_cursor, date_now. cbn [fst snd].
  set (t := set_am_ticks _ _). set (e := mkEntry _ _ _).
  destruct (inv_append th e s Hl eq_refl t) as [Hi Hp]; [done|done|done|cbn; lia| |].
  { eapply (snap_inv_ext s); [done| |done]. cbn. lia. }
  destruct (appendBuffer_spec th e t) as ([F1 F2 F3] & _ & Hbuf & _).
  split_and!; try done.
  - split; [done|]. eapply progress_trans; [|done].
    apply progress_same; [done | cbn; lia].
  - eexists _, _. split; [|exact Hbuf]. etrans; [apply last_n_suffix|].
    apply (drop_expired_suffix _ (buffer_of th s)).
Qed.

Lemma issued_weaken s s' c : am_cursors s <= am_cursors s' -> issued s c -> issued s' c.
Proof. intros ? (k & ? & ->). exists k. split; [lia | done]. Qed.

(** The newest cursor is behind no issued one. *)
Lemma newest_not_behind s c k :
  issued s c -> am_cursors s <= S k -> str_lt (nextCursor k) c = false.
Proof.
  intros (i & Hi & ->) Hk. destruct (decide (i = k)) as [->|]; [apply str_lt_irrefl|].
  assert (i < k) as Hik%cursor_mono by lia.
  destruct (str_lt (nextCursor k) (nextCursor i)) eqn:E; [|done].
  pose proof (str_lt_trans _ _ _ E Hik) as C. by rewrite str_lt_irrefl in C.
Qed.

(** Mutating a snapshot, with the obligations on the new value. *)
Lemma modify_snapshot_good th f s :
  inv s ->
  (forall sn, JsMap.get th (am_snapshots s) = Some sn -> snapshot_ok sn ->
     issued s (streamCursor sn) ->
     snapshot_ok (f sn) /\ issued s (streamCursor (f sn))
     /\ str_lt (streamCursor (f sn)) (streamCursor sn) = false) ->
  good s (modify_snapshot th f s).2.
Proof.
  intros [Hl Hs] Hf. destruct (modify_snapshot_frame th f s) as (Fb & Ft & Fc & _ & Fk).
  split; [split|split].
  - rewrite Fc. eapply log_inv_ext; [done|lia| |done]. intros. by rewrite Ft.
  - intros th' sn. rewrite get_modify_snapshot. case_decide; subst.
    + destruct (JsMap.get th (am_snapshots s)) as [sn0|] eqn:E; [|done].
      intros (? & [= <-] & ->)%fmap_Some.
      destruct (Hs _ _ E) as [Hi Hok]. destruct (Hf sn0 eq_refl Hok Hi) as (? & ? & _).
      split; [|done]. eapply issued_weaken; [|done]. lia.
    + intros [Hi Hok]%Hs. split; [|done]. eapply issued_weaken; [|done]. lia.
  - lia.
  - intros th' sn E. rewrite get_modify_snapshot. case_decide; subst.
    + rewrite E. cbn. eexists. split; [done|]. destruct (Hs _ _ E) as [Hi Hok].
      by destruct (Hf sn E Hok Hi) as (_ & _ & ?).
    + exists sn. split; [done | apply str_lt_irrefl].
Qed.

Lemma snapshot_ok_cursor c sn : snapshot_ok sn -> snapshot_ok (set_streamCursor c sn).
Proof. by destruct 1. Qed.
Lemma snapshot_ok_updated now sn : snapshot_ok sn -> snapshot_ok (set_updatedAt now sn).
Proof. by destruct 1. Qed.

(** [const c = pushCheckpoint(); snapshot.streamCursor = c]. *)
Lemma checkpoint_cursor_good th s :
  inv s -> good s ((c ← pushCheckpoint th; modify_snapshot th (set_streamCursor c)) s).2.
Proof.
  intros Hi. run. destruct (pushCheckpoint_spec th s Hi) as (Hg & -> & Hc & Hsn & _).
  eapply good_trans; [done|]. intros Hi'. apply modify_snapshot_good; [done|].
  intros sn E Hok His. split_and!.
  - by apply snapshot_ok_cursor.
  - exists (am_cursors s). cbn. split; [lia | done].
  - eapply newest_not_behind; [done|]. lia.
Qed.

(** [snapshot.updatedAt = new Date()]. *)
Lemma touch_good th s :
  inv s -> good s ((now ← date_now clock; modify_snapshot th (set_updatedAt now)) s).2.
Proof.
  intros Hi. run. apply (good_trans _ (date_now clock s).2); [apply good_quiet; try done; cbn; lia|]. intros Hi'.
  apply modify_snapshot_good; [done|]. intros sn E Hok His.
  split_and!; [by apply snapshot_ok_updated | done | apply str_lt_irrefl].
Qed.

Lemma blank_ok c now : snapshot_ok (blank_snapshot c now).
Proof.
  split; cbn; try done.
  - intros H. exfalso. set_solver.
  - apply NoDup_nil_2.
Qed.

Lemma ensureSnapshot_spec th s :
  inv s ->
  let x := (ensureSnapshot th s).1 in
  let s' := (ensureSnapshot th s).2 in
  good s s' /\ JsMap.get th (am_snapshots s') = Some x
  /\ (forall sn, JsMap.get th (am_snapshots s) = Some sn -> x = sn)
  /\ (JsMap.get th (am_snapshots s) = None -> exists c t, x = blank_snapshot c t)
  /\ (forall th', th' <> th ->
        JsMap.get th' (am_snapshots s') = JsMap.get th' (am_snapshots s)).
Proof.
  intros Hi x s'. subst x s'. unfold AgentRuntime.ensureSnapshot. run.
  destruct (JsMap.get th (am_snapshots s)) as [sn|] eqn:E.
  - run. pose proof (good_prune th s Hi) as Hg.
    destruct (pruneBuffer_spec th s) as ([F1 F2 F3] & _).
    rewrite F2. split_and!; try done; naive_solver.
  - run. destruct (pushCheckpoint_spec th s Hi) as (Hg & Hx & Hc & Hsn & _).
    unfold modify, date_now. cbn [fst snd].
    set (s1 := (pushCheckpoint th s).2) in *. rewrite Hx.
    set (b := blank_snapshot _ _). split_and!.
    + eapply good_trans; [exact Hg|]. intros [Hl1 Hs1]. split; [split|split].
      * eapply log_inv_ext; [..|exact Hl1]; [done | cbn; lia | done].
      * intros th' sn. cbn. rewrite JsMap.get_set. case_decide.
        -- intros [= <-]. split; [|apply blank_ok]. exists (am_cursors s). cbn. split; [lia|done].
        -- apply Hs1.
      * cbn. lia.
      * intros th' sn E'. cbn. rewrite Hsn in *. rewrite JsMap.get_set_ne by congruence.
        exists sn. split; [done | apply str_lt_irrefl].
    + cbn. apply JsMap.get_set_eq.
    + done.
    + by repeat eexists.
    + intros th' Hne. cbn. by rewrite JsMap.get_set_ne, Hsn.
Qed.

Lemma ensureCursorAvailable_good th sn s : inv s -> good s (ensureCursorAvailable th sn s).2.
Proof.
  intros Hi. unfold AgentRuntime.ensureCursorAvailable. run.
  eapply good_trans; [by apply (good_prune th)|]. intros Hi1. case_match; [by apply good_refl|].
  pose proof (checkpoint_cursor_good th _ Hi1) as Hg. revert Hg. run. intros Hg.
  eapply good_trans; [exact Hg|]. intros Hi2.
  pose proof (touch_good th _ Hi2) as Ht. revert Ht. by run.
Qed.

(** The updaters of [updateSnapshot]: they read the clock and change the
    thread's snapshot by a function that keeps the invariant and the cursor. *)
Definition updates (Pre : InternalSnapshot -> Prop) (th : string) (u : M unit) : Prop :=
  forall s, exists f n,
    (u s).2 = set_am_ticks n (modify_snapshot th f s).2 /\ am_ticks s <= n
    /\ forall sn, JsMap.get th (am_snapshots s) = Some sn -> snapshot_ok sn -> Pre sn ->
         snapshot_ok (f sn) /\ streamCursor (f sn) = streamCursor sn.

Lemma updates_modify (Pre : InternalSnapshot -> Prop) th f :
  (forall sn, snapshot_ok sn -> Pre sn ->
     snapshot_ok (f sn) /\ streamCursor (f sn) = streamCursor sn) ->
  updates Pre th (modify_snapshot th f).
Proof.
  intros Hf s. exists f, (am_ticks s). split_and!; [|done|auto].
  unfold modify_snapshot, modify. cbn [snd]. destruct s. cbn. by case_match.
Qed.

Lemma updater_good (Pre : InternalSnapshot -> Prop) th u s :
  updates Pre th u -> inv s ->
  (forall sn, JsMap.get th (am_snapshots s) = Some sn -> Pre sn) -> good s (u s).2.
Proof.
  intros Hu Hi Hp. destruct (Hu s) as (f & n & -> & Hn & Hf).
  apply (good_trans _ (modify_snapshot th f s).2).
  - apply modify_snapshot_good; [done|]. intros sn E Hok His.
    destruct (Hf sn E Hok (Hp sn E)) as [? ->].
    split_and!; [done | done | apply str_lt_irrefl].
  - intros Hi'. destruct (modify_snapshot_frame th f s) as (_ & _ & _ & _ & Fk).
    apply good_quiet; try done. cbn [am_ticks set_am_ticks]. lia.
Qed.

Lemma updateSnapshot_good (Pre : InternalSnapshot -> Prop) th u cursor s :
  updates Pre th u -> inv s ->
  (forall sn, JsMap.get th (am_snapshots s) = Some sn -> Pre sn) ->
  (forall c now, Pre (blank_snapshot c now)) ->
  (forall c, cursor = Some c -> issued s c) ->
  good s (updateSnapshot th u cursor s).2.
Proof.
  intros Hu Hi Hp Hblank Hc. unfold AgentRuntime.updateSnapshot.
  rewrite bind_run. destruct (ensureSnapshot_spec th s Hi) as (Hg & Ex & Hold & Hnew & _).
  set (s1 := (ensureSnapshot th s).2) in *. set (x := (ensureSnapshot th s).1) in *.
  assert (Hg1 : good s1 (u s1).2).
  { apply (updater_good Pre th); [done | by destruct Hg|]. intros sn. rewrite Ex. intros [= <-].
    destruct (JsMap.get th (am_snapshots s)) as [sn0|] eqn:E.
    - rewrite (Hold sn0 eq_refl). by apply Hp.
    - destruct (Hnew eq_refl) as (c & t & ->). apply Hblank. }
  rewrite bind_run. set (s2 := (u s1).2) in *.
  assert (Hg2 : good s s2) by (eapply good_trans; [exact Hg | done]). clear Hg1.
  rewrite bind_run. eapply good_trans; [exact Hg2|]. intros Hi2.
  match goal with |- good _ (?k ?s).2 => assert (Hg3 : good s2 s) end.
  { case_match eqn:Ec; [|by apply checkpoint_cursor_good]. destruct cursor as [c|]; [|done].
    apply modify_snapshot_good; [done|]. intros sn E Hok His. cbn [default].
    unfold later_cursor. cbn. split_and!; [by apply snapshot_ok_cursor| |].
    - case_match; [|done]. eapply issued_weaken; [|by apply Hc]. by destruct Hg2 as [_ [? _]].
    - case_match eqn:Hlt; [|apply str_lt_irrefl].
      destruct (str_lt c (streamCursor sn)) eqn:E2; [|done].
      pose proof (str_lt_trans _ _ _ Hlt E2) as C. by rewrite str_lt_irrefl in C. }
  eapply good_trans; [exact Hg3|]. intros Hi3.
  pose proof (touch_good th _ Hi3) as Ht. revert Ht. by run.
Qed.

Lemma emit_good th name data (b : string -> M unit) s :
  inv s ->
  let s1 := set_am_cursors (S (am_cursors s)) s in
  let t := (b (nextCursor (am_cursors s)) s1).2 in
  am_buffers t = am_buffers s -> am_trace t = am_trace s -> am_cursors t = am_cursors s1 ->
  am_ticks s <= am_ticks t -> snap_inv t -> progress_to s1 t ->
  let s' := (emit th name data b s).2 in
  good s s' /\ am_snapshots s' = am_snapshots t.
Proof.
  intros [Hl Hs] s1 t Hb Ht Hc Htk Hst Hp s'. subst s'. unfold AgentRuntime.emit. run.
  change (next_cursor nextCursor s) with (nextCursor (am_cursors s), s1). cbn [fst snd].
  fold t. set (e := mkEvent _ _ _). set (t1 := (date_now clock t).2).
  set (en := mkEntry _ _ _).
  destruct (inv_append th en s Hl eq_refl t1) as [Hi2 Hp2]; [done|done|done|cbn; lia|done|].
  destruct (appendBuffer_spec th en t1) as ([F1 F2 F3] & _).
  split; [|by unfold notify, modify; cbn [snd am_snapshots set_am_trace]; rewrite F2].
  apply (good_trans _ (appendBuffer th en t1).2).
  - split; [done|]. eapply progress_trans; [|exact Hp2].
    apply (progress_trans _ s1); [apply progress_same; [done | cbn; lia]|].
    apply (progress_trans _ t); [exact Hp | by apply progress_same].
  - intros _. apply good_quiet; try done. intros th'. apply thread_log_calls.
Qed.

Lemma emit_plain_good th name data s :
  inv s -> good s (emit th name data (fun _ => mret tt) s).2.
Proof.
  intros Hi. apply emit_good; try done.
  - destruct Hi as [_ Hs]. apply (snap_inv_ext s); [done | cbn; lia | done].
  - by apply progress_same.
Qed.

Lemma inv_bump s : inv s -> inv (set_am_cursors (S (am_cursors s)) s).
Proof.
  intros [Hl Hs]. split.
  - intros th. destruct (Hl th) as (? & ? & ? & ?). split_and!; try done.
    eapply cursors_below_weaken; [|done]. cbn. lia.
  - apply (snap_inv_ext s); [done | cbn; lia | done].
Qed.

(** What [setOutputActivity] does before it publishes. *)
Definition activity_update (th llm : string) (state : option AgentOutputActivityState)
    (cursor : string) : M unit :=
  modify_snapshot th (set_output_activity (mkActivity llm <$> state));;
  modify_snapshot th (set_streamCursor cursor);;
  now ← date_now clock;
  modify_snapshot th (set_updatedAt now).

Lemma activity_update_spec th llm state s sn :
  inv s -> JsMap.get th (am_snapshots s) = Some sn -> active sn = true ->
  let s1 := set_am_cursors (S (am_cursors s)) s in
  let t := (activity_update th llm state (nextCursor (am_cursors s)) s1).2 in
  am_buffers t = am_buffers s /\ am_trace t = am_trace s /\ am_cursors t = am_cursors s1
  /\ am_ticks s <= am_ticks t
  /\ good s1 t
  /\ exists sn', JsMap.get th (am_snapshots t) = Some sn'
                /\ output_activity sn' = mkActivity llm <$> state.
Proof.
  intros Hi E Ha s1 t. subst t. unfold activity_update. run.
  set (t1 := (modify_snapshot th _ s1).2). set (t2 := (modify_snapshot th _ t1).2).
  set (t3 := (date_now clock t2).2). set (t4 := (modify_snapshot th _ t3).2).
  destruct (modify_snapshot_frame th (set_output_activity (mkActivity llm <$> state)) s1)
    as (B1 & T1 & C1 & _ & K1).
  destruct (modify_snapshot_frame th (set_streamCursor (nextCursor (am_cursors s))) t1)
    as (B2 & T2 & C2 & _ & K2).
  destruct (modify_snapshot_frame th (set_updatedAt (date_now clock t2).1) t3)
    as (B4 & T4 & C4 & _ & K4).
  assert (E1 : JsMap.get th (am_snapshots t1) = Some (set_output_activity (mkActivity llm <$> state) sn)).
  { subst t1. rewrite get_modify_snapshot, decide_True by done. subst s1. cbn. by rewrite E. }
  split_and!.
  - exact (eq_trans B4 (eq_trans B2 B1)).
  - exact (eq_trans T4 (eq_trans T2 T1)).
  - exact (eq_trans C4 (eq_trans C2 C1)).
  - subst t4. rewrite K4. cbn [t3 date_now snd am_ticks set_am_ticks].
    change (am_ticks s1) with (am_ticks s) in K1. fold t1 in K1. fold t2 in K2. lia.
  - apply (good_trans _ t1).
    { apply modify_snapshot_good; [by apply inv_bump|]. intros sn0 E0 [] His.
      assert (sn0 = sn) as -> by (subst s1; cbn in E0; congruence).
      split_and!; [by split | done | apply str_lt_irrefl]. }
    intros Hi1. apply (good_trans _ t2).
    { apply modify_snapshot_good; [done|]. intros sn0 E0 Hok His.
      assert (Hk : am_cursors t1 = S (am_cursors s)) by exact C1.
      split_and!; [by apply snapshot_ok_cursor | |].
      - exists (am_cursors s). split; [lia | done].
      - eapply newest_not_behind; [done|]. lia. }
    intros Hi2. pose proof (touch_good th t2 Hi2) as Ht. revert Ht. by run.
  - subst t4. rewrite get_modify_snapshot, decide_True by done. subst t3. cbn [date_now snd].
    change (am_snapshots (set_am_ticks ?n t2)) with (am_snapshots t2).
    subst t2. rewrite get_modify_snapshot, decide_True, E1 by done. cbn. by eexists.
Qed.

Lemma setOutputActivity_spec th turn llm st begin s :
  inv s ->
  let s' := (setOutputActivity th turn llm st begin s).2 in
  good s s'
  /\ (forall sn act, JsMap.get th (am_snapshots s) = Some sn -> snapshot_ok sn ->
        turnId sn = Some turn -> output_activity sn = Some act -> oa_llm_call_id act = llm ->
        st = None ->
        exists sn', JsMap.get th (am_snapshots s') = Some sn' /\ output_activity sn' = None).
Proof.
  intros Hi s'. subst s'. unfold AgentRuntime.setOutputActivity. rewrite bind_run.
  destruct (ensureSnapshot_spec th s Hi) as (Hg & Ex & Hold & _).
  set (s1 := (ensureSnapshot th s).2) in *. set (x := (ensureSnapshot th s).1) in *.
  destruct (negb (active x) || _) eqn:G1.
  { run. split; [done|]. intros sn act E Hok Ht Ho <- ->. rewrite (Hold sn E) in G1.
    destruct (sok_turn sn Hok) as [_ Hact]. rewrite Hact, bool_decide_eq_true_2 in G1 by eauto.
    done. }
  apply orb_false_iff in G1 as [Ha%negb_false_iff _].
  destruct (negb begin && _) eqn:G2.
  { run. split; [done|]. intros sn act E Hok Ht Ho <- ->. rewrite (Hold sn E), Ho in G2.
    cbn [fmap option_fmap option_map] in G2.
    by rewrite bool_decide_eq_true_2, andb_false_r in G2. }
  destruct (bool_decide _ && bool_decide _) eqn:G3.
  { run. split; [done|]. intros sn act E Hok Ht Ho <- ->. rewrite (Hold sn E), Ho in G3.
    cbn [fmap option_fmap option_map] in G3.
    by rewrite (bool_decide_eq_false_2 (Some _ = None)), andb_false_r in G3. }
  rewrite bind_run. fold (activity_update th llm st).
  destruct Hg as [Hi1 Hp1].
  destruct (activity_update_spec th llm st s1 x Hi1 Ex Ha) as (B & T & C & K & [[_ Hs] Hp] & sn' & E' & Ho').
  destruct (emit_good th "agent.output_activity"
    [("turn_id", JStr turn); ("llm_call_id", JStr llm); ("state", activity_state_value st)]
    (activity_update th llm st) s1 Hi1 B T C K Hs Hp) as [Hg2 Hsn].
  run. split.
  - eapply good_trans; [by split|]. done.
  - intros. subst st. exists sn'. by rewrite Hsn.
Qed.

Lemma clearOutputActivity_spec th s :
  inv s ->
  let s' := (clearOutputActivity th s).2 in
  good s s' /\ forall sn, JsMap.get th (am_snapshots s') = Some sn -> output_activity sn = None.
Proof.
  intros Hi s'. subst s'. unfold AgentRuntime.clearOutputActivity. rewrite bind_run.
  destruct (ensureSnapshot_spec th s Hi) as (Hg & Ex & _).
  set (s1 := (ensureSnapshot th s).2) in *. set (x := (ensureSnapshot th s).1) in *.
  destruct Hg as [Hi1 Hp1]. destruct (proj2 Hi1 th x Ex) as [_ Hok].
  destruct (turnId x) as [turn|] eqn:Et; destruct (output_activity x) as [act|] eqn:Eo.
  - destruct (str_truthy turn) eqn:Htr.
    + cbn [when]. destruct (setOutputActivity_spec th turn (oa_llm_call_id act) None false s1 Hi1)
        as [Hg2 Hc].
      split; [eapply good_trans; [by split | done]|]. intros sn Hsn.
      destruct (Hc x act Ex Hok Et Eo eq_refl eq_refl) as (sn' & E' & ?). congruence.
    + destruct (sok_turn_nonempty x Hok). by destruct turn.
  - run. split; [done|]. intros sn. rewrite Ex. congruence.
  - exfalso. destruct (sok_turn x Hok) as [H _].
    rewrite Et in H. destruct H as [? ?]; [|done]. apply (sok_activity x Hok). eauto.
  - run. split; [done|]. intros sn. rewrite Ex. congruence.
Qed.

(** ** Every operation keeps the invariant *)

Lemma modify_snapshot_comp th f g n s :
  (modify_snapshot th g (set_am_ticks n (modify_snapshot th f s).2)).2
  = set_am_ticks n (modify_snapshot th (g ∘ f) s).2.
Proof.
  unfold modify_snapshot, modify. cbn [snd]. destruct s as [ls bs sns c k tr]. cbn.
  destruct (JsMap.get th sns) as [sn|] eqn:E; cbn.
  - rewrite JsMap.get_set_eq. cbn. by rewrite JsMap.set_set.
  - by rewrite E.
Qed.

Lemma set_am_ticks_id s : set_am_ticks (am_ticks s) s = s.
Proof. by destruct s. Qed.

Lemma modify_snapshot_comp' th f g s :
  (modify_snapshot th g (modify_snapshot th f s).2).2 = (modify_snapshot th (g ∘ f) s).2.
Proof.
  pose proof (modify_snapshot_comp th f g (am_ticks s) s) as H.
  destruct (modify_snapshot_frame th f s) as (_ & _ & _ & _ & E1).
  destruct (modify_snapshot_frame th (g ∘ f) s) as (_ & _ & _ & _ & E2).
  rewrite <-E1 in H at 1. rewrite <-E2 in H. by rewrite !set_am_ticks_id in H.
Qed.

Lemma updates_setDraftAssistant th clientId text startedAt kind :
  updates (fun _ => True) th
    (snap ← gets (snapshot_at th);
     let started := match draftAssistant snap with
                    | Some d => if decide (da_clientId d = clientId)
                                then Some (da_startedAt d) else startedAt
                    | None => startedAt
                    end in
     modify_snapshot th (fun sn => set_pendingTool None (set_phase StreamingMessage sn));;
     start ← match started with Some t => mret t | None => date_now clock end;
     now ← date_now clock;
     modify_snapshot th (set_draftAssistant (Some (mkDraft clientId kind text start now)))).
Proof.
  intros s. run. set (f := fun sn => set_pendingTool None _).
  set (st := match draftAssistant _ with Some _ => _ | None => _ end).
  set (s1 := (modify_snapshot th f s).2).
  assert (exists start n, match st with Some t => mret t | None => date_now clock end s1
                          = (start, set_am_ticks n s1) /\ am_ticks s1 <= n)
    as (start & n & -> & Hn).
  { destruct st as [t|]; [exists t, (am_ticks s1); by destruct s1|].
    eexists _, _. split; [done|]. lia. }
  unfold date_now. cbn [fst snd]. eexists (_ ∘ f), _. split_and!; [apply modify_snapshot_comp| |].
  { destruct (modify_snapshot_frame th f s) as (_ & _ & _ & _ & Fk). fold s1 in Fk.
    cbn [am_ticks set_am_ticks]. lia. }
  intros sn E [] _. split; [|done]. split; cbn; try done. set_solver.
Qed.

Lemma reasoning_insert_NoDup id next (l : list DraftReasoning) :
  dr_clientId next = id -> NoDup (dr_clientId <$> l) ->
  NoDup (dr_clientId <$> match find_index (reasoning_of id) l with
                         | Some k => <[k := next]> l
                         | None => l ++ [next]
                         end).
Proof.
  intros <- Hnd. destruct (find_index _ l) as [k|] eqn:E.
  - destruct (find_index_Some _ _ _ E) as (a & x & b & -> & <- & Hx & _).
    apply bool_decide_eq_true in Hx.
    rewrite insert_app_r_alt, Nat.sub_diag by lia. cbn.
    revert Hnd. rewrite !fmap_app, !fmap_cons. by rewrite Hx.
  - apply find_index_None in E. rewrite fmap_app. apply NoDup_app. split_and!; [done| |].
    + intros c (x & -> & Hx)%list_elem_of_fmap. cbn. rewrite list_elem_of_singleton. intros Heq.
      eapply Forall_forall in E; [|exact Hx]. by apply bool_decide_eq_false in E.
    + apply NoDup_singleton.
Qed.

Lemma updates_setDraftReasoning th draft :
  updates (fun _ => True) th
    (modify_snapshot th (fun sn => set_pendingTool None (set_phase Thinking sn));;
     snap ← gets (snapshot_at th);
     let existing := find_index (reasoning_of (rd_clientId draft)) (draftReasoning snap) in
     let current := k ← existing; draftReasoning snap !! k in
     start ← match current, rd_startedAt draft with
             | Some c, _ => mret (dr_startedAt c)
             | None, Some t => mret t
             | None, None => date_now clock
             end;
     now ← date_now clock;
     let next := mkReasoning (rd_turnId draft) (rd_clientId draft) (rd_text draft)
                   (rd_llmCallId draft) (rd_index draft) (rd_provider draft)
                   (rd_providerModel draft) start now in
     modify_snapshot th (fun sn =>
       set_draftReasoning (match existing with
                           | Some k => <[k := next]> (draftReasoning sn)
                           | None => draftReasoning sn ++ [next]
                           end) sn)).
Proof.
  intros s. run. set (f := fun sn => set_pendingTool None _).
  set (s1 := (modify_snapshot th f s).2).
  set (ex := find_index _ _).
  match goal with |- context [ (match ?c with Some c => _ | None => _ end : M Z) s1 ] =>
    set (cur := c) end.
  assert (exists start n, match cur, rd_startedAt draft with
             | Some c, _ => mret (dr_startedAt c)
             | None, Some t => mret t
             | None, None => date_now clock
             end s1 = (start, set_am_ticks n s1) /\ am_ticks s1 <= n) as (start & n & -> & Hn).
  { repeat case_match; try (eexists _, (am_ticks s1); by destruct s1).
    eexists _, _. split; [done|]. lia. }
  unfold date_now. cbn [fst snd]. eexists (_ ∘ f), _. split_and!; [apply modify_snapshot_comp| |].
  { destruct (modify_snapshot_frame th f s) as (_ & _ & _ & _ & Fk). fold s1 in Fk.
    cbn [am_ticks set_am_ticks]. lia. }
  intros sn E [] _. split; [|done].
  assert (Hex : ex = find_index (reasoning_of (rd_clientId draft)) (draftReasoning sn)).
  { subst ex s1. f_equal. unfold snapshot_at. rewrite get_modify_snapshot, decide_True by done.
    by rewrite E. }
  split; cbn; try done; [set_solver|]. rewrite Hex. by apply reasoning_insert_NoDup.
Qed.

(** The obligation of an updater that is a plain mutation. *)
Ltac plain_update :=
  apply updates_modify; let sn := fresh "sn" in let P := fresh "P" in
  intros sn [] P; split; [|done]; split; cbn; try done;
  try (match goal with
       | |- _ ∈ _ -> _ => by eauto || (let H := fresh in intros H; exfalso; clear -H; set_solver)
       | |- ex _ -> _ => by intros [? ?]
       | |- NoDup [] => apply NoDup_nil_2
       end).

Lemma update_true_good th u cursor s :
  updates (fun _ => True) th u -> inv s -> (forall c, cursor = Some c -> issued s c) ->
  good s (updateSnapshot th u cursor s).2.
Proof. intros. by apply (updateSnapshot_good (fun _ => True)). Qed.

(** The operations that clear the output activity first. *)
Lemma clear_update_good th u cursor s :
  updates (fun sn => output_activity sn = None) th u -> inv s ->
  (forall c, cursor = Some c -> issued s c) ->
  good s ((clearOutputActivity th;; updateSnapshot th u cursor) s).2.
Proof.
  intros Hu Hi Hc. rewrite bind_run. destruct (clearOutputActivity_spec th s Hi) as [Hg Ho].
  eapply good_trans; [exact Hg|]. intros Hi1.
  apply (updateSnapshot_good (fun sn => output_activity sn = None)); try done.
  intros c E. eapply issued_weaken; [|by apply Hc]. by destruct Hg as [_ [? _]].
Qed.

Lemma getSnapshot_good th fresh s :
  inv s -> good s (getSnapshot nextCursor clock bufferLimit bufferTtlMs th fresh s).2.
Proof.
  intros Hi. unfold getSnapshot. rewrite bind_run.
  destruct (ensureSnapshot_spec th s Hi) as (Hg & _).
  eapply good_trans; [exact Hg|]. intros Hi1. rewrite bind_run.
  eapply good_trans; [by apply ensureCursorAvailable_good|]. intros Hi2. rewrite bind_run.
  unfold gets. cbn [snd]. destruct fresh; [by apply checkpoint_cursor_good | by apply good_refl].
Qed.

Lemma prepareAttachment_good th after s : inv s -> good s (prepareAttachment th after s).2.
Proof.
  intros Hi. unfold AgentRuntime.prepareAttachment. rewrite bind_run.
  destruct (ensureSnapshot_spec th s Hi) as (Hg & _).
  eapply good_trans; [exact Hg|]. intros Hi1. rewrite bind_run. run.
  by apply ensureCursorAvailable_good.
Qed.

Lemma attachCallback_good th l after s :
  inv s -> good s (attachCallback nextCursor clock bufferLimit bufferTtlMs th l after s).2.
Proof.
  intros Hi. unfold attachCallback. rewrite bind_run.
  eapply good_trans; [by apply prepareAttachment_good|]. intros Hi1.
  case_match; [|by apply good_refl]. run. apply good_quiet; try done.
  intros. apply thread_log_replay.
Qed.

Lemma attach_good th l after s :
  inv s -> good s (attach nextCursor clock bufferLimit bufferTtlMs th l after s).2.
Proof.
  intros Hi. unfold attach. rewrite bind_run.
  eapply good_trans; [by apply prepareAttachment_good|]. intros Hi1.
  case_match; [|by apply good_refl]. run.
  case_bool_decide; run; apply good_quiet; try done; cbn; try lia;
    intros; apply thread_log_replay.
Qed.

Lemma emit_resync_good ths s :
  inv s -> good s (emit_resync nextCursor clock bufferLimit bufferTtlMs ths s).2.
Proof.
  revert s. induction ths as [|th ths IH]; intros s Hi; [by apply good_refl|].
  cbn [emit_resync]. rewrite bind_run.
  eapply good_trans; [by apply emit_plain_good | apply IH].
Qed.

Lemma clear_buffers_inv s :
  inv s ->
  good s (set_am_buffers [] (set_am_trace (am_trace s ++ [TClearBuffers]) s)).
Proof.
  intros [Hl Hs]. split; [split|].
  - intros th. cbn [am_trace am_cursors set_am_buffers set_am_trace].
    rewrite thread_log_snoc. cbn [log_step]. split_and!; [done | cbn; lia| |].
    + apply cursors_below_nil.
    + intros _. cbn [am_trace set_am_buffers set_am_trace]. by rewrite thread_log_snoc.
  - by apply (snap_inv_ext s).
  - by apply progress_same.
Qed.

Lemma exec_good o s : inv s -> op_ok nextCursor s o -> good s (exec o s).2.
Proof.
  intros Hi Hok. destruct o; cbn [AgentRuntime.exec op_ok] in *;
    try (rewrite bind_run, ret_run; cbn [snd]).
  - by apply setOutputActivity_spec.
  - by apply clearOutputActivity_spec.
  - by apply getSnapshot_good.
  - apply update_true_good; [|done..]. plain_update. naive_solver.
  - apply clear_update_good; [|done|by intros ? ->]. plain_update.
  - apply clear_update_good; [|done|by intros ? [= <-]]. plain_update.
  - apply clear_update_good; [|done|by intros ? [= <-]]. plain_update.
  - apply clear_update_good; [|done|by intros ? [= <-]]. plain_update.
  - apply update_true_good; [|done|by intros ? [= <-]]. apply updates_setDraftAssistant.
  - apply update_true_good; [|done|by intros ? ->]. plain_update.
  - apply update_true_good; [|done|by intros ? [= <-]]. apply updates_setDraftReasoning.
  - apply update_true_good; [|done|by intros ? ->]. plain_update.
    eapply sublist_NoDup; [done|]. apply fmap_sublist, sublist_filter.
  - apply update_true_good; [|done|by intros ? [= <-]].
    intros s0. exists id, (am_ticks s0). split_and!; [|done|done].
    unfold modify_snapshot, modify. cbn. destruct s0 as [ls bs sns c k tr]. cbn.
    destruct (JsMap.get th sns) as [sn|] eqn:E; [|done]. cbn. by rewrite JsMap.set_get.
  - apply update_true_good; [|done|by intros ? ->]. plain_update.
  - apply update_true_good; [|done|by intros ? ->]. plain_update.
  - apply update_true_good; [|done|by intros ? ->]. plain_update.
  - apply update_true_good; [|done|by intros ? ->]. plain_update.
  - apply clear_update_good; [|done|done]. plain_update. rewrite P. by intros [? ?].
  - by apply emit_plain_good.
  - unfold invalidateReplay, log_item, modify. run.
    eapply good_trans; [by apply clear_buffers_inv | apply emit_resync_good].
  - by apply attach_good.
  - by apply attachCallback_good.
  - unfold detach, modify. cbn [snd]. case_match; [by apply good_quiet | by apply good_refl].
Qed.

Lemma new_manager_inv : inv new_manager.
Proof.
  split; [|done]. intros th. split_and!; [done | cbn; lia | apply cursors_below_nil | by intros _].
Qed.

Lemma steps_good s s' : inv s -> steps s s' -> good s s'.
Proof.
  intros Hi. induction 1 as [|s s' o _ IH Hok]; [by apply good_refl|].
  destruct (IH Hi) as [Hi' Hp]. eapply good_trans; [by split|]. intros. by apply exec_good.
Qed.

Lemma reachable_inv s : reachable s -> inv s.
Proof. intros H. by apply (steps_good new_manager s new_manager_inv). Qed.

(** ** What attaching does to the log *)

(** [s'] has the log of [s] and newer checkpoints; the listeners are the same. *)
Definition only_checkpoints (th : string) (s s' : manager) : Prop :=
  am_listeners s' = am_listeners s /\ am_cursors s <= am_cursors s' /\
  exists extra, thread_log th (am_trace s') = thread_log th (am_trace s) ++ extra
    /\ Forall (fun e => be_event e = None
                        /\ exists i, am_cursors s <= i /\ be_cursor e = nextCursor i) extra.

Lemma only_checkpoints_refl th s s' :
  am_listeners s' = am_listeners s -> am_cursors s' = am_cursors s ->
  am_trace s' = am_trace s -> only_checkpoints th s s'.
Proof.
  intros Hl Hc Ht. split; [done|]. split; [lia|]. exists []. by rewrite Ht, app_nil_r.
Qed.

Lemma only_checkpoints_trans th s1 s2 s3 :
  only_checkpoints th s1 s2 -> only_checkpoints th s2 s3 -> only_checkpoints th s1 s3.
Proof.
  intros (L1 & C1 & x & E1 & F1) (L2 & C2 & y & E2 & F2).
  split; [congruence|]. split; [lia|]. exists (x ++ y).
  split; [by rewrite E2, E1, (assoc_L (++))|]. apply Forall_app. split; [done|].
  eapply Forall_impl; [exact F2|]. intros e [? (i & ? & ?)]. split; [done|].
  exists i. split; [lia | done].
Qed.

Lemma pushCheckpoint_log th s : only_checkpoints th s (pushCheckpoint th s).2.
Proof.
  unfold AgentRuntime.pushCheckpoint. run. unfold next_cursor, date_now. cbn [fst snd].
  set (t := set_am_ticks _ _). set (e := mkEntry _ _ _).
  destruct (appendBuffer_spec th e t) as ([F1 F2 F3] & Ht & _).
  split; [done|]. split; [rewrite F3; cbn; lia|]. exists [e].
  rewrite Ht, thread_log_snoc. cbn [log_step]. rewrite decide_True by done.
  split; [done|]. constructor; [|done]. split; [done|]. by exists (am_cursors s).
Qed.

Lemma pruneBuffer_log th s : only_checkpoints th s (pruneBuffer th s).2.
Proof.
  destruct (pruneBuffer_spec th s) as ([F1 F2 F3] & Ht & _). by apply only_checkpoints_refl.
Qed.

Lemma ensureSnapshot_log th s : only_checkpoints th s (ensureSnapshot th s).2.
Proof.
  unfold AgentRuntime.ensureSnapshot. run. case_match; run.
  - apply pruneBuffer_log.
  - eapply only_checkpoints_trans; [apply pushCheckpoint_log|]. by apply only_checkpoints_refl.
Qed.

Lemma modify_snapshot_log th th' f s : only_checkpoints th s (modify_snapshot th' f s).2.
Proof.
  destruct (modify_snapshot_frame th' f s) as (? & ? & ? & ? & _). by apply only_checkpoints_refl.
Qed.

Lemma ensureCursorAvailable_log th sn s :
  only_checkpoints th s (ensureCursorAvailable th sn s).2.
Proof.
  unfold AgentRuntime.ensureCursorAvailable. run.
  eapply only_checkpoints_trans; [apply pruneBuffer_log|].
  case_match; run; [by apply only_checkpoints_refl|].
  eapply only_checkpoints_trans; [apply pushCheckpoint_log|].
  eapply only_checkpoints_trans; [apply modify_snapshot_log|].
  eapply only_checkpoints_trans; [|apply modify_snapshot_log]. by apply only_checkpoints_refl.
Qed.

Lemma prepareAttachment_log th after s : only_checkpoints th s (prepareAttachment th after s).2.
Proof.
  unfold AgentRuntime.prepareAttachment. run.
  eapply only_checkpoints_trans; [apply ensureSnapshot_log | apply ensureCursorAvailable_log].
Qed.

Lemma only_checkpoints_events th s s' :
  only_checkpoints th s s' ->
  omap be_event (thread_log th (am_trace s')) = omap be_event (thread_log th (am_trace s)).
Proof.
  intros (_ & _ & x & -> & Hx). rewrite omap_app.
  assert (omap be_event x = []) as ->; [|by rewrite app_nil_r].
  induction Hx as [|e x [He _] _ IH]; [done|]. cbn. by rewrite He.
Qed.

(** ** Cursors identify entries *)

Lemma nextCursor_inj i j : nextCursor i = nextCursor j -> i = j.
Proof.
  intros E. destruct (Nat.lt_trichotomy i j) as [H|[H|H]]; [|done|];
    apply cursor_mono in H; rewrite E, str_lt_irrefl in H; done.
Qed.

Lemma cursors_NoDup k log : cursors_below k log -> NoDup (be_cursor <$> log).
Proof.
  intros (idx & -> & Hs & _). apply NoDup_fmap_2_strong.
  - intros x y _ _. apply nextCursor_inj.
  - induction Hs as [|i idx _ IH Hi]; constructor; [|done].
    intros Hin. eapply Forall_forall in Hi; [|exact Hin]. lia.
Qed.

Lemma cursor_unique k log pre e post :
  cursors_below k log -> log = pre ++ e :: post ->
  Forall (fun x => be_cursor x <> be_cursor e) (pre ++ post).
Proof.
  intros Hc%cursors_NoDup ->. rewrite fmap_app, fmap_cons, NoDup_app, NoDup_cons in Hc.
  destruct Hc as (_ & Hd & Hn & _). apply Forall_forall. intros x Hx Heq.
  apply elem_of_app in Hx as [Hx|Hx]; apply (list_elem_of_fmap_2 be_cursor) in Hx;
    rewrite Heq in Hx; [|done].
  apply (Hd _ Hx). set_solver.
Qed.

Lemma find_cursor k log w pre e post :
  cursors_below k log -> w `suffix_of` log -> w = pre ++ e :: post ->
  find_index (fun x => bool_decide (be_cursor x = be_cursor e)) w = Some (length pre).
Proof.
  intros Hc [p Hp] ->. apply find_index_hit; [|by apply bool_decide_eq_true].
  pose proof (cursor_unique k log (p ++ pre) e post Hc) as Hu.
  rewrite Hp, <-!(assoc_L (++)) in Hu. specialize (Hu eq_refl).
  apply Forall_app in Hu as [_ Hu]. apply Forall_app in Hu as [Hu _].
  eapply Forall_impl; [exact Hu|]. intros x Hx. by apply bool_decide_eq_false.
Qed.

Lemma prepareAttachment_result th c s :
  c <> "" ->
  let s' := (prepareAttachment th (Some c) s).2 in
  (prepareAttachment th (Some c) s).1
  = match find_index (fun e => bool_decide (be_cursor e = c)) (buffer_of th s') with
    | None => ResyncRequired c
    | Some k => Attached (omap be_event (drop (S k) (buffer_of th s'))) (Some true)
                  (length (buffer_of th s'))
    end.
Proof.
  intros Hc%str_truthy_true s'. subst s'. unfold AgentRuntime.prepareAttachment. run.
  by rewrite Hc.
Qed.

(** A resume that finds its cursor replays what the log holds after it. *)
Lemma resume_found s th c i :
  inv s ->
  find_index (fun e => bool_decide (be_cursor e = c)) (buffer_of th s) = Some i ->
  exists pre e post, thread_log th (am_trace s) = pre ++ e :: post /\ be_cursor e = c
    /\ Forall (fun x => be_cursor x <> c) (pre ++ post)
    /\ drop (S i) (buffer_of th s) = post.
Proof.
  intros [Hl _] Hf. destruct (Hl th) as ([p Hp] & _ & Hc & _).
  destruct (find_index_Some _ _ _ Hf) as (a & e & post & Hb & <- & He & _).
  apply bool_decide_eq_true in He. subst c. exists (p ++ a), e, post.
  assert (Hlog : thread_log th (am_trace s) = (p ++ a) ++ e :: post)
    by (by rewrite Hp, Hb, (assoc_L (++))).
  split_and!; [done|done| |].
  - by eapply cursor_unique.
  - rewrite Hb, (cons_middle e), (assoc_L (++)). apply drop_app_length'.
    rewrite length_app. cbn. lia.
Qed.

(** A resume fails only when its entry left the window or expired. *)
Lemma resume_lost s th c :
  inv s -> (forall i j, i <= j -> (clock i <= clock j)%Z) ->
  find_index (fun e => bool_decide (be_cursor e = c)) (buffer_of th s) = None ->
  forall pre e post, thread_log th (am_trace s) = pre ++ e :: post -> be_cursor e = c ->
    bufferLimit <= length post \/ (be_recordedAt e < clock (am_ticks s) - bufferTtlMs)%Z.
Proof.
  intros [Hl _] Hm Hf pre e post Hlog He. destruct (Hl th) as (_ & _ & _ & Hr).
  destruct (decide (bufferLimit <= length post)) as [|Hlt]; [by left|].
  destruct (Z.lt_ge_cases (be_recordedAt e) (clock (am_ticks s) - bufferTtlMs)) as [|Hge];
    [by right|]. exfalso.
  assert ((e :: post) `suffix_of` buffer_of th s) as [p Hp].
  { etrans; [|by apply Hr].
    destruct (last_n_suffix_le bufferLimit (e :: post) (thread_log th (am_trace s)))
      as [a Ha]; [rewrite Hlog; by apply suffix_app_r | cbn; lia|].
    rewrite Ha. by apply drop_expired_keeps. }
  rewrite Hp in Hf. apply find_index_None, Forall_app in Hf as [_ Hf].
  apply Forall_cons in Hf as [Hf _]. by apply bool_decide_eq_false in Hf.
Qed.

(** ** Snapshot cursors are in the buffer *)

Definition cursor_buffered (th : string) (s : manager) : Prop :=
  exists sn, JsMap.get th (am_snapshots s) = Some sn
             /\ streamCursor sn ∈ be_cursor <$> buffer_of th s.

Lemma last_n_snoc_elem {A} n (l : list A) x : 0 < n -> x ∈ last_n n (l ++ [x]).
Proof.
  intros Hn. unfold last_n. rewrite length_app. cbn [length].
  rewrite drop_app_le by lia. set_solver.
Qed.

Lemma checkpoint_buffered th s :
  0 < bufferLimit -> inv s -> is_Some (JsMap.get th (am_snapshots s)) ->
  cursor_buffered th ((c ← pushCheckpoint th; modify_snapshot th (set_streamCursor c)) s).2.
Proof.
  intros Hn Hi [sn E]. run.
  destruct (pushCheckpoint_spec th s Hi) as (_ & -> & _ & Hsn & _ & b & t & _ & Hb).
  set (s1 := (pushCheckpoint th s).2) in *.
  destruct (modify_snapshot_frame th (set_streamCursor (nextCursor (am_cursors s))) s1) as (Fb & _).
  exists (set_streamCursor (nextCursor (am_cursors s)) sn).
  rewrite get_modify_snapshot, decide_True, Hsn, E by done. split; [done|].
  unfold buffer_of. rewrite Fb. fold (buffer_of th s1). rewrite Hb. cbn [streamCursor set_streamCursor].
  apply (list_elem_of_fmap_2 be_cursor _ (mkEntry (nextCursor (am_cursors s)) None t)).
  by apply last_n_snoc_elem.
Qed.

Lemma touch_buffered th now s :
  cursor_buffered th s -> cursor_buffered th (modify_snapshot th (set_updatedAt now) s).2.
Proof.
  intros (sn & E & Hb). exists (set_updatedAt now sn).
  rewrite get_modify_snapshot, decide_True, E by done. split; [done|].
  destruct (modify_snapshot_frame th (set_updatedAt now) s) as (Fb & _).
  unfold buffer_of. by rewrite Fb.
Qed.

Lemma ensureCursorAvailable_buffered th sn s :
  0 < bufferLimit -> inv s -> JsMap.get th (am_snapshots s) = Some sn ->
  cursor_buffered th (ensureCursorAvailable th sn s).2.
Proof.
  intros Hn Hi E. unfold AgentRuntime.ensureCursorAvailable. run.
  destruct (good_prune th s Hi) as [Hi1 _].
  destruct (pruneBuffer_spec th s) as ([F1 F2 F3] & _).
  case_match eqn:G; run.
  - exists sn. rewrite F2. split; [done|]. apply existsb_exists in G as (e & He & Hc).
    apply bool_decide_eq_true in Hc. rewrite <-Hc. apply list_elem_of_fmap_2.
    by apply list_elem_of_In.
  - pose proof (checkpoint_buffered th (pruneBuffer th s).2 Hn Hi1) as Hcb.
    rewrite F2, E in Hcb. specialize (Hcb (mk_is_Some _ _ eq_refl)). revert Hcb. run. intros Hcb.
    by apply touch_buffered.
Qed.

(** ** Invalidation *)

Lemma emit_plain_trace th name data s :
  let s' := (emit th name data (fun _ => mret tt) s).2 in
  exists en e, be_cursor en = nextCursor (am_cursors s) /\ be_event en = Some e
    /\ ev_event e = name
    /\ am_trace s' = am_trace s ++ TAppend th en :: ((fun l => TCall l e) <$> listeners_of th s)
    /\ am_listeners s' = am_listeners s /\ am_cursors s <= am_cursors s'.
Proof.
  intros s'. subst s'. unfold AgentRuntime.emit. run. unfold next_cursor, date_now. cbn [fst snd].
  set (e := mkEvent _ _ _). set (t := set_am_ticks _ _). set (en := mkEntry _ _ _).
  destruct (appendBuffer_spec th en t) as ([F1 F2 F3] & Ht & _).
  exists en, e. split_and!; try done.
  - unfold notify, modify. cbn [fst snd am_trace set_am_trace]. rewrite Ht.
    unfold listeners_of. rewrite F1. by rewrite <-(assoc_L (++)).
  - unfold notify, modify. cbn [fst snd am_cursors set_am_trace]. rewrite F3. cbn. lia.
Qed.

(** Every cursor of the log is at least the [k]-th. *)
Definition newer (k : nat) (log : list BufferEntry) : Prop :=
  Forall (fun e => exists i, k <= i /\ be_cursor e = nextCursor i) log.

Lemma emit_resync_spec ths s k :
  k <= am_cursors s -> (forall th, newer k (thread_log th (am_trace s))) ->
  let s' := (emit_resync nextCursor clock bufferLimit bufferTtlMs ths s).2 in
  (forall th, newer k (thread_log th (am_trace s'))) /\ am_listeners s' = am_listeners s
  /\ exists tr, am_trace s' = am_trace s ++ tr
      /\ forall th l, th ∈ ths -> l ∈ listeners_of th s ->
           exists e, ev_event e = "agent.resync_required" /\ TCall l e ∈ tr.
Proof.
  revert s. induction ths as [|th ths IH]; intros s Hk Hn s'; subst s'.
  { split_and!; try done. exists []. split; [by rewrite app_nil_r|]. set_solver. }
  cbn [emit_resync]. rewrite bind_run.
  destruct (emit_plain_trace th "agent.resync_required" resync_data s)
    as (en & e & Hcur & Hev & Hname & Htr & Hls & Hcs).
  set (s1 := (emit th _ _ _ s).2) in *.
  destruct (IH s1) as (Hn' & Hls' & tr & Htr' & Hcall).
  { lia. }
  { intros th'. rewrite Htr, cons_middle, (assoc_L (++)), thread_log_calls, thread_log_snoc.
    cbn [log_step]. case_decide; [|done]. apply Forall_app. split; [apply Hn|].
    constructor; [|done]. by exists (am_cursors s). }
  split_and!; [done | by rewrite Hls'|].
  eexists (_ ++ tr). split; [by rewrite Htr', Htr, <-(assoc_L (++))|].
  intros th' l Hth Hl. apply elem_of_cons in Hth as [->|Hth].
  - exists e. split; [done|]. apply elem_of_app. left. apply elem_of_cons. right.
    by apply (list_elem_of_fmap_2 (fun l => TCall l e)).
  - destruct (Hcall th' l Hth) as (e' & ? & ?); [unfold listeners_of; by rewrite Hls|].
    exists e'. split; [done|]. apply elem_of_app. by right.
Qed.

Lemma listeners_key th l s : l ∈ listeners_of th s -> th ∈ JsMap.keys (am_listeners s).
Proof.
  unfold listeners_of. intros Hl. destruct (decide (th ∈ JsMap.keys (am_listeners s))); [done|].
  assert (JsMap.get th (am_listeners s) = None) as E by by apply JsMap.get_None_keys.
  rewrite E in Hl. cbn in Hl. set_solver.
Qed.

Lemma stale_cursor_resync th c s k :
  inv s -> (exists i, i < k /\ c = nextCursor i) -> k <= am_cursors s ->
  newer k (thread_log th (am_trace s)) ->
  (prepareAttachment th (Some c) s).1 = ResyncRequired c.
Proof.
  intros Hi (i & Hik & ->) Hk Hn. rewrite prepareAttachment_result by apply cursor_nonempty.
  destruct (prepareAttachment_good th (Some (nextCursor i)) s Hi) as [[Hl1 _] _].
  destruct (prepareAttachment_log th (Some (nextCursor i)) s) as (_ & _ & x & Hx & Fx).
  set (s1 := (prepareAttachment th (Some (nextCursor i)) s).2) in *.
  assert (find_index (fun e => bool_decide (be_cursor e = nextCursor i)) (buffer_of th s1) = None)
    as ->; [|done].
  apply find_index_None. destruct (Hl1 th) as ([p Hp] & _).
  assert (Hall : newer k (thread_log th (am_trace s1))).
  { rewrite Hx. apply Forall_app. split; [done|]. eapply Forall_impl; [exact Fx|].
    intros e (_ & j & ? & ?). exists j. split; [lia | done]. }
  rewrite Hp in Hall. apply Forall_app in Hall as [_ Hall].
  eapply Forall_impl; [exact Hall|]. intros e (j & Hj & Hcj).
  apply bool_decide_eq_false. rewrite Hcj. intros ?%nextCursor_inj. lia.
Qed.

(** ** Properties *)

(** C5: A client that attaches after a cursor is either replayed exactly the
    events published to its thread after that cursor, in order, before it is
    registered for live events, or told to resynchronise; attaching publishes
    no event, and, under a clock that does not go back, a resynchronisation
    means that the cursor was never issued for the log, was followed by
    [bufferLimit] newer entries, or is older than the buffer's time to live. *)
Theorem agent_resume_exact (s : manager) (th c : string) (l : nat) :
  reachable s -> c <> "" ->
  let r := AgentRuntime.attachCallback nextCursor clock bufferLimit bufferTtlMs th l (Some c) s in
  let log := thread_log th (am_trace r.2) in
  omap be_event log = omap be_event (thread_log th (am_trace s)) /\
  match r.1 with
  | Attached replay found _ =>
      found = Some true /\ l ∈ listeners_of th r.2
      /\ (exists tr, am_trace r.2 = tr ++ (TCall l <$> replay))
      /\ exists pre e post, log = pre ++ e :: post /\ be_cursor e = c
          /\ Forall (fun x => be_cursor x <> c) (pre ++ post) /\ replay = omap be_event post
  | ResyncRequired c' =>
      c' = c /\ am_listeners r.2 = am_listeners s
      /\ ((forall i j, i <= j -> (clock i <= clock j)%Z) ->
          forall pre e post, log = pre ++ e :: post -> be_cursor e = c ->
            bufferLimit <= length post
            \/ (be_recordedAt e < clock (am_ticks r.2) - bufferTtlMs)%Z)
  end.
Proof.
  intros Hr Hc r log. apply reachable_inv in Hr as Hi.
  pose proof (prepareAttachment_log th (Some c) s) as Hlog.
  destruct (prepareAttachment_good th (Some c) s Hi) as [Hi1 _].
  pose proof (prepareAttachment_result th c s Hc) as Hres.
  subst r log. unfold AgentRuntime.attachCallback. rewrite bind_run.
  set (s1 := (prepareAttachment th (Some c) s).2) in *. rewrite Hres.
  destruct (find_index _ (buffer_of th s1)) as [i|] eqn:Hf; cbn [fst snd].
  - run. unfold add_listener, modify. cbn [fst snd am_trace set_am_trace set_am_listeners].
    rewrite thread_log_replay. split; [by apply only_checkpoints_events|].
    split_and!; [done| | |].
    + unfold listeners_of at 1. cbn. rewrite JsMap.get_set_eq. cbn.
      apply JsSet.elem_add. by left.
    + by eexists.
    + destruct (resume_found s1 th c i Hi1 Hf) as (pre & e & post & ? & ? & ? & <-).
      by exists pre, e, (drop (S i) (buffer_of th s1)).
  - run. split; [by apply only_checkpoints_events|]. split; [done|].
    split; [by destruct Hlog|]. intros Hm. by apply resume_lost.
Qed.

(** Whatever the sequence of operations, the snapshot a client is given
    is consistent: a turn is active exactly when it has an id and can be
    cancelled, a phase that waits on a tool has the pending tool, a streaming
    phase has the draft and no tool, an idle thread has nothing in flight, the
    output activity belongs to an active turn, reasoning drafts have distinct
    client ids; and its cursor is one the client can attach after, because the
    replay buffer holds it. *)
Lemma agent_snapshot_good (s : manager) (th : string) (fresh : bool) :
  reachable s -> 0 < bufferLimit ->
  let r := getSnapshot nextCursor clock bufferLimit bufferTtlMs th fresh s in
  exists sn, JsMap.get th (am_snapshots r.2) = Some sn /\ r.1 = serializeSnapshot sn
    /\ snapshot_ok sn /\ streamCursor sn ∈ be_cursor <$> buffer_of th r.2.
Proof.
  intros Hi%reachable_inv Hn r. subst r.
  destruct (getSnapshot_good th fresh s Hi) as [[_ Hs] _]. revert Hs.
  assert (Hbuf : cursor_buffered th (getSnapshot nextCursor clock bufferLimit bufferTtlMs th fresh s).2).
  { unfold getSnapshot. run.
    destruct (ensureSnapshot_spec th s Hi) as ([Hi1 _] & E & _).
    pose proof (ensureCursorAvailable_buffered th _ _ Hn Hi1 E) as Hc.
    destruct (ensureCursorAvailable_good th (ensureSnapshot th s).1 _ Hi1) as [Hi2 _].
    destruct fresh; cbn [when]; [|done]. destruct Hc as (sn & E2 & _).
    apply checkpoint_buffered; [done|done|by exists sn]. }
  intros Hs. destruct Hbuf as (sn & E & Hb). exists sn. split_and!; [done| |by eapply Hs|done].
  revert E. unfold getSnapshot. run. unfold snapshot_at. by intros ->.
Qed.

(** The stream cursor of a thread never moves backwards, and every cursor
    a snapshot carries was issued by the factory. *)
Lemma agent_cursor_grows (s s' : manager) (th : string) (sn : InternalSnapshot) :
  reachable s -> steps s s' -> JsMap.get th (am_snapshots s) = Some sn ->
  exists sn', JsMap.get th (am_snapshots s') = Some sn'
    /\ str_lt (streamCursor sn') (streamCursor sn) = false /\ issued s' (streamCursor sn').
Proof.
  intros Hi%reachable_inv Hst E. destruct (steps_good s s' Hi Hst) as [[_ Hs] [_ Hp]].
  destruct (Hp th sn E) as (sn' & E' & ?). exists sn'. split_and!; [done..|]. by eapply Hs.
Qed.

(** A failed publication. *)
Lemma invalidate_resync (s : manager) :
  reachable s ->
  let s' := (invalidateReplay nextCursor clock bufferLimit bufferTtlMs s).2 in
  am_listeners s' = am_listeners s
  /\ (forall th l c, issued s c ->
       (AgentRuntime.attachCallback nextCursor clock bufferLimit bufferTtlMs th l (Some c) s').1
       = ResyncRequired c)
  /\ exists tr, am_trace s' = am_trace s ++ TClearBuffers :: tr
      /\ forall th l, l ∈ listeners_of th s ->
           exists e, ev_event e = "agent.resync_required" /\ TCall l e ∈ tr.
Proof.
  intros Hi%reachable_inv s'. subst s'.
  assert (Hi' : inv (invalidateReplay nextCursor clock bufferLimit bufferTtlMs s).2)
    by apply (exec_good OInvalidateReplay s Hi I).
  revert Hi'. unfold invalidateReplay, log_item, modify. run. set (ths := JsSet.of_list _).
  set (s0 := set_am_buffers [] _). intros Hi'.
  destruct (emit_resync_spec ths s0 (am_cursors s)) as (Hn & Hls & tr & Htr & Hcall); [done| |].
  { intros th. subst s0. cbn [am_trace set_am_buffers set_am_trace]. rewrite thread_log_snoc.
    constructor. }
  destruct (emit_resync_good ths s0) as [_ [Hcs _]]; [by apply clear_buffers_inv|].
  split_and!; [done| |].
  - intros th l c Hc. unfold AgentRuntime.attachCallback. rewrite bind_run.
    rewrite (stale_cursor_resync th c _ (am_cursors s)); done.
  - exists tr. split; [by rewrite Htr; subst s0; cbn [am_trace set_am_buffers set_am_trace];
      rewrite <-(assoc_L (++))|].
    intros th l Hl. apply (Hcall th l); [|done]. subst ths. apply JsSet.elem_of_list, elem_of_app.
    right. by eapply listeners_key.
Qed.

(** C6: Whatever the sequence of operations, the snapshot a client is given is
    consistent (a turn is active exactly when it has an id and can be cancelled, a phase
    that waits on a tool has the pending tool, a streaming phase has the draft and no
    tool, an idle thread has nothing in flight, the output activity belongs to an active
    turn, reasoning drafts have distinct client ids), and its cursor is one the client
    can attach after, because the replay buffer holds it; and the cursor of a thread
    never moves backwards and was issued by the factory; and after a failed publication no
    cursor handed out before it can be resumed, and every attached listener has been sent a
    resynchronisation request. *)
Theorem agent_snapshot_invariant (s : manager) (th : string) :
  reachable s ->
  (0 < bufferLimit -> forall fresh,
     let r := getSnapshot nextCursor clock bufferLimit bufferTtlMs th fresh s in
     exists sn, JsMap.get th (am_snapshots r.2) = Some sn /\ r.1 = serializeSnapshot sn
       /\ snapshot_ok sn /\ streamCursor sn ∈ be_cursor <$> buffer_of th r.2) /\
  (forall s' sn, steps s s' -> JsMap.get th (am_snapshots s) = Some sn ->
     exists sn', JsMap.get th (am_snapshots s') = Some sn'
       /\ str_lt (streamCursor sn') (streamCursor sn) = false /\ issued s' (streamCursor sn')) /\
  let s' := (invalidateReplay nextCursor clock bufferLimit bufferTtlMs s).2 in
  am_listeners s' = am_listeners s
  /\ (forall th l c, issued s c ->
       (AgentRuntime.attachCallback nextCursor clock bufferLimit bufferTtlMs th l (Some c) s').1
       = ResyncRequired c)
  /\ exists tr, am_trace s' = am_trace s ++ TClearBuffers :: tr
      /\ forall th l, l ∈ listeners_of th s ->
           exists e, ev_event e = "agent.resync_required" /\ TCall l e ∈ tr.
Proof.
  intros Hr. split; [|split; [|by apply invalidate_resync]]; intros;
    [by apply agent_snapshot_good|by apply (agent_cursor_grows s)].
Qed.

End Replay.

(** ** An instance *)

(** A factory whose cursors grow: "0", "00", "000", ... *)
Fixpoint unary_cursor (n : nat) : string :=
  match n with O => "0" | S n => "0" +:+ unary_cursor n end.

Lemma unary_cursor_mono i j : i < j -> str_lt (unary_cursor i) (unary_cursor j) = true.
Proof.
  revert i. induction j as [|j IH]; intros i H; [lia|].
  destruct i as [|i]; [by destruct j | by apply IH; lia].
Qed.

Lemma unary_cursor_nonempty i : unary_cursor i <> "".
Proof. by destruct i. Qed.

Definition demo_clock (n : nat) : Z := Z.of_nat n.
Definition demo_exec : op -> M unit := exec unary_cursor demo_clock 4 1000.

(** A listener attaches, a turn starts, and two events are published. *)
Definition demo_state : manager :=
  (demo_exec (OEmit "t" "agent.message" [("n", JStr "2")])
    (demo_exec (OEmit "t" "agent.message" [("n", JStr "1")])
      (demo_exec (OStartTurn "t" "turn-1" None)
        (demo_exec (OAttachCallback "t" 7 None) new_manager).2).2).2).2.

Lemma demo_reachable : reachable unary_cursor demo_clock 4 1000 demo_state.
Proof. unfold demo_state. repeat (eapply steps_op; [|done]). constructor. Qed.

(** Resuming after the first cursor replays both events. *)
Example demo_resume_replays :
  match (AgentRuntime.attachCallback unary_cursor demo_clock 4 1000 "t" 8 (Some "00") demo_state).1 with
  | Attached replay found _ => (ev_data <$> replay, found)
  | ResyncRequired _ => ([], None)
  end = ([[("n", JStr "1")]; [("n", JStr "2")]], Some true).
Proof. vm_compute. reflexivity. Qed.

Lemma agent_resume_exact_witness :
  let r := AgentRuntime.attachCallback unary_cursor demo_clock 4 1000 "t" 8 (Some "00") demo_state in
  omap be_event (thread_log "t" (am_trace r.2))
  = omap be_event (thread_log "t" (am_trace demo_state)).
Proof.
  destruct (agent_resume_exact unary_cursor demo_clock 4 1000 unary_cursor_mono
    unary_cursor_nonempty demo_state "t" "00" 8 demo_reachable ltac:(discriminate)) as [H _].
  exact H.
Defined.

Lemma agent_snapshot_invariant_witness :
  (exists sn, JsMap.get "t" (am_snapshots
      (getSnapshot unary_cursor demo_clock 4 1000 "t" true demo_state).2) = Some sn
    /\ snapshot_ok sn) /\
  (exists sn', JsMap.get "t" (am_snapshots (demo_exec (OFinishTurn "t") demo_state).2) = Some sn'
    /\ str_lt (streamCursor sn') (streamCursor (snapshot_at "t" demo_state)) = false).
Proof.
  destruct (agent_snapshot_invariant unary_cursor demo_clock 4 1000 unary_cursor_mono
    unary_cursor_nonempty demo_state "t" demo_reachable) as (Hs & Hc & _). split.
  - destruct (Hs ltac:(lia) true) as (sn & E & _ & Hok & _). exists sn. split; [exact E | exact Hok].
  - destruct (Hc (demo_exec (OFinishTurn "t") demo_state).2 (snapshot_at "t" demo_state))
      as (sn' & E & H & _).
    + eapply steps_op; [constructor | done].
    + vm_compute. reflexivity.
    + exists sn'. split; [exact E | exact H].
Defined.

