(* ===== verification/DaemonState.v ===== *)
(** The durable daemon state of [service/src/runtime/daemon-state.ts]: device
    and transport sessions, operations and streams, with the tables of
    transitions they may make.

    Each table is a finite map from its primary key; a row has the columns of
    [service/src/db/schema.ts] but the key. One SQL statement is one function on
    [db]; a method that runs several statements is their composition, and
    [db_step] lets the statements of concurrent calls interleave. An optional
    column that the source sets to [undefined] keeps its value.

    A statement throws on a duplicate key, on the unique
    [(bud_id, idempotency_key)] index and on a reference to a device or
    transport session, operation or stream that is not there; the other
    referenced tables (buds, threads, terminal sessions, users) are taken to
    have the rows. [ulid] is the value the ulid package returned. *)
From Stdlib Require Import ZArith Lia.
From stdpp Require Import base tactics strings gmap sorting option relations.
From stdpp Require Import list.
From S2P Require Import Prelude JsRuntime.

(** ** States *)

Inductive OperationState :=
  | Offered | Accepted | Rejected | Running | Succeeded | Failed | Canceled
  | OpUnknown | OpExpired.

Inductive StreamState :=
  | Opening | Open | HalfClosedLocal | HalfClosedRemote | Closed | Reset
  | StUnknown | StExpired.

#[export] Instance OperationState_eq_dec : EqDecision OperationState.
Proof. solve_decision. Defined.
#[export] Instance StreamState_eq_dec : EqDecision StreamState.
Proof. solve_decision. Defined.

Definition OPERATION_TERMINAL_STATES : list OperationState :=
  [Succeeded; Failed; Canceled; OpUnknown; OpExpired].
Definition STREAM_TERMINAL_STATES : list StreamState :=
  [Closed; Reset; StUnknown; StExpired].

Definition ALLOWED_OPERATION_TRANSITIONS (from : OperationState) : list OperationState :=
  match from with
  | Offered => [Accepted; Rejected; Canceled; OpExpired; OpUnknown]
  | Accepted => [Running; Succeeded; Failed; Canceled; OpUnknown; OpExpired]
  | Rejected => []
  | Running => [Succeeded; Failed; Canceled; OpUnknown; OpExpired]
  | Succeeded => []
  | Failed => []
  | Canceled => []
  | OpUnknown => [Offered; Accepted; Running; Failed; Canceled; OpExpired]
  | OpExpired => []
  end.

Definition ALLOWED_STREAM_TRANSITIONS (from : StreamState) : list StreamState :=
  match from with
  | Opening => [Open; Reset; StUnknown; StExpired]
  | Open => [HalfClosedLocal; HalfClosedRemote; Closed; Reset; StUnknown; StExpired]
  | HalfClosedLocal => [Closed; Reset; StUnknown; StExpired]
  | HalfClosedRemote => [Closed; Reset; StUnknown; StExpired]
  | Closed => []
  | Reset => []
  | StUnknown => [Opening; Open; Reset; StExpired]
  | StExpired => []
  end.

Definition isAllowedOperationTransition (from to : OperationState) : bool :=
  bool_decide (from = to) || bool_decide (to ∈ ALLOWED_OPERATION_TRANSITIONS from).

Definition isAllowedStreamTransition (from to : StreamState) : bool :=
  bool_decide (from = to) || bool_decide (to ∈ ALLOWED_STREAM_TRANSITIONS from).

Definition isTerminalOperationState (st : OperationState) : bool :=
  bool_decide (st ∈ OPERATION_TERMINAL_STATES).
Definition isTerminalStreamState (st : StreamState) : bool :=
  bool_decide (st ∈ STREAM_TERMINAL_STATES).

(** The values of the state columns. *)
Definition operation_state_name (st : OperationState) : string :=
  match st with
  | Offered => "offered" | Accepted => "accepted" | Rejected => "rejected"
  | Running => "running" | Succeeded => "succeeded" | Failed => "failed"
  | Canceled => "canceled" | OpUnknown => "unknown" | OpExpired => "expired"
  end.

Definition stream_state_name (st : StreamState) : string :=
  match st with
  | Opening => "opening" | Open => "open" | HalfClosedLocal => "half_closed_local"
  | HalfClosedRemote => "half_closed_remote" | Closed => "closed" | Reset => "reset"
  | StUnknown => "unknown" | StExpired => "expired"
  end.

(** ** Rows *)

(** The four error columns. *)
Record row_error := mkRowError {
  re_code : option string;
  re_message : option string;
  re_retryable : option bool;
  re_details : option (list (string * jsval));
}.
Definition no_error : row_error := mkRowError None None None None.

Record DeviceSessionRow := mkDevice {
  ds_budId : string;
  ds_status : string;
  ds_gatewayInstanceId : option string;
  ds_capabilities : list (string * jsval);
  ds_connectedAt : Z;
  ds_lastHeartbeatAt : option Z;
  ds_drainStartedAt : option Z;
  ds_closedAt : option Z;
  ds_closeReason : option string;
  ds_tenantId : option string;
  ds_createdByUserId : option string;
  ds_createdAt : Z;
  ds_updatedAt : Z;
}.

Record TransportSessionRow := mkTransport {
  ts_deviceSessionId : option string;
  ts_budId : string;
  ts_transportKind : string;
  ts_status : string;
  ts_remoteAddr : option string;
  ts_userAgent : option string;
  ts_connectedAt : Z;
  ts_lastSeenAt : option Z;
  ts_drainStartedAt : option Z;
  ts_closedAt : option Z;
  ts_closeReason : option string;
  ts_tenantId : option string;
  ts_createdByUserId : option string;
  ts_createdAt : Z;
  ts_updatedAt : Z;
}.

Record BudOperationRow := mkOperation {
  op_budId : string;
  op_threadId : option string;
  op_terminalSessionId : option string;
  op_deviceSessionId : option string;
  op_transportSessionId : option string;
  op_idempotencyKey : option string;
  op_operationType : string;
  op_trafficClass : string;
  op_state : OperationState;
  op_request : list (string * jsval);
  op_result : option (list (string * jsval));
  op_error : row_error;
  op_offeredAt : Z;
  op_acceptedAt : option Z;
  op_startedAt : option Z;
  op_finishedAt : option Z;
  op_expiresAt : option Z;
  op_tenantId : option string;
  op_createdByUserId : option string;
  op_createdAt : Z;
  op_updatedAt : Z;
}.

Record BudStreamRow := mkStream {
  st_operationId : option string;
  st_budId : string;
  st_deviceSessionId : option string;
  st_transportSessionId : option string;
  st_streamType : string;
  st_trafficClass : string;
  st_state : StreamState;
  st_sendOffset : Z;
  st_receiveOffset : Z;
  st_creditWindowBytes : option Z;
  st_resetReason : option string;
  st_error : row_error;
  st_openedAt : option Z;
  st_closedAt : option Z;
  st_expiresAt : option Z;
  st_tenantId : option string;
  st_createdByUserId : option string;
  st_createdAt : Z;
  st_updatedAt : Z;
}.

Record AuditEventRow := mkAudit {
  au_budId : option string;
  au_userId : option string;
  au_operationId : option string;
  au_streamId : option string;
  au_eventType : string;
  au_eventData : list (string * jsval);
  au_tenantId : option string;
  au_createdByUserId : option string;
  au_createdAt : Z;
}.

Record db := mkDb {
  device_sessions : gmap string DeviceSessionRow;
  transport_sessions : gmap string TransportSessionRow;
  bud_operations : gmap string BudOperationRow;
  bud_streams : gmap string BudStreamRow;
  audit_events : gmap string AuditEventRow;
}.

Definition set_device_sessions (v : gmap string DeviceSessionRow) (s : db) : db :=
  mkDb v (transport_sessions s) (bud_operations s) (bud_streams s) (audit_events s).
Definition set_transport_sessions (v : gmap string TransportSessionRow) (s : db) : db :=
  mkDb (device_sessions s) v (bud_operations s) (bud_streams s) (audit_events s).
Definition set_bud_operations (v : gmap string BudOperationRow) (s : db) : db :=
  mkDb (device_sessions s) (transport_sessions s) v (bud_streams s) (audit_events s).
Definition set_bud_streams (v : gmap string BudStreamRow) (s : db) : db :=
  mkDb (device_sessions s) (transport_sessions s) (bud_operations s) v (audit_events s).
Definition set_audit_events (v : gmap string AuditEventRow) (s : db) : db :=
  mkDb (device_sessions s) (transport_sessions s) (bud_operations s) (bud_streams s) v.

Definition empty_db : db := mkDb ∅ ∅ ∅ ∅ ∅.

(** What a call does: it throws, or returns a value and the new tables. *)
Inductive outcome (A : Type) :=
  | Throws (msg : string)
  | Returns (a : A) (d : db).
Arguments Throws {A}.
Arguments Returns {A}.

(** The [error] argument of the transitions. *)
Record error_arg := mkErrorArg {
  ea_code : string;
  ea_message : string;
  ea_retryable : option bool;
  ea_details : option (list (string * jsval));
}.

(** [a ?? undefined] in an update: keep the column when there is no value. *)
Definition keep {A} (new old : option A) : option A :=
  match new with Some x => Some x | None => old end.

Definition update_error (e : option error_arg) (old : row_error) : row_error :=
  match e with
  | None => old
  | Some e => mkRowError (Some (ea_code e)) (Some (ea_message e))
                (keep (ea_retryable e) (re_retryable old)) (keep (ea_details e) (re_details old))
  end.

(** A nullable reference to a row of a table. *)
Definition fk_ok {R} (k : option string) (t : gmap string R) : bool :=
  match k with None => true | Some k => bool_decide (is_Some (t !! k)) end.

(** ** Sessions *)

Record device_args := mkDeviceArgs {
  rd_deviceSessionId : option string;
  rd_budId : string;
  rd_capabilities : option (list (string * jsval));
  rd_gatewayInstanceId : option string;
  rd_createdByUserId : option string;
  rd_tenantId : option string;
}.

Definition registerDeviceSession (args : device_args) (ulid : string) (now dbnow : Z) (d : db)
  : outcome (string * DeviceSessionRow) :=
  let id := rd_deviceSessionId args ?? ("ds_" +:+ ulid) in
  let row :=
    match device_sessions d !! id with
    | None =>
        mkDevice (rd_budId args) "active" (rd_gatewayInstanceId args)
          (rd_capabilities args ?? []) now (Some now) None None None
          (rd_tenantId args) (rd_createdByUserId args) dbnow dbnow
    | Some r =>
        mkDevice (ds_budId r) "active" (keep (rd_gatewayInstanceId args) (ds_gatewayInstanceId r))
          (rd_capabilities args ?? []) (ds_connectedAt r) (Some now) (ds_drainStartedAt r)
          None None (ds_tenantId r) (ds_createdByUserId r) (ds_createdAt r) now
    end in
  Returns (id, row) (set_device_sessions (<[id := row]> (device_sessions d)) d).

Record transport_args := mkTransportArgs {
  rt_transportSessionId : option string;
  rt_budId : string;
  rt_deviceSessionId : option string;
  rt_transportKind : string;
  rt_remoteAddr : option string;
  rt_userAgent : option string;
  rt_createdByUserId : option string;
  rt_tenantId : option string;
}.

Definition registerTransportSession (args : transport_args) (ulid : string) (now dbnow : Z) (d : db)
  : outcome (string * TransportSessionRow) :=
  let id := rt_transportSessionId args ?? ("ts_" +:+ ulid) in
  match transport_sessions d !! id with
  | None =>
      if fk_ok (rt_deviceSessionId args) (device_sessions d) then
        let row := mkTransport (rt_deviceSessionId args) (rt_budId args) (rt_transportKind args)
                     "active" (rt_remoteAddr args) (rt_userAgent args) now (Some now) None None
                     None (rt_tenantId args) (rt_createdByUserId args) dbnow dbnow in
        Returns (id, row) (set_transport_sessions (<[id := row]> (transport_sessions d)) d)
      else Throws "foreign_key_violation"
  | Some r =>
      let row := mkTransport (ts_deviceSessionId r) (ts_budId r) (ts_transportKind r) "active"
                   (ts_remoteAddr r) (ts_userAgent r) (ts_connectedAt r) (Some now)
                   (ts_drainStartedAt r) None None (ts_tenantId r) (ts_createdByUserId r)
                   (ts_createdAt r) now in
      Returns (id, row) (set_transport_sessions (<[id := row]> (transport_sessions d)) d)
  end.

Definition heartbeat_device (now : Z) (id : string) (d : db) : db :=
  set_device_sessions
    (alter (fun r => mkDevice (ds_budId r) (ds_status r) (ds_gatewayInstanceId r)
                       (ds_capabilities r) (ds_connectedAt r) (Some now) (ds_drainStartedAt r)
                       (ds_closedAt r) (ds_closeReason r) (ds_tenantId r) (ds_createdByUserId r)
                       (ds_createdAt r) now) id (device_sessions d)) d.

Definition heartbeat_transport (now : Z) (id : string) (d : db) : db :=
  set_transport_sessions
    (alter (fun r => mkTransport (ts_deviceSessionId r) (ts_budId r) (ts_transportKind r)
                       (ts_status r) (ts_remoteAddr r) (ts_userAgent r) (ts_connectedAt r)
                       (Some now) (ts_drainStartedAt r) (ts_closedAt r) (ts_closeReason r)
                       (ts_tenantId r) (ts_createdByUserId r) (ts_createdAt r) now)
       id (transport_sessions d)) d.

Definition recordHeartbeat (deviceSessionId transportSessionId : option string) (now : Z) (d : db)
  : db :=
  let d := if ostr_truthy deviceSessionId then heartbeat_device now (deviceSessionId ?? "") d else d in
  if ostr_truthy transportSessionId then heartbeat_transport now (transportSessionId ?? "") d else d.

Definition closeDeviceSession (id reason : string) (markDraining : bool) (now : Z) (d : db) : db :=
  set_device_sessions
    (alter (fun r => mkDevice (ds_budId r) "closed" (ds_gatewayInstanceId r)
                       (ds_capabilities r) (ds_connectedAt r) (ds_lastHeartbeatAt r)
                       (keep (if markDraining then Some now else None) (ds_drainStartedAt r))
                       (Some now) (Some reason) (ds_tenantId r) (ds_createdByUserId r)
                       (ds_createdAt r) now) id (device_sessions d)) d.

(** The first statement of [closeTransportSession]. *)
Definition close_transport_row (id reason : string) (markDraining : bool) (now : Z) (d : db) : db :=
  set_transport_sessions
    (alter (fun r => mkTransport (ts_deviceSessionId r) (ts_budId r) (ts_transportKind r)
                       "closed" (ts_remoteAddr r) (ts_userAgent r) (ts_connectedAt r)
                       (ts_lastSeenAt r)
                       (keep (if markDraining then Some now else None) (ts_drainStartedAt r))
                       (Some now) (Some reason) (ts_tenantId r) (ts_createdByUserId r)
                       (ts_createdAt r) now) id (transport_sessions d)) d.

(** ** Operations *)

Record operation_args := mkOperationArgs {
  co_operationId : option string;
  co_budId : string;
  co_operationType : string;
  co_trafficClass : option string;
  co_state : option OperationState;
  co_threadId : option string;
  co_terminalSessionId : option string;
  co_deviceSessionId : option string;
  co_transportSessionId : option string;
  co_idempotencyKey : option string;
  co_request : option (list (string * jsval));
  co_createdByUserId : option string;
  co_tenantId : option string;
}.

(** Another row of the bud has the same idempotency key. *)
Definition idempotency_taken (bud : string) (key : option string) (t : gmap string BudOperationRow)
  : bool :=
  match key with
  | None => false
  | Some _ => existsb (fun kr => bool_decide (op_budId kr.2 = bud)
                                 && bool_decide (op_idempotencyKey kr.2 = key)) (map_to_list t)
  end.

Definition createOperation (args : operation_args) (ulid : string) (dbnow : Z) (d : db)
  : outcome (string * BudOperationRow) :=
  let id := co_operationId args ?? ("op_" +:+ ulid) in
  let row := mkOperation (co_budId args) (co_threadId args) (co_terminalSessionId args)
               (co_deviceSessionId args) (co_transportSessionId args) (co_idempotencyKey args)
               (co_operationType args) (co_trafficClass args ?? "control")
               (co_state args ?? Offered) (co_request args ?? []) None no_error dbnow
               None None None None (co_tenantId args) (co_createdByUserId args) dbnow dbnow in
  if bool_decide (is_Some (bud_operations d !! id)) then Throws "unique_violation"
  else if idempotency_taken (co_budId args) (co_idempotencyKey args) (bud_operations d)
  then Throws "unique_violation"
  else if negb (fk_ok (co_deviceSessionId args) (device_sessions d))
          || negb (fk_ok (co_transportSessionId args) (transport_sessions d))
  then Throws "foreign_key_violation"
  else Returns (id, row) (set_bud_operations (<[id := row]> (bud_operations d)) d).

(** The columns [transitionOperation] writes. *)
Definition transition_op_row (to : OperationState) (result : option (list (string * jsval)))
    (error : option error_arg) (now : Z) (r : BudOperationRow) : BudOperationRow :=
  mkOperation (op_budId r) (op_threadId r) (op_terminalSessionId r) (op_deviceSessionId r)
    (op_transportSessionId r) (op_idempotencyKey r) (op_operationType r) (op_trafficClass r)
    to (op_request r) (keep result (op_result r)) (update_error error (op_error r))
    (op_offeredAt r)
    (keep (if bool_decide (to = Accepted) then Some now else None) (op_acceptedAt r))
    (keep (if bool_decide (to = Running) then Some now else None) (op_startedAt r))
    (keep (if isTerminalOperationState to then Some now else None) (op_finishedAt r))
    (op_expiresAt r) (op_tenantId r) (op_createdByUserId r) (op_createdAt r) now.

Definition transitionOperation (id : string) (from : list OperationState) (to : OperationState)
    (result : option (list (string * jsval))) (error : option error_arg) (now : Z) (d : db)
  : outcome (option BudOperationRow) :=
  match List.find (fun f => negb (isAllowedOperationTransition f to)) from with
  | Some f => Throws ("invalid_operation_transition:" +:+ operation_state_name f +:+ "->"
                      +:+ operation_state_name to)
  | None =>
    match bud_operations d !! id with
    | Some r =>
        if bool_decide (op_state r ∈ from) then
          let r := transition_op_row to result error now r in
          Returns (Some r) (set_bud_operations (<[id := r]> (bud_operations d)) d)
        else Returns None d
    | None => Returns None d
    end
  end.

(** ** Streams *)

Record stream_args := mkStreamArgs {
  cs_streamId : option string;
  cs_operationId : option string;
  cs_budId : string;
  cs_streamType : string;
  cs_trafficClass : option string;
  cs_state : option StreamState;
  cs_deviceSessionId : option string;
  cs_transportSessionId : option string;
  cs_createdByUserId : option string;
  cs_tenantId : option string;
}.

Definition createStream (args : stream_args) (ulid : string) (dbnow : Z) (d : db)
  : outcome (string * BudStreamRow) :=
  let id := cs_streamId args ?? ("st_" +:+ ulid) in
  let row := mkStream (cs_operationId args) (cs_budId args) (cs_deviceSessionId args)
               (cs_transportSessionId args) (cs_streamType args)
               (cs_trafficClass args ?? "interactive") (cs_state args ?? Opening) 0 0 None None
               no_error None None None (cs_tenantId args) (cs_createdByUserId args) dbnow dbnow in
  if bool_decide (is_Some (bud_streams d !! id)) then Throws "unique_violation"
  else if negb (fk_ok (cs_operationId args) (bud_operations d))
          || negb (fk_ok (cs_deviceSessionId args) (device_sessions d))
          || negb (fk_ok (cs_transportSessionId args) (transport_sessions d))
  then Throws "foreign_key_violation"
  else Returns (id, row) (set_bud_streams (<[id := row]> (bud_streams d)) d).

Definition transition_st_row (to : StreamState) (sendOffset receiveOffset : option Z)
    (resetReason : option string) (error : option error_arg) (now : Z) (r : BudStreamRow)
  : BudStreamRow :=
  mkStream (st_operationId r) (st_budId r) (st_deviceSessionId r) (st_transportSessionId r)
    (st_streamType r) (st_trafficClass r) to (sendOffset ?? st_sendOffset r)
    (receiveOffset ?? st_receiveOffset r) (st_creditWindowBytes r)
    (keep resetReason (st_resetReason r)) (update_error error (st_error r))
    (keep (if bool_decide (to = Open) then Some now else None) (st_openedAt r))
    (keep (if isTerminalStreamState to then Some now else None) (st_closedAt r))
    (st_expiresAt r) (st_tenantId r) (st_createdByUserId r) (st_createdAt r) now.

Definition transitionStream (id : string) (from : list StreamState) (to : StreamState)
    (sendOffset receiveOffset : option Z) (resetReason : option string)
    (error : option error_arg) (now : Z) (d : db) : outcome (option BudStreamRow) :=
  match List.find (fun f => negb (isAllowedStreamTransition f to)) from with
  | Some f => Throws ("invalid_stream_transition:" +:+ stream_state_name f +:+ "->"
                      +:+ stream_state_name to)
  | None =>
    match bud_streams d !! id with
    | Some r =>
        if bool_decide (st_state r ∈ from) then
          let r := transition_st_row to sendOffset receiveOffset resetReason error now r in
          Returns (Some r) (set_bud_streams (<[id := r]> (bud_streams d)) d)
        else Returns None d
    | None => Returns None d
    end
  end.

(** ** Losing a transport *)

Definition live_operation_states : list OperationState := [Offered; Accepted; Running].
Definition live_stream_states : list StreamState :=
  [Opening; Open; HalfClosedLocal; HalfClosedRemote].

(** The row [markUnknownForTransportSession] leaves for an operation. *)
Definition mark_op_unknown (session : string) (now : Z) (r : BudOperationRow) : BudOperationRow :=
  if bool_decide (op_transportSessionId r = Some session)
     && bool_decide (op_state r ∈ live_operation_states)
  then mkOperation (op_budId r) (op_threadId r) (op_terminalSessionId r) (op_deviceSessionId r)
         (op_transportSessionId r) (op_idempotencyKey r) (op_operationType r) (op_trafficClass r)
         OpUnknown (op_request r) (op_result r) (op_error r) (op_offeredAt r) (op_acceptedAt r)
         (op_startedAt r) (Some now) (op_expiresAt r) (op_tenantId r) (op_createdByUserId r)
         (op_createdAt r) now
  else r.

Definition mark_st_unknown (session : string) (now : Z) (r : BudStreamRow) : BudStreamRow :=
  if bool_decide (st_transportSessionId r = Some session)
     && bool_decide (st_state r ∈ live_stream_states)
  then mkStream (st_operationId r) (st_budId r) (st_deviceSessionId r) (st_transportSessionId r)
         (st_streamType r) (st_trafficClass r) StUnknown (st_sendOffset r) (st_receiveOffset r)
         (st_creditWindowBytes r) (st_resetReason r) (st_error r) (st_openedAt r) (Some now)
         (st_expiresAt r) (st_tenantId r) (st_createdByUserId r) (st_createdAt r) now
  else r.

Definition mark_operations_unknown (session : string) (now : Z) (d : db) : db :=
  set_bud_operations (mark_op_unknown session now <$> bud_operations d) d.
Definition mark_streams_unknown (session : string) (now : Z) (d : db) : db :=
  set_bud_streams (mark_st_unknown session now <$> bud_streams d) d.

Definition markUnknownForTransportSession (session : string) (now : Z) (d : db) : db :=
  mark_streams_unknown session now (mark_operations_unknown session now d).

(** [now] and [now2] are the clock readings of the two methods. *)
Definition closeTransportSession (id reason : string) (markDraining : bool)
    (markUnknown : option bool) (now now2 : Z) (d : db) : db :=
  let d := close_transport_row id reason markDraining now d in
  if markUnknown ?? true then markUnknownForTransportSession id now2 d else d.

(** ** Audit and reconciliation *)

Record audit_args := mkAuditArgs {
  aa_auditEventId : option string;
  aa_eventType : string;
  aa_eventData : option (list (string * jsval));
  aa_budId : option string;
  aa_userId : option string;
  aa_operationId : option string;
  aa_streamId : option string;
  aa_createdByUserId : option string;
  aa_tenantId : option string;
}.

Definition appendAuditEvent (args : audit_args) (ulid : string) (dbnow : Z) (d : db)
  : outcome (string * AuditEventRow) :=
  let id := aa_auditEventId args ?? ("aud_" +:+ ulid) in
  let row := mkAudit (aa_budId args) (aa_userId args) (aa_operationId args) (aa_streamId args)
               (aa_eventType args) (aa_eventData args ?? []) (aa_tenantId args)
               (aa_createdByUserId args) dbnow in
  if bool_decide (is_Some (audit_events d !! id)) then Throws "unique_violation"
  else if negb (fk_ok (aa_operationId args) (bud_operations d))
          || negb (fk_ok (aa_streamId args) (bud_streams d))
  then Throws "foreign_key_violation"
  else Returns (id, row) (set_audit_events (<[id := row]> (audit_events d)) d).

Record ReconnectOperationReport := mkOpReport {
  ro_operation_id : string;
  ro_state : string;
  ro_operation_type : option string;
}.

Record ReconnectStreamReport := mkStReport {
  rs_stream_id : string;
  rs_operation_id : option string;
  rs_stream_type : string;
  rs_state : string;
  rs_send_offset : option Z;
  rs_receive_offset : option Z;
}.

(** The [error] of a decision. *)
Record decision_error := mkDecisionError {
  de_code : string;
  de_message : string;
  de_retryable : option bool;
  de_details : option (list (string * jsval));
}.

Record ReconciliationOperationDecision := mkOpDecision {
  od_operation_id : string;
  od_state : OperationState;
  od_operation_type : option string;
  od_error : option decision_error;
}.

Record ReconciliationStreamDecision := mkStDecision {
  sd_stream_id : string;
  sd_operation_id : option string;
  sd_stream_type : string;
  sd_state : StreamState;
  sd_send_offset : Z;
  sd_receive_offset : Z;
  sd_reset_reason : option string;
  sd_error : option decision_error;
}.

Record ReconciliationDecision := mkDecision {
  rc_operations : list ReconciliationOperationDecision;
  rc_streams : list ReconciliationStreamDecision;
}.

Record report_args := mkReportArgs {
  rr_budId : string;
  rr_deviceSessionId : option string;
  rr_transportSessionId : option string;
  rr_operations : list ReconnectOperationReport;
  rr_streams : list ReconnectStreamReport;
  rr_terminalSessions : option (list string);
  rr_localPolicyVersion : option string;
}.

(** [row.errorCode ? {...} : null]. *)
Definition row_error_decision (e : row_error) : option decision_error :=
  match re_code e with
  | Some code =>
      if str_truthy code
      then Some (mkDecisionError code (re_message e ?? code) (re_retryable e) (re_details e))
      else None
  | None => None
  end.

(** The rows of the bud whose key is among the non-empty reported ids. *)
Definition select_operations (bud : string) (ids : list string) (t : gmap string BudOperationRow)
  : gmap string BudOperationRow :=
  filter (fun kr => op_budId kr.2 = bud /\ kr.1 ∈ ids) t.
Definition select_streams (bud : string) (ids : list string) (t : gmap string BudStreamRow)
  : gmap string BudStreamRow :=
  filter (fun kr => st_budId kr.2 = bud /\ kr.1 ∈ ids) t.

(** [ids.filter(Boolean)]. *)
Definition truthy_ids (ids : list string) : list string := filter (fun i => i <> "") ids.

Definition decide_operation (rows : gmap string BudOperationRow) (o : ReconnectOperationReport)
  : ReconciliationOperationDecision :=
  match rows !! ro_operation_id o with
  | None =>
      mkOpDecision (ro_operation_id o) OpUnknown (ro_operation_type o)
        (Some (mkDecisionError "UNKNOWN_OPERATION"
                 "daemon reported an operation not known to this service" (Some true) None))
  | Some row =>
      mkOpDecision (ro_operation_id o) (op_state row) (Some (op_operationType row))
        (row_error_decision (op_error row))
  end.

Definition decide_stream (rows : gmap string BudStreamRow) (s : ReconnectStreamReport)
  : ReconciliationStreamDecision :=
  match rows !! rs_stream_id s with
  | None =>
      mkStDecision (rs_stream_id s) (rs_operation_id s) (rs_stream_type s) StUnknown
        (rs_send_offset s ?? 0%Z) (rs_receive_offset s ?? 0%Z) None
        (Some (mkDecisionError "UNKNOWN_STREAM"
                 "daemon reported a stream not known to this service" (Some true) None))
  | Some row =>
      mkStDecision (rs_stream_id s) (st_operationId row) (st_streamType row) (st_state row)
        (st_sendOffset row) (st_receiveOffset row) (st_resetReason row)
        (row_error_decision (st_error row))
  end.

Definition ostr_value (o : option string) : jsval :=
  match o with Some s => JStr s | None => JNull end.
Definition count_value {A} (l : list A) : jsval := JNum (JFin (QArith_base.inject_Z (zlen l))).

Definition report_event (args : report_args) : audit_args :=
  mkAuditArgs None "daemon.reconnect_report"
    (Some [("device_session_id", ostr_value (rr_deviceSessionId args));
           ("transport_session_id", ostr_value (rr_transportSessionId args));
           ("operation_count", count_value (rr_operations args));
           ("stream_count", count_value (rr_streams args));
           ("terminal_session_count", count_value (rr_terminalSessions args ?? []));
           ("local_policy_version", ostr_value (rr_localPolicyVersion args))])
    (Some (rr_budId args)) None None None None None.

Definition reconcileReconnectReport (args : report_args) (ulid : string) (dbnow : Z) (d : db)
  : outcome ReconciliationDecision :=
  let operationIds := truthy_ids (ro_operation_id <$> rr_operations args) in
  let streamIds := truthy_ids (rs_stream_id <$> rr_streams args) in
  let operationRows := select_operations (rr_budId args) operationIds (bud_operations d) in
  let streamRows := select_streams (rr_budId args) streamIds (bud_streams d) in
  match appendAuditEvent (report_event args) ulid dbnow d with
  | Throws m => Throws m
  | Returns _ d =>
      Returns (mkDecision (decide_operation operationRows <$> rr_operations args)
                 (decide_stream streamRows <$> rr_streams args)) d
  end.

(** ** Interleaved statements *)

Inductive db_step (d : db) : db -> Prop :=
  | S_device args ulid now dbnow r d' :
      registerDeviceSession args ulid now dbnow d = Returns r d' -> db_step d d'
  | S_transport args ulid now dbnow r d' :
      registerTransportSession args ulid now dbnow d = Returns r d' -> db_step d d'
  | S_beat_device now id : db_step d (heartbeat_device now id d)
  | S_beat_transport now id : db_step d (heartbeat_transport now id d)
  | S_close_device id reason drain now : db_step d (closeDeviceSession id reason drain now d)
  | S_close_transport id reason drain now : db_step d (close_transport_row id reason drain now d)
  | S_create_operation args ulid dbnow r d' :
      createOperation args ulid dbnow d = Returns r d' -> db_step d d'
  | S_operation id from to result error now r d' :
      transitionOperation id from to result error now d = Returns r d' -> db_step d d'
  | S_create_stream args ulid dbnow r d' :
      createStream args ulid dbnow d = Returns r d' -> db_step d d'
  | S_stream id from to so ro reason error now r d' :
      transitionStream id from to so ro reason error now d = Returns r d' -> db_step d d'
  | S_mark_operations session now : db_step d (mark_operations_unknown session now d)
  | S_mark_streams session now : db_step d (mark_streams_unknown session now d)
  | S_audit args ulid dbnow r d' :
      appendAuditEvent args ulid dbnow d = Returns r d' -> db_step d d'.

Definition db_steps : db -> db -> Prop := rtc db_step.

(** A state the table has no way out of. *)
Definition settled_operation (st : OperationState) : bool :=
  bool_decide (ALLOWED_OPERATION_TRANSITIONS st = []).
Definition settled_stream (st : StreamState) : bool :=
  bool_decide (ALLOWED_STREAM_TRANSITIONS st = []).

(** ** Lemmas *)

(** [from] passed the check of a transition. *)
Lemma find_disallowed {A} (p : A -> bool) (l : list A) :
  List.find (fun x => negb (p x)) l = None -> forall x, x ∈ l -> p x = true.
Proof.
  intros H x Hx%list_elem_of_In. pose proof (List.find_none _ _ H x Hx) as Hn.
  cbn in Hn. by apply negb_false_iff.
Qed.

(** What one statement may do to an operation row. *)
Definition operation_moves (r r' : BudOperationRow) : Prop :=
  isAllowedOperationTransition (op_state r) (op_state r') = true
  /\ op_budId r' = op_budId r /\ op_operationType r' = op_operationType r
  /\ op_request r' = op_request r /\ op_idempotencyKey r' = op_idempotencyKey r
  /\ op_transportSessionId r' = op_transportSessionId r /\ op_offeredAt r' = op_offeredAt r.

Definition stream_moves (r r' : BudStreamRow) : Prop :=
  isAllowedStreamTransition (st_state r) (st_state r') = true
  /\ st_budId r' = st_budId r /\ st_streamType r' = st_streamType r
  /\ st_operationId r' = st_operationId r
  /\ st_transportSessionId r' = st_transportSessionId r.

Lemma allowed_operation_refl st : isAllowedOperationTransition st st = true.
Proof. unfold isAllowedOperationTransition. by rewrite bool_decide_eq_true_2. Qed.
Lemma allowed_stream_refl st : isAllowedStreamTransition st st = true.
Proof. unfold isAllowedStreamTransition. by rewrite bool_decide_eq_true_2. Qed.

Lemma operation_moves_refl r : operation_moves r r.
Proof. split_and!; try done. apply allowed_operation_refl. Qed.
Lemma stream_moves_refl r : stream_moves r r.
Proof. split_and!; try done. apply allowed_stream_refl. Qed.

#[export] Hint Resolve operation_moves_refl stream_moves_refl : bud.

Lemma mark_op_moves session now r : operation_moves r (mark_op_unknown session now r).
Proof.
  unfold mark_op_unknown. case_match eqn:E; [|apply operation_moves_refl]. zbool.
  split_and!; try done. cbn. apply bool_decide_eq_true in H0. unfold live_operation_states in H0.
  destruct (op_state r); try done; exfalso; set_solver.
Qed.

Lemma mark_st_moves session now r : stream_moves r (mark_st_unknown session now r).
Proof.
  unfold mark_st_unknown. case_match eqn:E; [|apply stream_moves_refl]. zbool.
  split_and!; try done. cbn. apply bool_decide_eq_true in H0. unfold live_stream_states in H0.
  destruct (st_state r); try done; exfalso; set_solver.
Qed.

Lemma transition_op_moves to (from : list OperationState) result error now r :
  (forall f, f ∈ from -> isAllowedOperationTransition f to = true) -> op_state r ∈ from ->
  operation_moves r (transition_op_row to result error now r).
Proof. intros H Hin. split_and!; try done. by apply H. Qed.

Lemma transition_st_moves to (from : list StreamState) so ro reason error now r :
  (forall f, f ∈ from -> isAllowedStreamTransition f to = true) -> st_state r ∈ from ->
  stream_moves r (transition_st_row to so ro reason error now r).
Proof. intros H Hin. split_and!; try done. by apply H. Qed.

(** Inserting over a row it moves from. *)
Lemma insert_moves {R} (moves : R -> R -> Prop) (t : gmap string R) id r r' k x :
  (forall x, moves x x) -> t !! id = Some r -> moves r r' -> t !! k = Some x ->
  exists x', <[id := r']> t !! k = Some x' /\ moves x x'.
Proof.
  intros Hrefl E Hm Ek. destruct (decide (id = k)) as [->|].
  - rewrite lookup_insert_eq. naive_solver.
  - rewrite lookup_insert_ne by done. naive_solver.
Qed.

Lemma insert_fresh {R} (moves : R -> R -> Prop) (t : gmap string R) id r' k x :
  (forall x, moves x x) -> ~ is_Some (t !! id) -> t !! k = Some x ->
  exists x', <[id := r']> t !! k = Some x' /\ moves x x'.
Proof.
  intros Hrefl Hn Ek. rewrite lookup_insert_ne; [naive_solver|]. intros ->. naive_solver.
Qed.

Lemma step_operation d d' id r :
  db_step d d' -> bud_operations d !! id = Some r ->
  exists r', bud_operations d' !! id = Some r' /\ operation_moves r r'.
Proof.
  intros Hst E.
  destruct Hst as [? ? ? ? ? ? H|? ? ? ? ? ? H| | | | |? ? ? ? ? H|? ? ? ? ? ? ? ? H
    |? ? ? ? ? H|? ? ? ? ? ? ? ? ? ? H| | |? ? ? ? ? H];
    try (exists r; split; [exact E | apply operation_moves_refl]).
  - injection H as <- <-. exists r. auto with bud.
  - unfold registerTransportSession in H. split_cases; exists r; auto with bud.
  - unfold createOperation in H. split_cases. zbool.
    apply (insert_fresh operation_moves); [apply operation_moves_refl| |done].
    by apply bool_decide_eq_false in H0.
  - unfold transitionOperation in H. split_cases; try (exists r; by auto with bud).
    apply (insert_moves operation_moves _ _ b); [apply operation_moves_refl | done | | done].
    eapply transition_op_moves; [by apply find_disallowed | by eapply bool_decide_eq_true].
  - unfold createStream in H. split_cases. exists r. auto with bud.
  - unfold transitionStream in H. split_cases; exists r; auto with bud.
  - cbn. rewrite lookup_fmap, E. eexists. split; [done|]. apply mark_op_moves.
  - unfold appendAuditEvent in H. split_cases. exists r. auto with bud.
Qed.

Lemma step_stream d d' id r :
  db_step d d' -> bud_streams d !! id = Some r ->
  exists r', bud_streams d' !! id = Some r' /\ stream_moves r r'.
Proof.
  intros Hst E.
  destruct Hst as [? ? ? ? ? ? H|? ? ? ? ? ? H| | | | |? ? ? ? ? H|? ? ? ? ? ? ? ? H
    |? ? ? ? ? H|? ? ? ? ? ? ? ? ? ? H| | |? ? ? ? ? H];
    try (exists r; split; [exact E | apply stream_moves_refl]).
  - injection H as <- <-. exists r. auto with bud.
  - unfold registerTransportSession in H. split_cases; exists r; auto with bud.
  - unfold createOperation in H. split_cases. exists r. auto with bud.
  - unfold transitionOperation in H. split_cases; exists r; auto with bud.
  - unfold createStream in H. split_cases. zbool.
    apply (insert_fresh stream_moves); [apply stream_moves_refl| |done].
    by apply bool_decide_eq_false in H0.
  - unfold transitionStream in H. split_cases; try (exists r; by auto with bud).
    apply (insert_moves stream_moves _ _ b); [apply stream_moves_refl | done | | done].
    eapply transition_st_moves; [by apply find_disallowed | by eapply bool_decide_eq_true].
  - cbn. rewrite lookup_fmap, E. eexists. split; [done|]. apply mark_st_moves.
  - unfold appendAuditEvent in H. split_cases. exists r. auto with bud.
Qed.

Lemma settled_operation_stays a b :
  settled_operation a = true -> isAllowedOperationTransition a b = true -> b = a.
Proof. by destruct a, b. Qed.
Lemma settled_stream_stays a b :
  settled_stream a = true -> isAllowedStreamTransition a b = true -> b = a.
Proof. by destruct a, b. Qed.

(** The statements of the composed methods. *)
Lemma markUnknown_steps session now d : db_steps d (markUnknownForTransportSession session now d).
Proof. eapply rtc_l; [apply (S_mark_operations d session now)|]. apply rtc_once, S_mark_streams. Qed.

Lemma closeTransportSession_steps id reason drain mark now now2 d :
  db_steps d (closeTransportSession id reason drain mark now now2 d).
Proof.
  unfold closeTransportSession. eapply rtc_l; [apply (S_close_transport d id reason drain now)|].
  case_match; [apply markUnknown_steps | done].
Qed.

Lemma recordHeartbeat_steps dev tr now d : db_steps d (recordHeartbeat dev tr now d).
Proof.
  unfold recordHeartbeat.
  transitivity (if ostr_truthy dev then heartbeat_device now (dev ?? "") d else d).
  - case_match; [apply rtc_once, S_beat_device | reflexivity].
  - destruct (ostr_truthy tr); [apply rtc_once, S_beat_transport | reflexivity].
Qed.

Lemma select_operations_lookup bud ids t id :
  select_operations bud ids t !! id
  = match t !! id with
    | Some r => if decide (op_budId r = bud /\ id ∈ ids) then Some r else None
    | None => None
    end.
Proof.
  unfold select_operations. rewrite map_lookup_filter.
  destruct (t !! id) as [r|]; [|done]. cbn. by repeat case_guard || case_decide.
Qed.

Lemma select_streams_lookup bud ids t id :
  select_streams bud ids t !! id
  = match t !! id with
    | Some r => if decide (st_budId r = bud /\ id ∈ ids) then Some r else None
    | None => None
    end.
Proof.
  unfold select_streams. rewrite map_lookup_filter.
  destruct (t !! id) as [r|]; [|done]. cbn. by repeat case_guard || case_decide.
Qed.

Lemma truthy_ids_elem {A} (f : A -> string) l x :
  x ∈ l -> f x <> "" -> f x ∈ truthy_ids (f <$> l).
Proof.
  intros Hx Hf. apply list_elem_of_filter. split; [done|]. by apply list_elem_of_fmap_2.
Qed.

(** ** Properties *)

(** Over any interleaving of statements an operation keeps its row, its
    bud, type, request, session and offer time, moves only along the table of
    allowed transitions, and never leaves a state that has no successor
    (rejected, succeeded, failed, canceled, expired). *)
Lemma operation_path (d d' : db) (id : string) (r : BudOperationRow) :
  db_steps d d' -> bud_operations d !! id = Some r ->
  exists r', bud_operations d' !! id = Some r'
    /\ rtc (fun a b => isAllowedOperationTransition a b = true) (op_state r) (op_state r')
    /\ (settled_operation (op_state r) = true -> op_state r' = op_state r)
    /\ op_budId r' = op_budId r /\ op_operationType r' = op_operationType r
    /\ op_request r' = op_request r /\ op_transportSessionId r' = op_transportSessionId r
    /\ op_offeredAt r' = op_offeredAt r.
Proof.
  intros Hst. revert r. induction Hst as [d|d d1 d' H1 _ IH]; intros r E.
  - exists r. by split_and!.
  - destruct (step_operation _ _ _ _ H1 E) as (r1 & E1 & Ha & Hb & Ht & Hq & _ & Hs & Ho).
    destruct (IH r1 E1) as (r' & E' & Hr & Hset & Hb' & Ht' & Hq' & Hs' & Ho').
    exists r'. split_and!; try congruence.
    + by eapply rtc_l.
    + intros Hse. pose proof (settled_operation_stays _ _ Hse Ha) as E2.
      rewrite Hset; congruence.
Qed.

(** Streams likewise keep their row, bud, type, operation and session,
    move only along their table, and never leave closed, reset or expired. *)
Lemma stream_path (d d' : db) (id : string) (r : BudStreamRow) :
  db_steps d d' -> bud_streams d !! id = Some r ->
  exists r', bud_streams d' !! id = Some r'
    /\ rtc (fun a b => isAllowedStreamTransition a b = true) (st_state r) (st_state r')
    /\ (settled_stream (st_state r) = true -> st_state r' = st_state r)
    /\ st_budId r' = st_budId r /\ st_streamType r' = st_streamType r
    /\ st_operationId r' = st_operationId r
    /\ st_transportSessionId r' = st_transportSessionId r.
Proof.
  intros Hst. revert r. induction Hst as [d|d d1 d' H1 _ IH]; intros r E.
  - exists r. by split_and!.
  - destruct (step_stream _ _ _ _ H1 E) as (r1 & E1 & Ha & Hb & Ht & Ho & Hs).
    destruct (IH r1 E1) as (r' & E' & Hr & Hset & Hb' & Ht' & Ho' & Hs').
    exists r'. split_and!; try congruence.
    + by eapply rtc_l.
    + intros Hse. pose proof (settled_stream_stays _ _ Hse Ha) as E2.
      rewrite Hset; congruence.
Qed.

(** C14: Over any interleaving of statements an operation keeps its row, its bud, type,
    request, session and offer time, moves only along the table of allowed transitions,
    and never leaves a state that has no successor (rejected, succeeded, failed,
    canceled, expired); a stream likewise keeps its row, bud, type, operation and
    session, moves along its own table, and never leaves closed, reset or expired. *)
Theorem lifecycles (d d' : db) :
  db_steps d d' ->
  (forall id r, bud_operations d !! id = Some r ->
     exists r', bud_operations d' !! id = Some r'
       /\ rtc (fun a b => isAllowedOperationTransition a b = true) (op_state r) (op_state r')
       /\ (settled_operation (op_state r) = true -> op_state r' = op_state r)
       /\ op_budId r' = op_budId r /\ op_operationType r' = op_operationType r
       /\ op_request r' = op_request r /\ op_transportSessionId r' = op_transportSessionId r
       /\ op_offeredAt r' = op_offeredAt r) /\
  (forall id r, bud_streams d !! id = Some r ->
     exists r', bud_streams d' !! id = Some r'
       /\ rtc (fun a b => isAllowedStreamTransition a b = true) (st_state r) (st_state r')
       /\ (settled_stream (st_state r) = true -> st_state r' = st_state r)
       /\ st_budId r' = st_budId r /\ st_streamType r' = st_streamType r
       /\ st_operationId r' = st_operationId r
       /\ st_transportSessionId r' = st_transportSessionId r).
Proof.
  intros Hs. split; intros id r Hr; [by apply (operation_path d)|by apply (stream_path d)].
Qed.

Lemma lifecycles_witness :
  let row := mkOperation "bud1" None None None (Some "ts1") None "file.read" "control" Succeeded []
               None no_error 5 (Some 6%Z) None (Some 9%Z) None None None 5 9 in
  let stream := mkStream None "bud1" None (Some "ts1") "file" "interactive" Open 0 0 None None
               no_error (Some 6%Z) None None None None 5 6 in
  let d := mkDb ∅ ∅ {["op1" := row]} {["st1" := stream]} ∅ in
  let d' := markUnknownForTransportSession "ts1" 20 d in
  (exists r', bud_operations d' !! "op1" = Some r' /\ op_state r' = Succeeded) /\
  (exists r', bud_streams d' !! "st1" = Some r' /\ st_budId r' = "bud1").
Proof.
  intros row stream d d'.
  destruct (lifecycles d d') as [Ho Hs]; [apply markUnknown_steps|]. split.
  - destruct (Ho "op1" row ltac:(reflexivity)) as (r' & E & _ & Hk & _).
    exists r'. split; [exact E | apply Hk; reflexivity].
  - destruct (Hs "st1" stream ltac:(reflexivity)) as (r' & E & _ & _ & Hb & _).
    exists r'. split; [exact E | exact Hb].
Defined.

(** A transition throws exactly when one of the source states may not
    move to the target; otherwise it changes the one row, and only when that
    row is in a source state, stamping the accept, start and finish times the
    target calls for. *)
Lemma transitionOperation_spec (id : string) (from : list OperationState) (to : OperationState)
    (result : option (list (string * jsval))) (error : option error_arg) (now : Z) (d : db) :
  match transitionOperation id from to result error now d with
  | Throws _ => exists f, f ∈ from /\ isAllowedOperationTransition f to = false
  | Returns res d' =>
      (forall f, f ∈ from -> isAllowedOperationTransition f to = true)
      /\ (forall k, k <> id -> bud_operations d' !! k = bud_operations d !! k)
      /\ bud_streams d' = bud_streams d
      /\ match res with
         | None => d' = d
                   /\ (forall r, bud_operations d !! id = Some r -> op_state r ∉ from)
         | Some r' =>
             exists r, bud_operations d !! id = Some r /\ op_state r ∈ from
               /\ bud_operations d' !! id = Some r' /\ op_state r' = to
               /\ (isTerminalOperationState to = true -> op_finishedAt r' = Some now)
               /\ (isTerminalOperationState to = false -> op_finishedAt r' = op_finishedAt r)
               /\ (to = Accepted -> op_acceptedAt r' = Some now)
               /\ (to = Running -> op_startedAt r' = Some now)
         end
  end.
Proof.
  unfold transitionOperation. destruct (List.find _ from) as [f|] eqn:Ef.
  - apply List.find_some in Ef as [Hin Hf]. exists f.
    split; [by apply list_elem_of_In | by apply negb_true_iff].
  - pose proof (find_disallowed _ _ Ef) as Hall.
    destruct (bud_operations d !! id) as [r|] eqn:E; [|by split_and!].
    case_bool_decide as Hin.
    + split_and!; [done | by intros; cbn; rewrite lookup_insert_ne | done|].
      exists r. cbn. rewrite lookup_insert_eq. split_and!; try done.
      * by intros ->.
      * by intros ->.
      * by intros ->.
      * by intros ->.
    + split_and!; try done. by intros ? [= <-].
Qed.

(** Closing a transport session (unless told not to) leaves no live
    operation or stream on it; every row of another session, and every row
    that had already finished, is as it was. *)
Lemma close_transport_marks_unknown (id reason : string) (drain : bool) (now now2 : Z) (d : db) :
  let d' := closeTransportSession id reason drain None now now2 d in
  (forall k r, bud_operations d' !! k = Some r -> op_transportSessionId r = Some id ->
     op_state r ∉ live_operation_states)
  /\ (forall k r, bud_streams d' !! k = Some r -> st_transportSessionId r = Some id ->
     st_state r ∉ live_stream_states)
  /\ (forall k r, bud_operations d !! k = Some r ->
     op_transportSessionId r <> Some id \/ op_state r ∉ live_operation_states ->
     bud_operations d' !! k = Some r)
  /\ (forall k r, bud_streams d !! k = Some r ->
     st_transportSessionId r <> Some id \/ st_state r ∉ live_stream_states ->
     bud_streams d' !! k = Some r).
Proof.
  intros d'. subst d'. unfold closeTransportSession. cbn. split_and!; intros k r.
  - rewrite lookup_fmap_Some. intros (r0 & <- & _). unfold mark_op_unknown.
    case_match eqn:G; cbn; [intros _; unfold live_operation_states; set_solver|].
    intros Hs Hl. by rewrite !bool_decide_eq_true_2 in G.
  - rewrite lookup_fmap_Some. intros (r0 & <- & _). unfold mark_st_unknown.
    case_match eqn:G; cbn; [intros _; unfold live_stream_states; set_solver|].
    intros Hs Hl. by rewrite !bool_decide_eq_true_2 in G.
  - intros E Hn. rewrite lookup_fmap, E. cbn. f_equal. unfold mark_op_unknown.
    case_match eqn:G; [|done]. exfalso. zbool. rewrite !bool_decide_eq_true in *. naive_solver.
  - intros E Hn. rewrite lookup_fmap, E. cbn. f_equal. unfold mark_st_unknown.
    case_match eqn:G; [|done]. exfalso. zbool. rewrite !bool_decide_eq_true in *. naive_solver.
Qed.

(** C15: A reconnect report gets one decision per reported operation and
    stream, in order and under the reported id: the stored state when the row
    belongs to the reporting bud, and "unknown" otherwise, so a bud learns
    nothing of another bud's rows; apart from the audit event nothing is
    written. *)
Theorem reconcile_decisions (args : report_args) (ulid : string) (dbnow : Z) (d d' : db)
    (dec : ReconciliationDecision) :
  reconcileReconnectReport args ulid dbnow d = Returns dec d' ->
  (bud_operations d' = bud_operations d /\ bud_streams d' = bud_streams d
   /\ device_sessions d' = device_sessions d /\ transport_sessions d' = transport_sessions d)
  /\ (od_operation_id <$> rc_operations dec = ro_operation_id <$> rr_operations args)
  /\ (sd_stream_id <$> rc_streams dec = rs_stream_id <$> rr_streams args)
  /\ (forall i o x, rr_operations args !! i = Some o -> rc_operations dec !! i = Some x ->
       od_state x = match bud_operations d !! ro_operation_id o with
                    | Some r => if decide (op_budId r = rr_budId args /\ ro_operation_id o <> "")
                                then op_state r else OpUnknown
                    | None => OpUnknown
                    end)
  /\ (forall i o x, rr_streams args !! i = Some o -> rc_streams dec !! i = Some x ->
       sd_state x = match bud_streams d !! rs_stream_id o with
                    | Some r => if decide (st_budId r = rr_budId args /\ rs_stream_id o <> "")
                                then st_state r else StUnknown
                    | None => StUnknown
                    end).
Proof.
  unfold reconcileReconnectReport. destruct (appendAuditEvent _ ulid dbnow d) as [|a d1] eqn:E; [done|].
  intros [= <- <-]. cbn. split_and!.
  - unfold appendAuditEvent in E. by split_cases.
  - unfold appendAuditEvent in E. by split_cases.
  - unfold appendAuditEvent in E. by split_cases.
  - unfold appendAuditEvent in E. by split_cases.
  - rewrite <-list_fmap_compose. apply list_fmap_ext. intros _ o _. cbn.
    unfold decide_operation. by case_match.
  - rewrite <-list_fmap_compose. apply list_fmap_ext. intros _ o _. cbn.
    unfold decide_stream. by case_match.
  - intros i o x Ho. rewrite list_lookup_fmap, Ho. cbn. intros [= <-].
    apply list_elem_of_lookup_2 in Ho. unfold decide_operation. rewrite select_operations_lookup.
    destruct (bud_operations d !! _) as [r|]; [|done].
    pose proof (truthy_ids_elem ro_operation_id _ _ Ho).
    repeat case_decide; try done; [|naive_solver].
    destruct H0 as [? ?%list_elem_of_filter]. naive_solver.
  - intros i o x Ho. rewrite list_lookup_fmap, Ho. cbn. intros [= <-].
    apply list_elem_of_lookup_2 in Ho. unfold decide_stream. rewrite select_streams_lookup.
    destruct (bud_streams d !! _) as [r|]; [|done].
    pose proof (truthy_ids_elem rs_stream_id _ _ Ho).
    repeat case_decide; try done; [|naive_solver].
    destruct H0 as [? ?%list_elem_of_filter]. naive_solver.
Qed.

(** A bud reports its own running operation and one of another bud. *)
Lemma reconcile_decisions_witness :
  let row bud := mkOperation bud None None None None None "file.read" "control" Running []
                   None no_error 5 None (Some 6%Z) None None None None 5 6 in
  let d := mkDb ∅ ∅ {["mine" := row "bud1"; "theirs" := row "bud2"]} ∅ ∅ in
  let args := mkReportArgs "bud1" None None
                [mkOpReport "mine" "running" None; mkOpReport "theirs" "running" None] [] None None in
  exists dec d', reconcileReconnectReport args "01A" 9 d = Returns dec d'
    /\ od_operation_id <$> rc_operations dec = ["mine"; "theirs"]
    /\ od_state <$> rc_operations dec = [Running; OpUnknown].
Proof.
  intros row d args. eexists _, _. split; [reflexivity|].
  split; [|reflexivity].
  refine (proj1 (proj2 (reconcile_decisions args "01A" 9 d _ _ _))). reflexivity.
Defined.
