(* ===== verification/Carrier.v ===== *)
(** Carriers to a Bud daemon: their health
    ([service/src/transport/carrier-health.ts]), the order in which a policy
    prefers them ([carrier-policy.ts]), the drain gate ([gateway-drain.ts]) and
    the composite control router ([composite-daemon-router.ts]).

    [DaemonTransportRouter] is the interface of [daemon-router.ts], a type class
    over the state of a router; [RouterLaws] is what the composite relies on,
    and the composite router satisfies the laws again. *)
From Stdlib Require Import ZArith QArith Qround Lia.
From stdpp Require Import base tactics strings gmap sorting option pretty.
From stdpp Require Import list.
From S2P Require Import Prelude JsRuntime.

(** ** Health *)

Inductive CarrierHealthStatus := Healthy | Degraded | Unhealthy.

#[export] Instance health_status_eq_dec : EqDecision CarrierHealthStatus.
Proof. solve_decision. Defined.

Record CarrierHealth := mkHealth {
  ch_status : CarrierHealthStatus;
  ch_score : Z;
  ch_reason : option string;
  ch_checkedAt : option Q;
}.

(** [Partial<CarrierHealth>]: what a carrier reports. *)
Record PartialHealth := mkPartialHealth {
  ph_status : option CarrierHealthStatus;
  ph_score : option jsnum;
  ph_reason : option string;
  ph_checkedAt : option jsnum;
}.

Definition DEFAULT_HEALTH : CarrierHealth := mkHealth Healthy 100 None None.
Definition healthyCarrierHealth : CarrierHealth := DEFAULT_HEALTH.

Definition statusForScore (score : Z) : CarrierHealthStatus :=
  if (score <=? 0)%Z then Unhealthy else if (score <? 50)%Z then Degraded else Healthy.

(** [Math.max(0, Math.min(100, Math.floor(x)))] of a finite number. *)
Definition clamp_score (n : option jsnum) : Z :=
  match n with
  | Some (JFin q) => Z.max 0 (Z.min 100 (Qfloor q))
  | _ => ch_score DEFAULT_HEALTH
  end.

Definition normalizeCarrierHealth (input : option PartialHealth) : CarrierHealth :=
  match input with
  | None => healthyCarrierHealth
  | Some h =>
      let score := clamp_score (ph_score h) in
      mkHealth (ph_status h ?? statusForScore score) score (ph_reason h)
        (match ph_checkedAt h with Some (JFin q) => Some q | _ => None end)
  end.

Definition carrierHealthAllowsNewWork (h : CarrierHealth) : bool :=
  negb (bool_decide (ch_status h = Unhealthy)) && (50 <=? ch_score h)%Z.

Definition status_name (st : CarrierHealthStatus) : string :=
  match st with Healthy => "healthy" | Degraded => "degraded" | Unhealthy => "unhealthy" end.

Definition describeCarrierHealth (h : CarrierHealth) : string :=
  let suffix := match ch_reason h with
                | Some r => if str_truthy r then ": " +:+ r else ""
                | None => ""
                end in
  status_name (ch_status h) +:+ "(" +:+ pretty (ch_score h) +:+ ")" +:+ suffix.

Record CarrierSelectionCandidate := mkCandidate {
  cc_transportKind : string;
  cc_role : option string;
  cc_health : CarrierHealth;
  cc_available : bool;
  cc_reason : option string;
}.

Definition serializeCarrierHealth (h : option CarrierHealth) : jsval :=
  match h with
  | None => JNull
  | Some h =>
      JObj [("status", JStr (status_name (ch_status h)));
            ("score", JNum (JFin (inject_Z (ch_score h))));
            ("reason", match ch_reason h with Some r => JStr r | None => JNull end);
            ("checked_at", match ch_checkedAt h with Some q => JNum (JFin q) | None => JNull end)]
  end.

Definition serializeCarrierSelectionCandidate (c : CarrierSelectionCandidate) : jsval :=
  JObj [("transport_kind", JStr (cc_transportKind c));
        ("role", match cc_role c with Some r => JStr r | None => JNull end);
        ("health", serializeCarrierHealth (Some (cc_health c)));
        ("available", JBool (cc_available c));
        ("reason", match cc_reason c with Some r => JStr r | None => JNull end)].

(** ** Policies *)

Inductive DaemonTransportPolicy := WebsocketBaseline | H2Preferred | QuicPreferred.
Inductive ControlTransportKind := CWebsocket | CH2Grpc.
Inductive DataPlaneTransportKind := DWebsocket | DH2Data | DQuic.

#[export] Instance control_kind_eq_dec : EqDecision ControlTransportKind.
Proof. solve_decision. Defined.
#[export] Instance data_kind_eq_dec : EqDecision DataPlaneTransportKind.
Proof. solve_decision. Defined.

Definition CONTROL_ORDER (p : DaemonTransportPolicy) : list ControlTransportKind :=
  match p with
  | WebsocketBaseline => [CWebsocket; CH2Grpc]
  | H2Preferred => [CH2Grpc; CWebsocket]
  | QuicPreferred => [CH2Grpc; CWebsocket]
  end.

Definition DATA_PLANE_ORDER (p : DaemonTransportPolicy) : list DataPlaneTransportKind :=
  match p with
  | WebsocketBaseline => [DWebsocket; DH2Data; DQuic]
  | H2Preferred => [DH2Data; DWebsocket; DQuic]
  | QuicPreferred => [DQuic; DH2Data; DWebsocket]
  end.

(** [configured] is [config.daemonTransportPolicy], the default of the optional
    parameter. *)
Definition orderedControlTransportKinds (configured : DaemonTransportPolicy)
    (p : option DaemonTransportPolicy) : list ControlTransportKind := CONTROL_ORDER (p ?? configured).
Definition orderedDataPlaneTransportKinds (configured : DaemonTransportPolicy)
    (p : option DaemonTransportPolicy) : list DataPlaneTransportKind :=
  DATA_PLANE_ORDER (p ?? configured).


(** [rank === -1 ? Number.MAX_SAFE_INTEGER : rank]. *)
Definition rank_of_index (i : option nat) : Z :=
  match i with Some i => Z.of_nat i | None => MAX_SAFE_INTEGER end.

Definition rankControlTransport (configured : DaemonTransportPolicy) (k : ControlTransportKind)
    (p : option DaemonTransportPolicy) : Z :=
  rank_of_index (find_index (fun k' => bool_decide (k' = k))
                   (orderedControlTransportKinds configured p)).
Definition rankDataPlaneTransport (configured : DaemonTransportPolicy) (k : DataPlaneTransportKind)
    (p : option DaemonTransportPolicy) : Z :=
  rank_of_index (find_index (fun k' => bool_decide (k' = k))
                   (orderedDataPlaneTransportKinds configured p)).

(** ** The drain gate *)

Record GatewayDrainState := mkDrain {
  gd_reason : string;
  gd_started_at : string;
  gd_deadline_at : option string;
}.

Definition LONG_LIVED_FRAME_TYPES : list string :=
  ["terminal_ensure"; "proxy_open"; "proxy_connect"; "file_open"; "file_read"; "file_view"].

(** [deadlineAt] is already a string or a date; an empty string is falsy. *)
Definition startGatewayDrain (reason : string) (deadlineAt : option (Z + string)) (now : Z)
  : GatewayDrainState :=
  mkDrain reason (toISOString now)
    (match deadlineAt with
     | Some (inl ms) => Some (toISOString ms)
     | Some (inr s) => if str_truthy s then Some s else None
     | None => None
     end).

Definition clearGatewayDrain : option GatewayDrainState := None.

Definition has_field (k : string) (fs : list (string * jsval)) : bool :=
  bool_decide (k ∈ fs.*1).

Definition frameType (payload : list (string * jsval)) : option string :=
  if has_field "payload" payload then
    nested ← as_record (field_lookup "payload" payload); as_string (field_lookup "type" nested)
  else as_string (field_lookup "type" payload).

Definition isGatewayDraining (drain : option GatewayDrainState) : bool :=
  match drain with Some _ => true | None => false end.

Definition shouldBlockNewDaemonWork (drain : option GatewayDrainState)
    (payload : list (string * jsval)) : bool :=
  match drain, frameType payload with
  | Some _, Some t => bool_decide (t ∈ LONG_LIVED_FRAME_TYPES)
  | _, _ => false
  end.

(** ** Routers *)

Record DaemonTransportStatus := mkStatus {
  dt_online : bool;
  dt_transport_kind : string;
}.

(** A payload of [sendFrameToBud]. *)
Definition frame := list (string * jsval).

(** A send throws ([None]) or returns a boolean. *)
Class DaemonTransportRouter (S : Type) := {
  getActiveBudIds : S -> list string;
  isBudOnline : string -> S -> bool;
  sendFrameToBud : string -> frame -> S -> option bool * S;
  getTransportStatus : string -> S -> DaemonTransportStatus;
}.

(** What a router promises: a frame is put on the wire exactly when the send
    returns true, and the answers about a bud agree. *)
Class RouterLaws (S : Type) `{DaemonTransportRouter S} := {
  delivered : S -> list (string * frame);
  send_true bud f s s' :
    sendFrameToBud bud f s = (Some true, s') -> delivered s' ≡ₚ delivered s ++ [(bud, f)];
  send_fail bud f s s' r :
    sendFrameToBud bud f s = (r, s') -> r <> Some true -> delivered s' ≡ₚ delivered s;
  status_online bud s : dt_online (getTransportStatus bud s) = isBudOnline bud s;
  online_active bud s : isBudOnline bud s = true -> bud ∈ getActiveBudIds s;
}.

Section Composite.
Context {A B : Type} `{DaemonTransportRouter A} `{DaemonTransportRouter B}.
Context (order : list ControlTransportKind).

(** The routers by kind; [Object.values] enumerates websocket first. *)
Record composite := mkComposite {
  cr_websocket : A;
  cr_h2_grpc : B;
}.

Definition kind_online (k : ControlTransportKind) (bud : string) (s : composite) : bool :=
  match k with
  | CWebsocket => isBudOnline bud (cr_websocket s)
  | CH2Grpc => isBudOnline bud (cr_h2_grpc s)
  end.

Definition kind_send (k : ControlTransportKind) (bud : string) (f : frame) (s : composite)
  : option bool * composite :=
  match k with
  | CWebsocket => let '(r, w) := sendFrameToBud bud f (cr_websocket s) in
                  (r, mkComposite w (cr_h2_grpc s))
  | CH2Grpc => let '(r, g) := sendFrameToBud bud f (cr_h2_grpc s) in
               (r, mkComposite (cr_websocket s) g)
  end.

Definition kind_status (k : ControlTransportKind) (bud : string) (s : composite)
  : DaemonTransportStatus :=
  match k with
  | CWebsocket => getTransportStatus bud (cr_websocket s)
  | CH2Grpc => getTransportStatus bud (cr_h2_grpc s)
  end.

(** [for (const kind of getOrderedKinds()) ...]. *)
Fixpoint composite_send (kinds : list ControlTransportKind) (bud : string) (f : frame)
    (s : composite) : bool * composite :=
  match kinds with
  | [] => (false, s)
  | k :: kinds =>
      if kind_online k bud s then
        match kind_send k bud f s with
        | (Some true, s) => (true, s)
        | (_, s) => composite_send kinds bud f s
        end
      else composite_send kinds bud f s
  end.

Fixpoint composite_status (kinds : list ControlTransportKind) (bud : string) (s : composite)
  : DaemonTransportStatus :=
  match kinds with
  | [] => getTransportStatus bud (cr_websocket s)
  | k :: kinds =>
      let status := kind_status k bud s in
      if dt_online status then status else composite_status kinds bud s
  end.

Definition composite_active (s : composite) : list string :=
  JsSet.of_list (getActiveBudIds (cr_websocket s) ++ getActiveBudIds (cr_h2_grpc s)).

Definition composite_online (bud : string) (s : composite) : bool :=
  isBudOnline bud (cr_websocket s) || isBudOnline bud (cr_h2_grpc s).

(** [createCompositeDaemonRouter]. *)
#[export] Instance createCompositeDaemonRouter : DaemonTransportRouter composite := {
  getActiveBudIds := composite_active;
  isBudOnline := composite_online;
  sendFrameToBud bud f s := let '(r, s) := composite_send order bud f s in (Some r, s);
  getTransportStatus bud s := composite_status order bud s;
}.
End Composite.
Arguments composite : clear implicits.

(** ** Health *)

Lemma clamp_score_bounds n : (0 <= clamp_score n <= 100)%Z.
Proof. destruct n as [[q| |]|]; cbn; lia. Qed.

Lemma clamp_score_fixed z : (0 <= z <= 100)%Z -> clamp_score (Some (JFin (inject_Z z))) = z.
Proof. intros. unfold clamp_score. rewrite Qfloor_Z. lia. Qed.

(** A normalised health as a report. *)
Definition health_report (h : CarrierHealth) : PartialHealth :=
  mkPartialHealth (Some (ch_status h)) (Some (JFin (inject_Z (ch_score h)))) (ch_reason h)
    (JFin <$> ch_checkedAt h).

(** ** The composite keeps the laws *)

Section CompositeLaws.
Context {A B : Type} `{RouterLaws A} `{RouterLaws B}.
Context (order : list ControlTransportKind).

Definition composite_delivered (s : composite A B) : list (string * frame) :=
  delivered (cr_websocket s) ++ delivered (cr_h2_grpc s).

Lemma kind_send_true k bud f (s s' : composite A B) :
  kind_send k bud f s = (Some true, s') ->
  composite_delivered s' ≡ₚ composite_delivered s ++ [(bud, f)].
Proof.
  destruct k; cbn; unfold composite_delivered;
    destruct (sendFrameToBud bud f _) as [r x] eqn:E; intros; simplify_eq/=;
    apply send_true in E; rewrite E; solve_Permutation.
Qed.

Lemma kind_send_fail k bud f (s s' : composite A B) r :
  kind_send k bud f s = (r, s') -> r <> Some true ->
  composite_delivered s' ≡ₚ composite_delivered s.
Proof.
  destruct k; cbn; unfold composite_delivered;
    destruct (sendFrameToBud bud f _) as [r0 x] eqn:E; intros; simplify_eq/=;
    apply send_fail in E; try done; by rewrite E.
Qed.

Lemma kind_status_online k bud (s : composite A B) :
  dt_online (kind_status k bud s) = kind_online k bud s.
Proof. destruct k; apply status_online. Qed.

Lemma composite_status_online kinds bud (s : composite A B) :
  dt_online (composite_status kinds bud s)
  = existsb (fun k => kind_online k bud s) kinds || isBudOnline bud (cr_websocket s).
Proof.
  induction kinds as [|k kinds IH]; cbn [composite_status existsb]; [apply status_online|].
  rewrite kind_status_online. destruct (kind_online k bud s) eqn:E; [|exact IH].
  by rewrite kind_status_online, E.
Qed.

(** The loop sends at most once. *)
Lemma composite_send_delivered kinds bud f (s s' : composite A B) r :
  composite_send kinds bud f s = (r, s') ->
  composite_delivered s'
  ≡ₚ composite_delivered s ++ (if r then [(bud, f)] else []).
Proof.
  revert s. induction kinds as [|k kinds IH]; intros s; cbn [composite_send].
  - intros [= <- <-]. by rewrite app_nil_r.
  - destruct (kind_online k bud s); [|apply IH].
    destruct (kind_send k bud f s) as [[[]|] s1] eqn:E; intros Hs.
    + injection Hs as <- <-. by apply kind_send_true in E.
    + apply IH in Hs. apply kind_send_fail in E; [|done]. by rewrite Hs, E.
    + apply IH in Hs. apply kind_send_fail in E; [|done]. by rewrite Hs, E.
Qed.

(** The composite satisfies the interface again, for an order that names both
    kinds. *)
Program Definition composite_laws (Hord : CWebsocket ∈ order /\ CH2Grpc ∈ order) :
  @RouterLaws (composite A B) (createCompositeDaemonRouter order) :=
  {| delivered := composite_delivered |}.
Next Obligation.
  intros Hord bud f s s'. cbn. destruct (composite_send order bud f s) as [r s1] eqn:E.
  intros [= -> ->]. by apply composite_send_delivered in E.
Qed.
Next Obligation.
  intros Hord bud f s s' r. cbn. destruct (composite_send order bud f s) as [b s1] eqn:E.
  intros [= <- ->] Hr. apply composite_send_delivered in E. destruct b; [done|].
  by rewrite app_nil_r in E.
Qed.
Next Obligation.
  intros [_ Hgrpc%list_elem_of_In] bud s. cbn.
  rewrite composite_status_online. unfold composite_online.
  destruct (isBudOnline bud (cr_websocket s)) eqn:E1; [by rewrite orb_true_r|].
  rewrite orb_false_r. cbn [orb].
  destruct (isBudOnline bud (cr_h2_grpc s)) eqn:E2.
  - apply existsb_exists. by exists CH2Grpc.
  - apply not_true_is_false. intros ([] & _ & Hk)%existsb_exists; cbn in Hk; congruence.
Qed.
Next Obligation.
  intros Hord bud s. cbn. unfold composite_online, composite_active.
  rewrite JsSet.elem_of_list, elem_of_app. intros [?|?]%orb_true_iff; [left|right];
    by apply online_active.
Qed.

(** The frame goes out on the first online kind of the order that takes it. *)
Definition first_taking (kinds : list ControlTransportKind) (bud : string) (f : frame)
    (s : composite A B) : Prop :=
  exists pre k post s1, kinds = pre ++ k :: post
    /\ composite_send pre bud f s = (false, s1)
    /\ kind_online k bud s1 = true /\ (kind_send k bud f s1).1 = Some true.

Lemma composite_send_app pre post bud f (s s1 : composite A B) :
  composite_send pre bud f s = (false, s1) ->
  composite_send (pre ++ post) bud f s = composite_send post bud f s1.
Proof.
  revert s. induction pre as [|k pre IH]; intros s; cbn [composite_send app].
  - by intros [= ->].
  - destruct (kind_online k bud s); [|apply IH].
    destruct (kind_send k bud f s) as [[[]|] s2]; [done | apply IH | apply IH].
Qed.

Lemma composite_send_first kinds bud f (s : composite A B) :
  (composite_send kinds bud f s).1 = true <-> first_taking kinds bud f s.
Proof.
  split.
  - revert s. induction kinds as [|k kinds IH]; intros s; cbn [composite_send]; [done|].
    destruct (kind_online k bud s) eqn:Ho.
    + destruct (kind_send k bud f s) as [[[]|] s1] eqn:E; intros Hs.
      * exists [], k, kinds, s. by rewrite E.
      * apply IH in Hs as (pre & k' & post & s2 & -> & Hp & Hk).
        exists (k :: pre), k', post, s2. cbn. by rewrite Ho, E.
      * apply IH in Hs as (pre & k' & post & s2 & -> & Hp & Hk).
        exists (k :: pre), k', post, s2. cbn. by rewrite Ho, E.
    + intros (pre & k' & post & s2 & -> & Hp & Hk)%IH.
      exists (k :: pre), k', post, s2. cbn. by rewrite Ho.
  - intros (pre & k & post & s1 & -> & Hp & Ho & Hk).
    rewrite (composite_send_app _ _ _ _ _ _ Hp). cbn [composite_send]. rewrite Ho.
    destruct (kind_send k bud f s1) as [r s2]. cbn in Hk. by subst r.
Qed.

(** ** Properties *)

(** Sending through the composite router puts the frame on the wire once
    when it returns true and not at all when it returns false, and it returns
    true exactly when some kind of the preferred order is online and takes the
    frame after the earlier kinds were offline, refused or threw. *)
Theorem composite_send_once (bud : string) (f : frame) (s : composite A B) :
  let '(r, s') := composite_send order bud f s in
  composite_delivered s' ≡ₚ composite_delivered s ++ (if r then [(bud, f)] else [])
  /\ (r = true <-> first_taking order bud f s).
Proof.
  pose proof (composite_send_first order bud f s) as Hf.
  destruct (composite_send order bud f s) as [r s'] eqn:E.
  split; [by eapply composite_send_delivered | exact Hf].
Qed.
End CompositeLaws.

(** Normalising a health report clamps the score to 0..100 and is stable:
    normalising a normalised health changes nothing; without a stated status
    the health allows new work exactly from a score of 50 on. *)
Lemma normalize_health_stable (h : option PartialHealth) :
  let n := normalizeCarrierHealth h in
  (0 <= ch_score n <= 100)%Z
  /\ normalizeCarrierHealth (Some (health_report n)) = n
  /\ ((p ← h; ph_status p) = None ->
      carrierHealthAllowsNewWork n = (50 <=? ch_score n)%Z).
Proof.
  assert (Hb : (0 <= ch_score (normalizeCarrierHealth h) <= 100)%Z).
  { destruct h as [h|]; cbn; [apply clamp_score_bounds | lia]. }
  split_and!; [lia | lia | |].
  - destruct h as [h|]; [|done]. cbn -[clamp_score] in *.
    rewrite clamp_score_fixed by done. f_equal. by destruct (ph_checkedAt h) as [[]|].
  - destruct h as [h|]; cbn -[clamp_score]; [|done]. intros ->. cbn -[clamp_score].
    unfold carrierHealthAllowsNewWork, statusForScore. cbn -[clamp_score].
    set (z := clamp_score _). repeat case_match; zbool; cbn; try done;
      symmetry; apply Z.leb_gt; lia.
Qed.

(** ** A router for examples: a mailbox that may throw on every send *)

Record mailbox := mkMailbox {
  mb_online : list string;
  mb_throws : bool;
  mb_log : list (string * frame);
}.

#[export] Instance mailbox_router : DaemonTransportRouter mailbox := {
  getActiveBudIds := mb_online;
  isBudOnline bud s := bool_decide (bud ∈ mb_online s);
  sendFrameToBud bud f s :=
    if mb_throws s then (None, s)
    else (Some true, mkMailbox (mb_online s) false (mb_log s ++ [(bud, f)]));
  getTransportStatus bud s :=
    let online := bool_decide (bud ∈ mb_online s) in
    mkStatus online (if online then "websocket" else "none");
}.

#[export] Program Instance mailbox_laws : RouterLaws mailbox := {| delivered := mb_log |}.
Next Obligation. intros bud f s s'. cbn. case_match; intros [= <-]. done. Qed.
Next Obligation. intros bud f s s' r. cbn. case_match; by intros [= <- <-]. Qed.
Next Obligation. done. Qed.
Next Obligation. intros bud s. cbn. apply bool_decide_eq_true_1. Qed.

(** The preferred carrier throws; the frame goes out once on the other. *)
Lemma composite_send_once_witness :
  let s := mkComposite (mkMailbox ["b"] true []) (mkMailbox ["b"] false []) in
  let '(r, s') := composite_send [CWebsocket; CH2Grpc] "b" [("type", JStr "ping")] s in
  r = true /\ (r = true <-> first_taking [CWebsocket; CH2Grpc] "b" [("type", JStr "ping")] s).
Proof.
  pose proof (composite_send_once [CWebsocket; CH2Grpc] "b" [("type", JStr "ping")]
    (mkComposite (mkMailbox ["b"] true []) (mkMailbox ["b"] false []))) as H.
  split; [reflexivity | exact (proj2 H)].
Defined.
