(* ===== verification/DataPlane.v ===== *)
(** The data plane of [service/src/transport/data-plane-router.ts]: carriers
    ("session trackers") to a daemon, the flow-controlled runtime streams on
    them, the selection of a carrier for a new stream, and the handlers of the
    stream frames a daemon sends.

    Trackers and runtime streams are heap objects ([w_trackers], [w_streams])
    named by references, because the handlers keep hold of a stream across an
    [await] while other code may drop it from its tracker. Asynchronous code is
    a [prog]: its [Do] parts run without interruption ([advance]); it gives way
    to other tasks at an [await] only: [Pause], or [Wait] for a callback or a
    send to settle (the environment says whether it rejects), or [DbCall] for a
    database statement (that of [DaemonState] runs, or fails). The callbacks of a stream are not in this
    component: a call is an event of the trace, and what the callback does
    meanwhile is another task's steps.

    The fresh message id and the timestamp of an outgoing frame are left out of
    [out_frame]; [lastSeenAt] and [lastSeenWrite] of a tracker are kept by the
    carriers and not read here. [w_trace] is a history for the theorems. *)
From Stdlib Require Import ZArith QArith Qround Lia.
From stdpp Require Import base tactics strings gmap sorting option pretty.
From stdpp Require Import list.
From S2P Require Import Prelude JsRuntime Base64 DaemonState Carrier.

(** ** Data *)

Inductive DataPlaneRole := RoleData | RoleControlData.
Inductive DrainState := DrainActive | Draining.

#[export] Instance role_eq_dec : EqDecision DataPlaneRole.
Proof. solve_decision. Defined.
#[export] Instance drain_eq_dec : EqDecision DrainState.
Proof. solve_decision. Defined.

Record DataPlaneRuntimeStream := mkRuntimeStream {
  rs_streamId : string;
  rs_streamType : string;
  receiveOffset : Z;
  receiveCreditBytes : Z;
  sendOffset : Z;
  sendCreditBytes : Z;
  remoteReceiveOffset : Z;
  localClosed : bool;
  remoteClosed : bool;
  resetReason : option string;
  has_onData : bool;
  has_onReset : bool;
  has_onClose : bool;
}.

Definition set_rs_streamId (v : string) (s : DataPlaneRuntimeStream) : DataPlaneRuntimeStream :=
  mkRuntimeStream v (rs_streamType s) (receiveOffset s) (receiveCreditBytes s) (sendOffset s) (sendCreditBytes s) (remoteReceiveOffset s) (localClosed s) (remoteClosed s) (resetReason s) (has_onData s) (has_onReset s) (has_onClose s).
Definition set_rs_streamType (v : string) (s : DataPlaneRuntimeStream) : DataPlaneRuntimeStream :=
  mkRuntimeStream (rs_streamId s) v (receiveOffset s) (receiveCreditBytes s) (sendOffset s) (sendCreditBytes s) (remoteReceiveOffset s) (localClosed s) (remoteClosed s) (resetReason s) (has_onData s) (has_onReset s) (has_onClose s).
Definition set_receiveOffset (v : Z) (s : DataPlaneRuntimeStream) : DataPlaneRuntimeStream :=
  mkRuntimeStream (rs_streamId s) (rs_streamType s) v (receiveCreditBytes s) (sendOffset s) (sendCreditBytes s) (remoteReceiveOffset s) (localClosed s) (remoteClosed s) (resetReason s) (has_onData s) (has_onReset s) (has_onClose s).
Definition set_receiveCreditBytes (v : Z) (s : DataPlaneRuntimeStream) : DataPlaneRuntimeStream :=
  mkRuntimeStream (rs_streamId s) (rs_streamType s) (receiveOffset s) v (sendOffset s) (sendCreditBytes s) (remoteReceiveOffset s) (localClosed s) (remoteClosed s) (resetReason s) (has_onData s) (has_onReset s) (has_onClose s).
Definition set_sendOffset (v : Z) (s : DataPlaneRuntimeStream) : DataPlaneRuntimeStream :=
  mkRuntimeStream (rs_streamId s) (rs_streamType s) (receiveOffset s) (receiveCreditBytes s) v (sendCreditBytes s) (remoteReceiveOffset s) (localClosed s) (remoteClosed s) (resetReason s) (has_onData s) (has_onReset s) (has_onClose s).
Definition set_sendCreditBytes (v : Z) (s : DataPlaneRuntimeStream) : DataPlaneRuntimeStream :=
  mkRuntimeStream (rs_streamId s) (rs_streamType s) (receiveOffset s) (receiveCreditBytes s) (sendOffset s) v (remoteReceiveOffset s) (localClosed s) (remoteClosed s) (resetReason s) (has_onData s) (has_onReset s) (has_onClose s).
Definition set_remoteReceiveOffset (v : Z) (s : DataPlaneRuntimeStream) : DataPlaneRuntimeStream :=
  mkRuntimeStream (rs_streamId s) (rs_streamType s) (receiveOffset s) (receiveCreditBytes s) (sendOffset s) (sendCreditBytes s) v (localClosed s) (remoteClosed s) (resetReason s) (has_onData s) (has_onReset s) (has_onClose s).
Definition set_localClosed (v : bool) (s : DataPlaneRuntimeStream) : DataPlaneRuntimeStream :=
  mkRuntimeStream (rs_streamId s) (rs_streamType s) (receiveOffset s) (receiveCreditBytes s) (sendOffset s) (sendCreditBytes s) (remoteReceiveOffset s) v (remoteClosed s) (resetReason s) (has_onData s) (has_onReset s) (has_onClose s).
Definition set_remoteClosed (v : bool) (s : DataPlaneRuntimeStream) : DataPlaneRuntimeStream :=
  mkRuntimeStream (rs_streamId s) (rs_streamType s) (receiveOffset s) (receiveCreditBytes s) (sendOffset s) (sendCreditBytes s) (remoteReceiveOffset s) (localClosed s) v (resetReason s) (has_onData s) (has_onReset s) (has_onClose s).
Definition set_resetReason (v : option string) (s : DataPlaneRuntimeStream) : DataPlaneRuntimeStream :=
  mkRuntimeStream (rs_streamId s) (rs_streamType s) (receiveOffset s) (receiveCreditBytes s) (sendOffset s) (sendCreditBytes s) (remoteReceiveOffset s) (localClosed s) (remoteClosed s) v (has_onData s) (has_onReset s) (has_onClose s).
Definition set_has_onData (v : bool) (s : DataPlaneRuntimeStream) : DataPlaneRuntimeStream :=
  mkRuntimeStream (rs_streamId s) (rs_streamType s) (receiveOffset s) (receiveCreditBytes s) (sendOffset s) (sendCreditBytes s) (remoteReceiveOffset s) (localClosed s) (remoteClosed s) (resetReason s) v (has_onReset s) (has_onClose s).
Definition set_has_onReset (v : bool) (s : DataPlaneRuntimeStream) : DataPlaneRuntimeStream :=
  mkRuntimeStream (rs_streamId s) (rs_streamType s) (receiveOffset s) (receiveCreditBytes s) (sendOffset s) (sendCreditBytes s) (remoteReceiveOffset s) (localClosed s) (remoteClosed s) (resetReason s) (has_onData s) v (has_onClose s).
Definition set_has_onClose (v : bool) (s : DataPlaneRuntimeStream) : DataPlaneRuntimeStream :=
  mkRuntimeStream (rs_streamId s) (rs_streamType s) (receiveOffset s) (receiveCreditBytes s) (sendOffset s) (sendCreditBytes s) (remoteReceiveOffset s) (localClosed s) (remoteClosed s) (resetReason s) (has_onData s) (has_onReset s) v.

Record DataPlaneSessionTracker := mkTracker {
  dt_budId : string;
  dt_deviceSessionId : string;
  dt_controlTransportSessionId : option string;
  dt_transportSessionId : option string;
  dt_transportKind : DataPlaneTransportKind;
  dt_role : DataPlaneRole;
  drainState : option DrainState;
  finalizing : bool;
  finalized : bool;
  dt_health : option PartialHealth;
  dt_streams : list string;
  framesReceived : Z;
  bytesReceived : Z;
  runtimeStreams : list (string * nat);
  maxChunkBytes : Z;
  initialCreditBytes : Z;
  maxInFlightBytes : Z;
  dt_isActive : bool;
  has_close : bool;
}.

Definition set_dt_budId (v : string) (s : DataPlaneSessionTracker) : DataPlaneSessionTracker :=
  mkTracker v (dt_deviceSessionId s) (dt_controlTransportSessionId s) (dt_transportSessionId s) (dt_transportKind s) (dt_role s) (drainState s) (finalizing s) (finalized s) (dt_health s) (dt_streams s) (framesReceived s) (bytesReceived s) (runtimeStreams s) (maxChunkBytes s) (initialCreditBytes s) (maxInFlightBytes s) (dt_isActive s) (has_close s).
Definition set_dt_deviceSessionId (v : string) (s : DataPlaneSessionTracker) : DataPlaneSessionTracker :=
  mkTracker (dt_budId s) v (dt_controlTransportSessionId s) (dt_transportSessionId s) (dt_transportKind s) (dt_role s) (drainState s) (finalizing s) (finalized s) (dt_health s) (dt_streams s) (framesReceived s) (bytesReceived s) (runtimeStreams s) (maxChunkBytes s) (initialCreditBytes s) (maxInFlightBytes s) (dt_isActive s) (has_close s).
Definition set_dt_controlTransportSessionId (v : option string) (s : DataPlaneSessionTracker) : DataPlaneSessionTracker :=
  mkTracker (dt_budId s) (dt_deviceSessionId s) v (dt_transportSessionId s) (dt_transportKind s) (dt_role s) (drainState s) (finalizing s) (finalized s) (dt_health s) (dt_streams s) (framesReceived s) (bytesReceived s) (runtimeStreams s) (maxChunkBytes s) (initialCreditBytes s) (maxInFlightBytes s) (dt_isActive s) (has_close s).
Definition set_dt_transportSessionId (v : option string) (s : DataPlaneSessionTracker) : DataPlaneSessionTracker :=
  mkTracker (dt_budId s) (dt_deviceSessionId s) (dt_controlTransportSessionId s) v (dt_transportKind s) (dt_role s) (drainState s) (finalizing s) (finalized s) (dt_health s) (dt_streams s) (framesReceived s) (bytesReceived s) (runtimeStreams s) (maxChunkBytes s) (initialCreditBytes s) (maxInFlightBytes s) (dt_isActive s) (has_close s).
Definition set_dt_transportKind (v : DataPlaneTransportKind) (s : DataPlaneSessionTracker) : DataPlaneSessionTracker :=
  mkTracker (dt_budId s) (dt_deviceSessionId s) (dt_controlTransportSessionId s) (dt_transportSessionId s) v (dt_role s) (drainState s) (finalizing s) (finalized s) (dt_health s) (dt_streams s) (framesReceived s) (bytesReceived s) (runtimeStreams s) (maxChunkBytes s) (initialCreditBytes s) (maxInFlightBytes s) (dt_isActive s) (has_close s).
Definition set_dt_role (v : DataPlaneRole) (s : DataPlaneSessionTracker) : DataPlaneSessionTracker :=
  mkTracker (dt_budId s) (dt_deviceSessionId s) (dt_controlTransportSessionId s) (dt_transportSessionId s) (dt_transportKind s) v (drainState s) (finalizing s) (finalized s) (dt_health s) (dt_streams s) (framesReceived s) (bytesReceived s) (runtimeStreams s) (maxChunkBytes s) (initialCreditBytes s) (maxInFlightBytes s) (dt_isActive s) (has_close s).
Definition set_drainState (v : option DrainState) (s : DataPlaneSessionTracker) : DataPlaneSessionTracker :=
  mkTracker (dt_budId s) (dt_deviceSessionId s) (dt_controlTransportSessionId s) (dt_transportSessionId s) (dt_transportKind s) (dt_role s) v (finalizing s) (finalized s) (dt_health s) (dt_streams s) (framesReceived s) (bytesReceived s) (runtimeStreams s) (maxChunkBytes s) (initialCreditBytes s) (maxInFlightBytes s) (dt_isActive s) (has_close s).
Definition set_finalizing (v : bool) (s : DataPlaneSessionTracker) : DataPlaneSessionTracker :=
  mkTracker (dt_budId s) (dt_deviceSessionId s) (dt_controlTransportSessionId s) (dt_transportSessionId s) (dt_transportKind s) (dt_role s) (drainState s) v (finalized s) (dt_health s) (dt_streams s) (framesReceived s) (bytesReceived s) (runtimeStreams s) (maxChunkBytes s) (initialCreditBytes s) (maxInFlightBytes s) (dt_isActive s) (has_close s).
Definition set_finalized (v : bool) (s : DataPlaneSessionTracker) : DataPlaneSessionTracker :=
  mkTracker (dt_budId s) (dt_deviceSessionId s) (dt_controlTransportSessionId s) (dt_transportSessionId s) (dt_transportKind s) (dt_role s) (drainState s) (finalizing s) v (dt_health s) (dt_streams s) (framesReceived s) (bytesReceived s) (runtimeStreams s) (maxChunkBytes s) (initialCreditBytes s) (maxInFlightBytes s) (dt_isActive s) (has_close s).
Definition set_dt_health (v : option PartialHealth) (s : DataPlaneSessionTracker) : DataPlaneSessionTracker :=
  mkTracker (dt_budId s) (dt_deviceSessionId s) (dt_controlTransportSessionId s) (dt_transportSessionId s) (dt_transportKind s) (dt_role s) (drainState s) (finalizing s) (finalized s) v (dt_streams s) (framesReceived s) (bytesReceived s) (runtimeStreams s) (maxChunkBytes s) (initialCreditBytes s) (maxInFlightBytes s) (dt_isActive s) (has_close s).
Definition set_dt_streams (v : list string) (s : DataPlaneSessionTracker) : DataPlaneSessionTracker :=
  mkTracker (dt_budId s) (dt_deviceSessionId s) (dt_controlTransportSessionId s) (dt_transportSessionId s) (dt_transportKind s) (dt_role s) (drainState s) (finalizing s) (finalized s) (dt_health s) v (framesReceived s) (bytesReceived s) (runtimeStreams s) (maxChunkBytes s) (initialCreditBytes s) (maxInFlightBytes s) (dt_isActive s) (has_close s).
Definition set_framesReceived (v : Z) (s : DataPlaneSessionTracker) : DataPlaneSessionTracker :=
  mkTracker (dt_budId s) (dt_deviceSessionId s) (dt_controlTransportSessionId s) (dt_transportSessionId s) (dt_transportKind s) (dt_role s) (drainState s) (finalizing s) (finalized s) (dt_health s) (dt_streams s) v (bytesReceived s) (runtimeStreams s) (maxChunkBytes s) (initialCreditBytes s) (maxInFlightBytes s) (dt_isActive s) (has_close s).
Definition set_bytesReceived (v : Z) (s : DataPlaneSessionTracker) : DataPlaneSessionTracker :=
  mkTracker (dt_budId s) (dt_deviceSessionId s) (dt_controlTransportSessionId s) (dt_transportSessionId s) (dt_transportKind s) (dt_role s) (drainState s) (finalizing s) (finalized s) (dt_health s) (dt_streams s) (framesReceived s) v (runtimeStreams s) (maxChunkBytes s) (initialCreditBytes s) (maxInFlightBytes s) (dt_isActive s) (has_close s).
Definition set_runtimeStreams (v : list (string * nat)) (s : DataPlaneSessionTracker) : DataPlaneSessionTracker :=
  mkTracker (dt_budId s) (dt_deviceSessionId s) (dt_controlTransportSessionId s) (dt_transportSessionId s) (dt_transportKind s) (dt_role s) (drainState s) (finalizing s) (finalized s) (dt_health s) (dt_streams s) (framesReceived s) (bytesReceived s) v (maxChunkBytes s) (initialCreditBytes s) (maxInFlightBytes s) (dt_isActive s) (has_close s).
Definition set_maxChunkBytes (v : Z) (s : DataPlaneSessionTracker) : DataPlaneSessionTracker :=
  mkTracker (dt_budId s) (dt_deviceSessionId s) (dt_controlTransportSessionId s) (dt_transportSessionId s) (dt_transportKind s) (dt_role s) (drainState s) (finalizing s) (finalized s) (dt_health s) (dt_streams s) (framesReceived s) (bytesReceived s) (runtimeStreams s) v (initialCreditBytes s) (maxInFlightBytes s) (dt_isActive s) (has_close s).
Definition set_initialCreditBytes (v : Z) (s : DataPlaneSessionTracker) : DataPlaneSessionTracker :=
  mkTracker (dt_budId s) (dt_deviceSessionId s) (dt_controlTransportSessionId s) (dt_transportSessionId s) (dt_transportKind s) (dt_role s) (drainState s) (finalizing s) (finalized s) (dt_health s) (dt_streams s) (framesReceived s) (bytesReceived s) (runtimeStreams s) (maxChunkBytes s) v (maxInFlightBytes s) (dt_isActive s) (has_close s).
Definition set_maxInFlightBytes (v : Z) (s : DataPlaneSessionTracker) : DataPlaneSessionTracker :=
  mkTracker (dt_budId s) (dt_deviceSessionId s) (dt_controlTransportSessionId s) (dt_transportSessionId s) (dt_transportKind s) (dt_role s) (drainState s) (finalizing s) (finalized s) (dt_health s) (dt_streams s) (framesReceived s) (bytesReceived s) (runtimeStreams s) (maxChunkBytes s) (initialCreditBytes s) v (dt_isActive s) (has_close s).
Definition set_dt_isActive (v : bool) (s : DataPlaneSessionTracker) : DataPlaneSessionTracker :=
  mkTracker (dt_budId s) (dt_deviceSessionId s) (dt_controlTransportSessionId s) (dt_transportSessionId s) (dt_transportKind s) (dt_role s) (drainState s) (finalizing s) (finalized s) (dt_health s) (dt_streams s) (framesReceived s) (bytesReceived s) (runtimeStreams s) (maxChunkBytes s) (initialCreditBytes s) (maxInFlightBytes s) v (has_close s).
Definition set_has_close (v : bool) (s : DataPlaneSessionTracker) : DataPlaneSessionTracker :=
  mkTracker (dt_budId s) (dt_deviceSessionId s) (dt_controlTransportSessionId s) (dt_transportSessionId s) (dt_transportKind s) (dt_role s) (drainState s) (finalizing s) (finalized s) (dt_health s) (dt_streams s) (framesReceived s) (bytesReceived s) (runtimeStreams s) (maxChunkBytes s) (initialCreditBytes s) (maxInFlightBytes s) (dt_isActive s) v.

(** The error object of a reset. *)
Record stream_error := mkStreamError {
  se_code : string;
  se_message : string;
  se_retryable : option bool;
  se_details : option (list (string * jsval));
}.

(** The frames the router sends. *)
Inductive out_frame :=
  | OData (stream_id stream_type : string) (offset : Z) (data : string) (end_stream : bool)
  | OCredit (stream_id : string) (receive_offset credit_bytes : Z)
  | OReset (stream_id reason : string) (error : stream_error)
  | OClose (stream_id : string) (final_offset : Z)
  | OOther (frame : list (string * jsval)).

Inductive event :=
  | EvSendFrame (t : nat) (f : out_frame)
  | EvOnData (s : nat) (chunk : list Byte.byte) (offset : Z) (endStream : bool)
  | EvOnReset (s : nat) (reason : string) (error : option stream_error)
  | EvOnClose (s : nat) (finalOffset : Z)
  | EvCarrierClose (t : nat)
  (* history: a chunk accepted, receive credit granted, a chunk charged to the
     send window, send credit received, a stream registered with its windows *)
  | EvOpened (s : nat) (receiveCredit sendCredit : Z)
  | EvAccepted (s : nat) (offset len : Z)
  | EvGranted (s : nat) (credit : Z)
  | EvCharged (s : nat) (offset len : Z)
  | EvCredited (s : nat) (credit : Z).

Record world := mkWorld {
  w_trackers : gmap nat DataPlaneSessionTracker;
  w_streams : gmap nat DataPlaneRuntimeStream;
  w_sessions : list (string * nat);
  w_next : nat;
  w_db : db;
  w_trace : list event;
}.

Definition set_w_trackers (v : gmap nat DataPlaneSessionTracker) (s : world) : world :=
  mkWorld v (w_streams s) (w_sessions s) (w_next s) (w_db s) (w_trace s).
Definition set_w_streams (v : gmap nat DataPlaneRuntimeStream) (s : world) : world :=
  mkWorld (w_trackers s) v (w_sessions s) (w_next s) (w_db s) (w_trace s).
Definition set_w_sessions (v : list (string * nat)) (s : world) : world :=
  mkWorld (w_trackers s) (w_streams s) v (w_next s) (w_db s) (w_trace s).
Definition set_w_next (v : nat) (s : world) : world :=
  mkWorld (w_trackers s) (w_streams s) (w_sessions s) v (w_db s) (w_trace s).
Definition set_w_db (v : db) (s : world) : world :=
  mkWorld (w_trackers s) (w_streams s) (w_sessions s) (w_next s) v (w_trace s).
Definition set_w_trace (v : list event) (s : world) : world :=
  mkWorld (w_trackers s) (w_streams s) (w_sessions s) (w_next s) (w_db s) v.

Definition log (e : event) (w : world) : world := set_w_trace (w_trace w ++ [e]) w.

(** Mutation of the objects behind references. *)
Definition upd_stream (r : nat) (f : DataPlaneRuntimeStream -> DataPlaneRuntimeStream) (w : world)
  : world := set_w_streams (alter f r (w_streams w)) w.
Definition upd_tracker (r : nat) (f : DataPlaneSessionTracker -> DataPlaneSessionTracker) (w : world)
  : world := set_w_trackers (alter f r (w_trackers w)) w.

(** ** Asynchronous programs *)

Inductive result := ROk | RErr (msg : string).

Inductive prog (A : Type) :=
  | Ret (a : A)
  | Throw (msg : string)
  | Do (f : world -> world) (k : world -> prog A)
  | Pause (k : prog A)
  | Wait (k : result -> prog A)
  | DbCall (st : db -> outcome unit) (k : result -> prog A).
Arguments Ret {A}.
Arguments Throw {A}.
Arguments Do {A}.
Arguments Pause {A}.
Arguments Wait {A}.
Arguments DbCall {A}.

Fixpoint prog_bind {A B} (k : A -> prog B) (p : prog A) : prog B :=
  match p with
  | Ret a => k a
  | Throw m => Throw m
  | Do f c => Do f (fun w => prog_bind k (c w))
  | Pause c => Pause (prog_bind k c)
  | Wait c => Wait (fun r => prog_bind k (c r))
  | DbCall st c => DbCall st (fun r => prog_bind k (c r))
  end.

#[export] Instance prog_mret : MRet prog := fun A => Ret.
#[export] Instance prog_mbind : MBind prog := fun A B => prog_bind.

(** [try { p } catch (err) { h }]. *)
Fixpoint try_catch {A} (p : prog A) (h : string -> prog A) : prog A :=
  match p with
  | Ret a => Ret a
  | Throw m => h m
  | Do f c => Do f (fun w => try_catch (c w) h)
  | Pause c => Pause (try_catch c h)
  | Wait c => Wait (fun r => try_catch (c r) h)
  | DbCall st c => DbCall st (fun r => try_catch (c r) h)
  end.

(** [try { p } finally { f }]. *)
Definition try_finally {A} (p : prog A) (f : world -> world) : prog A :=
  a ← try_catch p (fun m => Do f (fun _ => Throw m));
  Do f (fun _ => Ret a).

(** Run a piece of synchronous code that reads and writes the world. *)
Definition atomically (f : world -> world) : prog unit := Do f (fun _ => Ret tt).
Definition read {A} (f : world -> A) : prog A := Do id (fun w => Ret (f w)).

(** [await undefined]. *)
Definition pause : prog unit := Pause (Ret tt).

(** [await asyncFunction()]: the body starts at once; the caller goes on in a
    later turn. *)
Definition awaiting {A} (p : prog A) : prog A :=
  a ← try_catch p (fun m => Pause (Throw m)); Pause (Ret a).

(** [await promise], rejecting as the environment decides. *)
Definition await : prog unit :=
  Wait (fun r => match r with ROk => Ret tt | RErr m => Throw m end).

(** [await object.callback?.(...)]: the call and its settlement. *)
Definition await_call (present : bool) (e : event) : prog unit :=
  if present then atomically (log e);; await else pause.

(** [await statement.catch(() => null)]. *)
Definition db_catch (st : db -> outcome unit) : prog unit := DbCall st (fun _ => pause).

(** [await statement], its rejection propagated. *)
Definition db_await (st : db -> outcome unit) : prog unit :=
  DbCall st (fun r => match r with ROk => pause | RErr m => Pause (Throw m) end).

Definition forget {A} (o : outcome A) : outcome unit :=
  match o with Throws m => Throws m | Returns _ d => Returns tt d end.

(** The synchronous part of a task, up to its next [await]. *)
Fixpoint advance {A} (p : prog A) (w : world) : world * prog A :=
  match p with
  | Do f k => advance (k w) (f w)
  | _ => (w, p)
  end.

(** A run under an oracle that settles the awaited promises in turn; when it is
    exhausted they resolve. *)
Fixpoint run {A} (o : list result) (p : prog A) (w : world) : (A + string) * world * list result :=
  match p with
  | Ret a => (inl a, w, o)
  | Throw m => (inr m, w, o)
  | Do f k => run o (k w) (f w)
  | Pause k => run o k w
  | Wait k => match o with r :: o => run o (k r) w | [] => run [] (k ROk) w end
  | DbCall st k =>
      let '(r, o) := match o with r :: o => (r, o) | [] => (ROk, []) end in
      match r, st (w_db w) with
      | ROk, Returns _ d => run o (k ROk) (set_w_db d w)
      | ROk, Throws m => run o (k (RErr m)) w
      | RErr m, _ => run o (k (RErr m)) w
      end
  end.

(** ** Sessions *)

Definition kind_name (k : DataPlaneTransportKind) : string :=
  match k with DWebsocket => "websocket" | DH2Data => "h2_data" | DQuic => "quic" end.
Definition role_name (r : DataPlaneRole) : string :=
  match r with RoleData => "data" | RoleControlData => "control_data" end.

Definition dataPlaneSessionKey (budId deviceSessionId : string) (k : DataPlaneTransportKind)
  : string := budId +:+ ":" +:+ deviceSessionId +:+ ":" +:+ kind_name k.

Definition tracker_key (t : DataPlaneSessionTracker) : string :=
  dataPlaneSessionKey (dt_budId t) (dt_deviceSessionId t) (dt_transportKind t).

Definition isDataPlaneSessionConnected (t : DataPlaneSessionTracker) : bool :=
  if finalized t then false else dt_isActive t.

(** [registerActiveDataPlaneSessionTracker]: the previous tracker, if any. *)
Definition registerActiveDataPlaneSessionTracker (t : nat) (w : world) : option nat * world :=
  match w_trackers w !! t with
  | None => (None, w)
  | Some tr =>
      (JsMap.get (tracker_key tr) (w_sessions w),
       set_w_sessions (JsMap.set (tracker_key tr) t (w_sessions w)) w)
  end.

Definition getActiveDataPlaneSessionTracker (budId deviceSessionId : string)
    (k : DataPlaneTransportKind) (w : world) : option nat :=
  t ← JsMap.get (dataPlaneSessionKey budId deviceSessionId k) (w_sessions w);
  tr ← w_trackers w !! t;
  if isDataPlaneSessionConnected tr then Some t else None.

(** [dataPlaneSessions.get(key) === tracker] by identity. *)
Definition deleteDataPlaneSessionTrackerIfCurrent (t : nat) (w : world) : bool * world :=
  match w_trackers w !! t with
  | None => (false, w)
  | Some tr =>
      if bool_decide (JsMap.get (tracker_key tr) (w_sessions w) = Some t)
      then (true, set_w_sessions (JsMap.delete (tracker_key tr) (w_sessions w)) w)
      else (false, w)
  end.

(** The live trackers in the order of the map. *)
Definition session_trackers (w : world) : list (nat * DataPlaneSessionTracker) :=
  omap (fun t => (fun tr => (t, tr)) <$> w_trackers w !! t) (JsMap.values (w_sessions w)).

(** ** Selection *)

(** [Array.prototype.sort] with a numeric comparator is stable: insertion from
    the right, after the elements of a smaller or equal rank. *)
Fixpoint rank_insert {A} (rank : A -> Z) (x : A) (l : list A) : list A :=
  match l with
  | [] => [x]
  | y :: l => if (rank x <=? rank y)%Z then x :: y :: l else y :: rank_insert rank x l
  end.
Definition sort_by_rank {A} (rank : A -> Z) (l : list A) : list A := foldr (rank_insert rank) [] l.

Definition rankedDataPlaneSessions (configured : DaemonTransportPolicy) (budId : string)
    (deviceSessionId : option string) (policy : option DaemonTransportPolicy) (w : world)
  : list (nat * DataPlaneSessionTracker) :=
  sort_by_rank (fun nt => rankDataPlaneTransport configured (dt_transportKind nt.2) policy)
    (filter (fun nt : nat * DataPlaneSessionTracker =>
               dt_budId nt.2 = budId
               /\ (ostr_truthy deviceSessionId = true ->
                   Some (dt_deviceSessionId nt.2) = deviceSessionId))
       (session_trackers w)).

Definition is_draining (t : DataPlaneSessionTracker) : bool :=
  bool_decide (drainState t = Some Draining).
Definition supports_stream (streamType : string) (t : DataPlaneSessionTracker) : bool :=
  bool_decide (streamType ∈ dt_streams t).

Definition dataPlaneTrackerAcceptsNewWork (t : DataPlaneSessionTracker) : bool :=
  negb (is_draining t) && carrierHealthAllowsNewWork (normalizeCarrierHealth (dt_health t)).

(** The filter of [getActiveDataPlaneSessionForBud]. *)
Definition active_candidate (streamType : option string) (kind : option DataPlaneTransportKind)
    (includeDraining : bool) (t : DataPlaneSessionTracker) : bool :=
  if match kind with Some k => negb (bool_decide (dt_transportKind t = k)) | None => false end
  then false
  else if negb includeDraining && is_draining t then false
  else if negb includeDraining
          && negb (carrierHealthAllowsNewWork (normalizeCarrierHealth (dt_health t))) then false
  else if match streamType with
          | Some s => str_truthy s && negb (supports_stream s t) | None => false end then false
  else isDataPlaneSessionConnected t.

Definition getActiveDataPlaneSessionForBud (configured : DaemonTransportPolicy) (budId : string)
    (deviceSessionId : option string) (streamType : option string)
    (kind : option DataPlaneTransportKind) (includeDraining : bool)
    (policy : option DaemonTransportPolicy) (w : world) : option (nat * DataPlaneSessionTracker) :=
  head (filter (fun nt : nat * DataPlaneSessionTracker =>
                  active_candidate streamType kind includeDraining nt.2 = true)
          (rankedDataPlaneSessions configured budId deviceSessionId policy w)).

Definition candidateUnavailableReason (connected supportsStream draining : bool)
    (health : CarrierHealth) : option string :=
  if negb connected then Some "not connected"
  else if negb supportsStream then Some "stream family unsupported"
  else if draining then Some "draining"
  else if negb (carrierHealthAllowsNewWork health) then Some (describeCarrierHealth health)
  else None.

Definition dataPlaneSelectionCandidate (streamType : string) (t : DataPlaneSessionTracker)
  : CarrierSelectionCandidate :=
  let health := normalizeCarrierHealth (dt_health t) in
  let supportsStream := supports_stream streamType t in
  let connected := isDataPlaneSessionConnected t in
  let draining := is_draining t in
  let healthy := carrierHealthAllowsNewWork health in
  mkCandidate (kind_name (dt_transportKind t)) (Some (role_name (dt_role t))) health
    (connected && supportsStream && negb draining && healthy)
    (candidateUnavailableReason connected supportsStream draining health).

Inductive DataPlaneUnavailableCode :=
  | DATA_PLANE_UNAVAILABLE | STREAM_FAMILY_UNSUPPORTED | TRANSPORT_DEGRADED.

(** The outcome of a selection; the fields copied from the tracker are read
    through its reference. *)
Inductive DataPlaneCarrierSelection :=
  | Available (tracker : nat) (t : DataPlaneSessionTracker) (health : CarrierHealth)
      (selectionReason : string) (candidates : list CarrierSelectionCandidate)
  | Unavailable (code : DataPlaneUnavailableCode) (message : string)
      (tracker : option (nat * DataPlaneSessionTracker)) (health : option CarrierHealth)
      (selectionReason : string) (candidates : list CarrierSelectionCandidate).

Definition unavailableSelection (code : DataPlaneUnavailableCode) (message : string)
    (tracker : option (nat * DataPlaneSessionTracker)) (candidates : list CarrierSelectionCandidate)
    (selectionReason : string) : DataPlaneCarrierSelection :=
  Unavailable code message tracker
    ((fun nt => normalizeCarrierHealth (dt_health nt.2)) <$> tracker) selectionReason candidates.

Definition policy_name (p : DaemonTransportPolicy) : string :=
  match p with
  | WebsocketBaseline => "websocket_baseline" | H2Preferred => "h2_preferred"
  | QuicPreferred => "quic_preferred"
  end.

Definition selectionReasonForDataPlaneCarrier (selected : DataPlaneSessionTracker)
    (candidates : list CarrierSelectionCandidate) (policy : option DaemonTransportPolicy) : string :=
  let demoted :=
    (fun c => cc_transportKind c +:+ ": " +:+ (cc_reason c ?? describeCarrierHealth (cc_health c)))
      <$> filter (fun c => cc_transportKind c <> kind_name (dt_transportKind selected)
                           /\ cc_available c = false) candidates in
  let policyText := match policy with
                    | Some p => " by " +:+ policy_name p +:+ " policy" | None => "" end in
  let suffix := match demoted with
                | [] => "" | _ => "; skipped " +:+ String.concat ", " demoted end in
  "selected " +:+ kind_name (dt_transportKind selected) +:+ policyText +:+ " with "
  +:+ describeCarrierHealth (normalizeCarrierHealth (dt_health selected)) +:+ suffix.

Definition selectDataPlaneCarrier (configured : DaemonTransportPolicy) (budId : string)
    (deviceSessionId : option string) (streamType : string)
    (preferred : option DataPlaneTransportKind) (policy : option DaemonTransportPolicy) (w : world)
  : DataPlaneCarrierSelection :=
  let connected :=
    filter (fun nt : nat * DataPlaneSessionTracker => isDataPlaneSessionConnected nt.2 = true)
      (rankedDataPlaneSessions configured budId deviceSessionId policy w) in
  let filtered :=
    match preferred with
    | Some k => filter (fun nt : nat * DataPlaneSessionTracker => dt_transportKind nt.2 = k) connected
    | None => connected
    end in
  let candidates := (fun nt => dataPlaneSelectionCandidate streamType nt.2) <$> filtered in
  let familyMatches :=
    filter (fun nt : nat * DataPlaneSessionTracker => supports_stream streamType nt.2 = true) filtered in
  match filtered, familyMatches with
  | [], _ =>
      unavailableSelection DATA_PLANE_UNAVAILABLE "Bud does not have an active data-plane carrier"
        (head connected) candidates
        (match preferred with
         | Some k => "No active " +:+ kind_name k +:+ " data-plane carrier is connected"
         | None => "No active data-plane carrier is connected"
         end)
  | first :: _, [] =>
      unavailableSelection STREAM_FAMILY_UNSUPPORTED
        ("Bud data-plane carrier has not negotiated " +:+ streamType +:+ " support")
        (Some first) candidates
        ("No active data-plane carrier negotiated " +:+ streamType)
  | _ :: _, firstMatch :: _ =>
      let healthy := filter (fun nt : nat * DataPlaneSessionTracker =>
                               dataPlaneTrackerAcceptsNewWork nt.2 = true) familyMatches in
      let notDraining := filter (fun nt : nat * DataPlaneSessionTracker =>
                                   is_draining nt.2 = false) familyMatches in
      let '(n, t) := head healthy ?? (head notDraining ?? firstMatch) in
      let health := normalizeCarrierHealth (dt_health t) in
      if is_draining t then
        unavailableSelection TRANSPORT_DEGRADED
          "Bud data-plane carrier is draining and cannot accept new streams"
          (Some (n, t)) candidates
          (kind_name (dt_transportKind t) +:+ " is draining and no healthier " +:+ streamType
           +:+ " carrier is available")
      else if negb (carrierHealthAllowsNewWork health) then
        unavailableSelection TRANSPORT_DEGRADED
          ("Bud data-plane carrier is unhealthy: " +:+ describeCarrierHealth health)
          (Some (n, t)) candidates
          (kind_name (dt_transportKind t) +:+ " is " +:+ describeCarrierHealth health
           +:+ " and no healthier " +:+ streamType +:+ " carrier is available")
      else
        Available n t health (selectionReasonForDataPlaneCarrier t candidates policy) candidates
  end.

(** ** Runtime streams *)

Definition getDataPlaneRuntimeStream (t : nat) (streamId : string) (w : world) : option nat :=
  tr ← w_trackers w !! t; JsMap.get streamId (runtimeStreams tr).

Definition registerDataPlaneRuntimeStream (t : nat) (streamId streamType : string)
    (initialReceiveCreditBytes : Z) (initialSendCreditBytes : option Z)
    (onData onReset onClose : bool) (w : world) : nat * world :=
  match getDataPlaneRuntimeStream t streamId w with
  | Some s => (s, w)
  | None =>
      let s := w_next w in
      let stream := mkRuntimeStream streamId streamType 0 initialReceiveCreditBytes 0
                      (initialSendCreditBytes ?? 0%Z) 0 false false None onData onReset onClose in
      (s, log (EvOpened s initialReceiveCreditBytes (initialSendCreditBytes ?? 0%Z))
            (upd_tracker t (fun tr => set_runtimeStreams (JsMap.set streamId s (runtimeStreams tr)) tr)
               (set_w_next (S s) (set_w_streams (<[s := stream]> (w_streams w)) w))))
  end.

(** A stream that counts against the capacity. *)
Definition stream_counts (streamType : option string) (s : DataPlaneRuntimeStream) : bool :=
  negb (ostr_truthy streamType && negb (bool_decide (Some (rs_streamType s) = streamType)))
  && negb (ostr_truthy (resetReason s) || (localClosed s && remoteClosed s)).

Definition countActiveDataPlaneRuntimeStreamsForBud (budId : string) (streamType : option string)
    (w : world) : nat :=
  length (filter (fun s => stream_counts streamType s = true)
    (omap (fun r => w_streams w !! r)
       (filter (fun nt : nat * DataPlaneSessionTracker =>
                  dt_budId nt.2 = budId /\ isDataPlaneSessionConnected nt.2 = true)
          (session_trackers w) ≫= (fun nt => JsMap.values (runtimeStreams nt.2))))).

Definition checkDataPlaneRuntimeStreamCapacity (budId streamType : string)
    (maxConcurrentStreams : Z) (w : world) : Z * option (string * string) :=
  let n := Z.of_nat (countActiveDataPlaneRuntimeStreamsForBud budId (Some streamType) w) in
  (n, if (n <? maxConcurrentStreams)%Z then None
      else Some ("DATA_PLANE_STREAM_LIMIT_EXCEEDED",
                 "Bud already has " +:+ pretty n +:+ " active " +:+ streamType +:+ " stream(s)")).

(** [recordDataPlaneInboundChunk]: the rejection, or the new stream. *)
Definition recordDataPlaneInboundChunk (s : DataPlaneRuntimeStream) (offset byteLength : Z)
  : (string * string) + DataPlaneRuntimeStream :=
  if ostr_truthy (resetReason s) then inl ("STREAM_RESET", "stream has already been reset")
  else if remoteClosed s then
    inl ("STREAM_CLOSED", "stream is already closed by the remote peer")
  else if negb (offset =? receiveOffset s)%Z then
    inl ("OFFSET_MISMATCH", "expected stream offset " +:+ pretty (receiveOffset s)
                            +:+ ", got " +:+ pretty offset)
  else if (byteLength >? receiveCreditBytes s)%Z then
    inl ("CREDIT_EXHAUSTED", "stream frame exceeds available credit by "
                             +:+ pretty (byteLength - receiveCreditBytes s)%Z +:+ " bytes")
  else inr (set_receiveCreditBytes (receiveCreditBytes s - byteLength)
              (set_receiveOffset (receiveOffset s + byteLength) s)).

Definition grantDataPlaneReceiveCredit (creditBytes : Z) (s : DataPlaneRuntimeStream)
  : DataPlaneRuntimeStream :=
  set_receiveCreditBytes (receiveCreditBytes s + creditBytes) s.

Definition recordDataPlaneOutboundCredit (receiveOffset creditBytes : Z)
    (s : DataPlaneRuntimeStream) : DataPlaneRuntimeStream :=
  set_sendCreditBytes (sendCreditBytes s + creditBytes)
    (set_remoteReceiveOffset (Z.max (remoteReceiveOffset s) receiveOffset) s).

(** ** Sending *)

Definition sendDataPlaneFrame (t : nat) (f : out_frame) : prog unit :=
  trk ← read (fun w => w_trackers w !! t);
  if match trk with Some tr => isDataPlaneSessionConnected tr | None => false end
  then atomically (log (EvSendFrame t f));; await
  else Throw "data-plane carrier is not active".

(** The stream object of an id on a tracker, with its reference. *)
Definition lookup_stream (t : nat) (streamId : string) (w : world)
  : option (nat * DataPlaneRuntimeStream) :=
  match getDataPlaneRuntimeStream t streamId w with
  | Some s => (fun st => (s, st)) <$> w_streams w !! s
  | None => None
  end.

Definition sendDataPlaneStreamData (t : nat) (streamId : string) (data : list Byte.byte)
    (endStream : bool) (maxChunk : Z) : prog unit :=
  found ← read (lookup_stream t streamId);
  match found with
  | None => Throw ("unknown data-plane runtime stream: " +:+ streamId)
  | Some (s, st) =>
      if localClosed st || ostr_truthy (resetReason st) then
        Throw ("data-plane runtime stream is not writable: " +:+ streamId)
      else if (zlen data >? maxChunk)%Z then
        Throw ("data-plane runtime stream chunk exceeds " +:+ pretty maxChunk +:+ " bytes")
      else if (zlen data >? sendCreditBytes st)%Z then
        Throw ("data-plane runtime stream has insufficient send credit: " +:+ streamId)
      else
        let offset := sendOffset st in
        atomically (fun w =>
          log (EvCharged s offset (zlen data))
            (upd_stream s (fun st =>
               let st := set_sendCreditBytes (sendCreditBytes st - zlen data)
                           (set_sendOffset (sendOffset st + zlen data) st) in
               if endStream then set_localClosed true st else st) w));;
        awaiting (sendDataPlaneFrame t
          (OData (rs_streamId st) (rs_streamType st) offset (Base64.encode data) endStream))
  end.

(** [sendDataPlaneFrameToBud]. *)
Definition sendDataPlaneFrameToBud (configured : DaemonTransportPolicy) (budId : string)
    (deviceSessionId streamType : option string) (f : list (string * jsval)) : prog bool :=
  found ← read (getActiveDataPlaneSessionForBud configured budId deviceSessionId streamType
                  None false None);
  match found with
  | None => Ret false
  | Some (t, _) => awaiting (sendDataPlaneFrame t (OOther f));; Ret true
  end.

(** ** Frames *)

Definition PROTO_VERSION : string := "0.1".

(** [SafeNonnegativeIntegerSchema]. *)
Definition safe_nonneg (v : jsval) : option Z :=
  match v with
  | JNum (JFin q) =>
      let z := Qfloor q in
      if Qeq_bool q (inject_Z z) && (0 <=? z)%Z && (z <=? MAX_SAFE_INTEGER)%Z then Some z else None
  | _ => None
  end.

(** [EnvelopeSchema] with the literal type; [z.number()] rejects NaN. *)
Definition envelope_ok (type : string) (fs : list (string * jsval)) : bool :=
  bool_decide (as_string (field_lookup "proto" fs) = Some PROTO_VERSION)
  && bool_decide (as_string (field_lookup "type" fs) = Some type)
  && bool_decide (is_Some (as_string (field_lookup "id" fs)))
  && match field_lookup "ts" fs with JNum JNaN => false | JNum _ => true | _ => false end
  && match field_lookup "ext" fs with JUndef | JObj _ => true | _ => false end.

Record StreamDataFrame := mkStreamData {
  sdf_stream_id : string;
  sdf_stream_type : string;
  sdf_offset : Z;
  sdf_data : string;
  sdf_end_stream : bool;
}.

Definition guard_env {A} (type : string) (raw : jsval) (k : list (string * jsval) -> option A)
  : option A :=
  match raw with JObj fs => if envelope_ok type fs then k fs else None | _ => None end.

Definition parseStreamDataFrame (raw : jsval) : option StreamDataFrame :=
  guard_env "stream_data" raw (fun fs =>
    i ← as_string (field_lookup "stream_id" fs);
    ty ← as_string (field_lookup "stream_type" fs);
    o ← safe_nonneg (field_lookup "offset" fs);
    d ← as_string (field_lookup "data" fs);
    e ← match field_lookup "end_stream" fs with
        | JUndef => Some false | JBool b => Some b | _ => None end;
    Some (mkStreamData i ty o d e)).

Record StreamCreditFrame := mkStreamCredit {
  scf_stream_id : string;
  scf_receive_offset : Z;
  scf_credit_bytes : Z;
}.

Definition parseStreamCredit (raw : jsval) : option StreamCreditFrame :=
  guard_env "stream_credit" raw (fun fs =>
    i ← as_string (field_lookup "stream_id" fs);
    o ← safe_nonneg (field_lookup "receive_offset" fs);
    c ← safe_nonneg (field_lookup "credit_bytes" fs);
    Some (mkStreamCredit i o c)).

Definition parse_error (v : jsval) : option (option stream_error) :=
  match v with
  | JUndef => Some None
  | JObj fs =>
      c ← as_string (field_lookup "code" fs);
      m ← as_string (field_lookup "message" fs);
      r ← match field_lookup "retryable" fs with
          | JUndef => Some None | JBool b => Some (Some b) | _ => None end;
      d ← match field_lookup "details" fs with
          | JUndef => Some None | JObj ds => Some (Some ds) | _ => None end;
      Some (Some (mkStreamError c m r d))
  | _ => None
  end.

Record StreamResetFrame := mkStreamReset {
  srf_stream_id : string;
  srf_reason : string;
  srf_error : option stream_error;
}.

Definition parseStreamReset (raw : jsval) : option StreamResetFrame :=
  guard_env "stream_reset" raw (fun fs =>
    i ← as_string (field_lookup "stream_id" fs);
    r ← as_string (field_lookup "reason" fs);
    e ← parse_error (field_lookup "error" fs);
    Some (mkStreamReset i r e)).

Record StreamCloseFrame := mkStreamClose {
  slf_stream_id : string;
  slf_final_offset : Z;
}.

Definition parseStreamClose (raw : jsval) : option StreamCloseFrame :=
  guard_env "stream_close" raw (fun fs =>
    i ← as_string (field_lookup "stream_id" fs);
    o ← safe_nonneg (field_lookup "final_offset" fs);
    Some (mkStreamClose i o)).

(** ** Handlers *)

Section Handlers.
(** The clock readings and ids of the statements. *)
Context (now dbnow : Z) (ulid : string).

Definition live_from : list StreamState := [Opening; Open; HalfClosedLocal; HalfClosedRemote].

Definition error_arg_of (e : stream_error) : error_arg :=
  mkErrorArg (se_code e) (se_message e) (se_retryable e) (se_details e).

(** [transitionStream({ from: live, to: "reset", resetReason, error })]. *)
Definition db_reset (streamId reason : string) (e : option stream_error) (d : db) : outcome unit :=
  forget (transitionStream streamId live_from Reset None None (Some reason)
            (error_arg_of <$> e) now d).

Definition jbool_opt (o : option bool) : list (string * jsval) :=
  match o with Some b => [("retryable", JBool b)] | None => [] end.

Definition error_value (e : option stream_error) : jsval :=
  match e with
  | None => JNull
  | Some e =>
      JObj ([("code", JStr (se_code e)); ("message", JStr (se_message e))]
            ++ jbool_opt (se_retryable e)
            ++ match se_details e with Some ds => [("details", JObj ds)] | None => [] end)
  end.

(** The tracker fields every audit event carries. *)
Definition tracker_data (tr : DataPlaneSessionTracker) : list (string * jsval) :=
  [("device_session_id", JStr (dt_deviceSessionId tr));
   ("control_transport_session_id", ostr_value (dt_controlTransportSessionId tr));
   ("data_transport_session_id", ostr_value (dt_transportSessionId tr));
   ("transport_kind", JStr (kind_name (dt_transportKind tr)))].

Definition db_audit (type : string) (tr : DataPlaneSessionTracker) (streamId : string)
    (data : list (string * jsval)) (d : db) : outcome unit :=
  forget (appendAuditEvent
            (mkAuditArgs None type (Some (data ++ tracker_data tr)) (Some (dt_budId tr)) None None
               (Some streamId) None None) ulid dbnow d).

Definition sendStreamReset (t : nat) (streamId reason : string) (e : stream_error) : prog unit :=
  awaiting (sendDataPlaneFrame t (OReset streamId reason e)).

Definition streamResetReasonForCreditError (code : string) : string :=
  if bool_decide (code = "CREDIT_EXHAUSTED") then "backpressure" else "protocol_error".

(** [{ code, message, retryable: false }]. *)
Definition final_error (code message : string) : stream_error :=
  mkStreamError code message (Some false) None.

(** The reset of a stream whose consumer failed. *)
Definition consumer_failed (t : nat) (tr : DataPlaneSessionTracker) (st : DataPlaneRuntimeStream)
    (streamId msg : string) : prog unit :=
  let error := final_error "STREAM_CONSUMER_FAILED" msg in
  awaiting (sendStreamReset t streamId "local_error" error);;
  db_catch (db_reset streamId "local_error" (Some error));;
  db_catch (db_audit "data_plane.stream_reset" tr streamId
              [("reason", JStr "local_error"); ("error", error_value (Some error));
               ("stream_type", JStr (rs_streamType st))]).

(** What [handleStreamData] does once the consumer took the chunk. *)
Definition after_consumed (t s : nat) (n : Z) (end_stream : bool) : prog unit :=
  atomically (fun w => log (EvGranted s n) (upd_stream s (grantDataPlaneReceiveCredit n) w));;
  st ← read (fun w => w_streams w !! s);
  match st with
  | None => Ret tt
  | Some st =>
      awaiting (sendDataPlaneFrame t (OCredit (rs_streamId st) (receiveOffset st) n));;
      if end_stream then
        atomically (upd_stream s (set_remoteClosed true));;
        st ← read (fun w => w_streams w !! s);
        match st with
        | None => Ret tt
        | Some st =>
            await_call (has_onClose st) (EvOnClose s (receiveOffset st));;
            st ← read (fun w => w_streams w !! s);
            match st with
            | None => Ret tt
            | Some st => awaiting (sendDataPlaneFrame t (OClose (rs_streamId st) (receiveOffset st)))
            end
        end
      else Ret tt
  end.

Definition handleStreamData (t : nat) (raw : jsval) : prog unit :=
  match parseStreamDataFrame raw with
  | None => Ret tt
  | Some f =>
      trk ← read (fun w => w_trackers w !! t);
      found ← read (lookup_stream t (sdf_stream_id f));
      match trk, found with
      | Some tr, Some (s, st) =>
          if negb (bool_decide (rs_streamType st = sdf_stream_type f)) then
            awaiting (sendStreamReset t (sdf_stream_id f) "protocol_error"
              (final_error "STREAM_TYPE_MISMATCH"
                 ("expected stream_type " +:+ rs_streamType st +:+ ", got " +:+ sdf_stream_type f)))
          else
            let decoded := Base64.decode (sdf_data f) in
            if (zlen decoded >? maxChunkBytes tr)%Z then
              awaiting (sendStreamReset t (sdf_stream_id f) "protocol_error"
                (final_error "CHUNK_TOO_LARGE"
                   "stream_data chunk exceeds data-plane max chunk size"))
            else
              match recordDataPlaneInboundChunk st (sdf_offset f) (zlen decoded) with
              | inl (code, message) =>
                  awaiting (sendStreamReset t (sdf_stream_id f)
                    (streamResetReasonForCreditError code) (final_error code message))
              | inr st' =>
                  atomically (fun w =>
                    log (EvAccepted s (sdf_offset f) (zlen decoded))
                      (upd_tracker t (fun tr =>
                         set_bytesReceived (bytesReceived tr + zlen decoded)
                           (set_framesReceived (framesReceived tr + 1) tr))
                         (upd_stream s (fun _ => st') w)));;
                  consumed ← try_catch
                    (await_call (has_onData st)
                       (EvOnData s decoded (sdf_offset f) (sdf_end_stream f));; Ret None)
                    (fun m => Ret (Some m));
                  match consumed with
                  | Some m => consumer_failed t tr st (sdf_stream_id f) m
                  | None => after_consumed t s (zlen decoded) (sdf_end_stream f)
                  end
              end
      | _, _ =>
          awaiting (sendStreamReset t (sdf_stream_id f) "protocol_error"
            (final_error "UNKNOWN_STREAM" "stream_data received for an unknown stream"))
      end
  end.

Definition handleStreamCredit (t : nat) (raw : jsval) : prog unit :=
  match parseStreamCredit raw with
  | None => Ret tt
  | Some f =>
      trk ← read (fun w => w_trackers w !! t);
      found ← read (lookup_stream t (scf_stream_id f));
      match trk, found with
      | Some tr, Some (s, _) =>
          atomically (fun w =>
            log (EvCredited s (scf_credit_bytes f))
              (upd_stream s (fun st =>
                 let st := recordDataPlaneOutboundCredit (scf_receive_offset f)
                             (scf_credit_bytes f) st in
                 set_sendCreditBytes (Z.min (sendCreditBytes st) (maxInFlightBytes tr)) st) w))
      | _, _ => Ret tt
      end
  end.

Definition handleStreamReset (t : nat) (raw : jsval) : prog unit :=
  match parseStreamReset raw with
  | None => Ret tt
  | Some f =>
      trk ← read (fun w => w_trackers w !! t);
      found ← read (lookup_stream t (srf_stream_id f));
      match trk with
      | None => Ret tt
      | Some tr =>
          match found with
          | Some (s, st) =>
              atomically (upd_stream s (set_resetReason (Some (srf_reason f))));;
              await_call (has_onReset st) (EvOnReset s (srf_reason f) (srf_error f))
          | None => Ret tt
          end;;
          db_catch (db_reset (srf_stream_id f) (srf_reason f) (srf_error f));;
          db_catch (db_audit "data_plane.stream_reset" tr (srf_stream_id f)
                      [("reason", JStr (srf_reason f)); ("error", error_value (srf_error f));
                       ("stream_type", ostr_value ((fun p => rs_streamType p.2) <$> found))])
      end
  end.

(** [stream_close] with a final offset that is not what was received. *)
Definition close_mismatch (t s : nat) (tr : DataPlaneSessionTracker) (st : DataPlaneRuntimeStream)
    (f : StreamCloseFrame) : prog unit :=
  let num z := JNum (JFin (inject_Z z)) in
  let error := mkStreamError "FINAL_OFFSET_MISMATCH"
                 ("expected final_offset " +:+ pretty (receiveOffset st) +:+ ", got "
                  +:+ pretty (slf_final_offset f)) (Some false)
                 (Some [("expected_final_offset", num (receiveOffset st));
                        ("received_final_offset", num (slf_final_offset f))]) in
  atomically (upd_stream s (set_resetReason (Some "protocol_error")));;
  await_call (has_onReset st) (EvOnReset s "protocol_error" (Some error));;
  awaiting (try_catch (sendStreamReset t (slf_stream_id f) "protocol_error" error)
              (fun _ => Ret tt));;
  db_catch (db_reset (slf_stream_id f) "protocol_error" (Some error));;
  db_catch (db_audit "data_plane.stream_reset" tr (slf_stream_id f)
              [("reason", JStr "protocol_error"); ("error", error_value (Some error));
               ("stream_type", JStr (rs_streamType st))]).

Definition handleStreamClose (t : nat) (raw : jsval) : prog unit :=
  match parseStreamClose raw with
  | None => Ret tt
  | Some f =>
      trk ← read (fun w => w_trackers w !! t);
      found ← read (lookup_stream t (slf_stream_id f));
      match trk with
      | None => Ret tt
      | Some tr =>
          let close_rows :=
            db_catch (fun d => forget (transitionStream (slf_stream_id f) [Opening] Open None None
                                         None None now d));;
            db_catch (fun d => forget (transitionStream (slf_stream_id f)
                                         [Open; HalfClosedLocal; HalfClosedRemote] Closed None
                                         (Some (slf_final_offset f)) None None now d));;
            db_catch (db_audit "data_plane.stream_close" tr (slf_stream_id f)
                        [("final_offset", JNum (JFin (inject_Z (slf_final_offset f))));
                         ("stream_type", ostr_value ((fun p => rs_streamType p.2) <$> found))]) in
          match found with
          | Some (s, st) =>
              if negb (slf_final_offset f =? receiveOffset st)%Z then close_mismatch t s tr st f
              else
                atomically (upd_stream s (set_remoteClosed true));;
                await_call (has_onClose st) (EvOnClose s (slf_final_offset f));;
                close_rows
          | None => close_rows
          end
      end
  end.

(** [dispatchDataPlaneStreamFrame]. *)
Definition raw_type (raw : jsval) : option string :=
  fs ← as_record raw; as_string (field_lookup "type" fs).
Definition raw_stream_id (raw : jsval) : option string :=
  fs ← as_record raw; as_string (field_lookup "stream_id" fs).

Definition dispatchDataPlaneStreamFrame (t : nat) (raw : jsval) : prog unit :=
  match raw_type raw with
  | Some ty =>
      if bool_decide (ty = "stream_data") then handleStreamData t raw
      else if bool_decide (ty = "stream_credit") then handleStreamCredit t raw
      else if bool_decide (ty = "stream_reset") then handleStreamReset t raw
      else if bool_decide (ty = "stream_close") then handleStreamClose t raw
      else Ret tt
  | None => Ret tt
  end.

Definition isOrderedDataPlaneStreamFrameType (ty : option string) : bool :=
  bool_decide (ty ∈ Some <$> ["stream_data"; "stream_credit"; "stream_reset"; "stream_close"]).

(** ** Finalisation *)

(** One turn of the loop of [resetRuntimeStreamsForDataPlaneTracker]. *)
Definition reset_stream (tr : DataPlaneSessionTracker) (error : stream_error) (s : nat) : prog unit :=
  st ← read (fun w => w_streams w !! s);
  match st with
  | None => Ret tt
  | Some st =>
      if remoteClosed st || ostr_truthy (resetReason st) then Ret tt
      else
        atomically (upd_stream s (set_resetReason (Some "transport_lost")));;
        try_catch (await_call (has_onReset st) (EvOnReset s "transport_lost" (Some error)))
          (fun _ => Ret tt);;
        db_catch (db_reset (rs_streamId st) "transport_lost" (Some error));;
        db_catch (db_audit "data_plane.stream_reset" tr (rs_streamId st)
                    [("reason", JStr "transport_lost"); ("error", error_value (Some error));
                     ("stream_type", JStr (rs_streamType st))])
  end.

Fixpoint reset_streams (tr : DataPlaneSessionTracker) (error : stream_error) (ss : list nat)
  : prog unit :=
  match ss with
  | [] => Ret tt
  | s :: ss => reset_stream tr error s;; reset_streams tr error ss
  end.

Definition resetRuntimeStreamsForDataPlaneTracker (t : nat) (reason : string) : prog unit :=
  trk ← read (fun w => w_trackers w !! t);
  match trk with
  | None => Ret tt
  | Some tr =>
      let error := mkStreamError "DATA_PLANE_STREAM_CLOSED"
                     ("data-plane carrier closed before runtime stream completed: " +:+ reason)
                     (Some true) None in
      reset_streams tr error (JsMap.values (runtimeStreams tr));;
      atomically (upd_tracker t (set_runtimeStreams []))
  end.

Definition finalizeDataPlaneSessionTracker (t : nat) (reason : string) (markDraining : bool)
    (deleteSession : bool) : prog unit :=
  trk ← read (fun w => w_trackers w !! t);
  match trk with
  | None => Ret tt
  | Some tr =>
      if finalized tr || finalizing tr then Ret tt
      else
        atomically (upd_tracker t (set_finalizing true));;
        try_finally
          (atomically (fun w =>
             let w := if markDraining then upd_tracker t (set_drainState (Some Draining)) w else w in
             if deleteSession then (deleteDataPlaneSessionTrackerIfCurrent t w).2 else w);;
           awaiting (resetRuntimeStreamsForDataPlaneTracker t reason);;
           await_call (has_close tr) (EvCarrierClose t);;
           match dt_role tr, dt_transportSessionId tr with
           | RoleData, Some ts =>
               if str_truthy ts
               then db_await (fun d => Returns tt (closeTransportSession ts reason markDraining
                                                     (Some false) now now d))
               else Ret tt
           | _, _ => Ret tt
           end;;
           atomically (upd_tracker t (set_finalized true)))
          (upd_tracker t (set_finalizing false))
  end.

(** The sessions [finalizeDataPlaneSessionsForControlTracker] finalises. *)
Definition subordinate_session (budId : string) (deviceSessionId sessionId transportSessionId : option string)
    (t : DataPlaneSessionTracker) : bool :=
  let ids := omap id [deviceSessionId; sessionId] in
  bool_decide (dt_budId t = budId)
  && (bool_decide (ids = []) || bool_decide (dt_deviceSessionId t ∈ ids))
  && (negb (ostr_truthy transportSessionId)
      || bool_decide (dt_controlTransportSessionId t = transportSessionId)
      || bool_decide (dt_transportSessionId t = transportSessionId)).

Definition subordinate_sessions (budId : string)
    (deviceSessionId sessionId transportSessionId : option string) (w : world) : list nat :=
  (filter (fun nt : nat * DataPlaneSessionTracker =>
             subordinate_session budId deviceSessionId sessionId transportSessionId nt.2 = true)
     (session_trackers w)).*1.

(** [finalizeDataPlaneSessionsForControlTracker]: the finalisations it starts,
    each a task of its own ([Promise.allSettled] lets none of them stop the
    others). *)
Definition finalizeDataPlaneSessionsForControlTracker (budId : string)
    (deviceSessionId sessionId transportSessionId : option string) (reason : string)
    (markDraining : bool) (w : world) : list (prog unit) :=
  (fun t => finalizeDataPlaneSessionTracker t reason markDraining true)
    <$> subordinate_sessions budId deviceSessionId sessionId transportSessionId w.
End Handlers.

(** ** Tasks and queues *)

(** The running system: the started tasks, and per tracker and stream the queue
    of frame handlers, of which only the first runs. *)
Record sys := mkSys {
  sy_world : world;
  sy_queues : list (nat * string * list (prog unit));
  sy_tasks : list (prog unit);
}.

Definition queue_of (key : nat * string) (y : sys) : list (prog unit) :=
  JsMap.get key (sy_queues y) ?? [].

(** [enqueueDataPlaneStreamFrame]: the handler goes after the pending ones. *)
Definition enqueueDataPlaneStreamFrame (t : nat) (streamId : string) (handler : prog unit) (y : sys)
  : sys :=
  mkSys (sy_world y)
    (JsMap.set (t, streamId) (queue_of (t, streamId) y ++ [handler]) (sy_queues y)) (sy_tasks y).

Definition spawn (p : prog unit) (y : sys) : sys :=
  let '(w, p) := advance p (sy_world y) in mkSys w (sy_queues y) (sy_tasks y ++ [p]).

Definition handleDataPlaneStreamFrame (now dbnow : Z) (ulid : string) (t : nat) (raw : jsval)
    (y : sys) : sys :=
  let ty := raw_type raw in
  let handler := dispatchDataPlaneStreamFrame now dbnow ulid t raw in
  match raw_stream_id raw with
  | Some i =>
      if isOrderedDataPlaneStreamFrameType ty && str_truthy i
      then enqueueDataPlaneStreamFrame t i handler y
      else spawn handler y
  | None => spawn handler y
  end.

(** A task goes on when what it awaits settles with [r]. *)
Definition resume (r : result) (p : prog unit) (w : world) : world * prog unit :=
  match p with
  | Ret _ | Throw _ => (w, p)
  | Do _ _ => advance p w
  | Pause k => advance k w
  | Wait k => advance (k r) w
  | DbCall st k =>
      match r, st (w_db w) with
      | ROk, Returns _ d => advance (k ROk) (set_w_db d w)
      | ROk, Throws m => advance (k (RErr m)) w
      | RErr m, _ => advance (k (RErr m)) w
      end
  end.

Definition finished (p : prog unit) : bool :=
  match p with Ret _ | Throw _ => true | _ => false end.

(** What the rest of the service may start or do on the data plane. *)
Inductive env_task : prog unit -> Prop :=
  | ET_send t i data fin mx : env_task (sendDataPlaneStreamData t i data fin mx)
  | ET_frame c b d ty f :
      env_task (sendDataPlaneFrameToBud c b d ty f;; Ret tt)
  | ET_finalize now dbnow ulid t reason drain del :
      env_task (finalizeDataPlaneSessionTracker now dbnow ulid t reason drain del).

Inductive env_op : world -> world -> Prop :=
  | EO_open t i ty rc sc d r c w :
      (0 <= rc)%Z -> (0 <= sc ?? 0)%Z ->
      env_op w (registerDataPlaneRuntimeStream t i ty rc sc d r c w).2
  | EO_register t w : env_op w (registerActiveDataPlaneSessionTracker t w).2
  | EO_delete t w : env_op w (deleteDataPlaneSessionTrackerIfCurrent t w).2
  | EO_tracker t tr w :
      (0 <= maxInFlightBytes tr)%Z -> env_op w (set_w_trackers (<[t := tr]> (w_trackers w)) w).

Inductive sys_step : sys -> sys -> Prop :=
  | SFrame now dbnow ulid t raw y : sys_step y (handleDataPlaneStreamFrame now dbnow ulid t raw y)
  | SSpawn p y : env_task p -> sys_step y (spawn p y)
  | SEnv w qs ts w' : env_op w w' -> sys_step (mkSys w qs ts) (mkSys w' qs ts)
  | SQueue key p rest r w qs ts w' p' :
      JsMap.get key qs = Some (p :: rest) -> resume r p w = (w', p') ->
      sys_step (mkSys w qs ts) (mkSys w' (JsMap.set key (p' :: rest) qs) ts)
  | SNext key p rest w qs ts :
      JsMap.get key qs = Some (p :: rest) -> finished p = true ->
      sys_step (mkSys w qs ts)
        (mkSys w (if bool_decide (rest = []) then JsMap.delete key qs
                  else JsMap.set key rest qs) ts)
  | STask ts1 p ts2 r w qs w' p' :
      resume r p w = (w', p') ->
      sys_step (mkSys w qs (ts1 ++ p :: ts2)) (mkSys w' qs (ts1 ++ p' :: ts2)).

Inductive sys_steps (y : sys) : sys -> Prop :=
  | sys_refl : sys_steps y y
  | sys_more y1 y2 : sys_steps y y1 -> sys_step y1 y2 -> sys_steps y y2.

Definition empty_world : world := mkWorld ∅ ∅ [] 0 empty_db [].
Definition init_sys : sys := mkSys empty_world [] [].

(** ** The history of a stream *)

Definition chunks_in (s : nat) (tr : list event) : list (Z * Z) :=
  omap (fun e => match e with
                 | EvAccepted s' o n => if decide (s' = s) then Some (o, n) else None
                 | _ => None end) tr.
Definition grants (s : nat) (tr : list event) : list Z :=
  omap (fun e => match e with
                 | EvGranted s' n => if decide (s' = s) then Some n else None
                 | _ => None end) tr.
Definition chunks_out (s : nat) (tr : list event) : list (Z * Z) :=
  omap (fun e => match e with
                 | EvCharged s' o n => if decide (s' = s) then Some (o, n) else None
                 | _ => None end) tr.
Definition credits (s : nat) (tr : list event) : list Z :=
  omap (fun e => match e with
                 | EvCredited s' n => if decide (s' = s) then Some n else None
                 | _ => None end) tr.
Definition opened (s : nat) (tr : list event) : list (Z * Z) :=
  omap (fun e => match e with
                 | EvOpened s' r c => if decide (s' = s) then Some (r, c) else None
                 | _ => None end) tr.

(** The chunks cover the bytes from [o] to [e], each where the last one ended. *)
Fixpoint contiguous (o : Z) (l : list (Z * Z)) (e : Z) : Prop :=
  match l with
  | [] => e = o
  | (off, len) :: l => off = o /\ (0 <= len)%Z /\ contiguous (o + len) l e
  end.
