(* ===== verification/DataPlaneFlow.v ===== *)
(** Flow control on the data plane, under every interleaving of tasks: chunks
    are accepted and sent contiguously, the receive window is conserved, and
    no more is sent than was credited.

    The argument is a small program logic for [prog]. A segment is judged from
    the world it starts in ([wpa]); at an [await] only the world invariant [winv]
    and the survival of the stream objects are kept. A task that accepted a
    chunk owes its credit back until it grants it; the debts of all tasks are
    covered by what was accepted and not yet granted ([slack]). *)
From Stdlib Require Import ZArith QArith Lia.
From stdpp Require Import base tactics strings gmap sorting option pretty.
From stdpp Require Import list.
From S2P Require Import Prelude JsRuntime Base64 DaemonState Carrier DataPlane.

(** ** Contiguous chunks *)

Lemma contiguous_snoc o l e n :
  contiguous o l e -> (0 <= n)%Z -> contiguous o (l ++ [(e, n)]) (e + n).
Proof.
  revert o. induction l as [|[off len] l IH]; intros o; cbn.
  - intros ->. auto.
  - intros (-> & ? & ?) ?. split_and!; [done | done | by apply IH].
Qed.

Lemma contiguous_total o l e : contiguous o l e -> (e = o + zsum l.*2)%Z.
Proof.
  revert o. induction l as [|[off len] l IH]; intros o; cbn; [lia|].
  intros (_ & _ & ->%IH). lia.
Qed.

Lemma contiguous_ge o l e : contiguous o l e -> (o <= e)%Z.
Proof.
  revert o. induction l as [|[off len] l IH]; intros o; cbn; [lia|].
  intros (_ & ? & ?%IH). lia.
Qed.

(** ** The world invariant *)

Definition stream_inv (s : nat) (st : DataPlaneRuntimeStream) (tr : list event) : Prop :=
  exists rc sc, opened s tr = [(rc, sc)]
    /\ contiguous 0 (chunks_in s tr) (receiveOffset st)
    /\ (receiveOffset st + receiveCreditBytes st = rc + zsum (grants s tr))%Z
    /\ (0 <= receiveCreditBytes st)%Z
    /\ contiguous 0 (chunks_out s tr) (sendOffset st)
    /\ (sendOffset st + sendCreditBytes st <= sc + zsum (credits s tr))%Z
    /\ (0 <= sendCreditBytes st)%Z.

(** No event of the history names the stream. *)
Definition no_history (s : nat) (tr : list event) : Prop :=
  opened s tr = [] /\ chunks_in s tr = [] /\ grants s tr = [] /\ chunks_out s tr = []
  /\ credits s tr = [].

Record winv (w : world) : Prop := {
  wi_streams : forall s st, w_streams w !! s = Some st -> stream_inv s st (w_trace w);
  wi_absent : forall s, w_streams w !! s = None -> no_history s (w_trace w);
  wi_next : forall s, w_next w <= s -> w_streams w !! s = None;
  wi_trackers : forall t tr, w_trackers w !! t = Some tr -> (0 <= maxInFlightBytes tr)%Z;
}.

(** What was accepted and not granted again. *)
Definition slack (s : nat) (w : world) : Z :=
  (zsum (chunks_in s (w_trace w)).*2 - zsum (grants s (w_trace w)))%Z.

Definition grows (w w' : world) : Prop :=
  forall s, is_Some (w_streams w !! s) -> is_Some (w_streams w' !! s).

Lemma grows_refl w : grows w w.
Proof. by intros s. Qed.
Lemma grows_trans w1 w2 w3 : grows w1 w2 -> grows w2 w3 -> grows w1 w3.
Proof. intros H1 H2 s Hs. auto. Qed.

(** The parts of a stream the invariant reads. *)
Definition core (st : DataPlaneRuntimeStream) : Z * Z * Z * Z :=
  (receiveOffset st, receiveCreditBytes st, sendOffset st, sendCreditBytes st).

(** Events outside the history. *)
Definition plain (e : event) : bool :=
  match e with
  | EvOpened _ _ _ | EvAccepted _ _ _ | EvGranted _ _ | EvCharged _ _ _ | EvCredited _ _ => false
  | _ => true
  end.

(** A step that leaves the windows and the history alone. *)
Record quiet (w w' : world) : Prop := {
  q_streams : forall s, core <$> w_streams w' !! s = core <$> w_streams w !! s;
  q_next : w_next w' = w_next w;
  q_trackers : forall t tr', w_trackers w' !! t = Some tr' ->
    exists tr, w_trackers w !! t = Some tr /\ maxInFlightBytes tr' = maxInFlightBytes tr;
  q_trace : exists es, w_trace w' = w_trace w ++ es /\ Forall (fun e => plain e = true) es;
}.

Lemma quiet_refl w : quiet w w.
Proof. split; try done; [by eauto | exists []; by rewrite app_nil_r]. Qed.

Lemma quiet_trans w1 w2 w3 : quiet w1 w2 -> quiet w2 w3 -> quiet w1 w3.
Proof.
  intros [S1 N1 T1 (es1 & E1 & F1)] [S2 N2 T2 (es2 & E2 & F2)]. split.
  - intros s. by rewrite S2, S1.
  - congruence.
  - intros t tr3 (tr2 & H2 & ->)%T2. destruct (T1 t tr2 H2) as (tr1 & ? & ->). eauto.
  - exists (es1 ++ es2). rewrite E2, E1, (assoc_L (++)). split; [done|]. by apply Forall_app.
Qed.

Lemma plain_hist s es :
  Forall (fun e => plain e = true) es -> no_history s es.
Proof.
  unfold no_history, opened, chunks_in, grants, chunks_out, credits.
  induction 1 as [|e es He _ (I1 & I2 & I3 & I4 & I5)]; [done|].
  by destruct e; cbn; rewrite ?I1, ?I2, ?I3, ?I4, ?I5.
Qed.

(** The history of an extended trace. *)
Lemma hist_app s tr es :
  opened s (tr ++ es) = opened s tr ++ opened s es
  /\ chunks_in s (tr ++ es) = chunks_in s tr ++ chunks_in s es
  /\ grants s (tr ++ es) = grants s tr ++ grants s es
  /\ chunks_out s (tr ++ es) = chunks_out s tr ++ chunks_out s es
  /\ credits s (tr ++ es) = credits s tr ++ credits s es.
Proof.
  unfold opened, chunks_in, grants, chunks_out, credits. rewrite !omap_app. done.
Qed.

Lemma hist_silent s tr es :
  no_history s es ->
  opened s (tr ++ es) = opened s tr /\ chunks_in s (tr ++ es) = chunks_in s tr
  /\ grants s (tr ++ es) = grants s tr /\ chunks_out s (tr ++ es) = chunks_out s tr
  /\ credits s (tr ++ es) = credits s tr.
Proof.
  intros (H1 & H2 & H3 & H4 & H5).
  destruct (hist_app s tr es) as (-> & -> & -> & -> & ->).
  by rewrite H1, H2, H3, H4, H5, !app_nil_r.
Qed.

Lemma stream_inv_silent s st st' tr es :
  no_history s es -> core st' = core st -> stream_inv s st tr -> stream_inv s st' (tr ++ es).
Proof.
  intros He Hc (rc & sc & H). exists rc, sc.
  destruct (hist_silent s tr es He) as (-> & -> & -> & -> & ->).
  injection Hc as -> -> -> ->. done.
Qed.

Lemma no_history_app s tr es : no_history s es -> no_history s tr -> no_history s (tr ++ es).
Proof.
  intros He Ht. destruct (hist_silent s tr es He) as (E1 & E2 & E3 & E4 & E5).
  unfold no_history. by rewrite E1, E2, E3, E4, E5.
Qed.

Lemma quiet_winv w w' : quiet w w' -> winv w -> winv w'.
Proof.
  intros [S N T (es & E & F)] [W1 W2 W3 W4]. split.
  - intros s st' H. specialize (S s). rewrite H in S. cbn in S. symmetry in S.
    apply fmap_Some in S as (st & Hst & Hc). rewrite E.
    apply (stream_inv_silent s st); [by apply plain_hist | done | by apply W1].
  - intros s H. specialize (S s). rewrite H in S. symmetry in S. apply fmap_None in S.
    rewrite E. apply no_history_app; [by apply plain_hist | by apply W2].
  - intros s Hs. rewrite N in Hs. specialize (S s). rewrite (W3 s Hs) in S.
    by apply fmap_None in S.
  - intros t tr' (tr & H & ->)%T. by eapply W4.
Qed.

Lemma quiet_slack s w w' : quiet w w' -> slack s w' = slack s w.
Proof.
  intros [_ _ _ (es & E & F)]. unfold slack. rewrite E.
  by destruct (hist_silent s (w_trace w) es (plain_hist s es F)) as (_ & -> & -> & _).
Qed.

Lemma quiet_grows w w' : quiet w w' -> grows w w'.
Proof.
  intros [S _ _ _] s. specialize (S s). rewrite <-!(fmap_is_Some core). by rewrite S.
Qed.

(** ** Quiet updates *)

Lemma quiet_log e w : plain e = true -> quiet w (log e w).
Proof.
  intros He. split; try done; [by eauto|]. exists [e]. split; [done | by repeat constructor].
Qed.

Lemma quiet_stream s f w : (forall st, core (f st) = core st) -> quiet w (upd_stream s f w).
Proof.
  intros Hf. split; try done.
  - intros s'. cbn. destruct (decide (s' = s)) as [->|].
    + rewrite lookup_alter_eq. destruct (w_streams w !! s); [|done]. cbn. by rewrite Hf.
    + by rewrite lookup_alter_ne.
  - by eauto.
  - exists []. by rewrite app_nil_r.
Qed.

Lemma quiet_tracker t f w :
  (forall tr, maxInFlightBytes (f tr) = maxInFlightBytes tr) -> quiet w (upd_tracker t f w).
Proof.
  intros Hf. split; try done.
  - intros t' tr'. cbn. destruct (decide (t' = t)) as [->|].
    + rewrite lookup_alter_eq. destruct (w_trackers w !! t) as [tr|]; [|done].
      cbn. intros [= <-]. eauto.
    + rewrite lookup_alter_ne by done. eauto.
  - exists []. by rewrite app_nil_r.
Qed.

Lemma quiet_sessions ss w : quiet w (set_w_sessions ss w).
Proof. split; try done; [by eauto | exists []; by rewrite app_nil_r]. Qed.

Lemma quiet_delete t w : quiet w (deleteDataPlaneSessionTrackerIfCurrent t w).2.
Proof.
  unfold deleteDataPlaneSessionTrackerIfCurrent.
  repeat case_match; cbn; auto using quiet_refl, quiet_sessions.
Qed.

Lemma quiet_db d w : quiet w (set_w_db d w).
Proof. split; try done; [by eauto | exists []; by rewrite app_nil_r]. Qed.

#[export] Hint Resolve quiet_refl quiet_log quiet_stream quiet_tracker quiet_sessions
  quiet_delete quiet_db : bud.

(** Programs all of whose updates are quiet. *)
Fixpoint quiet_prog {A} (p : prog A) : Prop :=
  match p with
  | Ret _ | Throw _ => True
  | Do f k => forall w, quiet w (f w) /\ quiet_prog (k w)
  | Pause k => quiet_prog k
  | Wait k => forall r, quiet_prog (k r)
  | DbCall _ k => forall r, quiet_prog (k r)
  end.

Lemma quiet_bind {A B} (p : prog A) (k : A -> prog B) :
  quiet_prog p -> (forall a, quiet_prog (k a)) -> quiet_prog (p ≫= k).
Proof.
  unfold mbind, prog_mbind. intros Hp Hk. induction p as [a|m|f c IH|c IH|c IH|st c IH]; cbn in *.
  - apply Hk.
  - done.
  - intros w. split; [apply Hp | apply IH, Hp].
  - by apply IH.
  - intros r. by apply IH.
  - intros r. by apply IH.
Qed.

Lemma quiet_try {A} (p : prog A) h :
  quiet_prog p -> (forall m, quiet_prog (h m)) -> quiet_prog (try_catch p h).
Proof.
  intros Hp Hh. induction p as [a|m|f c IH|c IH|c IH|st c IH]; cbn in *.
  - done.
  - apply Hh.
  - intros w. split; [apply Hp | apply IH, Hp].
  - by apply IH.
  - intros r. by apply IH.
  - intros r. by apply IH.
Qed.

Lemma quiet_awaiting {A} (p : prog A) : quiet_prog p -> quiet_prog (awaiting p).
Proof. intros Hp. by apply quiet_bind; [apply quiet_try|]. Qed.

Lemma quiet_finally {A} (p : prog A) f :
  quiet_prog p -> (forall w, quiet w (f w)) -> quiet_prog (try_finally p f).
Proof. intros Hp Hf. by apply quiet_bind; [apply quiet_try|]. Qed.

Lemma quiet_atomically f : (forall w, quiet w (f w)) -> quiet_prog (atomically f).
Proof. intros Hf w. by split. Qed.

Lemma quiet_read {A} (f : world -> A) : quiet_prog (read f).
Proof. intros w. split; [apply quiet_refl | done]. Qed.

Lemma quiet_await : quiet_prog await.
Proof. by intros []. Qed.

Lemma quiet_call b e : plain e = true -> quiet_prog (await_call b e).
Proof.
  intros He. destruct b; [|done]. apply quiet_bind; [|intros _; apply quiet_await].
  apply quiet_atomically. intros. by apply quiet_log.
Qed.

Lemma quiet_db_catch st : quiet_prog (db_catch st).
Proof. by intros r. Qed.

Lemma quiet_db_await st : quiet_prog (db_await st).
Proof. by intros []. Qed.

#[export] Hint Resolve quiet_awaiting quiet_atomically quiet_read quiet_await quiet_call
  quiet_db_catch quiet_db_await : bud.

Lemma quiet_sendFrame t f : quiet_prog (sendDataPlaneFrame t f).
Proof.
  apply quiet_bind; [apply quiet_read|]. intros trk. case_match; [|done].
  apply quiet_bind; [|intros _; apply quiet_await]. apply quiet_atomically.
  intros. by apply quiet_log.
Qed.

Lemma quiet_sendStreamReset t i r e : quiet_prog (sendStreamReset t i r e).
Proof. apply quiet_awaiting, quiet_sendFrame. Qed.

#[export] Hint Resolve quiet_sendFrame quiet_sendStreamReset : bud.

Lemma quiet_consumer_failed now dbnow ulid t tr st i m :
  quiet_prog (consumer_failed now dbnow ulid t tr st i m).
Proof. repeat (apply quiet_bind; [auto with bud | intros _]). auto with bud. Qed.

Lemma quiet_handleStreamReset now dbnow ulid t raw :
  quiet_prog (handleStreamReset now dbnow ulid t raw).
Proof.
  unfold handleStreamReset. destruct (parseStreamReset raw) as [f|]; [|done].
  apply quiet_bind; [apply quiet_read|]. intros trk.
  apply quiet_bind; [apply quiet_read|]. intros found. destruct trk as [tr|]; [|done].
  apply quiet_bind.
  - destruct found as [[s st]|]; [|done]. apply quiet_bind; [|auto with bud].
    apply quiet_atomically. intros. by apply quiet_stream.
  - intros _. apply quiet_bind; auto with bud.
Qed.

Lemma quiet_close_mismatch now dbnow ulid t s tr st f :
  quiet_prog (close_mismatch now dbnow ulid t s tr st f).
Proof.
  apply quiet_bind; [apply quiet_atomically; intros; by apply quiet_stream|]. intros _.
  apply quiet_bind; [by apply quiet_call|]. intros _.
  apply quiet_bind; [apply quiet_awaiting, quiet_try; auto with bud; done|]. intros _.
  apply quiet_bind; auto with bud.
Qed.

Lemma quiet_handleStreamClose now dbnow ulid t raw :
  quiet_prog (handleStreamClose now dbnow ulid t raw).
Proof.
  unfold handleStreamClose. destruct (parseStreamClose raw) as [f|]; [|done].
  apply quiet_bind; [apply quiet_read|]. intros trk.
  apply quiet_bind; [apply quiet_read|]. intros found. destruct trk as [tr|]; [|done].
  destruct found as [[s st]|].
  - case_match; [apply quiet_close_mismatch|].
    apply quiet_bind; [apply quiet_atomically; intros; by apply quiet_stream|]. intros _.
    apply quiet_bind; [by apply quiet_call|]. intros _.
    repeat (apply quiet_bind; [auto with bud | intros _]). auto with bud.
  - repeat (apply quiet_bind; [auto with bud | intros _]). auto with bud.
Qed.

Lemma quiet_reset_streams now dbnow ulid tr e ss :
  quiet_prog (reset_streams now dbnow ulid tr e ss).
Proof.
  induction ss as [|s ss IH]; [done|]. apply quiet_bind; [|done].
  apply quiet_bind; [apply quiet_read|]. intros [st|]; [|done]. case_match; [done|].
  apply quiet_bind; [apply quiet_atomically; intros; by apply quiet_stream|]. intros _.
  apply quiet_bind; [by apply quiet_try; [apply quiet_call|]|]. intros _.
  apply quiet_bind; auto with bud.
Qed.

Lemma quiet_finalize now dbnow ulid t reason drain del :
  quiet_prog (finalizeDataPlaneSessionTracker now dbnow ulid t reason drain del).
Proof.
  apply quiet_bind; [apply quiet_read|]. intros [tr|]; [|done]. case_match; [done|].
  apply quiet_bind; [apply quiet_atomically; intros; by apply quiet_tracker|]. intros _.
  apply quiet_finally; [|intros; by apply quiet_tracker].
  apply quiet_bind.
  { apply quiet_atomically. intros w.
    apply (quiet_trans _ (if drain then upd_tracker t (set_drainState (Some Draining)) w else w)).
    - destruct drain; [by apply quiet_tracker | apply quiet_refl].
    - destruct del; auto with bud. }
  intros _. apply quiet_bind.
  { apply quiet_awaiting, quiet_bind; [apply quiet_read|]. intros [tr'|]; [|done].
    apply quiet_bind; [apply quiet_reset_streams|]. intros _. apply quiet_atomically.
    intros. by apply quiet_tracker. }
  intros _. apply quiet_bind; [by apply quiet_call|]. intros _.
  apply quiet_bind; [repeat case_match; auto with bud; done|]. intros _.
  apply quiet_atomically. intros. by apply quiet_tracker.
Qed.

Lemma quiet_sendToBud c b d ty f : quiet_prog (sendDataPlaneFrameToBud c b d ty f;; Ret tt).
Proof.
  apply quiet_bind; [|done]. apply quiet_bind; [apply quiet_read|]. intros [[t tr]|]; [|done].
  apply quiet_bind; [auto with bud | done].
Qed.

(** ** A logic of debts *)

Section Debt.
Context (s : nat).

(** [wpa p w D Q]: the rest [p] of a segment, in world [w], keeps the invariant
    at each [await] and covers its debt: the slack minus the debt never falls
    below [D], its value when the segment started. *)
Fixpoint wpa {A} (p : prog A) (w : world) (D : Z) (Q : A + string -> world -> Z -> Prop) : Prop :=
  match p with
  | Ret a => Q (inl a) w D
  | Throw m => Q (inr m) w D
  | Do f k => grows w (f w) /\ wpa (k w) (f w) D Q
  | Pause k => winv w /\ exists o, (0 <= o)%Z /\ (D <= slack s w - o)%Z /\
      forall w', winv w' -> grows w w' -> wpa k w' (slack s w' - o) Q
  | Wait k => winv w /\ exists o, (0 <= o)%Z /\ (D <= slack s w - o)%Z /\
      forall w' r, winv w' -> grows w w' -> wpa (k r) w' (slack s w' - o) Q
  | DbCall _ k => winv w /\ exists o, (0 <= o)%Z /\ (D <= slack s w - o)%Z /\
      forall w' r, winv w' -> grows w w' -> wpa (k r) w' (slack s w' - o) Q
  end.

(** A task may end with its debt unpaid, never with more than it owed. *)
Definition settled {A} (_ : A + string) (w : world) (D : Z) : Prop :=
  winv w /\ (D <= slack s w)%Z.

Lemma wpa_mono {A} (p : prog A) w D (Q Q' : A + string -> world -> Z -> Prop) :
  (forall r w' D', Q r w' D' -> Q' r w' D') -> wpa p w D Q -> wpa p w D Q'.
Proof.
  intros HQ. revert w D. induction p as [a|m|f c IH|c IH|c IH|st c IH]; cbn; intros w D.
  - apply HQ.
  - apply HQ.
  - intros [? ?]. eauto.
  - intros (? & o & ? & ? & H). split; [done|]. exists o. eauto.
  - intros (? & o & ? & ? & H). split; [done|]. exists o. eauto.
  - intros (? & o & ? & ? & H). split; [done|]. exists o. eauto.
Qed.

Lemma wpa_bind {A B} (p : prog A) (k : A -> prog B) w D Q :
  wpa p w D (fun r w' D' => match r with
                            | inl a => wpa (k a) w' D' Q
                            | inr m => Q (inr m) w' D'
                            end) ->
  wpa (p ≫= k) w D Q.
Proof.
  unfold mbind, prog_mbind. revert w D.
  induction p as [a|m|f c IH|c IH|c IH|st c IH]; cbn; intros w D; try done.
  - intros [? ?]. eauto.
  - intros (? & o & ? & ? & H). split; [done|]. exists o. eauto.
  - intros (? & o & ? & ? & H). split; [done|]. exists o. eauto.
  - intros (? & o & ? & ? & H). split; [done|]. exists o. eauto.
Qed.

Lemma wpa_try {A} (p : prog A) h w D Q :
  wpa p w D (fun r w' D' => match r with
                            | inl a => Q (inl a) w' D'
                            | inr m => wpa (h m) w' D' Q
                            end) ->
  wpa (try_catch p h) w D Q.
Proof.
  revert w D. induction p as [a|m|f c IH|c IH|c IH|st c IH]; cbn; intros w D; try done.
  - intros [? ?]. eauto.
  - intros (? & o & ? & ? & H). split; [done|]. exists o. eauto.
  - intros (? & o & ? & ? & H). split; [done|]. exists o. eauto.
  - intros (? & o & ? & ? & H). split; [done|]. exists o. eauto.
Qed.

(** A quiet program carries any debt along. *)
Lemma wpa_quiet {A} (p : prog A) w D o Q :
  quiet_prog p -> winv w -> (0 <= o)%Z -> (D <= slack s w - o)%Z ->
  (forall r w' D', winv w' -> grows w w' -> (D' <= slack s w' - o)%Z -> Q r w' D') ->
  wpa p w D Q.
Proof.
  intros Hp Hw Ho. revert w D Hw.
  induction p as [a|m|f c IH|c IH|c IH|st c IH]; cbn in *; intros w D Hw HD HQ.
  - apply HQ; [done | apply grows_refl | done].
  - apply HQ; [done | apply grows_refl | done].
  - destruct (Hp w) as [Hq Hk]. split; [by apply quiet_grows|]. apply IH; [done| | |].
    + by eapply quiet_winv.
    + by rewrite (quiet_slack s w (f w)).
    + intros r w' D' ? ?. apply HQ; [done|]. eapply grows_trans; [|done]. by apply quiet_grows.
  - split; [done|]. exists o. split_and!; [done..|]. intros w' Hw' Hg. apply IH; [done..|].
    intros r w'' D' ? ?. apply HQ; [done|]. by eapply grows_trans.
  - split; [done|]. exists o. split_and!; [done..|]. intros w' r Hw' Hg. apply IH; [done..|].
    intros r' w'' D' ? ?. apply HQ; [done|]. by eapply grows_trans.
  - split; [done|]. exists o. split_and!; [done..|]. intros w' r Hw' Hg. apply IH; [done..|].
    intros r' w'' D' ? ?. apply HQ; [done|]. by eapply grows_trans.
Qed.

Lemma wpa_quiet_top {A} (p : prog A) w D o :
  quiet_prog p -> winv w -> (0 <= o)%Z -> (D <= slack s w - o)%Z -> wpa p w D settled.
Proof. intros. eapply wpa_quiet; [done..|]. intros r w' D' ? _ ?. split; [done | lia]. Qed.

(** A task at rest, with its debt. *)
Definition suspended (p : prog unit) (w : world) (o : Z) : Prop :=
  forall w', winv w' -> grows w w' ->
    match p with
    | Ret _ | Throw _ => True
    | Do _ _ => wpa p w' (slack s w' - o) settled
    | Pause k => wpa k w' (slack s w' - o) settled
    | Wait k => forall r, wpa (k r) w' (slack s w' - o) settled
    | DbCall _ k => forall r, wpa (k r) w' (slack s w' - o) settled
    end.

Lemma suspended_grows p w w' o : grows w w' -> suspended p w o -> suspended p w' o.
Proof. intros Hg Hs w'' Hw Hg'. apply Hs; [done|]. by eapply grows_trans. Qed.

(** Running a segment to its end. *)
Lemma advance_spec (p : prog unit) w D :
  wpa p w D settled ->
  let '(w', p') := advance p w in
  winv w' /\ grows w w' /\ exists o, (0 <= o)%Z /\ (D <= slack s w' - o)%Z /\ suspended p' w' o.
Proof.
  revert w. induction p as [a|m|f c IH|c IH|c IH|st c IH]; cbn [advance wpa]; intros w.
  - intros [Hw HD]. split_and!; [done | apply grows_refl|]. exists 0%Z.
    split_and!; [done | lia | done].
  - intros [Hw HD]. split_and!; [done | apply grows_refl|]. exists 0%Z.
    split_and!; [done | lia | done].
  - intros [Hg Hk%IH]. destruct (advance (c w) (f w)) as [w' p'].
    destruct Hk as (? & ? & ?). split_and!; [done | by eapply grows_trans | done].
  - intros (? & o & ? & ? & H). split_and!; [done | apply grows_refl|]. exists o.
    split_and!; [done..|]. intros w' ? ?. by apply H.
  - intros (? & o & ? & ? & H). split_and!; [done | apply grows_refl|]. exists o.
    split_and!; [done..|]. intros w' ? ? r. by apply H.
  - intros (? & o & ? & ? & H). split_and!; [done | apply grows_refl|]. exists o.
    split_and!; [done..|]. intros w' ? ? r. by apply H.
Qed.

Lemma resume_spec r p w o :
  winv w -> (0 <= o)%Z -> suspended p w o ->
  let '(w', p') := resume r p w in
  winv w' /\ grows w w'
  /\ exists o', (0 <= o')%Z /\ (slack s w - o <= slack s w' - o')%Z /\ suspended p' w' o'.
Proof.
  intros Hw Ho Hs. pose proof (Hs w Hw (grows_refl w)) as H.
  destruct p as [a|m|f c|c|c|st c]; cbn [resume].
  - split_and!; [done | apply grows_refl|]. by exists o.
  - split_and!; [done | apply grows_refl|]. by exists o.
  - by apply advance_spec.
  - by apply advance_spec.
  - by apply advance_spec.
  - destruct r as [|m]; [|by apply advance_spec].
    destruct (st (w_db w)) as [m|[] d]; [by apply advance_spec|].
    pose proof (quiet_db d w) as Hq.
    assert (Hw' : winv (set_w_db d w)) by (by eapply quiet_winv).
    pose proof (Hs _ Hw' (quiet_grows _ _ Hq) ROk) as H'.
    apply advance_spec in H'. destruct (advance (c ROk) (set_w_db d w)) as [w' p'].
    destruct H' as (? & ? & ?). rewrite (quiet_slack s w _ Hq) in *.
    split_and!; [done | by eapply grows_trans; [apply quiet_grows|] | done].
Qed.
End Debt.

(** ** The four updates of the windows *)

(** An update of one stream with one event of its history. *)
Lemma winv_stream_event s e f w st :
  winv w -> w_streams w !! s = Some st ->
  (forall s', s' <> s -> no_history s' [e]) ->
  stream_inv s (f st) (w_trace w ++ [e]) ->
  winv (log e (upd_stream s f w)) /\ grows w (log e (upd_stream s f w)).
Proof.
  intros [W1 W2 W3 W4] E He Hst. split; [split; cbn|].
  - intros s' st'. destruct (decide (s' = s)) as [->|Hne].
    + rewrite lookup_alter_eq, E. by intros [= <-].
    + rewrite lookup_alter_ne by done. intros H.
      apply (stream_inv_silent s' st'); [by apply He | done | by apply W1].
  - intros s'. destruct (decide (s' = s)) as [->|Hne].
    + by rewrite lookup_alter_eq, E.
    + rewrite lookup_alter_ne by done. intros H. apply no_history_app; [by apply He | by apply W2].
  - intros s' Hs'. rewrite lookup_alter_ne; [by apply W3|]. intros ->.
    by rewrite (W3 _ Hs') in E.
  - done.
  - intros s' Hs'. cbn. destruct (decide (s' = s)) as [->|Hne].
    + rewrite lookup_alter_eq, E. by eexists.
    + by rewrite lookup_alter_ne.
Qed.

Lemma slack_log s e w :
  slack s (log e w) = (slack s w + zsum (chunks_in s [e]).*2 - zsum (grants s [e]))%Z.
Proof.
  unfold slack. cbn [log w_trace set_w_trace].
  destruct (hist_app s (w_trace w) [e]) as (_ & -> & -> & _).
  rewrite fmap_app, !zsum_app. lia.
Qed.

Ltac other_stream :=
  intros; unfold no_history, opened, chunks_in, grants, chunks_out, credits; cbn;
  rewrite ?decide_False by congruence; done.

(** Unfold the history of a trace that ends with a known event. *)
Ltac hist_end s tr e :=
  destruct (hist_app s tr [e]) as (-> & -> & -> & -> & ->);
  unfold opened at 2, chunks_in at 2, grants at 2, chunks_out at 2, credits at 2;
  cbn [omap list_omap]; rewrite ?decide_True by done; rewrite ?app_nil_r.

Lemma accept_winv s st st' off n w :
  winv w -> w_streams w !! s = Some st -> (0 <= n)%Z ->
  recordDataPlaneInboundChunk st off n = inr st' ->
  winv (log (EvAccepted s off n) (upd_stream s (fun _ => st') w))
  /\ grows w (log (EvAccepted s off n) (upd_stream s (fun _ => st') w)).
Proof.
  intros Hw E Hn Hr. apply (winv_stream_event s _ _ _ st); [done|done|other_stream|].
  destruct (wi_streams w Hw s st E) as (rc & sc & H1 & H2 & H3 & H4 & H5 & H6 & H7).
  unfold recordDataPlaneInboundChunk in Hr. split_cases. zbool. subst off.
  exists rc, sc. hist_end s (w_trace w) (EvAccepted s (receiveOffset st) n).
  cbn. split_and!; try done; try lia. by apply contiguous_snoc.
Qed.

Lemma grant_winv s n w :
  winv w -> is_Some (w_streams w !! s) -> (0 <= n)%Z ->
  winv (log (EvGranted s n) (upd_stream s (grantDataPlaneReceiveCredit n) w))
  /\ grows w (log (EvGranted s n) (upd_stream s (grantDataPlaneReceiveCredit n) w)).
Proof.
  intros Hw [st E] Hn. apply (winv_stream_event s _ _ _ st); [done|done|other_stream|].
  destruct (wi_streams w Hw s st E) as (rc & sc & H1 & H2 & H3 & H4 & H5 & H6 & H7).
  exists rc, sc. hist_end s (w_trace w) (EvGranted s n).
  cbn. rewrite zsum_app. cbn. split_and!; try done; lia.
Qed.

Definition charge (n : Z) (fin : bool) (st : DataPlaneRuntimeStream) : DataPlaneRuntimeStream :=
  let st := set_sendCreditBytes (sendCreditBytes st - n) (set_sendOffset (sendOffset st + n) st) in
  if fin then set_localClosed true st else st.

Lemma charge_winv s st n fin w :
  winv w -> w_streams w !! s = Some st -> (0 <= n)%Z -> (n <= sendCreditBytes st)%Z ->
  winv (log (EvCharged s (sendOffset st) n) (upd_stream s (charge n fin) w))
  /\ grows w (log (EvCharged s (sendOffset st) n) (upd_stream s (charge n fin) w)).
Proof.
  intros Hw E Hn Hc. apply (winv_stream_event s _ _ _ st); [done|done|other_stream|].
  destruct (wi_streams w Hw s st E) as (rc & sc & H1 & H2 & H3 & H4 & H5 & H6 & H7).
  exists rc, sc. hist_end s (w_trace w) (EvCharged s (sendOffset st) n).
  destruct fin; cbn; (split_and!; try done; try lia; by apply contiguous_snoc).
Qed.

Lemma credit_winv s ro n cap w :
  winv w -> is_Some (w_streams w !! s) -> (0 <= n)%Z -> (0 <= cap)%Z ->
  let f st := let st := recordDataPlaneOutboundCredit ro n st in
              set_sendCreditBytes (Z.min (sendCreditBytes st) cap) st in
  winv (log (EvCredited s n) (upd_stream s f w))
  /\ grows w (log (EvCredited s n) (upd_stream s f w)).
Proof.
  intros Hw [st E] Hn Hcap f. apply (winv_stream_event s _ _ _ st); [done|done|other_stream|].
  destruct (wi_streams w Hw s st E) as (rc & sc & H1 & H2 & H3 & H4 & H5 & H6 & H7).
  exists rc, sc. hist_end s (w_trace w) (EvCredited s n).
  cbn. rewrite zsum_app. cbn. split_and!; try done; lia.
Qed.

Lemma open_winv t i ty rc sc d r c w :
  winv w -> (0 <= rc)%Z -> (0 <= sc ?? 0)%Z ->
  let w' := (registerDataPlaneRuntimeStream t i ty rc sc d r c w).2 in
  winv w' /\ grows w w' /\ forall s, slack s w' = slack s w.
Proof.
  intros Hw Hr Hs. unfold registerDataPlaneRuntimeStream.
  case_match; [cbn; split_and!; try done; apply grows_refl|]. cbn [snd].
  set (w1 := set_w_next _ _). set (e := EvOpened _ _ _).
  assert (Hnone : w_streams w !! w_next w = None) by (apply (wi_next w Hw); lia).
  split_and!.
  - destruct Hw as [W1 W2 W3 W4]. split; cbn.
    + intros s' st'. destruct (decide (s' = w_next w)) as [->|Hne].
      * rewrite lookup_insert_eq. intros [= <-].
        destruct (W2 _ Hnone) as (N1 & N2 & N3 & N4 & N5). exists rc, (sc ?? 0%Z).
        subst e. hist_end (w_next w) (w_trace w) (EvOpened (w_next w) rc (sc ?? 0%Z)).
        rewrite N1, N2, N3, N4, N5. cbn. split_and!; try done; lia.
      * rewrite lookup_insert_ne by done. intros H'.
        apply (stream_inv_silent s' st'); [other_stream | done | by apply W1].
    + intros s'. destruct (decide (s' = w_next w)) as [->|Hne].
      * by rewrite lookup_insert_eq.
      * rewrite lookup_insert_ne by done. intros H'. apply no_history_app; [other_stream|].
        by apply W2.
    + intros s' Hs'. rewrite lookup_insert_ne by lia. apply W3. lia.
    + intros t' tr'. cbn. destruct (decide (t' = t)) as [->|].
      * rewrite lookup_alter_eq. intros (tr & E & ->)%fmap_Some. cbn. exact (W4 t tr E).
      * rewrite lookup_alter_ne by done. apply W4.
  - intros s' Hs'. cbn. destruct (decide (s' = w_next w)) as [->|Hne].
    + rewrite lookup_insert_eq. by eexists.
    + by rewrite lookup_insert_ne.
  - intros s'. rewrite slack_log. transitivity (slack s' w + 0 - 0)%Z; [done | lia].
Qed.

(** ** Every task keeps the invariant *)

Section Tasks.
Context (s : nat).

Lemma wpa_read {A B} (f : world -> A) (k : A -> prog B) w D Q :
  wpa s (k (f w)) w D Q -> wpa s (read f ≫= k) w D Q.
Proof. intros H. split; [apply grows_refl | exact H]. Qed.

Lemma wpa_atomically {B} f (k : unit -> prog B) w D Q :
  grows w (f w) -> wpa s (k tt) (f w) D Q -> wpa s (atomically f ≫= k) w D Q.
Proof. by split. Qed.

Definition task_ok (p : prog unit) : Prop :=
  forall w, winv w -> wpa s p w (slack s w) (settled s).

Lemma quiet_task_ok p : quiet_prog p -> task_ok p.
Proof. intros Hp w Hw. apply (wpa_quiet_top s p w _ 0); [done | done | lia | lia]. Qed.

Lemma lookup_stream_Some t i w s0 st :
  lookup_stream t i w = Some (s0, st) -> w_streams w !! s0 = Some st.
Proof.
  unfold lookup_stream. destruct (getDataPlaneRuntimeStream t i w) as [s1|]; [|done].
  destruct (w_streams w !! s1) eqn:E; cbn; [|done]. by intros [= <- <-].
Qed.

(** Granting pays the debt of the chunk. *)
Lemma after_consumed_ok t s0 n fin w D :
  winv w -> is_Some (w_streams w !! s0) -> (0 <= n)%Z ->
  (D <= slack s w - (if decide (s0 = s) then n else 0))%Z ->
  wpa s (after_consumed t s0 n fin) w D (settled s).
Proof.
  intros Hw Hs Hn HD. destruct (grant_winv s0 n w Hw Hs Hn) as [Hw' Hg].
  apply wpa_atomically; [done|]. set (w' := log _ _) in *.
  apply (wpa_quiet_top s _ _ _ 0); [|done|lia|].
  - apply quiet_bind; [apply quiet_read|]. intros [st|]; [|done].
    apply quiet_bind; [auto with bud|]. intros _. destruct fin; [|done].
    apply quiet_bind; [apply quiet_atomically; intros; by apply quiet_stream|]. intros _.
    apply quiet_bind; [apply quiet_read|]. intros [st'|]; [|done].
    apply quiet_bind; [by apply quiet_call|]. intros _.
    apply quiet_bind; [apply quiet_read|]. intros [st''|]; [|done]. auto with bud.
  - subst w'. rewrite slack_log. unfold chunks_in, grants. cbn.
    change (slack s (upd_stream s0 (grantDataPlaneReceiveCredit n) w)) with (slack s w).
    revert HD. case_decide; cbn; lia.
Qed.

Lemma handleStreamData_ok now dbnow ulid t raw :
  task_ok (handleStreamData now dbnow ulid t raw).
Proof.
  intros w Hw. unfold handleStreamData. destruct (parseStreamDataFrame raw) as [f|];
    [|by split; [done|lia]].
  apply wpa_read. apply wpa_read.
  destruct (w_trackers w !! t) as [tr|] eqn:Et;
    [|by apply (wpa_quiet_top s _ _ _ 0); auto with bud; lia].
  destruct (lookup_stream t (sdf_stream_id f) w) as [[s0 st]|] eqn:El;
    [|by apply (wpa_quiet_top s _ _ _ 0); auto with bud; lia].
  apply lookup_stream_Some in El.
  case_match; [by apply (wpa_quiet_top s _ _ _ 0); auto with bud; lia|].
  case_match; [by apply (wpa_quiet_top s _ _ _ 0); auto with bud; lia|].
  set (n := zlen (Base64.decode (sdf_data f))) in *.
  assert (Hn : (0 <= n)%Z) by apply zlen_nonneg.
  destruct (recordDataPlaneInboundChunk st (sdf_offset f) n) as [[code msg]|st'] eqn:Er;
    [by apply (wpa_quiet_top s _ _ _ 0); auto with bud; lia|].
  destruct (accept_winv s0 st st' (sdf_offset f) n w Hw El Hn Er) as [Hw1 Hg1].
  set (g := fun tr => set_bytesReceived _ _).
  set (w1 := log (EvAccepted s0 (sdf_offset f) n) (upd_stream s0 (fun _ => st') w)) in *.
  assert (Hq : quiet w1 (upd_tracker t g w1)) by (by apply quiet_tracker).
  apply wpa_atomically; [by eapply grows_trans; [exact Hg1|]; apply quiet_grows, Hq|].
  change (log _ (upd_tracker t g (upd_stream s0 _ w))) with (upd_tracker t g w1).
  set (w2 := upd_tracker t g w1) in *.
  assert (Hw2 : winv w2) by (by eapply quiet_winv).
  assert (Hs2 : is_Some (w_streams w2 !! s0)).
  { apply (quiet_grows _ _ Hq), Hg1. by eexists. }
  set (o := (if decide (s0 = s) then n else 0)%Z).
  assert (Ho : (0 <= o)%Z) by (subst o; destruct (decide (s0 = s)); [exact Hn | done]).
  assert (Hslack : (slack s w2 - o = slack s w)%Z).
  { rewrite (quiet_slack s w1 w2 Hq). subst w1 o. rewrite slack_log. unfold chunks_in, grants. cbn.
    change (slack s (upd_stream s0 (fun _ => st') w)) with (slack s w). case_decide; cbn; lia. }
  apply wpa_bind. apply wpa_try.
  eapply (wpa_quiet s _ _ _ o); [|done|done|lia|].
  - apply quiet_bind; [by apply quiet_call | done].
  - intros r w3 D3 Hw3 Hg3 HD3. destruct r as [r|m].
    + destruct r as [m|]; cbv beta iota.
      * apply (wpa_quiet_top s _ _ _ 0); [apply quiet_consumer_failed | done | lia | lia].
      * apply after_consumed_ok; [done | by apply Hg3 | done | done].
    + cbn [wpa]. apply (wpa_quiet_top s _ _ _ 0); [apply quiet_consumer_failed | done | lia | lia].
Qed.

Lemma safe_nonneg_ge v z : safe_nonneg v = Some z -> (0 <= z)%Z.
Proof. unfold safe_nonneg. intros. split_cases. zbool. lia. Qed.

Lemma handleStreamCredit_ok t raw : task_ok (handleStreamCredit t raw).
Proof.
  intros w Hw. unfold handleStreamCredit. destruct (parseStreamCredit raw) as [f|] eqn:Ep;
    [|by split; [done|lia]].
  assert (Hc : (0 <= scf_credit_bytes f)%Z).
  { unfold parseStreamCredit, guard_env in Ep. split_cases.
    repeat (apply bind_Some in Ep as (? & ? & Ep)). simplify_eq. cbn.
    by eapply safe_nonneg_ge. }
  apply wpa_read. apply wpa_read.
  destruct (w_trackers w !! t) as [tr|] eqn:Et; [|by split; [done|lia]].
  destruct (lookup_stream t (scf_stream_id f) w) as [[s0 st]|] eqn:El; [|by split; [done|lia]].
  apply lookup_stream_Some in El.
  destruct (credit_winv s0 (scf_receive_offset f) (scf_credit_bytes f) (maxInFlightBytes tr) w Hw
    (mk_is_Some _ _ El) Hc (wi_trackers w Hw t tr Et)) as [Hw' Hg].
  split; [done|]. split; [done|]. rewrite slack_log. unfold chunks_in, grants. cbn.
  match goal with |- (_ <= slack s ?x + _ - _)%Z => change (slack s x) with (slack s w) end. lia.
Qed.

Lemma sendDataPlaneStreamData_ok t i data fin mx :
  task_ok (sendDataPlaneStreamData t i data fin mx).
Proof.
  intros w Hw. unfold sendDataPlaneStreamData. apply wpa_read.
  destruct (lookup_stream t i w) as [[s0 st]|] eqn:El; [|by split; [done|lia]].
  apply lookup_stream_Some in El.
  case_match; [by split; [done|lia]|]. case_match; [by split; [done|lia]|].
  case_match eqn:Hc; [by split; [done|lia]|]. zbool.
  destruct (charge_winv s0 st (zlen data) fin w Hw El (zlen_nonneg data)) as [Hw' Hg]; [lia|].
  apply wpa_atomically; [done|]. apply (wpa_quiet_top s _ _ _ 0); [auto with bud|done|lia|].
  rewrite slack_log. unfold chunks_in, grants. cbn.
  match goal with |- (_ <= slack s ?x + _ - _ - _)%Z => change (slack s x) with (slack s w) end. lia.
Qed.

Lemma dispatch_ok now dbnow ulid t raw :
  task_ok (dispatchDataPlaneStreamFrame now dbnow ulid t raw).
Proof.
  unfold dispatchDataPlaneStreamFrame. destruct (raw_type raw) as [ty|]; [|by apply quiet_task_ok].
  case_bool_decide; [apply handleStreamData_ok|].
  case_bool_decide; [apply handleStreamCredit_ok|].
  case_bool_decide; [apply quiet_task_ok, quiet_handleStreamReset|].
  case_bool_decide; [apply quiet_task_ok, quiet_handleStreamClose|]. by apply quiet_task_ok.
Qed.

Lemma env_task_ok p : env_task p -> task_ok p.
Proof.
  destruct 1.
  - apply sendDataPlaneStreamData_ok.
  - apply quiet_task_ok, quiet_sendToBud.
  - apply quiet_task_ok, quiet_finalize.
Qed.
End Tasks.

(** ** The running system *)

Section System.
Context (s : nat).

(** The tasks' debts are covered by [D]. *)
Definition covered (l : list (prog unit)) (w : world) (D : Z) : Prop :=
  exists ds, Forall2 (fun p o => (0 <= o)%Z /\ suspended s p w o) l ds /\ (zsum ds <= D)%Z.

Lemma covered_perm l l' w D : l ≡ₚ l' -> covered l w D -> covered l' w D.
Proof.
  intros Hp (ds & Hf & Hs). destruct (Permutation_Forall2 Hp Hf) as (ds' & Hd & Hf').
  exists ds'. split; [done|]. by rewrite <-Hd.
Qed.

Lemma covered_cons p l w D :
  covered (p :: l) w D <->
  exists o, (0 <= o)%Z /\ suspended s p w o /\ covered l w (D - o).
Proof.
  split.
  - intros (ds & Hf & Hs). apply Forall2_cons_inv_l in Hf as (o & ds' & [? ?] & Hf & ->).
    exists o. split_and!; [done..|]. exists ds'. cbn in Hs. split; [done | lia].
  - intros (o & ? & ? & ds & Hf & Hs). exists (o :: ds). split; [by constructor | cbn; lia].
Qed.

Lemma covered_later l w w' D D' :
  grows w w' -> (D <= D')%Z -> covered l w D -> covered l w' D'.
Proof.
  intros Hg HD (ds & Hf & Hs). exists ds. split; [|lia].
  eapply Forall2_impl; [exact Hf|]. intros p o [? ?]. split; [done|]. by eapply suspended_grows.
Qed.

Lemma covered_nonneg l w D : covered l w D -> (0 <= D)%Z.
Proof.
  intros (ds & Hf & Hs). assert (0 <= zsum ds)%Z; [|lia]. apply zsum_nonneg.
  induction Hf as [|p o l ds [? _] _ IH]; constructor; [done | apply IH]. cbn in Hs. lia.
Qed.

Definition all_tasks (y : sys) : list (prog unit) :=
  mjoin (JsMap.values (sy_queues y)) ++ sy_tasks y.

Definition sys_inv (y : sys) : Prop :=
  winv (sy_world y) /\ JsMap.wf (sy_queues y)
  /\ covered (all_tasks y) (sy_world y) (slack s (sy_world y)).

(** The tasks with one queue singled out. *)
Lemma queue_perm (key : nat * string) (l : list (prog unit)) qs ts :
  JsMap.wf qs -> JsMap.get key qs = Some l ->
  mjoin (JsMap.values qs) ++ ts
  ≡ₚ l ++ mjoin (JsMap.values (JsMap.delete key qs)) ++ ts.
Proof.
  intros Hwf E. rewrite (assoc_L (++)). apply Permutation_app_tail.
  unfold JsMap.values. pose proof (JsMap.get_perm key l qs Hwf E) as Hp.
  apply (fmap_Permutation snd) in Hp. cbn in Hp. rewrite Hp. done.
Qed.

Lemma queue_set_perm (key : nat * string) (l : list (prog unit)) qs ts :
  JsMap.wf qs ->
  mjoin (JsMap.values (JsMap.set key l qs)) ++ ts
  ≡ₚ l ++ mjoin (JsMap.values (JsMap.delete key qs)) ++ ts.
Proof.
  intros Hwf. rewrite (assoc_L (++)). apply Permutation_app_tail.
  unfold JsMap.values. pose proof (JsMap.set_perm key l qs Hwf) as Hp.
  apply (fmap_Permutation snd) in Hp. cbn in Hp. rewrite Hp. done.
Qed.

(** One task of the system runs a segment. *)
Lemma covered_resume r p l w w' p' :
  winv w -> covered (p :: l) w (slack s w) -> resume r p w = (w', p') ->
  winv w' /\ covered (p' :: l) w' (slack s w').
Proof.
  intros Hw (o & Ho & Hs & Hc)%covered_cons E.
  pose proof (resume_spec s r p w o Hw Ho Hs) as H. rewrite E in H.
  destruct H as (Hw' & Hg & o' & Ho' & Hle & Hs'). split; [done|]. apply covered_cons.
  exists o'. split_and!; [done..|]. eapply covered_later; [done| |done]. lia.
Qed.

(** A started task joins the system. *)
Lemma covered_spawn p l w :
  task_ok s p -> winv w -> covered l w (slack s w) ->
  let '(w', p') := advance p w in winv w' /\ covered (p' :: l) w' (slack s w').
Proof.
  intros Hp Hw Hc. pose proof (advance_spec s p w (slack s w) (Hp w Hw)) as H.
  destruct (advance p w) as [w' p']. destruct H as (Hw' & Hg & o & Ho & Hle & Hs).
  split; [done|]. apply covered_cons. exists o. split_and!; [done..|].
  eapply covered_later; [done| |done]. lia.
Qed.

(** A handler that waits in a queue has no debt yet. *)
Lemma task_suspended p w : task_ok s p -> suspended s p w 0.
Proof.
  intros Hp w' Hw' _. specialize (Hp w' Hw'). revert Hp.
  replace (slack s w' - 0)%Z with (slack s w') by lia.
  destruct p as [a|m|f c|c|c|st c]; cbn [wpa]; try done.
  - intros (_ & o & Ho & HD & H). assert (o = 0%Z) as -> by lia.
    replace (slack s w') with (slack s w' - 0)%Z by lia. apply H; [done | apply grows_refl].
  - intros (_ & o & Ho & HD & H) r. assert (o = 0%Z) as -> by lia.
    replace (slack s w') with (slack s w' - 0)%Z by lia. apply H; [done | apply grows_refl].
  - intros (_ & o & Ho & HD & H) r. assert (o = 0%Z) as -> by lia.
    replace (slack s w') with (slack s w' - 0)%Z by lia. apply H; [done | apply grows_refl].
Qed.

Lemma spawn_inv p y : task_ok s p -> sys_inv y -> sys_inv (spawn p y).
Proof.
  intros Hp (Hw & Hq & Hc). unfold spawn.
  pose proof (covered_spawn p _ _ Hp Hw Hc) as H.
  destruct (advance p (sy_world y)) as [w' p']. destruct H as [Hw' Hc'].
  split_and!; [done | done|]. eapply covered_perm; [|exact Hc'].
  unfold all_tasks. cbn [sy_queues sy_tasks]. rewrite (assoc_L (++)). by rewrite Permutation_cons_append.
Qed.

Lemma enqueue_inv t i p y :
  task_ok s p -> sys_inv y -> sys_inv (enqueueDataPlaneStreamFrame t i p y).
Proof.
  intros Hp (Hw & Hq & Hc). unfold enqueueDataPlaneStreamFrame, queue_of. split_and!; cbn [sy_world sy_queues sy_tasks].
  - done.
  - by apply JsMap.wf_set.
  - assert (Hc1 : covered (p :: all_tasks y) (sy_world y) (slack s (sy_world y))).
    { apply covered_cons. exists 0%Z. split_and!; [done | by apply task_suspended|].
      by replace (slack s (sy_world y) - 0)%Z with (slack s (sy_world y)) by lia. }
    eapply covered_perm; [|exact Hc1]. unfold all_tasks. cbn [sy_queues sy_tasks].
    rewrite queue_set_perm by done.
    destruct (JsMap.get (t, i) (sy_queues y)) as [l|] eqn:E; cbn.
    + rewrite (queue_perm _ _ _ _ Hq E), <-(assoc_L (++)). cbn. by rewrite Permutation_middle.
    + rewrite JsMap.delete_notin; [done|]. by apply JsMap.get_None_keys.
Qed.

Lemma env_op_inv w w' :
  env_op w w' -> winv w -> winv w' /\ grows w w' /\ slack s w' = slack s w.
Proof.
  destruct 1 as [t i ty rc sc d r c w ? ?|t w|t w|t tr w ?]; intros Hw.
  - destruct (open_winv t i ty rc sc d r c w) as (? & ? & ?); auto.
  - unfold registerActiveDataPlaneSessionTracker. case_match; cbn; [|by auto using grows_refl].
    pose proof (quiet_sessions (JsMap.set (tracker_key d) t (w_sessions w)) w) as Hq.
    split_and!; [by eapply quiet_winv | by apply quiet_grows | by apply quiet_slack].
  - pose proof (quiet_delete t w) as Hq.
    split_and!; [by eapply quiet_winv | by apply quiet_grows | by apply quiet_slack].
  - split_and!; [|by intros s' | done]. destruct Hw as [W1 W2 W3 W4]. split; cbn; try done.
    intros t' tr'. destruct (decide (t' = t)) as [->|].
    + rewrite lookup_insert_eq. by intros [= <-].
    + rewrite lookup_insert_ne by done. apply W4.
Qed.

Lemma sys_step_inv y y' : sys_inv y -> sys_step y y' -> sys_inv y'.
Proof.
  intros Hy Hst. destruct Hst as [now dbnow ulid t raw y|p y Hp|w qs ts w' He
    |key p rest r w qs ts w' p' Eq Er|key p rest w qs ts Eq Ef|ts1 p ts2 r w qs w' p' Er].
  - unfold handleDataPlaneStreamFrame. destruct (raw_stream_id raw) as [i|]; [case_match|].
    + apply enqueue_inv; [apply dispatch_ok | done].
    + apply spawn_inv; [apply dispatch_ok | done].
    + apply spawn_inv; [apply dispatch_ok | done].
  - apply spawn_inv; [by apply env_task_ok | done].
  - destruct Hy as (Hw & Hq & Hc). destruct (env_op_inv w w' He Hw) as (? & Hg & Hs).
    split_and!; [done|done|]. cbn in *. eapply covered_later; [exact Hg| |exact Hc]. lia.
  - destruct Hy as (Hw & Hq & Hc). cbn [sy_world sy_queues sy_tasks] in *.
    assert (Hc1 : covered (p :: rest ++ mjoin (JsMap.values (JsMap.delete key qs)) ++ ts) w (slack s w)).
    { eapply covered_perm; [|exact Hc]. unfold all_tasks. cbn [sy_queues sy_tasks]. by rewrite (queue_perm _ _ _ _ Hq Eq). }
    destruct (covered_resume r p _ w w' p' Hw Hc1 Er) as [Hw' Hc'].
    split_and!; [done | by apply JsMap.wf_set|]. cbn [sy_world]. eapply covered_perm; [|exact Hc'].
    unfold all_tasks. cbn [sy_queues sy_tasks]. by rewrite queue_set_perm.
  - destruct Hy as (Hw & Hq & Hc). cbn [sy_world sy_queues sy_tasks] in *.
    assert (Hc1 : covered (p :: rest ++ mjoin (JsMap.values (JsMap.delete key qs)) ++ ts) w (slack s w)).
    { eapply covered_perm; [|exact Hc]. unfold all_tasks. cbn [sy_queues sy_tasks]. by rewrite (queue_perm _ _ _ _ Hq Eq). }
    apply covered_cons in Hc1 as (o & Ho & _ & Hc1).
    split_and!; [done | cbn [sy_queues]; case_bool_decide; [by apply JsMap.wf_delete | by apply JsMap.wf_set]|]. cbn [sy_world].
    eapply covered_later; [apply grows_refl| |eapply covered_perm; [|exact Hc1]]; [lia|].
    unfold all_tasks. cbn [sy_queues sy_tasks]. case_bool_decide; [by subst rest|]. by rewrite queue_set_perm.
  - destruct Hy as (Hw & Hq & Hc). cbn [sy_world sy_queues sy_tasks] in *.
    assert (Hc1 : covered (p :: mjoin (JsMap.values qs) ++ ts1 ++ ts2) w (slack s w)).
    { eapply covered_perm; [|exact Hc]. unfold all_tasks. cbn [sy_queues sy_tasks]. by rewrite !(assoc_L (++)), Permutation_middle. }
    destruct (covered_resume r p _ w w' p' Hw Hc1 Er) as [Hw' Hc'].
    split_and!; [done | done|]. cbn [sy_world]. eapply covered_perm; [|exact Hc'].
    unfold all_tasks. cbn [sy_queues sy_tasks]. by rewrite !(assoc_L (++)), Permutation_middle.
Qed.

Lemma init_inv : sys_inv init_sys.
Proof.
  split_and!.
  - by split.
  - apply JsMap.wf_empty.
  - exists []. split; [constructor | done].
Qed.

Lemma reachable_sys_inv y : sys_steps init_sys y -> sys_inv y.
Proof. induction 1; [apply init_inv | by eapply sys_step_inv]. Qed.
End System.

(** ** Properties *)


(** ** A run *)

(** The first handler of a queue goes on. *)
Definition run_queue (key : nat * string) (r : result) (y : sys) : sys :=
  match JsMap.get key (sy_queues y) with
  | Some (p :: rest) =>
      let '(w, p) := resume r p (sy_world y) in
      mkSys w (JsMap.set key (p :: rest) (sy_queues y)) (sy_tasks y)
  | _ => y
  end.

Lemma run_queue_steps key r y y0 : sys_steps y0 y -> sys_steps y0 (run_queue key r y).
Proof.
  intros H. unfold run_queue. destruct (JsMap.get key (sy_queues y)) as [[|p rest]|] eqn:E; try done.
  destruct (resume r p (sy_world y)) as [w p'] eqn:Er. eapply sys_more; [exact H|].
  destruct y as [w0 qs ts]. by eapply SQueue.
Qed.

Definition demo_tracker : DataPlaneSessionTracker :=
  mkTracker "bud1" "ds1" None None DWebsocket RoleControlData None false false None ["file"]
    0 0 [] 1024 8 64 true false.

(** A carrier connects, a file stream opens with a window of 8 bytes, a chunk of
    three bytes arrives and is consumed. *)
Definition demo_frame : jsval :=
  JObj [("proto", JStr "0.1"); ("type", JStr "stream_data"); ("id", JStr "m1");
        ("ts", JNum (JFin 0)); ("stream_id", JStr "st1"); ("stream_type", JStr "file");
        ("offset", JNum (JFin 0)); ("data", JStr "AQID")].

Definition demo_opened : sys :=
  mkSys (registerDataPlaneRuntimeStream 0 "st1" "file" 8 None true true true
           (set_w_trackers (<[0%nat := demo_tracker]> ∅) empty_world)).2 [] [].

Definition demo_run : sys :=
  run_queue (0%nat, "st1") ROk
    (run_queue (0%nat, "st1") ROk
       (handleDataPlaneStreamFrame 0 0 "u" 0 demo_frame demo_opened)).

Lemma demo_run_steps : sys_steps init_sys demo_run.
Proof.
  apply run_queue_steps, run_queue_steps. eapply sys_more; [|apply SFrame].
  eapply sys_more; [|apply SEnv; apply EO_open; done].
  eapply sys_more; [apply sys_refl|]. apply SEnv. by apply (EO_tracker 0 demo_tracker).
Qed.

(** The chunk is accepted, handed to the consumer, and its credit returned. *)
Example demo_run_trace :
  w_trace (sy_world demo_run)
  = [EvOpened 0 8 0; EvAccepted 0 0 3; EvOnData 0 [Byte.x01; Byte.x02; Byte.x03] 0 false;
     EvGranted 0 3; EvSendFrame 0 (OCredit "st1" 3 3)].
Proof. vm_compute. reflexivity. Qed.

Definition demo_stream : DataPlaneRuntimeStream :=
  mkRuntimeStream "st1" "file" 3 8 0 0 0 false false None true true true.

