(* ===== verification/DataPlaneProps.v ===== *)
(** Carrier selection and finalisation of a carrier on the data plane. *)
From Stdlib Require Import ZArith QArith Lia.
From stdpp Require Import base tactics strings gmap sorting option pretty.
From stdpp Require Import list.
From S2P Require Import Prelude JsRuntime Base64 DaemonState Carrier DataPlane.

(** ** Sorting by rank *)

Lemma rank_insert_perm {A} (rank : A -> Z) x l : rank_insert rank x l ≡ₚ x :: l.
Proof.
  induction l as [|y l IH]; cbn [rank_insert]; [done|]. case_match; [done|].
  rewrite IH. apply Permutation_swap.
Qed.

Lemma sort_by_rank_perm {A} (rank : A -> Z) l : sort_by_rank rank l ≡ₚ l.
Proof.
  induction l as [|x l IH]; [done|]. change (rank_insert rank x (sort_by_rank rank l) ≡ₚ x :: l).
  by rewrite rank_insert_perm, IH.
Qed.

Definition by_rank {A} (rank : A -> Z) (x y : A) : Prop := (rank x <= rank y)%Z.

#[export] Instance by_rank_refl {A} (rank : A -> Z) : Reflexive (by_rank rank).
Proof. intros x. unfold by_rank. lia. Qed.

Lemma rank_insert_sorted {A} (rank : A -> Z) x l :
  StronglySorted (by_rank rank) l -> StronglySorted (by_rank rank) (rank_insert rank x l).
Proof.
  induction 1 as [|y l Hs IH Hy]; cbn [rank_insert]; [by repeat constructor|].
  unfold by_rank in *. case_match; zbool.
  - constructor; [by constructor|]. constructor; [done|].
    eapply Forall_impl; [exact Hy|]. cbn. lia.
  - constructor; [done|]. rewrite rank_insert_perm. constructor; [lia | done].
Qed.

Lemma sort_by_rank_sorted {A} (rank : A -> Z) l : StronglySorted (by_rank rank) (sort_by_rank rank l).
Proof. induction l as [|x l IH]; [constructor|]. by apply rank_insert_sorted. Qed.

(** The sort is stable: elements of one rank keep their order. *)
Lemma rank_insert_filter {A} (rank : A -> Z) x l z :
  filter (fun y => rank y = z) (rank_insert rank x l) = filter (fun y => rank y = z) (x :: l).
Proof.
  induction l as [|y l IH]; cbn [rank_insert]; [done|].
  destruct (Z.leb_spec (rank x) (rank y)) as [|Hlt]; [done|].
  rewrite filter_cons, IH, !filter_cons. repeat case_decide; try done. lia.
Qed.

Lemma sort_by_rank_stable {A} (rank : A -> Z) l z :
  filter (fun y => rank y = z) (sort_by_rank rank l) = filter (fun y => rank y = z) l.
Proof.
  induction l as [|x l IH]; [done|].
  change (sort_by_rank rank (x :: l)) with (rank_insert rank x (sort_by_rank rank l)).
  rewrite rank_insert_filter, !filter_cons, IH. done.
Qed.

(** The head of a sorted list is minimal. *)
Lemma head_minimal {A} (R : A -> A -> Prop) `{!Reflexive R} l x :
  StronglySorted R l -> head l = Some x -> forall y, y ∈ l -> R x y.
Proof.
  destruct 1 as [|z l _ Hz]; [done|]. cbn. intros [= ->] y [->|Hy]%elem_of_cons; [done|].
  by eapply Forall_forall in Hz.
Qed.

(** ** Selection *)

Section Selection.
Context (configured : DaemonTransportPolicy) (budId : string) (deviceSessionId : option string).
Context (streamType : string) (preferred : option DataPlaneTransportKind).
Context (policy : option DaemonTransportPolicy).

Definition rank (nt : nat * DataPlaneSessionTracker) : Z :=
  rankDataPlaneTransport configured (dt_transportKind nt.2) policy.

(** A connected carrier of the bud (and device session, and preferred kind). *)
Definition reachable_carrier (nt : nat * DataPlaneSessionTracker) : Prop :=
  dt_budId nt.2 = budId
  /\ (ostr_truthy deviceSessionId = true -> Some (dt_deviceSessionId nt.2) = deviceSessionId)
  /\ isDataPlaneSessionConnected nt.2 = true
  /\ (forall k, preferred = Some k -> dt_transportKind nt.2 = k).

(** A carrier that may take a new stream of the type. *)
Definition eligible (nt : nat * DataPlaneSessionTracker) : Prop :=
  reachable_carrier nt /\ supports_stream streamType nt.2 = true
  /\ dataPlaneTrackerAcceptsNewWork nt.2 = true.

(** The carriers the selection considers, best first. *)
Definition filtered (w : world) : list (nat * DataPlaneSessionTracker) :=
  let connected :=
    filter (fun nt : nat * DataPlaneSessionTracker => isDataPlaneSessionConnected nt.2 = true)
      (rankedDataPlaneSessions configured budId deviceSessionId policy w) in
  match preferred with
  | Some k => filter (fun nt : nat * DataPlaneSessionTracker => dt_transportKind nt.2 = k) connected
  | None => connected
  end.

Lemma filtered_elem w nt :
  nt ∈ filtered w <-> nt ∈ session_trackers w /\ reachable_carrier nt.
Proof.
  unfold filtered, rankedDataPlaneSessions, reachable_carrier.
  destruct preferred as [k|]; rewrite ?list_elem_of_filter, sort_by_rank_perm, list_elem_of_filter;
    naive_solver.
Qed.

Lemma filtered_sorted w : StronglySorted (by_rank rank) (filtered w).
Proof.
  unfold filtered, rankedDataPlaneSessions.
  destruct preferred; repeat apply StronglySorted_filter_sub; apply sort_by_rank_sorted.
Qed.

Lemma accepts_split t :
  dataPlaneTrackerAcceptsNewWork t = true <->
  is_draining t = false /\ carrierHealthAllowsNewWork (normalizeCarrierHealth (dt_health t)) = true.
Proof. unfold dataPlaneTrackerAcceptsNewWork. rewrite andb_true_iff, negb_true_iff. done. Qed.

Lemma filter_head_elem {A} (P : A -> Prop) `{!forall x, Decision (P x)} l x :
  head (filter P l) = Some x -> P x /\ x ∈ l.
Proof.
  intros Hh. assert (Hx : x ∈ filter P l).
  { destruct (filter P l) as [|y k]; [done|]. injection Hh as ->. by left. }
  by apply list_elem_of_filter in Hx.
Qed.

Lemma nothing_filtered w :
  filtered w = [] -> forall nt, nt ∈ session_trackers w -> ~ reachable_carrier nt.
Proof. intros E nt Hin Hr. apply (elem_of_nil nt). rewrite <-E. by apply filtered_elem. Qed.

(** Selecting a carrier for a new stream succeeds exactly when some
    connected carrier of the bud supports the stream type, is not draining and
    is healthy enough; the carrier it picks is one of those and none of them
    is preferred to it by the policy. Otherwise the code says why: no carrier
    is connected, none negotiated the type, or all that did are degraded. *)
Theorem select_carrier_correct (w : world) :
  match selectDataPlaneCarrier configured budId deviceSessionId streamType preferred policy w with
  | Available n t health _ _ =>
      (n, t) ∈ session_trackers w /\ eligible (n, t)
      /\ health = normalizeCarrierHealth (dt_health t)
      /\ forall nt, nt ∈ session_trackers w -> eligible nt -> (rank (n, t) <= rank nt)%Z
  | Unavailable code _ _ _ _ _ =>
      (forall nt, nt ∈ session_trackers w -> ~ eligible nt)
      /\ match code with
         | DATA_PLANE_UNAVAILABLE =>
             forall nt, nt ∈ session_trackers w -> ~ reachable_carrier nt
         | STREAM_FAMILY_UNSUPPORTED =>
             (exists nt, nt ∈ session_trackers w /\ reachable_carrier nt)
             /\ forall nt, nt ∈ session_trackers w -> reachable_carrier nt ->
                  supports_stream streamType nt.2 = false
         | TRANSPORT_DEGRADED =>
             exists nt, nt ∈ session_trackers w /\ reachable_carrier nt
                        /\ supports_stream streamType nt.2 = true
         end
  end.
Proof.
  unfold selectDataPlaneCarrier. fold (filtered w). cbv zeta.
  set (fam := filter (fun nt : nat * DataPlaneSessionTracker =>
                        supports_stream streamType nt.2 = true) (filtered w)).
  assert (Hfam : forall nt, nt ∈ fam <->
            nt ∈ session_trackers w /\ reachable_carrier nt /\ supports_stream streamType nt.2 = true).
  { intros nt. subst fam. rewrite list_elem_of_filter, filtered_elem. naive_solver. }
  assert (Hsort : StronglySorted (by_rank rank) fam)
    by (apply StronglySorted_filter_sub, filtered_sorted).
  clearbody fam.
  destruct (filtered w) as [|first fil] eqn:Efil.
  { pose proof (nothing_filtered w Efil) as Hno. split; [|done].
    intros nt Hin [Hr _]. by apply (Hno nt). }
  destruct fam as [|m fam].
  { assert (Hno : forall nt, nt ∈ session_trackers w -> reachable_carrier nt ->
                    supports_stream streamType nt.2 = false).
    { intros nt Hin Hr. apply not_true_is_false. intros Hs. by apply (elem_of_nil nt), Hfam. }
    split; [|split; [|done]].
    - intros nt Hin (Hr & Hs & _). by rewrite (Hno nt Hin Hr) in Hs.
    - exists first. apply filtered_elem. rewrite Efil. by left. }
  destruct (head (filter (fun nt : nat * DataPlaneSessionTracker =>
              dataPlaneTrackerAcceptsNewWork nt.2 = true) (m :: fam))) as [[n t]|] eqn:Eh;
    cbn [from_option id]; cbv beta iota.
  - apply filter_head_elem in Eh as Ht. destruct Ht as [Hacc Hin].
    cbn in Hacc. pose proof (proj1 (accepts_split t) Hacc) as [-> ->]. cbn [negb].
    apply Hfam in Hin as (Hin & Hr & Hs). split_and!; [done | by split_and! | done|].
    intros nt Hnt (Hr' & Hs' & Ha'). eapply (head_minimal (by_rank rank)); [|exact Eh|].
    + by apply StronglySorted_filter_sub.
    + apply list_elem_of_filter. split; [done|]. by apply Hfam.
  - set (open := filter (fun nt : nat * DataPlaneSessionTracker => is_draining nt.2 = false) (m :: fam)).
    set (pick := default m (head open)).
    assert (Hpick : pick ∈ m :: fam).
    { subst pick. destruct (head open) as [x|] eqn:Ex; cbn [from_option id]; [|by left].
      by apply filter_head_elem in Ex as [_ ?]. }
    assert (Hnone : forall nt, nt ∈ m :: fam -> dataPlaneTrackerAcceptsNewWork nt.2 = false).
    { intros nt Hin. apply not_true_is_false. exact (head_filter_None _ _ nt Eh Hin). }
    clearbody pick. destruct pick as [n t]. pose proof (Hnone _ Hpick) as Hacc. cbn in Hacc.
    assert (Hno : forall nt, nt ∈ session_trackers w -> ~ eligible nt).
    { intros nt Hin (Hr & Hs & Ha). rewrite Hnone in Ha; [done|]. by apply Hfam. }
    assert (Hex : exists nt, nt ∈ session_trackers w /\ reachable_carrier nt
                             /\ supports_stream streamType nt.2 = true)
      by (exists (n, t); by apply Hfam).
    unfold dataPlaneTrackerAcceptsNewWork in Hacc.
    destruct (is_draining t); [by split|]. cbn in Hacc. by rewrite Hacc.
Qed.
End Selection.

(** ** Runs *)

Lemma run_bind {A B} (p : prog A) (k : A -> prog B) o w :
  run o (p ≫= k) w
  = match run o p w with
    | (inl a, w', o') => run o' (k a) w'
    | (inr m, w', o') => (inr m, w', o')
    end.
Proof.
  unfold mbind, prog_mbind. revert o w.
  induction p as [a|m|f c IH|c IH|c IH|st c IH]; intros o w; cbn [prog_bind run].
  - done.
  - done.
  - apply IH.
  - apply IH.
  - destruct o; apply IH.
  - destruct o as [|[|m] o]; cbn; try apply IH; destruct (st (w_db w)) as [|[]]; apply IH.
Qed.

Lemma run_try {A} (p : prog A) h o w :
  run o (try_catch p h) w
  = match run o p w with
    | (inl a, w', o') => (inl a, w', o')
    | (inr m, w', o') => run o' (h m) w'
    end.
Proof.
  revert o w. induction p as [a|m|f c IH|c IH|c IH|st c IH]; intros o w; cbn [try_catch run].
  - done.
  - done.
  - apply IH.
  - apply IH.
  - destruct o; apply IH.
  - destruct o as [|[|m] o]; cbn; try apply IH; destruct (st (w_db w)) as [|[]]; apply IH.
Qed.

Lemma run_awaiting {A} (p : prog A) o w : run o (awaiting p) w = run o p w.
Proof.
  unfold awaiting. rewrite run_bind, run_try. by destruct (run o p w) as [[[a|m] w'] o'].
Qed.

(** Calling a callback logs the call and nothing else. *)
Lemma run_call b e o w :
  exists r o', run o (await_call b e) w = (r, if b then log e w else w, o').
Proof.
  destruct b; [|by eexists _, _]. destruct o as [|[|m] o]; by eexists _, _.
Qed.

(** A caught statement changes the database and nothing else. *)
Lemma run_db_catch st o w :
  exists d o', run o (db_catch st) w = (inl tt, set_w_db d w, o').
Proof.
  assert (Hid : set_w_db (w_db w) w = w) by by destruct w.
  destruct o as [|[|m] o]; cbn; try destruct (st (w_db w)) as [m'|[] d];
    try (by eexists _, _); exists (w_db w); rewrite Hid; by eexists.
Qed.

(** ** Finalising a carrier *)

(** What finalisation does to a stream. *)
Definition lost (st : DataPlaneRuntimeStream) : DataPlaneRuntimeStream :=
  if remoteClosed st || ostr_truthy (resetReason st) then st
  else set_resetReason (Some "transport_lost") st.

Lemma lost_idemp st : lost (lost st) = lost st.
Proof. unfold lost. destruct (remoteClosed st || _) eqn:E; rewrite ?E; [done|]. cbn. by rewrite orb_true_r. Qed.

(** Parts of the world that resetting the streams leaves alone. *)
Definition same_carriers (w w' : world) : Prop :=
  w_trackers w' = w_trackers w /\ w_sessions w' = w_sessions w.

Lemma reset_stream_run now dbnow ulid tr e s o w :
  exists w' o', run o (reset_stream now dbnow ulid tr e s) w = (inl tt, w', o')
    /\ same_carriers w w' /\ w_streams w' = alter lost s (w_streams w).
Proof.
  unfold reset_stream. rewrite run_bind. cbn [run read id].
  destruct (w_streams w !! s) as [st|] eqn:E.
  - destruct (remoteClosed st || ostr_truthy (resetReason st)) eqn:Ec.
    + exists w, o. split_and!; try done. symmetry. apply map_eq. intros i.
      destruct (decide (i = s)) as [->|]; [|by rewrite lookup_alter_ne].
      rewrite lookup_alter_eq, E. cbn. unfold lost. by rewrite Ec.
    + rewrite run_bind. cbn [run atomically]. rewrite run_bind, run_try.
      set (w1 := upd_stream s _ w).
      destruct (run_call (has_onReset st) (EvOnReset s "transport_lost" (Some e)) o w1) as (r & o1 & ->).
      set (w2 := if has_onReset st then _ else _).
      assert (Hw2 : same_carriers w w2 /\ w_streams w2 = w_streams w1)
        by (subst w2; by destruct (has_onReset st)).
      clearbody w2.
      assert (exists o2, match r with
                | inl a => (inl a, w2, o1) | inr m => run o1 (Ret tt) w2 end = (inl tt, w2, o2))
        as (o2 & ->) by (destruct r as [[]|]; by eexists).
      rewrite run_bind. destruct (run_db_catch (db_reset now (rs_streamId st) "transport_lost" (Some e)) o2 w2)
        as (d & o3 & ->).
      destruct (run_db_catch (db_audit dbnow ulid "data_plane.stream_reset" tr (rs_streamId st)
        [("reason", JStr "transport_lost"); ("error", error_value (Some e));
         ("stream_type", JStr (rs_streamType st))]) o3 (set_w_db d w2)) as (d' & o4 & ->).
      exists (set_w_db d' (set_w_db d w2)), o4. destruct Hw2 as [Hs Hst]. split_and!; [done|done|].
      cbn. rewrite Hst. subst w1. cbn. apply map_eq. intros i.
      destruct (decide (i = s)) as [->|]; [|by rewrite !lookup_alter_ne].
      rewrite !lookup_alter_eq, E. cbn. unfold lost. by rewrite Ec.
  - exists w, o. split_and!; try done. symmetry. apply map_eq. intros i.
    destruct (decide (i = s)) as [->|]; [|by rewrite lookup_alter_ne].
    by rewrite lookup_alter_eq, E.
Qed.

Lemma reset_streams_run now dbnow ulid tr e ss o w :
  exists w' o', run o (reset_streams now dbnow ulid tr e ss) w = (inl tt, w', o')
    /\ same_carriers w w'
    /\ forall i, w_streams w' !! i = (if decide (i ∈ ss) then lost else id) <$> w_streams w !! i.
Proof.
  revert o w. induction ss as [|s ss IH]; intros o w.
  - exists w, o. split_and!; try done. intros i. rewrite decide_False by set_solver.
    by destruct (w_streams w !! i).
  - cbn [reset_streams]. rewrite run_bind.
    destruct (reset_stream_run now dbnow ulid tr e s o w) as (w1 & o1 & -> & [T1 S1] & E1).
    destruct (IH o1 w1) as (w2 & o2 & -> & [T2 S2] & E2). exists w2, o2.
    split_and!; [done | split; congruence|]. intros i. rewrite E2, E1.
    destruct (decide (i = s)) as [->|Hne].
    + rewrite lookup_alter_eq. rewrite (decide_True _ _ (P := s ∈ s :: ss)) by set_solver.
      destruct (w_streams w !! s) as [st|]; [|done]. cbn.
      case_decide; cbn; [by rewrite lost_idemp | done].
    + rewrite lookup_alter_ne by done. destruct (w_streams w !! i); [|done]. cbn.
      repeat case_decide; set_solver.
Qed.

Lemma reset_runtime_run now dbnow ulid t reason tr o w :
  w_trackers w !! t = Some tr ->
  exists w' o', run o (resetRuntimeStreamsForDataPlaneTracker now dbnow ulid t reason) w
                = (inl tt, w', o')
    /\ w_trackers w' = alter (set_runtimeStreams []) t (w_trackers w)
    /\ w_sessions w' = w_sessions w
    /\ forall i, w_streams w' !! i
         = (if decide (i ∈ JsMap.values (runtimeStreams tr)) then lost else id) <$> w_streams w !! i.
Proof.
  intros E. unfold resetRuntimeStreamsForDataPlaneTracker. rewrite run_bind. cbn [run read id].
  rewrite E, run_bind. cbn [id].
  match goal with |- context [reset_streams _ _ _ _ ?e ?ss] =>
    destruct (reset_streams_run now dbnow ulid tr e ss o w) as (w1 & o1 & -> & [T1 S1] & E1) end.
  eexists _, _. split; [done|]. cbn. rewrite T1, S1. done.
Qed.

(** The carrier after its streams were reset: what the rest of the finalisation
    keeps. *)
Record wound_down (t : nat) (tr : DataPlaneSessionTracker) (w w' : world) : Prop := {
  wd_streams : forall i, w_streams w' !! i
    = (if decide (i ∈ JsMap.values (runtimeStreams tr)) then lost else id) <$> w_streams w !! i;
  wd_sessions : w_sessions w'
    = (if decide (JsMap.get (tracker_key tr) (w_sessions w) = Some t)
       then JsMap.delete (tracker_key tr) (w_sessions w) else w_sessions w);
  wd_tracker : exists tr', w_trackers w' !! t = Some tr' /\ runtimeStreams tr' = [];
}.

Lemma wound_down_same t tr w w1 w2 :
  w_streams w2 = w_streams w1 -> w_sessions w2 = w_sessions w1 -> w_trackers w2 = w_trackers w1 ->
  wound_down t tr w w1 -> wound_down t tr w w2.
Proof. intros E1 E2 E3 [H1 H2 H3]. split; [by rewrite E1 | by rewrite E2 | by rewrite E3]. Qed.

(** The part of finalisation up to the reset of the streams. *)
Lemma wind_down_run now dbnow ulid t reason (drain : bool) tr o w :
  w_trackers w !! t = Some tr ->
  let w1 := upd_tracker t (set_finalizing true) w in
  let w2 := (deleteDataPlaneSessionTrackerIfCurrent t
               (if drain then upd_tracker t (set_drainState (Some Draining)) w1 else w1)).2 in
  exists w' o', run o (awaiting (resetRuntimeStreamsForDataPlaneTracker now dbnow ulid t reason)) w2
                = (inl tt, w', o') /\ wound_down t tr w w'.
Proof.
  intros E w1 w2. rewrite run_awaiting.
  set (w1' := if drain then upd_tracker t (set_drainState (Some Draining)) w1 else w1) in *.
  assert (exists tr1, w_trackers w1' !! t = Some tr1 /\ runtimeStreams tr1 = runtimeStreams tr
            /\ tracker_key tr1 = tracker_key tr
            /\ w_sessions w1' = w_sessions w /\ w_streams w1' = w_streams w)
    as (tr1 & E1 & Hr & Hk & Hse & Hst).
  { subst w1' w1. destruct drain; cbn; rewrite ?lookup_alter_eq, E; cbn; by eexists. }
  assert (E2 : w_trackers w2 = w_trackers w1' /\ w_streams w2 = w_streams w1'
               /\ w_sessions w2 = (if decide (JsMap.get (tracker_key tr) (w_sessions w) = Some t)
                    then JsMap.delete (tracker_key tr) (w_sessions w) else w_sessions w)).
  { subst w2. unfold deleteDataPlaneSessionTrackerIfCurrent. rewrite E1, Hk, Hse.
    case_bool_decide as Hd; [rewrite decide_True by done | rewrite decide_False by done]; by cbn. }
  destruct E2 as (T2 & S2 & Se2).
  destruct (reset_runtime_run now dbnow ulid t reason tr1 o w2) as (w' & o' & -> & T & Se & St).
  { by rewrite T2. }
  exists w', o'. split; [done|]. split.
  - intros i. by rewrite St, Hr, S2, Hst.
  - by rewrite Se, Se2.
  - rewrite T, T2, lookup_alter_eq, E1. cbn. by eexists.
Qed.

(** The state the [finally] block leaves. *)
Definition finalized_state (now dbnow : Z) (ulid : string) (t : nat) (reason : string) (drain : bool)
    (tr : DataPlaneSessionTracker) (w w' : world) (res : unit + string) : Prop :=
  (forall s, s ∈ JsMap.values (runtimeStreams tr) -> w_streams w' !! s = lost <$> w_streams w !! s)
  /\ (forall s, s ∉ JsMap.values (runtimeStreams tr) -> w_streams w' !! s = w_streams w !! s)
  /\ w_sessions w' = (if decide (JsMap.get (tracker_key tr) (w_sessions w) = Some t)
                      then JsMap.delete (tracker_key tr) (w_sessions w) else w_sessions w)
  /\ exists tr', w_trackers w' !! t = Some tr' /\ runtimeStreams tr' = [] /\ finalizing tr' = false
      /\ (res = inl tt -> finalized tr' = true
          /\ forall o2, run o2 (finalizeDataPlaneSessionTracker now dbnow ulid t reason drain true) w'
             = (inl tt, w', o2)).

Lemma finish_finalize now dbnow ulid t reason drain tr w w' (r : unit + string) :
  wound_down t tr w w' ->
  (r = inl tt -> exists tr', w_trackers w' !! t = Some tr' /\ finalized tr' = true) ->
  forall res, (res = inl tt -> r = inl tt) ->
  finalized_state now dbnow ulid t reason drain tr w (upd_tracker t (set_finalizing false) w') res.
Proof.
  intros [H1 H2 (tr' & H3 & H4)] Hfin res Hres.
  split_and!; cbn [w_streams w_sessions w_trackers upd_tracker set_w_trackers].
  - intros s Hs. by rewrite H1, decide_True.
  - intros s Hs. rewrite H1, decide_False by done. by destruct (w_streams w !! s).
  - done.
  - rewrite lookup_alter_eq, H3. eexists. split_and!; [done | done | done|].
    intros Hr%Hres%Hfin. destruct Hr as (tr2 & E2 & Hf). assert (tr2 = tr') as -> by congruence.
    split; [done|]. intros o2. unfold finalizeDataPlaneSessionTracker. rewrite run_bind.
    cbn [run read id w_trackers upd_tracker set_w_trackers]. rewrite lookup_alter_eq, H3.
    cbn [fmap option_fmap option_map finalized set_finalizing]. by rewrite Hf.
Qed.

(** C17: Finalising a carrier that is neither finalised nor being finalised
    drops it from the sessions only if it is still the current one, leaves it
    without runtime streams, and marks every stream it had as reset by the loss
    of the transport unless that stream had already ended; no failure of a
    callback or of the database stops it before that, and on success the
    carrier is finalised. Finalising it again does nothing. *)
Theorem finalize_carrier now dbnow ulid t reason (drain : bool) (tr : DataPlaneSessionTracker)
    (o : list result) (w : world) :
  w_trackers w !! t = Some tr -> finalized tr = false -> finalizing tr = false ->
  let '(res, w', _) := run o (finalizeDataPlaneSessionTracker now dbnow ulid t reason drain true) w in
  finalized_state now dbnow ulid t reason drain tr w w' res.
Proof.
  intros E Hf Hg. pose proof (wind_down_run now dbnow ulid t reason drain tr o w E) as Hwd.
  unfold finalizeDataPlaneSessionTracker at 1. rewrite run_bind. cbn [run read id].
  rewrite E, Hf, Hg. cbn [orb]. rewrite run_bind. cbn [run atomically].
  unfold try_finally. rewrite run_bind, run_try.
  match goal with |- context [run o ?b ?x] =>
    assert (Hbody : exists r w' o', run o b x = (r, w', o') /\ wound_down t tr w w'
      /\ (r = inl tt -> exists tr', w_trackers w' !! t = Some tr' /\ finalized tr' = true)) end.
  { rewrite run_bind. cbn [run atomically].
    rewrite run_bind. destruct Hwd as (w3 & o3 & -> & Hw3).
    rewrite run_bind. destruct (run_call (has_close tr) (EvCarrierClose t) o3 w3) as (r & o4 & ->).
    set (w4 := if has_close tr then _ else _).
    assert (Hw4 : wound_down t tr w w4)
      by (subst w4; destruct (has_close tr); [by eapply wound_down_same; [..|exact Hw3] | done]).
    clearbody w4. destruct r as [[]|m]; [|exists (inr m), w4, o4; split_and!; [done..|by intros]].
    rewrite run_bind.
    match goal with |- context [run o4 ?p w4] =>
      assert (exists r w5 o5, run o4 p w4 = (r, w5, o5) /\ wound_down t tr w w5) as (r & w5 & o5 & -> & Hw5)
    end.
    { destruct (dt_role tr); [|by eexists _, _, _]. destruct (dt_transportSessionId tr) as [ts|];
        [|by eexists _, _, _]. destruct (str_truthy ts); [|by eexists _, _, _].
      destruct o4 as [|[|m] o4]; cbn; eexists _, _, _; (split; [done|]);
        by eapply wound_down_same; [..|exact Hw4]. }
    destruct r as [[]|m]; [|exists (inr m), w5, o5; split_and!; [done..|by intros]].
    eexists _, _, _. split; [done|]. destruct Hw5 as [H1 H2 (tr' & H3 & H4)]. split.
    - split; [done | done|]. cbn. rewrite lookup_alter_eq, H3. cbn. by eexists.
    - intros _. cbn. rewrite lookup_alter_eq, H3. cbn. by eexists. }
  destruct Hbody as (r & w' & o' & -> & Hwound & Hfin).
  pose proof (finish_finalize now dbnow ulid t reason drain tr w w' r Hwound Hfin) as Hend.
  destruct r as [[]|m]; cbn [run]; by apply Hend.
Qed.

(** A carrier with one open stream and one that the daemon had closed; the
    callback of the first fails. *)
Definition dying_tracker : DataPlaneSessionTracker :=
  set_runtimeStreams [("s1", 0%nat); ("s2", 1%nat)] 
    (mkTracker "bud1" "ds1" None None DWebsocket RoleControlData None false false None ["file_read"]
       0 0 [] 1024 8 64 true true).
Definition dying_world : world :=
  let st i := mkRuntimeStream i "file_read" 0 16 0 16 0 false false None true true true in
  mkWorld {[ 0%nat := dying_tracker ]}
    (<[0%nat := st "s1"]> {[ 1%nat := set_remoteClosed true (st "s2") ]})
    [(tracker_key dying_tracker, 0%nat)] 2 empty_db [].

Lemma finalize_carrier_witness :
  exists w', (run [RErr "consumer gone"] (finalizeDataPlaneSessionTracker 0 0 "u" 0 "lost" true true)
                dying_world).1 = (inl tt, w')
    /\ (resetReason <$> w_streams w' !! 0%nat) = Some (Some "transport_lost")
    /\ w_streams w' !! 1%nat = w_streams dying_world !! 1%nat.
Proof.
  pose proof (finalize_carrier 0 0 "u" 0 "lost" true dying_tracker [RErr "consumer gone"] dying_world
    eq_refl eq_refl eq_refl) as H.
  destruct (run _ _ _) as [[r w'] o'] eqn:E. destruct H as (H1 & _ & _ & _).
  exists w'. split_and!.
  - cbn [fst]. assert (r = inl tt) as ->; [|done].
    apply (f_equal (fun p => p.1.1)) in E. cbn [fst] in E. rewrite <- E. vm_compute. reflexivity.
  - rewrite H1 by (vm_compute; by left). vm_compute. reflexivity.
  - rewrite H1 by (vm_compute; right; by left). vm_compute. reflexivity.
Defined.
