(* ===== verification/ControlRouters.v ===== *)
(** The control carriers of a Bud daemon: the registries of WebSocket and gRPC
    sessions ([service/src/ws/session-trackers.ts],
    [service/src/transport/grpc-daemon-router.ts]), presence notifications
    ([presence-events.ts]) and the two control routers
    ([websocket-daemon-router.ts], [grpc-daemon-router.ts]), which implement the
    router interface of [Carrier] and satisfy its laws; composed by the
    composite router they are the [daemonTransportRouter] of the service. *)
From Stdlib Require Import ZArith Lia.
From stdpp Require Import base tactics strings gmap sorting option pretty.
From stdpp Require Import list.
From S2P Require Import Prelude JsRuntime DaemonState Carrier DataPlane.

(** ** Presence *)

(** The listeners, by reference, and the calls they received. *)
Record presence := mkPresence {
  pr_listeners : list nat;
  pr_calls : list (nat * string);
}.

Definition subscribePresence (l : nat) (p : presence) : presence :=
  mkPresence (JsSet.add l (pr_listeners p)) (pr_calls p).
Definition unsubscribePresence (l : nat) (p : presence) : presence :=
  mkPresence (JsSet.delete l (pr_listeners p)) (pr_calls p).
Definition notifyPresence (budId : string) (p : presence) : presence :=
  mkPresence (pr_listeners p) (pr_calls p ++ ((fun l => (l, budId)) <$> pr_listeners p)).

(** ** Session registries *)

(** What a registry needs of a tracker. *)
Class Tracker (T : Type) := {
  tk_budId : T -> string;
  tk_timeout : T -> option nat;
  tk_unset_timeout : T -> T;
  tk_unset_budId t : tk_budId (tk_unset_timeout t) = tk_budId t;
  tk_unset_unset t : tk_timeout (tk_unset_timeout t) = None;
}.

Section Registry.
Context {T : Type} `{Tracker T}.

(** The tracker objects, the map from buds to trackers, and the timers passed
    to [clearTimeout]. *)
Record registry := mkRegistry {
  rg_objs : gmap nat T;
  rg_sessions : list (string * nat);
  rg_cleared : list nat;
}.

Definition clear_timeout (r : option nat) (g : registry) : registry :=
  match r ≫= (fun r => (fun t => (r, t)) <$> rg_objs g !! r) with
  | Some (r, t) =>
      match tk_timeout t with
      | Some h => mkRegistry (<[r := tk_unset_timeout t]> (rg_objs g)) (rg_sessions g)
                    (rg_cleared g ++ [h])
      | None => g
      end
  | None => g
  end.

Definition register_active (r : nat) (g : registry) (p : presence)
  : option nat * registry * presence :=
  match rg_objs g !! r with
  | None => (None, g, p)
  | Some t =>
      let previous := JsMap.get (tk_budId t) (rg_sessions g) in
      let g := clear_timeout previous g in
      (previous,
       mkRegistry (rg_objs g) (JsMap.set (tk_budId t) r (rg_sessions g)) (rg_cleared g),
       notifyPresence (tk_budId t) p)
  end.

Definition get_active (budId : string) (r : option nat) (g : registry) : option nat :=
  match r with
  | None => None
  | Some r => if bool_decide (JsMap.get budId (rg_sessions g) = Some r) then Some r else None
  end.

Definition delete_if_current (r : option nat) (g : registry) (p : presence)
  : bool * registry * presence :=
  match r ≫= (fun r => (fun t => (r, t)) <$> rg_objs g !! r) with
  | None => (false, g, p)
  | Some (r, t) =>
      if bool_decide (JsMap.get (tk_budId t) (rg_sessions g) = Some r) then
        let g := mkRegistry (rg_objs g) (JsMap.delete (tk_budId t) (rg_sessions g)) (rg_cleared g) in
        (true, clear_timeout (Some r) g, notifyPresence (tk_budId t) p)
      else (false, g, p)
  end.
End Registry.
Arguments registry : clear implicits.

(** ** The WebSocket sessions and router *)

(** [SessionTracker]; the socket is its [readyState === OPEN], a timer its
    handle. *)
Record SessionTracker := mkSession {
  ws_budId : string;
  ws_sessionId : string;
  ws_browserCapability : jsval;
  ws_deviceSessionId : option string;
  ws_transportSessionId : option string;
  ws_drainState : option DrainState;
  ws_lastHeartbeat : Z;
  ws_open : bool;
  ws_supportsEnvelopeBinary : option bool;
  ws_supportsStreamFrames : option bool;
  ws_streamFamilies : option (list string);
  ws_dataTransportKind : option DataPlaneTransportKind;
  ws_timeout : option nat;
}.

Definition set_ws_drainState (v : option DrainState) (t : SessionTracker) : SessionTracker :=
  mkSession (ws_budId t) (ws_sessionId t) (ws_browserCapability t) (ws_deviceSessionId t)
    (ws_transportSessionId t) v (ws_lastHeartbeat t) (ws_open t) (ws_supportsEnvelopeBinary
    t) (ws_supportsStreamFrames t) (ws_streamFamilies t) (ws_dataTransportKind t)
    (ws_timeout t).
Definition set_ws_timeout (v : option nat) (t : SessionTracker) : SessionTracker :=
  mkSession (ws_budId t) (ws_sessionId t) (ws_browserCapability t) (ws_deviceSessionId t)
    (ws_transportSessionId t) (ws_drainState t) (ws_lastHeartbeat t) (ws_open t)
    (ws_supportsEnvelopeBinary t) (ws_supportsStreamFrames t) (ws_streamFamilies t)
    (ws_dataTransportKind t) v.

#[export, refine] Instance ws_tracker : Tracker SessionTracker := {
  tk_budId := ws_budId;
  tk_timeout := ws_timeout;
  tk_unset_timeout := set_ws_timeout None;
}.
Proof. all: done. Defined.

(** The sessions and the frames written to the sockets. *)
Record ws_state := mkWs {
  ws_registry : registry SessionTracker;
  ws_wire : list (string * frame);
}.

Definition clearTrackerTimeout : option nat -> registry SessionTracker -> registry SessionTracker :=
  clear_timeout.
Definition registerActiveSessionTracker
  : nat -> registry SessionTracker -> presence -> option nat * registry SessionTracker * presence :=
  register_active.
Definition getActiveSessionTracker : string -> option nat -> registry SessionTracker -> option nat :=
  get_active.
Definition deleteSessionTrackerIfCurrent
  : option nat -> registry SessionTracker -> presence -> bool * registry SessionTracker * presence :=
  delete_if_current.

(** [sessions.get(budId)]. *)
Definition session_of {T} (budId : string) (g : registry T) : option (nat * T) :=
  r ← JsMap.get budId (rg_sessions g); (fun t => (r, t)) <$> rg_objs g !! r.

Definition upd_ws (r : nat) (f : SessionTracker -> SessionTracker) (s : ws_state) : ws_state :=
  mkWs (mkRegistry (alter f r (rg_objs (ws_registry s))) (rg_sessions (ws_registry s))
          (rg_cleared (ws_registry s))) (ws_wire s).

Definition ws_getActiveBudIds (s : ws_state) : list string := JsMap.keys (rg_sessions (ws_registry s)).

Definition ws_isBudOnline (budId : string) (s : ws_state) : bool :=
  match session_of budId (ws_registry s) with Some (_, t) => ws_open t | None => false end.

Section Routers.
(** The gateway drain, and whether [encodeBudFrame] and the socket, and
    [encodeGrpcLegacyJsonEnvelope] and the call, take a frame without throwing. *)
Context (drain : option GatewayDrainState) (ws_sends grpc_sends : frame -> bool).

Definition ws_sendFrameToBud (budId : string) (payload : frame) (s : ws_state)
  : option bool * ws_state :=
  match session_of budId (ws_registry s) with
  | None => (Some false, s)
  | Some (r, t) =>
      if negb (ws_open t) then (Some false, s)
      else if shouldBlockNewDaemonWork drain payload then (Some false, upd_ws r (set_ws_drainState (Some Draining)) s)
      else if negb (ws_supportsEnvelopeBinary t ?? false) then (Some false, s)
      else if ws_sends payload
      then (Some true, mkWs (ws_registry s) (ws_wire s ++ [(budId, payload)]))
      else (None, s)
  end.

Definition ws_getTransportStatus (budId : string) (s : ws_state) : DaemonTransportStatus :=
  mkStatus (ws_isBudOnline budId s) (if ws_isBudOnline budId s then "websocket" else "none").

#[export] Instance websocketDaemonTransportRouter : DaemonTransportRouter ws_state := {
  getActiveBudIds := ws_getActiveBudIds;
  isBudOnline := ws_isBudOnline;
  sendFrameToBud := ws_sendFrameToBud;
  getTransportStatus := ws_getTransportStatus;
}.

(** ** The gRPC sessions and router *)

(** The call is whether it is destroyed and what its next writes return (then
    true): a write is buffered also when it returns false. *)
Record GrpcSessionTracker := mkGrpcSession {
  gs_budId : string;
  gs_sessionId : string;
  gs_browserCapability : jsval;
  gs_deviceSessionId : option string;
  gs_transportSessionId : option string;
  gs_drainState : option DrainState;
  gs_finalizing : bool;
  gs_finalized : bool;
  gs_lastHeartbeat : Z;
  gs_destroyed : bool;
  gs_writes : list bool;
  gs_backpressured : bool;
  gs_timeout : option nat;
}.

Definition set_gs_drainState (v : option DrainState) (t : GrpcSessionTracker) : GrpcSessionTracker :=
  mkGrpcSession (gs_budId t) (gs_sessionId t) (gs_browserCapability t) (gs_deviceSessionId
    t) (gs_transportSessionId t) v (gs_finalizing t) (gs_finalized t) (gs_lastHeartbeat t)
    (gs_destroyed t) (gs_writes t) (gs_backpressured t) (gs_timeout t).
Definition set_gs_writes (v : list bool) (t : GrpcSessionTracker) : GrpcSessionTracker :=
  mkGrpcSession (gs_budId t) (gs_sessionId t) (gs_browserCapability t) (gs_deviceSessionId
    t) (gs_transportSessionId t) (gs_drainState t) (gs_finalizing t) (gs_finalized t)
    (gs_lastHeartbeat t) (gs_destroyed t) v (gs_backpressured t) (gs_timeout t).
Definition set_gs_backpressured (v : bool) (t : GrpcSessionTracker) : GrpcSessionTracker :=
  mkGrpcSession (gs_budId t) (gs_sessionId t) (gs_browserCapability t) (gs_deviceSessionId
    t) (gs_transportSessionId t) (gs_drainState t) (gs_finalizing t) (gs_finalized t)
    (gs_lastHeartbeat t) (gs_destroyed t) (gs_writes t) v (gs_timeout t).
Definition set_gs_timeout (v : option nat) (t : GrpcSessionTracker) : GrpcSessionTracker :=
  mkGrpcSession (gs_budId t) (gs_sessionId t) (gs_browserCapability t) (gs_deviceSessionId
    t) (gs_transportSessionId t) (gs_drainState t) (gs_finalizing t) (gs_finalized t)
    (gs_lastHeartbeat t) (gs_destroyed t) (gs_writes t) (gs_backpressured t) v.

#[export, refine] Instance grpc_tracker : Tracker GrpcSessionTracker := {
  tk_budId := gs_budId;
  tk_timeout := gs_timeout;
  tk_unset_timeout := set_gs_timeout None;
}.
Proof. all: done. Defined.

Record grpc_state := mkGrpc {
  grpc_registry : registry GrpcSessionTracker;
  grpc_wire : list (string * frame);
}.

Definition clearGrpcTrackerTimeout
  : option nat -> registry GrpcSessionTracker -> registry GrpcSessionTracker := clear_timeout.
Definition registerActiveGrpcSessionTracker
  : nat -> registry GrpcSessionTracker -> presence
    -> option nat * registry GrpcSessionTracker * presence := register_active.
Definition getActiveGrpcSessionTracker
  : string -> option nat -> registry GrpcSessionTracker -> option nat := get_active.
Definition deleteGrpcSessionTrackerIfCurrent
  : option nat -> registry GrpcSessionTracker -> presence
    -> bool * registry GrpcSessionTracker * presence := delete_if_current.

Definition upd_grpc (r : nat) (f : GrpcSessionTracker -> GrpcSessionTracker) (s : grpc_state)
  : grpc_state :=
  mkGrpc (mkRegistry (alter f r (rg_objs (grpc_registry s))) (rg_sessions (grpc_registry s))
            (rg_cleared (grpc_registry s))) (grpc_wire s).

Definition isGrpcBudOnline (budId : string) (s : grpc_state) : bool :=
  match session_of budId (grpc_registry s) with
  | Some (_, t) => negb (gs_finalized t) && negb (gs_destroyed t)
  | None => false
  end.

Definition grpc_getActiveBudIds (s : grpc_state) : list string :=
  filter (fun budId => isGrpcBudOnline budId s = true) (JsMap.keys (rg_sessions (grpc_registry s))).

(** [call.write(envelope)] and what the router does with its result. *)
Definition grpc_write (t : GrpcSessionTracker) : GrpcSessionTracker :=
  let accepted := head (gs_writes t) ?? true in
  let t := set_gs_writes (tail (gs_writes t)) t in
  if accepted then t else set_gs_backpressured true t.

(** The [drain] event of the call, or the failure of waiting for it. *)
Definition grpc_drained (r : nat) (s : grpc_state) : grpc_state :=
  upd_grpc r (set_gs_backpressured false) s.

Definition grpc_sendFrameToBud (budId : string) (payload : frame) (s : grpc_state)
  : option bool * grpc_state :=
  match session_of budId (grpc_registry s) with
  | None => (Some false, s)
  | Some (r, t) =>
      if gs_destroyed t then (Some false, s)
      else if shouldBlockNewDaemonWork drain payload then (Some false, upd_grpc r (set_gs_drainState (Some Draining)) s)
      else if gs_backpressured t then (Some false, s)
      else if grpc_sends payload then
        let s := upd_grpc r grpc_write s in
        (Some true, mkGrpc (grpc_registry s) (grpc_wire s ++ [(budId, payload)]))
      else (None, s)
  end.

Definition grpc_getTransportStatus (budId : string) (s : grpc_state) : DaemonTransportStatus :=
  mkStatus (isGrpcBudOnline budId s) (if isGrpcBudOnline budId s then "h2_grpc" else "none").

#[export] Instance grpcDaemonTransportRouter : DaemonTransportRouter grpc_state := {
  getActiveBudIds := grpc_getActiveBudIds;
  isBudOnline := isGrpcBudOnline;
  sendFrameToBud := grpc_sendFrameToBud;
  getTransportStatus := grpc_getTransportStatus;
}.

(** [defaultRouters], and [daemonTransportRouter] under the configured policy. *)
Definition routers := composite ws_state grpc_state.

Definition daemonTransportRouter (configured : DaemonTransportPolicy) : DaemonTransportRouter routers :=
  createCompositeDaemonRouter (orderedControlTransportKinds configured None).

(** [sendDataPlaneControlFrame]: a control frame on the carrier the data plane
    of the tracker belongs to. *)
Definition sendDataPlaneControlFrame (tracker : DataPlaneSessionTracker) (payload : frame)
    (s : routers) : option bool * routers :=
  match dt_transportKind tracker with
  | DWebsocket => kind_send CWebsocket (dt_budId tracker) payload s
  | DH2Data => kind_send CH2Grpc (dt_budId tracker) payload s
  | DQuic => (Some false, s)
  end.

(** ** The routers keep the laws *)

#[export, refine] Instance ws_laws : RouterLaws ws_state := {| delivered := ws_wire |}.
Proof.
  - intros bud f s s'. cbn. unfold ws_sendFrameToBud. repeat case_match; by intros [= <-].
  - intros bud f s s' r. cbn. unfold ws_sendFrameToBud. repeat case_match; by intros [= <- <-].
  - done.
  - intros bud s. cbn. unfold ws_isBudOnline, session_of.
    destruct (JsMap.get bud _) as [r|] eqn:E; [|done]. intros _.
    destruct (decide (bud ∈ ws_getActiveBudIds s)) as [|Hn]; [done|].
    apply JsMap.get_None_keys in Hn. unfold ws_getActiveBudIds in *. congruence.
Defined.

#[export, refine] Instance grpc_laws : RouterLaws grpc_state := {| delivered := grpc_wire |}.
Proof.
  - intros bud f s s'. cbn. unfold grpc_sendFrameToBud. repeat case_match; by intros [= <-].
  - intros bud f s s' r. cbn. unfold grpc_sendFrameToBud. repeat case_match; by intros [= <- <-].
  - done.
  - intros bud s. cbn. intros Ho. unfold grpc_getActiveBudIds. apply list_elem_of_filter.
    split; [done|]. unfold isGrpcBudOnline, session_of in Ho.
    destruct (JsMap.get bud _) as [r|] eqn:E; [|done].
    destruct (decide (bud ∈ JsMap.keys (rg_sessions (grpc_registry s)))) as [|Hn]; [done|].
    apply JsMap.get_None_keys in Hn. congruence.
Defined.

(** ** Which carrier takes a frame *)

Definition ws_takes (bud : string) (f : frame) (s : routers) : bool :=
  match session_of bud (ws_registry (cr_websocket s)) with
  | Some (_, t) => ws_open t && negb (shouldBlockNewDaemonWork drain f)
                   && (ws_supportsEnvelopeBinary t ?? false) && ws_sends f
  | None => false
  end.

Definition grpc_takes (bud : string) (f : frame) (s : routers) : bool :=
  match session_of bud (grpc_registry (cr_h2_grpc s)) with
  | Some (_, t) => negb (gs_finalized t) && negb (gs_destroyed t)
                   && negb (shouldBlockNewDaemonWork drain f)
                   && negb (gs_backpressured t) && grpc_sends f
  | None => false
  end.

Definition kind_takes (k : ControlTransportKind) : string -> frame -> routers -> bool :=
  match k with CWebsocket => ws_takes | CH2Grpc => grpc_takes end.

(** What a send that a kind refuses leaves for the other kind. *)
Lemma kind_send_takes k bud f s :
  kind_online k bud s = true ->
  ((kind_send k bud f s).1 = Some true <-> kind_takes k bud f s = true)
  /\ forall k', k' <> k -> kind_online k' bud (kind_send k bud f s).2 = kind_online k' bud s
       /\ kind_takes k' bud f (kind_send k bud f s).2 = kind_takes k' bud f s.
Proof.
  destruct k; cbn; intros Ho; (split; [|intros [] Hk; try done]).
  - unfold ws_sendFrameToBud, ws_takes, ws_isBudOnline in *.
    destruct (session_of _ _) as [[r t]|]; [|done]. rewrite Ho. cbn.
    destruct (shouldBlockNewDaemonWork drain f); [done|]. cbn.
    destruct (ws_supportsEnvelopeBinary t) as [[]|]; try done. cbn. by destruct (ws_sends f).
  - unfold ws_sendFrameToBud. repeat case_match; simplify_eq/=; done.
  - unfold grpc_sendFrameToBud, grpc_takes, isGrpcBudOnline in *.
    destruct (session_of _ _) as [[r t]|]; [|done].
    apply andb_true_iff in Ho as [-> Hd]. rewrite Hd. apply negb_true_iff in Hd as ->. cbn.
    destruct (shouldBlockNewDaemonWork drain f); [done|]. cbn.
    destruct (gs_backpressured t); [done|]. cbn. by destruct (grpc_sends f).
  - unfold grpc_sendFrameToBud. repeat case_match; simplify_eq/=; done.
Qed.

Lemma kind_takes_online k bud f s : kind_takes k bud f s = true -> kind_online k bud s = true.
Proof.
  destruct k; cbn; unfold ws_takes, grpc_takes, ws_isBudOnline, isGrpcBudOnline;
    destruct (session_of _ _) as [[r t]|]; try done;
    intros Ht; repeat (apply andb_true_iff in Ht as [Ht ?]); rewrite ?Ht; naive_solver.
Qed.

(** The two-carrier loop. *)
Lemma composite_send_two k1 k2 bud f s :
  k1 <> k2 ->
  (composite_send [k1; k2] bud f s).1 = kind_takes k1 bud f s || kind_takes k2 bud f s.
Proof.
  intros Hne. cbn [composite_send].
  destruct (kind_online k1 bud s) eqn:O1.
  - pose proof (kind_send_takes k1 bud f s O1) as [T1 T1'].
    destruct (kind_send k1 bud f s) as [r1 s1] eqn:E1. cbn [fst snd] in *.
    destruct (T1' k2 ltac:(done)) as [O2 T2].
    destruct (decide (r1 = Some true)) as [->|Hr].
    + by rewrite (proj1 T1 eq_refl).
    + assert (kind_takes k1 bud f s = false) as ->
        by (apply not_true_is_false; by rewrite <- T1). cbn [orb].
      rewrite <- T2.
      transitivity (if kind_online k2 bud s1
                    then match kind_send k2 bud f s1 with
                         | (Some true, _) => true | _ => false end else false).
      { destruct r1 as [[]|]; try done; destruct (kind_online k2 bud s1); try done;
          by destruct (kind_send k2 bud f s1) as [[[]|] ?]. }
      destruct (kind_online k2 bud s1) eqn:Ok2.
      * pose proof (kind_send_takes k2 bud f s1 Ok2) as [T _].
        destruct (kind_send k2 bud f s1) as [[[]|] ?]; cbn in T; symmetry;
          (apply not_true_is_false || apply T); naive_solver.
      * symmetry. apply not_true_is_false. intros Ht%kind_takes_online. congruence.
  - assert (kind_takes k1 bud f s = false) as ->
      by (apply not_true_is_false; intros Ht%kind_takes_online; congruence). cbn [orb].
    destruct (kind_online k2 bud s) eqn:Ok2.
    + pose proof (kind_send_takes k2 bud f s Ok2) as [T _].
      destruct (kind_send k2 bud f s) as [[[]|] ?]; cbn in T |- *; symmetry;
        (apply not_true_is_false || apply T); naive_solver.
    + symmetry. apply not_true_is_false. intros Ht%kind_takes_online. congruence.
Qed.

(** C18: The service's daemon router over the real WebSocket and gRPC routers:
    under every policy a send returns true exactly when one of the two carriers
    of the bud can take the frame, and then the frame is written exactly once,
    else nothing is written; while the gateway drains, a frame that starts
    long-lived work is never written on either carrier. *)
Theorem daemon_router_send (configured : DaemonTransportPolicy) (bud : string) (f : frame)
    (s : routers) :
  let '(r, s') := @sendFrameToBud _ (daemonTransportRouter configured) bud f s in
  r = Some (ws_takes bud f s || grpc_takes bud f s)
  /\ composite_delivered s'
     ≡ₚ composite_delivered s ++ (if ws_takes bud f s || grpc_takes bud f s then [(bud, f)] else [])
  /\ (shouldBlockNewDaemonWork drain f = true ->
      r = Some false /\ composite_delivered s' ≡ₚ composite_delivered s).
Proof.
  cbn [sendFrameToBud daemonTransportRouter createCompositeDaemonRouter].
  pose proof (composite_send_delivered (orderedControlTransportKinds configured None) bud f s) as Hd.
  assert (Ht : (composite_send (orderedControlTransportKinds configured None) bud f s).1
               = ws_takes bud f s || grpc_takes bud f s).
  { destruct configured; cbn [orderedControlTransportKinds CONTROL_ORDER default from_option];
      rewrite composite_send_two by done; cbn [kind_takes]; auto using orb_comm. }
  destruct (composite_send _ bud f s) as [r s']. specialize (Hd s' r eq_refl). cbn [fst] in Ht.
  subst r. split_and!; [done | done|]. intros Hb.
  assert (Hno : ws_takes bud f s || grpc_takes bud f s = false).
  { unfold ws_takes, grpc_takes. rewrite Hb.
    repeat case_match; by rewrite ?andb_false_r. }
  rewrite Hno in *. by rewrite app_nil_r in Hd.
Qed.
End Routers.

(** ** Histories of a registry *)

Section History.
Context {T : Type} `{Tracker T}.
(** How a gateway sets a timer on a tracker. *)
Context (set_timeout : nat -> T -> T) (set_timeout_budId : forall h t, tk_budId (set_timeout h t) = tk_budId t).

(** What the gateways do to a registry: register a tracker, delete one on its
    close or timeout, set or clear its timer. *)
Inductive reg_op :=
  | ORegister (r : nat)
  | ODelete (r : nat)
  | OArm (r h : nat)
  | OClear (r : nat).

Definition arm (r h : nat) (g : registry T) : registry T :=
  let g := clear_timeout (Some r) g in
  mkRegistry (alter (set_timeout h) r (rg_objs g)) (rg_sessions g) (rg_cleared g).

Definition reg_exec (op : reg_op) (gp : registry T * presence) : registry T * presence :=
  let '(g, p) := gp in
  match op with
  | ORegister r => let '(_, g, p) := register_active r g p in (g, p)
  | ODelete r => let '(_, g, p) := delete_if_current (Some r) g p in (g, p)
  | OArm r h => (arm r h g, p)
  | OClear r => (clear_timeout (Some r) g, p)
  end.

Definition reg_run (ops : list reg_op) (gp : registry T * presence) : registry T * presence :=
  foldl (fun gp op => reg_exec op gp) gp ops.

(** The tracker that serves a bud, from the history, latest operation first: the
    last one registered for it, unless that one itself was deleted since. *)
Fixpoint current (bud_of : nat -> option string) (bud : string) (ops : list reg_op) : option nat :=
  match ops with
  | [] => None
  | ORegister r :: ops =>
      if decide (bud_of r = Some bud) then Some r else current bud_of bud ops
  | ODelete r :: ops =>
      if decide (current bud_of bud ops = Some r) then None else current bud_of bud ops
  | _ :: ops => current bud_of bud ops
  end.

Definition bud_of (g : registry T) (r : nat) : option string := tk_budId <$> rg_objs g !! r.

Lemma clear_timeout_sessions r (g : registry T) : rg_sessions (clear_timeout r g) = rg_sessions g.
Proof. unfold clear_timeout. by repeat case_match. Qed.

Lemma clear_timeout_bud_of r (g : registry T) i : bud_of (clear_timeout r g) i = bud_of g i.
Proof.
  unfold clear_timeout, bud_of. destruct r as [r|]; cbn; [|done].
  destruct (rg_objs g !! r) as [t|] eqn:E; cbn; [|done]. destruct (tk_timeout t); [|done]. cbn.
  destruct (decide (i = r)) as [->|]; [|by rewrite lookup_insert_ne].
  rewrite lookup_insert_eq, E. cbn. by rewrite tk_unset_budId.
Qed.

Lemma reg_exec_bud_of op g p i : bud_of (reg_exec op (g, p)).1 i = bud_of g i.
Proof.
  destruct op as [r|r|r h|r]; cbn.
  - unfold register_active. destruct (rg_objs g !! r); [|done]. cbn.
    apply (clear_timeout_bud_of _ g i).
  - unfold delete_if_current. destruct (rg_objs g !! r) as [t|] eqn:E; cbn; rewrite ?E; [|done].
    cbn. case_bool_decide; [|done].
    apply (clear_timeout_bud_of (Some r) (mkRegistry (rg_objs g) _ (rg_cleared g))).
  - rewrite <- (clear_timeout_bud_of (Some r) g i). unfold arm, bud_of. cbn [rg_objs].
    set (m := rg_objs (clear_timeout (Some r) g)).
    destruct (decide (i = r)) as [->|]; [|by rewrite lookup_alter_ne].
    rewrite lookup_alter_eq. destruct (m !! r); cbn; [|done]. by rewrite set_timeout_budId.
  - apply clear_timeout_bud_of.
Qed.

Lemma reg_run_bud_of ops gp i : bud_of (reg_run ops gp).1 i = bud_of gp.1 i.
Proof.
  revert gp. induction ops as [|op ops IH]; intros gp; [done|].
  change (reg_run (op :: ops) gp) with (reg_run ops (reg_exec op gp)).
  rewrite IH. destruct gp. apply reg_exec_bud_of.
Qed.

(** One operation: what it does to the sessions, and whom it notifies. *)
Definition reg_effect (op : reg_op) (g : registry T) (p : presence) (gp' : registry T * presence)
  : Prop :=
  match op with
  | ORegister r =>
      match bud_of g r with
      | Some b => rg_sessions gp'.1 = JsMap.set b r (rg_sessions g) /\ gp'.2 = notifyPresence b p
      | None => gp' = (g, p)
      end
  | ODelete r =>
      match bud_of g r with
      | Some b =>
          if decide (JsMap.get b (rg_sessions g) = Some r)
          then rg_sessions gp'.1 = JsMap.delete b (rg_sessions g) /\ gp'.2 = notifyPresence b p
          else gp' = (g, p)
      | None => gp' = (g, p)
      end
  | _ => rg_sessions gp'.1 = rg_sessions g /\ gp'.2 = p
  end.

Lemma reg_exec_effect op g p : reg_effect op g p (reg_exec op (g, p)).
Proof.
  destruct op as [r|r|r h|r]; cbn; unfold bud_of.
  - unfold register_active. destruct (rg_objs g !! r); cbn; [|done].
    by rewrite clear_timeout_sessions.
  - unfold delete_if_current. cbn. destruct (rg_objs g !! r); cbn; [|done].
    case_bool_decide; [rewrite decide_True by done | by rewrite decide_False].
    cbn. by rewrite clear_timeout_sessions.
  - by rewrite clear_timeout_sessions.
  - by rewrite clear_timeout_sessions.
Qed.

Lemma current_bud_of bo bud ops r : current bo bud ops = Some r -> bo r = Some bud.
Proof. induction ops as [|[] ops IH]; cbn; repeat case_decide; naive_solver. Qed.

Lemma reg_run_current ops (g : registry T) p bud :
  rg_sessions g = [] ->
  JsMap.get bud (rg_sessions (reg_run ops (g, p)).1) = current (bud_of g) bud (rev ops).
Proof.
  intros Hg. induction ops as [|op ops IH] using rev_ind; [by cbn; rewrite Hg|].
  unfold reg_run in *. rewrite foldl_app, rev_app_distr. cbn [foldl rev app].
  pose proof (reg_run_bud_of ops (g, p)) as Hb. unfold reg_run in Hb.
  set (gp := foldl _ _ ops) in *. destruct gp as [g1 p1]. cbn [fst] in *.
  pose proof (reg_exec_effect op g1 p1) as He. destruct op as [r|r|r h|r]; cbn [reg_effect current] in *.
  - rewrite Hb in He. destruct (bud_of g r) as [b|] eqn:Eb; cbn [fst] in *.
    + destruct He as [-> _]. rewrite JsMap.get_set, IH. repeat case_decide; naive_solver.
    + rewrite He. cbn [fst]. by rewrite decide_False by done.
  - rewrite Hb in He. destruct (bud_of g r) as [b|] eqn:Eb; cbn [fst] in *.
    + destruct (decide (JsMap.get b (rg_sessions g1) = Some r)) as [Hd|Hd].
      * destruct He as [-> _]. rewrite JsMap.get_delete, IH.
        destruct (decide (bud = b)) as [->|Hne].
        -- rewrite decide_True; [done | by rewrite <- IH].
        -- rewrite decide_False; [done|]. intros Hc. apply Hne.
           apply current_bud_of in Hc. congruence.
      * rewrite He. cbn [fst]. rewrite IH, decide_False; [done|].
        intros Hc. apply Hd. pose proof (current_bud_of _ _ _ _ Hc). congruence.
    + rewrite He. cbn [fst]. rewrite IH, decide_False; [done|].
      intros Hc. apply current_bud_of in Hc. congruence.
  - by destruct He as [-> _].
  - by destruct He as [-> _].
Qed.

(** C19: A registry of sessions, through any history of registrations, closes,
    timeouts and timer changes: the tracker that serves a bud is the last one
    registered for it, unless that tracker itself was deleted since. So the close or the
    timeout of a superseded connection never takes its successor offline; and
    an operation notifies the presence listeners exactly when it registers a
    tracker or removes the current one. *)
Theorem registry_serves_last (ops : list reg_op) (op : reg_op) (g : registry T) (p : presence)
    (bud : string) :
  rg_sessions g = [] ->
  let '(g1, p1) := reg_run ops (g, p) in
  JsMap.get bud (rg_sessions g1) = current (bud_of g) bud (rev ops)
  /\ reg_effect op g1 p1 (reg_exec op (g1, p1)).
Proof.
  intros Hg. pose proof (reg_run_current ops g p bud Hg) as Hc.
  destruct (reg_run ops (g, p)) as [g1 p1]. split; [exact Hc | apply reg_exec_effect].
Qed.
End History.

(** Connection 1 replaces connection 0 of the same bud; the old one then closes. *)
Definition reconnected : registry SessionTracker :=
  let s i := mkSession "b" i JUndef None None (Some DrainActive) 0 true (Some true) None None None None in
  mkRegistry (<[0%nat := s "s0"]> {[1%nat := s "s1"]}) [] [].

Lemma registry_serves_last_witness :
  let ops := [ORegister 0; OArm 0 7; ORegister 1; ODelete 0] in
  JsMap.get "b" (rg_sessions (reg_run (fun h => set_ws_timeout (Some h)) ops (reconnected, mkPresence [5%nat] [])).1)
  = Some 1%nat.
Proof.
  pose proof (registry_serves_last (fun h => set_ws_timeout (Some h)) (fun _ _ => eq_refl)
    [ORegister 0; OArm 0 7; ORegister 1; ODelete 0] (OClear 0) reconnected
    (mkPresence [5%nat] []) "b" eq_refl) as H.
  cbn zeta. destruct (reg_run _ _ _) as [g1 p1] eqn:E. cbn [fst].
  destruct H as [H _]. rewrite H. vm_compute. reflexivity.
Defined.
