(* ===== verification/Json.v ===== *)
(** Text: UTF-8 and JSON.

    A JavaScript string is a Rocq [string] that holds its UTF-8 form, so
    [Buffer.from(s, "utf-8")] is the bytes of [s], and [buffer.toString("utf-8")]
    is [utf8_text], which replaces what is not well formed by U+FFFD.  Lone
    surrogates, which UTF-8 cannot carry, are outside the model.

    [JSON_stringify] and [JSON_parse] are the functions of the language on
    [jsval].  An integer up to 2^53 is printed in decimal; the text of other
    finite numbers is left to the class [NumberText], whose law says of some
    numbers that their text reads back, as ECMAScript requires of every double. *)
From Stdlib Require Import ZArith QArith Qround Lia Ascii DecimalString DecimalZ.
From stdpp Require Import base tactics strings gmap sorting option.
From stdpp Require Import list.
From S2P Require Import Prelude JsRuntime.

(** ** Concatenation *)

Lemma str_app_cons c a b : String c a +:+ b = String c (a +:+ b).
Proof. done. Qed.
Lemma str_app_nil_l b : "" +:+ b = b.
Proof. done. Qed.
Lemma str_app_nil a : a +:+ "" = a.
Proof. induction a as [|c a IH]; [done|]. by rewrite str_app_cons, IH. Qed.
Lemma str_app_assoc a b c : (a +:+ b) +:+ c = a +:+ (b +:+ c).
Proof. induction a as [|x a IH]; [done|]. by rewrite !str_app_cons, IH. Qed.
Lemma str_length_app a b : String.length (a +:+ b) = (String.length a + String.length b)%nat.
Proof. induction a as [|x a IH]; [done|]. rewrite str_app_cons. cbn. by rewrite IH. Qed.

Ltac str_simpl := repeat rewrite ?str_app_assoc, ?str_app_cons, ?str_app_nil_l.

(** ** UTF-8 *)

Definition code (c : ascii) : N := N_of_ascii c.
Definition within (lo hi : N) (c : ascii) : bool := (lo <=? code c)%N && (code c <=? hi)%N.

Definition continuation (c : ascii) : bool := within 128 191 c.

(** The second byte of a sequence of three or four excludes overlong forms,
    surrogates and what is above U+10FFFF. *)
Definition second_ok (b0 b1 : ascii) : bool :=
  if (code b0 =? 224)%N then within 160 191 b1
  else if (code b0 =? 237)%N then within 128 159 b1
  else if (code b0 =? 240)%N then within 144 191 b1
  else if (code b0 =? 244)%N then within 128 143 b1
  else continuation b1.

(** U+FFFD. *)
Definition REPLACEMENT : string :=
  String (ascii_of_N 239) (String (ascii_of_N 191) (String (ascii_of_N 189) "")).

(** [buffer.toString("utf-8")]: one replacement per maximal ill-formed part. *)
Fixpoint utf8_text (s : string) : string :=
  match s with
  | EmptyString => ""
  | String b0 r0 =>
      if (code b0 <? 128)%N then String b0 (utf8_text r0)
      else if within 194 223 b0 then
        match r0 with
        | EmptyString => REPLACEMENT
        | String b1 r1 =>
            if continuation b1 then String b0 (String b1 (utf8_text r1))
            else REPLACEMENT +:+ utf8_text r0
        end
      else if within 224 239 b0 then
        match r0 with
        | EmptyString => REPLACEMENT
        | String b1 r1 =>
            if second_ok b0 b1 then
              match r1 with
              | EmptyString => REPLACEMENT
              | String b2 r2 =>
                  if continuation b2 then String b0 (String b1 (String b2 (utf8_text r2)))
                  else REPLACEMENT +:+ utf8_text r1
              end
            else REPLACEMENT +:+ utf8_text r0
        end
      else if within 240 244 b0 then
        match r0 with
        | EmptyString => REPLACEMENT
        | String b1 r1 =>
            if second_ok b0 b1 then
              match r1 with
              | EmptyString => REPLACEMENT
              | String b2 r2 =>
                  if continuation b2 then
                    match r2 with
                    | EmptyString => REPLACEMENT
                    | String b3 r3 =>
                        if continuation b3
                        then String b0 (String b1 (String b2 (String b3 (utf8_text r3))))
                        else REPLACEMENT +:+ utf8_text r2
                    end
                  else REPLACEMENT +:+ utf8_text r1
              end
            else REPLACEMENT +:+ utf8_text r0
        end
      else REPLACEMENT +:+ utf8_text r0
  end.

(** Well-formed UTF-8. *)
Fixpoint valid_utf8 (s : string) : bool :=
  match s with
  | EmptyString => true
  | String b0 r0 =>
      if (code b0 <? 128)%N then valid_utf8 r0
      else if within 194 223 b0 then
        match r0 with
        | String b1 r1 => continuation b1 && valid_utf8 r1
        | _ => false
        end
      else if within 224 239 b0 then
        match r0 with
        | String b1 (String b2 r2) => second_ok b0 b1 && continuation b2 && valid_utf8 r2
        | _ => false
        end
      else if within 240 244 b0 then
        match r0 with
        | String b1 (String b2 (String b3 r3)) =>
            second_ok b0 b1 && continuation b2 && continuation b3 && valid_utf8 r3
        | _ => false
        end
      else false
  end.

(** Induction over the sequences of a well-formed string. *)
Lemma valid_utf8_ind (P : string -> Prop) :
  P "" ->
  (forall b r, (code b <? 128)%N = true -> valid_utf8 r = true -> P r -> P (String b r)) ->
  (forall b0 b1 r, (code b0 <? 128)%N = false -> within 194 223 b0 = true ->
     continuation b1 = true -> valid_utf8 r = true -> P r -> P (String b0 (String b1 r))) ->
  (forall b0 b1 b2 r, (code b0 <? 128)%N = false -> within 194 223 b0 = false ->
     within 224 239 b0 = true -> second_ok b0 b1 = true -> continuation b2 = true ->
     valid_utf8 r = true -> P r -> P (String b0 (String b1 (String b2 r)))) ->
  (forall b0 b1 b2 b3 r, (code b0 <? 128)%N = false -> within 194 223 b0 = false ->
     within 224 239 b0 = false -> within 240 244 b0 = true -> second_ok b0 b1 = true ->
     continuation b2 = true -> continuation b3 = true ->
     valid_utf8 r = true -> P r -> P (String b0 (String b1 (String b2 (String b3 r))))) ->
  forall s, valid_utf8 s = true -> P s.
Proof.
  intros H0 H1 H2 H3 H4 s. remember (String.length s) as n eqn:En.
  assert (Hn : (String.length s <= n)%nat) by lia. clear En. revert s Hn.
  induction n as [|n IH]; intros [|b0 r] Hn Hv; [done | cbn in Hn; lia | done|].
  cbn in Hn, Hv. destruct (code b0 <? 128)%N eqn:E1; [apply H1; [done | done | apply IH; [lia | done]]|].
  destruct (within 194 223 b0) eqn:E2.
  { destruct r as [|b1 r]; [done|]. cbn in Hn. zbool. apply H2; try done. apply IH; [lia | done]. }
  destruct (within 224 239 b0) eqn:E3.
  { destruct r as [|b1 [|b2 r]]; try done. cbn in Hn. zbool.
    apply H3; try done. apply IH; [lia | done]. }
  destruct (within 240 244 b0) eqn:E4; [|done].
  destruct r as [|b1 [|b2 [|b3 r]]]; try done. cbn in Hn. zbool.
  apply H4; try done. apply IH; [lia | done].
Qed.

(** Follow the branch the byte tests select. *)
Ltac utf8_branch :=
  repeat match goal with
  | H : ?x = true |- context [?x] => rewrite H
  | H : ?x = false |- context [?x] => rewrite H
  end.

Lemma utf8_text_app a b : valid_utf8 a = true -> utf8_text (a +:+ b) = a +:+ utf8_text b.
Proof.
  revert a. apply valid_utf8_ind; intros; str_simpl; cbn; utf8_branch; congruence.
Qed.

Lemma utf8_text_valid s : valid_utf8 s = true -> utf8_text s = s.
Proof.
  intros Hv. pose proof (utf8_text_app s "" Hv) as E.
  cbn in E. by rewrite !str_app_nil in E.
Qed.

Lemma valid_utf8_app a b : valid_utf8 a = true -> valid_utf8 (a +:+ b) = valid_utf8 b.
Proof.
  revert a. apply valid_utf8_ind; intros; str_simpl; cbn; utf8_branch; done.
Qed.

(** ** Numbers *)

#[export] Instance Q_leibniz_dec : EqDecision Q.
Proof. solve_decision. Defined.

#[export] Instance jsnum_eq_dec : EqDecision jsnum.
Proof. solve_decision. Defined.

#[export] Instance jsval_eq_dec : EqDecision jsval.
Proof.
  refine (fix go x y := let _ : EqDecision jsval := @go in
    match x, y with
    | JUndef, JUndef | JNull, JNull => left _
    | JBool a, JBool b => cast_if (decide (a = b))
    | JNum a, JNum b => cast_if (decide (a = b))
    | JStr a, JStr b => cast_if (decide (a = b))
    | JArr a, JArr b => cast_if (decide (a = b))
    | JObj a, JObj b => cast_if (decide (a = b))
    | _, _ => right _
    end); abstract congruence.
Defined.

(** [Number(bigint)]: rounding to 53 bits, halves to even. *)
Definition number_of_bigint (z : Z) : Z :=
  let a := Z.abs z in
  if (a <=? 2 ^ 53)%Z then z
  else
    let e := (Z.log2 a - 52)%Z in
    let m := Z.shiftr a e in
    let rest := (a - Z.shiftl m e)%Z in
    let half := Z.shiftl 1 (e - 1) in
    let m := if (half <? rest)%Z || ((rest =? half)%Z && Z.odd m) then (m + 1)%Z else m in
    (Z.sgn z * Z.shiftl m e)%Z.

Lemma number_of_bigint_small z : (Z.abs z <= 2 ^ 53)%Z -> number_of_bigint z = z.
Proof. intros Hz. unfold number_of_bigint. by rewrite (proj2 (Z.leb_le _ _) Hz). Qed.

(** The text of numbers that are not small integers, and reading it. *)
Class NumberText := {
  frac_text : Q -> string;
  frac_value : string -> option Q;
}.

(** [Number.isInteger]. *)
Definition as_integer (q : Q) : option Z :=
  if Qeq_bool q (inject_Z (Qfloor q)) then Some (Qfloor q) else None.

Lemma as_integer_Z z : as_integer (inject_Z z) = Some z.
Proof. unfold as_integer. rewrite Qfloor_Z. by rewrite (proj2 (Qeq_bool_iff _ _) (Qeq_refl _)). Qed.

Definition int_text (z : Z) : string := NilZero.string_of_int (Z.to_int z).

Section Numbers.
Context `{NumberText}.

(** [String(n)] of a finite number. *)
Definition number_text (q : Q) : string :=
  match as_integer q with
  | Some z => if (Z.abs z <=? 2 ^ 53)%Z then int_text z else frac_text q
  | None => frac_text q
  end.

(** The number of a JSON token: a canonical integer, or what the text of other
    numbers stands for. *)
Definition read_number (tok : string) : option Q :=
  match NilZero.int_of_string tok with
  | Some d =>
      let z := Z.of_int d in
      if bool_decide (int_text z = tok) then Some (inject_Z (number_of_bigint z)) else frac_value tok
  | None => frac_value tok
  end.

Definition number_char (c : ascii) : bool :=
  within 48 57 c || (code c =? 45)%N || (code c =? 43)%N || (code c =? 46)%N
  || (code c =? 69)%N || (code c =? 101)%N.

Definition number_start (c : ascii) : bool := within 48 57 c || (code c =? 45)%N.

Fixpoint str_forall (p : ascii -> bool) (s : string) : bool :=
  match s with EmptyString => true | String c s => p c && str_forall p s end.

(** A number whose text is a JSON token that reads back. *)
Definition printable (q : Q) : bool :=
  bool_decide (read_number (number_text q) = Some q)
  && str_forall number_char (number_text q)
  && match number_text q with String c _ => number_start c | EmptyString => false end.

(** The same, and exact when an integer. *)
Definition number_ok (q : Q) : bool :=
  printable q && match as_integer q with Some z => (Z.abs z <=? 2 ^ 53)%Z | None => true end.

Lemma int_of_text z : NilZero.int_of_string (int_text z) = Some (Z.to_int z).
Proof. unfold int_text. apply NilZero.isi; destruct z as [|p|p]; cbn; try done; intros [= E];
  by apply (DecimalPos.Unsigned.to_uint_nonnil p). Qed.

Lemma read_int_text z : (Z.abs z <= 2 ^ 53)%Z -> read_number (int_text z) = Some (inject_Z z).
Proof.
  intros Hz. unfold read_number. rewrite int_of_text. cbn. rewrite DecimalZ.of_to.
  by rewrite bool_decide_true, number_of_bigint_small.
Qed.

Lemma uint_text_chars d : str_forall (within 48 57) (NilEmpty.string_of_uint d) = true.
Proof. by induction d; cbn. Qed.

Lemma str_forall_impl (p q : ascii -> bool) s :
  (forall c, p c = true -> q c = true) -> str_forall p s = true -> str_forall q s = true.
Proof.
  intros Hpq. induction s as [|c s IH]; cbn; [done|]. rewrite !andb_true_iff. naive_solver.
Qed.

Lemma int_printable z : (Z.abs z <= 2 ^ 53)%Z -> printable (inject_Z z) = true.
Proof.
  intros Hz. unfold printable, number_text. rewrite as_integer_Z, (proj2 (Z.leb_le _ _) Hz).
  rewrite read_int_text, bool_decide_true by done. cbn [andb].
  assert (Hd : forall d, d <> Decimal.Nil -> str_forall number_char (NilEmpty.string_of_uint d) = true
            /\ match NilEmpty.string_of_uint d with String c _ => number_start c | _ => false end = true).
  { intros d Hd. split; [|by destruct d].
    eapply str_forall_impl; [|apply uint_text_chars]. intros c Hc. unfold number_char. by rewrite Hc. }
  assert (Hu : forall d, d <> Decimal.Nil -> NilZero.string_of_uint d = NilEmpty.string_of_uint d)
    by by intros [].
  unfold int_text. destruct z as [|p|p]; [done| |]; cbn [Z.to_int NilZero.string_of_int];
    rewrite Hu by apply DecimalPos.Unsigned.to_uint_nonnil;
    destruct (Hd (Pos.to_uint p) (DecimalPos.Unsigned.to_uint_nonnil p)) as [H1 H2].
  - by rewrite H1, H2.
  - cbn [str_forall]. by rewrite H1.
Qed.

Lemma int_number_ok z : (Z.abs z <= 2 ^ 53)%Z -> number_ok (inject_Z z) = true.
Proof.
  intros Hz. unfold number_ok. rewrite int_printable, as_integer_Z by done. cbn [andb].
  by apply Z.leb_le.
Qed.
End Numbers.

(** ** JSON.stringify *)

Definition dquote : ascii := ascii_of_N 34.
Definition bslash : ascii := ascii_of_N 92.

Definition hex_digit (n : N) : ascii := ascii_of_N (if (n <? 10)%N then 48 + n else 87 + n).

Definition escape_char (c : ascii) : string :=
  if (code c =? 34)%N then String bslash (String dquote "")
  else if (code c =? 92)%N then String bslash (String bslash "")
  else if (code c =? 8)%N then String bslash "b"
  else if (code c =? 12)%N then String bslash "f"
  else if (code c =? 10)%N then String bslash "n"
  else if (code c =? 13)%N then String bslash "r"
  else if (code c =? 9)%N then String bslash "t"
  else if (code c <? 32)%N then
    String bslash "u00"
    +:+ String (hex_digit (code c / 16)) (String (hex_digit (code c mod 16)) "")
  else String c "".

Fixpoint escape (s : string) : string :=
  match s with EmptyString => "" | String c s => escape_char c +:+ escape s end.

Definition quote (s : string) : string := String dquote (escape s +:+ String dquote "").

Fixpoint join (sep : string) (l : list string) : string :=
  match l with
  | [] => ""
  | [x] => x
  | x :: l => x +:+ sep +:+ join sep l
  end.

Section Json.
Context `{NumberText}.

(** [undefined] is left out of objects and null in arrays; numbers that are not
    finite are null. *)
Fixpoint JSON_stringify (v : jsval) : string :=
  match v with
  | JUndef | JNull => "null"
  | JBool b => if b then "true" else "false"
  | JNum (JFin q) => number_text q
  | JNum _ => "null"
  | JStr s => quote s
  | JArr l =>
      let fix elements l :=
        match l with [] => [] | v :: l => JSON_stringify v :: elements l end in
      "[" +:+ join "," (elements l) +:+ "]"
  | JObj fs =>
      let fix members fs :=
        match fs with
        | [] => []
        | (k, JUndef) :: fs => members fs
        | (k, v) :: fs => (quote k +:+ ":" +:+ JSON_stringify v) :: members fs
        end in
      "{" +:+ join "," (members fs) +:+ "}"
  end.

(** ** JSON.parse *)

Definition whitespace (c : ascii) : bool :=
  (code c =? 32)%N || (code c =? 9)%N || (code c =? 10)%N || (code c =? 13)%N.

Fixpoint skip_ws (s : string) : string :=
  match s with
  | String c r => if whitespace c then skip_ws r else s
  | EmptyString => ""
  end.

Definition hex_value (c : ascii) : option N :=
  if within 48 57 c then Some (code c - 48)%N
  else if within 97 102 c then Some (code c - 87)%N
  else if within 65 70 c then Some (code c - 55)%N
  else None.

Definition hex4 (a b c d : ascii) : option N :=
  a ← hex_value a; b ← hex_value b; c ← hex_value c; d ← hex_value d;
  Some (((a * 16 + b) * 16 + c) * 16 + d)%N.

(** The UTF-8 form of a code point. *)
Definition utf8_of (n : N) : string :=
  (let b x := ascii_of_N x in
   if n <? 128 then String (b n) ""
   else if n <? 2048 then String (b (192 + n / 64)) (String (b (128 + n mod 64)) "")
   else if n <? 65536 then
     String (b (224 + n / 4096)) (String (b (128 + n / 64 mod 64)) (String (b (128 + n mod 64)) ""))
   else
     String (b (240 + n / 262144)) (String (b (128 + n / 4096 mod 64))
       (String (b (128 + n / 64 mod 64)) (String (b (128 + n mod 64)) ""))))%N.

Definition simple_escape (e : ascii) : option string :=
  if (code e =? 34)%N || (code e =? 92)%N || (code e =? 47)%N then Some (String e "")
  else if (code e =? 98)%N then Some (String (ascii_of_N 8) "")
  else if (code e =? 102)%N then Some (String (ascii_of_N 12) "")
  else if (code e =? 110)%N then Some (String (ascii_of_N 10) "")
  else if (code e =? 114)%N then Some (String (ascii_of_N 13) "")
  else if (code e =? 116)%N then Some (String (ascii_of_N 9) "")
  else None.

Definition prepend (x : string) (o : option (string * string)) : option (string * string) :=
  '(s, r) ← o; Some (x +:+ s, r).

(** The characters of a string up to its closing quote. A surrogate escape that
    is not part of a pair reads as U+FFFD. *)
Fixpoint parse_chars (s : string) : option (string * string) :=
  match s with
  | EmptyString => None
  | String c r =>
      if (code c =? 34)%N then Some ("", r)
      else if (code c =? 92)%N then
        match r with
        | EmptyString => None
        | String e r1 =>
            match simple_escape e with
            | Some x => prepend x (parse_chars r1)
            | None =>
                if negb (code e =? 117)%N then None
                else
                  match r1 with
                  | String h1 (String h2 (String h3 (String h4 r2))) =>
                      match hex4 h1 h2 h3 h4 with
                      | None => None
                      | Some n =>
                          if (n <? 55296)%N || (57344 <=? n)%N
                          then prepend (utf8_of n) (parse_chars r2)
                          else if (56320 <=? n)%N then prepend REPLACEMENT (parse_chars r2)
                          else
                            match r2 with
                            | String b (String u (String l1 (String l2 (String l3 (String l4 r3))))) =>
                                match hex4 l1 l2 l3 l4 with
                                | Some m =>
                                    if (code b =? 92)%N && (code u =? 117)%N
                                       && (56320 <=? m)%N && (m <? 57344)%N
                                    then prepend (utf8_of (65536 + (n - 55296) * 1024 + (m - 56320)))
                                           (parse_chars r3)
                                    else prepend REPLACEMENT (parse_chars r2)
                                | None => prepend REPLACEMENT (parse_chars r2)
                                end
                            | _ => prepend REPLACEMENT (parse_chars r2)
                            end
                      end
                  | _ => None
                  end
            end
        end
      else if (code c <? 32)%N then None
      else prepend (String c "") (parse_chars r)
  end.

(** The longest prefix of number characters. *)
Fixpoint span_number (s : string) : string * string :=
  match s with
  | String c r =>
      if number_char c then let '(t, r) := span_number r in (String c t, r) else ("", s)
  | EmptyString => ("", "")
  end.

Fixpoint strip_prefix (p s : string) : option string :=
  match p, s with
  | EmptyString, _ => Some s
  | String a p, String b s => if bool_decide (a = b) then strip_prefix p s else None
  | _, _ => None
  end.

Definition is_char (n : N) (s : string) : option string :=
  match s with String c r => if (code c =? n)%N then Some r else None | _ => None end.

(** A value, the members of an object after its brace, the elements of an array
    after its bracket. *)
Fixpoint parse_value (fuel : nat) (s : string) : option (jsval * string) :=
  match fuel with
  | O => None
  | S fuel =>
      match skip_ws s with
      | EmptyString => None
      | String c r as s =>
          if (code c =? 123)%N then
            match is_char 125 (skip_ws r) with
            | Some r => Some (JObj [], r)
            | None => parse_members fuel [] r
            end
          else if (code c =? 91)%N then
            match is_char 93 (skip_ws r) with
            | Some r => Some (JArr [], r)
            | None => parse_elements fuel [] r
            end
          else if (code c =? 34)%N then '(x, r) ← parse_chars r; Some (JStr x, r)
          else if number_start c then
            let '(tok, r) := span_number s in q ← read_number tok; Some (JNum (JFin q), r)
          else
            match strip_prefix "null" s, strip_prefix "true" s, strip_prefix "false" s with
            | Some r, _, _ => Some (JNull, r)
            | _, Some r, _ => Some (JBool true, r)
            | _, _, Some r => Some (JBool false, r)
            | _, _, _ => None
            end
      end
  end
with parse_members (fuel : nat) (acc : list (string * jsval)) (s : string)
  : option (jsval * string) :=
  match fuel with
  | O => None
  | S fuel =>
      r ← is_char 34 (skip_ws s);
      '(k, r) ← parse_chars r;
      r ← is_char 58 (skip_ws r);
      '(v, r) ← parse_value fuel r;
      let acc := JsMap.set k v acc in
      match is_char 125 (skip_ws r) with
      | Some r => Some (JObj acc, r)
      | None => r ← is_char 44 (skip_ws r); parse_members fuel acc r
      end
  end
with parse_elements (fuel : nat) (acc : list jsval) (s : string) : option (jsval * string) :=
  match fuel with
  | O => None
  | S fuel =>
      '(v, r) ← parse_value fuel s;
      let acc := acc ++ [v] in
      match is_char 93 (skip_ws r) with
      | Some r => Some (JArr acc, r)
      | None => r ← is_char 44 (skip_ws r); parse_elements fuel acc r
      end
  end.

(** [JSON.parse]; [None] is a SyntaxError. Every level of nesting and every
    member reads a character, so the length of the text is enough fuel. *)
Definition JSON_parse (s : string) : option jsval :=
  '(v, r) ← parse_value (S (String.length s)) s;
  if bool_decide (skip_ws r = "") then Some v else None.

(** What the text of a value keeps: unique keys, well-formed strings, numbers
    that read back, no [undefined]. *)
Fixpoint plain (v : jsval) : bool :=
  match v with
  | JUndef => false
  | JNull | JBool _ => true
  | JNum (JFin q) => number_ok q
  | JNum _ => false
  | JStr s => valid_utf8 s
  | JArr l => forallb plain l
  | JObj fs =>
      bool_decide (NoDup fs.*1) && forallb (fun kv : string * jsval => valid_utf8 kv.1 && plain kv.2) fs
  end.
End Json.

(** ** Reading back *)

Lemma jsval_nested_ind (P : jsval -> Prop) :
  P JUndef -> P JNull -> (forall b, P (JBool b)) -> (forall n, P (JNum n)) -> (forall s, P (JStr s)) ->
  (forall l, Forall P l -> P (JArr l)) ->
  (forall fs : list (string * jsval), Forall (fun kv => P kv.2) fs -> P (JObj fs)) ->
  forall v, P v.
Proof.
  intros Hu Hn Hb Hm Hs Ha Ho. fix IH 1.
  intros [| |b|n|s|l|fs]; [exact Hu | exact Hn | apply Hb | apply Hm | apply Hs | |].
  - apply Ha. induction l; constructor; [apply IH | assumption].
  - apply Ho. induction fs as [|[k v] fs IHfs]; constructor; [apply IH | assumption].
Qed.

Lemma parse_escape_char c t : parse_chars (escape_char c +:+ t) = prepend (String c "") (parse_chars t).
Proof. destruct c as [[] [] [] [] [] [] [] []]; reflexivity. Qed.

Lemma parse_escape s rest : parse_chars (escape s +:+ String dquote rest) = Some (s, rest).
Proof.
  induction s as [|c s IH]; [done|]. cbn [escape]. str_simpl.
  rewrite parse_escape_char, IH. done.
Qed.

Lemma valid_escape s : valid_utf8 s = true -> valid_utf8 (escape s) = true.
Proof.
  assert (Hhi : forall c, (code c <? 128)%N = false -> escape_char c = String c "")
    by by intros [[] [] [] [] [] [] [] []].
  assert (Hlo : forall c, (code c <? 128)%N = true -> valid_utf8 (escape_char c) = true)
    by by intros [[] [] [] [] [] [] [] []].
  assert (Hc : forall c, continuation c = true -> (code c <? 128)%N = false)
    by by intros [[] [] [] [] [] [] [] []].
  assert (Hs : forall b0 c, second_ok b0 c = true -> (code c <? 128)%N = false).
  { intros b0 c. unfold second_ok. repeat case_match; intros Hw; apply N.ltb_ge;
      unfold continuation, within in Hw; apply andb_true_iff in Hw as [?%N.leb_le _]; lia. }
  revert s. apply valid_utf8_ind; cbn [escape]; intros; rewrite ?Hhi by eauto; str_simpl;
    rewrite ?valid_utf8_app by eauto; [done..| | |]; cbn; utf8_branch; done.
Qed.

Section RoundTrip.
Context `{NumberText}.

(** What may follow a value: not another number character. *)
Definition delimiter (s : string) : bool :=
  match s with String c _ => negb (number_char c) | EmptyString => true end.

Lemma span_number_app t rest :
  str_forall number_char t = true -> delimiter rest = true -> span_number (t +:+ rest) = (t, rest).
Proof.
  intros Ht Hd. induction t as [|c t IH]; cbn in *.
  - rewrite str_app_nil_l. destruct rest as [|c r]; [done|]. cbn in *. zbool. by rewrite Hd.
  - zbool. str_simpl. cbn. by rewrite H0, IH.
Qed.

Definition member_text (kv : string * jsval) : string :=
  quote kv.1 +:+ ":" +:+ JSON_stringify kv.2.

Lemma stringify_array l : JSON_stringify (JArr l) = "[" +:+ join "," (JSON_stringify <$> l) +:+ "]".
Proof. reflexivity. Qed.

Lemma stringify_object fs :
  forallb (fun kv : string * jsval => valid_utf8 kv.1 && plain kv.2) fs = true ->
  JSON_stringify (JObj fs) = "{" +:+ join "," (member_text <$> fs) +:+ "}".
Proof.
  intros Hp. cbn [JSON_stringify].
  match goal with |- "{" +:+ join "," (?m fs) +:+ "}" = _ =>
    assert (m fs = member_text <$> fs) as ->; [|done] end.
  induction fs as [|[k v] fs IH]; [done|]. cbn [forallb] in Hp.
  apply andb_true_iff in Hp as [Hv Hp]. specialize (IH Hp).
  destruct v; cbn in Hv; [by rewrite andb_false_r in Hv|..]; by rewrite fmap_cons, <- IH.
Qed.

(** The text of a value starts with a character that is not blank. *)
Lemma stringify_head v :
  plain v = true -> exists c r, JSON_stringify v = String c r /\ whitespace c = false
    /\ (code c =? 93)%N = false /\ (code c =? 125)%N = false
    /\ (match v with JNum _ => number_start c = true | _ => True end).
Proof.
  destruct v as [| |[]|[q| |]|s|l|fs]; intros Hp; try done; try by eexists _, _.
  cbn [plain JSON_stringify] in *. unfold number_ok, printable in Hp. zbool.
  destruct (number_text q) as [|c r]; [done|]. exists c, r.
  assert (whitespace c = false /\ (code c =? 93)%N = false /\ (code c =? 125)%N = false) as (?&?&?)
    by (revert H1; by destruct c as [[] [] [] [] [] [] [] []]). done.
Qed.

Lemma skip_ws_stringify v rest :
  plain v = true -> skip_ws (JSON_stringify v +:+ rest) = JSON_stringify v +:+ rest.
Proof. intros (c & r & -> & Hw & _)%stringify_head. str_simpl. cbn. by rewrite Hw. Qed.

Definition reads_back (v : jsval) : Prop :=
  plain v = true -> forall fuel rest,
    (String.length (JSON_stringify v) < fuel)%nat -> delimiter rest = true ->
    parse_value fuel (JSON_stringify v +:+ rest) = Some (v, rest).

Lemma join_cons sep x y l : join sep (x :: y :: l) = x +:+ sep +:+ join sep (y :: l).
Proof. done. Qed.

Lemma comma_here x : is_char 44 (skip_ws ("," +:+ x)) = Some x.
Proof. done. Qed.
Lemma comma_no_end n x : n <> 44%N -> is_char n (skip_ws ("," +:+ x)) = None.
Proof.
  intros Hn. change (skip_ws ("," +:+ x)) with (String "," x). unfold is_char.
  change (code ",") with 44%N. by rewrite (proj2 (N.eqb_neq _ _) (not_eq_sym Hn)).
Qed.

Lemma parse_elements_text l acc fuel rest :
  Forall reads_back l -> forallb plain l = true -> l <> [] ->
  (String.length (join "," (JSON_stringify <$> l)) + 1 < fuel)%nat ->
  parse_elements fuel acc (join "," (JSON_stringify <$> l) +:+ "]" +:+ rest) = Some (JArr (acc ++ l), rest).
Proof.
  intros Hl. revert acc fuel. induction Hl as [|v l Hv Hl IH]; intros acc fuel Hp Hne Hf; [done|].
  cbn [forallb] in Hp. apply andb_true_iff in Hp as [Hpv Hp].
  destruct fuel as [|fuel]; [lia|]. destruct l as [|v2 l].
  - cbn [fmap list_fmap join] in *. cbn [parse_elements].
    rewrite Hv by (done || lia). done.
  - rewrite !fmap_cons, join_cons in Hf |- *. rewrite !str_length_app in Hf. rewrite !str_app_assoc.
    cbn [parse_elements]. rewrite Hv by (done || lia).
    cbn [mbind option_bind]. rewrite comma_no_end, comma_here by done. cbn [mbind option_bind].
    rewrite <- fmap_cons, IH; [by rewrite <- app_assoc | done | done|].
    rewrite fmap_cons. cbn [String.length] in Hf. lia.
Qed.

Lemma member_text_app kv rest :
  member_text kv +:+ rest = String dquote (escape kv.1 +:+ String dquote (":" +:+ (JSON_stringify kv.2 +:+ rest))).
Proof. unfold member_text, quote. by str_simpl. Qed.

Lemma parse_member f kv acc rest :
  reads_back kv.2 -> plain kv.2 = true -> kv.1 ∉ acc.*1 ->
  (String.length (member_text kv) <= f)%nat -> delimiter rest = true ->
  parse_members (S f) acc (member_text kv +:+ rest)
  = match is_char 125 (skip_ws rest) with
    | Some r => Some (JObj (acc ++ [kv]), r)
    | None => r ← is_char 44 (skip_ws rest); parse_members f (acc ++ [kv]) r
    end.
Proof.
  intros Hv Hp Hk Hf Hd. rewrite member_text_app. cbn [parse_members].
  change (is_char 34 (skip_ws (String dquote ?x))) with (Some x). cbn [mbind option_bind].
  rewrite parse_escape. cbn [mbind option_bind].
  change (is_char 58 (skip_ws (":" +:+ ?x))) with (Some x). cbn [mbind option_bind].
  rewrite Hv; [|done| |done].
  - cbn [mbind option_bind]. rewrite JsMap.set_fresh by done. by destruct kv.
  - unfold member_text in Hf. rewrite !str_length_app in Hf. cbn in Hf. lia.
Qed.

Lemma parse_members_text fs acc fuel rest :
  Forall (fun kv => reads_back kv.2) fs ->
  forallb (fun kv : string * jsval => valid_utf8 kv.1 && plain kv.2) fs = true ->
  NoDup (acc ++ fs).*1 -> fs <> [] ->
  (String.length (join "," (member_text <$> fs)) + 1 < fuel)%nat ->
  parse_members fuel acc (join "," (member_text <$> fs) +:+ "}" +:+ rest) = Some (JObj (acc ++ fs), rest).
Proof.
  intros Hl. revert acc fuel. induction Hl as [|kv fs Hv Hl IH]; intros acc fuel Hp Hnd Hne Hf; [done|].
  cbn [forallb] in Hp. apply andb_true_iff in Hp as [[Hu Hpv]%andb_true_iff Hp].
  assert (Hk : kv.1 ∉ acc.*1).
  { rewrite fmap_app in Hnd. apply NoDup_app in Hnd as (_ & Hx & _). intros Hin.
    apply (Hx _ Hin). set_solver. }
  destruct fuel as [|fuel]; [lia|]. destruct fs as [|kv2 fs].
  - cbn [fmap list_fmap join] in *. rewrite parse_member by (done || lia). done.
  - rewrite !fmap_cons, join_cons in Hf |- *. rewrite !str_length_app in Hf. rewrite !str_app_assoc.
    rewrite parse_member by (done || lia).
    rewrite comma_no_end, comma_here by done. cbn [mbind option_bind].
    rewrite <- fmap_cons, IH; [by rewrite <- app_assoc | done | by rewrite <- app_assoc | done |].
    rewrite fmap_cons. cbn [String.length] in Hf. lia.
Qed.

Lemma stringify_reads_back v : reads_back v.
Proof.
  induction v as [| |b|n|s|l Hl|fs Hfs] using jsval_nested_ind; intros Hp fuel rest Hf Hd;
    (destruct fuel as [|fuel]; [lia|]); [done|..].
  - done.
  - by destruct b.
  - pose proof (stringify_head (JNum n) Hp) as (c & r & Ec & Hw & _ & _ & Hns).
    destruct n as [q| |]; [|done..]. cbn [parse_value]. rewrite skip_ws_stringify by done.
    cbn [plain JSON_stringify] in *. unfold number_ok, printable in Hp. zbool.
    apply bool_decide_eq_true in H0. rewrite Ec in *. str_simpl.
    rewrite <- str_app_cons, span_number_app by done. rewrite H0, Hns.
    assert ((code c =? 123)%N = false /\ (code c =? 91)%N = false /\ (code c =? 34)%N = false)
      as (-> & -> & ->) by (revert Hns; by destruct c as [[] [] [] [] [] [] [] []]). done.
  - cbn [JSON_stringify]. unfold quote. str_simpl. cbn [parse_value].
    change (skip_ws (String dquote ?x)) with (String dquote x). cbn -[parse_chars].
    by rewrite parse_escape.
  - rewrite stringify_array in *. cbn [plain] in Hp. destruct l as [|v l]; [done|].
    rewrite !str_app_assoc. rewrite !str_length_app in Hf. change (String.length "[") with 1%nat in Hf.
    change (String.length "]") with 1%nat in Hf.
    assert (Hhd : is_char 93 (skip_ws (join "," (JSON_stringify <$> v :: l) +:+ "]" +:+ rest)) = None).
    { cbn [forallb] in Hp. apply andb_true_iff in Hp as [(c & r & Ec & Hw & Hc & _)%stringify_head _].
      rewrite fmap_cons. destruct l; [|rewrite fmap_cons, join_cons]; cbn [fmap list_fmap join];
        rewrite Ec; str_simpl; cbn [skip_ws]; rewrite Hw; cbn [is_char]; by rewrite Hc. }
    change (parse_value (S fuel) ("[" +:+ ?x)) with
      (match is_char 93 (skip_ws x) with Some r => Some (JArr [], r) | None => parse_elements fuel [] x end).
    rewrite Hhd. apply (parse_elements_text _ []); [done | done | done | lia].
  - cbn [plain] in Hp. apply andb_true_iff in Hp as [Hnd%bool_decide_eq_true Hp].
    rewrite stringify_object in * by done. destruct fs as [|[k v] fs]; [done|].
    rewrite !str_app_assoc. rewrite !str_length_app in Hf. change (String.length "{") with 1%nat in Hf.
    change (String.length "}") with 1%nat in Hf.
    assert (Hhd : is_char 125 (skip_ws (join "," (member_text <$> (k, v) :: fs) +:+ "}" +:+ rest)) = None).
    { rewrite fmap_cons. destruct fs; [|rewrite fmap_cons, join_cons]; cbn [fmap list_fmap join];
        rewrite ?str_app_assoc, member_text_app; done. }
    change (parse_value (S fuel) ("{" +:+ ?x)) with
      (match is_char 125 (skip_ws x) with Some r => Some (JObj [], r) | None => parse_members fuel [] x end).
    rewrite Hhd. apply (parse_members_text _ []); [done | done | done | done | lia].
Qed.

(** A plain value reads back from its text. *)
Lemma parse_stringify v : plain v = true -> JSON_parse (JSON_stringify v) = Some v.
Proof.
  intros Hp. unfold JSON_parse.
  rewrite <- (str_app_nil (JSON_stringify v)) at 2.
  rewrite stringify_reads_back by (done || lia). done.
Qed.

Lemma number_char_ascii s : str_forall number_char s = true -> valid_utf8 s = true.
Proof.
  induction s as [|c s IH]; cbn [str_forall]; [done|]. intros [Hc Hs]%andb_true_iff. cbn [valid_utf8].
  assert ((code c <? 128)%N = true) as -> by (revert Hc; by destruct c as [[] [] [] [] [] [] [] []]).
  by apply IH.
Qed.

Lemma valid_quote s : valid_utf8 s = true -> valid_utf8 (quote s) = true.
Proof.
  intros Hs. unfold quote. change (valid_utf8 (String dquote ?x)) with (valid_utf8 x).
  by rewrite valid_utf8_app by by apply valid_escape.
Qed.

Lemma valid_join l : Forall (fun s => valid_utf8 s = true) l -> valid_utf8 (join "," l) = true.
Proof.
  induction 1 as [|x [|y l] Hx _ IH]; [done | done|]. rewrite join_cons, valid_utf8_app by done.
  by rewrite valid_utf8_app.
Qed.

(** The text of a plain value is well-formed UTF-8. *)
Lemma valid_stringify v : plain v = true -> valid_utf8 (JSON_stringify v) = true.
Proof.
  induction v as [| |b|[q| |]|s|l Hl|fs Hfs] using jsval_nested_ind; intros Hp; try done.
  - by destruct b.
  - cbn in Hp. unfold number_ok, printable in Hp. zbool. by apply number_char_ascii.
  - by apply valid_quote.
  - rewrite stringify_array, !valid_utf8_app; [done| |done]. apply valid_join, Forall_fmap.
    cbn in Hp. rewrite Forall_forall in *. intros v Hv. apply Hl; [done|].
    by eapply forallb_forall; [|apply list_elem_of_In].
  - cbn in Hp. apply andb_true_iff in Hp as [_ Hp].
    rewrite stringify_object, !valid_utf8_app; [done| |done|done]. apply valid_join, Forall_fmap.
    rewrite Forall_forall in *. intros kv Hkv.
    assert (valid_utf8 kv.1 && plain kv.2 = true) as [Hk Hv]%andb_true_iff
      by (eapply (forallb_forall (fun kv : string * jsval => valid_utf8 kv.1 && plain kv.2));
          [exact Hp | by apply list_elem_of_In]).
    cbn. unfold member_text. rewrite !valid_utf8_app; [by apply Hfs | done | by apply valid_quote].
Qed.

(** A plain value survives [JSON.parse(buffer.toString("utf-8"))] of its bytes. *)
Lemma parse_utf8_stringify v :
  plain v = true -> JSON_parse (utf8_text (JSON_stringify v)) = Some v.
Proof. intros Hp. rewrite utf8_text_valid by by apply valid_stringify. by apply parse_stringify. Qed.
End RoundTrip.
