(* ===== verification/JsText.v ===== *)
(** Text as JavaScript reads it: white space and [trim], lower case of ASCII,
    length and [slice] in UTF-16 code units. *)
From Stdlib Require Import ZArith.
From stdpp Require Import base tactics strings list.
From S2P Require Import Prelude JsRuntime Json.

(** Lower case of the ASCII letters. *)
Definition lower_char (c : Ascii.ascii) : Ascii.ascii :=
  if within 65 90 c then Ascii.ascii_of_N (code c + 32) else c.
Fixpoint toLowerCase (s : string) : string :=
  match s with EmptyString => EmptyString | String c s => String (lower_char c) (toLowerCase s) end.

Definition bytes_string (l : list N) : string :=
  List.fold_right (fun n s => String (Ascii.ascii_of_N n) s) EmptyString l.

(** The white space and line terminators of the language, in UTF-8. *)
Definition WHITE_SPACE : list string :=
  bytes_string <$>
    ([[9]; [10]; [11]; [12]; [13]; [32]; [194; 160]; [225; 154; 128]; [226; 128; 168];
      [226; 128; 169]; [226; 128; 175]; [226; 129; 159]; [227; 128; 128]; [239; 187; 191]]
     ++ ((fun n => [226; 128; n]) <$> [128; 129; 130; 131; 132; 133; 134; 135; 136; 137; 138]))%N.

Definition strip_space (s : string) : option string :=
  List.fold_right (fun w o => match strip_prefix w s with Some r => Some r | None => o end) None WHITE_SPACE.

Fixpoint trimStart_loop (fuel : nat) (s : string) : string :=
  match fuel with
  | O => s
  | S fuel => match strip_space s with Some r => trimStart_loop fuel r | None => s end
  end.
Definition trimStart (s : string) : string := trimStart_loop (String.length s) s.

(** The shortest prefix after which there is only white space. *)
Fixpoint trimEnd (s : string) : string :=
  match s with
  | EmptyString => EmptyString
  | String c r => if str_truthy (trimStart s) then String c (trimEnd r) else EmptyString
  end.
Definition trim (s : string) : string := trimEnd (trimStart s).

(** Truthiness of any value. *)
Definition json_truthy (v : jsval) : bool :=
  match v with
  | JUndef | JNull | JNum JNaN => false
  | JBool b => b
  | JNum (JFin q) => negb (QArith_base.Qeq_bool q (QArith_base.inject_Z 0))
  | JNum _ => true
  | JStr s => str_truthy s
  | JArr _ | JObj _ => true
  end.

(** The UTF-16 length of a string that is kept in UTF-8. *)
Definition utf16_units (c : Ascii.ascii) : Z :=
  let n := Ascii.N_of_ascii c in
  (if ((128 <=? n) && (n <? 192))%N then 0 else if (240 <=? n)%N then 2 else 1)%Z.
Fixpoint js_length (s : string) : Z :=
  match s with
  | EmptyString => 0
  | String c r => (utf16_units c + js_length r)%Z
  end.

(** The second unit of a pair on its own: the three bytes that a lone surrogate
    would have in UTF-8, which is not well-formed text. *)
Definition low_surrogate (s : string) : string :=
  match s with
  | String _ (String _ (String c (String d r))) =>
      String (Ascii.ascii_of_N 237)
        (String (Ascii.ascii_of_N (176 + N.land (code c) 15)) (String d r))
  | _ => EmptyString
  end.

(** [s.slice(n)], for [n] not negative. *)
Fixpoint js_drop (n : Z) (s : string) : string :=
  match s with
  | EmptyString => EmptyString
  | String c r =>
      let u := utf16_units c in
      if (u =? 0)%Z then js_drop n r
      else if (n <=? 0)%Z then s
      else if (u <=? n)%Z then js_drop (n - u) r
      else low_surrogate s
  end.
(** [s.slice(-n)], for [n] positive. *)
Definition js_slice_end (n : Z) (s : string) : string := js_drop (js_length s - n) s.

(** The first unit of a pair on its own. *)
Definition high_surrogate (s : string) : string :=
  match s with
  | String a (String b (String c _)) =>
      let h := (N.lor (N.lor (N.shiftl (N.land (code a) 7) 8) (N.shiftl (N.land (code b) 63) 2))
                  (N.shiftr (N.land (code c) 63) 4) - 64)%N in
      bytes_string [237; 160 + N.shiftr h 6; 128 + N.land h 63]%N
  | _ => EmptyString
  end.

(** [s.slice(0, n)]. *)
Fixpoint js_take (n : Z) (s : string) : string :=
  match s with
  | EmptyString => EmptyString
  | String c r =>
      let u := utf16_units c in
      if (u =? 0)%Z then String c (js_take n r)
      else if (u <=? n)%Z then String c (js_take (n - u) r)
      else if (n =? 1)%Z then high_surrogate s else EmptyString
  end.

(** [s.includes(p)]. *)
Fixpoint includes (p s : string) : bool :=
  starts_with p s || match s with EmptyString => false | String _ r => includes p r end.

Lemma utf16_units_bounds c : (0 <= utf16_units c <= 2)%Z.
Proof. unfold utf16_units. repeat case_match; lia. Qed.

Lemma js_length_nonneg s : (0 <= js_length s)%Z.
Proof. induction s as [|c s IH]; cbn; [done|]. pose proof (utf16_units_bounds c). lia. Qed.

Lemma js_length_app a b : js_length (a +:+ b) = (js_length a + js_length b)%Z.
Proof.
  induction a as [|c a IH]; [done|]. rewrite str_app_cons. cbn [js_length]. rewrite IH. lia.
Qed.

Lemma trail_units c : utf16_units (Ascii.ascii_of_N (176 + N.land (code c) 15)) = 0%Z.
Proof. by destruct c as [[] [] [] [] [] [] [] []]. Qed.

Lemma low_surrogate_length c r :
  utf16_units c = 2%Z -> (js_length (low_surrogate (String c r)) <= js_length (String c r) - 1)%Z.
Proof.
  intros Hc. destruct r as [|b [|d [|e r]]]; cbn [low_surrogate];
    rewrite ?(eq_refl : js_length "" = 0%Z);
    cbn [js_length]; rewrite ?Hc, ?trail_units;
    repeat match goal with |- context [utf16_units ?x] =>
      lazymatch goal with H : (0 <= utf16_units x <= 2)%Z |- _ => fail | _ =>
        pose proof (utf16_units_bounds x) end end; try lia.
  change (utf16_units (Ascii.ascii_of_N 237)) with 1%Z. lia.
Qed.

Lemma js_drop_length n s : (js_length (js_drop n s) <= Z.max 0 (js_length s - Z.max 0 n))%Z.
Proof.
  revert n. induction s as [|c s IH]; intros n; [cbn; lia|].
  cbn [js_drop]. pose proof (utf16_units_bounds c) as Hc. pose proof (js_length_nonneg s).
  destruct (utf16_units c =? 0)%Z eqn:E0; zbool; [etrans; [apply IH|cbn [js_length]; lia]|].
  destruct (n <=? 0)%Z eqn:En; zbool; [cbn [js_length]; lia|].
  destruct (utf16_units c <=? n)%Z eqn:Eu; zbool; [etrans; [apply IH|cbn [js_length]; lia]|].
  etrans; [apply low_surrogate_length; lia|]. cbn [js_length]. lia.
Qed.

Lemma js_slice_end_length n s : (0 <= n)%Z -> (js_length (js_slice_end n s) <= n)%Z.
Proof.
  intros Hn. etrans; [apply js_drop_length|]. pose proof (js_length_nonneg s). lia.
Qed.
