(* ===== verification/Canonical.v ===== *)
(** The canonical messages of the agent ([service/src/llm/types.ts]) and what every
    part of the context management reads of them: their text, their tool calls and
    results, their JSON.

    A conversation is a list of messages.  The code builds the messages of a
    conversation fresh and compares blocks by identity only within one conversation,
    so a block is identified by its position. *)
From Stdlib Require Import ZArith QArith.
From stdpp Require Import base tactics strings gmap sorting option.
From stdpp Require Import list.
From S2P Require Import Prelude JsRuntime Json JsText.
Open Scope Z_scope.

Inductive AssistantMessagePhase := Commentary | FinalAnswer.

#[export] Instance AssistantMessagePhase_eq_dec : EqDecision AssistantMessagePhase.
Proof. solve_decision. Defined.

Definition phase_text (p : AssistantMessagePhase) : string :=
  match p with Commentary => "commentary" | FinalAnswer => "final_answer" end.

(** The three copies of [parseAssistantMessagePhase]. *)
Definition parseAssistantMessagePhase (v : jsval) : option AssistantMessagePhase :=
  match v with
  | JStr s => if decide (s = "commentary") then Some Commentary
              else if decide (s = "final_answer") then Some FinalAnswer else None
  | _ => None
  end.

Record CanonicalProviderData := mkProviderData {
  pdata_provider : string;
  pdata_payload : jsval
}.

Inductive CanonicalContentBlock :=
  | TextBlock (text : string) (assistantPhase : option AssistantMessagePhase)
  | ImageBlock (media_type data : string)
  | ToolUseBlock (id name : string) (input : jsval)
  | ToolResultBlock (tool_use_id : string) (content : string + list CanonicalContentBlock)
      (is_error : option bool)
  | ReasoningBlock (text : string) (providerData : option CanonicalProviderData)
  | ReasoningRedactedBlock (providerData : option CanonicalProviderData).

Inductive CanonicalRole := System | User | Assistant.

#[export] Instance CanonicalRole_eq_dec : EqDecision CanonicalRole.
Proof. solve_decision. Defined.

Record CanonicalMessage := mkCanonical {
  cm_role : CanonicalRole;
  cm_content : string + list CanonicalContentBlock
}.

Record CanonicalTool := mkTool {
  tl_name : string;
  tl_description : string;
  tl_parameters : jsval
}.

(** ** JSON *)

Definition role_text (r : CanonicalRole) : string :=
  match r with System => "system" | User => "user" | Assistant => "assistant" end.

(** [...(o ? { k: f(o) } : {})]. *)
Definition member {A} (k : string) (f : A -> jsval) (o : option A) : list (string * jsval) :=
  match o with Some a => [(k, f a)] | None => [] end.

Definition provider_data_json (d : CanonicalProviderData) : jsval :=
  JObj [("provider", JStr (pdata_provider d)); ("payload", pdata_payload d)].

Fixpoint block_json (b : CanonicalContentBlock) : jsval :=
  match b with
  | TextBlock t p =>
      JObj ([("type", JStr "text"); ("text", JStr t)] ++ member "assistantPhase" (JStr ∘ phase_text) p)
  | ImageBlock m d =>
      JObj [("type", JStr "image");
            ("source", JObj [("type", JStr "base64"); ("media_type", JStr m); ("data", JStr d)])]
  | ToolUseBlock i n v =>
      JObj [("type", JStr "tool_use"); ("id", JStr i); ("name", JStr n); ("input", v)]
  | ToolResultBlock i c e =>
      JObj ([("type", JStr "tool_result"); ("tool_use_id", JStr i);
             ("content", match c with inl s => JStr s | inr bs => JArr (List.map block_json bs) end)]
            ++ member "is_error" JBool e)
  | ReasoningBlock t d =>
      JObj ([("type", JStr "reasoning"); ("text", JStr t)] ++ member "providerData" provider_data_json d)
  | ReasoningRedactedBlock d =>
      JObj ([("type", JStr "reasoning_redacted")] ++ member "providerData" provider_data_json d)
  end.

Definition content_json (c : string + list CanonicalContentBlock) : jsval :=
  match c with inl s => JStr s | inr bs => JArr (block_json <$> bs) end.
Definition message_json (m : CanonicalMessage) : jsval :=
  JObj [("role", JStr (role_text (cm_role m))); ("content", content_json (cm_content m))].
Definition messages_json (ms : list CanonicalMessage) : jsval := JArr (message_json <$> ms).
Definition tool_json (t : CanonicalTool) : jsval :=
  JObj [("name", JStr (tl_name t)); ("description", JStr (tl_description t));
        ("parameters", tl_parameters t)].

(** A member of a value that may be anything: [v?.k]. *)
Definition prop (k : string) (v : jsval) : jsval :=
  match v with JObj fs => field_lookup k fs | _ => JUndef end.

(** ** Blocks of a message *)

(** [Array.isArray(message.content) ? message.content : []]. *)
Definition blocksOf (m : CanonicalMessage) : list CanonicalContentBlock :=
  match cm_content m with inl _ => [] | inr bs => bs end.

Definition normalizeContent (c : string + list CanonicalContentBlock) : list CanonicalContentBlock :=
  match c with inl s => [TextBlock s None] | inr bs => bs end.

Definition block_text (b : CanonicalContentBlock) : option string :=
  match b with TextBlock t _ => Some t | _ => None end.
Definition block_use_id (b : CanonicalContentBlock) : option string :=
  match b with ToolUseBlock i _ _ => Some i | _ => None end.
Definition block_result_id (b : CanonicalContentBlock) : option string :=
  match b with ToolResultBlock i _ _ => Some i | _ => None end.

(** The texts of the text blocks, one per line. *)
Definition collectText (c : list CanonicalContentBlock) : string := join (String (Ascii.ascii_of_N 10) "") (omap block_text c).

Definition toolUseIds (m : CanonicalMessage) : list string :=
  JsSet.of_list (omap block_use_id (normalizeContent (cm_content m))).
Definition toolResultIds (m : CanonicalMessage) : list string :=
  JsSet.of_list (omap block_result_id (normalizeContent (cm_content m))).
Definition intersects (left right : list string) : bool :=
  existsb (fun v => bool_decide (v ∈ right)) left.

(** [typeof content === "string" ? content : content.find(text)?.text ?? ""]. *)
Definition first_text (m : CanonicalMessage) : string :=
  match cm_content m with inl s => s | inr bs => head (omap block_text bs) ?? "" end.

Definition createCanonicalTextMessage (r : CanonicalRole) (text : string)
    (assistantPhase : option AssistantMessagePhase) : CanonicalMessage :=
  mkCanonical r (inr [TextBlock text (if decide (r = Assistant) then assistantPhase else None)]).
