(* ===== verification/ContextBudget.v ===== *)
(** How many tokens a conversation takes and how many it may take
    ([service/src/agent/context-budget.ts], [browser/image-references.ts], the catalog
    of [llm/model-catalog.ts]).

    Token counts are integers.  The compaction ratio is the exact value of the
    configured number and its product with a window is exact; the code rounds the
    product to a double before it takes the floor.  The configuration
    ([ContextConfig]) and the models that Buds reported ([dynamic_catalog]) are
    arguments. *)
From Stdlib Require Import ZArith QArith Qround Lia.
From stdpp Require Import base tactics strings gmap sorting option.
From stdpp Require Import list.
From S2P Require Import Prelude JsRuntime Json JsText Canonical.
Open Scope Z_scope.

Section images.
Context `{NumberText}.

(** ** Screenshots that will be put into the request *)

Definition HYDRATED_IMAGE_LIMIT : nat := 8.
Definition IMAGE_TOKEN_ESTIMATE : Z := 1600.

Definition imageArtifactIds (b : CanonicalContentBlock) : list string :=
  match b with
  | ToolResultBlock _ (inl content) _ =>
      match JSON_parse content with
      | None => []
      | Some payload =>
          if json_truthy (prop "output_withheld" (prop "data" payload)) then []
          else if bool_decide (as_string (prop "tool" payload) = Some "browser_exec") then
            match prop "images" (prop "data" payload) with
            | JArr images => omap (fun image => as_string (prop "id" image)) (take 2 images)
            | _ => []
            end
          else []
      end
  | _ => []
  end.

Notation position := (nat * nat)%type.
Notation selection := (list (position * list string)).

Definition indexed {A} (l : list A) : list (nat * A) := imap pair l.

(** One turn of the inner loop; once nothing remains the loop breaks. *)
Definition select_block (mi : nat) (st : selection * nat) (x : nat * CanonicalContentBlock)
    : selection * nat :=
  let '(selected, remaining) := st in
  if (remaining =? 0)%nat then st
  else
    let ids := last_n remaining (imageArtifactIds x.2) in
    if (0 <? length ids)%nat
    then (JsMap.set (mi, x.1) ids selected, (remaining - length ids)%nat) else st.

Definition select_message (st : selection * nat) (x : nat * CanonicalMessage) : selection * nat :=
  match cm_role x.2, cm_content x.2 with
  | User, inr bs => foldl (select_block x.1) st (reverse (indexed bs))
  | _, _ => st
  end.

Definition selectHydratedImageReferences (ms : list CanonicalMessage) : selection :=
  (foldl select_message ([], HYDRATED_IMAGE_LIMIT) (reverse (indexed ms))).1.

Definition hydrated_of (selected : selection) (x : nat * CanonicalMessage) : list string :=
  concat ((fun b => JsMap.get (x.1, b.1) selected ?? []) <$> indexed (blocksOf x.2)).

Definition hydratedImageIds (ms : list CanonicalMessage) (count : nat) : list string :=
  let selected := selectHydratedImageReferences ms in
  concat (hydrated_of selected <$> take count (indexed ms)).

(** ** Estimates *)

Definition MESSAGE_TOKEN_OVERHEAD : Z := 8.
Definition CONTENT_BLOCK_TOKEN_OVERHEAD : Z := 4.
Definition TOOL_SCHEMA_TOKEN_OVERHEAD : Z := 8.

Inductive ContextBreakdownKind :=
  | SystemPrompt | RuntimeInstructions | CompactionSummary | UserMessages | AssistantText
  | ReasoningKind | ToolCalls | ToolOutput | Images | ToolSchemas.

#[export] Instance ContextBreakdownKind_eq_dec : EqDecision ContextBreakdownKind.
Proof. solve_decision. Defined.

Definition CONTEXT_BREAKDOWN_KINDS : list ContextBreakdownKind :=
  [SystemPrompt; RuntimeInstructions; CompactionSummary; UserMessages; AssistantText;
   ReasoningKind; ToolCalls; ToolOutput; Images; ToolSchemas].

Definition ContextBreakdownTokens := ContextBreakdownKind -> Z.
Definition emptyContextBreakdown : ContextBreakdownTokens := fun _ => 0.

(** [breakdown[kind] += tokens]. *)
Definition bump (kind : ContextBreakdownKind) (tokens : Z) (b : ContextBreakdownTokens)
    : ContextBreakdownTokens :=
  fun k => if decide (k = kind) then b k + tokens else b k.

Definition estimateTextTokens (text : string) : Z := Z.max 1 ((js_length text + 3) / 4).

Fixpoint estimateBlockTokens (b : CanonicalContentBlock) : Z :=
  match b with
  | TextBlock t _ => estimateTextTokens t
  | ToolResultBlock _ (inl s) _ => estimateTextTokens s
  | ToolResultBlock _ (inr bs) _ =>
      foldl (fun total x => total + CONTENT_BLOCK_TOKEN_OVERHEAD + x) 0
        (List.map estimateBlockTokens bs)
  | ToolUseBlock _ name input =>
      estimateTextTokens (JSON_stringify input) + estimateTextTokens name
  | ReasoningBlock t _ => estimateTextTokens t
  | ReasoningRedactedBlock d =>
      estimateTextTokens (JSON_stringify
        match d with Some d => provider_data_json d | None => JObj [] end)
  | ImageBlock _ _ => IMAGE_TOKEN_ESTIMATE
  end.

(** Markers the compactor writes into replacement history. *)
Definition CHECKPOINT_SUMMARY_PREFIX : string :=
  "Another Bud Agent model compacted earlier context for this thread. Use this checkpoint to continue the task without repeating completed work. The visible transcript still exists in the product, but your model-visible context has been shortened. Summary:".
Definition COMPACTION_TERMINAL_CONTEXT_PREFIX : string :=
  "Current terminal context at compaction time:".

Definition isCompactionReplacementMessage (m : CanonicalMessage) : bool :=
  let trimmed := trimStart (first_text m) in
  starts_with CHECKPOINT_SUMMARY_PREFIX trimmed
  || starts_with COMPACTION_TERMINAL_CONTEXT_PREFIX trimmed.

Definition blockBreakdownKind (b : CanonicalContentBlock) (messageKind : ContextBreakdownKind)
    : ContextBreakdownKind :=
  match b with
  | TextBlock _ _ => messageKind
  | ToolUseBlock _ _ _ => ToolCalls
  | ToolResultBlock _ _ _ => ToolOutput
  | ReasoningBlock _ _ | ReasoningRedactedBlock _ => ReasoningKind
  | ImageBlock _ _ => Images
  end.

Definition messageBreakdownKind (systemPromptSeen : bool) (m : CanonicalMessage)
    : ContextBreakdownKind :=
  match cm_role m with
  | System => if systemPromptSeen then RuntimeInstructions else SystemPrompt
  | User => if isCompactionReplacementMessage m then CompactionSummary else UserMessages
  | Assistant => AssistantText
  end.

(** One turn of the loop over the messages. *)
Definition breakdown_message (st : ContextBreakdownTokens * bool) (m : CanonicalMessage)
    : ContextBreakdownTokens * bool :=
  let '(breakdown, seen) := st in
  let kind := messageBreakdownKind seen m in
  let seen := seen || bool_decide (cm_role m = System) in
  let breakdown := bump kind MESSAGE_TOKEN_OVERHEAD breakdown in
  (match cm_content m with
   | inl text => bump kind (estimateTextTokens text) breakdown
   | inr bs =>
       foldl (fun breakdown b =>
         bump (blockBreakdownKind b kind) (CONTENT_BLOCK_TOKEN_OVERHEAD + estimateBlockTokens b)
           breakdown) breakdown bs
   end, seen).

Definition hydrated_count (ms : list CanonicalMessage) : Z :=
  foldl (fun n ids => n + zlen ids) 0 (JsMap.values (selectHydratedImageReferences ms)).

Definition estimateCanonicalMessagesBreakdown (ms : list CanonicalMessage) : ContextBreakdownTokens :=
  (foldl breakdown_message
     (bump Images (hydrated_count ms * IMAGE_TOKEN_ESTIMATE) emptyContextBreakdown, false) ms).1.

Definition estimateCanonicalMessagesTokens (ms : list CanonicalMessage) : Z :=
  let breakdown := estimateCanonicalMessagesBreakdown ms in
  foldl (fun total kind => total + breakdown kind) 0 CONTEXT_BREAKDOWN_KINDS.

Definition estimateCanonicalToolsTokens (tools : list CanonicalTool) : Z :=
  match tools with
  | [] => 0
  | _ => estimateTextTokens (JSON_stringify (JArr (tool_json <$> tools)))
         + zlen tools * TOOL_SCHEMA_TOKEN_OVERHEAD
  end.
End images.

(** ** Windows *)

Record ModelCapabilities := mkCapabilities {
  contextWindowTokens : jsnum;
  maxOutputTokens : jsnum;
  usableContextWindowTokens : option jsnum;
  reservedOutputTokens : option jsnum
}.

Record ModelCatalogEntry := mkCatalogEntry {
  ce_id : string;
  ce_provider : string;
  ce_providerModel : string;
  ce_reasoningKind : string;
  ce_capabilities : ModelCapabilities
}.

Definition tokens (n : Z) : jsnum := JFin (inject_Z n).

(** The members of an entry that set its windows and its reasoning. *)
Definition MODEL_CATALOG : list ModelCatalogEntry :=
  [mkCatalogEntry "claude-opus-4-6" "anthropic" "claude-opus-4-6" "anthropic_output_effort"
     (mkCapabilities (tokens 1000000) (tokens 128000) None None);
   mkCatalogEntry "claude-sonnet-4-6" "anthropic" "claude-sonnet-4-6" "anthropic_output_effort"
     (mkCapabilities (tokens 1000000) (tokens 128000) None None);
   mkCatalogEntry "claude-haiku-4-5" "anthropic" "claude-haiku-4-5-20251001" "anthropic_thinking_budget"
     (mkCapabilities (tokens 200000) (tokens 64000) None None);
   mkCatalogEntry "claude-opus-4-7" "anthropic" "claude-opus-4-7" "anthropic_output_effort"
     (mkCapabilities (tokens 1000000) (tokens 128000) None None);
   mkCatalogEntry "gpt-6-astra" "openai" "gpt-6-astra" "openai_reasoning_effort"
     (mkCapabilities (tokens 1050000) (tokens 128000) (Some (tokens 272000)) (Some (tokens 128000)));
   mkCatalogEntry "gpt-6.1-sol" "openai" "gpt-6.1-sol" "openai_reasoning_effort"
     (mkCapabilities (tokens 1050000) (tokens 128000) (Some (tokens 272000)) (Some (tokens 128000)));
   mkCatalogEntry "gpt-6-sol" "openai" "gpt-6-sol" "openai_reasoning_effort"
     (mkCapabilities (tokens 1050000) (tokens 128000) (Some (tokens 272000)) (Some (tokens 128000)));
   mkCatalogEntry "gpt-6-luna" "openai" "gpt-6-luna" "openai_reasoning_effort"
     (mkCapabilities (tokens 1050000) (tokens 128000) (Some (tokens 272000)) (Some (tokens 128000)));
   mkCatalogEntry "gpt-5.6-sol" "openai" "gpt-5.6-sol" "openai_reasoning_effort"
     (mkCapabilities (tokens 1050000) (tokens 128000) (Some (tokens 272000)) (Some (tokens 128000)));
   mkCatalogEntry "gpt-5.6-terra" "openai" "gpt-5.6-terra" "openai_reasoning_effort"
     (mkCapabilities (tokens 1050000) (tokens 128000) (Some (tokens 272000)) (Some (tokens 128000)));
   mkCatalogEntry "gpt-5.6-luna" "openai" "gpt-5.6-luna" "openai_reasoning_effort"
     (mkCapabilities (tokens 1050000) (tokens 128000) (Some (tokens 272000)) (Some (tokens 128000)));
   mkCatalogEntry "ds4-deepseek-v4-flash" "ds4" "deepseek-v4-flash" "ds4_responses_reasoning_effort"
     (mkCapabilities (tokens 100000) (tokens 384000) None (Some (tokens 20000)))].

(** The last entry of a key, as [new Map(entries)] keeps it. *)
Definition catalog_by (key : ModelCatalogEntry -> string) (k : string) : option ModelCatalogEntry :=
  JsMap.get k (foldl (fun m e => JsMap.set (key e) e m) [] MODEL_CATALOG).

(** [DYNAMIC_CATALOG_BY_BUD]: the models that Buds reported, by id. *)
Notation dynamic_catalog := (list (string * list (string * ModelCatalogEntry))).

Definition registerDynamicCatalogEntries (budId : string) (entries : list ModelCatalogEntry)
    (d : dynamic_catalog) : dynamic_catalog :=
  JsMap.set budId (foldl (fun m e => JsMap.set (ce_id e) e m) [] entries) d.
Definition clearDynamicCatalogEntries (budId : string) (d : dynamic_catalog) : dynamic_catalog :=
  JsMap.delete budId d.
Definition getDynamicCatalogEntry (modelId : string) (d : dynamic_catalog) : option ModelCatalogEntry :=
  head (omap (JsMap.get modelId) (JsMap.values d)).

Definition getCatalogEntry (d : dynamic_catalog) (modelId : string) : option ModelCatalogEntry :=
  match catalog_by ce_id modelId with
  | Some e => Some e
  | None => match catalog_by ce_providerModel modelId with
            | Some e => Some e
            | None => getDynamicCatalogEntry modelId d
            end
  end.

Inductive ContextBudgetInvalidReason := UnknownModelContextWindow | InvalidContextPolicy.
Inductive ContextBudgetRequestKind := AgentTurn | CompactionSummaryRequest.

#[export] Instance ContextBudgetInvalidReason_eq_dec : EqDecision ContextBudgetInvalidReason.
Proof. solve_decision. Defined.

Record ModelContextPolicy := mkPolicy {
  po_contextWindowTokens : option Z;
  po_usableContextWindowTokens : option Z;
  po_reservedOutputTokens : option Z;
  po_usableInputWindowTokens : option Z;
  po_invalidReason : option ContextBudgetInvalidReason
}.

Record ContextBudget := mkBudget {
  bu_enabled : bool;
  bu_requestKind : ContextBudgetRequestKind;
  bu_contextWindowTokens : option Z;
  bu_usableContextWindowTokens : option Z;
  bu_reservedOutputTokens : option Z;
  bu_usableInputWindowTokens : option Z;
  bu_thresholdRatio : Q;
  bu_thresholdTokens : option Z;
  bu_effectiveInputBudgetTokens : option Z;
  bu_invalidReason : option ContextBudgetInvalidReason
}.

Record ContextConfig := mkContextConfig {
  agentAutoCompactionEnabled : bool;
  agentAutoCompactionRatio : jsnum;
  agentMaxOutputTokens : Z
}.

Definition positiveIntegerOrNull (v : jsnum) : option Z :=
  match v with JFin q => if Qle_bool q 0 then None else Some (Qfloor q) | _ => None end.
Definition nonNegativeIntegerOrNull (v : jsnum) : option Z :=
  match v with JFin q => if Qle_bool 0 q then Some (Qfloor q) else None | _ => None end.

Definition resolveModelContextPolicy (entry : option ModelCatalogEntry) : ModelContextPolicy :=
  match entry with
  | None => mkPolicy None None None None (Some UnknownModelContextWindow)
  | Some e =>
      let c := ce_capabilities e in
      let window := positiveIntegerOrNull (contextWindowTokens c) in
      let usable := positiveIntegerOrNull (usableContextWindowTokens c ?? contextWindowTokens c) in
      let reserved := nonNegativeIntegerOrNull (reservedOutputTokens c ?? maxOutputTokens c) in
      match window, usable, reserved with
      | Some w, Some u, Some r =>
          let hard := w - r in
          let input := Z.min u hard in
          if (hard <=? 0) || (input <=? 0)
          then mkPolicy window usable reserved None (Some InvalidContextPolicy)
          else mkPolicy window usable reserved (Some input) None
      | _, _, _ =>
          mkPolicy window usable reserved None
            (Some match window with None => UnknownModelContextWindow | _ => InvalidContextPolicy end)
      end
  end.

Definition DEFAULT_AUTO_COMPACTION_RATIO : Q := 9 # 10.

Definition normalizeAutoCompactionRatio (v : jsnum) : Q :=
  match v with
  | JFin q =>
      if Qle_bool q 0 then DEFAULT_AUTO_COMPACTION_RATIO
      else if Qle_bool q DEFAULT_AUTO_COMPACTION_RATIO then q else DEFAULT_AUTO_COMPACTION_RATIO
  | _ => DEFAULT_AUTO_COMPACTION_RATIO
  end.

Definition resolveEffectiveInputBudgetTokens (enabled : bool) (kind : ContextBudgetRequestKind)
    (thresholdTokens usableInputWindowTokens : option Z) : option Z :=
  match usableInputWindowTokens with
  | None => None
  | Some input =>
      match kind, enabled, thresholdTokens with
      | CompactionSummaryRequest, _, _ => Some input
      | _, true, Some t => Some t
      | _, _, _ => Some input
      end
  end.

Definition resolveContextBudget (config : ContextConfig)
    (d : dynamic_catalog) (model providerModel : string)
    (kind : ContextBudgetRequestKind) : ContextBudget :=
  let entry := match getCatalogEntry d model with
               | Some e => Some e | None => getCatalogEntry d providerModel end in
  let policy := resolveModelContextPolicy entry in
  let ratio := normalizeAutoCompactionRatio (agentAutoCompactionRatio config) in
  let threshold := (fun w => Qfloor (inject_Z w * ratio)) <$> po_usableInputWindowTokens policy in
  mkBudget (agentAutoCompactionEnabled config) kind (po_contextWindowTokens policy)
    (po_usableContextWindowTokens policy) (po_reservedOutputTokens policy)
    (po_usableInputWindowTokens policy) ratio threshold
    (resolveEffectiveInputBudgetTokens (agentAutoCompactionEnabled config) kind threshold
       (po_usableInputWindowTokens policy))
    (po_invalidReason policy).

Definition shouldCompactContext (estimatedTokens : Z) (budget : ContextBudget) : bool :=
  bu_enabled budget &&
  match bu_thresholdTokens budget with Some t => t <=? estimatedTokens | None => false end.
