(* ===== verification/ContextAccounting.v ===== *)
(** What the provider measured of a request, carried over to the next one, and the
    context meter ([service/src/agent/context-accounting.ts],
    [context-budget-state.ts]).

    [sha256] is the hash of Node's [crypto] on text.  A baseline and the usage of a
    call are read back from a JSON column and may be any value. *)
From Stdlib Require Import ZArith QArith Qround Lia.
From stdpp Require Import base tactics strings gmap sorting option.
From stdpp Require Import list.
From S2P Require Import Prelude JsRuntime Json JsText Canonical ContextBudget.
Open Scope Z_scope.

Class Sha256 := sha256 : string -> string.

(** ** Baselines *)

Record ReasoningConfig := mkReasoningConfig {
  rc_enabled : bool;
  rc_effort : option string;
  rc_summaryLevel : option string;
  rc_interleaved : option bool
}.

Record ContextRequestIdentity := mkIdentity {
  id_provider : string;
  id_model : string;
  id_reasoning : ReasoningConfig;
  id_requestMode : string;
  id_checkpointId : option string;
  id_tools : list CanonicalTool
}.

Record ContextRequestBaseline := mkBaseline {
  ba_identity : string;
  ba_prefix_hash : string;
  ba_message_count : Z;
  ba_image_ids : list string
}.

Record ContextUsageAnchor := mkAnchor {
  an_llmCallId : string;
  an_baseline : jsval;
  an_usage : jsval
}.

Definition num (z : Z) : jsval := JNum (JFin (inject_Z z)).
Definition nullable {A} (f : A -> jsval) (o : option A) : jsval :=
  match o with Some a => f a | None => JNull end.

Definition reasoning_json (r : ReasoningConfig) : jsval :=
  JObj ([("enabled", JBool (rc_enabled r))] ++ member "effort" JStr (rc_effort r)
        ++ member "summaryLevel" JStr (rc_summaryLevel r)
        ++ member "interleaved" JBool (rc_interleaved r)).

Definition identity_json (i : ContextRequestIdentity) : jsval :=
  JObj [("provider", JStr (id_provider i)); ("model", JStr (id_model i));
        ("reasoning", reasoning_json (id_reasoning i)); ("requestMode", JStr (id_requestMode i));
        ("checkpointId", nullable JStr (id_checkpointId i));
        ("tools", JArr (tool_json <$> id_tools i))].

(** As the JSON column of the call gives it back. *)
Definition baseline_json (b : ContextRequestBaseline) : jsval :=
  JObj [("version", num 1); ("identity", JStr (ba_identity b));
        ("prefix_hash", JStr (ba_prefix_hash b)); ("message_count", num (ba_message_count b));
        ("image_ids", JArr (JStr <$> ba_image_ids b))].

(** An object with its keys sorted, at every depth. *)
Definition key_before (a b : string * jsval) : Prop := str_lt b.1 a.1 = false.
#[export] Instance key_before_dec : RelDecision key_before.
Proof. intros a b. unfold key_before. apply _. Defined.

Fixpoint sorted_json (v : jsval) : jsval :=
  match v with
  | JArr l => JArr (List.map sorted_json l)
  | JObj fs => JObj (merge_sort key_before (List.map (fun kv => (kv.1, sorted_json kv.2)) fs))
  | v => v
  end.

Section accounting.
Context `{NumberText} `{Sha256}.

Definition digest (v : jsval) : string := sha256 (JSON_stringify (sorted_json v)).

Definition captureContextBaseline (ms : list CanonicalMessage) (identity : ContextRequestIdentity)
    : ContextRequestBaseline :=
  mkBaseline (digest (identity_json identity)) (digest (messages_json ms)) (zlen ms)
    (hydratedImageIds ms (length ms)).

(** ** Provider usage *)

(** [Number.isSafeInteger(v)], with its value. *)
Definition safe_integer (v : jsval) : option Z :=
  match v with
  | JNum (JFin q) => z ← as_integer q; if Z.abs z <=? MAX_SAFE_INTEGER then Some z else None
  | _ => None
  end.

Definition nonNegative (v : jsval) : option Z :=
  z ← safe_integer v; if 0 <=? z then Some z else None.

(** Anthropic's input excludes what the cache read and wrote. *)
Definition contextInputTokens (provider : string) (usage : jsval) : option Z :=
  input ← nonNegative (prop "input_tokens" usage);
  total ← (if bool_decide (provider = "anthropic") then
             foldl (fun acc key =>
                total ← acc;
                count ← match prop key usage with JUndef => Some 0 | v => nonNegative v end;
                Some (total + count))
               (Some input) ["cache_creation_input_tokens"; "cache_read_input_tokens"]
           else if bool_decide (provider ∈ ["openai"; "ds4"]) then Some input else None);
  if (total <=? MAX_SAFE_INTEGER) && (0 <? total) then Some total else None.

Inductive ContextBudgetConfidence := Low | Medium | High.

Record ContextBudgetProviderUsageEstimate := mkUsageEstimate {
  ue_estimated_input_tokens : Z;
  ue_input_tokens : Z;
  ue_output_tokens : Z;
  ue_reasoning_tokens : option Z;
  ue_delta_tokens : Z;
  ue_llm_call_id : string;
  ue_confidence : ContextBudgetConfidence
}.

Record ContextAccounting := mkAccounting {
  ac_tokens : Z;
  ac_providerUsage : option ContextBudgetProviderUsageEstimate;
  ac_fallbackReason : option string
}.

(** What the early returns guard: the number of messages the anchor measured, or
    the reason to fall back. *)
Definition anchored_count (conversation : list CanonicalMessage) (identity : ContextRequestIdentity)
    (baseline : jsval) : string + nat :=
  match safe_integer (prop "message_count" baseline) with
  | None => inl "invalid_baseline"
  | Some count =>
      if negb (json_truthy baseline) || negb (bool_decide (safe_integer (prop "version" baseline) = Some 1))
         || (count <? 0) || (zlen conversation <? count)
         || negb (bool_decide (is_Some (as_string (prop "prefix_hash" baseline))))
      then inl "invalid_baseline"
      else
        let n := Z.to_nat count in
        if negb (bool_decide (as_string (prop "identity" baseline) = Some (digest (identity_json identity))))
        then inl "request_changed"
        else if negb (bool_decide (as_string (prop "prefix_hash" baseline)
                                   = Some (digest (messages_json (take n conversation)))))
        then inl "prefix_changed"
        else
          let current := hydratedImageIds conversation n in
          if match prop "image_ids" baseline with
             | JArr ids => negb (bool_decide (digest (JArr ids) = digest (JArr (JStr <$> current))))
             | _ => (0 <? length current)%nat
             end
          then inl "image_hydration" else inr n
  end.

Definition resolveContextAccounting (conversation : list CanonicalMessage)
    (identity : option ContextRequestIdentity) (anchor : option ContextUsageAnchor)
    (fallbackTokens : Z) : ContextAccounting :=
  let fallback reason := mkAccounting fallbackTokens None (Some reason) in
  match anchor, identity with
  | Some anchor, Some identity =>
      match anchored_count conversation identity (an_baseline anchor) with
      | inl reason => fallback reason
      | inr n =>
          match contextInputTokens (id_provider identity) (an_usage anchor) with
          | None => fallback "usage_unavailable"
          | Some input =>
              let delta := estimateCanonicalMessagesTokens (drop n conversation) in
              let tokens := input + delta in
              mkAccounting tokens
                (Some (mkUsageEstimate tokens input
                   (nonNegative (prop "output_tokens" (an_usage anchor)) ?? 0)
                   (nonNegative (prop "reasoning_tokens" (an_usage anchor)))
                   delta (an_llmCallId anchor) (if delta =? 0 then High else Medium)))
                None
          end
      end
  | _, _ => fallback "no_anchor"
  end.

(** ** The context meter *)

Inductive ContextBudgetEstimateBasis :=
  | ModelAgnosticEstimate | ProviderUsageTrigger | ProviderTokenCount.

Record ContextBudgetBreakdownEntry := mkBreakdownEntry {
  be_kind : ContextBreakdownKind;
  be_tokens : Z;
  be_percent_of_estimated_input : Q
}.

(** The checkpoint of a snapshot, as far as it shows it. *)
Record CheckpointRef := mkCheckpointRef {
  cr_checkpointId : string;
  cr_compactedThroughMessageId : option string;
  cr_compactedThroughLlmCallId : option string
}.

Record SnapshotContext := mkSnapshotContext {
  sc_model : string;
  sc_provider : string;
  sc_source : string;
  sc_phase : option string;
  sc_reason : option string;
  sc_turnId : option string;
  sc_compactionCount : option Z;
  sc_stale : bool;
  sc_now : Z;
  sc_checkedAt : option (option Z);      (** [undefined] is the time of the snapshot *)
  sc_checkpoint : option CheckpointRef
}.

Record SnapshotCommon := mkCommon {
  sn_source : string;
  sn_phase : option string;
  sn_turn_id : option string;
  sn_checked_at : option string;
  sn_stale : bool;
  sn_updated_at : string
}.

Record AvailableBudget := mkAvailable {
  ab_model : string;
  ab_provider : string;
  context_window_tokens : Z;
  usable_context_window_tokens : Z;
  reserved_output_tokens : Z;
  usable_input_window_tokens : Z;
  compaction_enabled : bool;
  compaction_threshold_ratio : Q;
  compaction_threshold_tokens : Z;
  effective_budget_tokens : Z;
  message_estimated_tokens : Z;
  tool_schema_tokens : Z;
  estimated_input_tokens : Z;
  ab_breakdown : list ContextBudgetBreakdownEntry;
  compaction_count : option Z;
  remaining_context_tokens : Z;
  percent_of_context_budget : Q;
  percent_of_model_window : Q;
  ab_basis : ContextBudgetEstimateBasis;
  ab_confidence : ContextBudgetConfidence;
  ab_common : SnapshotCommon;
  ab_reason : option string;
  latest_checkpoint_id : option string;
  compacted_through_message_id : option string;
  compacted_through_llm_call_id : option string;
  provider_usage_estimate : option ContextBudgetProviderUsageEstimate
}.

Inductive ContextBudgetSnapshot :=
  | Available (b : AvailableBudget)
  | Unknown (model provider : string) (reason : ContextBudgetInvalidReason) (common : SnapshotCommon).

Definition safeRatio (numerator denominator : Z) : Q :=
  if 0 <? denominator then inject_Z numerator / inject_Z denominator else 0.

Definition buildContextBudgetStateFromConversation (args : SnapshotContext) (budget : ContextBudget)
    (conversation : list CanonicalMessage) (usageAnchor : option ContextUsageAnchor)
    (requestIdentity : option ContextRequestIdentity) (toolTokens : Q) : ContextBudgetSnapshot :=
  let checkedAt := match sc_checkedAt args with None => Some (sc_now args) | Some c => c end in
  let common := mkCommon (sc_source args) (sc_phase args) (sc_turnId args)
    (toISOString <$> checkedAt) (sc_stale args) (toISOString (sc_now args)) in
  let messageBreakdown := estimateCanonicalMessagesBreakdown conversation in
  let messageTokens :=
    Z.max 0 (foldl (fun total kind => total + messageBreakdown kind) 0 CONTEXT_BREAKDOWN_KINDS) in
  let toolSchemaTokens := floor_nonneg toolTokens in
  let compositionTokens := messageTokens + toolSchemaTokens in
  let accounting :=
    resolveContextAccounting conversation requestIdentity usageAnchor compositionTokens in
  let estimated := ac_tokens accounting in
  let breakdown := (fun kind =>
    let tokens := if decide (kind = ToolSchemas) then toolSchemaTokens else messageBreakdown kind in
    mkBreakdownEntry kind tokens (safeRatio tokens compositionTokens)) <$> CONTEXT_BREAKDOWN_KINDS in
  match bu_contextWindowTokens budget with
  | None => Unknown (sc_model args) (sc_provider args) UnknownModelContextWindow common
  | Some window =>
      match bu_usableContextWindowTokens budget, bu_reservedOutputTokens budget,
            bu_usableInputWindowTokens budget, bu_thresholdTokens budget,
            bu_effectiveInputBudgetTokens budget with
      | Some usable, Some reserved, Some input, Some threshold, Some effective =>
          Available (mkAvailable (sc_model args) (sc_provider args) window usable reserved input
            (bu_enabled budget) (bu_thresholdRatio budget) threshold effective messageTokens
            toolSchemaTokens estimated breakdown (sc_compactionCount args)
            (Z.max 0 (effective - estimated)) (safeRatio estimated effective)
            (safeRatio estimated window)
            (match ac_providerUsage accounting with
             | Some u => if ue_delta_tokens u =? 0 then ProviderTokenCount else ProviderUsageTrigger
             | None => ModelAgnosticEstimate
             end)
            (match ac_providerUsage accounting with Some u => ue_confidence u | None => Medium end)
            common (sc_reason args) (cr_checkpointId <$> sc_checkpoint args)
            (sc_checkpoint args ≫= cr_compactedThroughMessageId)
            (sc_checkpoint args ≫= cr_compactedThroughLlmCallId)
            (ac_providerUsage accounting))
      | _, _, _, _, _ =>
          Unknown (sc_model args) (sc_provider args) (bu_invalidReason budget ?? InvalidContextPolicy)
            common
      end
  end.

Record ContextBudgetDecision := mkDecision {
  de_snapshot : ContextBudgetSnapshot;
  de_estimatedTokens : Z;
  de_shouldCompact : bool
}.

Definition buildContextBudgetDecision (args : SnapshotContext) (budget : ContextBudget)
    (conversation : list CanonicalMessage) (usageAnchor : option ContextUsageAnchor)
    (requestIdentity : option ContextRequestIdentity) (toolTokens : Q) : ContextBudgetDecision :=
  let snapshot := buildContextBudgetStateFromConversation args budget conversation usageAnchor
                    requestIdentity toolTokens in
  match snapshot with
  | Available b =>
      mkDecision snapshot (estimated_input_tokens b)
        (shouldCompactContext (estimated_input_tokens b) budget)
  | Unknown _ _ _ _ =>
      mkDecision snapshot
        (estimateCanonicalMessagesTokens conversation + floor_nonneg toolTokens) false
  end.
End accounting.
