(* ===== verification/Wire.v ===== *)
(** The protobuf wire format of the service ([service/src/proto/wire.ts]): its
    varints, the reader and the field writers, and the loop over the fields of a
    message that every decoder of the file repeats.

    A reader is the list of unread bytes ([ProtoReader] keeps the buffer and an
    offset into it; it only moves forward).  What throws returns [Err]. *)
From Stdlib Require Import ZArith QArith Qround Lia Strings.Byte.
From stdpp Require Import base tactics strings gmap sorting option pretty.
From stdpp Require Import list.
From S2P Require Import Prelude JsRuntime Base64 Json.
Open Scope Z_scope.

Definition bytes := list byte.

(** [Buffer.from(s, "utf-8")] and [buffer.toString("utf-8")]. *)
Definition utf8_bytes (s : string) : bytes := String.list_byte_of_string s.
Definition bytes_text (b : bytes) : string := utf8_text (String.string_of_list_byte b).

Definition byte_of_Z (z : Z) : byte := default x00 (Byte.of_N (Z.to_N (z mod 256))).
Definition Z_of_byte (b : byte) : Z := Z.of_N (Byte.to_N b).

(** ** Varints *)

Definition WIRE_VARINT : Z := 0.
Definition WIRE_64_BIT : Z := 1.
Definition WIRE_LENGTH_DELIMITED : Z := 2.
Definition WIRE_32_BIT : Z := 5.

(** The [do ... while (next !== 0n)] of [encodeVarint], with how many turns may
    follow this one. *)
Fixpoint varint_loop (fuel : nat) (next : Z) : bytes :=
  let b := Z.land next 127 in
  let next := Z.shiftr next 7 in
  if next =? 0 then [byte_of_Z b]
  else match fuel with
       | O => []
       | S fuel => byte_of_Z (Z.lor b 128) :: varint_loop fuel next
       end.

(** A 64-bit value has at most ten groups of seven bits. *)
Definition encodeVarint (value : Z) : bytes := varint_loop 9 (value mod 2 ^ 64).

Fixpoint read_varint_loop (shift result : Z) (bs : bytes) : res (Z * bytes) :=
  match bs with
  | [] => Err "unexpected end of protobuf varint"
  | b :: bs =>
      let result := Z.lor result (Z.shiftl (Z.land (Z_of_byte b) 127) shift) in
      if Z.land (Z_of_byte b) 128 =? 0 then Ok (result, bs)
      else
        let shift := shift + 7 in
        if 63 <? shift then Err "protobuf varint is too large"
        else read_varint_loop shift result bs
  end.

Definition readVarint (bs : bytes) : res (Z * bytes) := read_varint_loop 0 0 bs.

(** ** The reader *)

Definition readTag (bs : bytes) : res (Z * Z * bytes) :=
  '(tag, bs) ← readVarint bs;
  Ok (number_of_bigint (Z.shiftr tag 3), Z.land tag 7, bs).

Definition readVarintForWireType (wireType : Z) (bs : bytes) : res (Z * bytes) :=
  if wireType =? WIRE_VARINT then readVarint bs
  else Err ("expected varint wire type, got " +:+ pretty wireType).

Definition readBytesForWireType (wireType : Z) (bs : bytes) : res (bytes * bytes) :=
  if wireType =? WIRE_LENGTH_DELIMITED then
    '(n, bs) ← readVarint bs;
    let length := number_of_bigint n in
    if zlen bs <? length then Err "protobuf length-delimited field exceeds buffer length"
    else Ok (take (Z.to_nat length) bs, drop (Z.to_nat length) bs)
  else Err ("expected length-delimited wire type, got " +:+ pretty wireType).

Definition readStringForWireType (wireType : Z) (bs : bytes) : res (string * bytes) :=
  '(b, bs) ← readBytesForWireType wireType bs; Ok (bytes_text b, bs).

(** Fixed-width fields move the offset without a check: past the end the reader
    is done. *)
Definition skip (wireType : Z) (bs : bytes) : res bytes :=
  if wireType =? WIRE_VARINT then '(_, bs) ← readVarint bs; Ok bs
  else if wireType =? WIRE_64_BIT then Ok (drop 8 bs)
  else if wireType =? WIRE_LENGTH_DELIMITED then
    '(n, bs) ← readVarint bs;
    let length := number_of_bigint n in
    if zlen bs <? length then Err "protobuf skip exceeded buffer length"
    else Ok (drop (Z.to_nat length) bs)
  else if wireType =? WIRE_32_BIT then Ok (drop 4 bs)
  else Err ("unsupported protobuf wire type: " +:+ pretty wireType).

(** ** The loop over the fields *)

(** What a decoder does with a field: number, wire type, what it has so far, the
    unread bytes. *)
Definition handler (A : Type) : Type := Z -> Z -> A -> bytes -> res (A * bytes).

(** [while (!reader.done()) { const { fieldNumber, wireType } = reader.readTag(); ... }] *)
Fixpoint fields_loop {A} (fuel : nat) (h : handler A) (a : A) (bs : bytes) : res A :=
  match bs with
  | [] => Ok a
  | _ =>
      match fuel with
      | O => Err "out of fuel"
      | S fuel =>
          '(fieldNumber, wireType, bs) ← readTag bs;
          '(a, bs) ← h fieldNumber wireType a bs;
          fields_loop fuel h a bs
      end
  end.

(** Every turn reads at least the tag, so the length is enough. *)
Definition decode_fields {A} (h : handler A) (a : A) (bs : bytes) : res A :=
  fields_loop (length bs) h a bs.

(** [if (fieldNumber === 1) ... else if (fieldNumber === 2) ... else
    reader.skip(wireType)]: the cases by field number. *)
Definition action (A : Type) : Type := Z -> A -> bytes -> res (A * bytes).

Definition else_skip {A} (cases : list (Z * action A)) : handler A :=
  fun fieldNumber wireType a bs =>
    match JsMap.get fieldNumber cases with
    | Some act => act wireType a bs
    | None => bs ← skip wireType bs; Ok (a, bs)
    end.

(** A scan that may return before the end: a field yields the answer or is
    passed over; [None] when no field answered. *)
Fixpoint scan_loop {B} (fuel : nat) (h : Z -> Z -> bytes -> res (B + bytes)) (bs : bytes)
  : res (option B) :=
  match bs with
  | [] => Ok None
  | _ =>
      match fuel with
      | O => Err "out of fuel"
      | S fuel =>
          '(fieldNumber, wireType, bs) ← readTag bs;
          x ← h fieldNumber wireType bs;
          match x with inl b => Ok (Some b) | inr bs => scan_loop fuel h bs end
      end
  end.

Definition scan_fields {B} (h : Z -> Z -> bytes -> res (B + bytes)) (bs : bytes) : res (option B) :=
  scan_loop (length bs) h bs.

(** ** Writers *)

(** What a writer pushes on [chunks]. *)
Definition tag_bytes (fieldNumber wireType : Z) : bytes :=
  encodeVarint (Z.lor (Z.shiftl fieldNumber 3) wireType).

Definition writeVarintField (fieldNumber value : Z) : bytes :=
  tag_bytes fieldNumber WIRE_VARINT ++ encodeVarint value.
Definition writeUint32 : Z -> Z -> bytes := writeVarintField.
Definition writeEnum : Z -> Z -> bytes := writeVarintField.

Definition writeBytes (fieldNumber : Z) (value : bytes) : bytes :=
  tag_bytes fieldNumber WIRE_LENGTH_DELIMITED ++ encodeVarint (zlen value) ++ value.
Definition writeMessage : Z -> bytes -> bytes := writeBytes.
Definition writeString (fieldNumber : Z) (value : string) : bytes :=
  writeBytes fieldNumber (utf8_bytes value).

Definition writeOptionalEnum (fieldNumber : Z) (value : option Z) : res bytes :=
  match value with
  | Some v => Ok (if 0 <? v then writeEnum fieldNumber v else [])
  | None => Ok []
  end.

Definition writeOptionalString (fieldNumber : Z) (value : option string) : res bytes :=
  match value with
  | Some s => Ok (if str_truthy s then writeString fieldNumber s else [])
  | None => Ok []
  end.

Definition writeOptionalNullableString (fieldNumber : Z) (value : jsval) : res bytes :=
  match value with JStr s => Ok (writeString fieldNumber s) | _ => Ok [] end.

Definition writeOptionalBool (fieldNumber : Z) (value : option bool) : res bytes :=
  match value with
  | Some b => Ok (writeVarintField fieldNumber (if b then 1 else 0))
  | None => Ok []
  end.

Definition writeOptionalUint32 (fieldNumber : Z) (value : option Q) : res bytes :=
  match value ≫= as_integer with
  | Some z => Ok (if 0 <=? z then writeVarintField fieldNumber z else [])
  | None => Ok []
  end.

Definition writeOptionalUint64 (fieldNumber : Z) (value : option Q) : res bytes :=
  match value ≫= as_integer with
  | Some z =>
      if z <? 0 then Ok []
      else if MAX_SAFE_INTEGER <? z then
        Err ("uint64 field " +:+ pretty fieldNumber +:+ " exceeds JavaScript safe integer range")
      else Ok (writeVarintField fieldNumber z)
  | None => Ok []
  end.

Definition writeOptionalInt32 (fieldNumber : Z) (value : option Q) : res bytes :=
  match value ≫= as_integer with
  | Some z => Ok (writeVarintField fieldNumber z)
  | None => Ok []
  end.

Definition writeOptionalMessage (fieldNumber : Z) (value : res (option bytes)) : res bytes :=
  v ← value;
  match v with Some b => Ok (writeMessage fieldNumber b) | None => Ok [] end.

Definition writeOptionalBase64Bytes (fieldNumber : Z) (value : option string) : res bytes :=
  match value with
  | Some s => Ok (writeBytes fieldNumber (Base64.decode s))
  | None => Ok []
  end.

Definition writeStringMap (fieldNumber : Z) (value : option (list (string * string))) : res bytes :=
  match value with
  | None => Ok []
  | Some entries =>
      Ok (concat ((fun kv : string * string =>
            writeMessage fieldNumber (writeString 1 kv.1 ++ writeString 2 kv.2)) <$> entries))
  end.

(** [Buffer.concat] of what a list of writers pushed; the first error stops. *)
Fixpoint concat_writes (ws : list (res bytes)) : res bytes :=
  match ws with
  | [] => Ok []
  | w :: ws => b ← w; bs ← concat_writes ws; Ok (b ++ bs)
  end.

Definition writeRepeatedMessages (fieldNumber : Z) (values : list (res bytes)) : res bytes :=
  concat_writes ((fun v => b ← v; Ok (writeMessage fieldNumber b)) <$> values).

Definition writeRepeatedStrings (fieldNumber : Z) (values : list string) : res bytes :=
  Ok (concat (writeString fieldNumber <$> values)).

(** ** Typed reads *)

Definition readInt32Varint (wireType : Z) (bs : bytes) : res (Z * bytes) :=
  '(v, bs) ← readVarintForWireType wireType bs;
  let m := v mod 2 ^ 32 in
  Ok (if m <? 2 ^ 31 then m else m - 2 ^ 32, bs).

Definition readSafeUint64 (fieldName : string) (wireType : Z) (bs : bytes) : res (Z * bytes) :=
  '(v, bs) ← readVarintForWireType wireType bs;
  if MAX_SAFE_INTEGER <? v
  then Err (fieldName +:+ " exceeds JavaScript safe integer range")
  else Ok (v, bs).

(** ** Varints read back *)

Lemma Z_of_byte_of_Z z : 0 <= z < 256 -> Z_of_byte (byte_of_Z z) = z.
Proof.
  intros Hz. unfold Z_of_byte, byte_of_Z. rewrite Z.mod_small by lia.
  destruct (Byte.of_N (Z.to_N z)) as [b|] eqn:E.
  - cbn. rewrite (Byte.to_of_N _ E). lia.
  - apply Byte.of_N_None_iff in E. lia.
Qed.

Lemma lor_shift a x s : 0 <= s -> 0 <= a < 2 ^ s -> Z.lor a (Z.shiftl x s) = a + x * 2 ^ s.
Proof.
  intros Hs Ha. rewrite <- Z.shiftl_mul_pow2 by done.
  assert (Hl : Z.land a (Z.shiftl x s) = 0).
  { apply Z.bits_inj'. intros i Hi. rewrite Z.land_spec, Z.bits_0, Z.shiftl_spec by done.
    destruct (decide (i < s)) as [Hlt|Hge].
    - rewrite (Z.testbit_neg_r x) by lia. apply andb_false_r.
    - assert (Z.testbit a i = false) as ->; [|done].
      destruct (decide (a = 0)) as [->|]; [apply Z.bits_0|].
      apply Z.bits_above_log2; [lia|]. apply Z.log2_lt_pow2; [lia|].
      apply Z.lt_le_trans with (2 ^ s); [lia|]. apply Z.pow_le_mono_r; lia. }
  rewrite <- Z.lxor_lor by done. symmetry. by apply Z.add_nocarry_lxor.
Qed.

Lemma land_127 z : Z.land z 127 = z mod 128.
Proof. change 127 with (Z.ones 7). by rewrite Z.land_ones. Qed.

Lemma shiftr_7 z : Z.shiftr z 7 = z / 128.
Proof. by rewrite Z.shiftr_div_pow2. Qed.

(** The two kinds of bytes of a varint. *)
Lemma last_group z : 0 <= z < 128 ->
  Z.land (Z_of_byte (byte_of_Z z)) 128 = 0 /\ Z.land (Z_of_byte (byte_of_Z z)) 127 = z.
Proof.
  intros Hz. rewrite Z_of_byte_of_Z by lia. rewrite land_127, Z.mod_small by lia. split; [|done].
  apply Z.bits_inj'. intros i Hi. rewrite Z.land_spec, Z.bits_0.
  destruct (decide (i = 7)) as [->|].
  - assert (Z.testbit z 7 = false) as ->; [|done]. destruct (decide (z = 0)) as [->|]; [done|].
    apply Z.bits_above_log2; [lia|]. apply Z.log2_lt_pow2; lia.
  - assert (Z.testbit 128 i = false) as ->; [|apply andb_false_r].
    change 128 with (2 ^ 7). apply Z.pow2_bits_false. lia.
Qed.

Lemma more_group z : 0 <= z < 128 ->
  Z.land (Z_of_byte (byte_of_Z (Z.lor z 128))) 128 <> 0
  /\ Z.land (Z_of_byte (byte_of_Z (Z.lor z 128))) 127 = z.
Proof.
  intros Hz. change 128 with (Z.shiftl 1 7) at 1 2 3. rewrite !lor_shift by lia.
  rewrite Z_of_byte_of_Z by lia. rewrite land_127. split.
  - intros E. assert (Hb : Z.testbit (Z.land (z + 1 * 2 ^ 7) (Z.shiftl 1 7)) 7 = false)
      by (rewrite E; apply Z.bits_0).
    rewrite Z.land_spec, <- lor_shift, Z.lor_spec in Hb by lia.
    change (Z.testbit (Z.shiftl 1 7) 7) with true in Hb. by rewrite orb_true_r in Hb.
  - change (1 * 2 ^ 7) with (1 * 128). by rewrite Z_mod_plus_full, Z.mod_small by lia.
Qed.

Lemma read_varint_loop_ok fuel next shift result rest :
  0 <= next < 2 ^ (7 * (Z.of_nat fuel + 1)) -> 0 <= shift -> shift + 7 * Z.of_nat fuel <= 63 ->
  0 <= result < 2 ^ shift ->
  read_varint_loop shift result (varint_loop fuel next ++ rest) = Ok (result + next * 2 ^ shift, rest).
Proof.
  revert next shift result. induction fuel as [|fuel IH]; intros next shift result Hn Hs Hf Hr;
    cbn [varint_loop]; rewrite land_127, shiftr_7;
    pose proof (Z.mod_pos_bound next 128 ltac:(lia)) as Hm;
    pose proof (Z.div_mod next 128 ltac:(lia)) as Hdm;
    destruct (Z.eqb_spec (next / 128) 0) as [E|E].
  - destruct (last_group (next mod 128)) as [E1 E2]; [done|].
    cbn [app read_varint_loop]. rewrite E1, E2. cbn. rewrite lor_shift by lia. repeat f_equal. lia.
  - exfalso. apply E, Z.div_small. change (2 ^ (7 * (Z.of_nat 0 + 1))) with 128 in Hn. lia.
  - destruct (last_group (next mod 128)) as [E1 E2]; [done|].
    cbn [app read_varint_loop]. rewrite E1, E2. cbn. rewrite lor_shift by lia. repeat f_equal. lia.
  - destruct (more_group (next mod 128)) as [E1 E2]; [done|].
    cbn [app read_varint_loop]. rewrite E2, (proj2 (Z.eqb_neq _ _) E1), lor_shift by lia.
    rewrite (proj2 (Z.ltb_ge _ _)) by lia.
    assert (Hp : 2 ^ (shift + 7) = 2 ^ shift * 128) by (rewrite Z.pow_add_r by lia; done).
    rewrite IH; [|split; [apply Z.div_pos; lia|] | lia | lia |].
    + rewrite Hp. do 2 f_equal. nia.
    + apply Z.div_lt_upper_bound; [lia|]. change 128 with (2 ^ 7). rewrite <- Z.pow_add_r by lia.
      replace (7 + 7 * (Z.of_nat fuel + 1)) with (7 * (Z.of_nat (S fuel) + 1)) by lia. lia.
    + rewrite Hp. nia.
Qed.

(** A varint reads back modulo 2^64, and the reader stops right after it. *)
Lemma readVarint_encode z rest : readVarint (encodeVarint z ++ rest) = Ok (z mod 2 ^ 64, rest).
Proof.
  unfold readVarint, encodeVarint. pose proof (Z.mod_pos_bound z (2 ^ 64) ltac:(lia)) as Hm.
  rewrite read_varint_loop_ok; [by rewrite Z.mul_1_r | | lia | lia | lia].
  split; [lia|]. apply Z.lt_trans with (2 ^ 64); [lia|]. by apply Z.pow_lt_mono_r.
Qed.

Lemma encodeVarint_nonnil z rest : encodeVarint z ++ rest <> [].
Proof.
  unfold encodeVarint. generalize (z mod 2 ^ 64). intros n. cbn [varint_loop].
  by destruct (_ =? _).
Qed.

(** ** Progress of the reader *)

Lemma read_varint_loop_consumes shift result bs v bs' :
  read_varint_loop shift result bs = Ok (v, bs') -> (length bs' < length bs)%nat.
Proof.
  revert shift result. induction bs as [|b bs IH]; intros shift result; cbn [read_varint_loop]; [done|].
  destruct (_ =? 0).
  - intros [= _ ->]. cbn. lia.
  - destruct (63 <? _); [done|]. intros Hr%IH. cbn. lia.
Qed.

Lemma readTag_consumes bs fn wt bs' : readTag bs = Ok (fn, wt, bs') -> (length bs' < length bs)%nat.
Proof.
  unfold readTag, readVarint. destruct (read_varint_loop 0 0 bs) as [[tag r]|m] eqn:E; cbn; [|done].
  intros [= _ _ ->]. by apply read_varint_loop_consumes in E.
Qed.

Lemma skip_consumes wt bs bs' : skip wt bs = Ok bs' -> (length bs' <= length bs)%nat.
Proof.
  unfold skip, readVarint.
  destruct (wt =? WIRE_VARINT).
  { destruct (read_varint_loop 0 0 bs) as [[v r]|m] eqn:E; cbn; [|done]. intros [= ->].
    apply read_varint_loop_consumes in E. lia. }
  destruct (wt =? WIRE_64_BIT); [intros [= <-]; rewrite length_drop; lia|].
  destruct (wt =? WIRE_LENGTH_DELIMITED).
  { destruct (read_varint_loop 0 0 bs) as [[v r]|m] eqn:E; cbn; [|done].
    destruct (_ <? _); [done|]. intros [= <-]. apply read_varint_loop_consumes in E.
    rewrite length_drop. lia. }
  destruct (wt =? WIRE_32_BIT); [intros [= <-]; rewrite length_drop; lia | done].
Qed.

(** A read that does not give bytes back. *)
Definition reads {A} (rd : Z -> bytes -> res (A * bytes)) : Prop :=
  forall wt bs a bs', rd wt bs = Ok (a, bs') -> (length bs' <= length bs)%nat.

Lemma reads_varint : reads readVarintForWireType.
Proof.
  intros wt bs v bs'. unfold readVarintForWireType, readVarint. destruct (wt =? _); [|done].
  intros E%read_varint_loop_consumes. lia.
Qed.

Lemma reads_bytes : reads readBytesForWireType.
Proof.
  intros wt bs v bs'. unfold readBytesForWireType, readVarint. destruct (wt =? _); [|done].
  destruct (read_varint_loop 0 0 bs) as [[n r]|m] eqn:E; cbn; [|done]. destruct (_ <? _); [done|].
  intros [= _ <-]. apply read_varint_loop_consumes in E. rewrite length_drop. lia.
Qed.

(** A read followed by a computation that may throw. *)
Lemma reads_then {A B} (rd : Z -> bytes -> res (A * bytes)) (f : A -> bytes -> res (B * bytes)) :
  reads rd -> (forall a bs b bs', f a bs = Ok (b, bs') -> bs' = bs) ->
  reads (fun wt bs => '(a, bs) ← rd wt bs; f a bs).
Proof.
  intros Hrd Hf wt bs b bs'. destruct (rd wt bs) as [[a r]|m] eqn:E; cbn; [|done].
  intros ->%Hf. by eapply Hrd.
Qed.

Lemma reads_string : reads readStringForWireType.
Proof. apply reads_then; [apply reads_bytes|]. by intros a bs b bs' [= _ ->]. Qed.

Lemma reads_safe_uint64 name : reads (readSafeUint64 name).
Proof.
  apply reads_then; [apply reads_varint|]. intros a bs b bs'. destruct (_ <? a); [done|].
  by intros [= _ ->].
Qed.

Lemma reads_int32 : reads readInt32Varint.
Proof. apply reads_then; [apply reads_varint|]. by intros a bs b bs' [= _ ->]. Qed.

#[export] Hint Resolve reads_varint reads_bytes reads_string reads_safe_uint64 reads_int32 : bud.

(** ** The loop does not depend on its fuel *)

Definition consuming {A} (h : handler A) : Prop :=
  forall fn wt a bs a' bs', h fn wt a bs = Ok (a', bs') -> (length bs' <= length bs)%nat.

Definition action_consuming {A} (act : action A) : Prop :=
  forall wt a bs a' bs', act wt a bs = Ok (a', bs') -> (length bs' <= length bs)%nat.

Lemma else_skip_consuming {A} (cases : list (Z * action A)) :
  Forall (fun c => action_consuming c.2) cases -> consuming (else_skip cases).
Proof.
  intros Hc fn wt a bs a' bs'. unfold else_skip. destruct (JsMap.get fn cases) as [act|] eqn:E.
  - apply JsMap.get_Some_elem in E. rewrite Forall_forall in Hc. apply (Hc _ E).
  - destruct (skip wt bs) as [r|m] eqn:Es; cbn; [|done]. intros [= _ ->]. by eapply skip_consumes.
Qed.

Lemma fields_loop_fuel {A} (h : handler A) a bs n m :
  consuming h -> (length bs <= n)%nat -> (length bs <= m)%nat ->
  fields_loop n h a bs = fields_loop m h a bs.
Proof.
  intros Hh. revert m a bs. induction n as [|n IH]; intros m a bs Hn Hm.
  - destruct bs; [by destruct m | cbn in Hn; lia].
  - destruct m as [|m]; [destruct bs; [done | cbn in Hm; lia]|].
    destruct bs as [|b bs]; [done|]. cbn [fields_loop].
    destruct (readTag (b :: bs)) as [[[fn wt] r]|e] eqn:E; cbn [mbind res_mbind]; [|done].
    apply readTag_consumes in E.
    destruct (h fn wt a r) as [[a' r']|e] eqn:Eh; cbn [mbind res_mbind]; [|done].
    apply Hh in Eh. apply IH; lia.
Qed.

Lemma decode_fields_step {A} (h : handler A) a bs :
  consuming h -> bs <> [] ->
  decode_fields h a bs
  = '(fieldNumber, wireType, bs) ← readTag bs;
    '(a, bs) ← h fieldNumber wireType a bs;
    decode_fields h a bs.
Proof.
  intros Hh Hne. unfold decode_fields. destruct bs as [|b bs]; [done|]. cbn [length fields_loop].
  destruct (readTag (b :: bs)) as [[[fn wt] r]|e] eqn:E; cbn [mbind res_mbind]; [|done].
  apply readTag_consumes in E.
  destruct (h fn wt a r) as [[a' r']|e] eqn:Eh; cbn [mbind res_mbind]; [|done].
  apply Hh in Eh. cbn in E. apply fields_loop_fuel; [done | lia | lia].
Qed.

(** ** Fields read back *)

Lemma readTag_tag fn wt rest :
  0 <= fn < 2 ^ 50 -> 0 <= wt < 8 -> readTag (tag_bytes fn wt ++ rest) = Ok (fn, wt, rest).
Proof.
  intros Hfn Hwt. unfold readTag, tag_bytes. rewrite Z.lor_comm, lor_shift by lia.
  change (2 ^ 3) with 8. rewrite readVarint_encode, Z.mod_small by lia. cbn [mbind res_mbind].
  rewrite Z.shiftr_div_pow2 by lia. change 7 with (Z.ones 3). rewrite Z.land_ones by lia.
  change (2 ^ 3) with 8. rewrite Z.div_add, Z_mod_plus_full, (Z.div_small wt), (Z.mod_small wt) by lia.
  by rewrite number_of_bigint_small by lia.
Qed.

Lemma readBytes_written v rest :
  zlen v <= 2 ^ 53 ->
  readBytesForWireType WIRE_LENGTH_DELIMITED (encodeVarint (zlen v) ++ v ++ rest) = Ok (v, rest).
Proof.
  intros Hv. unfold readBytesForWireType. cbn [Z.eqb WIRE_LENGTH_DELIMITED Pos.eqb].
  pose proof (zlen_nonneg v). rewrite readVarint_encode, Z.mod_small by lia. cbn [mbind res_mbind].
  rewrite number_of_bigint_small by lia. rewrite (proj2 (Z.ltb_ge _ _)).
  - unfold zlen. rewrite Nat2Z.id, take_app_length, drop_app_length. done.
  - rewrite zlen_app. pose proof (zlen_nonneg rest). lia.
Qed.

Definition field_number (fn : Z) : Prop := 0 <= fn < 2 ^ 50.

Lemma decode_bytes_field {A} (h : handler A) fn v a rest a' :
  consuming h -> field_number fn ->
  h fn WIRE_LENGTH_DELIMITED a (encodeVarint (zlen v) ++ v ++ rest) = Ok (a', rest) ->
  decode_fields h a (writeBytes fn v ++ rest) = decode_fields h a' rest.
Proof.
  intros Hh Hfn E. unfold writeBytes. rewrite <- !app_assoc.
  rewrite decode_fields_step by (done || apply encodeVarint_nonnil).
  rewrite readTag_tag by (done || lia). cbn [mbind res_mbind]. by rewrite E.
Qed.

Lemma decode_varint_field {A} (h : handler A) fn v a rest a' :
  consuming h -> field_number fn ->
  h fn WIRE_VARINT a (encodeVarint v ++ rest) = Ok (a', rest) ->
  decode_fields h a (writeVarintField fn v ++ rest) = decode_fields h a' rest.
Proof.
  intros Hh Hfn E. unfold writeVarintField. rewrite <- !app_assoc.
  rewrite decode_fields_step by (done || apply encodeVarint_nonnil).
  rewrite readTag_tag by (done || lia). cbn [mbind res_mbind]. by rewrite E.
Qed.

(** ** Writers and the decoder *)

(** The decoder [h], on what [w] wrote followed by anything, goes on after it
    with [upd] applied. *)
Definition wrote {A} (h : handler A) (w : res bytes) (upd : A -> A) : Prop :=
  forall bs, w = Ok bs -> zlen bs <= 2 ^ 53 ->
  forall a rest, decode_fields h a (bs ++ rest) = decode_fields h (upd a) rest.

Lemma wrote_nothing {A} (h : handler A) : wrote h (Ok []) id.
Proof. by intros bs [= <-]. Qed.

Definition apply_all {A} (upds : list (A -> A)) (a : A) : A := foldl (fun a u => u a) a upds.

Lemma wrote_concat {A} (h : handler A) ws upds :
  Forall2 (wrote h) ws upds -> wrote h (concat_writes ws) (apply_all upds).
Proof.
  induction 1 as [|w u ws upds Hw Hws IH]; intros bs; cbn [concat_writes].
  - by intros [= <-].
  - destruct w as [b|m] eqn:Ew; cbn [mbind res_mbind]; [|done].
    destruct (concat_writes ws) as [bs2|m] eqn:Es; cbn [mbind res_mbind]; [|done].
    intros [= <-] Hl a rest. rewrite zlen_app in Hl.
    pose proof (zlen_nonneg b). pose proof (zlen_nonneg bs2).
    rewrite <- app_assoc, (Hw b) by (done || lia). by rewrite (IH bs2) by (done || lia).
Qed.

(** A message decodes to the updates of its writers, in order. *)
Lemma wrote_message {A} (h : handler A) w upd bs a :
  wrote h w upd -> w = Ok bs -> zlen bs <= 2 ^ 53 -> decode_fields h a bs = Ok (upd a).
Proof. intros Hw Eq Hl. rewrite <- (app_nil_r bs), (Hw bs Eq Hl). done. Qed.
