(* ===== verification/WireFrames.v ===== *)
(** The frames on the wire: the tables of [service/src/proto/wire.ts] and
    [envelope.ts], the typed payload of each frame type, and the envelope.

    The tables and the cases of the two big switches are lists, read at the key.
    The table of the typed payloads is a plain object: at a name it inherits from
    [Object.prototype] it finds a function ([typed_field_number]); at such a name
    the tables of enum values find one too, which is not above 0 and so not
    written, like a missing key.  [Date.parse] and the
    text of numbers that are not small integers are parameters; a fresh id and
    the clock are arguments. *)
From Stdlib Require Import ZArith QArith Qround Qabs Lia Strings.Byte.
From stdpp Require Import base tactics strings gmap sorting option pretty.
From stdpp Require Import list.
From S2P Require Import Prelude JsRuntime Base64 Json Wire.
Open Scope Z_scope.

Definition fields := list (string * jsval).

(** ** Tables *)

Definition TYPED_PAYLOAD_FIELD_BY_FRAME_TYPE : list (string * Z) :=
  [("error", 101); ("hello", 102); ("hello_ack", 103); ("hello_challenge", 104);
   ("hello_proof", 105); ("heartbeat", 106); ("heartbeat_ack", 107); ("terminal_ensure", 120);
   ("terminal_status", 121); ("terminal_input", 122); ("terminal_resize", 123);
   ("terminal_close", 124); ("terminal_send", 125); ("terminal_send_result", 126);
   ("terminal_observe", 127); ("terminal_observe_result", 128); ("terminal_output", 129);
   ("terminal_event", 131); ("reconnect_report", 150); ("reconciliation_decision", 151);
   ("data_attach", 170); ("data_attach_ack", 171); ("stream_data", 172);
   ("stream_credit", 173); ("stream_reset", 174); ("stream_close", 175); ("proxy_open", 176);
   ("proxy_open_result", 177); ("file_open", 178); ("file_open_result", 179);
   ("file_resolve", 180); ("file_resolve_result", 181); ("proxy_ws_open", 182);
   ("proxy_ws_open_result", 183); ("proxy_ws_message", 184); ("proxy_ws_close", 185);
   ("proxy_ws_error", 186); ("browser_command", 190); ("browser_result", 191)].

(** The names every plain object inherits from [Object.prototype]. *)
Definition OBJECT_PROTOTYPE_KEYS : list string :=
  ["constructor"; "__defineGetter__"; "__defineSetter__"; "hasOwnProperty"; "__lookupGetter__";
   "__lookupSetter__"; "isPrototypeOf"; "propertyIsEnumerable"; "toString"; "valueOf";
   "__proto__"; "toLocaleString"].

(** [TYPED_PAYLOAD_FIELD_BY_FRAME_TYPE[frameType]] when it is truthy, as the number
    it is for [writeMessage]: a function or an object found at an inherited name is
    0 once it is shifted. *)
Definition typed_field_number (frameType : string) : option Z :=
  match JsMap.get frameType TYPED_PAYLOAD_FIELD_BY_FRAME_TYPE with
  | Some fieldNumber => Some fieldNumber
  | None => if bool_decide (frameType ∈ OBJECT_PROTOTYPE_KEYS) then Some 0 else None
  end.

Definition FRAME_TYPE_BY_TYPED_PAYLOAD_FIELD : list (Z * string) :=
  (fun kv : string * Z => (kv.2, kv.1)) <$> TYPED_PAYLOAD_FIELD_BY_FRAME_TYPE.

Definition FIELD_LEVEL_FRAME_TYPES : list string :=
  ["error"; "hello"; "hello_ack"; "hello_challenge"; "hello_proof"; "heartbeat";
   "heartbeat_ack"; "terminal_ensure"; "terminal_status"; "terminal_input"; "terminal_resize";
   "terminal_close"; "terminal_send"; "terminal_send_result"; "terminal_observe";
   "terminal_observe_result"; "terminal_output"; "terminal_event"; "reconnect_report";
   "reconciliation_decision"; "data_attach"; "data_attach_ack"; "stream_data";
   "stream_credit"; "stream_reset"; "stream_close"].

Definition STREAM_TYPE_PROTO_VALUES : list (string * Z) :=
  [("terminal_interactive", 1); ("localhost_http_proxy", 2); ("file_read", 3);
   ("localhost_websocket_proxy", 4); ("local_llm_http", 5)].

Definition STREAM_TYPE_JSON_VALUES : list (Z * string) :=
  [(1, "terminal_interactive"); (2, "localhost_http_proxy"); (3, "file_read");
   (4, "localhost_websocket_proxy"); (5, "local_llm_http")].

Definition OPERATION_STATE_PROTO_VALUES : list (string * Z) :=
  [("offered", 1); ("accepted", 2); ("rejected", 3); ("running", 4); ("succeeded", 5);
   ("failed", 6); ("canceled", 7); ("unknown", 8); ("expired", 9)].

Definition OPERATION_STATE_JSON_VALUES : list (Z * string) :=
  [(1, "offered"); (2, "accepted"); (3, "rejected"); (4, "running"); (5, "succeeded");
   (6, "failed"); (7, "canceled"); (8, "unknown"); (9, "expired")].

Definition STREAM_STATE_PROTO_VALUES : list (string * Z) :=
  [("opening", 1); ("open", 2); ("half_closed_local", 3); ("half_closed_remote", 4);
   ("closed", 5); ("reset", 6); ("unknown", 7); ("expired", 8)].

Definition STREAM_STATE_JSON_VALUES : list (Z * string) :=
  [(1, "opening"); (2, "open"); (3, "half_closed_local"); (4, "half_closed_remote");
   (5, "closed"); (6, "reset"); (7, "unknown"); (8, "expired")].

Definition STREAM_RESET_REASON_PROTO_VALUES : list (string * Z) :=
  [("canceled", 1); ("policy_denied", 2); ("transport_lost", 3); ("timeout", 4);
   ("backpressure", 5); ("protocol_error", 6); ("local_error", 7); ("remote_error", 8)].

Definition STREAM_RESET_REASON_JSON_VALUES : list (Z * string) :=
  [(1, "canceled"); (2, "policy_denied"); (3, "transport_lost"); (4, "timeout");
   (5, "backpressure"); (6, "protocol_error"); (7, "local_error"); (8, "remote_error")].

(** [TABLE[stringField(...) ?? ""]]. *)
Definition proto_value (table : list (string * Z)) (key : option string) : option Z :=
  JsMap.get (key ?? "") table.

Definition LEGACY_JSON_PAYLOAD_FIELD : Z := 100.
Definition TYPED_FRAME_JSON_FIELD : Z := 99.
Definition PAYLOAD_FIELD_MIN : Z := 100.
Definition PAYLOAD_FIELD_MAX : Z := 199.

Definition isPayloadFieldNumber (fieldNumber : Z) : bool :=
  (PAYLOAD_FIELD_MIN <=? fieldNumber) && (fieldNumber <=? PAYLOAD_FIELD_MAX).

Definition UnsupportedBudEnvelopePayloadError {A} (fieldNumber : Z) : res A :=
  Err ("unsupported BudEnvelope payload field " +:+ pretty fieldNumber).

(** ** Reading a frame object *)

Definition stringField (record : fields) (field : string) : option string :=
  as_string (field_lookup field record).

Definition numberField (record : fields) (field : string) : option Q :=
  match field_lookup field record with JNum (JFin q) => Some q | _ => None end.

Definition booleanField (record : fields) (field : string) : option bool :=
  match field_lookup field record with JBool b => Some b | _ => None end.

Definition recordField (record : fields) (field : string) : option fields :=
  as_record (field_lookup field record).

Definition arrayField (record : fields) (field : string) : list jsval :=
  match field_lookup field record with JArr l => l | _ => [] end.

Definition stringArrayField (record : fields) (field : string) : list string :=
  omap as_string (arrayField record field).

Definition protoForFrameType (frameType : string) : string :=
  if starts_with "terminal_" frameType then "0.3" else "0.1".

(** The host's [Date.parse]; [None] is [NaN]. *)
Class DateParse := date_parse : string -> option Q.

Section Frames.
Context `{NumberText} `{DateParse}.

(** [String(nested)] of what is neither a string nor an object. *)
Definition value_text (v : jsval) : string :=
  match v with
  | JUndef => "undefined"
  | JNull => "null"
  | JBool b => if b then "true" else "false"
  | JNum (JFin q) => number_text q
  | JNum JNaN => "NaN"
  | JNum (JInf neg) => if neg then "-Infinity" else "Infinity"
  | JStr s => s
  | JArr _ | JObj _ => JSON_stringify v
  end.

(** [out[key] = text] on the plain object [out]: text given to [__proto__] goes to
    the setter [Object.prototype] has there, which ignores what is no object. *)
Definition assign_text (key text : string) (out : list (string * string))
  : list (string * string) :=
  if bool_decide (key = "__proto__") then out else JsMap.set key text out.

Definition stringMapField (record : fields) (field : string) : option (list (string * string)) :=
  match field_lookup field record with
  | JObj entries =>
      Some (foldl (fun out (kv : string * jsval) =>
              match kv.2 with JUndef => out | v => assign_text kv.1 (value_text v) out end) [] entries)
  | _ => None
  end.

Definition jsonBytes (value : jsval) : option bytes :=
  match value with
  | JUndef | JNull => None
  | v => Some (utf8_bytes (JSON_stringify v))
  end.

Definition writeOptionalJsonBytes (fieldNumber : Z) (value : jsval) : res bytes :=
  match jsonBytes value with
  | Some b => Ok (writeBytes fieldNumber b)
  | None => Ok []
  end.

Definition parseJsonBytes (b : bytes) : res jsval :=
  match JSON_parse (bytes_text b) with Some v => Ok v | None => Err "invalid JSON" end.

Definition sentAtToMillis (value : string) : Q := date_parse value ?? 0%Q.

(** ** Encoding *)

Definition encodeTerminalEnsureConfig (value : option fields) : res (option bytes) :=
  match value with
  | None => Ok None
  | Some value =>
      b ← concat_writes
        [writeOptionalString 1 (stringField value "shell");
         writeOptionalString 2 (stringField value "cwd");
         writeStringMap 3 (stringMapField value "env");
         writeOptionalUint32 4 (numberField value "cols");
         writeOptionalUint32 5 (numberField value "rows")];
      Ok (Some b)
  end.

Definition encodeBudError (value : option fields) : res (option bytes) :=
  match value with
  | None => Ok None
  | Some value =>
      b ← concat_writes
        [writeOptionalString 1 (stringField value "code");
         writeOptionalString 2 (stringField value "message");
         writeOptionalBool 3 (booleanField value "retryable");
         writeStringMap 4 (stringMapField value "details")];
      Ok (Some b)
  end.

Definition encodeOperationStatus (value : jsval) : res bytes :=
  let record := as_record value ?? [] in
  concat_writes
    [writeOptionalString 1 (stringField record "operation_id");
     writeOptionalEnum 2 (proto_value OPERATION_STATE_PROTO_VALUES (stringField record "state"));
     writeOptionalMessage 3 (encodeBudError (recordField record "error"));
     writeOptionalString 4 (stringField record "operation_type");
     writeOptionalString 5 (stringField record "updated_at")].

Definition encodeStreamStatus (value : jsval) : res bytes :=
  let record := as_record value ?? [] in
  concat_writes
    [writeOptionalString 1 (stringField record "stream_id");
     writeOptionalString 2 (stringField record "operation_id");
     writeOptionalEnum 3 (proto_value STREAM_TYPE_PROTO_VALUES (stringField record "stream_type"));
     writeOptionalEnum 4 (proto_value STREAM_STATE_PROTO_VALUES (stringField record "state"));
     writeOptionalUint64 5 (numberField record "send_offset");
     writeOptionalUint64 6 (numberField record "receive_offset");
     writeOptionalEnum 7 (proto_value STREAM_RESET_REASON_PROTO_VALUES (stringField record "reset_reason"));
     writeOptionalMessage 8 (encodeBudError (recordField record "error"));
     writeOptionalString 9 (stringField record "updated_at")].

(** The [switch (frameType)] of [encodeFieldLevelPayload]: what each case writes. *)
Definition payload_cases (frame : fields) : list (string * list (res bytes)) :=
  [("error",
     [writeOptionalString 1 (stringField frame "code");
      writeOptionalString 2 (stringField frame "message");
      writeOptionalBool 3 (booleanField frame "retryable");
      writeStringMap 4 (stringMapField frame "details")]);
   ("hello",
     [writeOptionalString 1 (stringField frame "name");
      writeOptionalString 2 (stringField frame "os");
      writeOptionalString 3 (stringField frame "arch");
      writeOptionalString 4 (stringField frame "version");
      writeOptionalString 5 (stringField frame "installation_id");
      writeOptionalString 6 (stringField frame "token");
      writeOptionalString 7 (stringField frame "bud_id");
      writeOptionalJsonBytes 8 (field_lookup "capabilities" frame)]);
   ("hello_ack",
     [writeOptionalString 1 (stringField frame "session_id");
      writeOptionalString 2 (stringField frame "bud_id");
      writeOptionalUint32 3 (numberField frame "heartbeat_sec");
      writeOptionalString 4 (stringField frame "device_secret")]);
   ("hello_challenge",
     [writeOptionalString 1 (stringField frame "nonce")]);
   ("hello_proof",
     [writeOptionalString 1 (stringField frame "bud_id");
      writeOptionalString 2 (stringField frame "hmac")]);
   ("heartbeat",
     [writeOptionalString 1 (stringField frame "session_id")]);
   ("heartbeat_ack",
     [writeOptionalString 1 (stringField frame "session_id")]);
   ("terminal_ensure",
     [writeOptionalString 1 (stringField frame "session_id");
      writeOptionalMessage 2 (encodeTerminalEnsureConfig (recordField frame "config"));
      writeOptionalUint64 3 (numberField frame "resume_from_offset")]);
   ("terminal_status",
     [writeOptionalString 1 (stringField frame "session_id");
      writeOptionalString 2 (stringField frame "state");
      writeOptionalJsonBytes 3 (field_lookup "info" frame)]);
   ("terminal_input",
     [writeOptionalString 1 (stringField frame "session_id");
      writeOptionalBase64Bytes 2 (stringField frame "data");
      writeOptionalUint64 4 (numberField frame "input_seq")]);
   ("terminal_resize",
     [writeOptionalString 1 (stringField frame "session_id");
      writeOptionalUint32 2 (numberField frame "cols");
      writeOptionalUint32 3 (numberField frame "rows")]);
   ("terminal_close",
     [writeOptionalString 1 (stringField frame "session_id");
      writeOptionalString 2 (stringField frame "reason")]);
   ("terminal_send",
     [writeOptionalString 1 (stringField frame "session_id");
      writeOptionalString 2 (stringField frame "request_id");
      writeOptionalString 3 (stringField frame "text");
      writeOptionalBool 4 (booleanField frame "submit");
      writeOptionalString 5 (stringField frame "key");
      writeOptionalString 9 (stringField frame "await")]);
   ("terminal_send_result",
     [writeOptionalString 1 (stringField frame "session_id");
      writeOptionalString 2 (stringField frame "request_id");
      writeOptionalNullableString 6 (field_lookup "error" frame);
      writeOptionalBool 8 (booleanField frame "dispatched");
      writeOptionalJsonBytes 9 (field_lookup "outcome" frame)]);
   ("terminal_observe",
     [writeOptionalString 1 (stringField frame "session_id");
      writeOptionalString 2 (stringField frame "request_id");
      writeOptionalString 3 (stringField frame "view");
      writeOptionalInt32 4 (numberField frame "lines");
      writeOptionalString 7 (stringField frame "await");
      writeOptionalUint64 8 (numberField frame "quiet_ms")]);
   ("terminal_observe_result",
     [writeOptionalString 1 (stringField frame "session_id");
      writeOptionalString 2 (stringField frame "request_id");
      writeOptionalString 3 (stringField frame "view");
      writeOptionalBase64Bytes 4 (stringField frame "output");
      writeOptionalUint64 6 (numberField frame "lines_captured");
      writeOptionalBool 7 (booleanField frame "changed");
      writeOptionalNullableString 10 (field_lookup "error" frame);
      writeOptionalString 12 (stringField frame "mode");
      writeOptionalString 13 (stringField frame "integration");
      writeOptionalBool 14 (booleanField frame "alt_screen");
      writeOptionalUint32 15 (numberField frame "cursor_row");
      writeOptionalUint32 16 (numberField frame "cursor_col")]);
   ("terminal_output",
     [writeOptionalString 1 (stringField frame "session_id");
      writeOptionalBase64Bytes 3 (stringField frame "data");
      writeOptionalUint64 4 (numberField frame "byte_offset")]);
   ("terminal_event",
     [writeOptionalString 1 (stringField frame "session_id");
      writeOptionalString 2 (stringField frame "event");
      writeOptionalJsonBytes 3 (field_lookup "data" frame)]);
   ("reconnect_report",
     [writeOptionalString 1 (stringField frame "bud_id");
      writeOptionalString 2 (stringField frame "device_session_id");
      writeRepeatedMessages 3 (encodeOperationStatus <$> arrayField frame "operations");
      writeRepeatedMessages 4 (encodeStreamStatus <$> arrayField frame "streams");
      writeOptionalString 5 (stringField frame "local_policy_version");
      writeRepeatedStrings 6 (stringArrayField frame "terminal_sessions")]);
   ("reconciliation_decision",
     [writeRepeatedMessages 1 (encodeOperationStatus <$> arrayField frame "operations");
      writeRepeatedMessages 2 (encodeStreamStatus <$> arrayField frame "streams")]);
   ("data_attach",
     [writeOptionalString 1 (stringField frame "bud_id");
      writeOptionalString 2 (stringField frame "device_session_id");
      writeOptionalString 3 (stringField frame "control_transport_session_id");
      writeRepeatedStrings 4 (stringArrayField frame "streams");
      writeOptionalUint32 5 (numberField frame "max_chunk_bytes");
      writeOptionalUint64 6 (numberField frame "initial_credit_bytes")]);
   ("data_attach_ack",
     [writeOptionalString 1 (stringField frame "bud_id");
      writeOptionalString 2 (stringField frame "device_session_id");
      writeOptionalString 3 (stringField frame "transport_session_id");
      writeRepeatedStrings 4 (stringArrayField frame "streams");
      writeOptionalUint32 5 (numberField frame "max_chunk_bytes");
      writeOptionalUint64 6 (numberField frame "initial_credit_bytes")]);
   ("stream_data",
     [writeOptionalString 1 (stringField frame "stream_id");
      writeOptionalEnum 2 (proto_value STREAM_TYPE_PROTO_VALUES (stringField frame "stream_type"));
      writeOptionalUint64 3 (numberField frame "offset");
      writeOptionalBase64Bytes 4 (stringField frame "data");
      writeOptionalBool 5 (booleanField frame "end_stream")]);
   ("stream_credit",
     [writeOptionalString 1 (stringField frame "stream_id");
      writeOptionalUint64 2 (numberField frame "receive_offset");
      writeOptionalUint64 3 (numberField frame "credit_bytes")]);
   ("stream_reset",
     [writeOptionalString 1 (stringField frame "stream_id");
      writeOptionalEnum 2 (proto_value STREAM_RESET_REASON_PROTO_VALUES (stringField frame "reason"));
      writeOptionalMessage 3 (encodeBudError (recordField frame "error"))]);
   ("stream_close",
     [writeOptionalString 1 (stringField frame "stream_id");
      writeOptionalUint64 2 (numberField frame "final_offset")])].

Definition encodeFieldLevelPayload (frameType : string) (frame : fields) : res (option bytes) :=
  if bool_decide (frameType ∈ FIELD_LEVEL_FRAME_TYPES) then
    match JsMap.get frameType (payload_cases frame) with
    | Some writes => b ← concat_writes writes; Ok (Some b)
    | None => Ok None
    end
  else Ok None.

(** ** Decoding a field *)

(** [frame.k = rd(...)]. *)
Definition put (k : string) (rd : Z -> bytes -> res (jsval * bytes)) : action fields :=
  fun wireType frame bs => '(v, bs) ← rd wireType bs; Ok (JsMap.set k v frame, bs).

Definition num (z : Z) : jsval := JNum (JFin (inject_Z z)).

Definition putString (k : string) : action fields :=
  put k (fun wt bs => '(s, bs) ← readStringForWireType wt bs; Ok (JStr s, bs)).
Definition putBool (k : string) : action fields :=
  put k (fun wt bs => '(v, bs) ← readVarintForWireType wt bs; Ok (JBool (negb (v =? 0)), bs)).
Definition putNumber (k : string) : action fields :=
  put k (fun wt bs => '(v, bs) ← readVarintForWireType wt bs; Ok (num (number_of_bigint v), bs)).
Definition putUint64 (k name : string) : action fields :=
  put k (fun wt bs => '(v, bs) ← readSafeUint64 name wt bs; Ok (num v, bs)).
Definition putInt32 (k : string) : action fields :=
  put k (fun wt bs => '(v, bs) ← readInt32Varint wt bs; Ok (num v, bs)).
Definition putJson (k : string) : action fields :=
  put k (fun wt bs => '(b, bs) ← readBytesForWireType wt bs; v ← parseJsonBytes b; Ok (v, bs)).
Definition putBase64 (k : string) : action fields :=
  put k (fun wt bs => '(b, bs) ← readBytesForWireType wt bs; Ok (JStr (Base64.encode b), bs)).
(** [frame.k = TABLE[Number(...)] ?? fallback]. *)
Definition putEnum (k : string) (table : list (Z * string)) (fallback : string) : action fields :=
  put k (fun wt bs =>
    '(v, bs) ← readVarintForWireType wt bs;
    Ok (JStr (JsMap.get (number_of_bigint v) table ?? fallback), bs)).
Definition putMessage (k : string) (decode : bytes -> res fields) : action fields :=
  put k (fun wt bs => '(b, bs) ← readBytesForWireType wt bs; m ← decode b; Ok (JObj m, bs)).

Definition decodeStringMapEntry (b : bytes) : res (list (string * string)) :=
  '(key, value) ← decode_fields
    (else_skip
       [(1, fun wt (kv : option string * option string) bs =>
              '(s, bs) ← readStringForWireType wt bs; Ok ((Some s, kv.2), bs));
        (2, fun wt kv bs => '(s, bs) ← readStringForWireType wt bs; Ok ((kv.1, Some s), bs))])
    (None, None) b;
  Ok (match key with
      | Some k => if str_truthy k then [(k, value ?? "")] else []
      | None => []
      end).

(** [frame.k = { ...(isRecord(frame.k) ? frame.k : {}), ...entry }]. *)
Definition mergeMap (k : string) : action fields :=
  fun wireType frame bs =>
    '(b, bs) ← readBytesForWireType wireType bs;
    entry ← decodeStringMapEntry b;
    let current := as_record (field_lookup k frame) ?? [] in
    let merged := foldl (fun m (kv : string * string) => JsMap.set kv.1 (JStr kv.2) m) current entry in
    Ok (JsMap.set k (JObj merged) frame, bs).

Definition pushArrayValue (record : fields) (field : string) (value : jsval) : fields :=
  match field_lookup field record with
  | JArr l => JsMap.set field (JArr (l ++ [value])) record
  | _ => JsMap.set field (JArr [value]) record
  end.

Definition pushString (k : string) : action fields :=
  fun wireType frame bs =>
    '(s, bs) ← readStringForWireType wireType bs; Ok (pushArrayValue frame k (JStr s), bs).
Definition pushMessage (k : string) (decode : bytes -> res fields) : action fields :=
  fun wireType frame bs =>
    '(b, bs) ← readBytesForWireType wireType bs;
    m ← decode b;
    Ok (pushArrayValue frame k (JObj m), bs).

(** ** Decoding messages *)

Definition decodeTerminalEnsureConfig (b : bytes) : res fields :=
  decode_fields (else_skip
  [(1, putString "shell");
   (2, putString "cwd");
   (3, mergeMap "env");
   (4, putNumber "cols");
   (5, putNumber "rows")]) [] b.

Definition decodeBudError (b : bytes) : res fields :=
  decode_fields (else_skip
  [(1, putString "code");
   (2, putString "message");
   (3, putBool "retryable");
   (4, mergeMap "details")]) [] b.

Definition decodeOperationStatus (b : bytes) : res fields :=
  decode_fields (else_skip
  [(1, putString "operation_id");
   (2, putEnum "state" OPERATION_STATE_JSON_VALUES "unknown");
   (3, putMessage "error" decodeBudError);
   (4, putString "operation_type");
   (5, putString "updated_at")]) [] b.

Definition decodeStreamStatus (b : bytes) : res fields :=
  decode_fields (else_skip
  [(1, putString "stream_id");
   (2, putString "operation_id");
   (3, putEnum "stream_type" STREAM_TYPE_JSON_VALUES "terminal_interactive");
   (4, putEnum "state" STREAM_STATE_JSON_VALUES "unknown");
   (5, putUint64 "send_offset" "stream_status.send_offset");
   (6, putUint64 "receive_offset" "stream_status.receive_offset");
   (7, putEnum "reset_reason" STREAM_RESET_REASON_JSON_VALUES "protocol_error");
   (8, putMessage "error" decodeBudError);
   (9, putString "updated_at")]) [] b.

Definition readBudErrorField : handler fields :=
  else_skip
  [(1, putString "code");
   (2, putString "message");
   (3, putBool "retryable");
   (4, mergeMap "details")].

Definition readHelloField : handler fields :=
  else_skip
  [(1, putString "name");
   (2, putString "os");
   (3, putString "arch");
   (4, putString "version");
   (5, putString "installation_id");
   (6, putString "token");
   (7, putString "bud_id");
   (8, putJson "capabilities")].

Definition readHelloAckField : handler fields :=
  else_skip
  [(1, putString "session_id");
   (2, putString "bud_id");
   (3, putNumber "heartbeat_sec");
   (4, putString "device_secret")].

Definition readTerminalSendField : handler fields :=
  else_skip
  [(1, putString "session_id");
   (2, putString "request_id");
   (3, putString "text");
   (4, putBool "submit");
   (5, putString "key");
   (9, putString "await")].

Definition readTerminalSendResultField : handler fields :=
  else_skip
  [(1, putString "session_id");
   (2, putString "request_id");
   (6, putString "error");
   (8, putBool "dispatched");
   (9, putJson "outcome")].

Definition readTerminalObserveField : handler fields :=
  else_skip
  [(1, putString "session_id");
   (2, putString "request_id");
   (3, putString "view");
   (4, putInt32 "lines");
   (7, putString "await");
   (8, putUint64 "quiet_ms" "terminal_observe.quiet_ms")].

Definition readTerminalObserveResultField : handler fields :=
  else_skip
  [(1, putString "session_id");
   (2, putString "request_id");
   (3, putString "view");
   (4, putBase64 "output");
   (6, putUint64 "lines_captured" "terminal_observe_result.lines_captured");
   (7, putBool "changed");
   (10, putString "error");
   (12, putString "mode");
   (13, putString "integration");
   (14, putBool "alt_screen");
   (15, putNumber "cursor_row");
   (16, putNumber "cursor_col")].

Definition readReconnectReportField : handler fields :=
  else_skip
  [(1, putString "bud_id");
   (2, putString "device_session_id");
   (3, pushMessage "operations" decodeOperationStatus);
   (4, pushMessage "streams" decodeStreamStatus);
   (5, putString "local_policy_version");
   (6, pushString "terminal_sessions")].

Definition readDataAttachField : handler fields :=
  else_skip
  [(1, putString "bud_id");
   (2, putString "device_session_id");
   (3, putString "control_transport_session_id");
   (4, pushString "streams");
   (5, putNumber "max_chunk_bytes");
   (6, putUint64 "initial_credit_bytes" "data_attach.initial_credit_bytes")].

Definition readDataAttachAckField : handler fields :=
  else_skip
  [(1, putString "bud_id");
   (2, putString "device_session_id");
   (3, putString "transport_session_id");
   (4, pushString "streams");
   (5, putNumber "max_chunk_bytes");
   (6, putUint64 "initial_credit_bytes" "data_attach_ack.initial_credit_bytes")].

Definition readStreamDataField : handler fields :=
  else_skip
  [(1, putString "stream_id");
   (2, putEnum "stream_type" STREAM_TYPE_JSON_VALUES "terminal_interactive");
   (3, putUint64 "offset" "stream_data.offset");
   (4, putBase64 "data");
   (5, putBool "end_stream")].

Definition readStreamCreditField : handler fields :=
  else_skip
  [(1, putString "stream_id");
   (2, putUint64 "receive_offset" "stream_credit.receive_offset");
   (3, putUint64 "credit_bytes" "stream_credit.credit_bytes")].

Definition readStreamResetField : handler fields :=
  else_skip
  [(1, putString "stream_id");
   (2, putEnum "reason" STREAM_RESET_REASON_JSON_VALUES "protocol_error");
   (3, putMessage "error" decodeBudError)].

(** The [switch (frameType)] of the loop of [decodeFieldLevelPayload]. *)
Definition field_readers : list (string * handler fields) :=
  [("error", readBudErrorField);
   ("hello", readHelloField);
   ("hello_ack", readHelloAckField);
   ("hello_challenge", else_skip [(1, putString "nonce")]);
   ("hello_proof", else_skip [(1, putString "bud_id");
                     (2, putString "hmac")]);
   ("heartbeat", else_skip [(1, putString "session_id")]);
   ("heartbeat_ack", else_skip [(1, putString "session_id")]);
   ("terminal_ensure", else_skip [(1, putString "session_id");
                     (2, putMessage "config" decodeTerminalEnsureConfig);
                     (3, putUint64 "resume_from_offset" "terminal_ensure.resume_from_offset")]);
   ("terminal_status", else_skip [(1, putString "session_id");
                     (2, putString "state");
                     (3, putJson "info")]);
   ("terminal_input", else_skip [(1, putString "session_id");
                     (2, putBase64 "data");
                     (4, putUint64 "input_seq" "terminal_input.input_seq")]);
   ("terminal_resize", else_skip [(1, putString "session_id");
                     (2, putNumber "cols");
                     (3, putNumber "rows")]);
   ("terminal_close", else_skip [(1, putString "session_id");
                     (2, putString "reason")]);
   ("terminal_send", readTerminalSendField);
   ("terminal_send_result", readTerminalSendResultField);
   ("terminal_observe", readTerminalObserveField);
   ("terminal_observe_result", readTerminalObserveResultField);
   ("terminal_output", else_skip [(1, putString "session_id");
                     (3, putBase64 "data");
                     (4, putUint64 "byte_offset" "terminal_output.byte_offset")]);
   ("terminal_event", else_skip [(1, putString "session_id");
                     (2, putString "event");
                     (3, putJson "data")]);
   ("reconnect_report", readReconnectReportField);
   ("reconciliation_decision", else_skip [(1, pushMessage "operations" decodeOperationStatus);
                     (2, pushMessage "streams" decodeStreamStatus)]);
   ("data_attach", readDataAttachField);
   ("data_attach_ack", readDataAttachAckField);
   ("stream_data", readStreamDataField);
   ("stream_credit", readStreamCreditField);
   ("stream_reset", readStreamResetField);
   ("stream_close", else_skip [(1, putString "stream_id");
                     (2, putUint64 "final_offset" "stream_close.final_offset")])].

Definition baseFrame (frameType messageId sentAt : string) : fields :=
  [("proto", JStr (protoForFrameType frameType)); ("type", JStr frameType); ("id", JStr messageId);
   ("ts", JNum (JFin (sentAtToMillis sentAt))); ("ext", JObj [])].

Definition payloadContainsFrameJson (b : bytes) : res bool :=
  x ← scan_fields (fun fieldNumber wireType bs =>
        if fieldNumber =? TYPED_FRAME_JSON_FIELD then Ok (inl tt)
        else bs ← skip wireType bs; Ok (inr bs)) b;
  Ok (match x with Some _ => true | None => false end).

Definition has_key (k : string) (frame : fields) : bool := bool_decide (k ∈ frame.*1).

(** What the end of [decodeFieldLevelPayload] fills in. *)
Definition fill_missing (frameType : string) (frame : fields) : fields :=
  let frame :=
    if (bool_decide (frameType = "terminal_send_result")
        || bool_decide (frameType = "terminal_observe_result")) && negb (has_key "error" frame)
    then JsMap.set "error" JNull frame else frame in
  let frame :=
    if bool_decide (frameType = "terminal_send_result") && negb (has_key "outcome" frame)
    then JsMap.set "outcome" JNull frame else frame in
  if bool_decide (frameType = "terminal_event") && negb (has_key "data" frame)
  then JsMap.set "data" (JObj []) frame else frame.

Definition decodeFieldLevelPayload (payloadFieldNumber : Z) (b : bytes) (messageId sentAt : string)
  : res (option fields) :=
  match JsMap.get payloadFieldNumber FRAME_TYPE_BY_TYPED_PAYLOAD_FIELD with
  | None => Ok None
  | Some frameType =>
      if negb (bool_decide (frameType ∈ FIELD_LEVEL_FRAME_TYPES)) then Ok None
      else
        contains ← payloadContainsFrameJson b;
        if contains : bool then Ok None
        else
          frame ← decode_fields (JsMap.get frameType field_readers ?? else_skip [])
                    (baseFrame frameType messageId sentAt) b;
          Ok (Some (fill_missing frameType frame))
  end.

(** ** Envelopes *)

Inductive TrafficClass := Control | Interactive | ProxyActive | Bulk | Telemetry.
Inductive TransportKind := Websocket | H2Grpc | H2Data | Quic.

Definition BUD_ENVELOPE_VERSION : Z := 1.

Definition TRAFFIC_CLASS_PROTO_VALUES (c : TrafficClass) : Z :=
  match c with Control => 1 | Interactive => 2 | ProxyActive => 3 | Bulk => 4 | Telemetry => 5 end.

Definition TRANSPORT_KIND_PROTO_VALUES (k : TransportKind) : Z :=
  match k with Websocket => 1 | H2Grpc => 2 | H2Data => 3 | Quic => 4 end.

Definition trafficClassFromProto (value : Z) : option TrafficClass :=
  List.find (fun c => TRAFFIC_CLASS_PROTO_VALUES c =? value)
    [Control; Interactive; ProxyActive; Bulk; Telemetry].

Definition transportKindFromProto (value : Z) : option TransportKind :=
  List.find (fun k => TRANSPORT_KIND_PROTO_VALUES k =? value) [Websocket; H2Grpc; H2Data; Quic].

Record LegacyJsonPayload := mkPayload {
  lp_json : string;
  lp_frame_type : option string;
  lp_proto : option string;
}.

(** [LegacyJsonBudEnvelope]; its [extensions] are always [{}]. *)
Record BudEnvelope := mkEnvelope {
  be_envelope_version : Z;
  be_message_id : string;
  be_correlation_id : option string;
  be_operation_id : option string;
  be_stream_id : option string;
  be_trace_id : option string;
  be_bud_id : option string;
  be_device_session_id : option string;
  be_transport_session_id : option string;
  be_sent_at : string;
  be_traffic_class : TrafficClass;
  be_transport_kind : option TransportKind;
  be_legacy_json : LegacyJsonPayload;
}.

Definition trafficClassForLegacyFrame (frame : fields) : TrafficClass :=
  let frameType := stringField frame "type" ?? "" in
  if bool_decide (frameType = "stream_data") then
    let streamType := stringField frame "stream_type" ?? "" in
    if bool_decide (streamType = "file_read") then Bulk else ProxyActive
  else if bool_decide (frameType ∈ ["stream_credit"; "stream_reset"; "stream_close"]) then Control
  else if bool_decide (frameType ∈ ["terminal_output"; "terminal_send"; "terminal_input"])
  then Interactive
  else if starts_with "terminal_" frameType then Interactive
  else Control.

(** [new Date(ts).toISOString()]: the time is cut to an integer, and throws
    outside the range of dates. *)
Definition date_iso (ts : Q) : res string :=
  let ms := if Qle_bool 0 ts then Qfloor ts else Qceiling ts in
  if 8640000000000000 <? Z.abs ms then Err "Invalid time value" else Ok (toISOString ms).

Section Make.
(** A fresh ulid and the clock. *)
Context (ulid : string) (now : Z).

Definition frameMessageId (frame : fields) : string := stringField frame "id" ?? ("msg_" +:+ ulid).

Definition frameSentAt (frame : fields) : res string :=
  match numberField frame "ts" with
  | Some ts => date_iso ts
  | None => Ok (toISOString now)
  end.

Record LegacyJsonEnvelopeOptions := mkOptions {
  eo_messageId : option string;
  eo_sentAt : option string;
  eo_trafficClass : option TrafficClass;
  eo_transportKind : option TransportKind;
}.

Definition makeLegacyJsonEnvelope (frame : fields) (options : LegacyJsonEnvelopeOptions)
  : res BudEnvelope :=
  sentAt ← match eo_sentAt options with Some s => Ok s | None => frameSentAt frame end;
  Ok (mkEnvelope BUD_ENVELOPE_VERSION (eo_messageId options ?? frameMessageId frame)
        None None None None None None None sentAt
        (eo_trafficClass options ?? trafficClassForLegacyFrame frame)
        (Some (eo_transportKind options ?? Websocket))
        (mkPayload (JSON_stringify (JObj frame)) (stringField frame "type")
           (stringField frame "proto"))).
End Make.

Definition parseFrameJson (json : string) : res fields :=
  match JSON_parse json with
  | Some (JObj fs) => Ok fs
  | Some _ => Err "frame JSON payload was not an object"
  | None => Err "invalid JSON"
  end.

Definition encodeLegacyJsonPayload (e : BudEnvelope) : res bytes :=
  let p := be_legacy_json e in
  concat_writes
    [Ok (writeBytes 1 (utf8_bytes (lp_json p)));
     writeOptionalString 2 (lp_frame_type p);
     writeOptionalString 3 (lp_proto p)].

Definition encodeTypedJsonPayload (e : BudEnvelope) : res (option (Z * bytes)) :=
  let p := be_legacy_json e in
  match lp_frame_type p with
  | Some frameType =>
      if negb (str_truthy frameType) then Ok None
      else
        match typed_field_number frameType with
        | None => Ok None
        | Some fieldNumber =>
            parsed ← parseFrameJson (lp_json p);
            fieldLevelPayload ← encodeFieldLevelPayload frameType parsed;
            match fieldLevelPayload with
            | Some b => Ok (Some (fieldNumber, b))
            | None =>
                Ok (Some (fieldNumber, writeBytes TYPED_FRAME_JSON_FIELD (utf8_bytes (lp_json p))))
            end
        end
  | None => Ok None
  end.

Definition encodeBudEnvelope (e : BudEnvelope) (forceLegacyJsonPayload : bool) : res bytes :=
  concat_writes
    [Ok (writeUint32 1 (be_envelope_version e));
     Ok (writeString 2 (be_message_id e));
     writeOptionalString 3 (be_correlation_id e);
     writeOptionalString 4 (be_operation_id e);
     writeOptionalString 5 (be_stream_id e);
     writeOptionalString 6 (be_trace_id e);
     writeOptionalString 7 (be_bud_id e);
     writeOptionalString 8 (be_device_session_id e);
     writeOptionalString 9 (be_transport_session_id e);
     Ok (writeString 10 (be_sent_at e));
     Ok (writeEnum 11 (TRAFFIC_CLASS_PROTO_VALUES (be_traffic_class e)));
     match be_transport_kind e with
     | Some k => Ok (writeEnum 12 (TRANSPORT_KIND_PROTO_VALUES k))
     | None => Ok []
     end;
     typedPayload ← (if forceLegacyJsonPayload then Ok None else encodeTypedJsonPayload e);
     match typedPayload with
     | Some (fieldNumber, b) => Ok (writeMessage fieldNumber b)
     | None => b ← encodeLegacyJsonPayload e; Ok (writeMessage LEGACY_JSON_PAYLOAD_FIELD b)
     end].

(** What a decoder of a payload has read. *)
Definition decodeLegacyJsonPayload (b : bytes) : res LegacyJsonPayload :=
  let read_text {A} (f : string -> A -> A) : action A :=
    fun wt a bs => '(s, bs) ← readStringForWireType wt bs; Ok (f s a, bs) in
  '(json, frameType, proto) ← decode_fields
    (else_skip
       [(1, read_text (fun s (a : option string * option string * option string) =>
              (Some s, a.1.2, a.2)));
        (2, read_text (fun s a => (a.1.1, Some s, a.2)));
        (3, read_text (fun s a => (a.1.1, a.1.2, Some s)))]) (None, None, None) b;
  match json with
  | Some j =>
      if str_truthy j then
        let truthy (o : option string) := s ← o; if str_truthy s then Some s else None in
        Ok (mkPayload j (truthy frameType) (truthy proto))
      else Err "legacy_json payload missing json bytes"
  | None => Err "legacy_json payload missing json bytes"
  end.

Definition decodeTypedJsonPayload (payloadFieldNumber : Z) (b : bytes) (messageId sentAt : string)
  : res LegacyJsonPayload :=
  fieldLevelFrame ← decodeFieldLevelPayload payloadFieldNumber b messageId sentAt;
  match fieldLevelFrame with
  | Some frame =>
      Ok (mkPayload (JSON_stringify (JObj frame)) (stringField frame "type")
            (stringField frame "proto"))
  | None =>
      json ← decode_fields
        (else_skip [(TYPED_FRAME_JSON_FIELD, fun wt (_ : option string) bs =>
           '(s, bs) ← readStringForWireType wt bs; Ok (Some s, bs))]) None b;
      match json with
      | Some j =>
          if str_truthy j then
            let frameType := JsMap.get payloadFieldNumber FRAME_TYPE_BY_TYPED_PAYLOAD_FIELD in
            Ok (mkPayload j frameType (protoForFrameType <$> frameType))
          else Err "typed protobuf payload missing frame_json bytes"
      | None => Err "typed protobuf payload missing frame_json bytes"
      end
  end.

(** The object [decodeBudEnvelope] fills while it reads; the slots 2 to 10 are
    the string fields by field number. *)
Record decoded_envelope := mkDecoded {
  de_version : option Z;
  de_strings : list (Z * string);
  de_traffic_class : option TrafficClass;
  de_transport_kind : option TransportKind;
  de_payload : option LegacyJsonPayload;
  de_typedPayload : option (Z * bytes);
}.

Definition read_envelope_field : handler decoded_envelope :=
  fun fieldNumber wireType d bs =>
    if fieldNumber =? 1 then
      '(v, bs) ← readVarintForWireType wireType bs;
      Ok (mkDecoded (Some (number_of_bigint v)) (de_strings d) (de_traffic_class d)
            (de_transport_kind d) (de_payload d) (de_typedPayload d), bs)
    else if (2 <=? fieldNumber) && (fieldNumber <=? 10) then
      '(s, bs) ← readStringForWireType wireType bs;
      Ok (mkDecoded (de_version d) (JsMap.set fieldNumber s (de_strings d)) (de_traffic_class d)
            (de_transport_kind d) (de_payload d) (de_typedPayload d), bs)
    else if fieldNumber =? 11 then
      '(v, bs) ← readVarintForWireType wireType bs;
      Ok (mkDecoded (de_version d) (de_strings d)
            (match trafficClassFromProto (number_of_bigint v) with
             | Some c => Some c | None => de_traffic_class d end)
            (de_transport_kind d) (de_payload d) (de_typedPayload d), bs)
    else if fieldNumber =? 12 then
      '(v, bs) ← readVarintForWireType wireType bs;
      Ok (mkDecoded (de_version d) (de_strings d) (de_traffic_class d)
            (match transportKindFromProto (number_of_bigint v) with
             | Some k => Some k | None => de_transport_kind d end)
            (de_payload d) (de_typedPayload d), bs)
    else if fieldNumber =? LEGACY_JSON_PAYLOAD_FIELD then
      '(b, bs) ← readBytesForWireType wireType bs;
      p ← decodeLegacyJsonPayload b;
      Ok (mkDecoded (de_version d) (de_strings d) (de_traffic_class d) (de_transport_kind d)
            (Some p) (de_typedPayload d), bs)
    else
      match JsMap.get fieldNumber FRAME_TYPE_BY_TYPED_PAYLOAD_FIELD with
      | Some _ =>
          '(b, bs) ← readBytesForWireType wireType bs;
          Ok (mkDecoded (de_version d) (de_strings d) (de_traffic_class d) (de_transport_kind d)
                (de_payload d) (Some (fieldNumber, b)), bs)
      | None =>
          if isPayloadFieldNumber fieldNumber then UnsupportedBudEnvelopePayloadError fieldNumber
          else bs ← skip wireType bs; Ok (d, bs)
      end.

Definition decodeBudEnvelope (b : bytes) : res BudEnvelope :=
  d ← decode_fields read_envelope_field (mkDecoded None [] None None None None) b;
  let text n := JsMap.get n (de_strings d) in
  match de_version d with
  | Some 1 =>
      match text 2, text 10, de_traffic_class d with
      | Some message_id, Some sent_at, Some traffic_class =>
          if negb (str_truthy message_id && str_truthy sent_at) then
            Err "protobuf envelope missing required compatibility fields"
          else
            legacyJson ←
              match de_payload d, de_typedPayload d with
              | Some p, _ => Ok (Some p)
              | None, Some (fieldNumber, b) =>
                  p ← decodeTypedJsonPayload fieldNumber b message_id sent_at; Ok (Some p)
              | None, None => Ok None
              end;
            match legacyJson with
            | None => Err "protobuf envelope missing payload"
            | Some p =>
                Ok (mkEnvelope BUD_ENVELOPE_VERSION message_id (text 3) (text 4) (text 5) (text 6)
                      (text 7) (text 8) (text 9) sent_at traffic_class (de_transport_kind d) p)
            end
      | _, _, _ => Err "protobuf envelope missing required compatibility fields"
      end
  | v =>
      Err ("unsupported envelope_version: "
           +:+ match v with Some n => number_text (inject_Z n) | None => "missing" end)
  end.

Definition encodeLegacyJsonFrame (ulid : string) (now : Z) (frame : fields)
    (options : LegacyJsonEnvelopeOptions) : res bytes :=
  e ← makeLegacyJsonEnvelope ulid now frame options; encodeBudEnvelope e false.
Definition encodeBudFrame : string -> Z -> fields -> LegacyJsonEnvelopeOptions -> res bytes :=
  encodeLegacyJsonFrame.

Definition decodeLegacyJsonFrame (b : bytes) : res fields :=
  e ← decodeBudEnvelope b;
  match JSON_parse (lp_json (be_legacy_json e)) with
  | Some (JObj fs) => Ok fs
  | Some _ => Err "legacy_json payload was not an object"
  | None => Err "invalid JSON"
  end.
Definition decodeBudFrame : bytes -> res fields := decodeLegacyJsonFrame.

Definition decodeBudEnvelopePayloadCase (b : bytes) : res string :=
  x ← scan_fields (fun fieldNumber wireType bs =>
        if fieldNumber =? LEGACY_JSON_PAYLOAD_FIELD then Ok (inl "legacy_json")
        else
          match JsMap.get fieldNumber FRAME_TYPE_BY_TYPED_PAYLOAD_FIELD with
          | Some typedFrame => Ok (inl typedFrame)
          | None =>
              if isPayloadFieldNumber fieldNumber then UnsupportedBudEnvelopePayloadError fieldNumber
              else bs ← skip wireType bs; Ok (inr bs)
          end) b;
  match x with Some c => Ok c | None => Err "protobuf envelope missing payload" end.

Definition decodeBudEnvelopePayloadEncoding (b : bytes) : res string :=
  x ← scan_fields (fun fieldNumber wireType bs =>
        if fieldNumber =? LEGACY_JSON_PAYLOAD_FIELD then
          bs ← skip wireType bs; Ok (inl "legacy_json")
        else
          match JsMap.get fieldNumber FRAME_TYPE_BY_TYPED_PAYLOAD_FIELD with
          | Some _ =>
              '(payloadBytes, bs) ← readBytesForWireType wireType bs;
              contains ← payloadContainsFrameJson payloadBytes;
              Ok (inl (if contains : bool then "typed_frame_json" else "typed_fields"))
          | None =>
              if isPayloadFieldNumber fieldNumber then UnsupportedBudEnvelopePayloadError fieldNumber
              else bs ← skip wireType bs; Ok (inr bs)
          end) b;
  match x with Some c => Ok c | None => Err "protobuf envelope missing payload" end.
End Frames.
