(* ===== verification/WireRound.v ===== *)
(** Frames survive the wire.

    [SCHEMAS] states, for each frame type that is encoded field by field, which
    keys of a frame the receiver sees and how ([keep]): it has no field numbers.
    The theorems show that decoding what was encoded gives exactly that
    projection, so the two switches of [wire.ts] agree on numbers, wire types
    and conversions for every type. *)
From Stdlib Require Import ZArith QArith Qround Lia Strings.Byte.
From stdpp Require Import base tactics strings gmap sorting option pretty.
From stdpp Require Import list.
From S2P Require Import Prelude JsRuntime Base64 Json Wire WireFrames.
Open Scope Z_scope.

(** ** Raw fields *)

Inductive raw :=
  | RVarint (fn v : Z)
  | RBytes (fn : Z) (b : bytes).

Definition emit (r : raw) : bytes :=
  match r with RVarint fn v => writeVarintField fn v | RBytes fn b => writeBytes fn b end.

Definition raw_number (r : raw) : Z := match r with RVarint fn _ => fn | RBytes fn _ => fn end.

Lemma skip_varint v rest : skip WIRE_VARINT (encodeVarint v ++ rest) = Ok rest.
Proof. unfold skip. cbn [Z.eqb WIRE_VARINT]. by rewrite readVarint_encode. Qed.

Lemma skip_bytes b rest :
  zlen b <= 2 ^ 53 -> skip WIRE_LENGTH_DELIMITED (encodeVarint (zlen b) ++ b ++ rest) = Ok rest.
Proof.
  intros Hb. unfold skip. cbn [Z.eqb WIRE_LENGTH_DELIMITED WIRE_VARINT WIRE_64_BIT Pos.eqb].
  pose proof (zlen_nonneg b). rewrite readVarint_encode, Z.mod_small by lia. cbn [mbind res_mbind].
  rewrite number_of_bigint_small by lia. rewrite (proj2 (Z.ltb_ge _ _)).
  - unfold zlen. by rewrite Nat2Z.id, drop_app_length.
  - rewrite zlen_app. pose proof (zlen_nonneg rest). lia.
Qed.

Lemma zlen_writeBytes fn b : zlen b <= zlen (writeBytes fn b).
Proof.
  unfold writeBytes. rewrite !zlen_app. pose proof (zlen_nonneg (tag_bytes fn WIRE_LENGTH_DELIMITED)).
  pose proof (zlen_nonneg (encodeVarint (zlen b))). lia.
Qed.

(** ** Scans *)

Lemma scan_loop_fuel {B} (h : Z -> Z -> bytes -> res (B + bytes)) bs n m :
  (forall fn wt bs bs', h fn wt bs = Ok (inr bs') -> (length bs' <= length bs)%nat) ->
  (length bs <= n)%nat -> (length bs <= m)%nat -> scan_loop n h bs = scan_loop m h bs.
Proof.
  intros Hh. revert m bs. induction n as [|n IH]; intros m bs Hn Hm.
  - destruct bs; [by destruct m | cbn in Hn; lia].
  - destruct m as [|m]; [destruct bs; [done | cbn in Hm; lia]|].
    destruct bs as [|b bs]; [done|]. cbn [scan_loop].
    destruct (readTag (b :: bs)) as [[[fn wt] r]|e] eqn:E; cbn [mbind res_mbind]; [|done].
    apply readTag_consumes in E.
    destruct (h fn wt r) as [[x|r']|e] eqn:Eh; cbn [mbind res_mbind]; [done| |done].
    apply Hh in Eh. apply IH; lia.
Qed.

Section Scan.
Context {B : Type} (h : Z -> Z -> bytes -> res (B + bytes)).
Context (Hcons : forall fn wt bs bs', h fn wt bs = Ok (inr bs') -> (length bs' <= length bs)%nat).

(** A field the scan passes over. *)
Lemma scan_skipped r rest :
  field_number (raw_number r) -> zlen (emit r) <= 2 ^ 53 ->
  (forall wt bs, h (raw_number r) wt bs = (bs ← skip wt bs; Ok (inr bs))) ->
  scan_fields h (emit r ++ rest) = scan_fields h rest.
Proof.
  intros Hf Hl Hn.
  assert (Hstep : forall tg body wt,
    readTag (tg ++ body ++ rest) = Ok (raw_number r, wt, body ++ rest) -> tg <> [] ->
    skip wt (body ++ rest) = Ok rest ->
    scan_fields h (tg ++ body ++ rest) = scan_fields h rest).
  { intros tg body wt Ht Hne Hs. unfold scan_fields. destruct tg as [|t0 tg]; [done|].
    assert (Hfs : h (raw_number r) wt (body ++ rest) = Ok (inr rest)) by by rewrite Hn, Hs.
    cbn [app length scan_loop] in *. rewrite Ht. cbn [mbind res_mbind]. rewrite Hfs.
    cbn [mbind res_mbind].
    apply scan_loop_fuel; [apply Hcons | | done]. rewrite !length_app. lia. }
  destruct r as [fn v|fn b]; cbn [emit raw_number] in *.
  - unfold writeVarintField. rewrite <- app_assoc. eapply Hstep; [by apply readTag_tag| |apply skip_varint].
    intros E. by apply (encodeVarint_nonnil (Z.lor (Z.shiftl fn 3) WIRE_VARINT) []); rewrite app_nil_r.
  - pose proof (zlen_writeBytes fn b). unfold writeBytes. rewrite <- !app_assoc.
    rewrite (app_assoc (encodeVarint (zlen b))). eapply Hstep.
    + rewrite <- !app_assoc. by apply readTag_tag.
    + intros E. by apply (encodeVarint_nonnil (Z.lor (Z.shiftl fn 3) WIRE_LENGTH_DELIMITED) []);
        rewrite app_nil_r.
    + rewrite <- app_assoc. apply skip_bytes. lia.
Qed.

Lemma scan_all_skipped rs rest :
  zlen (concat (emit <$> rs)) <= 2 ^ 53 ->
  Forall (fun r => field_number (raw_number r)
            /\ forall wt bs, h (raw_number r) wt bs = (bs ← skip wt bs; Ok (inr bs))) rs ->
  scan_fields h (concat (emit <$> rs) ++ rest) = scan_fields h rest.
Proof.
  intros Hl Hrs. induction Hrs as [|r rs [Hf Hn] _ IH]; [done|].
  rewrite fmap_cons in *. cbn [concat] in *.
  rewrite zlen_app in Hl. pose proof (zlen_nonneg (emit r)).
  pose proof (zlen_nonneg (concat (emit <$> rs))).
  rewrite <- app_assoc, scan_skipped by (done || lia). apply IH. lia.
Qed.

(** The field that answers. *)
Lemma scan_answer fn v rest x :
  field_number fn ->
  h fn WIRE_LENGTH_DELIMITED (encodeVarint (zlen v) ++ v ++ rest) = Ok (inl x) ->
  scan_fields h (writeBytes fn v ++ rest) = Ok (Some x).
Proof.
  intros Hfn E. unfold scan_fields, writeBytes. rewrite <- !app_assoc.
  destruct (tag_bytes fn WIRE_LENGTH_DELIMITED) as [|t tg] eqn:Et.
  { by destruct (encodeVarint_nonnil (Z.lor (Z.shiftl fn 3) WIRE_LENGTH_DELIMITED) []);
      rewrite app_nil_r. }
  cbn [app length scan_loop]. rewrite app_comm_cons, <- Et, readTag_tag by (done || lia).
  cbn [mbind res_mbind]. by rewrite E.
Qed.
End Scan.

Section FrameJson.

Definition frame_json_scan (fieldNumber wireType : Z) (bs : bytes) : res (unit + bytes) :=
  if fieldNumber =? TYPED_FRAME_JSON_FIELD then Ok (inl tt)
  else bs ← skip wireType bs; Ok (inr bs).

Lemma frame_json_scan_consumes fn wt bs bs' :
  frame_json_scan fn wt bs = Ok (inr bs') -> (length bs' <= length bs)%nat.
Proof.
  unfold frame_json_scan. destruct (_ =? _); [done|].
  destruct (skip wt bs) as [r|] eqn:E; cbn; [|done]. intros [= ->]. by eapply skip_consumes.
Qed.

(** What [w] writes is a sequence of fields, none of them the frame JSON. *)
Definition passes (w : res bytes) : Prop :=
  forall bs, w = Ok bs -> exists rs, bs = concat (emit <$> rs)
    /\ Forall (fun r => field_number (raw_number r) /\ raw_number r <> TYPED_FRAME_JSON_FIELD) rs.

Lemma passes_nothing : passes (Ok []).
Proof. intros bs [= <-]. by exists []. Qed.

Lemma passes_one r :
  field_number (raw_number r) -> raw_number r <> TYPED_FRAME_JSON_FIELD -> passes (Ok (emit r)).
Proof. intros Hf Hn bs [= <-]. exists [r]. cbn. rewrite app_nil_r. split; [done|]. by apply Forall_singleton. Qed.

Lemma passes_concat ws : Forall passes ws -> passes (concat_writes ws).
Proof.
  induction 1 as [|w ws Hw _ IH]; [apply passes_nothing|]. intros bs. cbn [concat_writes].
  destruct w as [b|]; cbn [mbind res_mbind]; [|done].
  destruct (concat_writes ws) as [b2|]; cbn [mbind res_mbind]; [|done]. intros [= <-].
  destruct (Hw b eq_refl) as (r1 & -> & H1). destruct (IH b2 eq_refl) as (r2 & -> & H2).
  exists (r1 ++ r2). rewrite fmap_app, concat_app. by rewrite Forall_app.
Qed.

Lemma passes_scan w bs : passes w -> w = Ok bs -> zlen bs <= 2 ^ 53 -> payloadContainsFrameJson bs = Ok false.
Proof.
  intros Hw E Hl. destruct (Hw bs E) as (rs & -> & Hrs). unfold payloadContainsFrameJson.
  change (fun _ _ _ => _) with frame_json_scan. rewrite <- (app_nil_r (concat _)).
  rewrite scan_all_skipped; [done | apply frame_json_scan_consumes | done|].
  eapply Forall_impl; [exact Hrs|]. intros r [Hf Hn]. split; [done|]. intros wt bs.
  unfold frame_json_scan. by rewrite (proj2 (Z.eqb_neq _ _) Hn).
Qed.
End FrameJson.

(** ** What the receiver sees of a frame *)

Inductive kind :=
  | KString | KNullable | KBool | KUint32 | KUint64 | KInt32 | KJson | KBase64 | KMap | KStrings
  | KEnum (names : list (string * Z))
  | KMessage (schema : list (string * kind))
  | KMessages (schema : list (string * kind)).

(** The 32-bit integer a number is truncated to. *)
Definition to_int32 (z : Z) : Z :=
  let m := z mod 2 ^ 32 in if m <? 2 ^ 31 then m else m - 2 ^ 32.

Definition BUD_ERROR : list (string * kind) :=
  [("code", KString); ("message", KString); ("retryable", KBool); ("details", KMap)].

Definition TERMINAL_CONFIG : list (string * kind) :=
  [("shell", KString); ("cwd", KString); ("env", KMap); ("cols", KUint32); ("rows", KUint32)].

Definition OPERATION_STATUS : list (string * kind) :=
  [("operation_id", KString); ("state", KEnum OPERATION_STATE_PROTO_VALUES);
   ("error", KMessage BUD_ERROR); ("operation_type", KString); ("updated_at", KString)].

Definition STREAM_STATUS : list (string * kind) :=
  [("stream_id", KString); ("operation_id", KString);
   ("stream_type", KEnum STREAM_TYPE_PROTO_VALUES);
   ("state", KEnum STREAM_STATE_PROTO_VALUES); ("send_offset", KUint64);
   ("receive_offset", KUint64); ("reset_reason", KEnum STREAM_RESET_REASON_PROTO_VALUES);
   ("error", KMessage BUD_ERROR); ("updated_at", KString)].

Definition SCHEMAS : list (string * list (string * kind)) :=
  [("error",
     [("code", KString); ("message", KString); ("retryable", KBool); ("details", KMap)]);
   ("hello",
     [("name", KString); ("os", KString); ("arch", KString); ("version", KString);
      ("installation_id", KString); ("token", KString); ("bud_id", KString);
      ("capabilities", KJson)]);
   ("hello_ack",
     [("session_id", KString); ("bud_id", KString); ("heartbeat_sec", KUint32);
      ("device_secret", KString)]);
   ("hello_challenge",
     [("nonce", KString)]);
   ("hello_proof",
     [("bud_id", KString); ("hmac", KString)]);
   ("heartbeat",
     [("session_id", KString)]);
   ("heartbeat_ack",
     [("session_id", KString)]);
   ("terminal_ensure",
     [("session_id", KString); ("config", KMessage TERMINAL_CONFIG);
      ("resume_from_offset", KUint64)]);
   ("terminal_status",
     [("session_id", KString); ("state", KString); ("info", KJson)]);
   ("terminal_input",
     [("session_id", KString); ("data", KBase64); ("input_seq", KUint64)]);
   ("terminal_resize",
     [("session_id", KString); ("cols", KUint32); ("rows", KUint32)]);
   ("terminal_close",
     [("session_id", KString); ("reason", KString)]);
   ("terminal_send",
     [("session_id", KString); ("request_id", KString); ("text", KString); ("submit", KBool);
      ("key", KString); ("await", KString)]);
   ("terminal_send_result",
     [("session_id", KString); ("request_id", KString); ("error", KNullable);
      ("dispatched", KBool); ("outcome", KJson)]);
   ("terminal_observe",
     [("session_id", KString); ("request_id", KString); ("view", KString); ("lines", KInt32);
      ("await", KString); ("quiet_ms", KUint64)]);
   ("terminal_observe_result",
     [("session_id", KString); ("request_id", KString); ("view", KString);
      ("output", KBase64); ("lines_captured", KUint64); ("changed", KBool);
      ("error", KNullable); ("mode", KString); ("integration", KString);
      ("alt_screen", KBool); ("cursor_row", KUint32); ("cursor_col", KUint32)]);
   ("terminal_output",
     [("session_id", KString); ("data", KBase64); ("byte_offset", KUint64)]);
   ("terminal_event",
     [("session_id", KString); ("event", KString); ("data", KJson)]);
   ("reconnect_report",
     [("bud_id", KString); ("device_session_id", KString);
      ("operations", KMessages OPERATION_STATUS); ("streams", KMessages STREAM_STATUS);
      ("local_policy_version", KString); ("terminal_sessions", KStrings)]);
   ("reconciliation_decision",
     [("operations", KMessages OPERATION_STATUS); ("streams", KMessages STREAM_STATUS)]);
   ("data_attach",
     [("bud_id", KString); ("device_session_id", KString);
      ("control_transport_session_id", KString); ("streams", KStrings);
      ("max_chunk_bytes", KUint32); ("initial_credit_bytes", KUint64)]);
   ("data_attach_ack",
     [("bud_id", KString); ("device_session_id", KString); ("transport_session_id", KString);
      ("streams", KStrings); ("max_chunk_bytes", KUint32); ("initial_credit_bytes", KUint64)]);
   ("stream_data",
     [("stream_id", KString); ("stream_type", KEnum STREAM_TYPE_PROTO_VALUES);
      ("offset", KUint64); ("data", KBase64); ("end_stream", KBool)]);
   ("stream_credit",
     [("stream_id", KString); ("receive_offset", KUint64); ("credit_bytes", KUint64)]);
   ("stream_reset",
     [("stream_id", KString); ("reason", KEnum STREAM_RESET_REASON_PROTO_VALUES);
      ("error", KMessage BUD_ERROR)]);
   ("stream_close",
     [("stream_id", KString); ("final_offset", KUint64)])].

(** The entries of an object that survive being assigned one by one to a new one. *)
Definition assigned (es : list (string * jsval)) : list (string * jsval) :=
  filter (fun kv : string * jsval => kv.1 <> "__proto__") es.

Section Keep.
Context `{NumberText}.

(** A value of each kind as the receiver reads it; [None] when the key is left
    out: empty strings, numbers that are not integers of the range, values of
    another type, names that are not in the table, empty maps and arrays.  A map
    loses the key [__proto__], to which the sender cannot assign a text, and the
    empty key. *)
Fixpoint keep (kd : kind) (v : jsval) : option jsval :=
  let fix project (schema : list (string * kind)) (fs : fields) : fields :=
    match schema with
    | [] => []
    | (k, kd) :: schema =>
        match keep kd (field_lookup k fs) with
        | Some v => (k, v) :: project schema fs
        | None => project schema fs
        end
    end in
  match kd, v with
  | KString, JStr s => if str_truthy s then Some (JStr s) else None
  | KNullable, JStr s => Some (JStr s)
  | KBool, JBool b => Some (JBool b)
  | KUint32, JNum (JFin q) =>
      match as_integer q with
      | Some z => if 0 <=? z then Some (num (number_of_bigint (z mod 2 ^ 64))) else None
      | None => None
      end
  | KUint64, JNum (JFin q) =>
      match as_integer q with
      | Some z => if 0 <=? z then Some (num z) else None
      | None => None
      end
  | KInt32, JNum (JFin q) => num ∘ to_int32 <$> as_integer q
  | KJson, (JUndef | JNull) => None
  | KJson, v => Some v
  | KBase64, JStr s => Some (JStr (Base64.encode (Base64.decode s)))
  | KEnum names, JStr s => if bool_decide (s ∈ names.*1) then Some (JStr s) else None
  | KMap, JObj es =>
      match assigned es with
      | [] => None
      | es => Some (JObj ((fun kv : string * jsval => (kv.1, JStr (value_text kv.2)))
                            <$> filter (fun kv : string * jsval => kv.1 <> "") es))
      end
  | KStrings, JArr l =>
      match omap as_string l with [] => None | ss => Some (JArr (JStr <$> ss)) end
  | KMessage schema, JObj fs => Some (JObj (project schema fs))
  | KMessages schema, JArr ((_ :: _) as l) =>
      Some (JArr ((fun v => JObj (project schema (as_record v ?? []))) <$> l))
  | _, _ => None
  end.

(** The keys of a schema, in its order. *)
Definition project : list (string * kind) -> fields -> fields :=
  fix project (schema : list (string * kind)) (fs : fields) : fields :=
    match schema with
    | [] => []
    | (k, kd) :: schema =>
        match keep kd (field_lookup k fs) with
        | Some v => (k, v) :: project schema fs
        | None => project schema fs
        end
    end.

Lemma keep_message schema fs : keep (KMessage schema) (JObj fs) = Some (JObj (project schema fs)).
Proof. done. Qed.

Lemma keep_messages schema v l :
  keep (KMessages schema) (JArr (v :: l))
  = Some (JArr ((fun v => JObj (project schema (as_record v ?? []))) <$> v :: l)).
Proof. done. Qed.

Lemma project_cons k kd schema fs :
  project ((k, kd) :: schema) fs
  = option_list ((fun v => (k, v)) <$> keep kd (field_lookup k fs)) ++ project schema fs.
Proof. cbn. by destruct (keep kd _). Qed.

(** ** What a writer carries *)

(** After what [w] wrote, the decoder goes on with the key [k] bound to [ov], if
    that is a value; and [w] writes no frame JSON. *)
Definition carries (h : handler fields) (w : res bytes) (k : string) (ov : option jsval) : Prop :=
  passes w
  /\ forall bs, w = Ok bs -> zlen bs <= 2 ^ 53 ->
     forall acc rest, k ∉ acc.*1 ->
     decode_fields h acc (bs ++ rest)
     = decode_fields h (acc ++ option_list ((fun v => (k, v)) <$> ov)) rest.

Lemma carries_nothing h k : carries h (Ok []) k None.
Proof.
  split; [apply passes_nothing|]. intros bs [= <-] _ acc rest _. cbn. by rewrite app_nil_r.
Qed.

(** A message whose writers carry the keys of a schema. *)
Lemma carries_all h f ws schema :
  Forall2 (fun w (kk : string * kind) => carries h w kk.1 (keep kk.2 (field_lookup kk.1 f))) ws schema ->
  NoDup schema.*1 ->
  forall bs, concat_writes ws = Ok bs -> zlen bs <= 2 ^ 53 ->
  forall acc, (forall k, k ∈ schema.*1 -> k ∉ acc.*1) ->
  decode_fields h acc bs = Ok (acc ++ project schema f).
Proof.
  induction 1 as [|w [k kd] ws schema [_ Hw] _ IH]; intros Hnd bs; cbn [concat_writes fmap list_fmap fst snd] in *.
  - intros [= <-] _ acc _. cbn. by rewrite app_nil_r.
  - apply NoDup_cons in Hnd as [Hk Hnd].
    destruct w as [b|]; cbn [mbind res_mbind]; [|done].
    destruct (concat_writes ws) as [b2|]; cbn [mbind res_mbind]; [|done].
    intros [= <-] Hl acc Hacc. rewrite zlen_app in Hl.
    pose proof (zlen_nonneg b). pose proof (zlen_nonneg b2).
    rewrite (Hw b) by (done || lia || (apply Hacc; left)).
    rewrite (IH Hnd b2) by (done || lia ||
      (intros k' Hk'; rewrite fmap_app, elem_of_app;
       intros [Hin|Hin]; [by apply (Hacc k'); [right|] |];
       destruct (keep kd (field_lookup k f)); cbn in Hin; set_solver)).
    by rewrite project_cons, app_assoc.
Qed.

(** ** Each kind *)

Definition field_ok (fn : Z) : Prop := field_number fn /\ fn <> TYPED_FRAME_JSON_FIELD.

(** A value of a plain frame, or the absence of one. *)
Definition plain_field (v : jsval) : Prop := v = JUndef \/ plain v = true.

Lemma plain_field_lookup k f : plain (JObj f) = true -> plain_field (field_lookup k f).
Proof.
  cbn. intros [_ Hf]%andb_true_iff. induction f as [|[k' v] f IH]; cbn in *; [by left|].
  apply andb_true_iff in Hf as [[_ Hv]%andb_true_iff Hf]. case_decide; [by right | by apply IH].
Qed.

Lemma bytes_text_utf8 s : valid_utf8 s = true -> bytes_text (utf8_bytes s) = s.
Proof.
  intros Hs. unfold bytes_text, utf8_bytes. rewrite String.string_of_list_byte_of_string.
  by apply utf8_text_valid.
Qed.

Section Kinds.
Context (cases : list (Z * action fields)) (Hcons : consuming (else_skip cases)).

Lemma carries_put_bytes fn b k rd v :
  JsMap.get fn cases = Some (put k rd) -> field_ok fn ->
  (zlen b <= 2 ^ 53 -> forall rest,
     rd WIRE_LENGTH_DELIMITED (encodeVarint (zlen b) ++ b ++ rest) = Ok (v, rest)) ->
  carries (else_skip cases) (Ok (writeBytes fn b)) k (Some v).
Proof.
  intros Hg [Hfn Hne] Hrd. split; [by apply (passes_one (RBytes fn b))|].
  intros bs [= <-] Hl acc rest Hk. pose proof (zlen_writeBytes fn b).
  apply decode_bytes_field; [done | done|]. unfold else_skip. rewrite Hg. unfold put.
  rewrite Hrd by lia. cbn. by rewrite JsMap.set_fresh.
Qed.

Lemma carries_put_varint fn z k rd v :
  JsMap.get fn cases = Some (put k rd) -> field_ok fn ->
  (forall rest, rd WIRE_VARINT (encodeVarint z ++ rest) = Ok (v, rest)) ->
  carries (else_skip cases) (Ok (writeVarintField fn z)) k (Some v).
Proof.
  intros Hg [Hfn Hne] Hrd. split; [by apply (passes_one (RVarint fn z))|].
  intros bs [= <-] Hl acc rest Hk.
  apply decode_varint_field; [done | done|]. unfold else_skip. rewrite Hg. unfold put.
  rewrite Hrd. cbn. by rewrite JsMap.set_fresh.
Qed.

Lemma read_written_string s rest :
  valid_utf8 s = true -> zlen (utf8_bytes s) <= 2 ^ 53 ->
  readStringForWireType WIRE_LENGTH_DELIMITED
    (encodeVarint (zlen (utf8_bytes s)) ++ utf8_bytes s ++ rest) = Ok (s, rest).
Proof.
  intros Hs Hl. unfold readStringForWireType. rewrite readBytes_written by done.
  cbn. by rewrite bytes_text_utf8.
Qed.

Lemma carries_text fn s k :
  JsMap.get fn cases = Some (putString k) -> field_ok fn -> valid_utf8 s = true ->
  carries (else_skip cases) (Ok (writeString fn s)) k (Some (JStr s)).
Proof.
  intros Hg Hf Hs. eapply carries_put_bytes; [exact Hg | done|]. intros Hl rest. cbn beta.
  by rewrite read_written_string.
Qed.

Lemma carries_string fn f k :
  JsMap.get fn cases = Some (putString k) -> field_ok fn -> plain_field (field_lookup k f) ->
  carries (else_skip cases) (writeOptionalString fn (stringField f k)) k (keep KString (field_lookup k f)).
Proof.
  intros Hg Hf Hp. unfold stringField.
  destruct (field_lookup k f); try apply carries_nothing. destruct Hp as [?|Hp]; [done|].
  cbn. destruct (str_truthy s); [by apply carries_text | apply carries_nothing].
Qed.

Lemma carries_nullable fn f k :
  JsMap.get fn cases = Some (putString k) -> field_ok fn -> plain_field (field_lookup k f) ->
  carries (else_skip cases) (writeOptionalNullableString fn (field_lookup k f)) k
    (keep KNullable (field_lookup k f)).
Proof.
  intros Hg Hf Hp. destruct (field_lookup k f); try apply carries_nothing.
  destruct Hp as [?|Hp]; [done|]. by apply carries_text.
Qed.

Lemma carries_bool fn f k :
  JsMap.get fn cases = Some (putBool k) -> field_ok fn ->
  carries (else_skip cases) (writeOptionalBool fn (booleanField f k)) k (keep KBool (field_lookup k f)).
Proof.
  intros Hg Hf. unfold booleanField. destruct (field_lookup k f); try apply carries_nothing.
  eapply carries_put_varint; [exact Hg | done|]. intros rest.
  unfold readVarintForWireType. cbn [Z.eqb WIRE_VARINT]. rewrite readVarint_encode. by destruct b.
Qed.

Lemma carries_uint32 fn f k :
  JsMap.get fn cases = Some (putNumber k) -> field_ok fn ->
  carries (else_skip cases) (writeOptionalUint32 fn (numberField f k)) k (keep KUint32 (field_lookup k f)).
Proof.
  intros Hg Hf. unfold numberField, writeOptionalUint32.
  destruct (field_lookup k f) as [| | |[q| |]| | |]; try apply carries_nothing. cbn [mbind option_bind keep].
  destruct (as_integer q) as [z|]; [|apply carries_nothing].
  destruct (0 <=? z); [|apply carries_nothing].
  eapply carries_put_varint; [exact Hg | done|]. intros rest.
  unfold readVarintForWireType. cbn [Z.eqb WIRE_VARINT]. by rewrite readVarint_encode.
Qed.

Lemma carries_uint64 fn f k name :
  JsMap.get fn cases = Some (putUint64 k name) -> field_ok fn ->
  carries (else_skip cases) (writeOptionalUint64 fn (numberField f k)) k (keep KUint64 (field_lookup k f)).
Proof.
  intros Hg Hf. unfold numberField, writeOptionalUint64.
  destruct (field_lookup k f) as [| | |[q| |]| | |]; try apply carries_nothing. cbn [mbind option_bind keep].
  destruct (as_integer q) as [z|]; [|apply carries_nothing].
  rewrite Z.leb_antisym. destruct (Z.ltb_spec z 0); cbn [negb]; [apply carries_nothing|].
  destruct (Z.ltb_spec MAX_SAFE_INTEGER z); [by split|].
  eapply carries_put_varint; [exact Hg | done|]. intros rest.
  unfold readSafeUint64, readVarintForWireType. cbn [Z.eqb WIRE_VARINT].
  unfold MAX_SAFE_INTEGER in *. rewrite readVarint_encode, Z.mod_small by lia. cbn [mbind res_mbind].
  by rewrite (proj2 (Z.ltb_ge _ _)) by lia.
Qed.

Lemma carries_int32 fn f k :
  JsMap.get fn cases = Some (putInt32 k) -> field_ok fn ->
  carries (else_skip cases) (writeOptionalInt32 fn (numberField f k)) k (keep KInt32 (field_lookup k f)).
Proof.
  intros Hg Hf. unfold numberField, writeOptionalInt32.
  destruct (field_lookup k f) as [| | |[q| |]| | |]; try apply carries_nothing. cbn [mbind option_bind keep].
  destruct (as_integer q) as [z|]; [|apply carries_nothing]. cbn [fmap option_fmap option_map compose].
  eapply carries_put_varint; [exact Hg | done|]. intros rest.
  unfold readInt32Varint, readVarintForWireType. cbn [Z.eqb WIRE_VARINT].
  rewrite readVarint_encode. cbn [mbind res_mbind]. unfold to_int32.
  rewrite Z.mod_mod_divide by (by exists (2 ^ 32)). done.
Qed.

Lemma carries_json fn f k :
  JsMap.get fn cases = Some (putJson k) -> field_ok fn -> plain_field (field_lookup k f) ->
  carries (else_skip cases) (writeOptionalJsonBytes fn (field_lookup k f)) k (keep KJson (field_lookup k f)).
Proof.
  intros Hg Hf Hp. unfold writeOptionalJsonBytes, jsonBytes.
  destruct (field_lookup k f) as [| | | | | |] eqn:E; try apply carries_nothing;
    (destruct Hp as [?|Hp]; [done|]);
    (eapply carries_put_bytes; [exact Hg | done|]; intros Hl rest; cbn beta; rewrite readBytes_written by done;
     cbn [mbind res_mbind]; unfold parseJsonBytes;
     rewrite bytes_text_utf8 by (by apply valid_stringify); by rewrite parse_stringify).
Qed.

Lemma carries_base64 fn f k :
  JsMap.get fn cases = Some (putBase64 k) -> field_ok fn ->
  carries (else_skip cases) (writeOptionalBase64Bytes fn (stringField f k)) k (keep KBase64 (field_lookup k f)).
Proof.
  intros Hg Hf. unfold stringField. destruct (field_lookup k f); try apply carries_nothing.
  eapply carries_put_bytes; [exact Hg | done|]. intros Hl rest. cbn beta. by rewrite readBytes_written.
Qed.

(** The two tables of an enumeration are inverse. *)
Definition tables_agree (names : list (string * Z)) (values : list (Z * string)) : bool :=
  forallb (fun kv : string * Z =>
    (0 <? kv.2) && (kv.2 <? 2 ^ 53) && bool_decide (JsMap.get kv.2 values = Some kv.1)) names
  && bool_decide (JsMap.get "" names = None).

Lemma carries_enum fn f k names values fallback :
  JsMap.get fn cases = Some (putEnum k values fallback) -> field_ok fn ->
  tables_agree names values = true ->
  carries (else_skip cases) (writeOptionalEnum fn (proto_value names (stringField f k))) k
    (keep (KEnum names) (field_lookup k f)).
Proof.
  intros Hg Hf [Ht He%bool_decide_eq_true]%andb_true_iff. unfold stringField, proto_value.
  destruct (field_lookup k f); cbn [as_string default from_option id keep]; rewrite ?He;
    try apply carries_nothing.
  destruct (JsMap.get s names) as [n|] eqn:E.
  - cbn [writeOptionalEnum]. pose proof (JsMap.get_Some_elem _ _ _ E) as Hin.
    rewrite forallb_forall in Ht. pose proof (Ht (s, n) (proj1 (list_elem_of_In _ _) Hin))
      as [[H0 H1]%andb_true_iff H2%bool_decide_eq_true]%andb_true_iff. cbn [fst snd] in *.
    rewrite H0. zbool. rewrite bool_decide_true by (by apply (list_elem_of_fmap_2 fst) in Hin).
    eapply carries_put_varint; [exact Hg | done|]. intros rest.
    unfold readVarintForWireType. cbn [Z.eqb WIRE_VARINT]. rewrite readVarint_encode, Z.mod_small by lia.
    cbn [mbind res_mbind]. rewrite number_of_bigint_small by lia. by rewrite H2.
  - apply JsMap.get_None_keys in E. rewrite bool_decide_false by done. apply carries_nothing.
Qed.

(** An encoder of a record and a decoder that returns its projection. *)
Definition message_ok (enc : option fields -> res (option bytes)) (dec : bytes -> res fields)
    (schema : list (string * kind)) : Prop :=
  enc None = Ok None
  /\ forall g r, plain (JObj g) = true -> enc (Some g) = Ok r ->
     exists b, r = Some b /\ (zlen b <= 2 ^ 53 -> dec b = Ok (project schema g)).

Lemma carries_message fn f k enc dec schema :
  JsMap.get fn cases = Some (putMessage k dec) -> field_ok fn -> message_ok enc dec schema ->
  plain_field (field_lookup k f) ->
  carries (else_skip cases) (writeOptionalMessage fn (enc (recordField f k))) k
    (keep (KMessage schema) (field_lookup k f)).
Proof.
  intros Hg Hf [Hn Hm] Hp. unfold recordField, writeOptionalMessage.
  change (enc (@None (list (string * jsval))) = Ok None) in Hn.
  destruct (field_lookup k f) as [| | | | | |g]; cbn [as_record]; rewrite ?Hn; cbn [mbind res_mbind];
    try apply carries_nothing.
  destruct Hp as [?|Hp]; [done|]. rewrite keep_message.
  destruct (enc (Some g)) as [r|e] eqn:E; [|by split].
  destruct (Hm g r Hp E) as (b & -> & Hdec). cbn [mbind res_mbind].
  eapply carries_put_bytes; [exact Hg | done|]. intros Hl rest. cbn beta.
  rewrite readBytes_written by done. cbn [mbind res_mbind]. by rewrite Hdec.
Qed.

(** *** Repeated fields *)

Lemma field_lookup_last k x (acc : fields) : k ∉ acc.*1 -> field_lookup k (acc ++ [(k, x)]) = x.
Proof.
  induction acc as [|[k' v'] acc IH]; cbn; intros Hk; [by rewrite decide_True|].
  rewrite decide_False by set_solver. apply IH. set_solver.
Qed.

Lemma field_lookup_absent k (acc : fields) : k ∉ acc.*1 -> field_lookup k acc = JUndef.
Proof.
  induction acc as [|[k' v'] acc IH]; cbn; intros Hk; [done|].
  rewrite decide_False by set_solver. apply IH. set_solver.
Qed.

Lemma set_last k x y (acc : fields) : k ∉ acc.*1 -> JsMap.set k y (acc ++ [(k, x)]) = acc ++ [(k, y)].
Proof.
  induction acc as [|[k' v'] acc IH]; cbn; intros Hk; [by rewrite decide_True|].
  rewrite decide_False by set_solver. f_equal. apply IH. set_solver.
Qed.

(** Appending values one by one. *)
Lemma decode_pushes fn k act (items : list (bytes * jsval)) :
  JsMap.get fn cases = Some act -> field_number fn ->
  (forall b v, (b, v) ∈ items -> zlen b <= 2 ^ 53 -> forall acc rest,
     act WIRE_LENGTH_DELIMITED acc (encodeVarint (zlen b) ++ b ++ rest)
     = Ok (pushArrayValue acc k v, rest)) ->
  zlen (concat (writeBytes fn <$> items.*1)) <= 2 ^ 53 ->
  forall acc l rest, k ∉ acc.*1 ->
  decode_fields (else_skip cases) (acc ++ [(k, JArr l)]) (concat (writeBytes fn <$> items.*1) ++ rest)
  = decode_fields (else_skip cases) (acc ++ [(k, JArr (l ++ items.*2))]) rest.
Proof.
  intros Hg Hfn. induction items as [|[b v] items IH]; intros Hact Hl acc l rest Hk.
  - cbn. by rewrite app_nil_r.
  - rewrite !fmap_cons in *. cbn [concat fst snd] in *. rewrite zlen_app in Hl. pose proof (zlen_writeBytes fn b).
    pose proof (zlen_nonneg (writeBytes fn b)).
    pose proof (zlen_nonneg (concat (writeBytes fn <$> items.*1))).
    rewrite <- app_assoc. erewrite decode_bytes_field; [|done|done|].
    2: { unfold else_skip. rewrite Hg, (Hact b v) by (apply list_elem_of_here || lia).
         unfold pushArrayValue. rewrite field_lookup_last, set_last by done. done. }
    rewrite IH; [by rewrite <- app_assoc | | lia | done].
    intros b' v' Hin. apply Hact. by right.
Qed.

Lemma passes_repeat fn (bs : list bytes) : field_ok fn -> passes (Ok (concat (writeBytes fn <$> bs))).
Proof.
  intros [Hf Hn] x [= <-]. exists (RBytes fn <$> bs). split.
  - by rewrite <- list_fmap_compose.
  - apply Forall_fmap, Forall_forall. by intros.
Qed.

Lemma carries_pushes fn k act (items : list (bytes * jsval)) :
  JsMap.get fn cases = Some act -> field_ok fn ->
  (forall b v, (b, v) ∈ items -> zlen b <= 2 ^ 53 -> forall acc rest,
     act WIRE_LENGTH_DELIMITED acc (encodeVarint (zlen b) ++ b ++ rest)
     = Ok (pushArrayValue acc k v, rest)) ->
  carries (else_skip cases) (Ok (concat (writeBytes fn <$> items.*1))) k
    (match items with [] => None | _ => Some (JArr items.*2) end).
Proof.
  intros Hg Hf Hact. split; [by apply passes_repeat|]. intros bs [= <-] Hl acc rest Hk.
  destruct items as [|[b v] items]; [cbn; by rewrite app_nil_r|].
  rewrite !fmap_cons in *. cbn [concat fst snd fmap option_fmap option_map option_list] in *.
  rewrite zlen_app in Hl. pose proof (zlen_writeBytes fn b).
  pose proof (zlen_nonneg (writeBytes fn b)).
  pose proof (zlen_nonneg (concat (writeBytes fn <$> items.*1))).
  destruct Hf as [Hfn _]. rewrite <- app_assoc. erewrite decode_bytes_field; [|done|done|].
  2: { unfold else_skip. rewrite Hg, (Hact b v) by (apply list_elem_of_here || lia).
       unfold pushArrayValue. rewrite field_lookup_absent, JsMap.set_fresh by done. done. }
  rewrite (decode_pushes fn k act); [done | done | done | | lia | done].
  intros b' v' Hin. apply Hact. by right.
Qed.

Lemma plain_elements l v : plain (JArr l) = true -> v ∈ l -> plain v = true.
Proof. cbn. rewrite forallb_forall. intros Hl Hv. apply Hl. by apply list_elem_of_In. Qed.

Lemma carries_strings fn f k :
  JsMap.get fn cases = Some (pushString k) -> field_ok fn -> plain_field (field_lookup k f) ->
  carries (else_skip cases) (writeRepeatedStrings fn (stringArrayField f k)) k
    (keep KStrings (field_lookup k f)).
Proof.
  intros Hg Hf Hp. unfold writeRepeatedStrings, stringArrayField, arrayField.
  destruct (field_lookup k f) as [| | | | |l|]; try apply carries_nothing.
  destruct Hp as [?|Hp]; [done|]. cbn [keep].
  set (ss := omap as_string l).
  assert (Hss : Forall (fun s => valid_utf8 s = true) ss).
  { apply Forall_forall. intros s (v & Hv & Hs)%list_elem_of_omap.
    apply (plain_elements _ _ Hp) in Hv. destruct v; cbn in Hs; simplify_eq. done. }
  pose proof (carries_pushes fn k (pushString k) ((fun s => (utf8_bytes s, JStr s)) <$> ss) Hg Hf) as Hc.
  rewrite <- !list_fmap_compose in Hc. cbn [compose fst snd] in Hc.
  clearbody ss. destruct ss as [|s0 ss]; [apply carries_nothing|].
  refine (Hc _). intros b v (s & [= -> ->] & Hs)%list_elem_of_fmap Hl acc rest.
  rewrite Forall_forall in Hss. unfold pushString. by rewrite read_written_string by auto.
Qed.

(** An encoder of the elements of an array and a decoder that returns their
    projections. *)
Definition elements_ok (enc : jsval -> res bytes) (dec : bytes -> res fields)
    (schema : list (string * kind)) : Prop :=
  forall v b, plain v = true -> enc v = Ok b -> zlen b <= 2 ^ 53 ->
  dec b = Ok (project schema (as_record v ?? [])).

Lemma repeated_messages fn ws bs :
  writeRepeatedMessages fn ws = Ok bs ->
  exists bl, Forall2 (fun w b => w = Ok b) ws bl /\ bs = concat (writeBytes fn <$> bl).
Proof.
  unfold writeRepeatedMessages. revert bs. induction ws as [|w ws IH]; intros bs; cbn [fmap list_fmap concat_writes].
  - intros [= <-]. by exists [].
  - destruct w as [b|]; cbn [mbind res_mbind]; [|done].
    destruct (concat_writes _) as [b2|]; cbn [mbind res_mbind]; [|done]. intros [= <-].
    destruct (IH b2 eq_refl) as (bl & Hbl & ->). exists (b :: bl). split; [by constructor | done].
Qed.

Lemma carries_messages fn f k enc dec schema :
  JsMap.get fn cases = Some (pushMessage k dec) -> field_ok fn -> elements_ok enc dec schema ->
  plain_field (field_lookup k f) ->
  carries (else_skip cases) (writeRepeatedMessages fn (enc <$> arrayField f k)) k
    (keep (KMessages schema) (field_lookup k f)).
Proof.
  intros Hg Hf He Hp. unfold arrayField.
  destruct (field_lookup k f) as [| | | | |l|]; try apply carries_nothing.
  destruct Hp as [?|Hp]; [done|].
  destruct (writeRepeatedMessages fn (enc <$> l)) as [bs|] eqn:E; [|by split].
  apply repeated_messages in E as (bl & Hbl & ->). rewrite Forall2_fmap_l in Hbl.
  set (value v := JObj (project schema (as_record v ?? []))).
  pose proof (Forall2_length _ _ _ Hbl) as Hlen.
  pose proof (carries_pushes fn k (pushMessage k dec) (zip bl (value <$> l)) Hg Hf) as Hc.
  rewrite fst_zip, snd_zip in Hc by (rewrite length_fmap; lia).
  destruct l as [|v0 l]; [inversion Hbl; apply carries_nothing|]. rewrite keep_messages.
  destruct bl as [|b0 bl]; [done|]. refine (Hc _). intros b v Hin Hl acc rest.
  apply elem_of_lookup_zip_with in Hin as (i & x & y & [= -> ->] & Hx & Hy).
  apply list_lookup_fmap_Some in Hy as (w & -> & Hw).
  pose proof (Forall2_lookup_lr _ _ _ _ _ _ Hbl Hw Hx) as Henc.
  unfold pushMessage. rewrite readBytes_written by done. cbn [mbind res_mbind].
  rewrite (He w x); [done | | exact Henc | done].
  by apply (plain_elements _ _ Hp), list_elem_of_lookup; exists i.
Qed.

(** *** Maps *)

Definition entry_bytes (kv : string * string) : bytes := writeString 1 kv.1 ++ writeString 2 kv.2.

Definition entry_handler : handler (option string * option string) :=
  else_skip
    [(1, fun wt (kv : option string * option string) bs =>
           '(s, bs) ← readStringForWireType wt bs; Ok ((Some s, kv.2), bs));
     (2, fun wt kv bs => '(s, bs) ← readStringForWireType wt bs; Ok ((kv.1, Some s), bs))].

Lemma entry_handler_consuming : consuming entry_handler.
Proof.
  apply else_skip_consuming. repeat apply Forall_cons_2; [..|apply Forall_nil_2];
    intros wt kv bs kv' bs'; cbn [snd];
    destruct (readStringForWireType wt bs) as [[s r]|] eqn:E; cbn; try done;
    intros [= _ <-]; by eapply reads_string.
Qed.

Lemma decode_entry kv :
  valid_utf8 kv.1 = true -> valid_utf8 kv.2 = true -> zlen (entry_bytes kv) <= 2 ^ 53 ->
  decodeStringMapEntry (entry_bytes kv) = Ok (if str_truthy kv.1 then [kv] else []).
Proof.
  intros H1 H2 Hl. unfold entry_bytes in *. rewrite zlen_app in Hl.
  pose proof (zlen_writeBytes 1 (utf8_bytes kv.1)). pose proof (zlen_writeBytes 2 (utf8_bytes kv.2)).
  pose proof (zlen_nonneg (utf8_bytes kv.1)). pose proof (zlen_nonneg (utf8_bytes kv.2)).
  unfold writeString in *.
  unfold decodeStringMapEntry. change (else_skip _) with entry_handler.
  rewrite (decode_bytes_field _ _ _ _ _ (Some kv.1, None)); [|apply entry_handler_consuming|done|].
  2: { unfold entry_handler, else_skip. cbn [JsMap.get]. rewrite decide_True by done.
       by rewrite read_written_string by (done || lia). }
  rewrite <- (app_nil_r (writeBytes 2 _)).
  rewrite (decode_bytes_field _ _ _ _ _ (Some kv.1, Some kv.2)); [|apply entry_handler_consuming|done|].
  2: { unfold entry_handler, else_skip. cbn [JsMap.get]. rewrite decide_False, decide_True by done.
       by rewrite read_written_string by (done || lia). }
  cbn. by destruct kv.
Qed.

Definition merge_entry (m : fields) (kv : string * string) : fields :=
  if str_truthy kv.1 then JsMap.set kv.1 (JStr kv.2) m else m.

Definition entry_ok (kv : string * string) : Prop := valid_utf8 kv.1 = true /\ valid_utf8 kv.2 = true.

Lemma decode_merge fn k kv acc rest m :
  JsMap.get fn cases = Some (mergeMap k) -> field_number fn -> entry_ok kv ->
  zlen (writeBytes fn (entry_bytes kv)) <= 2 ^ 53 ->
  m = as_record (field_lookup k acc) ?? [] ->
  decode_fields (else_skip cases) acc (writeBytes fn (entry_bytes kv) ++ rest)
  = decode_fields (else_skip cases) (JsMap.set k (JObj (merge_entry m kv)) acc) rest.
Proof.
  intros Hg Hfn [H1 H2] Hl ->. pose proof (zlen_writeBytes fn (entry_bytes kv)).
  apply decode_bytes_field; [done | done|]. unfold else_skip. rewrite Hg. unfold mergeMap.
  rewrite readBytes_written by lia. cbn [mbind res_mbind].
  rewrite decode_entry by (done || lia). cbn [mbind res_mbind]. unfold merge_entry.
  by destruct (str_truthy kv.1).
Qed.

Lemma decode_merges fn k es acc m rest :
  JsMap.get fn cases = Some (mergeMap k) -> field_number fn -> Forall entry_ok es ->
  zlen (concat (writeBytes fn <$> (entry_bytes <$> es))) <= 2 ^ 53 -> k ∉ acc.*1 ->
  decode_fields (else_skip cases) (acc ++ [(k, JObj m)])
    (concat (writeBytes fn <$> (entry_bytes <$> es)) ++ rest)
  = decode_fields (else_skip cases) (acc ++ [(k, JObj (foldl merge_entry m es))]) rest.
Proof.
  intros Hg Hfn Hes. revert m. induction Hes as [|kv es Hkv Hes IH]; intros m Hl Hk; [done|].
  rewrite !fmap_cons in *. cbn [concat] in *. rewrite zlen_app in Hl.
  pose proof (zlen_nonneg (writeBytes fn (entry_bytes kv))).
  pose proof (zlen_nonneg (concat (writeBytes fn <$> (entry_bytes <$> es)))).
  rewrite <- app_assoc, (decode_merge fn k kv _ _ m); [|done|done|done|lia|].
  - rewrite set_last by done. rewrite IH by (done || lia). done.
  - by rewrite field_lookup_last.
Qed.

(** Entries with distinct keys append. *)
Lemma merge_distinct es m :
  NoDup (m.*1 ++ es.*1) ->
  foldl merge_entry m es
  = m ++ ((fun kv : string * string => (kv.1, JStr kv.2)) <$> filter (fun kv : string * string => kv.1 <> "") es).
Proof.
  revert m. induction es as [|[k v] es IH]; intros m Hnd; [by cbn; rewrite app_nil_r|].
  cbn [foldl]. rewrite filter_cons. unfold merge_entry at 2. cbn [fst snd].
  cbn [fmap list_fmap fst] in Hnd.
  assert (Hk : k ∉ m.*1 /\ NoDup (m.*1 ++ es.*1) /\ k ∉ es.*1).
  { apply NoDup_app in Hnd as (Hm & Hd & [Hk He]%NoDup_cons). split_and!.
    - intros Hin. apply (Hd k Hin). set_solver.
    - apply NoDup_app. split_and!; [done | | done]. intros x Hx Hin. apply (Hd x Hx). set_solver.
    - done. }
  destruct Hk as (Hk & Hnd' & Hke). destruct (decide (k <> "")) as [Hne|He].
  - rewrite (proj2 (str_truthy_true k) Hne). rewrite JsMap.set_fresh by done. rewrite IH.
    + rewrite fmap_cons, <- app_assoc. done.
    + rewrite fmap_app, <- app_assoc. done.
  - apply dec_stable in He as ->. cbn. by apply IH.
Qed.

Lemma value_text_valid v : plain v = true -> valid_utf8 (value_text v) = true.
Proof.
  intros Hp. destruct v as [| |[]|[q| |]|s|l|fs]; try done;
    try apply (valid_stringify (JNum (JFin q)) Hp); by apply valid_stringify.
Qed.

(** The string map of a plain record. *)
Definition add_text (out : list (string * string)) (kv : string * jsval) : list (string * string) :=
  match kv.2 with JUndef => out | v => assign_text kv.1 (value_text v) out end.

Definition text_entry (kv : string * jsval) : string * string := (kv.1, value_text kv.2).

Lemma add_text_fresh out kv :
  kv.2 <> JUndef -> kv.1 ∉ out.*1 ->
  add_text out kv = out ++ (text_entry <$> assigned [kv]).
Proof.
  intros Hv Hk. assert (add_text out kv = assign_text kv.1 (value_text kv.2) out) as ->
    by (unfold add_text; by destruct (kv.2)).
  unfold assign_text, assigned. rewrite filter_cons. case_bool_decide; case_decide; try done.
  - by rewrite app_nil_r.
  - by rewrite JsMap.set_fresh.
Qed.

Lemma assigned_keys es k : k ∈ (assigned es).*1 -> k ∈ es.*1.
Proof.
  intros (kv & -> & [_ Hin]%list_elem_of_filter)%list_elem_of_fmap.
  apply list_elem_of_fmap. by exists kv.
Qed.

Lemma assigned_NoDup es : NoDup es.*1 -> NoDup (assigned es).*1.
Proof.
  induction es as [|kv es IH]; cbn [fmap list_fmap]; [done|]. intros [Hk Hnd]%NoDup_cons.
  unfold assigned. rewrite filter_cons. case_decide; [|by apply IH].
  apply NoDup_cons. split; [|by apply IH]. intros Hin. by apply Hk, assigned_keys.
Qed.

Lemma stringMap_plain es :
  plain (JObj es) = true -> foldl add_text [] es = text_entry <$> assigned es.
Proof.
  cbn. intros [Hnd%bool_decide_eq_true Hp]%andb_true_iff.
  assert (Hgen : forall out : list (string * string), NoDup (out.*1 ++ es.*1) ->
    foldl add_text out es = out ++ (text_entry <$> assigned es)); [|by apply Hgen].
  clear Hnd. induction es as [|kv es IH]; intros out Hnd; [by cbn; rewrite app_nil_r|].
  cbn [forallb] in Hp. apply andb_true_iff in Hp as [[_ Hv]%andb_true_iff Hp].
  cbn [fmap list_fmap] in Hnd. apply NoDup_app in Hnd as (Hout & Hd & [Hk Hes]%NoDup_cons).
  cbn [foldl]. rewrite add_text_fresh; [|by destruct (kv.2)|intros Hin; apply (Hd _ Hin); left].
  rewrite IH; [|done|].
  - rewrite <- app_assoc, <- fmap_app. do 2 f_equal. change (kv :: es) with ([kv] ++ es).
    unfold assigned. by rewrite filter_app.
  - rewrite fmap_app, <- list_fmap_compose, <- app_assoc. apply NoDup_app. split_and!; [done| |].
    + intros x Hx Hin%elem_of_app. apply (Hd x Hx). destruct Hin as [Hin|Hin]; [|by right].
      apply (list_elem_of_fmap_1 _ (assigned [kv])) in Hin as (y & -> & Hy).
      apply list_elem_of_filter in Hy as [_ Hy%list_elem_of_singleton]. subst y. left.
    + apply NoDup_app. split_and!; [|intros x Hx Hin|done].
      * unfold assigned. rewrite filter_cons. case_decide; [apply NoDup_singleton|constructor].
      * apply (list_elem_of_fmap_1 _ (assigned [kv])) in Hx as (y & -> & Hy).
        apply list_elem_of_filter in Hy as [_ Hy%list_elem_of_singleton]. by subst y.
Qed.

Lemma filter_values (es : list (string * jsval)) :
  (fun kv : string * string => (kv.1, JStr kv.2))
    <$> filter (fun kv : string * string => kv.1 <> "") (text_entry <$> es)
  = (fun kv : string * jsval => (kv.1, JStr (value_text kv.2)))
      <$> filter (fun kv : string * jsval => kv.1 <> "") es.
Proof.
  induction es as [|[k v] es IH]; [done|]. rewrite fmap_cons, !filter_cons. cbn [fst text_entry].
  case_decide; [by rewrite !fmap_cons, IH | done].
Qed.

Lemma carries_map fn f k :
  JsMap.get fn cases = Some (mergeMap k) -> field_ok fn -> plain_field (field_lookup k f) ->
  carries (else_skip cases) (writeStringMap fn (stringMapField f k)) k (keep KMap (field_lookup k f)).
Proof.
  intros Hg Hf Hp. unfold stringMapField, writeStringMap.
  destruct (field_lookup k f) as [| | | | | |es]; try apply carries_nothing.
  destruct Hp as [?|Hp]; [done|]. change (foldl _ [] es) with (foldl add_text [] es).
  rewrite stringMap_plain by done. set (ts := text_entry <$> assigned es).
  change (concat _) with (concat ((writeBytes fn ∘ entry_bytes) <$> ts)). rewrite list_fmap_compose.
  pose proof Hp as [Hnd%bool_decide_eq_true Hall]%andb_true_iff. rewrite forallb_forall in Hall.
  assert (Hts : Forall entry_ok ts).
  { apply Forall_fmap, Forall_forall. intros kv [_ Hin%list_elem_of_In%Hall]%list_elem_of_filter.
    apply andb_true_iff in Hin as [H1 H2]. split; [done | by apply value_text_valid]. }
  assert (Hkeys : NoDup ts.*1)
    by (subst ts; rewrite <- list_fmap_compose; by apply assigned_NoDup).
  split; [by apply passes_repeat|]. intros bs [= <-] Hl acc rest Hk.
  cbn [keep]. destruct (assigned es) as [|e kept]; [cbn; by rewrite app_nil_r|].
  assert (Hkeep : JObj ((fun kv : string * jsval => (kv.1, JStr (value_text kv.2)))
      <$> filter (fun kv : string * jsval => kv.1 <> "") (e :: kept))
    = JObj (foldl merge_entry [] ts)).
  { rewrite (merge_distinct ts []) by done. subst ts. by rewrite filter_values. }
  rewrite Hkeep. assert (Hne : ts <> []) by by subst ts. clearbody ts. clear Hkeep.
  destruct ts as [|t ts]; [done|]. inversion Hts as [|? ? Ht Hts']; subst.
  rewrite !fmap_cons in *. cbn [concat] in *. rewrite zlen_app in Hl.
  pose proof (zlen_nonneg (writeBytes fn (entry_bytes t))).
  pose proof (zlen_nonneg (concat (writeBytes fn <$> (entry_bytes <$> ts)))).
  destruct Hf as [Hfn _].
  rewrite <- app_assoc, (decode_merge fn k t acc _ []); [|done|done|done|lia|by rewrite field_lookup_absent].
  rewrite JsMap.set_fresh, (decode_merges fn k ts) by (done || lia). done.
Qed.
End Kinds.

(** ** The decoders consume *)

Lemma put_consuming k rd : reads rd -> action_consuming (put k rd).
Proof.
  intros Hrd wt a bs a' bs'. unfold put. destruct (rd wt bs) as [[v r]|] eqn:E; cbn; [|done].
  intros [= _ <-]. by eapply Hrd.
Qed.

(** A read whose value is converted by a function that may throw. *)
Lemma reads_convert {A B} (rd : Z -> bytes -> res (A * bytes)) (f : A -> res B) :
  reads rd -> reads (fun wt bs => '(a, bs) ← rd wt bs; b ← f a; Ok (b, bs)).
Proof.
  intros Hrd. apply reads_then; [done|]. intros a bs b bs'. destruct (f a); cbn; [|done].
  by intros [= _ ->].
Qed.

Lemma reads_map {A B} (rd : Z -> bytes -> res (A * bytes)) (f : A -> B) :
  reads rd -> reads (fun wt bs => '(a, bs) ← rd wt bs; Ok (f a, bs)).
Proof. intros Hrd. apply reads_then; [done|]. by intros a bs b bs' [= _ ->]. Qed.

Lemma putString_consuming k : action_consuming (putString k).
Proof. apply put_consuming, (reads_map _ JStr), reads_string. Qed.
Lemma putBool_consuming k : action_consuming (putBool k).
Proof. apply put_consuming, (reads_map _ (fun v => JBool (negb (v =? 0)))), reads_varint. Qed.
Lemma putNumber_consuming k : action_consuming (putNumber k).
Proof. apply put_consuming, (reads_map _ (fun v => num (number_of_bigint v))), reads_varint. Qed.
Lemma putUint64_consuming k name : action_consuming (putUint64 k name).
Proof. apply put_consuming, (reads_map _ num), reads_safe_uint64. Qed.
Lemma putInt32_consuming k : action_consuming (putInt32 k).
Proof. apply put_consuming, (reads_map _ num), reads_int32. Qed.
Lemma putJson_consuming k : action_consuming (putJson k).
Proof. apply put_consuming, (reads_convert _ parseJsonBytes), reads_bytes. Qed.
Lemma putBase64_consuming k : action_consuming (putBase64 k).
Proof. apply put_consuming, (reads_map _ (fun b => JStr (Base64.encode b))), reads_bytes. Qed.
Lemma putEnum_consuming k t d : action_consuming (putEnum k t d).
Proof.
  apply put_consuming, (reads_map _ (fun v => JStr (JsMap.get (number_of_bigint v) t ?? d))), reads_varint.
Qed.
Lemma putMessage_consuming k dec : action_consuming (putMessage k dec).
Proof.
  apply put_consuming. apply reads_then; [apply reads_bytes|]. intros b bs v bs'.
  destruct (dec b); cbn; [|done]. by intros [= _ ->].
Qed.
Lemma mergeMap_consuming k : action_consuming (mergeMap k).
Proof.
  intros wt a bs a' bs'. unfold mergeMap. destruct (readBytesForWireType wt bs) as [[b r]|] eqn:E; cbn [mbind res_mbind]; [|done].
  destruct (decodeStringMapEntry b); cbn [mbind res_mbind]; [|done]. intros [= _ <-]. by eapply reads_bytes.
Qed.
Lemma pushString_consuming k : action_consuming (pushString k).
Proof.
  intros wt a bs a' bs'. unfold pushString. destruct (readStringForWireType wt bs) as [[b r]|] eqn:E; cbn; [|done].
  intros [= _ <-]. by eapply reads_string.
Qed.
Lemma pushMessage_consuming k dec : action_consuming (pushMessage k dec).
Proof.
  intros wt a bs a' bs'. unfold pushMessage. destruct (readBytesForWireType wt bs) as [[b r]|] eqn:E; cbn [mbind res_mbind]; [|done].
  destruct (dec b); cbn [mbind res_mbind]; [|done]. intros [= _ <-]. by eapply reads_bytes.
Qed.

Create HintDb wire_messages.

#[local] Hint Resolve putString_consuming putBool_consuming putNumber_consuming putUint64_consuming
  putInt32_consuming putJson_consuming putBase64_consuming putEnum_consuming putMessage_consuming
  mergeMap_consuming pushString_consuming pushMessage_consuming : wire.

Ltac solve_consuming :=
  apply else_skip_consuming; repeat (apply Forall_cons_2; [solve [cbn [snd]; auto with wire]|]);
  apply Forall_nil_2.

Ltac solve_field := split; [split; [lia | reflexivity] | done].

(** One field of a message: the writer, the case of the decoder, the kind. *)
Ltac carry Hf :=
  cbn [fst snd];
  first [ apply carries_string | apply carries_bool | apply carries_uint32
        | eapply carries_uint64 | apply carries_int32 | apply carries_json | apply carries_base64
        | apply carries_nullable | eapply carries_enum | apply carries_map | apply carries_strings
        | eapply carries_message | eapply carries_messages ];
  first [ reflexivity | solve_field | solve_consuming | apply (plain_field_lookup _ _ Hf)
        | solve [auto with wire_messages] ].

Ltac carry_all Hf :=
  repeat (apply List.Forall2_cons; [solve [carry Hf]|]); apply List.Forall2_nil.

Ltac solve_nodup := apply (bool_decide_unpack _); vm_compute; exact I.

(** A decoder of a whole message whose cases read what the writers write. *)
Lemma message_decodes cases f ws schema bs :
  Forall2 (fun w (kk : string * kind) =>
    carries (else_skip cases) w kk.1 (keep kk.2 (field_lookup kk.1 f))) ws schema ->
  NoDup schema.*1 -> concat_writes ws = Ok bs -> zlen bs <= 2 ^ 53 ->
  decode_fields (else_skip cases) [] bs = Ok (project schema f).
Proof. intros Hc Hnd E Hl. apply (carries_all _ f ws schema Hc Hnd bs E Hl []). set_solver. Qed.

Lemma budError_ok : message_ok encodeBudError decodeBudError BUD_ERROR.
Proof.
  split; [done|]. intros g r Hg. unfold encodeBudError.
  destruct (concat_writes _) as [b|] eqn:E; cbn [mbind res_mbind]; [|done]. intros [= <-].
  exists b. split; [done|]. intros Hl.
  eapply message_decodes; [| | exact E | done]; [carry_all Hg | solve_nodup].
Qed.

Lemma terminalConfig_ok :
  message_ok encodeTerminalEnsureConfig decodeTerminalEnsureConfig TERMINAL_CONFIG.
Proof.
  split; [done|]. intros g r Hg. unfold encodeTerminalEnsureConfig.
  destruct (concat_writes _) as [b|] eqn:E; cbn [mbind res_mbind]; [|done]. intros [= <-].
  exists b. split; [done|]. intros Hl.
  eapply message_decodes; [| | exact E | done]; [carry_all Hg | solve_nodup].
Qed.
#[local] Hint Resolve budError_ok terminalConfig_ok : wire_messages.

Lemma plain_record v : plain v = true -> plain (JObj (as_record v ?? [])) = true.
Proof. by destruct v. Qed.

Lemma operationStatus_ok : elements_ok encodeOperationStatus decodeOperationStatus OPERATION_STATUS.
Proof.
  intros v b Hv E Hl. apply plain_record in Hv. unfold encodeOperationStatus in E.
  eapply message_decodes; [| | exact E | done]; [carry_all Hv | solve_nodup].
Qed.

Lemma streamStatus_ok : elements_ok encodeStreamStatus decodeStreamStatus STREAM_STATUS.
Proof.
  intros v b Hv E Hl. apply plain_record in Hv. unfold encodeStreamStatus in E.
  eapply message_decodes; [| | exact E | done]; [carry_all Hv | solve_nodup].
Qed.

#[local] Hint Resolve operationStatus_ok streamStatus_ok : wire_messages.

(** ** Every frame type *)

(** The case of the encoder, the case of the decoder and the schema of a type. *)
Definition type_ok (f : fields) (c : string * list (res bytes)) (s : string * list (string * kind)) : Prop :=
  c.1 = s.1 /\ NoDup s.2.*1
  /\ exists cases, JsMap.get c.1 field_readers = Some (else_skip cases)
     /\ Forall2 (fun w (kk : string * kind) =>
          carries (else_skip cases) w kk.1 (keep kk.2 (field_lookup kk.1 f))) c.2 s.2.

Lemma types_ok f : plain (JObj f) = true -> Forall2 (type_ok f) (payload_cases f) SCHEMAS.
Proof.
  intros Hf. unfold payload_cases, SCHEMAS.
  repeat (apply List.Forall2_cons;
    [split; [reflexivity|]; split; [solve_nodup|]; eexists; split; [reflexivity | carry_all Hf]|]).
  apply List.Forall2_nil.
Qed.
End Keep.
