(* ===== verification/WireProps.v ===== *)
(** What a received frame is ([received]: the projection of the frame by the
    schema of its type), that it is again a plain value, and the round trip of
    the payloads that are encoded field by field. *)
From Stdlib Require Import ZArith QArith Qround Lia Strings.Byte.
From stdpp Require Import base tactics strings gmap sorting option pretty.
From stdpp Require Import list.
From S2P Require Import Prelude JsRuntime Base64 Json Wire WireFrames WireRound.
Open Scope Z_scope.

(** ** Base64 text is ASCII *)

Lemma get_forall (p : Ascii.ascii -> bool) i s c :
  str_forall p s = true -> String.get i s = Some c -> p c = true.
Proof.
  revert i. induction s as [|x s IH]; intros i; cbn; [done|]. intros [Hx Hs]%andb_true_iff.
  destruct i; [by intros [= <-] | by apply IH].
Qed.

Definition is_ascii (c : Ascii.ascii) : bool := (code c <? 128)%N.

Lemma valid_ascii s : str_forall is_ascii s = true -> valid_utf8 s = true.
Proof.
  induction s as [|c s IH]; cbn [str_forall valid_utf8]; [done|]. intros [Hc Hs]%andb_true_iff.
  unfold is_ascii in Hc. rewrite Hc. by apply IH.
Qed.

Lemma sextet_char_ascii n : is_ascii (sextet_char n) = true.
Proof.
  unfold sextet_char. destruct (String.get _ _) as [c|] eqn:E; [|done].
  eapply get_forall; [|exact E]. done.
Qed.

Lemma base64_valid b : valid_utf8 (Base64.encode b) = true.
Proof.
  apply valid_ascii. revert b. apply (three_ind (fun b => str_forall is_ascii (Base64.encode b) = true));
    intros; cbn [Base64.encode str_forall]; rewrite ?sextet_char_ascii; done.
Qed.

Section Plain.
Context `{NumberText}.

(** ** What the receiver sees is plain *)

Fixpoint kind_wf (kd : kind) : bool :=
  match kd with
  | KMessage sch | KMessages sch =>
      bool_decide (NoDup sch.*1)
      && forallb (fun kk : string * kind => valid_utf8 kk.1 && kind_wf kk.2) sch
  | _ => true
  end.

Definition schema_wf (sch : list (string * kind)) : bool :=
  bool_decide (NoDup sch.*1) && forallb (fun kk : string * kind => valid_utf8 kk.1 && kind_wf kk.2) sch.

Lemma kind_nested_ind (P : kind -> Prop) :
  (forall kd, match kd with KMessage _ | KMessages _ => False | _ => True end -> P kd) ->
  (forall sch : list (string * kind), Forall (fun kk => P kk.2) sch -> P (KMessage sch)) ->
  (forall sch : list (string * kind), Forall (fun kk => P kk.2) sch -> P (KMessages sch)) ->
  forall kd, P kd.
Proof.
  intros H0 H1 H2. fix IH 1. intros kd.
  destruct kd as [| | | | | | | | | | |sch|sch]; try (by apply H0).
  - apply H1. induction sch as [|[k kd] sch IHs]; constructor; [apply IH | assumption].
  - apply H2. induction sch as [|[k kd] sch IHs]; constructor; [apply IH | assumption].
Qed.

Lemma project_keys sch f k : k ∈ (project sch f).*1 -> k ∈ sch.*1.
Proof.
  induction sch as [|[k' kd] sch IH]; [done|]. rewrite project_cons, fmap_app, elem_of_app.
  cbn [fmap list_fmap fst]. intros [Hin|Hin]; [|right; by apply IH].
  destruct (keep kd _); cbn in Hin; [|set_solver]. apply list_elem_of_singleton in Hin as ->. left.
Qed.

Lemma project_nodup sch f : NoDup sch.*1 -> NoDup (project sch f).*1.
Proof.
  induction sch as [|[k kd] sch IH]; [done|]. cbn [fmap list_fmap fst]. intros [Hk Hnd]%NoDup_cons.
  rewrite project_cons. destruct (keep kd _); cbn; [|by apply IH].
  apply NoDup_cons. split; [|by apply IH]. intros Hin%project_keys. done.
Qed.

Definition keeps_plain (kd : kind) : Prop :=
  kind_wf kd = true -> forall v v', plain v = true -> keep kd v = Some v' -> plain v' = true.

Lemma keep_undef kd : keep kd JUndef = None.
Proof. by destruct kd. Qed.

Lemma project_plain sch f :
  Forall (fun kk => keeps_plain kk.2) sch -> schema_wf sch = true -> plain (JObj f) = true ->
  plain (JObj (project sch f)) = true.
Proof.
  intros Hsch [Hnd%bool_decide_eq_true Hwf]%andb_true_iff Hf. cbn [plain].
  rewrite bool_decide_true by (by apply project_nodup). cbn [andb].
  clear Hnd. induction Hsch as [|[k kd] sch Hk _ IH]; [done|].
  cbn [forallb] in Hwf. apply andb_true_iff in Hwf as [[Hku Hkw]%andb_true_iff Hwf]. cbn [fst snd] in *.
  rewrite project_cons, forallb_app, (IH Hwf), andb_true_r.
  destruct (keep kd (field_lookup k f)) as [v'|] eqn:E; cbn; [|done].
  rewrite Hku, andb_true_r. cbn [andb]. destruct (plain_field_lookup k f Hf) as [Hu|Hp].
  - by rewrite Hu, keep_undef in E.
  - by apply (Hk Hkw _ _ Hp E).
Qed.

Lemma num_plain z : Z.abs z <= 2 ^ 53 -> plain (num z) = true.
Proof. intros Hz. by apply int_number_ok. Qed.

Lemma number_ok_integer q z : number_ok q = true -> as_integer q = Some z -> Z.abs z <= 2 ^ 53.
Proof. intros [_ Hq]%andb_true_iff E. rewrite E in Hq. by apply Z.leb_le. Qed.

Lemma map_plain (es : list (string * jsval)) :
  plain (JObj es) = true ->
  plain (JObj ((fun kv : string * jsval => (kv.1, JStr (value_text kv.2)))
                 <$> filter (fun kv : string * jsval => kv.1 <> "") es)) = true.
Proof.
  cbn [plain]. intros [Hnd%bool_decide_eq_true Hp]%andb_true_iff. rewrite forallb_forall in Hp.
  apply andb_true_iff. split.
  - apply bool_decide_eq_true. rewrite <- list_fmap_compose.
    change (NoDup ((filter (fun kv : string * jsval => kv.1 <> "") es).*1)).
    eapply sublist_NoDup; [exact Hnd|]. apply fmap_sublist, sublist_filter.
  - apply forallb_forall. intros kv (kv0 & -> & Hin)%list_elem_of_In%list_elem_of_fmap.
    apply list_elem_of_filter in Hin as [_ Hin%list_elem_of_In%Hp].
    apply andb_true_iff in Hin as [H1 H2]. cbn. by rewrite H1, value_text_valid.
Qed.

Lemma filter_plain P `{!forall kv : string * jsval, Decision (P kv)} (es : list (string * jsval)) :
  plain (JObj es) = true -> plain (JObj (filter P es)) = true.
Proof.
  cbn [plain]. intros [Hnd%bool_decide_eq_true Hp]%andb_true_iff. rewrite forallb_forall in Hp.
  apply andb_true_iff. split.
  - apply bool_decide_eq_true. eapply sublist_NoDup; [exact Hnd|].
    apply fmap_sublist, sublist_filter.
  - apply forallb_forall. intros kv Hin%list_elem_of_In.
    apply list_elem_of_filter in Hin as [_ Hin%list_elem_of_In]. by apply Hp.
Qed.

Lemma keep_map_plain es v : plain (JObj es) = true -> keep KMap (JObj es) = Some v -> plain v = true.
Proof.
  intros Hp E. pose proof (filter_plain (fun kv => kv.1 <> "__proto__") es Hp) as Ha.
  cbn [keep] in E. change (filter _ es) with (assigned es) in Ha.
  destruct (assigned es) as [|kv kept]; [done|]. injection E as <-. by apply map_plain.
Qed.

Lemma to_int32_bound z : Z.abs (to_int32 z) <= 2 ^ 53.
Proof.
  unfold to_int32. pose proof (Z.mod_pos_bound z (2 ^ 32) ltac:(lia)).
  destruct (_ <? _) eqn:E; zbool; lia.
Qed.

Lemma strings_plain l : plain (JArr l) = true -> plain (JArr (JStr <$> omap as_string l)) = true.
Proof.
  intros Hl. cbn [plain]. apply forallb_forall.
  intros v (s & -> & Hs)%list_elem_of_In%list_elem_of_fmap.
  apply list_elem_of_omap in Hs as (v & Hv & Hs). apply (plain_elements _ _ Hl) in Hv.
  by destruct v; cbn in Hs; simplify_eq.
Qed.

Lemma keep_plain kd : keeps_plain kd.
Proof.
  induction kd as [kd Hkd|sch IH|sch IH] using kind_nested_ind; intros Hwf v v' Hv E.
  - destruct kd; try done; destruct v as [| |b|[q| |]|s|l|fs];
      try (by apply (keep_map_plain _ _ Hv E)); cbn -[Z.pow plain] in E; try done.
    all: repeat case_match; simplify_eq; try done.
    + apply num_plain. zbool. pose proof (number_ok_integer q z Hv ltac:(done)).
      rewrite Z.mod_small, number_of_bigint_small by lia. done.
    + apply num_plain. by apply (number_ok_integer q).
    + destruct (as_integer q); cbn in E; simplify_eq. apply num_plain, to_int32_bound.
    + apply base64_valid.
    + pose proof (strings_plain l Hv) as Hs. by rewrite H0 in Hs.
  - destruct v as [| | | | | |fs]; try done. rewrite keep_message in E. simplify_eq.
    by apply project_plain.
  - destruct v as [| | | | |[|v l]|]; try done. rewrite keep_messages in E. simplify_eq.
    cbn [plain]. apply forallb_forall. intros w (u & -> & Hu)%list_elem_of_In%list_elem_of_fmap.
    apply project_plain; [done | done |]. by apply plain_record, (plain_elements _ _ Hv).
Qed.

Lemma SCHEMAS_wf : forallb (fun s : string * list (string * kind) =>
    schema_wf s.2 && forallb (fun k => negb (bool_decide (k ∈ ["proto"; "type"; "id"; "ts"; "ext"]))) s.2.*1)
  SCHEMAS = true.
Proof. by vm_compute. Qed.

(** ** The payload of a frame type *)

Context `{DateParse}.

(** What the other side sees of a frame: the keys of its schema over the base of
    the envelope when its type is encoded field by field, the frame itself
    otherwise. *)
Definition received (frameType messageId sentAt : string) (frame : fields) : fields :=
  match JsMap.get frameType SCHEMAS with
  | Some schema =>
      fill_missing frameType (baseFrame frameType messageId sentAt ++ project schema frame)
  | None => frame
  end.

Lemma Forall2_get {A B} (R : string * A -> string * B -> Prop) l l' k a :
  Forall2 R l l' -> (forall c s, R c s -> c.1 = s.1) -> JsMap.get k l = Some a ->
  exists b, JsMap.get k l' = Some b /\ R (k, a) (k, b).
Proof.
  intros HR Hk. induction HR as [|[k1 a1] [k2 b2] l l' Hc _ IH]; cbn; [done|].
  pose proof (Hk _ _ Hc) as E. cbn in E. subst k2. case_decide; [|done].
  intros [= ->]. subst. by exists b2.
Qed.

(** The two numberings agree. *)
Lemma frame_type_of_field ty fn :
  JsMap.get ty TYPED_PAYLOAD_FIELD_BY_FRAME_TYPE = Some fn ->
  JsMap.get fn FRAME_TYPE_BY_TYPED_PAYLOAD_FIELD = Some ty
  /\ field_number fn /\ fn <> TYPED_FRAME_JSON_FIELD /\ fn <> LEGACY_JSON_PAYLOAD_FIELD /\ 12 < fn.
Proof.
  intros E%JsMap.get_Some_elem.
  assert (Hall : Forall (fun kv : string * Z =>
    JsMap.get kv.2 FRAME_TYPE_BY_TYPED_PAYLOAD_FIELD = Some kv.1
    /\ 0 <= kv.2 < 1000 /\ kv.2 <> 99 /\ kv.2 <> 100 /\ 12 < kv.2) TYPED_PAYLOAD_FIELD_BY_FRAME_TYPE).
  { apply (bool_decide_unpack _). by vm_compute. }
  rewrite Forall_forall in Hall. destruct (Hall _ E) as (H1 & H2 & H3 & H4 & H5).
  split_and!; try done; unfold field_number; cbn in *; lia.
Qed.

Lemma schema_facts ty schema :
  JsMap.get ty SCHEMAS = Some schema ->
  schema_wf schema = true
  /\ forall k, k ∈ schema.*1 -> k ∉ ["proto"; "type"; "id"; "ts"; "ext"].
Proof.
  intros E%JsMap.get_Some_elem%list_elem_of_In. pose proof SCHEMAS_wf as Hwf.
  rewrite forallb_forall in Hwf. apply Hwf in E. apply andb_true_iff in E as [H1 H2].
  split; [done|]. intros k Hk%list_elem_of_In. rewrite forallb_forall in H2. apply H2 in Hk.
  by apply negb_true_iff, bool_decide_eq_false in Hk.
Qed.

(** What the two sides of a type that is encoded field by field do. *)
Lemma field_level_parts ty f bs :
  plain (JObj f) = true -> encodeFieldLevelPayload ty f = Ok (Some bs) -> zlen bs <= 2 ^ 53 ->
  exists schema cases, JsMap.get ty SCHEMAS = Some schema
    /\ JsMap.get ty field_readers = Some (else_skip cases)
    /\ payloadContainsFrameJson bs = Ok false
    /\ forall acc, (forall k, k ∈ schema.*1 -> k ∉ acc.*1) ->
       decode_fields (else_skip cases) acc bs = Ok (acc ++ project schema f).
Proof.
  intros Hf E Hl. unfold encodeFieldLevelPayload in E. destruct (bool_decide (ty ∈ _)); [|done].
  destruct (JsMap.get ty (payload_cases f)) as [ws|] eqn:Ews; [|done].
  destruct (concat_writes ws) as [b|] eqn:Eb; cbn [mbind res_mbind] in E; simplify_eq.
  destruct (Forall2_get _ _ _ _ _ (types_ok f Hf) ltac:(by intros c s [Hc _]) Ews)
    as (schema & Hsch & _ & Hnd & cases & Hcases & Hcarry). cbn [fst snd] in *.
  exists schema, cases. split_and!; [done | done | |].
  - apply (passes_scan (concat_writes ws)); [|done|done]. apply passes_concat.
    clear -Hcarry. induction Hcarry as [|w kk ws schema [Hw _] _ IH]; by constructor.
  - by apply (carries_all _ f ws schema Hcarry Hnd bs Eb Hl).
Qed.

Lemma field_level_roundtrip ty fn f bs messageId sentAt :
  plain (JObj f) = true -> JsMap.get ty TYPED_PAYLOAD_FIELD_BY_FRAME_TYPE = Some fn ->
  encodeFieldLevelPayload ty f = Ok (Some bs) -> zlen bs <= 2 ^ 53 ->
  decodeFieldLevelPayload fn bs messageId sentAt = Ok (Some (received ty messageId sentAt f)).
Proof.
  intros Hf Hfn E Hl. apply frame_type_of_field in Hfn as (Hty & _).
  destruct (field_level_parts ty f bs Hf E Hl) as (schema & cases & Hsch & Hcases & Hno & Hdec).
  unfold encodeFieldLevelPayload in E. destruct (bool_decide (ty ∈ _)) eqn:Hfl; [|done].
  unfold decodeFieldLevelPayload. rewrite Hty, Hfl. cbn [negb]. rewrite Hno.
  cbn [mbind res_mbind]. rewrite Hcases. cbn [default].
  rewrite Hdec by by apply (schema_facts ty).
  unfold received. by rewrite Hsch.
Qed.

(** ** The received frame is plain *)

Lemma plain_set k v f :
  plain (JObj f) = true -> valid_utf8 k = true -> plain v = true -> plain (JObj (JsMap.set k v f)) = true.
Proof.
  cbn [plain]. intros [Hnd%bool_decide_eq_true Hall]%andb_true_iff Hk Hv.
  rewrite bool_decide_true by (by apply (JsMap.wf_set k v f)). cbn [andb]. clear Hnd.
  induction f as [|[k' v'] f IH]; cbn in *; [by rewrite Hk, Hv|].
  apply andb_true_iff in Hall as [H1 H2]. apply andb_true_iff in H1 as [H1 H3].
  case_decide; cbn; [by rewrite H1, Hv, H2 | by rewrite H1, H3, IH].
Qed.

Lemma plain_fill ty f : plain (JObj f) = true -> plain (JObj (fill_missing ty f)) = true.
Proof.
  intros Hf. unfold fill_missing.
  repeat match goal with |- context [if ?b then _ else _] => destruct b end;
    repeat apply plain_set; done.
Qed.

Lemma proto_valid ty : valid_utf8 (protoForFrameType ty) = true.
Proof. unfold protoForFrameType. by destruct (starts_with _ _). Qed.

Lemma plain_received ty messageId sentAt f :
  plain (JObj f) = true -> valid_utf8 messageId = true ->
  number_ok (sentAtToMillis sentAt) = true ->
  plain (JObj (received ty messageId sentAt f)) = true.
Proof.
  intros Hf Hm Ht. unfold received. destruct (JsMap.get ty SCHEMAS) as [schema|] eqn:E; [|done].
  pose proof (JsMap.get_Some_elem _ _ _ E) as Hin.
  apply schema_facts in E as [Hwf Hdis]. apply plain_fill.
  pose proof (project_plain schema f) as Hp. cbn [plain] in *.
  apply andb_true_iff in Hp as [Hnd%bool_decide_eq_true Hall];
    [|by apply Forall_forall; intros; apply keep_plain | done | done].
  rewrite forallb_app, Hall, andb_true_r. apply andb_true_iff. split.
  - apply bool_decide_eq_true. rewrite fmap_app. apply NoDup_app. split_and!; [ | |done].
    + apply (bool_decide_unpack _). by vm_compute.
    + intros k Hk Hk'%project_keys. by apply (Hdis k).
  - cbn [baseFrame forallb fst snd plain]. rewrite proto_valid, Hm, Ht. cbn [andb].
    rewrite !andb_true_r.
    assert (valid_utf8 ty = true) as ->; [|by vm_compute].
    assert (Hall' : forallb (fun s : string * list (string * kind) => valid_utf8 s.1) SCHEMAS = true)
      by by vm_compute.
    rewrite forallb_forall in Hall'. by apply (Hall' (ty, schema)), list_elem_of_In.
Qed.

(** Its type and protocol version. *)
Lemma lookup_set_ne k k' v f : k <> k' -> field_lookup k (JsMap.set k' v f) = field_lookup k f.
Proof.
  intros Hne. induction f as [|[k1 v1] f IH]; cbn; [by rewrite decide_False|].
  repeat case_decide; subst; try done; cbn; repeat case_decide; try done.
Qed.

Lemma lookup_fill k ty f :
  k ∉ ["error"; "outcome"; "data"] -> field_lookup k (fill_missing ty f) = field_lookup k f.
Proof.
  intros Hk. unfold fill_missing.
  repeat match goal with |- context [if ?b then _ else _] => destruct b end;
    rewrite ?lookup_set_ne by set_solver; done.
Qed.

Lemma received_type ty messageId sentAt f schema :
  JsMap.get ty SCHEMAS = Some schema ->
  stringField (received ty messageId sentAt f) "type" = Some ty
  /\ stringField (received ty messageId sentAt f) "proto" = Some (protoForFrameType ty).
Proof.
  intros E. unfold received, stringField. rewrite E, !lookup_fill by set_solver. done.
Qed.
End Plain.
