(* ===== verification/WireEnvelope.v ===== *)
(** Envelopes ([service/src/proto/wire.ts]): the fields of an envelope and of its
    nested messages decode to what was sent, whichever of the three payload
    encodings was used. *)
From Stdlib Require Import ZArith QArith Qround Lia Strings.Byte.
From stdpp Require Import base tactics strings gmap sorting option pretty.
From stdpp Require Import list.
From S2P Require Import Prelude JsRuntime Base64 Json Wire WireFrames WireRound WireProps.
Open Scope Z_scope.

(** ** What the fields of the envelope do to the decoder's object *)

Definition upd_version (v : Z) (d : decoded_envelope) : decoded_envelope :=
  mkDecoded (Some v) (de_strings d) (de_traffic_class d) (de_transport_kind d) (de_payload d)
    (de_typedPayload d).
Definition upd_string (fn : Z) (s : string) (d : decoded_envelope) : decoded_envelope :=
  mkDecoded (de_version d) (JsMap.set fn s (de_strings d)) (de_traffic_class d)
    (de_transport_kind d) (de_payload d) (de_typedPayload d).
Definition upd_class (c : TrafficClass) (d : decoded_envelope) : decoded_envelope :=
  mkDecoded (de_version d) (de_strings d) (Some c) (de_transport_kind d) (de_payload d)
    (de_typedPayload d).
Definition upd_kind (k : option TransportKind) (d : decoded_envelope) : decoded_envelope :=
  mkDecoded (de_version d) (de_strings d) (de_traffic_class d)
    (match k with Some k => Some k | None => de_transport_kind d end) (de_payload d)
    (de_typedPayload d).
Definition upd_legacy (p : LegacyJsonPayload) (d : decoded_envelope) : decoded_envelope :=
  mkDecoded (de_version d) (de_strings d) (de_traffic_class d) (de_transport_kind d) (Some p)
    (de_typedPayload d).
Definition upd_typed (fn : Z) (b : bytes) (d : decoded_envelope) : decoded_envelope :=
  mkDecoded (de_version d) (de_strings d) (de_traffic_class d) (de_transport_kind d)
    (de_payload d) (Some (fn, b)).

(** An optional string: an empty one is not written. *)
Definition nonempty (o : option string) : option string :=
  s ← o; if str_truthy s then Some s else None.
Definition upd_text (fn : Z) (o : option string) (d : decoded_envelope) : decoded_envelope :=
  match nonempty o with Some s => upd_string fn s d | None => d end.

Definition text (n : Z) (d : decoded_envelope) : option string := JsMap.get n (de_strings d).

Lemma text_upd_text n fn o d :
  text n (upd_text fn o d)
  = if decide (n = fn) then match nonempty o with Some s => Some s | None => text n d end
    else text n d.
Proof.
  unfold text, upd_text. destruct (nonempty o); cbn; [|by case_decide].
  rewrite JsMap.get_set. done.
Qed.

Lemma truthy_nonempty s : str_truthy s = true -> nonempty (Some s) = Some s.
Proof. intros E. unfold nonempty. cbn. by rewrite E. Qed.

Section Envelope.
Context `{NumberText} `{DateParse}.

Lemma envelope_consuming : consuming read_envelope_field.
Proof.
  intros fn wt d bs d' bs'. unfold read_envelope_field.
  repeat match goal with
  | |- (if ?b then _ else _) = _ -> _ => destruct b
  | |- context [JsMap.get fn _] => destruct (JsMap.get fn _)
  end;
  try (match goal with |- (mbind _ (?rd wt bs)) = _ -> _ =>
         destruct (rd wt bs) as [[v r]|] eqn:E end; cbn [mbind res_mbind]; [|done]);
  try (match goal with |- (mbind _ (decodeLegacyJsonPayload ?b)) = _ -> _ =>
         destruct (decodeLegacyJsonPayload b) end; cbn [mbind res_mbind]; [|done]);
  try (by intros [= _ <-]; first [exact (reads_varint _ _ _ _ E) | exact (reads_string _ _ _ _ E)
        | exact (reads_bytes _ _ _ _ E)]).
  destruct (skip wt bs) as [r|] eqn:E; cbn; [|done]. intros [= _ <-]. by eapply skip_consumes.
Qed.

Notation wrote_env := (wrote read_envelope_field).

Lemma read_varint_written v rest :
  readVarintForWireType WIRE_VARINT (encodeVarint v ++ rest) = Ok (v mod 2 ^ 64, rest).
Proof. exact (readVarint_encode v rest). Qed.

Lemma wrote_version v : 0 <= v <= 2 ^ 53 -> wrote_env (Ok (writeUint32 1 v)) (upd_version v).
Proof.
  intros Hv bs [= <-] _ d rest. apply decode_varint_field; [apply envelope_consuming | by split|].
  unfold read_envelope_field. rewrite read_varint_written, Z.mod_small by lia.
  cbn [Z.eqb Pos.eqb mbind res_mbind]. by rewrite number_of_bigint_small by lia.
Qed.

Lemma wrote_string fn s :
  2 <= fn <= 10 -> valid_utf8 s = true -> wrote_env (Ok (writeString fn s)) (upd_string fn s).
Proof.
  intros Hfn Hs bs [= <-] Hl d rest. pose proof (zlen_writeBytes fn (utf8_bytes s)).
  unfold writeString in *. apply decode_bytes_field; [apply envelope_consuming | split; lia|].
  unfold read_envelope_field. rewrite (proj2 (Z.eqb_neq fn 1)) by lia.
  rewrite (proj2 (Z.leb_le 2 fn)), (proj2 (Z.leb_le fn 10)) by lia. cbn [andb].
  by rewrite read_written_string by (done || lia).
Qed.

Definition valid_text (o : option string) : Prop := forall s, o = Some s -> valid_utf8 s = true.

Lemma wrote_text fn o :
  2 <= fn <= 10 -> valid_text o -> wrote_env (writeOptionalString fn o) (upd_text fn o).
Proof.
  intros Hfn Ho. unfold writeOptionalString, upd_text, nonempty. destruct o as [s|]; cbn; [|apply wrote_nothing].
  destruct (str_truthy s); [apply wrote_string; auto | apply wrote_nothing].
Qed.

Lemma wrote_class c : wrote_env (Ok (writeEnum 11 (TRAFFIC_CLASS_PROTO_VALUES c))) (upd_class c).
Proof.
  intros bs [= <-] _ d rest. apply decode_varint_field; [apply envelope_consuming | by split|].
  unfold read_envelope_field. rewrite read_varint_written. by destruct c.
Qed.

Lemma wrote_kind k :
  wrote_env (match k with Some k => Ok (writeEnum 12 (TRANSPORT_KIND_PROTO_VALUES k)) | None => Ok [] end)
    (upd_kind k).
Proof.
  destruct k as [k|].
  - intros bs [= <-] _ d rest. apply decode_varint_field; [apply envelope_consuming | by split|].
    unfold read_envelope_field. rewrite read_varint_written. by destruct k.
  - intros bs [= <-] _ d rest. by destruct d.
Qed.

Lemma wrote_typed ty fn b :
  JsMap.get ty TYPED_PAYLOAD_FIELD_BY_FRAME_TYPE = Some fn ->
  wrote_env (Ok (writeMessage fn b)) (upd_typed fn b).
Proof.
  intros (Hty & Hfn & _ & H100 & H12)%frame_type_of_field bs [= <-] Hl d rest.
  pose proof (zlen_writeBytes fn b). unfold writeMessage in *.
  apply decode_bytes_field; [apply envelope_consuming | done|]. unfold read_envelope_field.
  rewrite (proj2 (Z.eqb_neq fn 1)), (proj2 (Z.leb_gt fn 10)), (proj2 (Z.eqb_neq fn 11)),
    (proj2 (Z.eqb_neq fn 12)), (proj2 (Z.eqb_neq fn _) H100), Hty, andb_false_r by lia.
  by rewrite readBytes_written by lia.
Qed.

(** ** The legacy payload *)

Definition received_legacy (p : LegacyJsonPayload) : LegacyJsonPayload :=
  mkPayload (lp_json p) (nonempty (lp_frame_type p)) (nonempty (lp_proto p)).

Definition valid_payload (p : LegacyJsonPayload) : Prop :=
  lp_json p <> "" /\ valid_utf8 (lp_json p) = true /\ valid_text (lp_frame_type p)
  /\ valid_text (lp_proto p).

Definition legacy_slots : Type := option string * option string * option string.

Definition legacy_text (f : string -> legacy_slots -> legacy_slots) : action legacy_slots :=
  fun wt a bs => '(s, bs) ← readStringForWireType wt bs; Ok (f s a, bs).

Definition legacy_handler : handler legacy_slots :=
  else_skip [(1, legacy_text (fun s a => (Some s, a.1.2, a.2)));
             (2, legacy_text (fun s a => (a.1.1, Some s, a.2)));
             (3, legacy_text (fun s a => (a.1.1, a.1.2, Some s)))].

Lemma legacy_text_consuming f : action_consuming (legacy_text f).
Proof.
  intros wt a bs a' bs'. unfold legacy_text.
  destruct (readStringForWireType wt bs) as [[s r]|] eqn:E; cbn; [|done].
  intros [= _ <-]. by eapply reads_string.
Qed.

Lemma legacy_consuming : consuming legacy_handler.
Proof. apply else_skip_consuming. repeat constructor; apply legacy_text_consuming. Qed.

Lemma wrote_legacy fn s f :
  field_number fn -> valid_utf8 s = true ->
  (forall a bs, legacy_handler fn WIRE_LENGTH_DELIMITED a bs
                = legacy_text f WIRE_LENGTH_DELIMITED a bs) ->
  wrote legacy_handler (Ok (writeString fn s)) (f s).
Proof.
  intros Hfn Hs Hh bs [= <-] Hl a rest. pose proof (zlen_writeBytes fn (utf8_bytes s)).
  unfold writeString in *. apply decode_bytes_field; [apply legacy_consuming | done|].
  rewrite Hh. unfold legacy_text. by rewrite read_written_string by (done || lia).
Qed.

Lemma wrote_legacy_text fn o f :
  field_number fn -> valid_text o ->
  (forall a bs, legacy_handler fn WIRE_LENGTH_DELIMITED a bs
                = legacy_text f WIRE_LENGTH_DELIMITED a bs) ->
  wrote legacy_handler (writeOptionalString fn o)
    (fun a => match nonempty o with Some s => f s a | None => a end).
Proof.
  intros Hfn Ho Hh. unfold writeOptionalString, nonempty.
  destruct o as [s|]; cbn [mbind option_bind]; [|apply wrote_nothing].
  destruct (str_truthy s); [by apply wrote_legacy; auto | apply wrote_nothing].
Qed.

Lemma legacy_payload_roundtrip e b :
  valid_payload (be_legacy_json e) -> encodeLegacyJsonPayload e = Ok b -> zlen b <= 2 ^ 53 ->
  decodeLegacyJsonPayload b = Ok (received_legacy (be_legacy_json e)).
Proof.
  intros (Hne & Hj & Ht & Hp) E Hl. unfold decodeLegacyJsonPayload.
  change (else_skip _) with legacy_handler.
  assert (Hw : wrote legacy_handler (encodeLegacyJsonPayload e)
    (apply_all [(fun a => (Some (lp_json (be_legacy_json e)), a.1.2, a.2));
                (fun a => match nonempty (lp_frame_type (be_legacy_json e)) with
                          | Some s => (a.1.1, Some s, a.2) | None => a end);
                (fun a => match nonempty (lp_proto (be_legacy_json e)) with
                          | Some s => (a.1.1, a.1.2, Some s) | None => a end)])).
  { apply wrote_concat. repeat apply List.Forall2_cons; [| | |apply List.Forall2_nil].
    - by apply (wrote_legacy 1 _ (fun s a => (Some s, a.1.2, a.2))).
    - by apply (wrote_legacy_text 2 _ (fun s a => (a.1.1, Some s, a.2))).
    - by apply (wrote_legacy_text 3 _ (fun s a => (a.1.1, a.1.2, Some s))). }
  rewrite (wrote_message _ _ _ _ _ Hw E Hl). unfold apply_all, received_legacy.
  assert (Hidem : forall o s, nonempty o = Some s -> str_truthy s = true).
  { intros [t|] s; cbn; [|done]. destruct (str_truthy t) eqn:Et; [|done]. by intros [= <-]. }
  cbn [foldl mbind res_mbind fst snd].
  destruct (nonempty (lp_frame_type _)) as [s1|] eqn:E1, (nonempty (lp_proto _)) as [s2|] eqn:E2;
    cbn [fst snd]; rewrite (proj2 (str_truthy_true _) Hne); cbn [mbind option_bind];
    rewrite ?(Hidem _ _ E1), ?(Hidem _ _ E2); done.
Qed.

Lemma wrote_legacy_payload e b :
  valid_payload (be_legacy_json e) -> encodeLegacyJsonPayload e = Ok b ->
  wrote_env (Ok (writeMessage LEGACY_JSON_PAYLOAD_FIELD b)) (upd_legacy (received_legacy (be_legacy_json e))).
Proof.
  intros Hp E bs [= <-] Hl d rest. pose proof (zlen_writeBytes LEGACY_JSON_PAYLOAD_FIELD b).
  unfold writeMessage in *. apply decode_bytes_field; [apply envelope_consuming | by split|].
  unfold read_envelope_field. rewrite readBytes_written by lia.
  cbn [LEGACY_JSON_PAYLOAD_FIELD Z.eqb Z.leb Z.compare Pos.compare Pos.compare_cont Pos.eqb andb mbind res_mbind].
  by rewrite (legacy_payload_roundtrip e b) by (done || lia).
Qed.

(** ** The payload of an envelope *)

(** The frame type is a name every object inherits, where the table of the typed
    payloads finds a function: the payload goes to field 0, which no decoder reads. *)
Definition lost_payload (force : bool) (e : BudEnvelope) : bool :=
  negb force && bool_decide ((lp_frame_type (be_legacy_json e) ?? "") ∈ OBJECT_PROTOTYPE_KEYS).

(** What the receiver has as the payload, when it is not lost: a payload whose type has a field of its
    own comes back as the JSON of the frame the receiver sees, anything else, and
    everything when the legacy form is forced, as it was. *)
Definition received_payload (force : bool) (e : BudEnvelope) : LegacyJsonPayload :=
  let p := be_legacy_json e in
  let ty := lp_frame_type p ?? "" in
  match (if force then None else JsMap.get ty TYPED_PAYLOAD_FIELD_BY_FRAME_TYPE) with
  | None => received_legacy p
  | Some _ =>
      mkPayload
        (match JsMap.get ty SCHEMAS, JSON_parse (lp_json p) with
         | Some _, Some (JObj f) => JSON_stringify (JObj (received ty (be_message_id e) (be_sent_at e) f))
         | _, _ => lp_json p
         end) (Some ty) (Some (protoForFrameType ty))
  end.

Definition received_envelope (force : bool) (e : BudEnvelope) : BudEnvelope :=
  mkEnvelope BUD_ENVELOPE_VERSION (be_message_id e) (nonempty (be_correlation_id e))
    (nonempty (be_operation_id e)) (nonempty (be_stream_id e)) (nonempty (be_trace_id e))
    (nonempty (be_bud_id e)) (nonempty (be_device_session_id e))
    (nonempty (be_transport_session_id e)) (be_sent_at e) (be_traffic_class e)
    (be_transport_kind e) (received_payload force e).

Definition valid_envelope (e : BudEnvelope) : Prop :=
  be_envelope_version e = BUD_ENVELOPE_VERSION
  /\ str_truthy (be_message_id e) = true /\ valid_utf8 (be_message_id e) = true
  /\ str_truthy (be_sent_at e) = true /\ valid_utf8 (be_sent_at e) = true
  /\ Forall valid_text [be_correlation_id e; be_operation_id e; be_stream_id e; be_trace_id e;
                        be_bud_id e; be_device_session_id e; be_transport_session_id e]
  /\ valid_payload (be_legacy_json e)
  /\ (forall f, JSON_parse (lp_json (be_legacy_json e)) = Some (JObj f) -> plain (JObj f) = true).

Lemma wrote_lost b : wrote_env (Ok (writeMessage 0 b)) (fun d => d).
Proof.
  intros bs [= <-] Hl d rest. pose proof (zlen_writeBytes 0 b). unfold writeMessage in *.
  apply decode_bytes_field; [apply envelope_consuming | by split|].
  unfold read_envelope_field.
  cbn [Z.eqb Z.leb Z.compare Pos.compare Pos.compare_cont Pos.eqb andb LEGACY_JSON_PAYLOAD_FIELD].
  change (JsMap.get 0 _) with (@None string). change (isPayloadFieldNumber 0) with false.
  by rewrite skip_bytes by lia.
Qed.

Lemma field_number_known e :
  lost_payload false e = false ->
  typed_field_number (lp_frame_type (be_legacy_json e) ?? "")
  = JsMap.get (lp_frame_type (be_legacy_json e) ?? "") TYPED_PAYLOAD_FIELD_BY_FRAME_TYPE.
Proof.
  unfold lost_payload, typed_field_number. cbn [negb andb]. intros ->. by case_match.
Qed.

Lemma field_number_lost ty : ty ∈ OBJECT_PROTOTYPE_KEYS -> typed_field_number ty = Some 0.
Proof.
  intros Hin. unfold typed_field_number. rewrite bool_decide_true by done.
  assert (Hall : Forall (fun t => JsMap.get t TYPED_PAYLOAD_FIELD_BY_FRAME_TYPE = None)
    OBJECT_PROTOTYPE_KEYS) by (apply (bool_decide_unpack _); by vm_compute).
  rewrite Forall_forall in Hall. by rewrite Hall.
Qed.

Lemma schema_keys : SCHEMAS.*1 = FIELD_LEVEL_FRAME_TYPES.
Proof. done. Qed.

Lemma payload_keys f : (payload_cases f).*1 = FIELD_LEVEL_FRAME_TYPES.
Proof. done. Qed.

Lemma encode_field_level ty f :
  encodeFieldLevelPayload ty f = Ok None <-> JsMap.get ty SCHEMAS = None.
Proof.
  rewrite JsMap.get_None_keys. unfold JsMap.keys. rewrite schema_keys. unfold encodeFieldLevelPayload.
  destruct (bool_decide_reflect (ty ∈ FIELD_LEVEL_FRAME_TYPES)) as [Hin|Hin]; [|naive_solver].
  split; [|done]. destruct (JsMap.get ty (payload_cases f)) as [ws|] eqn:E.
  - by destruct (concat_writes ws).
  - apply JsMap.get_None_keys in E. unfold JsMap.keys in E. by rewrite payload_keys in E.
Qed.

(** The frame JSON of a type that has no fields. *)
Lemma typed_json_roundtrip ty fn json mid sent :
  JsMap.get ty TYPED_PAYLOAD_FIELD_BY_FRAME_TYPE = Some fn -> JsMap.get ty SCHEMAS = None ->
  valid_utf8 json = true -> json <> "" -> zlen (utf8_bytes json) <= 2 ^ 53 ->
  decodeTypedJsonPayload fn (writeBytes TYPED_FRAME_JSON_FIELD (utf8_bytes json)) mid sent
  = Ok (mkPayload json (Some ty) (Some (protoForFrameType ty))).
Proof.
  intros (Hty & _)%frame_type_of_field Hs Hj Hne Hl. unfold decodeTypedJsonPayload, decodeFieldLevelPayload.
  rewrite Hty. rewrite bool_decide_false; [|by rewrite <- schema_keys; apply JsMap.get_None_keys].
  cbn [negb mbind res_mbind].
  rewrite <- (app_nil_r (writeBytes _ _)), (decode_bytes_field _ _ _ _ _ (Some json)).
  - cbn. by rewrite (proj2 (str_truthy_true _) Hne).
  - apply else_skip_consuming. repeat constructor. intros wt a bs a' bs'. cbn [snd].
    destruct (readStringForWireType wt bs) as [[x r]|] eqn:E; cbn; [|done].
    intros [= _ <-]. by eapply reads_string.
  - by split.
  - unfold else_skip. cbn [JsMap.get]. rewrite decide_True by done.
    by rewrite read_written_string.
Qed.

(** A typed payload, field by field or as frame JSON. *)
Lemma typed_payload_roundtrip e fn b :
  valid_envelope e -> lost_payload false e = false ->
  encodeTypedJsonPayload e = Ok (Some (fn, b)) -> zlen b <= 2 ^ 53 ->
  JsMap.get (lp_frame_type (be_legacy_json e) ?? "") TYPED_PAYLOAD_FIELD_BY_FRAME_TYPE = Some fn
  /\ decodeTypedJsonPayload fn b (be_message_id e) (be_sent_at e) = Ok (received_payload false e).
Proof.
  intros (_ & _ & _ & _ & _ & _ & (Hne & Hj & _) & Hplain) Hlost%field_number_known.
  unfold encodeTypedJsonPayload, received_payload.
  destruct (lp_frame_type _) as [ty|]; cbn [from_option id] in *; [|done]. rewrite Hlost. destruct (str_truthy ty); cbn [negb]; [|done].
  destruct (JsMap.get ty TYPED_PAYLOAD_FIELD_BY_FRAME_TYPE) as [fn'|] eqn:Efn; [|done].
  unfold parseFrameJson. destruct (JSON_parse _) as [[| | | | | |f]|]; cbn [mbind res_mbind]; try done.
  specialize (Hplain f eq_refl).
  destruct (encodeFieldLevelPayload ty f) as [[bs|]|] eqn:Ef; cbn [mbind res_mbind]; [| |done];
    intros [= <- <-] Hl; (split; [done|]).
  - destruct (JsMap.get ty SCHEMAS) as [schema|] eqn:Es;
      [|apply (encode_field_level ty f) in Es; congruence].
    unfold decodeTypedJsonPayload. rewrite (field_level_roundtrip ty fn' f bs) by done.
    cbn [mbind res_mbind].
    by destruct (received_type ty (be_message_id e) (be_sent_at e) f schema Es) as [-> ->].
  - apply encode_field_level in Ef as Es. rewrite Es. pose proof (zlen_writeBytes TYPED_FRAME_JSON_FIELD (utf8_bytes (lp_json (be_legacy_json e)))).
    apply typed_json_roundtrip; (done || lia).
Qed.

Definition payload_write (force : bool) (e : BudEnvelope) : res bytes :=
  typedPayload ← (if force then Ok None else encodeTypedJsonPayload e);
  match typedPayload with
  | Some (fieldNumber, b) => Ok (writeMessage fieldNumber b)
  | None => b ← encodeLegacyJsonPayload e; Ok (writeMessage LEGACY_JSON_PAYLOAD_FIELD b)
  end.

Lemma untyped_payload e :
  encodeTypedJsonPayload e = Ok None -> received_payload false e = received_legacy (be_legacy_json e).
Proof.
  unfold encodeTypedJsonPayload, received_payload.
  destruct (lp_frame_type _) as [ty|]; [|done]. cbn [from_option id].
  destruct (str_truthy ty) eqn:Et; cbn [negb].
  - unfold typed_field_number. destruct (JsMap.get ty TYPED_PAYLOAD_FIELD_BY_FRAME_TYPE);
      [|done].
    destruct (parseFrameJson _) as [f|]; cbn [mbind res_mbind]; [|done].
    by destruct (encodeFieldLevelPayload ty f) as [[]|].
  - assert (ty = "") as ->; [|done]. by destruct ty.
Qed.

Lemma payload_write_cases force e pb :
  valid_envelope e -> lost_payload force e = false ->
  payload_write force e = Ok pb -> zlen pb <= 2 ^ 53 ->
  wrote_env (payload_write force e) (upd_legacy (received_payload force e))
  \/ exists fn b, wrote_env (payload_write force e) (upd_typed fn b)
     /\ decodeTypedJsonPayload fn b (be_message_id e) (be_sent_at e) = Ok (received_payload force e).
Proof.
  intros Hv Hlost E Hl. pose proof Hv as (_ & _ & _ & _ & _ & _ & Hp & _).
  unfold payload_write in *.
  assert (Hleg : received_payload force e = received_legacy (be_legacy_json e) ->
    (b ← encodeLegacyJsonPayload e; Ok (writeMessage LEGACY_JSON_PAYLOAD_FIELD b)) = Ok pb ->
    wrote_env (b ← encodeLegacyJsonPayload e; Ok (writeMessage LEGACY_JSON_PAYLOAD_FIELD b))
      (upd_legacy (received_payload force e))).
  { intros ->. destruct (encodeLegacyJsonPayload e) as [b|] eqn:Eb; cbn [mbind res_mbind]; [|done].
    intros _. by apply wrote_legacy_payload. }
  destruct force; cbn [mbind res_mbind] in *; [by left; apply Hleg|].
  destruct (encodeTypedJsonPayload e) as [[[fn b]|]|] eqn:Et; cbn [mbind res_mbind] in *; [| |done].
  - right. exists fn, b. simplify_eq. pose proof (zlen_writeBytes fn b). unfold writeMessage in *.
    destruct (typed_payload_roundtrip e fn b Hv Hlost Et) as [Hfn Hdec]; [lia|].
    split; [by eapply wrote_typed | done].
  - left. apply Hleg; [by apply untyped_payload | done].
Qed.

Lemma concat_writes_last ws w bs :
  concat_writes (ws ++ [w]) = Ok bs -> exists b, w = Ok b /\ zlen b <= zlen bs.
Proof.
  revert bs. induction ws as [|w' ws IH]; intros bs; cbn [app concat_writes].
  - destruct w as [b|]; cbn [mbind res_mbind]; [|done]. intros [= <-]. exists b.
    rewrite zlen_app, zlen_nil. split; [done | lia].
  - destruct w' as [b'|]; cbn [mbind res_mbind]; [|done].
    destruct (concat_writes _) as [b2|]; cbn [mbind res_mbind]; [|done]. intros [= <-].
    destruct (IH b2 eq_refl) as (b & -> & Hb). exists b. split; [done|].
    rewrite zlen_app. pose proof (zlen_nonneg b'). lia.
Qed.

(** The writes before the payload, and their effect on the decoder's object. *)
Definition head_writes (e : BudEnvelope) : list (res bytes) :=
  [Ok (writeUint32 1 (be_envelope_version e)); Ok (writeString 2 (be_message_id e));
   writeOptionalString 3 (be_correlation_id e); writeOptionalString 4 (be_operation_id e);
   writeOptionalString 5 (be_stream_id e); writeOptionalString 6 (be_trace_id e);
   writeOptionalString 7 (be_bud_id e); writeOptionalString 8 (be_device_session_id e);
   writeOptionalString 9 (be_transport_session_id e); Ok (writeString 10 (be_sent_at e));
   Ok (writeEnum 11 (TRAFFIC_CLASS_PROTO_VALUES (be_traffic_class e)));
   match be_transport_kind e with
   | Some k => Ok (writeEnum 12 (TRANSPORT_KIND_PROTO_VALUES k))
   | None => Ok []
   end].

Lemma envelope_writes force e :
  encodeBudEnvelope e force = concat_writes (head_writes e ++ [payload_write force e]).
Proof. reflexivity. Qed.

Definition head_updates (e : BudEnvelope) : list (decoded_envelope -> decoded_envelope) :=
  [upd_version BUD_ENVELOPE_VERSION; upd_string 2 (be_message_id e);
   upd_text 3 (be_correlation_id e); upd_text 4 (be_operation_id e); upd_text 5 (be_stream_id e);
   upd_text 6 (be_trace_id e); upd_text 7 (be_bud_id e); upd_text 8 (be_device_session_id e);
   upd_text 9 (be_transport_session_id e); upd_string 10 (be_sent_at e);
   upd_class (be_traffic_class e); upd_kind (be_transport_kind e)].

Lemma wrote_head e : valid_envelope e -> Forall2 (wrote read_envelope_field) (head_writes e) (head_updates e).
Proof.
  intros (Hver & _ & Hm & _ & Hs & Ht & _ & _). unfold head_writes, head_updates. rewrite Hver.
  rewrite !Forall_cons in Ht. destruct Ht as (? & ? & ? & ? & ? & ? & ? & _).
  apply List.Forall2_cons; [by apply wrote_version|]. apply List.Forall2_cons; [by apply wrote_string|].
  do 7 (apply List.Forall2_cons; [by apply wrote_text|]). apply List.Forall2_cons; [by apply wrote_string|].
  apply List.Forall2_cons; [apply wrote_class|]. apply List.Forall2_cons; [apply wrote_kind|].
  apply List.Forall2_nil.
Qed.

Lemma wrote_envelope force e u :
  valid_envelope e -> wrote_env (payload_write force e) u ->
  wrote_env (encodeBudEnvelope e force) (apply_all (head_updates e ++ [u])).
Proof.
  intros Hv Hu. rewrite envelope_writes. apply wrote_concat, Forall2_app; [by apply wrote_head|].
  apply List.Forall2_cons; [exact Hu | apply List.Forall2_nil].
Qed.

Definition empty_decoded : decoded_envelope := mkDecoded None [] None None None None.

Lemma head_decoded e :
  let d := apply_all (head_updates e) empty_decoded in
  de_version d = Some 1 /\ de_traffic_class d = Some (be_traffic_class e)
  /\ de_transport_kind d = be_transport_kind e /\ de_payload d = None /\ de_typedPayload d = None
  /\ text 2 d = Some (be_message_id e) /\ text 10 d = Some (be_sent_at e)
  /\ text 3 d = nonempty (be_correlation_id e) /\ text 4 d = nonempty (be_operation_id e)
  /\ text 5 d = nonempty (be_stream_id e) /\ text 6 d = nonempty (be_trace_id e)
  /\ text 7 d = nonempty (be_bud_id e) /\ text 8 d = nonempty (be_device_session_id e)
  /\ text 9 d = nonempty (be_transport_session_id e).
Proof.
  unfold apply_all, head_updates, upd_text.
  destruct (nonempty (be_correlation_id e)), (nonempty (be_operation_id e)),
    (nonempty (be_stream_id e)), (nonempty (be_trace_id e)), (nonempty (be_bud_id e)),
    (nonempty (be_device_session_id e)), (nonempty (be_transport_session_id e)),
    (be_transport_kind e); by vm_compute.
Qed.

(** A payload in field 0 is nowhere. *)
Lemma lost_payload_write e pb :
  lost_payload false e = true -> payload_write false e = Ok pb -> exists b, pb = writeBytes 0 b.
Proof.
  unfold lost_payload, payload_write, encodeTypedJsonPayload. cbn [negb andb mbind res_mbind].
  intros Hin%bool_decide_eq_true. destruct (lp_frame_type _) as [ty|]; cbn [from_option id] in Hin.
  2: { by apply (bool_decide_pack _) in Hin. }
  assert (str_truthy ty = true) as ->.
  { destruct ty; [|done]. by apply (bool_decide_pack _) in Hin. }
  rewrite (field_number_lost ty Hin). cbn [negb].
  destruct (parseFrameJson _) as [f|]; cbn [mbind res_mbind]; [|done].
  destruct (encodeFieldLevelPayload ty f) as [[b|]|]; cbn [mbind res_mbind]; [| |done];
    intros [= <-]; by eexists.
Qed.

Definition MISSING_PAYLOAD : string := "protobuf envelope missing payload".

Lemma envelope_decodes force e bs :
  valid_envelope e -> encodeBudEnvelope e force = Ok bs -> zlen bs <= 2 ^ 53 ->
  decodeBudEnvelope bs
  = if lost_payload force e then Err MISSING_PAYLOAD else Ok (received_envelope force e).
Proof.
  intros Hv E Hl.
  destruct (concat_writes_last (head_writes e) (payload_write force e) bs) as (pb & Epb & Hpb);
    [by rewrite <- envelope_writes|].
  pose proof Hv as (_ & Hm & _ & Hs & _).
  pose proof (head_decoded e) as
    (Hver & Hc & Hk & Hp & Htp & H2 & H10 & H3 & H4 & H5 & H6 & H7 & H8 & H9).
  assert (Hcases : if lost_payload force e then wrote_env (payload_write force e) (fun d => d)
    else wrote_env (payload_write force e) (upd_legacy (received_payload force e))
      \/ exists fn b, wrote_env (payload_write force e) (upd_typed fn b)
         /\ decodeTypedJsonPayload fn b (be_message_id e) (be_sent_at e) = Ok (received_payload force e)).
  { destruct (lost_payload force e) eqn:El; [|by apply (payload_write_cases force e pb); (done || lia)].
    destruct force; [done|]. destruct (lost_payload_write e pb El Epb) as [b ->].
    rewrite Epb. apply wrote_lost. }
  destruct (lost_payload force e);
    [pose proof Hcases as Hw | destruct Hcases as [Hw|(fn & b & Hw & Hdec)]];
    unfold decodeBudEnvelope; fold empty_decoded;
    rewrite (wrote_message _ _ _ _ _ (wrote_envelope force e _ Hv Hw) E Hl); cbn [mbind res_mbind];
    unfold apply_all in *; rewrite foldl_app; cbn [foldl];
    revert Hver Hc Hk Hp Htp H2 H10 H3 H4 H5 H6 H7 H8 H9;
    generalize (foldl (fun a u => u a) empty_decoded (head_updates e)); unfold text;
    intros d Hver Hc Hk Hp Htp H2 H10 H3 H4 H5 H6 H7 H8 H9;
    cbn [upd_legacy upd_typed de_version de_strings de_traffic_class de_transport_kind de_payload
         de_typedPayload];
    rewrite Hver, H2, H10, Hc, Hm, Hs, ?Hp; cbn [negb andb]; rewrite ?Htp, ?Hdec; cbn [mbind res_mbind];
    [done | by rewrite H3, H4, H5, H6, H7, H8, H9, Hk ..].
Qed.
End Envelope.
