(* ===== verification/WireTerm.v ===== *)
(** The decoders of the wire codec end: no loop over the fields of a message
    runs out of the fuel it is given, the number of bytes, whatever the bytes. *)
From Stdlib Require Import ZArith QArith Qround Lia Strings.Byte.
From stdpp Require Import base tactics strings gmap sorting option pretty.
From stdpp Require Import list.
From S2P Require Import Prelude JsRuntime Base64 Json Wire WireFrames WireRound WireEnvelope.
Open Scope Z_scope.

(** A result that is not the end of the fuel. *)
Definition ends {A} (r : res A) : Prop := r <> Err "out of fuel".

Definition ending {A} (h : handler A) : Prop := forall fn wt a bs, ends (h fn wt a bs).
Definition action_ending {A} (act : action A) : Prop := forall wt a bs, ends (act wt a bs).

Lemma ends_bind {A B} (r : res A) (k : A -> res B) : ends r -> (forall a, ends (k a)) -> ends (r ≫= k).
Proof. intros Hr Hk. destruct r as [a|m]; cbn; [apply Hk|]. intros E. apply Hr. congruence. Qed.

Lemma ends_ok {A} (a : A) : ends (Ok a).
Proof. done. Qed.

Create HintDb ends.
#[export] Hint Resolve ends_ok : ends.

(** Binds, tests and matches down to reads that end. *)
Ltac solve_ends :=
  repeat first
    [ progress intros
    | solve [auto with ends]
    | apply ends_bind
    | match goal with
      | |- ends (Err _) => discriminate
      | |- ends (if ?b then _ else _) => destruct b
      | |- ends (match ?x with _ => _ end) => destruct x
      end ].

Lemma readVarint_ends bs : ends (readVarint bs).
Proof.
  unfold readVarint. generalize 0 at 1 as shift. generalize 0 as result. induction bs; cbn; solve_ends.
Qed.
#[export] Hint Resolve readVarint_ends : ends.

Lemma readTag_ends bs : ends (readTag bs).
Proof. unfold readTag. solve_ends. Qed.
Lemma readVarintFor_ends wt bs : ends (readVarintForWireType wt bs).
Proof. unfold readVarintForWireType. solve_ends. Qed.
Lemma readBytesFor_ends wt bs : ends (readBytesForWireType wt bs).
Proof. unfold readBytesForWireType. solve_ends. Qed.
#[export] Hint Resolve readTag_ends readVarintFor_ends readBytesFor_ends : ends.
Lemma readStringFor_ends wt bs : ends (readStringForWireType wt bs).
Proof. unfold readStringForWireType. solve_ends. Qed.
Lemma readInt32_ends wt bs : ends (readInt32Varint wt bs).
Proof. unfold readInt32Varint. solve_ends. Qed.
Lemma skip_ends wt bs : ends (skip wt bs).
Proof. unfold skip. solve_ends. Qed.
#[export] Hint Resolve readStringFor_ends readInt32_ends skip_ends : ends.

Lemma readSafeUint64_ends name wt bs : ends (readSafeUint64 name wt bs).
Proof.
  unfold readSafeUint64. apply ends_bind; [auto with ends|]. intros [v r].
  destruct (_ <? v); [|done]. intros [= E]. apply (f_equal String.length) in E.
  rewrite str_length_app in E. cbn in E. lia.
Qed.
#[export] Hint Resolve readSafeUint64_ends : ends.

(** ** Loops *)

Lemma fields_loop_ends {A} (h : handler A) n a bs :
  consuming h -> ending h -> (length bs <= n)%nat -> ends (fields_loop n h a bs).
Proof.
  intros Hc Hh. revert a bs. induction n as [|n IH]; intros a bs Hn.
  - destruct bs; [done | cbn in Hn; lia].
  - destruct bs as [|b bs]; [done|]. cbn [fields_loop].
    destruct (readTag (b :: bs)) as [[[fn wt] r]|e] eqn:E; cbn [mbind res_mbind].
    2: { pose proof (readTag_ends (b :: bs)) as Ht. rewrite E in Ht. intros E'. apply Ht. congruence. }
    apply readTag_consumes in E.
    destruct (h fn wt a r) as [[a' r']|e] eqn:Eh; cbn [mbind res_mbind].
    2: { pose proof (Hh fn wt a r) as Ht. rewrite Eh in Ht. intros E'. apply Ht. congruence. }
    apply Hc in Eh. apply IH. lia.
Qed.

Lemma scan_loop_ends {B} (h : Z -> Z -> bytes -> res (B + bytes)) n bs :
  (forall fn wt bs bs', h fn wt bs = Ok (inr bs') -> (length bs' <= length bs)%nat) ->
  (forall fn wt bs, ends (h fn wt bs)) -> (length bs <= n)%nat -> ends (scan_loop n h bs).
Proof.
  intros Hc Hh. revert bs. induction n as [|n IH]; intros bs Hn.
  - destruct bs; [done | cbn in Hn; lia].
  - destruct bs as [|b bs]; [done|]. cbn [scan_loop].
    destruct (readTag (b :: bs)) as [[[fn wt] r]|e] eqn:E; cbn [mbind res_mbind].
    2: { pose proof (readTag_ends (b :: bs)) as Ht. rewrite E in Ht. intros E'. apply Ht. congruence. }
    apply readTag_consumes in E.
    destruct (h fn wt r) as [[x|r']|e] eqn:Eh; cbn [mbind res_mbind]; [done| |].
    2: { pose proof (Hh fn wt r) as Ht. rewrite Eh in Ht. intros E'. apply Ht. congruence. }
    apply Hc in Eh. apply IH. lia.
Qed.

Lemma scan_fields_ends {B} (h : Z -> Z -> bytes -> res (B + bytes)) bs :
  (forall fn wt bs bs', h fn wt bs = Ok (inr bs') -> (length bs' <= length bs)%nat) ->
  (forall fn wt bs, ends (h fn wt bs)) -> ends (scan_fields h bs).
Proof. intros Hc Hh. by apply scan_loop_ends. Qed.

(** ** Messages *)

(** A message decoded by cases: each consumes and ends. *)
Definition act_ok {A} (act : action A) : Prop := action_consuming act /\ action_ending act.

Lemma else_skip_ends {A} (cases : list (Z * action A)) a bs :
  Forall (fun c => act_ok c.2) cases -> ends (decode_fields (else_skip cases) a bs).
Proof.
  intros Hall. apply fields_loop_ends; [apply else_skip_consuming | | done].
  - eapply Forall_impl; [exact Hall|]. by intros c [Hc _].
  - intros fn wt x b. unfold else_skip. destruct (JsMap.get fn cases) as [act|] eqn:E; [|solve_ends].
    apply JsMap.get_Some_elem in E. rewrite Forall_forall in Hall. by apply (Hall _ E).
Qed.

(** A case that reads a string. *)
Lemma text_ok {A} (f : string -> A -> A) :
  act_ok (fun wt a bs => '(s, bs) ← readStringForWireType wt bs; Ok (f s a, bs)).
Proof.
  split; [|intros wt a bs; solve_ends]. intros wt a bs a' bs'.
  destruct (readStringForWireType wt bs) as [[s r]|] eqn:E; cbn; [|done].
  intros [= _ <-]. by eapply reads_string.
Qed.

Lemma unsupported_ends {A} fn : ends (@UnsupportedBudEnvelopePayloadError A fn).
Proof. discriminate. Qed.
#[export] Hint Resolve unsupported_ends : ends.

Section Decoders.
Context `{NumberText} `{DateParse}.

Lemma parseJsonBytes_ends b : ends (parseJsonBytes b).
Proof. unfold parseJsonBytes. solve_ends. Qed.
#[local] Hint Resolve parseJsonBytes_ends : ends.

Ltac act := split; [auto with wire_actions | intros wt x b; cbv beta delta
  [putString putBool putNumber putUint64 putInt32 putJson putBase64 putEnum putMessage put
   pushString pushMessage]; solve_ends].

#[local] Hint Resolve putString_consuming putBool_consuming putNumber_consuming putUint64_consuming
  putInt32_consuming putJson_consuming putBase64_consuming putEnum_consuming putMessage_consuming
  mergeMap_consuming pushString_consuming pushMessage_consuming : wire_actions.

Lemma putString_ok k : act_ok (putString k).
Proof. act. Qed.
Lemma putBool_ok k : act_ok (putBool k).
Proof. act. Qed.
Lemma putNumber_ok k : act_ok (putNumber k).
Proof. act. Qed.
Lemma putUint64_ok k name : act_ok (putUint64 k name).
Proof. act. Qed.
Lemma putInt32_ok k : act_ok (putInt32 k).
Proof. act. Qed.
Lemma putJson_ok k : act_ok (putJson k).
Proof. act. Qed.
Lemma putBase64_ok k : act_ok (putBase64 k).
Proof. act. Qed.
Lemma putEnum_ok k t d : act_ok (putEnum k t d).
Proof. act. Qed.
Lemma pushString_ok k : act_ok (pushString k).
Proof. act. Qed.
Lemma putMessage_ok k dec : (forall b, ends (dec b)) -> act_ok (putMessage k dec).
Proof. intros Hdec. act. Qed.
Lemma pushMessage_ok k dec : (forall b, ends (dec b)) -> act_ok (pushMessage k dec).
Proof. intros Hdec. act. Qed.
Lemma mergeMap_ok k : act_ok (mergeMap k).
Proof.
  split; [auto with wire_actions|]. intros wt x b. unfold mergeMap. apply ends_bind; [auto with ends|].
  intros [e r]. apply ends_bind; [|done]. unfold decodeStringMapEntry. apply ends_bind; [|solve_ends].
  apply else_skip_ends.
  apply Forall_cons_2; [apply (text_ok (fun s kv => (Some s, kv.2)))|].
  apply Forall_cons_2; [apply (text_ok (fun s kv => (kv.1, Some s)))|]. apply Forall_nil_2.
Qed.
#[local] Hint Resolve putString_ok putBool_ok putNumber_ok putUint64_ok putInt32_ok putJson_ok
  putBase64_ok putEnum_ok pushString_ok putMessage_ok pushMessage_ok mergeMap_ok : wire_actions.

Ltac cases_ok := repeat (apply Forall_cons_2; [solve [cbn [snd]; auto with wire_actions]|]); apply Forall_nil_2.

Lemma decodeBudError_ends b : ends (decodeBudError b).
Proof. apply else_skip_ends. cases_ok. Qed.
Lemma decodeTerminalEnsureConfig_ends b : ends (decodeTerminalEnsureConfig b).
Proof. apply else_skip_ends. cases_ok. Qed.
#[local] Hint Resolve decodeBudError_ends decodeTerminalEnsureConfig_ends : wire_actions.
Lemma decodeOperationStatus_ends b : ends (decodeOperationStatus b).
Proof. apply else_skip_ends. cases_ok. Qed.
Lemma decodeStreamStatus_ends b : ends (decodeStreamStatus b).
Proof. apply else_skip_ends. cases_ok. Qed.
#[local] Hint Resolve decodeOperationStatus_ends decodeStreamStatus_ends : wire_actions.

Lemma field_readers_end a bs :
  Forall (fun kv : string * handler fields => ends (decode_fields kv.2 a bs)) field_readers.
Proof.
  unfold field_readers.
  repeat (apply Forall_cons_2; [cbn [snd]; apply else_skip_ends; cases_ok|]). apply Forall_nil_2.
Qed.

Lemma payloadContainsFrameJson_ends b : ends (payloadContainsFrameJson b).
Proof.
  unfold payloadContainsFrameJson. apply ends_bind; [|solve_ends].
  apply (scan_fields_ends frame_json_scan); [apply frame_json_scan_consumes|].
  intros fn wt bs. unfold frame_json_scan. solve_ends.
Qed.
#[local] Hint Resolve payloadContainsFrameJson_ends : ends.

Lemma decodeFieldLevelPayload_ends fn b mid sent : ends (decodeFieldLevelPayload fn b mid sent).
Proof.
  unfold decodeFieldLevelPayload. destruct (JsMap.get fn _) as [ty|]; [|done].
  destruct (negb _); [done|]. apply ends_bind; [auto with ends|]. intros [|]; [done|].
  apply ends_bind; [|done]. destruct (JsMap.get ty field_readers) as [h|] eqn:E; cbn [from_option id].
  - apply JsMap.get_Some_elem in E.
    pose proof (field_readers_end (baseFrame ty mid sent) b) as Hall. rewrite Forall_forall in Hall.
    apply (Hall _ E).
  - apply else_skip_ends, Forall_nil_2.
Qed.

Lemma decodeLegacyJsonPayload_ends b : ends (decodeLegacyJsonPayload b).
Proof.
  unfold decodeLegacyJsonPayload. apply ends_bind; [|solve_ends]. apply else_skip_ends.
  apply Forall_cons_2; [apply (text_ok (fun s a => (Some s, a.1.2, a.2)))|].
  apply Forall_cons_2; [apply (text_ok (fun s a => (a.1.1, Some s, a.2)))|].
  apply Forall_cons_2; [apply (text_ok (fun s a => (a.1.1, a.1.2, Some s)))|]. apply Forall_nil_2.
Qed.
#[local] Hint Resolve decodeFieldLevelPayload_ends decodeLegacyJsonPayload_ends : ends.

Lemma decodeTypedJsonPayload_ends fn b mid sent : ends (decodeTypedJsonPayload fn b mid sent).
Proof.
  unfold decodeTypedJsonPayload. apply ends_bind; [auto with ends|]. intros [f|]; [done|].
  apply ends_bind; [|solve_ends]. apply else_skip_ends.
  apply Forall_cons_2; [apply (text_ok (fun s _ => Some s)) | apply Forall_nil_2].
Qed.
#[local] Hint Resolve decodeTypedJsonPayload_ends : ends.

Lemma read_envelope_ending : ending read_envelope_field.
Proof. intros fn wt d bs. unfold read_envelope_field. solve_ends. Qed.

Lemma decodeBudEnvelope_ends b : ends (decodeBudEnvelope b).
Proof.
  unfold decodeBudEnvelope. apply ends_bind.
  - apply fields_loop_ends; [apply envelope_consuming | apply read_envelope_ending | done].
  - intros d. solve_ends.
Qed.

Lemma decodeBudFrame_ends b : ends (decodeBudFrame b).
Proof.
  unfold decodeBudFrame, decodeLegacyJsonFrame. apply ends_bind; [apply decodeBudEnvelope_ends|].
  intros e. solve_ends.
Qed.
End Decoders.
