(* ===== verification/WireCodec.v ===== *)
(** The claims on the wire codec: which frames and envelopes survive it, and as
    what; unknown payloads are refused (C20, C21); its decoders terminate on every
    input (C22); varints are exact and bounded (C23). *)
From Stdlib Require Import ZArith QArith Qround Lia Strings.Byte.
From stdpp Require Import base tactics strings gmap sorting option pretty.
From stdpp Require Import list.
From S2P Require Import Prelude JsRuntime Base64 Json Wire WireFrames WireRound WireProps WireEnvelope WireTerm.
Open Scope Z_scope.

(** ** Which encoding an envelope has *)

Section Encoding.
Context `{NumberText} `{DateParse}.

Definition case_scan (fieldNumber wireType : Z) (bs : bytes) : res (string + bytes) :=
  if fieldNumber =? LEGACY_JSON_PAYLOAD_FIELD then Ok (inl "legacy_json")
  else
    match JsMap.get fieldNumber FRAME_TYPE_BY_TYPED_PAYLOAD_FIELD with
    | Some typedFrame => Ok (inl typedFrame)
    | None =>
        if isPayloadFieldNumber fieldNumber then UnsupportedBudEnvelopePayloadError fieldNumber
        else bs ← skip wireType bs; Ok (inr bs)
    end.

Lemma case_scan_consumes fn wt bs bs' :
  case_scan fn wt bs = Ok (inr bs') -> (length bs' <= length bs)%nat.
Proof.
  unfold case_scan. destruct (_ =? _); [done|]. destruct (JsMap.get fn _); [done|].
  destruct (isPayloadFieldNumber fn); [done|].
  destruct (skip wt bs) as [r|] eqn:E; cbn; [|done]. intros [= ->]. by eapply skip_consumes.
Qed.

(** The fields before the payload. *)
Definition head_raws (e : BudEnvelope) : list (list raw) :=
  let opt fn (o : option string) := option_list (RBytes fn ∘ utf8_bytes <$> nonempty o) in
  [[RVarint 1 (be_envelope_version e)]; [RBytes 2 (utf8_bytes (be_message_id e))];
   opt 3 (be_correlation_id e); opt 4 (be_operation_id e); opt 5 (be_stream_id e);
   opt 6 (be_trace_id e); opt 7 (be_bud_id e); opt 8 (be_device_session_id e);
   opt 9 (be_transport_session_id e); [RBytes 10 (utf8_bytes (be_sent_at e))];
   [RVarint 11 (TRAFFIC_CLASS_PROTO_VALUES (be_traffic_class e))];
   option_list (RVarint 12 ∘ TRANSPORT_KIND_PROTO_VALUES <$> be_transport_kind e)].

Definition head_bytes (e : BudEnvelope) : bytes := concat (emit <$> concat (head_raws e)).

Definition writes_raws (w : res bytes) (rs : list raw) : Prop := w = Ok (concat (emit <$> rs)).

Lemma writes_one r : writes_raws (Ok (emit r)) [r].
Proof. unfold writes_raws. cbn. by rewrite app_nil_r. Qed.

Lemma writes_optional fn o :
  writes_raws (writeOptionalString fn o) (option_list (RBytes fn ∘ utf8_bytes <$> nonempty o)).
Proof.
  destruct o as [s|]; [|done]. unfold nonempty. cbn. destruct (str_truthy s); [|done].
  apply (writes_one (RBytes fn (utf8_bytes s))).
Qed.

Lemma concat_raws ws rss w :
  Forall2 writes_raws ws rss ->
  concat_writes (ws ++ [w]) = (b ← w; Ok (concat (emit <$> concat rss) ++ b)).
Proof.
  induction 1 as [|w' rs ws rss Hw _ IH]; cbn [app concat_writes concat].
  - destruct w; cbn; [by rewrite app_nil_r | done].
  - rewrite Hw, IH. cbn [mbind res_mbind]. destruct w as [b|]; cbn [mbind res_mbind]; [|done].
    by rewrite fmap_app, concat_app, app_assoc.
Qed.

Lemma head_writes_raws e : Forall2 writes_raws (head_writes e) (head_raws e).
Proof.
  unfold head_writes, head_raws.
  apply List.Forall2_cons; [exact (writes_one (RVarint 1 (be_envelope_version e)))|].
  apply List.Forall2_cons; [exact (writes_one (RBytes 2 (utf8_bytes (be_message_id e))))|].
  do 7 (apply List.Forall2_cons; [apply writes_optional|]).
  apply List.Forall2_cons; [exact (writes_one (RBytes 10 (utf8_bytes (be_sent_at e))))|].
  apply List.Forall2_cons;
    [exact (writes_one (RVarint 11 (TRAFFIC_CLASS_PROTO_VALUES (be_traffic_class e))))|].
  apply List.Forall2_cons; [|apply List.Forall2_nil].
  destruct (be_transport_kind e) as [k|]; [|done].
  exact (writes_one (RVarint 12 (TRANSPORT_KIND_PROTO_VALUES k))).
Qed.

Lemma envelope_bytes force e :
  encodeBudEnvelope e force = (pb ← payload_write force e; Ok (head_bytes e ++ pb)).
Proof. rewrite envelope_writes. apply concat_raws, head_writes_raws. Qed.

(** The decoder after the fields before the payload. *)
Lemma decode_head e rest :
  valid_envelope e -> zlen (head_bytes e) <= 2 ^ 53 ->
  decode_fields read_envelope_field empty_decoded (head_bytes e ++ rest)
  = decode_fields read_envelope_field (apply_all (head_updates e) empty_decoded) rest.
Proof.
  intros Hv Hl.
  refine (wrote_concat _ _ _ (wrote_head e Hv) (head_bytes e) _ Hl empty_decoded rest).
  pose proof (concat_raws (head_writes e) (head_raws e) (Ok []) (head_writes_raws e)) as E.
  cbn [mbind res_mbind] in E. rewrite app_nil_r in E. fold (head_bytes e) in E.
  transitivity (concat_writes (head_writes e ++ [Ok []])); [|exact E].
  clear. generalize (head_writes e) as ws. intros ws.
  induction ws as [|w ws IH]; [done|]. cbn [app concat_writes]. by rewrite IH.
Qed.

Lemma head_numbers e : Forall (fun r => 1 <= raw_number r <= 12) (concat (head_raws e)).
Proof.
  apply Forall_concat. unfold head_raws.
  repeat (apply Forall_cons_2; [try (match goal with |- context [nonempty ?o] => destruct (nonempty o) end);
    try (destruct (be_transport_kind e)); repeat constructor; cbn; lia|]). constructor.
Qed.

(** A scan that looks for the payload reaches it. *)
Lemma scan_head {B} (h : Z -> Z -> bytes -> res (B + bytes)) e rest :
  (forall fn wt bs bs', h fn wt bs = Ok (inr bs') -> (length bs' <= length bs)%nat) ->
  (forall fn wt bs, 0 <= fn <= 12 -> h fn wt bs = (bs ← skip wt bs; Ok (inr bs))) ->
  zlen (head_bytes e) <= 2 ^ 53 ->
  scan_fields h (head_bytes e ++ rest) = scan_fields h rest.
Proof.
  intros Hc Hh Hl. apply scan_all_skipped; [done | done|].
  eapply Forall_impl; [apply head_numbers|]. intros r Hr. cbn in Hr. split; [split; lia|].
  intros wt bs. apply Hh. lia.
Qed.

Lemma head_not_typed fn : 0 <= fn <= 12 ->
  (fn =? LEGACY_JSON_PAYLOAD_FIELD) = false
  /\ JsMap.get fn FRAME_TYPE_BY_TYPED_PAYLOAD_FIELD = None /\ isPayloadFieldNumber fn = false.
Proof.
  intros Hfn. unfold isPayloadFieldNumber, LEGACY_JSON_PAYLOAD_FIELD, PAYLOAD_FIELD_MIN.
  rewrite (proj2 (Z.eqb_neq _ _)), (proj2 (Z.leb_gt _ _)) by lia. split_and!; [done | | done].
  apply JsMap.get_None_keys. unfold JsMap.keys. intros Hin.
  assert (Hall : Forall (fun n => 12 < n) FRAME_TYPE_BY_TYPED_PAYLOAD_FIELD.*1)
    by (apply (bool_decide_unpack _); by vm_compute).
  rewrite Forall_forall in Hall. specialize (Hall fn Hin). lia.
Qed.

(** The type of the typed payload an envelope is sent with, if it is. *)
Definition typed_payload (force : bool) (e : BudEnvelope) : option string :=
  ty ← (if force then None else lp_frame_type (be_legacy_json e));
  if bool_decide (ty ∈ TYPED_PAYLOAD_FIELD_BY_FRAME_TYPE.*1) then Some ty else None.

Lemma payload_write_field force e pb :
  lost_payload force e = false -> payload_write force e = Ok pb ->
  (typed_payload force e = None /\ exists b, pb = writeBytes LEGACY_JSON_PAYLOAD_FIELD b)
  \/ exists ty fn b, typed_payload force e = Some ty /\ pb = writeBytes fn b
     /\ JsMap.get ty TYPED_PAYLOAD_FIELD_BY_FRAME_TYPE = Some fn
     /\ exists f, JSON_parse (lp_json (be_legacy_json e)) = Some (JObj f)
        /\ (encodeFieldLevelPayload ty f = Ok (Some b)
            \/ JsMap.get ty SCHEMAS = None
               /\ b = writeBytes TYPED_FRAME_JSON_FIELD (utf8_bytes (lp_json (be_legacy_json e)))).
Proof.
  intros Hlost. unfold payload_write, encodeTypedJsonPayload, typed_payload.
  assert (Hleg : (b ← encodeLegacyJsonPayload e; Ok (writeMessage LEGACY_JSON_PAYLOAD_FIELD b)) = Ok pb ->
    exists b, pb = writeBytes LEGACY_JSON_PAYLOAD_FIELD b).
  { destruct (encodeLegacyJsonPayload e) as [b|]; cbn [mbind res_mbind]; [|done].
    intros [= <-]. by exists b. }
  destruct force; cbn [mbind res_mbind option_bind]; [left; auto|].
  apply field_number_known in Hlost.
  destruct (lp_frame_type _) as [ty|]; cbn [from_option id] in Hlost; cbn [mbind res_mbind option_bind]; [|left; auto].
  destruct (str_truthy ty) eqn:Et; cbn [negb mbind res_mbind].
  2: { assert (ty = "") as -> by (by destruct ty). left. split; [done | auto]. }
  rewrite Hlost.
  destruct (JsMap.get ty TYPED_PAYLOAD_FIELD_BY_FRAME_TYPE) as [fn|] eqn:Efn; cbn [mbind res_mbind].
  2: { apply JsMap.get_None_keys in Efn. rewrite bool_decide_false by done. left. auto. }
  pose proof (JsMap.get_Some_elem _ _ _ Efn) as Hin.
  rewrite bool_decide_true by (apply list_elem_of_fmap; by exists (ty, fn)).
  unfold parseFrameJson. destruct (JSON_parse _) as [[| | | | | |f]|]; cbn [mbind res_mbind]; try done.
  destruct (encodeFieldLevelPayload ty f) as [[b|]|] eqn:Ef; cbn [mbind res_mbind]; [| |done];
    intros [= <-]; right; eexists ty, fn, _; (split_and!; [done | done | done|]); exists f; split; auto.
  right. split; [by apply (encode_field_level ty f) | done].
Qed.

Definition payload_encoding (force : bool) (e : BudEnvelope) : string :=
  match typed_payload force e with
  | None => "legacy_json"
  | Some ty => if JsMap.get ty SCHEMAS then "typed_fields" else "typed_frame_json"
  end.

Definition encoding_scan (fieldNumber wireType : Z) (bs : bytes) : res (string + bytes) :=
  if fieldNumber =? LEGACY_JSON_PAYLOAD_FIELD then bs ← skip wireType bs; Ok (inl "legacy_json")
  else
    match JsMap.get fieldNumber FRAME_TYPE_BY_TYPED_PAYLOAD_FIELD with
    | Some _ =>
        '(payloadBytes, bs) ← readBytesForWireType wireType bs;
        contains ← payloadContainsFrameJson payloadBytes;
        Ok (inl (if contains : bool then "typed_frame_json" else "typed_fields"))
    | None =>
        if isPayloadFieldNumber fieldNumber then UnsupportedBudEnvelopePayloadError fieldNumber
        else bs ← skip wireType bs; Ok (inr bs)
    end.

Lemma encoding_scan_consumes fn wt bs bs' :
  encoding_scan fn wt bs = Ok (inr bs') -> (length bs' <= length bs)%nat.
Proof.
  unfold encoding_scan. destruct (_ =? _); [by destruct (skip wt bs)|].
  destruct (JsMap.get fn _).
  - destruct (readBytesForWireType wt bs) as [[b r]|]; cbn [mbind res_mbind]; [|done].
    by destruct (payloadContainsFrameJson b).
  - destruct (isPayloadFieldNumber fn); [done|].
    destruct (skip wt bs) as [r|] eqn:E; cbn; [|done]. intros [= ->]. by eapply skip_consumes.
Qed.

Lemma contains_frame_json b : payloadContainsFrameJson (writeBytes TYPED_FRAME_JSON_FIELD b) = Ok true.
Proof.
  unfold payloadContainsFrameJson. rewrite <- (app_nil_r (writeBytes _ _)).
  by rewrite (scan_answer _ TYPED_FRAME_JSON_FIELD b [] tt).
Qed.

(** The scans that look for the payload, on the fields the decoder does not know. *)
Lemma scans_head e rest :
  zlen (head_bytes e) <= 2 ^ 53 ->
  scan_fields case_scan (head_bytes e ++ rest) = scan_fields case_scan rest
  /\ scan_fields encoding_scan (head_bytes e ++ rest) = scan_fields encoding_scan rest.
Proof.
  intros Hl. split; apply scan_head; try done; try apply case_scan_consumes;
    try apply encoding_scan_consumes; intros fn wt b (E1 & E2 & E3)%head_not_typed;
    unfold case_scan, encoding_scan; by rewrite E1, E2, E3.
Qed.

Lemma scans_lost b :
  zlen (writeBytes 0 b) <= 2 ^ 53 ->
  scan_fields case_scan (writeBytes 0 b) = Ok None
  /\ scan_fields encoding_scan (writeBytes 0 b) = Ok None.
Proof.
  intros Hl. rewrite <- (app_nil_r (writeBytes 0 b)). change (writeBytes 0 b) with (emit (RBytes 0 b)).
  split; (rewrite scan_skipped; [done | | by split | done |]);
    try apply case_scan_consumes; try apply encoding_scan_consumes; intros wt bs;
    destruct (head_not_typed 0 ltac:(lia)) as (E1 & E2 & E3); unfold case_scan, encoding_scan;
    cbn [raw_number]; by rewrite E1, E2, E3.
Qed.

Lemma encoding_lost e bs :
  lost_payload false e = true -> encodeBudEnvelope e false = Ok bs -> zlen bs <= 2 ^ 53 ->
  decodeBudEnvelopePayloadCase bs = Err MISSING_PAYLOAD
  /\ decodeBudEnvelopePayloadEncoding bs = Err MISSING_PAYLOAD.
Proof.
  intros Hlost E Hl. rewrite envelope_bytes in E.
  destruct (payload_write false e) as [pb|] eqn:Epb; cbn [mbind res_mbind] in E; [|done].
  assert (bs = head_bytes e ++ pb) as -> by congruence. clear E. rewrite zlen_app in Hl.
  destruct (lost_payload_write e pb Hlost Epb) as [b ->].
  pose proof (zlen_nonneg (writeBytes 0 b)). pose proof (zlen_nonneg (head_bytes e)).
  unfold decodeBudEnvelopePayloadCase, decodeBudEnvelopePayloadEncoding. fold case_scan encoding_scan.
  destruct (scans_head e (writeBytes 0 b) ltac:(lia)) as [-> ->].
  by destruct (scans_lost b ltac:(lia)) as [-> ->].
Qed.

Lemma encoding_ok force e bs :
  valid_envelope e -> lost_payload force e = false -> encodeBudEnvelope e force = Ok bs -> zlen bs <= 2 ^ 53 ->
  decodeBudEnvelopePayloadCase bs = Ok (typed_payload force e ?? "legacy_json")
  /\ decodeBudEnvelopePayloadEncoding bs = Ok (payload_encoding force e).
Proof.
  intros (_ & _ & _ & _ & _ & _ & _ & Hplain) Hlost E Hl. rewrite envelope_bytes in E.
  destruct (payload_write force e) as [pb|] eqn:Epb; cbn [mbind res_mbind] in E; [|done].
  assert (bs = head_bytes e ++ pb) as -> by congruence. clear E. rewrite zlen_app in Hl. pose proof (zlen_nonneg pb). pose proof (zlen_nonneg (head_bytes e)).
  unfold decodeBudEnvelopePayloadCase, decodeBudEnvelopePayloadEncoding, payload_encoding.
  fold case_scan. fold encoding_scan.
  destruct (scans_head e pb ltac:(lia)) as [-> ->].
  rewrite <- (app_nil_r pb). apply payload_write_field in Epb as
    [[-> [b ->]]|(ty & fn & b & -> & -> & Hfn & f & Hf & Hb)]; [| |done].
  - pose proof (zlen_writeBytes LEGACY_JSON_PAYLOAD_FIELD b).
    rewrite (scan_answer case_scan _ b [] "legacy_json"), (scan_answer encoding_scan _ b [] "legacy_json");
      [done | by split | | by split | done].
    unfold encoding_scan. cbn [Z.eqb LEGACY_JSON_PAYLOAD_FIELD Pos.eqb].
    by rewrite skip_bytes by lia.
  - apply frame_type_of_field in Hfn as (Hty & Hn & _ & H100 & _).
    pose proof (zlen_writeBytes fn b). cbn [from_option id].
    assert (Hc : payloadContainsFrameJson b = Ok (if JsMap.get ty SCHEMAS then false else true)).
    { destruct Hb as [Hb|[-> ->]]; [|apply contains_frame_json].
      destruct (field_level_parts ty f b (Hplain f Hf) Hb ltac:(lia)) as (sc & ca & -> & _ & -> & _). done. }
    rewrite (scan_answer case_scan fn b [] ty),
      (scan_answer encoding_scan fn b [] (if JsMap.get ty SCHEMAS then "typed_fields" else "typed_frame_json"));
      [done | done | | done |].
    + unfold encoding_scan. rewrite (proj2 (Z.eqb_neq _ _) H100), Hty.
      rewrite readBytes_written by lia. cbn [mbind res_mbind]. rewrite Hc. cbn [mbind res_mbind].
      by destruct (JsMap.get ty SCHEMAS).
    + unfold case_scan. by rewrite (proj2 (Z.eqb_neq _ _) H100), Hty.
Qed.

(** ** Frames *)

Lemma plain_string f k s : plain (JObj f) = true -> stringField f k = Some s -> valid_utf8 s = true.
Proof.
  intros Hf. unfold stringField. destruct (plain_field_lookup k f Hf) as [->|Hp]; [done|].
  destruct (field_lookup k f); cbn; try done. by intros [= ->].
Qed.

Lemma make_valid ulid now frame options e :
  plain (JObj frame) = true -> makeLegacyJsonEnvelope ulid now frame options = Ok e ->
  str_truthy (be_message_id e) = true -> valid_utf8 (be_message_id e) = true ->
  str_truthy (be_sent_at e) = true -> valid_utf8 (be_sent_at e) = true ->
  valid_envelope e /\ be_legacy_json e = mkPayload (JSON_stringify (JObj frame))
                                          (stringField frame "type") (stringField frame "proto").
Proof.
  intros Hp. unfold makeLegacyJsonEnvelope.
  destruct (match eo_sentAt options with Some s => Ok s | None => _ end) as [sentAt|];
    cbn [mbind res_mbind]; [|done].
  intros [= <-]. cbn [be_message_id be_sent_at be_legacy_json]. intros H1 H2 H3 H4. split; [|done].
  unfold valid_envelope, valid_payload.
  cbn [be_envelope_version be_message_id be_sent_at be_correlation_id be_operation_id be_stream_id
       be_trace_id be_bud_id be_device_session_id be_transport_session_id be_legacy_json
       lp_json lp_frame_type lp_proto].
  split_and!; try done.
  - by repeat constructor.
  - exact (valid_stringify (JObj frame) Hp).
  - intros s. by apply plain_string.
  - intros s. by apply plain_string.
  - intros f Hf. pose proof (eq_trans (eq_sym Hf) (parse_stringify (JObj frame) Hp)) as E.
    by injection E as ->.
Qed.

Lemma schemas_typed ty : JsMap.get ty TYPED_PAYLOAD_FIELD_BY_FRAME_TYPE = None -> JsMap.get ty SCHEMAS = None.
Proof.
  rewrite !JsMap.get_None_keys. unfold JsMap.keys. intros Hn Hin. apply Hn.
  assert (Hall : Forall (fun t => t ∈ TYPED_PAYLOAD_FIELD_BY_FRAME_TYPE.*1) SCHEMAS.*1)
    by (apply (bool_decide_unpack _); by vm_compute).
  rewrite Forall_forall in Hall. by apply Hall.
Qed.

(** C20: a plain frame that is encoded decodes to what the receiver is to see of it: for the types
    that are encoded field by field the keys of the schema, each with its value, over the base of
    the envelope; for every other type the frame itself; except that the decoder finds no payload
    when the type is a name that every object inherits, [constructor] or [toString] say. *)
Theorem frame_roundtrip ulid now frame options e bs :
  plain (JObj frame) = true ->
  makeLegacyJsonEnvelope ulid now frame options = Ok e ->
  str_truthy (be_message_id e) = true -> valid_utf8 (be_message_id e) = true ->
  str_truthy (be_sent_at e) = true -> valid_utf8 (be_sent_at e) = true ->
  number_ok (sentAtToMillis (be_sent_at e)) = true ->
  encodeBudFrame ulid now frame options = Ok bs -> zlen bs <= 2 ^ 53 ->
  decodeBudFrame bs
  = (let ty := stringField frame "type" ?? "" in
     if bool_decide (ty ∈ OBJECT_PROTOTYPE_KEYS) then Err "protobuf envelope missing payload"
     else Ok (received ty (be_message_id e) (be_sent_at e) frame)).
Proof.
  intros Hp Hmake Hm Hmv Hs Hsv Hn E Hl.
  destruct (make_valid ulid now frame options e Hp Hmake Hm Hmv Hs Hsv) as [Hv Hpay].
  unfold encodeBudFrame, encodeLegacyJsonFrame in E. rewrite Hmake in E. cbn [mbind res_mbind] in E.
  unfold decodeBudFrame, decodeLegacyJsonFrame. rewrite (envelope_decodes false e bs Hv E Hl).
  unfold lost_payload. rewrite Hpay. cbn [lp_frame_type negb andb].
  set (ty := stringField frame "type" ?? ""). cbn zeta. destruct (bool_decide _); [done|].
  cbn [mbind res_mbind received_envelope be_legacy_json]. unfold received_payload.
  rewrite Hpay. cbn [lp_frame_type lp_json]. fold ty.
  destruct (JsMap.get ty TYPED_PAYLOAD_FIELD_BY_FRAME_TYPE) as [fn|] eqn:Efn.
  - cbn [lp_json]. rewrite parse_stringify by done.
    destruct (JsMap.get ty SCHEMAS) as [sc|] eqn:Es.
    + by rewrite parse_stringify by by apply plain_received.
    + rewrite parse_stringify by done. unfold received. by rewrite Es.
  - cbn [received_legacy lp_json]. rewrite parse_stringify by done. unfold received.
    by rewrite (schemas_typed ty Efn).
Qed.

(** An envelope that was encoded. *)
Lemma envelope_reads_back e force bs :
  valid_envelope e -> encodeBudEnvelope e force = Ok bs -> zlen bs <= 2 ^ 53 ->
  if lost_payload force e then
    decodeBudEnvelope bs = Err MISSING_PAYLOAD
    /\ decodeBudEnvelopePayloadCase bs = Err MISSING_PAYLOAD
    /\ decodeBudEnvelopePayloadEncoding bs = Err MISSING_PAYLOAD
  else
    decodeBudEnvelope bs = Ok (received_envelope force e)
    /\ decodeBudEnvelopePayloadCase bs = Ok (typed_payload force e ?? "legacy_json")
    /\ decodeBudEnvelopePayloadEncoding bs = Ok (payload_encoding force e).
Proof.
  intros Hv E Hl. rewrite (envelope_decodes force e bs Hv E Hl).
  destruct (lost_payload force e) eqn:Hlost; (split; [done|]); [|by apply encoding_ok].
  destruct force; [done|]. by apply (encoding_lost e).
Qed.
End Encoding.

(** ** Fields that are refused *)

Lemma decode_refused {A} (h : handler A) fn v a rest m :
  consuming h -> field_number fn ->
  h fn WIRE_LENGTH_DELIMITED a (encodeVarint (zlen v) ++ v ++ rest) = Err m ->
  decode_fields h a (writeBytes fn v ++ rest) = Err m.
Proof.
  intros Hh Hfn E. unfold writeBytes. rewrite <- !app_assoc.
  rewrite decode_fields_step by (done || apply encodeVarint_nonnil).
  rewrite readTag_tag by (done || lia). cbn [mbind res_mbind]. by rewrite E.
Qed.

Lemma scan_refused {B} (h : Z -> Z -> bytes -> res (B + bytes)) fn v rest m :
  field_number fn ->
  h fn WIRE_LENGTH_DELIMITED (encodeVarint (zlen v) ++ v ++ rest) = Err m ->
  scan_fields h (writeBytes fn v ++ rest) = Err m.
Proof.
  intros Hfn E. unfold scan_fields, writeBytes. rewrite <- !app_assoc.
  destruct (tag_bytes fn WIRE_LENGTH_DELIMITED) as [|t tg] eqn:Et.
  { by destruct (encodeVarint_nonnil (Z.lor (Z.shiftl fn 3) WIRE_LENGTH_DELIMITED) []);
      rewrite app_nil_r. }
  cbn [app length scan_loop]. rewrite app_comm_cons, <- Et, readTag_tag by (done || lia).
  cbn [mbind res_mbind]. by rewrite E.
Qed.

Section Claims.
Context `{NumberText} `{DateParse}.

(** C22: every decoder ends on every input: the loops over the fields, nested ones included, never
    run out of the fuel they are given, the number of bytes, and more fuel gives the same answer. *)
Theorem decoders_terminate (b : bytes) (fuel : nat) :
  ends (decodeBudFrame b) /\ ends (decodeBudEnvelope b)
  /\ ends (decodeBudEnvelopePayloadCase b) /\ ends (decodeBudEnvelopePayloadEncoding b)
  /\ forall d, fields_loop (length b + fuel) read_envelope_field d b
               = decode_fields read_envelope_field d b.
Proof.
  split_and!; [apply decodeBudFrame_ends | apply decodeBudEnvelope_ends | | |].
  - unfold decodeBudEnvelopePayloadCase. fold case_scan. apply ends_bind; [|solve_ends].
    apply scan_fields_ends; [apply case_scan_consumes|]. intros fn wt bs. unfold case_scan. solve_ends.
  - unfold decodeBudEnvelopePayloadEncoding. fold encoding_scan. apply ends_bind; [|solve_ends].
    apply scan_fields_ends; [apply encoding_scan_consumes|].
    intros fn wt bs. unfold encoding_scan. pose proof payloadContainsFrameJson_ends. solve_ends.
  - intros d. apply fields_loop_fuel; [apply envelope_consuming | lia | done].
Qed.

(** An envelope of a later version. *)
Lemma unknown_refused e fn b rest :
  valid_envelope e -> zlen (head_bytes e) <= 2 ^ 53 ->
  isPayloadFieldNumber fn = true -> fn <> LEGACY_JSON_PAYLOAD_FIELD ->
  fn ∉ TYPED_PAYLOAD_FIELD_BY_FRAME_TYPE.*2 ->
  let bs := head_bytes e ++ writeBytes fn b ++ rest in
  decodeBudEnvelope bs = UnsupportedBudEnvelopePayloadError fn
  /\ decodeBudEnvelopePayloadCase bs = UnsupportedBudEnvelopePayloadError fn
  /\ decodeBudEnvelopePayloadEncoding bs = UnsupportedBudEnvelopePayloadError fn.
Proof.
  intros Hv Hl Hpf Hne Hnot bs. subst bs.
  assert (Hnone : JsMap.get fn FRAME_TYPE_BY_TYPED_PAYLOAD_FIELD = None).
  { apply JsMap.get_None_keys. unfold JsMap.keys, FRAME_TYPE_BY_TYPED_PAYLOAD_FIELD.
    by rewrite <- list_fmap_compose. }
  assert (Hr : 100 <= fn <= 199).
  { unfold isPayloadFieldNumber, PAYLOAD_FIELD_MIN, PAYLOAD_FIELD_MAX in Hpf. zbool. lia. }
  assert (Hfn : field_number fn) by (split; lia). apply Z.eqb_neq in Hne.
  unfold decodeBudEnvelope, decodeBudEnvelopePayloadCase, decodeBudEnvelopePayloadEncoding.
  fold empty_decoded case_scan encoding_scan. rewrite decode_head by done.
  destruct (scans_head e (writeBytes fn b ++ rest) Hl) as [-> ->].
  unfold UnsupportedBudEnvelopePayloadError.
  erewrite (decode_refused read_envelope_field), (scan_refused case_scan), (scan_refused encoding_scan);
    [done | done | | done | | apply envelope_consuming | done |].
  - unfold encoding_scan. by rewrite Hne, Hnone, Hpf.
  - unfold case_scan. by rewrite Hne, Hnone, Hpf.
  - unfold read_envelope_field. rewrite (proj2 (Z.eqb_neq fn 1)), (proj2 (Z.leb_gt fn 10)),
      (proj2 (Z.eqb_neq fn 11)), (proj2 (Z.eqb_neq fn 12)), andb_false_r, Hne, Hnone, Hpf by lia. done.
Qed.

(** C21: a valid envelope that is encoded decodes to itself, with empty optional strings dropped
    and the payload as the receiver is to see it, in each of the three payload encodings, and the
    two functions that look at the payload of the bytes name its case and its encoding; except that
    all three find no payload when the frame type is a name that every object inherits and the
    legacy form is not forced; and an
    envelope whose payload is in a field of the payload range that this version does not know is
    refused with an error that names the field, by the decoder and by both functions that look at
    the payload, whatever follows. *)
Theorem envelope_roundtrip e :
  valid_envelope e ->
  (forall force bs, encodeBudEnvelope e force = Ok bs -> zlen bs <= 2 ^ 53 ->
     if negb force && bool_decide ((lp_frame_type (be_legacy_json e) ?? "") ∈ OBJECT_PROTOTYPE_KEYS)
     then decodeBudEnvelope bs = Err "protobuf envelope missing payload"
       /\ decodeBudEnvelopePayloadCase bs = Err "protobuf envelope missing payload"
       /\ decodeBudEnvelopePayloadEncoding bs = Err "protobuf envelope missing payload"
     else decodeBudEnvelope bs = Ok (received_envelope force e)
       /\ decodeBudEnvelopePayloadCase bs = Ok (typed_payload force e ?? "legacy_json")
       /\ decodeBudEnvelopePayloadEncoding bs = Ok (payload_encoding force e))
  /\ (forall fn b rest, zlen (head_bytes e) <= 2 ^ 53 ->
        isPayloadFieldNumber fn = true -> fn <> LEGACY_JSON_PAYLOAD_FIELD ->
        fn ∉ TYPED_PAYLOAD_FIELD_BY_FRAME_TYPE.*2 ->
        let bs := head_bytes e ++ writeBytes fn b ++ rest in
        decodeBudEnvelope bs = UnsupportedBudEnvelopePayloadError fn
        /\ decodeBudEnvelopePayloadCase bs = UnsupportedBudEnvelopePayloadError fn
        /\ decodeBudEnvelopePayloadEncoding bs = UnsupportedBudEnvelopePayloadError fn).
Proof.
  intros Hv. split; [intros force bs E Hl; by apply envelope_reads_back|].
  intros fn b rest H1 H2 H3 H4. by apply unknown_refused.
Qed.
End Claims.

Lemma varint_loop_length fuel next : (length (varint_loop fuel next) <= S fuel)%nat.
Proof.
  revert next. induction fuel as [|fuel IH]; intros next; cbn [varint_loop]; destruct (_ =? 0);
    cbn [length]; try lia. specialize (IH (Z.shiftr next 7)). lia.
Qed.

Lemma read_varint_bounds shift result bs v rest :
  0 <= shift <= 63 -> (exists n, shift = 7 * n) -> 0 <= result < 2 ^ shift ->
  read_varint_loop shift result bs = Ok (v, rest) ->
  0 <= v < 2 ^ 70
  /\ exists used, bs = used ++ rest /\ 1 <= zlen used /\ shift + 7 * zlen used <= 70.
Proof.
  revert shift result. induction bs as [|b bs IH]; intros shift result Hs [n Hn] Hr; cbn [read_varint_loop];
    [done|]. rewrite land_127.
  pose proof (Z.mod_pos_bound (Z_of_byte b) 128 ltac:(lia)) as Hb. rewrite lor_shift by lia.
  set (x := Z_of_byte b mod 128) in *. clearbody x.
  assert (Hp : 2 ^ (shift + 7) = 2 ^ shift * 128) by (rewrite Z.pow_add_r by lia; done).
  assert (Hnew : 0 <= result + x * 2 ^ shift < 2 ^ (shift + 7))
    by (rewrite Hp; clear -Hr Hb; generalize dependent (2 ^ shift); nia).
  assert (Hle : 2 ^ (shift + 7) <= 2 ^ 70) by (apply Z.pow_le_mono_r; lia).
  destruct (_ =? 0).
  - intros [= <- ->]. split; [lia|]. exists [b]. rewrite zlen_cons, zlen_nil. split; [done | lia].
  - destruct (Z.ltb_spec 63 (shift + 7)); [done|]. intros E.
    apply IH in E as (Hv & used & -> & H1 & H2); [|lia|exists (n + 1); lia|done].
    split; [done|]. exists (b :: used). rewrite zlen_cons. split; [done | lia].
Qed.

(** C23: a varint is one to ten bytes, reads back modulo 2^64 and the reader stops right after it;
    and whatever bytes it is given, what the reader returns is below 2^70, from at most ten of them. *)
Theorem varint_codec z rest bs :
  readVarint (encodeVarint z ++ rest) = Ok (z mod 2 ^ 64, rest)
  /\ (1 <= length (encodeVarint z) <= 10)%nat
  /\ match readVarint bs with
     | Ok (v, rest) =>
         0 <= v < 2 ^ 70 /\ exists used, bs = used ++ rest /\ (1 <= length used <= 10)%nat
     | Err _ => True
     end.
Proof.
  split_and!; [apply readVarint_encode | | |].
  - pose proof (encodeVarint_nonnil z []) as Hne. rewrite app_nil_r in Hne.
    destruct (encodeVarint z); [done | cbn; lia].
  - apply varint_loop_length.
  - destruct (readVarint bs) as [[v r]|] eqn:E; [|done].
    destruct (read_varint_bounds 0 0 bs v r) as (Hv & used & -> & Hu);
      [lia | by exists 0 | lia | exact E |].
    split; [lia|]. exists used. split; [done|]. unfold zlen in Hu. lia.
Qed.

(** ** Witnesses *)

Module WireExample.

(** Texts of small integers only, and one date. *)
Definition integers : NumberText := {| frac_text := fun _ => "0"; frac_value := fun _ => None |}.
Definition one_date : DateParse :=
  fun s => if bool_decide (s = "2026-01-02T03:04:05.678Z") then Some (inject_Z 1767323045678) else None.

Definition frame : fields :=
  [("proto", JStr "0.1"); ("type", JStr "stream_reset"); ("id", JStr "msg_1");
   ("ts", num 1767323045678); ("ext", JObj []); ("stream_id", JStr "st_1");
   ("reason", JStr "timeout");
   ("error", JObj [("code", JStr "E"); ("retryable", JBool false); ("details", JObj [("n", num 3)])]);
   ("unknown", num 1)].

Definition options : LegacyJsonEnvelopeOptions :=
  mkOptions None (Some "2026-01-02T03:04:05.678Z") None None.

Definition encoded : bytes :=
  Eval vm_compute in match @encodeBudFrame integers "u" 0 frame options with Ok b => b | Err _ => [] end.

Definition envelope : BudEnvelope :=
  Eval vm_compute in match @makeLegacyJsonEnvelope integers "u" 0 frame options with
    | Ok e => e | Err _ => mkEnvelope 0 "" None None None None None None None "" Control None (mkPayload "" None None) end.
End WireExample.

Lemma frame_roundtrip_witness :
  @decodeBudFrame WireExample.integers WireExample.one_date WireExample.encoded
  = Ok [("proto", JStr "0.1"); ("type", JStr "stream_reset"); ("id", JStr "msg_1");
        ("ts", num 1767323045678); ("ext", JObj []); ("stream_id", JStr "st_1");
        ("reason", JStr "timeout");
        ("error", JObj [("code", JStr "E"); ("retryable", JBool false);
                        ("details", JObj [("n", JStr "3")])])].
Proof.
  refine (@frame_roundtrip WireExample.integers WireExample.one_date "u" 0 WireExample.frame
    WireExample.options WireExample.envelope WireExample.encoded _ _ _ _ _ _ _ _ _); by vm_compute.
Defined.

(** A frame whose type is a name every object inherits is encoded, into field 0, and lost; and an
    error's [__proto__] detail is not sent. *)
Example inherited_type_lost :
  (b ← @encodeBudFrame WireExample.integers "u" 0
         [("type", JStr "constructor"); ("id", JStr "msg_1")] WireExample.options;
   @decodeBudFrame WireExample.integers WireExample.one_date b)
  = Err "protobuf envelope missing payload".
Proof. by vm_compute. Qed.

Example proto_detail_dropped :
  @stringMapField WireExample.integers
    [("details", JObj [("__proto__", JStr "p"); ("a", num 1)])] "details" = Some [("a", "1")].
Proof. by vm_compute. Qed.

Lemma envelope_roundtrip_witness :
  (@decodeBudEnvelope WireExample.integers WireExample.one_date WireExample.encoded
   = Ok (@received_envelope WireExample.integers WireExample.one_date false WireExample.envelope)
   /\ decodeBudEnvelopePayloadCase WireExample.encoded = Ok "stream_reset"
   /\ decodeBudEnvelopePayloadEncoding WireExample.encoded = Ok "typed_fields")
  /\ decodeBudEnvelopePayloadCase (head_bytes WireExample.envelope ++ writeBytes 199 [x01] ++ [x02])
     = Err "unsupported BudEnvelope payload field 199".
Proof.
  destruct (@make_valid WireExample.integers "u" 0 WireExample.frame
    WireExample.options WireExample.envelope) as [Hv _]; [by vm_compute ..|].
  destruct (@envelope_roundtrip WireExample.integers WireExample.one_date WireExample.envelope Hv)
    as [Hr Hu]. split.
  - refine (Hr false WireExample.encoded _ _); by vm_compute.
  - refine (proj1 (proj2 (Hu 199 [x01] [x02] _ _ _ _))); [by vm_compute|done|done|].
    by apply (bool_decide_unpack _); vm_compute.
Defined.

