(* ===== verification/Dispatcher.v ===== *)
(** Requests to a terminal that wait for an answer of the daemon
    ([service/src/runtime/terminal/request-dispatcher.ts]).

    A request is a pending entry, a debug state object that the pending entry and
    the map of recent requests share, a promise and a timer.  The two kinds of
    requests, observations and sends, have the same tables over different data;
    [table] is the state of a kind and [RequestKind] says what differs.  The
    asynchronous methods await only [getSession]: what follows runs without
    interruption and is one operation here, given the session, fresh ids and the
    time.  Log calls are left out. *)
From Stdlib Require Import ZArith QArith Qround Lia.
From stdpp Require Import base tactics strings gmap sorting option pretty.
From stdpp Require Import list.
From S2P Require Import Prelude JsRuntime Base64 Json JsText Wire WireFrames.
Open Scope Z_scope.

(** ** Keys *)

Definition key_names : list (string * string) :=
  [("return", "enter"); ("esc", "escape"); ("arrow_up", "up"); ("arrowup", "up");
   ("arrow_down", "down"); ("arrowdown", "down"); ("arrow_left", "left"); ("arrowleft", "left");
   ("arrow_right", "right"); ("arrowright", "right"); ("spacebar", "space");
   ("bspace", "backspace"); ("dc", "delete")].

Fixpoint first_suffix (prefixes : list string) (s : string) : option string :=
  match prefixes with
  | [] => None
  | p :: ps => match strip_prefix p s with Some r => Some r | None => first_suffix ps s end
  end.

Definition normalizeTerminalSendKeyName (value : string) : string :=
  let trimmed := trim value in
  if negb (str_truthy trimmed) then ""
  else
    let lower := toLowerCase trimmed in
    let ctrlSuffix := first_suffix ["ctrl+"; "ctrl-"; "control+"; "control-"; "c-"] lower in
    match ctrlSuffix with
    | Some ((String _ _) as s) => "ctrl+" +:+ s
    | _ => JsMap.get lower key_names ?? lower
    end.

(** ** Data *)

Definition TERMINAL_AWAITED_SEND_TIMEOUT_MS : Z := 2 * 60 * 1000.
Definition TERMINAL_DEFAULT_REQUEST_TIMEOUT_MS : Z := 30 * 1000.
Definition TERMINAL_WAIT_TIMEOUT_MS : Z := 30 * 60 * 1000.

Definition TerminalSendAwait := string.

(** [ObserveDebugState] and [SendDebugState]: the common fields, and [I] for the
    others. *)
Record DebugState (I : Type) := mkState {
  st_sessionId : string;
  st_requestId : string;
  st_info : I;
  st_timeoutMs : Z;
  st_startedAt : Z;
  st_deadlineAt : Z;
  st_startOffset : Z;
  st_latestOffset : Z;
  st_outputSeen : bool;
  st_outputEventCount : Z;
  st_timedOutAt : option Z;
}.
Arguments mkState {I}.
Arguments st_sessionId {I} _.
Arguments st_requestId {I} _.
Arguments st_info {I} _.
Arguments st_timeoutMs {I} _.
Arguments st_startedAt {I} _.
Arguments st_deadlineAt {I} _.
Arguments st_startOffset {I} _.
Arguments st_latestOffset {I} _.
Arguments st_outputSeen {I} _.
Arguments st_outputEventCount {I} _.
Arguments st_timedOutAt {I} _.

Record ObserveInfo := mkObserveInfo { oi_view : string; oi_lines : jsnum }.
Record SendInfo := mkSendInfo {
  si_await : option TerminalSendAwait;
  si_hasText : bool;
  si_submit : bool;
  si_hasKey : bool;
}.

Record TerminalEventOutcome := mkOutcome { eo_event : string; eo_data : fields }.

Record ObserveResult := mkObserveResult {
  or_view : string;
  or_output : string;
  or_linesCaptured : jsnum;
  or_changed : option bool;
  or_mode : option string;
  or_integration : option string;
  or_altScreen : option bool;
  or_cursorRow : option jsnum;
  or_cursorCol : option jsnum;
  or_ringNextOffset : option jsnum;
  or_outputAnsi : option string;
  or_outcome : option TerminalEventOutcome;
}.

(** [ObserveResponsePayload]: the texts are base64. *)
Record ObserveResponsePayload := mkObservePayload {
  op_requestId : string;
  op_result : ObserveResult;
  op_error : option string;
}.

Record SendResult := mkSendResult {
  sr_dispatched : bool;
  sr_outcome : option TerminalEventOutcome;
  sr_resolvedAwait : option string;
  sr_gatedMs : option jsnum;
  sr_programReady : option bool;
}.

Record SendResultPayload := mkSendPayload {
  sp_requestId : string;
  sp_result : SendResult;
  sp_error : option string;
}.

(** [PendingObserve] and [PendingSend]: [resolve] and [reject] are the promise,
    the debug state is a reference. *)
Record Pending := mkPending {
  pd_sessionId : string;
  pd_promise : nat;
  pd_timeout : nat;
  pd_state : nat;
}.

Inductive settlement (R : Type) :=
  | Resolved (r : R)
  | Rejected (message : string).
Arguments Resolved {R} r.
Arguments Rejected {R} message.

Record timer := mkTimer { tm_due : Z; tm_requestId : string }.

(** The requests of a kind: the debug state objects, the two maps, the promises
    and the armed timers. *)
Record table (I R : Type) := mkTable {
  tb_states : list (DebugState I);
  tb_pending : list (string * Pending);
  tb_recent : list (string * nat);
  tb_promises : list (option (settlement R));
  tb_timers : list (nat * timer);
  tb_next_timer : nat;
}.
Arguments mkTable {I R}.
Arguments tb_states {I R} _.
Arguments tb_pending {I R} _.
Arguments tb_recent {I R} _.
Arguments tb_promises {I R} _.
Arguments tb_timers {I R} _.
Arguments tb_next_timer {I R} _.

(** What differs: whose session a pending entry belongs to, and the error of a
    timeout. *)
Class RequestKind (I : Type) := {
  rk_session : Pending -> DebugState I -> string;
  rk_timeout_error : string;
  rk_session_ok p s : pd_sessionId p = st_sessionId s -> rk_session p s = st_sessionId s;
}.

#[export, refine] Instance observe_kind : RequestKind ObserveInfo := {|
  rk_session := fun _ s => st_sessionId s;
  rk_timeout_error := "observe_timeout";
|}.
Proof. done. Defined.

#[export, refine] Instance send_kind : RequestKind SendInfo := {|
  rk_session := fun p _ => pd_sessionId p;
  rk_timeout_error := "send_timeout";
|}.
Proof. done. Defined.

(** Node's [setTimeout]: a delay outside 1 .. 2^31-1 is 1. *)
Definition timer_delay (ms : Z) : Z := if (1 <=? ms) && (ms <=? 2147483647) then ms else 1.

(** ** Tables *)

Section Table.
Context {I R : Type} `{RequestKind I}.
(** [deps.getLastOffset], and the time. *)
Context (lastOffset : string -> Z) (now : Z).

Definition set_states (v : list (DebugState I)) (t : table I R) : table I R :=
  mkTable v (tb_pending t) (tb_recent t) (tb_promises t) (tb_timers t) (tb_next_timer t).
Definition set_pending (v : list (string * Pending)) (t : table I R) : table I R :=
  mkTable (tb_states t) v (tb_recent t) (tb_promises t) (tb_timers t) (tb_next_timer t).
Definition set_recent (v : list (string * nat)) (t : table I R) : table I R :=
  mkTable (tb_states t) (tb_pending t) v (tb_promises t) (tb_timers t) (tb_next_timer t).
Definition set_promises (v : list (option (settlement R))) (t : table I R) : table I R :=
  mkTable (tb_states t) (tb_pending t) (tb_recent t) v (tb_timers t) (tb_next_timer t).
Definition set_timers (v : list (nat * timer)) (t : table I R) : table I R :=
  mkTable (tb_states t) (tb_pending t) (tb_recent t) (tb_promises t) v (tb_next_timer t).

(** A promise keeps its first settlement. *)
Definition settle (i : nat) (s : settlement R) (t : table I R) : table I R :=
  set_promises (alter (fun o => Some (o ?? s)) i (tb_promises t)) t.

Definition clearTimeout (h : nat) (t : table I R) : table I R :=
  set_timers (JsMap.delete h (tb_timers t)) t.

Definition upd_state (r : nat) (f : DebugState I -> DebugState I) (t : table I R) : table I R :=
  set_states (alter f r (tb_states t)) t.

Definition set_latestOffset (v : Z) (s : DebugState I) : DebugState I :=
  mkState (st_sessionId s) (st_requestId s) (st_info s) (st_timeoutMs s) (st_startedAt s)
    (st_deadlineAt s) (st_startOffset s) v (st_outputSeen s) (st_outputEventCount s)
    (st_timedOutAt s).
Definition set_timedOutAt (v : Z) (s : DebugState I) : DebugState I :=
  mkState (st_sessionId s) (st_requestId s) (st_info s) (st_timeoutMs s) (st_startedAt s)
    (st_deadlineAt s) (st_startOffset s) (st_latestOffset s) (st_outputSeen s)
    (st_outputEventCount s) (Some v).
Definition see_output (endOffset : Z) (s : DebugState I) : DebugState I :=
  mkState (st_sessionId s) (st_requestId s) (st_info s) (st_timeoutMs s) (st_startedAt s)
    (st_deadlineAt s) (st_startOffset s) (Z.max (st_latestOffset s) endOffset) true
    (st_outputEventCount s + 1) (st_timedOutAt s).

(** [pruneRecentObserveStates] and [pruneRecentSendStates]. *)
Definition RETENTION_MS : Z := 5 * 60 * 1000.

Definition stale (t : table I R) (entry : string * nat) : Prop :=
  JsMap.get entry.1 (tb_pending t) = None
  /\ match tb_states t !! entry.2 with
     | Some s => RETENTION_MS < now - (st_timedOutAt s ?? st_startedAt s)
     | None => False
     end.
#[export] Instance stale_dec t entry : Decision (stale t entry).
Proof. unfold stale. destruct (tb_states t !! entry.2); apply _. Defined.

Definition pruneRecentStates (t : table I R) : table I R :=
  set_recent (filter (fun entry => ~ stale t entry) (tb_recent t)) t.

(** The end of [observeTerminal] and [sendInteraction]: the request is recorded,
    its promise made and its timer armed. *)
Definition register (s : DebugState I) (t : table I R) : nat * table I R :=
  let t := pruneRecentStates t in
  let ref := length (tb_states t) in
  let promise := length (tb_promises t) in
  let h := tb_next_timer t in
  (promise,
   mkTable (tb_states t ++ [s])
     (JsMap.set (st_requestId s) (mkPending (st_sessionId s) promise h ref) (tb_pending t))
     (JsMap.set (st_requestId s) ref (tb_recent t))
     (tb_promises t ++ [None])
     (JsMap.set h (mkTimer (now + timer_delay (st_timeoutMs s)) (st_requestId s)) (tb_timers t))
     (S h)).

(** The callback of a timer. *)
Definition on_timeout (h : nat) (t : table I R) : table I R :=
  match JsMap.get h (tb_timers t) with
  | None => t
  | Some tm =>
      let t := clearTimeout h t in
      match JsMap.get (tm_requestId tm) (tb_pending t) with
      | None => t
      | Some p =>
          let t := upd_state (pd_state p) (fun s =>
                     set_latestOffset (lastOffset (st_sessionId s)) (set_timedOutAt now s)) t in
          let t := set_pending (JsMap.delete (tm_requestId tm) (tb_pending t)) t in
          settle (pd_promise p) (Rejected rk_timeout_error) t
      end
  end.

(** The loop of [noteOutputObserved]; the ids it reports. *)
Definition of_session (sessionId : string) (t : table I R) (entry : string * Pending) : bool :=
  match tb_states t !! pd_state entry.2 with
  | Some s => bool_decide (st_sessionId s = sessionId)
  | None => false
  end.

Definition noteOutput (sessionId : string) (endOffset : Z) (t : table I R) : list string * table I R :=
  let seeing := filter (fun e : string * Pending => of_session sessionId t e) (tb_pending t) in
  (omap (fun e => st_requestId <$> tb_states t !! pd_state e.2) seeing,
   foldl (fun t (e : string * Pending) => upd_state (pd_state e.2) (see_output endOffset) t) t seeing).

(** The requests of a session are rejected, but one. *)
Definition owned (sessionId : string) (t : table I R) (entry : string * Pending) : bool :=
  match tb_states t !! pd_state entry.2 with
  | Some s => bool_decide (rk_session entry.2 s = sessionId)
  | None => false
  end.

Definition reject_entry (errorMessage : string) (t : table I R) (e : string * Pending) : table I R :=
  let t := clearTimeout (pd_timeout e.2) t in
  let t := set_pending (JsMap.delete e.1 (tb_pending t)) t in
  let t := set_recent (JsMap.delete e.1 (tb_recent t)) t in
  let t := upd_state (pd_state e.2) (fun s => set_latestOffset (lastOffset (st_sessionId s)) s) t in
  settle (pd_promise e.2) (Rejected errorMessage) t.

Definition rejected_entries (sessionId : string) (exceptRequestId : option string) (t : table I R)
  : list (string * Pending) :=
  filter (fun e : string * Pending => owned sessionId t e && negb (bool_decide (Some e.1 = exceptRequestId)))
    (tb_pending t).

Definition rejectSession (sessionId errorMessage : string) (exceptRequestId : option string)
    (t : table I R) : Z * table I R :=
  let es := rejected_entries sessionId exceptRequestId t in
  (zlen es, foldl (reject_entry errorMessage) t es).

(** [handleObserveResult] and [handleSendResult], given what the promise is
    resolved with. *)
Definition handleResult (requestId : string) (error : option string) (result : R) (t : table I R)
  : table I R :=
  match JsMap.get requestId (tb_pending t) with
  | None =>
      match (JsMap.get requestId (tb_recent t) ≫= (fun r => tb_states t !! r)) ≫= st_timedOutAt with
      | Some at_ => if at_ =? 0 then t else set_recent (JsMap.delete requestId (tb_recent t)) t
      | None => t
      end
  | Some p =>
      let t := clearTimeout (pd_timeout p) t in
      let t := set_pending (JsMap.delete requestId (tb_pending t)) t in
      let t := set_recent (JsMap.delete requestId (tb_recent t)) t in
      match error with
      | Some e => if str_truthy e then settle (pd_promise p) (Rejected e) t
                  else settle (pd_promise p) (Resolved result) t
      | None => settle (pd_promise p) (Resolved result) t
      end
  end.
End Table.


(** ** The dispatcher *)

Record dispatcher := mkDispatcher {
  dp_observes : table ObserveInfo ObserveResult;
  dp_sends : table SendInfo SendResult;
  dp_frames : list (string * fields);
}.

Definition initial_dispatcher : dispatcher :=
  mkDispatcher (mkTable [] [] [] [] [] 0) (mkTable [] [] [] [] [] 0) [].

(** A positive finite number, floored. *)
Definition positive_floor (n : option jsnum) : option Z :=
  match n with Some (JFin q) => if Qle_bool q 0 then None else Some (Qfloor q) | _ => None end.

Definition resolveTerminalSendTimeout (awaitMode : option TerminalSendAwait)
    (requestedTimeoutMs : option jsnum) : Z :=
  match positive_floor requestedTimeoutMs with
  | Some ms => ms
  | None => if ostr_truthy awaitMode then TERMINAL_AWAITED_SEND_TIMEOUT_MS
            else TERMINAL_DEFAULT_REQUEST_TIMEOUT_MS
  end.

Record ObserveOptions := mkObserveOptions {
  oo_lines : option jsnum;
  oo_view : option string;
  oo_await : option TerminalSendAwait;
  oo_quietMs : option jsnum;
}.

Record SendInteraction := mkInteraction {
  in_text : option string;
  in_submit : option bool;
  in_key : option string;
  in_await : option TerminalSendAwait;
}.

Section Dispatcher.
(** [deps.getLastOffset], whether [deps.sendFrameToBud] takes a frame, the time. *)
Context (lastOffset : string -> Z) (sendFrameToBud : string -> fields -> bool) (now : Z).

Definition frame_base (type messageUlid sessionId requestId : string) : fields :=
  [("proto", JStr "0.3"); ("type", JStr type); ("id", JStr ("msg_" +:+ messageUlid));
   ("ts", num now); ("ext", JObj []); ("session_id", JStr sessionId); ("request_id", JStr requestId)].

Definition opt_field (k : string) (o : option string) : fields :=
  if ostr_truthy o then [(k, JStr (o ?? ""))] else [].

(** What an asynchronous request gives its caller: an error at once, or the
    promise. *)
Definition outcome := (string + nat)%type.

(** [session]: the bud of the session, when there is one. *)
Definition observeTerminal (session : option string) (requestUlid messageUlid : string)
    (sessionId : string) (options : ObserveOptions) (requestedTimeoutMs : option jsnum)
    (d : dispatcher) : outcome * dispatcher :=
  match session with
  | None => (inl "session_not_found", d)
  | Some budId =>
      let requestId := "obs_" +:+ requestUlid in
      let view := oo_view options ?? "screen" in
      let lines := oo_lines options ?? JFin (inject_Z (-50)) in
      let awaitMode := oo_await options in
      let quietMs := positive_floor (oo_quietMs options) in
      let timeoutMs :=
        match positive_floor requestedTimeoutMs with
        | Some ms => ms
        | None => if ostr_truthy awaitMode then TERMINAL_WAIT_TIMEOUT_MS
                  else TERMINAL_DEFAULT_REQUEST_TIMEOUT_MS
        end in
      let startOffset := lastOffset sessionId in
      let s := mkState sessionId requestId (mkObserveInfo view lines) timeoutMs now (now + timeoutMs)
                 startOffset startOffset false 0 None in
      let payload :=
        frame_base "terminal_observe" messageUlid sessionId requestId
        ++ [("view", JStr view); ("lines", JNum lines)]
        ++ opt_field "await" awaitMode
        ++ match quietMs with
           | Some q => if bool_decide (awaitMode = Some "settled") then [("quiet_ms", num q)] else []
           | None => []
           end in
      let d := mkDispatcher (dp_observes d) (dp_sends d) (dp_frames d ++ [(budId, payload)]) in
      if negb (sendFrameToBud budId payload) then (inl "bud_offline", d)
      else
        let '(promise, t) := register now s (dp_observes d) in
        (inr promise, mkDispatcher t (dp_sends d) (dp_frames d))
  end.

Definition rejectPendingRequestsForSession (sessionId errorMessage : string)
    (exceptRequestId : option string) (d : dispatcher) : Z * dispatcher :=
  let '(n, o) := rejectSession lastOffset sessionId errorMessage exceptRequestId (dp_observes d) in
  let '(m, s) := rejectSession lastOffset sessionId errorMessage exceptRequestId (dp_sends d) in
  (n + m, mkDispatcher o s (dp_frames d)).

Fixpoint rejectPendingRequestsForSessions (sessionIds : list string) (errorMessage : string)
    (d : dispatcher) : Z * dispatcher :=
  match sessionIds with
  | [] => (0, d)
  | sid :: sids =>
      let '(n, d) := rejectPendingRequestsForSession sid errorMessage None d in
      let '(m, d) := rejectPendingRequestsForSessions sids errorMessage d in
      (n + m, d)
  end.

(** What is wrong with an interaction. *)
Definition interaction_error (interaction : SendInteraction) (key : option string) : option string :=
  let hasTextField := bool_decide (is_Some (in_text interaction)) in
  let hasTextPayload := ostr_truthy (in_text interaction) in
  let submit := bool_decide (in_submit interaction = Some true) in
  if submit && negb hasTextField then Some "submit_requires_text"
  else if ostr_truthy key && (hasTextField || submit) then Some "ambiguous_interaction"
  else if negb hasTextPayload && negb submit && negb (ostr_truthy key) then Some "empty_interaction"
  else None.

Definition interaction_key (interaction : SendInteraction) : option string :=
  match in_key interaction with
  | Some k => if str_truthy (trim k) then Some (normalizeTerminalSendKeyName k) else None
  | None => None
  end.

(** The promise and, when requests were rejected, how many. *)
Definition sendInteraction (session : option string) (requestUlid messageUlid : string)
    (sessionId : string) (interaction : SendInteraction) (timeoutMs : option jsnum)
    (rejectPendingRequestsWith : option string) (d : dispatcher)
  : outcome * option Z * dispatcher :=
  match session with
  | None => (inl "session_not_found", None, d)
  | Some budId =>
      let requestId := "send_" +:+ requestUlid in
      let awaitMode := in_await interaction in
      let timeoutMs := resolveTerminalSendTimeout awaitMode timeoutMs in
      let key := interaction_key interaction in
      match interaction_error interaction key with
      | Some e => (inl e, None, d)
      | None =>
          let hasTextField := bool_decide (is_Some (in_text interaction)) in
          let submit := bool_decide (in_submit interaction = Some true) in
          let startOffset := lastOffset sessionId in
          let s := mkState sessionId requestId
                     (mkSendInfo awaitMode hasTextField submit (ostr_truthy key)) timeoutMs now
                     (now + timeoutMs) startOffset startOffset false 0 None in
          let payload :=
            frame_base "terminal_send" messageUlid sessionId requestId
            ++ match in_text interaction with
               | Some text => [("text", JStr text); ("submit", JBool submit)]
               | None => []
               end
            ++ opt_field "key" key
            ++ opt_field "await" awaitMode in
          let d := mkDispatcher (dp_observes d) (dp_sends d) (dp_frames d ++ [(budId, payload)]) in
          if negb (sendFrameToBud budId payload) then (inl "bud_offline", None, d)
          else
            let '(promise, t) := register now s (dp_sends d) in
            let d := mkDispatcher (dp_observes d) t (dp_frames d) in
            match rejectPendingRequestsWith with
            | Some ((String _ _) as e) =>
                let '(n, d) := rejectPendingRequestsForSession sessionId e (Some requestId) d in
                (inr promise, Some n, d)
            | _ => (inr promise, None, d)
            end
      end
  end.

Definition noteOutputObserved (sessionId : string) (endOffset : Z) (d : dispatcher)
  : list string * list string * dispatcher :=
  let '(os, o) := noteOutput sessionId endOffset (dp_observes d) in
  let '(ss, s) := noteOutput sessionId endOffset (dp_sends d) in
  (os, ss, mkDispatcher o s (dp_frames d)).

Definition base64_text (s : string) : string := bytes_text (Base64.decode s).

(** What the promise of an observation is resolved with. *)
Definition observe_result (payload : ObserveResponsePayload) : ObserveResult :=
  let r := op_result payload in
  let nonempty (o : option string) := if ostr_truthy o then o else None in
  mkObserveResult (or_view r) (base64_text (or_output r)) (or_linesCaptured r) (or_changed r)
    (nonempty (or_mode r)) (nonempty (or_integration r)) (or_altScreen r) (or_cursorRow r)
    (or_cursorCol r) (or_ringNextOffset r) (base64_text <$> or_outputAnsi r) (or_outcome r).

Definition handleObserveResult (payload : ObserveResponsePayload) (d : dispatcher) : dispatcher :=
  mkDispatcher (handleResult (op_requestId payload) (op_error payload) (observe_result payload)
                  (dp_observes d)) (dp_sends d) (dp_frames d).

Definition handleSendResult (payload : SendResultPayload) (d : dispatcher) : dispatcher :=
  mkDispatcher (dp_observes d) (handleResult (sp_requestId payload) (sp_error payload)
                  (sp_result payload) (dp_sends d)) (dp_frames d).
End Dispatcher.
