(* ===== verification/DispatcherProps.v ===== *)
(** The theorems on terminal requests: no request is lost and none is settled
    twice, whatever the order of answers, timeouts, rejections and output. *)
From Stdlib Require Import ZArith QArith Lia.
From stdpp Require Import base tactics strings gmap sorting option pretty.
From stdpp Require Import list.
From S2P Require Import Prelude JsRuntime Json Wire WireFrames Dispatcher.
Open Scope Z_scope.

Section Requests.
Context {I R : Type} `{RequestKind I}.
Implicit Types t : table I R.

(** ** Well-formed tables *)

Definition due (s : DebugState I) : Z := st_startedAt s + timer_delay (st_timeoutMs s).

(** A pending entry: its state object, its promise, its timer and the entry of
    the recent requests. *)
Definition pending_ok t (rid : string) (p : Pending) : Prop :=
  (exists s, tb_states t !! pd_state p = Some s /\ st_requestId s = rid
     /\ st_sessionId s = pd_sessionId p
     /\ JsMap.get (pd_timeout p) (tb_timers t) = Some (mkTimer (due s) rid))
  /\ tb_promises t !! pd_promise p = Some None
  /\ JsMap.get rid (tb_recent t) = Some (pd_state p).

(** An entry of the recent requests: of a pending one or of one that timed out. *)
Definition recent_ok t (rid : string) (r : nat) : Prop :=
  exists s, tb_states t !! r = Some s /\ st_requestId s = rid
    /\ (is_Some (JsMap.get rid (tb_pending t)) \/ is_Some (st_timedOutAt s)).

Record table_ok t : Prop := {
  ok_pending_wf : JsMap.wf (tb_pending t);
  ok_timers_wf : JsMap.wf (tb_timers t);
  ok_pending rid p : JsMap.get rid (tb_pending t) = Some p -> pending_ok t rid p;
  ok_promise_inj rid1 rid2 p1 p2 :
    JsMap.get rid1 (tb_pending t) = Some p1 -> JsMap.get rid2 (tb_pending t) = Some p2 ->
    pd_promise p1 = pd_promise p2 -> rid1 = rid2;
  ok_promises i : tb_promises t !! i = Some None ->
    exists rid p, JsMap.get rid (tb_pending t) = Some p /\ pd_promise p = i;
  ok_timers h tm : JsMap.get h (tb_timers t) = Some tm ->
    (h < tb_next_timer t)%nat
    /\ exists p, JsMap.get (tm_requestId tm) (tb_pending t) = Some p /\ pd_timeout p = h;
  ok_recent_wf : JsMap.wf (tb_recent t);
  ok_recent rid r : JsMap.get rid (tb_recent t) = Some r -> recent_ok t rid r;
}.

Lemma initial_ok : table_ok (mkTable [] [] [] [] [] 0).
Proof. split; cbn; try (by constructor); intros; done. Qed.

(** The fields of a state object that never change, and the one that is set once. *)
Definition same_request (s s' : DebugState I) : Prop :=
  st_requestId s' = st_requestId s /\ st_sessionId s' = st_sessionId s
  /\ st_startedAt s' = st_startedAt s /\ st_timeoutMs s' = st_timeoutMs s
  /\ (is_Some (st_timedOutAt s) -> is_Some (st_timedOutAt s')).

Definition states_same t t' : Prop :=
  forall r s, tb_states t !! r = Some s -> exists s', tb_states t' !! r = Some s' /\ same_request s s'.

Lemma same_request_refl s : same_request s s.
Proof. done. Qed.

Lemma alter_states_same t t' r f :
  tb_states t' = alter f r (tb_states t) -> (forall s, same_request s (f s)) -> states_same t t'.
Proof.
  intros E Hf r' s Hs. rewrite E. destruct (decide (r' = r)) as [->|Hne].
  - rewrite list_lookup_alter_eq, Hs. cbn. by exists (f s).
  - rewrite list_lookup_alter_ne by congruence. by exists s.
Qed.

Lemma states_same_due t t' r s :
  states_same t t' -> tb_states t !! r = Some s -> exists s', tb_states t' !! r = Some s'
    /\ st_requestId s' = st_requestId s /\ st_sessionId s' = st_sessionId s /\ due s' = due s.
Proof.
  intros Hs Hr. destruct (Hs r s Hr) as (s' & Hs' & E1 & E2 & E3 & E4 & _). exists s'.
  split_and!; try done. unfold due. by rewrite E3, E4.
Qed.

Lemma recent_kept t t' rid r :
  states_same t t' -> recent_ok t rid r ->
  (is_Some (JsMap.get rid (tb_pending t)) -> is_Some (JsMap.get rid (tb_pending t'))) ->
  recent_ok t' rid r.
Proof.
  intros Hs (s & Hr & E & Hw) Hp. destruct (Hs r s Hr) as (s' & Hs' & E1 & _ & _ & _ & E2).
  exists s'. split_and!; [done|congruence|]. destruct Hw; auto.
Qed.

(** ** A request ends *)

(** [t'] is [t] after the request [rid] was settled with [x]. *)
Record finished (rid : string) (p : Pending) (x : settlement R) t t' : Prop := {
  fin_states : states_same t t';
  fin_pending : tb_pending t' = JsMap.delete rid (tb_pending t);
  fin_recent rid' : rid' <> rid -> JsMap.get rid' (tb_recent t') = JsMap.get rid' (tb_recent t);
  fin_recent_wf : JsMap.wf (tb_recent t) -> JsMap.wf (tb_recent t');
  fin_forgotten r s : JsMap.get rid (tb_recent t') = Some r ->
    JsMap.get rid (tb_recent t) = Some r /\ r = pd_state p /\
    (tb_states t' !! r = Some s -> is_Some (st_timedOutAt s));
  fin_promises : tb_promises t' = alter (fun o => Some (o ?? x)) (pd_promise p) (tb_promises t);
  fin_timers : tb_timers t' = JsMap.delete (pd_timeout p) (tb_timers t);
  fin_next : tb_next_timer t' = tb_next_timer t;
}.

Lemma finished_ok rid p x t t' :
  table_ok t -> JsMap.get rid (tb_pending t) = Some p -> finished rid p x t t' -> table_ok t'.
Proof.
  intros Hok Hp Hf. destruct (ok_pending t Hok rid p Hp) as ((s & Hs & Hsr & Hss & Htm) & Hpr & Hrec).
  split.
  - rewrite (fin_pending _ _ _ _ _ Hf). apply JsMap.wf_delete, Hok.
  - rewrite (fin_timers _ _ _ _ _ Hf). apply JsMap.wf_delete, Hok.
  - intros rid' p'. rewrite (fin_pending _ _ _ _ _ Hf), JsMap.get_delete. case_decide as Hne; [done|].
    intros Hp'. destruct (ok_pending t Hok rid' p' Hp') as ((s' & Hs' & Hsr' & Hss' & Htm') & Hpr' & Hrec').
    destruct (states_same_due t t' _ _ (fin_states _ _ _ _ _ Hf) Hs') as (s'' & Hs'' & E1 & E2 & E3).
    split_and!.
    + exists s''. split_and!; [done | by rewrite E1 | by rewrite E2|].
      rewrite (fin_timers _ _ _ _ _ Hf), JsMap.get_delete_ne, E3; [done|].
      intros E. rewrite E, Htm in Htm'. congruence.
    + rewrite (fin_promises _ _ _ _ _ Hf), list_lookup_alter_ne; [done|].
      intros E. apply Hne. by apply (ok_promise_inj t Hok rid' rid p' p).
    + by rewrite (fin_recent _ _ _ _ _ Hf).
  - intros r1 r2 p1 p2. rewrite (fin_pending _ _ _ _ _ Hf), !JsMap.get_delete.
    do 2 case_decide; try done. by apply Hok.
  - intros i. rewrite (fin_promises _ _ _ _ _ Hf).
    destruct (decide (i = pd_promise p)) as [->|Hne].
    + rewrite list_lookup_alter_eq, Hpr. done.
    + rewrite list_lookup_alter_ne by congruence. intros (rid' & p' & Hp' & <-)%(ok_promises t Hok).
      exists rid', p'. rewrite (fin_pending _ _ _ _ _ Hf), JsMap.get_delete_ne; [done|].
      intros ->. congruence.
  - intros h tm. rewrite (fin_timers _ _ _ _ _ Hf), JsMap.get_delete. case_decide as Hne; [done|].
    intros (Hh & p' & Hp' & Hh')%(ok_timers t Hok). rewrite (fin_next _ _ _ _ _ Hf). split; [done|].
    exists p'. split; [|done]. rewrite (fin_pending _ _ _ _ _ Hf), JsMap.get_delete_ne; [done|].
    intros E. rewrite E in Hp'. congruence.
  - by apply (fin_recent_wf _ _ _ _ _ Hf), Hok.
  - intros rid' r Hr. destruct (decide (rid' = rid)) as [->|Hne].
    + destruct (fin_forgotten _ _ _ _ _ Hf r s Hr) as (Hr' & _ & _).
      destruct (ok_recent t Hok rid r Hr') as (s1 & Hs1 & E & _).
      destruct (fin_states _ _ _ _ _ Hf r s1 Hs1) as (s2 & Hs2 & E2 & _).
      exists s2. split_and!; [done|congruence|right].
      by eapply (fin_forgotten _ _ _ _ _ Hf).
    + rewrite (fin_recent _ _ _ _ _ Hf) in Hr by done.
      eapply recent_kept; [apply Hf|by apply Hok|].
      by rewrite (fin_pending _ _ _ _ _ Hf), JsMap.get_delete_ne.
Qed.

(** ** The operations *)

Definition result_settlement (error : option string) (result : R) : settlement R :=
  match error with
  | Some e => if str_truthy e then Rejected e else Resolved result
  | None => Resolved result
  end.

Lemma get_delete_other {V} (rid rid' : string) (m : list (string * V)) :
  rid' <> rid -> JsMap.get rid' (JsMap.delete rid m) = JsMap.get rid' m.
Proof. intros Hne. by rewrite JsMap.get_delete_ne. Qed.

Lemma get_deleted {V} (rid : string) (m : list (string * V)) v : JsMap.get rid (JsMap.delete rid m) <> Some v.
Proof. by rewrite JsMap.get_delete_eq. Qed.

Lemma handleResult_finished rid error result t p :
  JsMap.get rid (tb_pending t) = Some p ->
  finished rid p (result_settlement error result) t (handleResult rid error result t).
Proof.
  intros Hp. unfold handleResult, result_settlement. rewrite Hp.
  destruct error as [e|]; [destruct (str_truthy e)|]; split; cbn; try done;
    try (by intros; apply get_delete_other); try (by intros; apply JsMap.wf_delete);
    try (by intros r s []%get_deleted); by intros r s Hs; exists s.
Qed.

Lemma reject_finished lastOffset e t rid p :
  finished rid p (Rejected e) t (reject_entry lastOffset e t (rid, p)).
Proof.
  split; cbn; try done.
  - by eapply alter_states_same.
  - by intros; apply get_delete_other.
  - by intros; apply JsMap.wf_delete.
  - by intros r s []%get_deleted.
Qed.

Lemma timeout_finished lastOffset now h tm t p :
  table_ok t -> JsMap.get h (tb_timers t) = Some tm ->
  JsMap.get (tm_requestId tm) (tb_pending t) = Some p ->
  finished (tm_requestId tm) p (Rejected rk_timeout_error) t (on_timeout lastOffset now h t).
Proof.
  intros Hok Hh Hp. unfold on_timeout. rewrite Hh. cbn. rewrite Hp.
  destruct (ok_timers t Hok h tm Hh) as (_ & p' & Hp' & Hh'). rewrite Hp in Hp'. injection Hp' as <-.
  destruct (ok_pending t Hok _ _ Hp) as (_ & _ & Hrec).
  split; cbn; try done; [| |by rewrite Hh'].
  - eapply alter_states_same; [done|]. intros s. by split_and!; try eexists.
  - intros r s Hr. rewrite Hrec in Hr. injection Hr as <-. split_and!; [done..|].
    rewrite list_lookup_alter_eq. intros (s0 & _ & ->)%fmap_Some. by eexists.
Qed.

Lemma on_timeout_ok lastOffset now h t : table_ok t -> table_ok (on_timeout lastOffset now h t).
Proof.
  intros Hok. destruct (JsMap.get h (tb_timers t)) as [tm|] eqn:E.
  - destruct (ok_timers t Hok h tm E) as (_ & p & Hp & _).
    by eapply finished_ok, timeout_finished.
  - unfold on_timeout. by rewrite E.
Qed.

(** A change of the state objects and of the recent requests that keeps what the
    pending entries refer to. *)
Lemma touched_ok t t' :
  table_ok t -> states_same t t' -> tb_pending t' = tb_pending t ->
  (forall rid, is_Some (JsMap.get rid (tb_pending t)) ->
     JsMap.get rid (tb_recent t') = JsMap.get rid (tb_recent t)) ->
  tb_recent t' `sublist_of` tb_recent t ->
  tb_promises t' = tb_promises t -> tb_timers t' = tb_timers t -> tb_next_timer t' = tb_next_timer t ->
  table_ok t'.
Proof.
  intros Hok Hs Hp Hr Hsub Hpr Ht Hn.
  assert (JsMap.wf (tb_recent t')) as Hwf
    by (eapply sublist_NoDup; [apply (ok_recent_wf t Hok)|by apply fmap_sublist]).
  split; rewrite ?Hp, ?Ht, ?Hn, ?Hpr; try apply Hok; [|done|].
  2:{ intros rid r Hr'. eapply recent_kept; [done| |by rewrite Hp].
      apply Hok, JsMap.elem_get; [apply Hok|]. eapply elem_of_sublist; [by apply JsMap.get_Some_elem|done]. }
  intros rid p Hrp. destruct (ok_pending t Hok rid p Hrp) as ((s & Es & E1 & E2 & E3) & E4 & E5).
  destruct (states_same_due t t' _ _ Hs Es) as (s' & Es' & F1 & F2 & F3).
  split_and!; [|by rewrite Hpr | by rewrite Hr].
  exists s'. split_and!; [done | by rewrite F1 | by rewrite F2 | by rewrite Ht, F3].
Qed.

Lemma handleResult_ok rid error result t : table_ok t -> table_ok (handleResult rid error result t).
Proof.
  intros Hok. destruct (JsMap.get rid (tb_pending t)) as [p|] eqn:E.
  - by eapply finished_ok, handleResult_finished.
  - unfold handleResult. rewrite E. destruct (_ ≫= st_timedOutAt) as [a|]; [|done].
    destruct (a =? 0); [done|]. eapply touched_ok; cbn; try done.
    + by intros r s Hs; exists s.
    + intros rid' [p Hp]. apply get_delete_other. congruence.
    + apply sublist_filter.
Qed.

Lemma noteOutput_ok sid off t : table_ok t -> table_ok (noteOutput sid off t).2.
Proof.
  unfold noteOutput. cbn. generalize (filter (fun e => of_session sid t e) (tb_pending t)).
  intros es. revert t. induction es as [|e es IH]; intros t Hok; [done|]. cbn. apply IH.
  eapply touched_ok; cbn; try done. by eapply alter_states_same.
Qed.

(** ** New requests *)

Definition unused (rid : string) t : Prop := Forall (fun s => st_requestId s <> rid) (tb_states t).

Lemma unused_not_pending rid t : table_ok t -> unused rid t -> JsMap.get rid (tb_pending t) = None.
Proof.
  intros Hok Hu. destruct (JsMap.get rid (tb_pending t)) as [p|] eqn:E; [|done].
  destruct (ok_pending t Hok rid p E) as ((s & Hs & Hr & _) & _).
  unfold unused in Hu. rewrite Forall_lookup in Hu. by destruct (Hu _ _ Hs).
Qed.

Lemma get_filter {V} (P : string * V -> Prop) `{!forall e, Decision (P e)} k v (m : list (string * V)) :
  JsMap.get k m = Some v -> P (k, v) -> JsMap.get k (filter P m) = Some v.
Proof.
  intros Hg HP. induction m as [|[k' v'] m IH]; cbn [JsMap.get] in *; [done|]. rewrite filter_cons.
  case_decide; subst.
  - simplify_eq. rewrite decide_True by done. cbn. by rewrite decide_True.
  - case_decide; cbn [JsMap.get]; [rewrite decide_False by done|]; by apply IH.
Qed.

Lemma prune_ok now t : table_ok t -> table_ok (pruneRecentStates now t).
Proof.
  intros Hok. eapply touched_ok; cbn; try done.
  - by intros r s Hs; exists s.
  - intros rid [p Hp]. destruct (ok_pending t Hok rid p Hp) as (_ & _ & Hr). rewrite Hr.
    apply get_filter; [done|]. intros [Hn _]. cbn in Hn. congruence.
  - apply sublist_filter.
Qed.

Lemma register_ok now s t :
  table_ok t -> unused (st_requestId s) t -> st_startedAt s = now -> table_ok (register now s t).2.
Proof.
  intros Hok Hu Hnow. apply (prune_ok now) in Hok as Hok'.
  assert (Hu' : unused (st_requestId s) (pruneRecentStates now t)) by done.
  unfold register. revert Hok' Hu'. generalize (pruneRecentStates now t). clear Hok Hu t. intros t Hok Hu.
  pose proof (unused_not_pending _ t Hok Hu) as Hnp. cbn [snd].
  split; cbn [tb_states tb_pending tb_recent tb_promises tb_timers tb_next_timer].
  - apply JsMap.wf_set, Hok.
  - apply JsMap.wf_set, Hok.
  - intros rid p. rewrite JsMap.get_set. case_decide as E.
    + intros [= <-]. subst rid. split_and!; cbn.
      * exists s. rewrite lookup_app_r, Nat.sub_diag by lia. split_and!; [done..|].
        rewrite JsMap.get_set_eq. unfold due. by rewrite Hnow.
      * by rewrite lookup_app_r, Nat.sub_diag by lia.
      * by rewrite JsMap.get_set_eq.
    + intros Hp. destruct (ok_pending t Hok rid p Hp) as ((s' & Hs' & E1 & E2 & E3) & E4 & E5).
      split_and!; cbn.
      * exists s'. split_and!; [by apply lookup_app_l_Some | done | done|].
        rewrite JsMap.get_set_ne; [done|]. apply (ok_timers t Hok) in E3 as [Hlt _]. lia.
      * by apply lookup_app_l_Some.
      * by rewrite JsMap.get_set_ne.
  - assert (Hlen : forall rid p, JsMap.get rid (tb_pending t) = Some p ->
                     (pd_promise p < length (tb_promises t))%nat).
    { intros rid p Hp. destruct (ok_pending t Hok rid p Hp) as (_ & E4 & _). by apply lookup_lt_Some in E4. }
    intros r1 r2 p1 p2. rewrite !JsMap.get_set. do 2 case_decide; subst; try done.
    + intros [= <-] Hp2 E. cbn in E. apply Hlen in Hp2. lia.
    + intros Hp1 [= <-] E. cbn in E. apply Hlen in Hp1. lia.
    + by apply Hok.
  - intros i [Hi|[Hi Hs]]%lookup_app_Some.
    + apply (ok_promises t Hok) in Hi as (rid & p & Hp & <-). exists rid, p.
      rewrite JsMap.get_set_ne; [done|]. intros ->. congruence.
    + apply list_lookup_singleton_Some in Hs as [Hs _].
      eexists _, _. rewrite JsMap.get_set_eq. split; [done|]. cbn. lia.
  - intros h tm. rewrite JsMap.get_set. case_decide as E.
    + intros [= <-]. subst h. split; [lia|]. eexists. cbn. rewrite JsMap.get_set_eq. by split.
    + intros (Hh & p & Hp & Hh')%(ok_timers t Hok). split; [lia|]. exists p.
      rewrite JsMap.get_set_ne; [done|]. intros E'. rewrite E' in Hp. congruence.
  - apply JsMap.wf_set, Hok.
  - intros rid r. rewrite JsMap.get_set. case_decide as E.
    + intros [= <-]. exists s. cbn. rewrite lookup_app_r, Nat.sub_diag by lia.
      split_and!; [done..|left]. rewrite E, JsMap.get_set_eq. by eexists.
    + intros (s' & Hs' & E1 & Hw)%(ok_recent t Hok). exists s'. cbn.
      split_and!; [by apply lookup_app_l_Some|done|]. by rewrite JsMap.get_set_ne.
Qed.

(** ** How a table evolves *)

Lemma states_same_trans t1 t2 t3 : states_same t1 t2 -> states_same t2 t3 -> states_same t1 t3.
Proof.
  intros H1 H2 r s Hs. destruct (H1 r s Hs) as (s2 & Hs2 & E1 & E2 & E3 & E4 & E5).
  destruct (H2 r s2 Hs2) as (s3 & Hs3 & F1 & F2 & F3 & F4 & F5). exists s3. split; [done|].
  split_and!; [congruence..|auto].
Qed.

(** Settlements are final, promises are only added, and a pending entry of an old
    promise was there before. *)
Record evolves t t' : Prop := {
  ev_settled i x : tb_promises t !! i = Some (Some x) -> tb_promises t' !! i = Some (Some x);
  ev_length : (length (tb_promises t) <= length (tb_promises t'))%nat;
  ev_states : states_same t t';
  ev_pending rid p : JsMap.get rid (tb_pending t') = Some p ->
    (pd_promise p < length (tb_promises t))%nat -> JsMap.get rid (tb_pending t) = Some p;
}.

Lemma evolves_refl t : evolves t t.
Proof. split; try done. by intros r s Hs; exists s. Qed.

Lemma evolves_trans t1 t2 t3 : evolves t1 t2 -> evolves t2 t3 -> evolves t1 t3.
Proof.
  intros H1 H2. pose proof (ev_length _ _ H1). pose proof (ev_length _ _ H2). split; [| lia | |].
  - intros i x Hx. by apply H2, H1.
  - eapply states_same_trans; [apply H1 | apply H2].
  - intros rid p Hp Hlt. apply H1; [|done]. apply H2; [done | lia].
Qed.

Lemma finished_evolves rid p x t t' : finished rid p x t t' -> evolves t t'.
Proof.
  intros Hf. split.
  - intros i y Hy. rewrite (fin_promises _ _ _ _ _ Hf).
    destruct (decide (i = pd_promise p)) as [->|]; [by rewrite list_lookup_alter_eq, Hy|].
    by rewrite list_lookup_alter_ne by congruence.
  - rewrite (fin_promises _ _ _ _ _ Hf), length_alter. lia.
  - apply Hf.
  - intros rid' p'. rewrite (fin_pending _ _ _ _ _ Hf), JsMap.get_delete. by case_decide.
Qed.

Lemma touched_evolves t t' :
  states_same t t' -> tb_pending t' = tb_pending t -> tb_promises t' = tb_promises t -> evolves t t'.
Proof. intros Hs Hp Hpr. split; rewrite ?Hp, ?Hpr; try done. Qed.

Lemma register_evolves now s t : evolves t (register now s t).2.
Proof.
  split; cbn.
  - intros i x Hx. by apply lookup_app_l_Some.
  - rewrite length_app. lia.
  - intros r s' Hs'. exists s'. split; [by apply lookup_app_l_Some | done].
  - intros rid p. rewrite JsMap.get_set. case_decide; [|done]. intros [= <-]. cbn. lia.
Qed.

Lemma noteOutput_evolves sid off t : evolves t (noteOutput sid off t).2.
Proof.
  unfold noteOutput. cbn. generalize (filter (fun e => of_session sid t e) (tb_pending t)).
  intros es. revert t. induction es as [|e es IH]; intros t; [apply evolves_refl|]. cbn.
  eapply evolves_trans; [|apply IH]. apply touched_evolves; try done. by eapply alter_states_same.
Qed.

Lemma handleResult_evolves rid error result t : evolves t (handleResult rid error result t).
Proof.
  destruct (JsMap.get rid (tb_pending t)) as [p|] eqn:E.
  - by eapply finished_evolves, handleResult_finished.
  - unfold handleResult. rewrite E. destruct (_ ≫= st_timedOutAt) as [a|]; [|apply evolves_refl].
    destruct (a =? 0); [apply evolves_refl|]. apply touched_evolves; try done.
    by intros r s Hs; exists s.
Qed.

Lemma on_timeout_evolves lastOffset now h t : table_ok t -> evolves t (on_timeout lastOffset now h t).
Proof.
  intros Hok. destruct (JsMap.get h (tb_timers t)) as [tm|] eqn:E.
  - destruct (ok_timers t Hok h tm E) as (_ & p & Hp & _).
    by eapply finished_evolves, timeout_finished.
  - unfold on_timeout. rewrite E. apply evolves_refl.
Qed.

(** ** Rejecting the requests of a session *)

Lemma reject_all lastOffset e es t :
  table_ok t -> NoDup es.*1 -> (forall x, x ∈ es -> JsMap.get x.1 (tb_pending t) = Some x.2) ->
  let t' := foldl (reject_entry lastOffset e) t es in
  table_ok t' /\ evolves t t'
  /\ (forall rid, JsMap.get rid (tb_pending t')
                 = if decide (rid ∈ es.*1) then None else JsMap.get rid (tb_pending t))
  /\ (forall i, tb_promises t' !! i
               = if decide (i ∈ pd_promise ∘ snd <$> es) then Some (Some (Rejected e))
                 else tb_promises t !! i).
Proof.
  revert t. induction es as [|[rid p] es IH]; intros t Hok Hnd Hes; cbn [foldl].
  { split_and!; try done. apply evolves_refl. }
  cbn [fmap list_fmap fst] in Hnd. apply NoDup_cons in Hnd as [Hrid Hnd].
  pose proof (Hes (rid, p) (list_elem_of_here _ _)) as Hp. cbn [fst snd] in Hp.
  pose proof (reject_finished lastOffset e t rid p) as Hf.
  set (t1 := reject_entry lastOffset e t (rid, p)) in *.
  destruct (IH t1) as (H1 & Hev & H2 & H3); [by eapply finished_ok | done | |].
  { intros x Hx. rewrite (fin_pending _ _ _ _ _ Hf), JsMap.get_delete_ne; [by apply Hes; right|].
    intros E. apply Hrid. rewrite <- E. by apply list_elem_of_fmap_2. }
  split_and!; [done | by eapply evolves_trans; [eapply finished_evolves|] | |].
  - intros rid'. rewrite H2, (fin_pending _ _ _ _ _ Hf), JsMap.get_delete. cbn [fmap list_fmap fst].
    repeat case_decide; set_solver.
  - intros i. rewrite H3, (fin_promises _ _ _ _ _ Hf). rewrite fmap_cons. cbn [compose snd].
    destruct (ok_pending t Hok rid p Hp) as (_ & Hpr & _).
    destruct (decide (i = pd_promise p)) as [->|Hne].
    + rewrite list_lookup_alter_eq, Hpr. cbn. repeat case_decide; set_solver.
    + rewrite list_lookup_alter_ne by congruence. repeat case_decide; set_solver.
Qed.

Lemma rejected_entries_spec sid except t e :
  table_ok t -> e ∈ rejected_entries sid except t <->
  JsMap.get e.1 (tb_pending t) = Some e.2 /\ pd_sessionId e.2 = sid /\ Some e.1 <> except.
Proof.
  intros Hok. destruct e as [rid p]. unfold rejected_entries. rewrite list_elem_of_filter. cbn [fst snd].
  assert (Hown : JsMap.get rid (tb_pending t) = Some p -> owned sid t (rid, p) = bool_decide (pd_sessionId p = sid)).
  { intros Hp. destruct (ok_pending t Hok rid p Hp) as ((s & Hs & _ & Hss & _) & _).
    unfold owned. cbn. rewrite Hs, rk_session_ok by done. by rewrite Hss. }
  split.
  - intros [Hb Hin]. apply (JsMap.elem_get _ _ _ (ok_pending_wf t Hok)) in Hin.
    rewrite Hown in Hb by done. apply andb_prop_elim in Hb as [H1 H2]. split_and!; [done| |].
    + by apply bool_decide_unpack in H1.
    + intros E. rewrite bool_decide_true in H2 by done. done.
  - intros (Hp & <- & Hne). split; [|by apply JsMap.get_Some_elem].
    rewrite Hown, bool_decide_true, bool_decide_false by done. done.
Qed.

Lemma rejected_keys sid except t : table_ok t -> NoDup (rejected_entries sid except t).*1.
Proof.
  intros Hok. eapply sublist_NoDup; [apply (ok_pending_wf t Hok)|]. apply fmap_sublist, sublist_filter.
Qed.

Lemma rejectSession_spec lastOffset sid e except t :
  table_ok t ->
  let '(n, t') := rejectSession lastOffset sid e except t in
  table_ok t' /\ evolves t t'
  /\ n = zlen (rejected_entries sid except t)
  /\ (forall rid p, JsMap.get rid (tb_pending t) = Some p ->
        if decide (pd_sessionId p = sid /\ Some rid <> except)
        then JsMap.get rid (tb_pending t') = None /\ tb_promises t' !! pd_promise p = Some (Some (Rejected e))
        else JsMap.get rid (tb_pending t') = Some p /\ tb_promises t' !! pd_promise p = Some None).
Proof.
  intros Hok. unfold rejectSession.
  pose proof (reject_all lastOffset e (rejected_entries sid except t) t Hok (rejected_keys _ _ _ Hok))
    as (H1 & Hev & H2 & H3); [by intros x (Hx & _)%rejected_entries_spec|].
  split_and!; [done | done | done |].
  - intros rid p Hp. destruct (ok_pending t Hok rid p Hp) as (_ & Hpr & _).
    rewrite H2, H3.
    assert (Hin : rid ∈ (rejected_entries sid except t).*1 <-> pd_sessionId p = sid /\ Some rid <> except).
    { rewrite list_elem_of_fmap. split.
      - intros ([rid' p'] & -> & (Hx & Hs & He)%rejected_entries_spec); [|done]. cbn in *. by simplify_eq.
      - intros [Hs He]. exists (rid, p). split; [done|]. by apply rejected_entries_spec. }
    assert (Hin' : pd_promise p ∈ pd_promise ∘ snd <$> rejected_entries sid except t
                   <-> pd_sessionId p = sid /\ Some rid <> except).
    { rewrite list_elem_of_fmap. split.
      - intros ([rid' p'] & Ep & (Hx & Hs & He)%rejected_entries_spec); [|done]. cbn in *.
        assert (rid = rid') as <- by (by apply (ok_promise_inj t Hok rid rid' p p')). by simplify_eq.
      - intros [Hs He]. exists (rid, p). split; [done|]. by apply rejected_entries_spec. }
    repeat case_decide; tauto.
Qed.

(** ** Timers that fire *)

Inductive fires (lastOffset : string -> Z) (now : Z) : table I R -> table I R -> Prop :=
  | fires_none t : fires lastOffset now t t
  | fires_one h tm t t' :
      JsMap.get h (tb_timers t) = Some tm -> tm_due tm <= now ->
      fires lastOffset now (on_timeout lastOffset now h t) t' -> fires lastOffset now t t'.

(** What firing does: requests only leave, and a promise changes only to the
    error of a timeout. *)
Lemma fires_effect lastOffset now t t' :
  fires lastOffset now t t' -> table_ok t ->
  table_ok t' /\ states_same t t'
  /\ (forall rid p, JsMap.get rid (tb_pending t') = Some p -> JsMap.get rid (tb_pending t) = Some p)
  /\ (forall i, tb_promises t' !! i = tb_promises t !! i
               \/ tb_promises t' !! i = Some (Some (Rejected rk_timeout_error))
                  /\ tb_promises t !! i = Some None
                  /\ exists rid p s, JsMap.get rid (tb_pending t) = Some p /\ pd_promise p = i
                     /\ tb_states t !! pd_state p = Some s /\ due s <= now).
Proof.
  induction 1 as [t|h tm t t' Hh Hdue _ IH]; intros Hok.
  { split_and!; [done | by intros r s Hs; exists s | done | by left]. }
  destruct (ok_timers t Hok h tm Hh) as (_ & p & Hp & Hph).
  pose proof (timeout_finished lastOffset now h tm t p Hok Hh Hp) as Hf.
  destruct IH as (Hok' & Hss & Hpd & Hpr); [by apply on_timeout_ok|].
  assert (Hsub : forall rid q, JsMap.get rid (tb_pending (on_timeout lastOffset now h t)) = Some q ->
                   JsMap.get rid (tb_pending t) = Some q).
  { intros rid q. rewrite (fin_pending _ _ _ _ _ Hf), JsMap.get_delete. by case_decide. }
  split_and!; [done | by eapply states_same_trans; [apply (fin_states _ _ _ _ _ Hf)|] | by auto|].
  assert (Hmine : exists rid p0 s, JsMap.get rid (tb_pending t) = Some p0 /\ pd_promise p0 = pd_promise p
                     /\ tb_states t !! pd_state p0 = Some s /\ due s <= now).
  { destruct (ok_pending t Hok _ _ Hp) as ((s & Hs & _ & _ & Htm) & _).
    exists (tm_requestId tm), p, s. split_and!; try done. rewrite Hph, Hh in Htm.
    injection Htm as E. rewrite E in Hdue. done. }
  destruct (ok_pending t Hok _ _ Hp) as (_ & Hnone & _).
  intros i. destruct (decide (i = pd_promise p)) as [->|Hne].
  - right. assert (Hnow : tb_promises (on_timeout lastOffset now h t) !! pd_promise p
                          = Some (Some (Rejected rk_timeout_error))).
    { rewrite (fin_promises _ _ _ _ _ Hf), list_lookup_alter_eq, Hnone. done. }
    split_and!; [|done|done]. destruct (Hpr (pd_promise p)) as [->|(_ & Hx & _)]; [done | congruence].
  - assert (Hsame : tb_promises (on_timeout lastOffset now h t) !! i = tb_promises t !! i)
      by (by rewrite (fin_promises _ _ _ _ _ Hf), list_lookup_alter_ne by congruence).
    rewrite <- Hsame. destruct (Hpr i) as [->|(H1 & H2 & rid & q & s' & Hq & Hqi & Hs' & Hd)]; [by left|].
    right. split_and!; [done|done|]. apply Hsub in Hq.
    destruct (ok_pending t Hok _ _ Hq) as ((s & Hs & _) & _). exists rid, q, s. split_and!; try done.
    destruct (states_same_due _ _ _ _ (fin_states _ _ _ _ _ Hf) Hs) as (s2 & Hs2 & _ & _ & E).
    rewrite Hs2 in Hs'. simplify_eq. lia.
Qed.

Lemma delete_length {V} k v (m : list (nat * V)) :
  JsMap.get k m = Some v -> (length (JsMap.delete k m) < length m)%nat.
Proof.
  unfold JsMap.delete. intros Hg%JsMap.get_Some_elem. apply (length_filter_lt _ _ (k, v)); [done|].
  cbn. tauto.
Qed.

(** The runtime can always run every timer that is due. *)
Lemma fires_all lastOffset now t :
  table_ok t -> exists t', fires lastOffset now t t'
    /\ forall h tm, JsMap.get h (tb_timers t') = Some tm -> now < tm_due tm.
Proof.
  remember (length (tb_timers t)) as n eqn:Hn. revert t Hn.
  induction n as [n IH] using lt_wf_ind. intros t -> Hok.
  destruct (decide (Exists (fun e : nat * timer => tm_due e.2 <= now) (tb_timers t))) as [He|Hne].
  - apply Exists_exists in He as ([h tm] & Hin & Hdue). cbn in Hdue.
    apply (JsMap.elem_get _ _ _ (ok_timers_wf t Hok)) in Hin.
    destruct (ok_timers t Hok h tm Hin) as (_ & p & Hp & Hph).
    pose proof (timeout_finished lastOffset now h tm t p Hok Hin Hp) as Hf.
    destruct (IH (length (tb_timers (on_timeout lastOffset now h t)))) with (t := on_timeout lastOffset now h t)
      as (t' & Hfs & Hlate); [|done|by apply on_timeout_ok|].
    { rewrite (fin_timers _ _ _ _ _ Hf), Hph. by eapply delete_length. }
    exists t'. split; [by eapply fires_one | done].
  - exists t. split; [constructor|]. intros h tm Hg%JsMap.get_Some_elem.
    apply Z.nle_gt. intros Hd. apply Hne, Exists_exists. by exists (h, tm).
Qed.

(** Which promises of [t] are settled in [t']: those that are due, by the
    timeout. *)
Definition timed_out (now : Z) t t' : Prop :=
  forall rid p s, JsMap.get rid (tb_pending t) = Some p -> tb_states t !! pd_state p = Some s ->
  tb_promises t' !! pd_promise p
  = Some (if decide (due s <= now) then Some (Rejected rk_timeout_error) else None).

Lemma fires_timed_out lastOffset now t t' :
  table_ok t -> fires lastOffset now t t' ->
  (forall h tm, JsMap.get h (tb_timers t') = Some tm -> now < tm_due tm) -> timed_out now t t'.
Proof.
  intros Hok Hf Hlate rid p s Hp Hs.
  destruct (fires_effect _ _ _ _ Hf Hok) as (Hok' & Hss & Hpd & Hpr).
  destruct (ok_pending t Hok rid p Hp) as (_ & Hnone & _).
  destruct (Hpr (pd_promise p)) as [Heq|(Hrej & _ & rid' & p' & s' & Hp' & Hpp & Hs' & Hd)].
  - rewrite Heq, Hnone. case_decide as Hd; [|done]. exfalso. rewrite Hnone in Heq.
    destruct (ok_promises t' Hok' _ Heq) as (rid' & p' & Hp' & Hpp).
    pose proof (Hpd _ _ Hp') as Hp''.
    assert (rid = rid') as <- by (by apply (ok_promise_inj t Hok rid rid' p p')).
    assert (p' = p) as -> by congruence.
    destruct (ok_pending t' Hok' _ _ Hp') as ((s' & Hs' & _ & _ & Htm) & _).
    apply Hlate in Htm. destruct (states_same_due _ _ _ _ Hss Hs) as (s2 & Hs2 & _ & _ & E). simplify_eq.
    cbn in Htm. lia.
  - rewrite Hrej. assert (rid = rid') as <- by (by apply (ok_promise_inj t Hok rid rid' p p')).
    simplify_eq. by rewrite decide_True.
Qed.
End Requests.

(** ** Runs of the dispatcher *)

(** The clock moves and the operations interleave in any order; what the
    dispatcher is given, the offsets, the answers of the transport, the session
    and the payloads, is arbitrary, and a request id is one that was not used. *)
Inductive dstep : Z * dispatcher -> Z * dispatcher -> Prop :=
  | D_clock now now' d : now <= now' -> dstep (now, d) (now', d)
  | D_observe now lastOffset send session u m sid opts timeout d :
      unused ("obs_" +:+ u) (dp_observes d) ->
      dstep (now, d) (now, (observeTerminal lastOffset send now session u m sid opts timeout d).2)
  | D_send now lastOffset send session u m sid interaction timeout rejectWith d :
      unused ("send_" +:+ u) (dp_sends d) ->
      dstep (now, d)
        (now, (sendInteraction lastOffset send now session u m sid interaction timeout rejectWith d).2)
  | D_output now sid endOffset d : dstep (now, d) (now, (noteOutputObserved sid endOffset d).2)
  | D_observe_result now payload d : dstep (now, d) (now, handleObserveResult payload d)
  | D_send_result now payload d : dstep (now, d) (now, handleSendResult payload d)
  | D_reject now lastOffset sids e d :
      dstep (now, d) (now, (rejectPendingRequestsForSessions lastOffset sids e d).2)
  | D_observe_timer now lastOffset h tm d :
      JsMap.get h (tb_timers (dp_observes d)) = Some tm -> tm_due tm <= now ->
      dstep (now, d) (now, mkDispatcher (on_timeout lastOffset now h (dp_observes d)) (dp_sends d) (dp_frames d))
  | D_send_timer now lastOffset h tm d :
      JsMap.get h (tb_timers (dp_sends d)) = Some tm -> tm_due tm <= now ->
      dstep (now, d) (now, mkDispatcher (dp_observes d) (on_timeout lastOffset now h (dp_sends d)) (dp_frames d)).

Definition dispatcher_ok (d : dispatcher) : Prop := table_ok (dp_observes d) /\ table_ok (dp_sends d).
Definition dispatcher_evolves (d d' : dispatcher) : Prop :=
  evolves (dp_observes d) (dp_observes d') /\ evolves (dp_sends d) (dp_sends d').

(** An operation keeps the dispatcher well-formed and its settlements. *)
Definition sound (d d' : dispatcher) : Prop := dispatcher_ok d -> dispatcher_ok d' /\ dispatcher_evolves d d'.

Lemma sound_refl d : sound d d.
Proof. intros Hd. split; [done|]. split; apply evolves_refl. Qed.

Lemma sound_tables d d' : dp_observes d' = dp_observes d -> dp_sends d' = dp_sends d -> sound d d'.
Proof.
  intros E1 E2 [Ho Hs]. unfold dispatcher_ok, dispatcher_evolves. rewrite E1, E2.
  split; [done|]. split; apply evolves_refl.
Qed.

Lemma sound_trans d1 d2 d3 : sound d1 d2 -> sound d2 d3 -> sound d1 d3.
Proof.
  intros H1 H2 Hd. destruct (H1 Hd) as [Hd2 [K1 K2]]. destruct (H2 Hd2) as [Hd3 [K3 K4]].
  split; [done|]. split; by eapply evolves_trans.
Qed.

Lemma observe_sound lastOffset send now session u m sid opts timeout d :
  unused ("obs_" +:+ u) (dp_observes d) ->
  sound d (observeTerminal lastOffset send now session u m sid opts timeout d).2.
Proof.
  intros Hu. unfold observeTerminal. destruct session as [budId|]; [|apply sound_refl].
  cbv zeta. destruct (negb _); [by apply sound_tables|].
  match goal with |- context [register now ?s0 _] => set (s := s0) end. cbn [dp_sends dp_observes dp_frames].
  destruct (register now s (dp_observes d)) as [promise t] eqn:E. intros [Ho Hs].
  assert (t = (register now s (dp_observes d)).2) as -> by (by rewrite E).
  split; [split; [by apply register_ok | done]|]. split; [apply register_evolves | apply evolves_refl].
Qed.

Lemma reject_sound lastOffset sid e except d :
  sound d (rejectPendingRequestsForSession lastOffset sid e except d).2.
Proof.
  intros [Ho Hs]. unfold rejectPendingRequestsForSession.
  pose proof (rejectSession_spec lastOffset sid e except (dp_observes d) Ho) as H1.
  pose proof (rejectSession_spec lastOffset sid e except (dp_sends d) Hs) as H2.
  destruct (rejectSession _ _ _ _ (dp_observes d)) as [n o].
  destruct (rejectSession _ _ _ _ (dp_sends d)) as [n' s].
  destruct H1 as (H1 & K1 & _ & _). destruct H2 as (H2 & K2 & _ & _). by split.
Qed.

Lemma rejects_sound lastOffset sids e d :
  sound d (rejectPendingRequestsForSessions lastOffset sids e d).2.
Proof.
  revert d. induction sids as [|sid sids IH]; intros d; [apply sound_refl|].
  cbn [rejectPendingRequestsForSessions].
  pose proof (reject_sound lastOffset sid e None d) as Hr.
  destruct (rejectPendingRequestsForSession lastOffset sid e None d) as [n d1].
  specialize (IH d1). destruct (rejectPendingRequestsForSessions lastOffset sids e d1) as [n2 d2].
  by eapply sound_trans.
Qed.

Lemma send_sound lastOffset send now session u m sid interaction timeout rejectWith d :
  unused ("send_" +:+ u) (dp_sends d) ->
  sound d (sendInteraction lastOffset send now session u m sid interaction timeout rejectWith d).2.
Proof.
  intros Hu. unfold sendInteraction. destruct session as [budId|]; [|apply sound_refl].
  cbv zeta. destruct (interaction_error interaction _); [apply sound_refl|].
  destruct (negb _); [by apply sound_tables|].
  match goal with |- context [register now ?s0 _] => set (s := s0) end. cbn [dp_sends dp_observes dp_frames].
  destruct (register now s (dp_sends d)) as [promise t] eqn:E.
  assert (Hreg : forall fs, sound d (mkDispatcher (dp_observes d) t fs)).
  { intros fs [Ho Hs]. assert (t = (register now s (dp_sends d)).2) as -> by (by rewrite E).
    split; [split; [done | by apply register_ok]|]. split; [apply evolves_refl | apply register_evolves]. }
  destruct rejectWith as [[|c e]|]; cbn [snd]; [apply Hreg| |apply Hreg].
  match goal with |- context [rejectPendingRequestsForSession ?lo ?si ?er ?ex ?d1] =>
    pose proof (reject_sound lo si er ex d1) as Hr;
    destruct (rejectPendingRequestsForSession lo si er ex d1) as [n d2] end.
  eapply sound_trans; [apply Hreg | exact Hr].
Qed.

Lemma dstep_sound x y : dstep x y -> sound x.2 y.2.
Proof.
  destruct 1; cbn [snd].
  - apply sound_refl.
  - by apply observe_sound.
  - by apply send_sound.
  - intros [Ho Hs]. unfold noteOutputObserved.
    pose proof (noteOutput_ok sid endOffset (dp_observes d) Ho).
    pose proof (noteOutput_ok sid endOffset (dp_sends d) Hs).
    pose proof (noteOutput_evolves sid endOffset (dp_observes d)).
    pose proof (noteOutput_evolves sid endOffset (dp_sends d)).
    destruct (noteOutput sid endOffset (dp_observes d)), (noteOutput sid endOffset (dp_sends d)). by split.
  - intros [Ho Hs]. split; [split; [by apply handleResult_ok | done]|].
    split; [apply handleResult_evolves | apply evolves_refl].
  - intros [Ho Hs]. split; [split; [done | by apply handleResult_ok]|].
    split; [apply evolves_refl | apply handleResult_evolves].
  - apply rejects_sound.
  - intros [Ho Hs]. split; [split; [by apply on_timeout_ok | done]|].
    split; [by apply on_timeout_evolves | apply evolves_refl].
  - intros [Ho Hs]. split; [split; [done | by apply on_timeout_ok]|].
    split; [apply evolves_refl | by apply on_timeout_evolves].
Qed.

Lemma dsteps_sound x y : rtc dstep x y -> sound x.2 y.2.
Proof.
  induction 1 as [x|x y z Hxy _ IH]; [apply sound_refl|].
  eapply sound_trans; [by apply dstep_sound | done].
Qed.

Lemma reachable_ok now0 x : rtc dstep (now0, initial_dispatcher) x -> dispatcher_ok x.2.
Proof. intros Hr. apply (dsteps_sound _ _ Hr). split; apply initial_ok. Qed.

(** ** The claims *)

(** What answers and rejections settle: an answer exactly the request it names, with the daemon's
    error or its result, and none when that request is not pending; rejecting the requests of a
    session exactly its pending requests, but the excepted one, and it returns how many. *)
Definition settles_exactly {I R} `{RequestKind I} (t : table I R) : Prop :=
  forall requestId error (result : R) lastOffset sessionId message except,
  (forall rid p, JsMap.get rid (tb_pending t) = Some p ->
     tb_promises (handleResult requestId error result t) !! pd_promise p
     = Some (if decide (rid = requestId) then Some (result_settlement error result) else None))
  /\ let '(n, t') := rejectSession lastOffset sessionId message except t in
     n = zlen (filter (fun e : string * Pending => pd_sessionId e.2 = sessionId /\ Some e.1 <> except)
                 (tb_pending t))
     /\ forall rid p, JsMap.get rid (tb_pending t) = Some p ->
        tb_promises t' !! pd_promise p
        = Some (if decide (pd_sessionId p = sessionId /\ Some rid <> except)
                then Some (Rejected message) else None).

Lemma table_settles_exactly {I R} `{RequestKind I} (t : table I R) : table_ok t -> settles_exactly t.
Proof.
  intros Hok requestId error result lastOffset sessionId message except. split.
  - intros rid p Hp. destruct (ok_pending t Hok rid p Hp) as (_ & Hnone & _).
    destruct (JsMap.get requestId (tb_pending t)) as [q|] eqn:Eq.
    + rewrite (fin_promises _ _ _ _ _ (handleResult_finished requestId error result t q Eq)).
      case_decide as E; [subst; simplify_eq; by rewrite list_lookup_alter_eq, Hnone|].
      rewrite list_lookup_alter_ne; [done|]. intros E'. apply E.
      by apply (ok_promise_inj t Hok rid requestId p q).
    + rewrite decide_False by (intros ->; congruence). unfold handleResult. rewrite Eq.
      destruct (_ ≫= st_timedOutAt) as [a|]; [|done]. by destruct (a =? 0).
  - pose proof (rejectSession_spec lastOffset sessionId message except t Hok) as Hspec.
    destruct (rejectSession lastOffset sessionId message except t) as [n t'].
    destruct Hspec as (_ & _ & -> & Hall). split.
    + unfold zlen. f_equal. apply Permutation_length, NoDup_Permutation.
      * eapply NoDup_fmap_1, (rejected_keys sessionId except t Hok).
      * apply NoDup_filter. eapply NoDup_fmap_1, (ok_pending_wf t Hok).
      * intros [rid p]. rewrite rejected_entries_spec by done. rewrite list_elem_of_filter. cbn [fst snd].
        split; [intros (H1 & H2 & H3); split; [done | by apply JsMap.get_Some_elem]|].
        intros [[H1 H2] H3]. split_and!; [|done|done]. apply JsMap.elem_get; [apply Hok | done].
    + intros rid p Hp. specialize (Hall rid p Hp). by case_decide; destruct Hall as [_ ->].
Qed.

(** What becomes of a recent entry: an answer leaves none of its request, unless it timed
    out at time 0, and pruning leaves those that are pending or at most five minutes old. *)
Definition forgets {I R} `{RequestKind I} (t : table I R) : Prop :=
  (forall requestId error (result : R) r s,
     JsMap.get requestId (tb_recent (handleResult requestId error result t)) = Some r ->
     tb_states t !! r = Some s -> st_timedOutAt s = Some 0)
  /\ forall now rid r s,
     JsMap.get rid (tb_recent (pruneRecentStates now t)) = Some r -> tb_states t !! r = Some s ->
     is_Some (JsMap.get rid (tb_pending t))
     \/ now - (st_timedOutAt s ?? st_startedAt s) <= RETENTION_MS.

Lemma table_forgets {I R} `{RequestKind I} (t : table I R) : table_ok t -> forgets t.
Proof.
  intros Hok. split.
  - intros requestId error result r s. unfold handleResult.
    destruct (JsMap.get requestId (tb_pending t)) as [p|] eqn:Ep.
    { by destruct error as [e|]; [destruct (str_truthy e)|]; intros []%get_deleted. }
    destruct (JsMap.get requestId (tb_recent t)) as [r'|] eqn:Er; cbn [mbind option_bind].
    2:{ rewrite Er. done. }
    destruct (ok_recent t Hok _ _ Er) as (s' & Hs' & _ & Hw). rewrite Hs'. cbn [mbind option_bind].
    destruct Hw as [[p Hp]|[a Ha]]; [congruence|]. rewrite Ha.
    destruct (Z.eqb_spec a 0) as [->|]; [|by intros []%get_deleted].
    rewrite Er. intros [= <-] Hs. congruence.
  - intros now rid r s Hg Hs. apply JsMap.get_Some_elem, list_elem_of_filter in Hg as [Hst _].
    destruct (JsMap.get rid (tb_pending t)) as [p|] eqn:Ep; [left; by eexists|right].
    apply Z.nlt_ge. intros Hlt. apply Hst. unfold stale. cbn. by rewrite Hs.
Qed.

(** C24: through any interleaving of requests, answers, output, rejections and timeouts, each
    unsettled promise belongs to exactly one pending request, whose state object, recent entry and
    armed timer are in place; of a request that ended no pending entry and no armed timer is left,
    and a recent entry only of one that timed out, until a late answer or the pruning after five
    minutes; a settlement is never changed; an answer settles exactly the request it names, with the
    daemon's error or its result, and none when that request is not pending, and rejecting the
    requests of a session settles exactly its pending requests, but the excepted one, and returns
    how many they were. *)
Theorem requests_settle_once now0 x y :
  rtc dstep (now0, initial_dispatcher) x -> rtc dstep x y ->
  dispatcher_ok y.2 /\ dispatcher_evolves x.2 y.2
  /\ (settles_exactly (dp_observes y.2) /\ settles_exactly (dp_sends y.2))
  /\ forgets (dp_observes y.2) /\ forgets (dp_sends y.2).
Proof.
  intros Hx Hy. destruct (dsteps_sound _ _ Hy) as [Hok He]; [by apply (reachable_ok now0)|].
  split; [done|]. split; [done|]. destruct Hok.
  split; split; by (apply table_settles_exactly || apply table_forgets).
Qed.

Lemma fires_observe_steps lastOffset now d t' :
  fires lastOffset now (dp_observes d) t' ->
  rtc dstep (now, d) (now, mkDispatcher t' (dp_sends d) (dp_frames d)).
Proof.
  intros Hf. remember (dp_observes d) as t eqn:E. revert d E.
  induction Hf as [t|h tm t t' Hh Hdue _ IH]; intros d ->.
  - destruct d. apply rtc_refl.
  - eapply rtc_l; [by eapply D_observe_timer|].
    apply (IH (mkDispatcher (on_timeout lastOffset now h (dp_observes d)) (dp_sends d) (dp_frames d)) eq_refl).
Qed.

Lemma fires_send_steps lastOffset now d t' :
  fires lastOffset now (dp_sends d) t' ->
  rtc dstep (now, d) (now, mkDispatcher (dp_observes d) t' (dp_frames d)).
Proof.
  intros Hf. remember (dp_sends d) as t eqn:E. revert d E.
  induction Hf as [t|h tm t t' Hh Hdue _ IH]; intros d ->.
  - destruct d. apply rtc_refl.
  - eapply rtc_l; [by eapply D_send_timer|].
    apply (IH (mkDispatcher (dp_observes d) (on_timeout lastOffset now h (dp_sends d)) (dp_frames d)) eq_refl).
Qed.

(** Of the requests pending in [t], those due by [now] are settled in [t']. *)
Definition due_settled {I R} (now : Z) (t t' : table I R) : Prop :=
  forall rid p s, JsMap.get rid (tb_pending t) = Some p -> tb_states t !! pd_state p = Some s ->
  due s <= now -> exists x, tb_promises t' !! pd_promise p = Some (Some x).

Definition none_overdue {I R} (now : Z) (t : table I R) : Prop :=
  forall h tm, JsMap.get h (tb_timers t) = Some tm -> now < tm_due tm.

Lemma evolved_due_settled {I R} `{RequestKind I} now (t t' : table I R) :
  table_ok t -> table_ok t' -> evolves t t' -> none_overdue now t' -> due_settled now t t'.
Proof.
  intros Hok Hok' Hev Hno rid p s Hp Hs Hd. destruct (ok_pending t Hok rid p Hp) as (_ & Hnone & _).
  apply lookup_lt_Some in Hnone as Hlt. pose proof (ev_length _ _ Hev).
  destruct (lookup_lt_is_Some_2 (tb_promises t') (pd_promise p)) as [[x|] Hx]; [lia|by exists x|].
  exfalso. destruct (ok_promises t' Hok' _ Hx) as (rid' & p' & Hp' & Hpp).
  assert (Hp'' : JsMap.get rid' (tb_pending t) = Some p') by (apply (ev_pending _ _ Hev); [done | lia]).
  assert (rid = rid') as <- by (by apply (ok_promise_inj t Hok rid rid' p p')).
  assert (p' = p) as -> by congruence.
  destruct (ok_pending t' Hok' _ _ Hp') as ((s' & Hs' & _ & _ & Htm) & _). apply Hno in Htm.
  destruct (states_same_due _ _ _ _ (ev_states _ _ Hev) Hs) as (s2 & Hs2 & _ & _ & E). simplify_eq.
  cbn in Htm. lia.
Qed.

(** C25: every request ends.  From any reachable state and for any later time, running the timers
    that are due leads to a state where each request due by then was rejected as timed out and the
    others still wait; and in whatever way that time is reached, once no armed timer is overdue
    every request due by then is settled. *)
Theorem requests_end now0 now d now' (lastOffset : string -> Z) :
  rtc dstep (now0, initial_dispatcher) (now, d) -> now <= now' ->
  (exists d', rtc dstep (now, d) (now', d')
     /\ timed_out now' (dp_observes d) (dp_observes d') /\ timed_out now' (dp_sends d) (dp_sends d'))
  /\ (forall d', rtc dstep (now, d) (now', d') ->
        none_overdue now' (dp_observes d') -> none_overdue now' (dp_sends d') ->
        due_settled now' (dp_observes d) (dp_observes d') /\ due_settled now' (dp_sends d) (dp_sends d')).
Proof.
  intros Hr Hle. pose proof (reachable_ok now0 _ Hr) as [Ho Hs]. cbn [snd] in *. split.
  - destruct (fires_all lastOffset now' (dp_observes d) Ho) as (o & Fo & Lo).
    destruct (fires_all lastOffset now' (dp_sends d) Hs) as (s & Fs & Ls).
    exists (mkDispatcher o s (dp_frames d)). split_and!.
    + eapply rtc_l; [by apply D_clock|]. etrans; [by eapply fires_observe_steps|].
      by apply (fires_send_steps lastOffset now' (mkDispatcher o (dp_sends d) (dp_frames d))).
    + by eapply fires_timed_out.
    + by eapply fires_timed_out.
  - intros d' Hd' No Ns. destruct (dsteps_sound _ _ Hd') as [[Ho' Hs'] [Eo Es]]; [by split|].
    cbn [snd] in *. split; by apply evolved_due_settled.
Qed.

(** ** Witnesses *)

Module DispatcherExample.
Definition observed : dispatcher :=
  Eval vm_compute in
    (observeTerminal (fun _ => 7) (fun _ _ => true) 1000 (Some "bud") "A" "M" "term"
       (mkObserveOptions None None None None) None initial_dispatcher).2.
Definition answered : dispatcher :=
  Eval vm_compute in
    handleObserveResult
      (mkObservePayload "obs_A"
         (mkObserveResult "screen" "aGk=" (JFin 1) None None None None None None None None None) None)
      observed.

Lemma observed_reached : rtc dstep (1000, initial_dispatcher) (1000, observed).
Proof.
  apply rtc_once. refine (D_observe 1000 (fun _ => 7) (fun _ _ => true) (Some "bud") "A" "M" "term"
    (mkObserveOptions None None None None) None initial_dispatcher _). constructor.
Qed.
End DispatcherExample.

Lemma requests_settle_once_witness :
  dispatcher_ok DispatcherExample.answered
  /\ dispatcher_evolves DispatcherExample.observed DispatcherExample.answered
  /\ (rejectSession (R := ObserveResult) (fun _ => 9) "term" "session_closed" None
       (dp_observes DispatcherExample.observed)).1 = 1.
Proof.
  pose proof (requests_settle_once 1000 (1000, DispatcherExample.observed)
    (1000, DispatcherExample.observed) DispatcherExample.observed_reached (rtc_refl _ _)) as (_ & _ & [Hs _] & _).
  destruct (requests_settle_once 1000 (1000, DispatcherExample.observed) (1000, DispatcherExample.answered)
    DispatcherExample.observed_reached) as (Hok & He & _).
  { apply rtc_once. refine (D_observe_result 1000 (mkObservePayload "obs_A"
      (mkObserveResult "screen" "aGk=" (JFin 1) None None None None None None None None None) None) _). }
  split; [exact Hok|]. split; [exact He|].
  destruct (Hs "obs_A" None (mkObserveResult "screen" "hi" (JFin 1) None None None None None None None None None)
    (fun _ => 9) "term" "session_closed" None) as [_ Hr]. cbn [snd] in Hr.
  destruct (rejectSession _ _ _ _ _) as [n t']. destruct Hr as [-> _]. by vm_compute.
Defined.

Lemma requests_end_witness :
  exists d', rtc dstep (1000, DispatcherExample.observed) (31000, d')
    /\ tb_promises (dp_observes d') !! 0%nat = Some (Some (Rejected "observe_timeout")).
Proof.
  destruct (requests_end 1000 1000 DispatcherExample.observed 31000 (fun _ => 7)
    DispatcherExample.observed_reached ltac:(lia)) as [(d' & Hd' & Ho & _) _].
  exists d'. split; [exact Hd'|].
  exact (Ho "obs_A" (mkPending "term" 0 0 0) _ eq_refl eq_refl).
Defined.

