(* ===== verification/TerminalGrid.v ===== *)
(** The terminal grid of the web client
    ([web/src/features/threads/terminal-grid-state.ts]): a reducer over grid
    frames, and its refinement of the screen the daemon has.

    A row is the list of its runs.  The reducer keeps the array of a row whose
    content did not change; content is compared by [gridRowsEqual], under which an
    absent attribute is 0, so states are compared up to that equivalence. *)
From Stdlib Require Import ZArith Lia.
From stdpp Require Import base tactics strings gmap sorting option pretty.
From stdpp Require Import list.
From S2P Require Import Prelude JsRuntime Json.
Open Scope Z_scope.

(** ** Data *)

Inductive GridColor :=
  | Palette (n : Z)
  | Rgb (r g b : Z).

#[export] Instance GridColor_dec : EqDecision GridColor.
Proof. solve_decision. Defined.

Record GridRun := mkRun {
  run_t : string;
  run_fg : option GridColor;
  run_bg : option GridColor;
  run_a : option Z;
}.

Definition row := list GridRun.

Inductive GridCursorShape := Block | Underline | Beam.

Record GridCursor := mkCursor {
  cur_row : Z;
  cur_col : Z;
  cur_visible : bool;
  cur_shape : option GridCursorShape;
  cur_blink : option bool;
}.

Inductive GridMouseReport := MouseNone | MouseClick | MouseDrag | MouseMotion.

Record GridMouseModes := mkMouse {
  mo_report : GridMouseReport;
  mo_sgr : bool;
  mo_altScroll : bool;
}.

Record TerminalGridFrame := mkFrame {
  fr_generation : Z;
  fr_full : bool;
  fr_cols : Z;
  fr_rows : Z;
  fr_alt_screen : bool;
  fr_cursor : GridCursor;
  fr_dirty_rows : list (Z * row);
  fr_scrollback_push : list row;
  fr_scrollback_dropped : option Z;
  fr_predict_ok : option bool;
  fr_applied_input_seq : option Z;
  fr_mouse : option GridMouseModes;
  fr_app_cursor : option bool;
  fr_row_shift : option Z;
}.

Record TerminalGridState := mkGrid {
  gs_seeded : bool;
  gs_generation : Z;
  gs_cols : Z;
  gs_rows : Z;
  gs_altScreen : bool;
  gs_cursor : GridCursor;
  gs_grid : list row;
  gs_scrollback : list row;
  gs_scrollbackStart : Z;
  gs_scrollbackDropped : Z;
  gs_predictOk : bool;
  gs_appliedInputSeq : option Z;
  gs_mouse : GridMouseModes;
  gs_appCursor : bool;
}.

Definition GRID_SCROLLBACK_CAP : nat := 5000.

Definition emptyGridState : TerminalGridState :=
  mkGrid false 0 0 0 false (mkCursor 0 0 true None None) [] [] 0 0 false None
    (mkMouse MouseNone false true) false.

(** ** The reducer *)

Definition colorEqual (a b : option GridColor) : bool := bool_decide (a = b).

Definition runEqual (ra rb : GridRun) : bool :=
  bool_decide (run_t ra = run_t rb) && (run_a ra ?? 0 =? run_a rb ?? 0)
  && colorEqual (run_fg ra) (run_fg rb) && colorEqual (run_bg ra) (run_bg rb).

Fixpoint gridRowsEqual (a b : row) : bool :=
  match a, b with
  | [], [] => true
  | ra :: a, rb :: b => runEqual ra rb && gridRowsEqual a b
  | _, _ => false
  end.

(** [Array.from({ length }, (_, i) => f(i))]. *)
Definition array_from {A} (length : Z) (f : Z -> A) : list A :=
  (fun i => f (Z.of_nat i)) <$> seq 0 (Z.to_nat length).

Definition at_index (l : list row) (i : Z) : option row := if i <? 0 then None else l !! Z.to_nat i.

(** The rows before the dirty rows are written. *)
Definition base_grid (state : TerminalGridState) (frame : TerminalGridFrame) : list row :=
  if fr_full frame then
    let sameGeometry := (gs_rows state =? fr_rows frame) && (gs_cols state =? fr_cols frame) in
    array_from (fr_rows frame) (fun i => if sameGeometry then at_index (gs_grid state) i ?? [] else [])
  else
    let shift := fr_row_shift frame ?? 0 in
    if shift =? 0 then gs_grid state
    else
      array_from (fr_rows frame) (fun i =>
        let src := i + shift in
        if (0 <=? src) && (src <? zlen (gs_grid state)) then at_index (gs_grid state) src ?? [] else []).

(** [grid[row] = ...]: past the end the array grows, with holes read as absent. *)
Definition write_row (rows : Z) (grid : list row) (dirty : Z * row) : list row :=
  let '(i, runs) := dirty in
  if (0 <=? i) && (i <? rows) then
    let n := Z.to_nat i in
    match grid !! n with
    | Some prev => if gridRowsEqual prev runs then grid else <[n := runs]> grid
    | None => grid ++ replicate (n - length grid) [] ++ [runs]
    end
  else grid.

Definition applyGridFrame (state : TerminalGridState) (frame : TerminalGridFrame)
  : TerminalGridState * bool :=
  let contiguous :=
    gs_seeded state && (fr_generation frame =? gs_generation state + 1)
    && (fr_cols frame =? gs_cols state) && (fr_rows frame =? gs_rows state) in
  if negb (fr_full frame) && negb contiguous then (state, true)
  else
    let grid := foldl (write_row (fr_rows frame)) (base_grid state frame) (fr_dirty_rows frame) in
    let scrollback := gs_scrollback state ++ fr_scrollback_push frame in
    let over := (length scrollback - GRID_SCROLLBACK_CAP)%nat in
    let '(scrollback, scrollbackStart) :=
      if (0 <? length (fr_scrollback_push frame))%nat then
        (drop over scrollback, gs_scrollbackStart state + Z.of_nat over)
      else (gs_scrollback state, gs_scrollbackStart state) in
    let scrollbackDropped := gs_scrollbackDropped state + (fr_scrollback_dropped frame ?? 0) in
    let scrollbackDropped :=
      if fr_full frame && gs_seeded state && negb (fr_generation frame =? gs_generation state + 1)
      then scrollbackDropped + 1 else scrollbackDropped in
    (mkGrid true (fr_generation frame) (fr_cols frame) (fr_rows frame) (fr_alt_screen frame)
       (fr_cursor frame) grid scrollback scrollbackStart scrollbackDropped
       (fr_predict_ok frame ?? false)
       (match fr_applied_input_seq frame with
        | Some n => Some (Z.max n (gs_appliedInputSeq state ?? 0))
        | None => gs_appliedInputSeq state
        end)
       (fr_mouse frame ?? gs_mouse state)
       (fr_app_cursor frame ?? gs_appCursor state), false).

(** [text.split("\n")]. *)
Fixpoint split_lines (cur s : string) : list string :=
  match s with
  | EmptyString => [cur]
  | String c s =>
      if (code c =? 10)%N then cur :: split_lines "" s else split_lines (cur +:+ String c "") s
  end.

Definition seedGridScrollback (state : TerminalGridState) (historyText : string) : TerminalGridState :=
  let set_scrollback sb :=
    mkGrid (gs_seeded state) (gs_generation state) (gs_cols state) (gs_rows state) (gs_altScreen state)
      (gs_cursor state) (gs_grid state) sb 0 (gs_scrollbackDropped state) (gs_predictOk state)
      (gs_appliedInputSeq state) (gs_mouse state) (gs_appCursor state) in
  if negb (str_truthy historyText) then set_scrollback []
  else
    let scrollback :=
      (fun line => if str_truthy line then [mkRun line None None None] else []) <$> split_lines "" historyText in
    set_scrollback (drop (length scrollback - GRID_SCROLLBACK_CAP) scrollback).

Definition gridRowText (runs : row) : string := String.concat "" (run_t <$> runs).

(** ** Colours *)

Definition ANSI_16 : list string :=
  ["#000000"; "#cd3131"; "#0dbc79"; "#e5e510"; "#2472c8"; "#bc3fbc"; "#11a8cd"; "#e5e5e5";
   "#666666"; "#f14c4c"; "#23d18b"; "#f5f543"; "#3b8eea"; "#d670d6"; "#29b8db"; "#ffffff"].

Definition rgb_text (r g b : Z) : string :=
  "rgb(" +:+ pretty r +:+ ", " +:+ pretty g +:+ ", " +:+ pretty b +:+ ")".

Definition gridColorToCss (color : option GridColor) (fallback : string) : string :=
  match color with
  | None => fallback
  | Some (Rgb r g b) => rgb_text r g b
  | Some (Palette n) =>
      if n <? 16 then (if n <? 0 then fallback else ANSI_16 !! Z.to_nat n ?? fallback)
      else if n <? 232 then
        let index := n - 16 in
        let level i := [0; 95; 135; 175; 215; 255] !! Z.to_nat i ?? 0 in
        rgb_text (level (index / 36 mod 6)) (level (index / 6 mod 6)) (level (index mod 6))
      else if n <? 256 then
        let value := 8 + (n - 232) * 10 in rgb_text value value value
      else fallback
  end.

(** ** Equality of content *)

Definition run_eq (ra rb : GridRun) : Prop :=
  run_t ra = run_t rb /\ run_a ra ?? 0 = run_a rb ?? 0 /\ run_fg ra = run_fg rb /\ run_bg ra = run_bg rb.

Definition row_eq : row -> row -> Prop := Forall2 run_eq.

#[export] Instance run_eq_equiv : Equivalence run_eq.
Proof.
  split; unfold run_eq; [by intros r | by intros a b (-> & -> & -> & ->)|].
  intros a b c (-> & -> & -> & ->). done.
Qed.

#[export] Instance row_eq_equiv : Equivalence row_eq.
Proof. unfold row_eq. split; apply _. Qed.

Lemma gridRowsEqual_spec a b : gridRowsEqual a b = true <-> row_eq a b.
Proof.
  revert b. induction a as [|ra a IH]; intros [|rb b]; cbn.
  - split; [constructor | done].
  - split; [done|]. intros E. inversion E.
  - split; [done|]. intros E. inversion E.
  - unfold runEqual, colorEqual. rewrite !andb_true_iff, !bool_decide_eq_true, Z.eqb_eq, IH. split.
    + intros ((((? & ?) & ?) & ?) & ?). by constructor.
    + intros E. inversion E as [|? ? ? ? (? & ? & ? & ?)]; subst. done.
Qed.

#[export] Instance gridRowText_proper : Proper (row_eq ==> eq) gridRowText.
Proof.
  intros a b Hab. unfold gridRowText. f_equal.
  induction Hab as [|ra rb a b (E & _) _ IH]; cbn; [done|]. unfold fmap in *. by rewrite E, IH.
Qed.

#[export] Instance gridRowsEqual_proper : Proper (row_eq ==> row_eq ==> eq) gridRowsEqual.
Proof.
  intros a a' Ha b b' Hb. apply eq_bool_prop_intro. rewrite !Is_true_true, !gridRowsEqual_spec.
  by rewrite Ha, Hb.
Qed.

(** ** Writing rows *)

(** The content a list of dirty rows gives row [i]: the last one counts. *)
Definition written (i : Z) (dirty : list (Z * row)) : option row :=
  last (omap (fun d : Z * row => if decide (d.1 = i) then Some d.2 else None) dirty).

Lemma written_snoc i dirty d :
  written i (dirty ++ [d]) = if decide (d.1 = i) then Some d.2 else written i dirty.
Proof.
  unfold written. rewrite omap_app. cbn. case_decide; [by rewrite last_snoc | by rewrite app_nil_r].
Qed.

(** Rows are written in place; an index outside the grid is ignored. *)
Lemma write_rows rows grid dirty :
  zlen grid = rows ->
  let grid' := foldl (write_row rows) grid dirty in
  zlen grid' = rows
  /\ forall i r, grid !! i = Some r -> exists r', grid' !! i = Some r'
     /\ row_eq r' (written (Z.of_nat i) dirty ?? r).
Proof.
  intros Hlen. induction dirty as [|[j runs] dirty IH] using rev_ind; cbn.
  { split; [done|]. intros i r Hr. by exists r. }
  rewrite foldl_app. cbn [foldl]. destruct IH as [Hl IH].
  set (g := foldl (write_row rows) grid dirty) in *. unfold write_row.
  destruct ((0 <=? j) && (j <? rows)) eqn:Hj.
  - apply andb_true_iff in Hj as [Hj1 Hj2]. zbool. destruct (g !! Z.to_nat j) as [prev|] eqn:Eg.
    2: { apply lookup_ge_None in Eg. unfold zlen in Hl. lia. }
    assert (Hw : forall x, row_eq x runs -> zlen (<[Z.to_nat j := x]> g) = rows
      /\ forall i r, grid !! i = Some r -> exists r', <[Z.to_nat j := x]> g !! i = Some r'
           /\ row_eq r' (written (Z.of_nat i) (dirty ++ [(j, runs)]) ?? r)).
    { intros x Hx. split; [unfold zlen; by rewrite length_insert|]. intros i r Hr.
      destruct (IH i r Hr) as (r' & Hr' & Heq). rewrite written_snoc. cbn [fst snd].
      destruct (decide (i = Z.to_nat j)) as [->|Hne].
      - rewrite list_lookup_insert_eq by (apply lookup_lt_Some in Eg; done). rewrite decide_True by lia. by exists x.
      - rewrite list_lookup_insert_ne, decide_False by lia. by exists r'. }
    destruct (gridRowsEqual prev runs) eqn:Er; [|by apply Hw].
    apply gridRowsEqual_spec in Er. rewrite <- (list_insert_id g (Z.to_nat j) prev Eg). by apply Hw.
  - split; [done|]. intros i r Hr. destruct (IH i r Hr) as (r' & Hr' & Heq). exists r'. split; [done|].
    rewrite written_snoc. cbn [fst]. case_decide as E; [|done]. subst j.
    apply lookup_lt_Some in Hr. apply andb_false_iff in Hj. unfold zlen in Hlen.
    destruct Hj; zbool; lia.
Qed.

Lemma array_from_length {A} n (f : Z -> A) : 0 <= n -> zlen (array_from n f) = n.
Proof. intros Hn. unfold array_from, zlen. rewrite length_fmap, length_seq. lia. Qed.

Lemma array_from_lookup {A} n (f : Z -> A) i :
  Z.of_nat i < n -> array_from n f !! i = Some (f (Z.of_nat i)).
Proof.
  intros Hi. unfold array_from. rewrite list_lookup_fmap, lookup_seq_lt by lia. done.
Qed.

Lemma Forall2_default {A} (P : A -> A -> Prop) (l k : list A) n d :
  Forall2 P l k -> P d d -> P (l !! n ?? d) (k !! n ?? d).
Proof.
  intros Hlk Hd. rewrite Forall2_lookup in Hlk. by destruct (Hlk n).
Qed.

(** ** The daemon's screen *)

(** The screen of the daemon's emulator at a generation of an attachment. *)
Record screen := mkScreen {
  sc_cols : Z;
  sc_rows : Z;
  sc_alt_screen : bool;
  sc_cursor : GridCursor;
  sc_cells : list row;
}.

(** What the protocol says a frame means (proto 6.8.2, 6.8.5), given the screens
    by generation: a full frame has every row; a delta gives the rows that differ
    from the previous screen, moved up by the scroll hint. *)
Definition scrolled (shift : Z) (cells : list row) (i : nat) : row :=
  if shift =? 0 then cells !! i ?? []
  else let src := Z.of_nat i + shift in if src <? 0 then [] else cells !! Z.to_nat src ?? [].

Definition frame_of (history : Z -> screen) (f : TerminalGridFrame) : Prop :=
  let s := history (fr_generation f) in
  fr_cols f = sc_cols s /\ fr_rows f = sc_rows s /\ fr_alt_screen f = sc_alt_screen s
  /\ fr_cursor f = sc_cursor s
  /\ forall i r, sc_cells s !! i = Some r ->
     match written (Z.of_nat i) (fr_dirty_rows f) with
     | Some runs => row_eq runs r
     | None => fr_full f = false
               /\ row_eq (scrolled (fr_row_shift f ?? 0) (sc_cells (history (fr_generation f - 1))) i) r
     end.

Definition screen_wf (s : screen) : Prop := zlen (sc_cells s) = sc_rows s.

(** The client shows the screen of its generation. *)
Definition shows (history : Z -> screen) (st : TerminalGridState) : Prop :=
  gs_seeded st = true ->
  let s := history (gs_generation st) in
  gs_cols st = sc_cols s /\ gs_rows st = sc_rows s /\ gs_altScreen st = sc_alt_screen s
  /\ gs_cursor st = sc_cursor s /\ Forall2 row_eq (gs_grid st) (sc_cells s).

Section History.
Context (history : Z -> screen) (Hwf : forall g, screen_wf (history g)).

Lemma base_grid_length st f :
  frame_of history f -> shows history st ->
  (fr_full f = false -> gs_seeded st = true /\ fr_generation f = gs_generation st + 1
     /\ fr_rows f = gs_rows st) ->
  zlen (base_grid st f) = fr_rows f.
Proof.
  intros (_ & Hr & _) Hs Hd. assert (Hpos : 0 <= fr_rows f).
  { rewrite Hr, <- (Hwf (fr_generation f)). apply zlen_nonneg. }
  unfold base_grid. destruct (fr_full f); [by apply array_from_length|].
  destruct (Hd eq_refl) as (Hsd & _ & Hrows).
  destruct (_ =? 0); [|by apply array_from_length].
  destruct (Hs Hsd) as (_ & Hr' & _ & _ & Hg). apply Forall2_length in Hg.
  rewrite Hrows, Hr', <- (Hwf (gs_generation st)). unfold zlen. by rewrite Hg.
Qed.

(** The scroll hint moves the rows of the client as it moves those of the screen. *)
Lemma base_grid_scrolled st f i :
  shows history st -> gs_seeded st = true -> fr_full f = false ->
  Z.of_nat i < fr_rows f -> fr_rows f = gs_rows st ->
  exists r, base_grid st f !! i = Some r
    /\ row_eq r (scrolled (fr_row_shift f ?? 0) (sc_cells (history (gs_generation st))) i).
Proof.
  intros Hs Hsd Hfull Hi Hrows. destruct (Hs Hsd) as (_ & Hr' & _ & _ & Hg). cbn in Hr', Hg.
  pose proof (fun n => Forall2_default row_eq (gs_grid st) (sc_cells (history (gs_generation st))) n [] Hg
    (reflexivity [])) as Hat.
  unfold base_grid, scrolled. rewrite Hfull. destruct (_ =? 0).
  - destruct (lookup_lt_is_Some_2 (gs_grid st) i) as [r Er].
    { apply Forall2_length in Hg. pose proof (Hwf (gs_generation st)) as Hw. unfold screen_wf, zlen in Hw. lia. }
    exists r. split; [done|]. pose proof (Hat i) as Hn. by rewrite Er in Hn.
  - rewrite array_from_lookup by done. eexists. split; [done|]. cbn zeta.
    set (src := Z.of_nat i + _). destruct (Z.ltb_spec src 0) as [Hlt|Hge].
    + rewrite (proj2 (Z.leb_gt 0 src)) by lia. done.
    + rewrite (proj2 (Z.leb_le 0 src)) by lia. cbn [andb].
      destruct (src <? zlen (gs_grid st)) eqn:E; zbool.
      * unfold at_index. rewrite (proj2 (Z.ltb_ge src 0)) by lia. apply Hat.
      * specialize (Hat (Z.to_nat src)).
        assert (gs_grid st !! Z.to_nat src = None) as En by (apply lookup_ge_None; unfold zlen in *; lia).
        by rewrite En in Hat.
Qed.

Lemma apply_shows st f :
  frame_of history f -> shows history st -> shows history (applyGridFrame st f).1.
Proof.
  intros Hf Hs. unfold applyGridFrame.
  destruct (negb (fr_full f) && negb _) eqn:Ec; [done|].
  match goal with |- context [let '(_, _) := ?x in _] => destruct x as [sb start] end.
  intros _. cbn [fst gs_generation gs_cols gs_rows gs_altScreen gs_cursor gs_grid].
  pose proof Hf as (Hc & Hr & Ha & Hcur & Hrows). split_and!; try done.
  assert (Hd : fr_full f = false -> gs_seeded st = true /\ fr_generation f = gs_generation st + 1
                 /\ fr_rows f = gs_rows st).
  { intros Hfull. rewrite Hfull in Ec. cbn in Ec. apply negb_false_iff in Ec.
    rewrite !andb_true_iff in Ec. destruct Ec as (((H1 & H2) & H3) & H4). zbool. done. }
  pose proof (base_grid_length st f Hf Hs Hd) as Hbl.
  destruct (write_rows (fr_rows f) (base_grid st f) (fr_dirty_rows f) Hbl) as [Hl Hw].
  apply Forall2_same_length_lookup_2.
  { pose proof (Hwf (fr_generation f)) as Hg. unfold screen_wf, zlen in *. lia. }
  intros i r' r Hr' Hri. specialize (Hrows i r Hri).
  apply lookup_lt_Some in Hri as Hi. pose proof (Hwf (fr_generation f)) as Hg. unfold screen_wf, zlen in Hg.
  destruct (lookup_lt_is_Some_2 (base_grid st f) i) as [b Hb]; [unfold zlen in Hbl; lia|].
  destruct (Hw i b Hb) as (r2 & Hr2 & Heq). rewrite Hr2 in Hr'. injection Hr' as <-.
  destruct (written (Z.of_nat i) (fr_dirty_rows f)) as [runs|]; cbn [from_option id] in Heq; [by rewrite Heq|].
  destruct Hrows as [Hfull Hsc]. destruct (Hd Hfull) as (Hsd & Hgen & Hrw).
  destruct (base_grid_scrolled st f i Hs Hsd Hfull) as (b' & Hb' & Hbs); [lia | done|].
  rewrite Hb in Hb'. injection Hb' as <-. rewrite Heq, Hbs. replace (gs_generation st) with (fr_generation f - 1) by lia.
  done.
Qed.
End History.

(** ** Scrollback *)

(** The lines pushed by the frames that were applied. *)
Fixpoint run_frames (st : TerminalGridState) (lines : list row) (fs : list TerminalGridFrame)
  : TerminalGridState * list row :=
  match fs with
  | [] => (st, lines)
  | f :: fs =>
      let '(st, discontinuity) := applyGridFrame st f in
      run_frames st (if discontinuity : bool then lines else lines ++ fr_scrollback_push f) fs
  end.

(** The client keeps the last lines, each at its index since seeding. *)
Definition keeps_lines (st : TerminalGridState) (lines : list row) : Prop :=
  gs_scrollback st = last_n GRID_SCROLLBACK_CAP lines
  /\ gs_scrollbackStart st + zlen (gs_scrollback st) = zlen lines.

Lemma apply_keeps_lines st f lines :
  keeps_lines st lines ->
  keeps_lines (applyGridFrame st f).1
    (if (applyGridFrame st f).2 then lines else lines ++ fr_scrollback_push f).
Proof.
  intros [Hsb Hst]. unfold applyGridFrame. destruct (negb (fr_full f) && negb _); [done|].
  destruct (fr_scrollback_push f) as [|p ps] eqn:Ep; cbn [length Nat.ltb Nat.leb fst snd].
  { rewrite app_nil_r. done. }
  unfold keeps_lines. cbn [gs_scrollback gs_scrollbackStart].
  assert (Hlast : drop (length (gs_scrollback st ++ p :: ps) - GRID_SCROLLBACK_CAP) (gs_scrollback st ++ p :: ps)
                  = last_n GRID_SCROLLBACK_CAP (lines ++ p :: ps)).
  { rewrite Hsb. apply last_n_last_n_app. }
  split; [exact Hlast|]. rewrite Hlast.
  assert (Hl : zlen (last_n GRID_SCROLLBACK_CAP (lines ++ p :: ps))
    = zlen (gs_scrollback st ++ p :: ps) - Z.of_nat (length (gs_scrollback st ++ p :: ps) - GRID_SCROLLBACK_CAP)).
  { rewrite <- Hlast. unfold zlen. rewrite length_drop. lia. }
  rewrite Hl, !zlen_app. lia.
Qed.

(** A keyframe is always taken; a delta when the client has a screen of its size and is at the
    generation before. *)
Definition follows (st : TerminalGridState) (f : TerminalGridFrame) : Prop :=
  fr_full f = true \/
  gs_seeded st = true /\ fr_generation f = gs_generation st + 1
  /\ fr_cols f = gs_cols st /\ fr_rows f = gs_rows st.

(** What a frame that is taken leaves, and that an acknowledgement of input is not taken back. *)
Record at_frame (st : TerminalGridState) (f : TerminalGridFrame) (st' : TerminalGridState) : Prop := {
  at_seeded : gs_seeded st' = true;
  at_generation : gs_generation st' = fr_generation f;
  at_geometry : gs_cols st' = fr_cols f /\ gs_rows st' = fr_rows f;
  at_screen : gs_altScreen st' = fr_alt_screen f /\ gs_cursor st' = fr_cursor f;
  at_input n : gs_appliedInputSeq st = Some n -> exists m, gs_appliedInputSeq st' = Some m /\ n <= m;
  at_ack n : fr_applied_input_seq f = Some n -> exists m, gs_appliedInputSeq st' = Some m /\ n <= m;
  at_predict : gs_predictOk st' = true <-> fr_predict_ok f = Some true;
}.

Lemma applyGridFrame_cases st f :
  let '(st', refused) := applyGridFrame st f in
  (refused = false /\ follows st f /\ at_frame st f st') \/
  (refused = true /\ ~ follows st f /\ st' = st).
Proof.
  unfold applyGridFrame, follows. destruct (negb (fr_full f) && negb _) eqn:Ec.
  - right. apply andb_true_iff in Ec as [Hf Hc]. apply negb_true_iff in Hf, Hc.
    split_and!; [done| |done]. intros [?|(H1 & H2 & H3 & H4)]; [congruence|].
    rewrite H1, H2, H3, H4, !Z.eqb_refl in Hc. done.
  - destruct (if (0 <? length (fr_scrollback_push f))%nat then _ else _) as [sb start].
    left. split_and!; [done| |].
    + destruct (fr_full f); [by left|right]. cbn in Ec. apply negb_false_iff in Ec.
      rewrite !andb_true_iff in Ec. destruct Ec as (((H1 & H2) & H3) & H4). by zbool.
    + split; cbn; try done.
      * intros n ->. case_match; eexists; (split; [done|]); cbn; lia.
      * intros n ->. eexists. split; [done|lia].
      * by destruct (fr_predict_ok f) as [[]|].
Qed.

(** C26: whatever frames of an attachment the client receives, with losses, repetitions and in any
    order, it shows exactly the daemon's screen of the generation it is at: the rows kept by identity
    and moved by scroll hints have the content of the screen.  A frame is taken exactly when it is a
    keyframe or a delta that follows, at the client's size and the next generation, and the client is
    then at the frame's generation, cursor and mode and takes no acknowledged input back; any other
    frame is refused and changes nothing.  The scrollback is the last lines of the frames that were
    taken, each at its index since seeding. *)
Theorem grid_shows_history history frames :
  (forall g, screen_wf (history g)) -> Forall (frame_of history) frames ->
  let '(st, lines) := run_frames emptyGridState [] frames in
  shows history st /\ keeps_lines st lines
  /\ forall f, let '(st', refused) := applyGridFrame st f in
     (refused = false /\ follows st f /\ at_frame st f st') \/
     (refused = true /\ ~ follows st f /\ st' = st).
Proof.
  intros Hwf Hfs.
  assert (Hgen : forall st lines, shows history st -> keeps_lines st lines ->
    let '(st', lines') := run_frames st lines frames in shows history st' /\ keeps_lines st' lines').
  { induction Hfs as [|f fs Hf _ IH]; intros st lines Hs Hk; cbn [run_frames]; [done|].
    pose proof (apply_shows history Hwf st f Hf Hs) as Hs'.
    pose proof (apply_keeps_lines st f lines Hk) as Hk'.
    destruct (applyGridFrame st f) as [st' disc]. by apply IH. }
  specialize (Hgen emptyGridState [] ltac:(done) ltac:(done)).
  destruct (run_frames emptyGridState [] frames) as [st lines]. destruct Hgen as [Hs Hk].
  split_and!; [done | done |]. apply applyGridFrame_cases.
Qed.

Lemma grid_shows_history_witness :
  let history g := mkScreen 2 1 false (mkCursor 0 0 true None None)
                     [[mkRun (if g =? 1 then "a" else "b") None None None]] in
  let frame g full runs := mkFrame g full 2 1 false (mkCursor 0 0 true None None) [(0, runs)] [] None
                             None None None None None in
  let '(st, _) := run_frames emptyGridState []
    [frame 1 true [mkRun "a" None None (Some 0)]; frame 3 false [mkRun "b" None None None];
     frame 2 false [mkRun "b" None None None]] in
  gs_generation st = 2 /\ shows history st.
Proof.
  intros history frame.
  pose proof (grid_shows_history history
    [frame 1 true [mkRun "a" None None (Some 0)]; frame 3 false [mkRun "b" None None None];
     frame 2 false [mkRun "b" None None None]]) as Ht.
  assert (Hrow : forall g full s a, frame_of history (frame g full [mkRun s None None a]) <->
    s = (if g =? 1 then "a" else "b") /\ a ?? 0 = 0).
  { intros g full s a. unfold frame_of. cbn. split.
    - intros (_ & _ & _ & _ & Hr). specialize (Hr 0%nat _ eq_refl). cbn in Hr.
      inversion Hr as [|? ? ? ? (H1 & H2 & _)]. by cbn in *.
    - intros [-> Ha]. split_and!; try done. intros [|i] r; cbn; [|done]. intros [= <-].
      constructor; [|constructor]. by split_and!. }
  destruct (run_frames _ _ _) as [st lines] eqn:E. destruct Ht as [Hs _].
  - by intros g.
  - repeat (apply Forall_cons_2; [apply Hrow; done|]). apply Forall_nil_2.
  - split; [|exact Hs]. by injection E as <-.
Defined.
