(* ===== verification/TerminalInput.v ===== *)
(** Terminal input of the web client while it is not connected
    ([web/src/features/threads/terminal-input-queue.ts]): a queue with a cap in
    bytes.  Strings are UTF-8, so [TextEncoder] is the identity on bytes. *)
From Stdlib Require Import ZArith Lia.
From stdpp Require Import base tactics strings gmap sorting option pretty.
From stdpp Require Import list.
From S2P Require Import Prelude JsRuntime Json.
Open Scope nat_scope.

Definition TERMINAL_INPUT_QUEUE_MAX_BYTES : nat := Z.to_nat 8192.

Record TerminalInputQueueState := mkQueue {
  q_chunks : list string;
  q_totalBytes : nat;
}.

Definition emptyTerminalInputQueue : TerminalInputQueueState := mkQueue [] 0.

Definition utf8ByteLength (text : string) : nat := String.length text.

Fixpoint str_drop (n : nat) (s : string) : string :=
  match n, s with
  | O, _ => s
  | S n, EmptyString => EmptyString
  | S n, String _ s => str_drop n s
  end.

(** [while (start < length && (bytes[start] & 0xc0) === 0x80) start += 1]. *)
Fixpoint skip_continuation (s : string) : string :=
  match s with
  | EmptyString => EmptyString
  | String c r => if continuation c then skip_continuation r else s
  end.

Definition trimChunkToTailBytes (chunk : string) (maxBytes : nat) : string :=
  if utf8ByteLength chunk <=? maxBytes then chunk
  else utf8_text (skip_continuation (str_drop (utf8ByteLength chunk - maxBytes) chunk)).

(** The loop that drops the oldest chunks: what is left, its bytes, and the bytes
    dropped. *)
Fixpoint drop_oldest (chunks : list string) (totalBytes droppedBytes : nat) : list string * nat * nat :=
  match chunks with
  | removed :: ((_ :: _) as rest) =>
      if TERMINAL_INPUT_QUEUE_MAX_BYTES <? totalBytes then
        drop_oldest rest (totalBytes - utf8ByteLength removed) (droppedBytes + utf8ByteLength removed)
      else (chunks, totalBytes, droppedBytes)
  | _ => (chunks, totalBytes, droppedBytes)
  end.

Definition enqueueTerminalInput (state : TerminalInputQueueState) (text : string)
  : TerminalInputQueueState * nat :=
  if negb (str_truthy text) then (state, 0)
  else
    let '(chunks, totalBytes, droppedBytes) :=
      drop_oldest (q_chunks state ++ [text]) (q_totalBytes state + utf8ByteLength text) 0 in
    if TERMINAL_INPUT_QUEUE_MAX_BYTES <? totalBytes then
      let only := head chunks ?? "" in
      let trimmed := trimChunkToTailBytes only TERMINAL_INPUT_QUEUE_MAX_BYTES in
      let trimmedBytes := utf8ByteLength trimmed in
      (mkQueue (trimmed :: tail chunks) trimmedBytes, droppedBytes + (totalBytes - trimmedBytes))
    else (mkQueue chunks totalBytes, droppedBytes).

Definition chunks_text (l : list string) : string := List.fold_right String.append "" l.

Definition takeQueuedTerminalInput (state : TerminalInputQueueState) : TerminalInputQueueState * string :=
  (emptyTerminalInputQueue, chunks_text (q_chunks state)).

Definition hasQueuedTerminalInput (state : TerminalInputQueueState) : bool := 0 <? q_totalBytes state.

(** ** Cutting well-formed text *)

Lemma second_continuation b0 b1 : second_ok b0 b1 = true -> continuation b1 = true.
Proof.
  unfold second_ok, continuation, within.
  repeat match goal with |- context [if ?b then _ else _] => destruct b end;
    rewrite !andb_true_iff, !N.leb_le; lia.
Qed.

Lemma lead_not_continuation c :
  (code c <? 128)%N = true \/ within 194 223 c = true \/ within 224 239 c = true \/ within 240 244 c = true ->
  continuation c = false.
Proof.
  unfold continuation, within. rewrite !andb_true_iff, !N.leb_le, N.ltb_lt, andb_false_iff, !N.leb_gt. lia.
Qed.

(** Skipping to the next start of a character leaves well-formed text. *)
Lemma cut_valid s : valid_utf8 s = true ->
  forall n, valid_utf8 (skip_continuation (str_drop n s)) = true.
Proof.
  revert s.
  refine (valid_utf8_ind (fun s => forall n, valid_utf8 (skip_continuation (str_drop n s)) = true) _ _ _ _ _).
  - by intros [|n].
  - intros b r Hb Hr IH [|n]; [|apply IH]. cbn [str_drop skip_continuation].
    rewrite lead_not_continuation by tauto. cbn. by rewrite Hb.
  - intros b0 b1 r E1 E2 H1 Hr IH n. destruct n as [|[|n]]; [| |apply IH]; cbn [str_drop skip_continuation].
    + rewrite lead_not_continuation by tauto. cbn. by rewrite E1, E2, H1.
    + rewrite H1. apply (IH 0).
  - intros b0 b1 b2 r E1 E2 E3 H1 H2 Hr IH n. pose proof (second_continuation _ _ H1) as H1'.
    destruct n as [|[|[|n]]]; [| | |apply IH]; cbn [str_drop skip_continuation].
    + rewrite lead_not_continuation by tauto. cbn. by rewrite E1, E2, E3, H1, H2.
    + rewrite H1', H2. apply (IH 0).
    + rewrite H2. apply (IH 0).
  - intros b0 b1 b2 b3 r E1 E2 E3 E4 H1 H2 H3 Hr IH n. pose proof (second_continuation _ _ H1) as H1'.
    destruct n as [|[|[|[|n]]]]; [| | | |apply IH]; cbn [str_drop skip_continuation].
    + rewrite lead_not_continuation by tauto. cbn. by rewrite E1, E2, E3, E4, H1, H2, H3.
    + rewrite H1', H2, H3. apply (IH 0).
    + rewrite H2, H3. apply (IH 0).
    + rewrite H3. apply (IH 0).
Qed.

Lemma str_drop_suffix n s : exists p, s = p +:+ str_drop n s /\ String.length p = min n (String.length s).
Proof.
  revert n. induction s as [|c s IH]; intros [|n]; cbn; try (by exists "").
  destruct (IH n) as (p & E & Hp). exists (String c p). rewrite str_app_cons, <- E. cbn. by rewrite Hp.
Qed.

Lemma skip_continuation_suffix s : exists p, s = p +:+ skip_continuation s.
Proof.
  induction s as [|c s [p E]]; cbn; [by exists ""|]. destruct (continuation c); [|by exists ""].
  exists (String c p). by rewrite str_app_cons, <- E.
Qed.

Lemma trim_suffix chunk max :
  valid_utf8 chunk = true ->
  exists lost, chunk = lost +:+ trimChunkToTailBytes chunk max
    /\ valid_utf8 (trimChunkToTailBytes chunk max) = true
    /\ String.length (trimChunkToTailBytes chunk max) <= max.
Proof.
  intros Hv. unfold trimChunkToTailBytes, utf8ByteLength.
  destruct (Nat.leb_spec (String.length chunk) max) as [Hle|Hgt]; [by exists ""|].
  pose proof (cut_valid chunk Hv (String.length chunk - max)) as Hc.
  rewrite utf8_text_valid by done.
  destruct (str_drop_suffix (String.length chunk - max) chunk) as (p & E & Hp).
  set (d := str_drop _ chunk) in *. destruct (skip_continuation_suffix d) as (p' & E').
  exists (p +:+ p'). rewrite str_app_assoc, <- E'. split_and!; [done | done|].
  apply (f_equal String.length) in E, E'. rewrite str_length_app in E, E'. lia.
Qed.

(** ** The queue *)

Definition queue_ok (q : TerminalInputQueueState) : Prop :=
  q_totalBytes q = String.length (chunks_text (q_chunks q))
  /\ q_totalBytes q <= TERMINAL_INPUT_QUEUE_MAX_BYTES
  /\ Forall (fun c => valid_utf8 c = true) (q_chunks q).

Lemma chunks_text_app l k : chunks_text (l ++ k) = chunks_text l +:+ chunks_text k.
Proof. induction l as [|c l IH]; cbn; [done|]. unfold chunks_text in *. by rewrite IH, str_app_assoc. Qed.

Lemma drop_oldest_cons c c2 chunks total dropped :
  drop_oldest (c :: c2 :: chunks) total dropped
  = if TERMINAL_INPUT_QUEUE_MAX_BYTES <? total
    then drop_oldest (c2 :: chunks) (total - utf8ByteLength c) (dropped + utf8ByteLength c)
    else (c :: c2 :: chunks, total, dropped).
Proof. reflexivity. Qed.

Lemma drop_oldest_spec chunks total dropped :
  total = String.length (chunks_text chunks) -> Forall (fun c => valid_utf8 c = true) chunks ->
  let '(chunks', total', dropped') := drop_oldest chunks total dropped in
  total' = String.length (chunks_text chunks') /\ Forall (fun c => valid_utf8 c = true) chunks'
  /\ (TERMINAL_INPUT_QUEUE_MAX_BYTES < total' -> exists c, chunks' = [c])
  /\ exists lost, chunks_text chunks = lost +:+ chunks_text chunks'
     /\ dropped' = dropped + String.length lost.
Proof.
  revert total dropped. induction chunks as [|c chunks IH]; intros total dropped -> Hv.
  { cbn. split_and!; [done | done | lia | exists ""; cbn; split; [done | lia]]. }
  destruct chunks as [|c2 chunks].
  { cbn. split_and!; [done | done | by exists c | exists ""; cbn; split; [done | lia]]. }
  inversion Hv as [|? ? Hc Hv']; subst. rewrite drop_oldest_cons.
  destruct (Nat.ltb_spec TERMINAL_INPUT_QUEUE_MAX_BYTES (String.length (chunks_text (c :: c2 :: chunks)))) as [Hlt|Hge].
  - specialize (IH (String.length (chunks_text (c :: c2 :: chunks)) - utf8ByteLength c)
      (dropped + utf8ByteLength c)).
    change (chunks_text (c :: c2 :: chunks)) with (c +:+ chunks_text (c2 :: chunks)) in *.
    rewrite str_length_app in *.
    destruct (drop_oldest (c2 :: chunks) _ _) as [[chunks' total'] dropped'].
    destruct IH as (H1 & H2 & H3 & lost & H4 & H5); [unfold utf8ByteLength; lia | done|].
    split_and!; [done | done | done|]. exists (c +:+ lost). rewrite H4, str_app_assoc, str_length_app.
    split; [done|]. unfold utf8ByteLength in H5. lia.
  - split_and!; [done | done | lia|]. exists "". split; [done | cbn; lia].
Qed.

Lemma enqueue_spec q text :
  queue_ok q -> valid_utf8 text = true ->
  let '(q', dropped) := enqueueTerminalInput q text in
  queue_ok q' /\ exists lost, chunks_text (q_chunks q) +:+ text = lost +:+ chunks_text (q_chunks q')
                             /\ dropped = String.length lost.
Proof.
  intros (Ht & Hcap & Hv) Htext. unfold enqueueTerminalInput.
  destruct (str_truthy text) eqn:Et; cbn [negb].
  2: { destruct text; [|done]. split; [done|]. exists "". by rewrite str_app_nil. }
  assert (Htot : q_totalBytes q + utf8ByteLength text = String.length (chunks_text (q_chunks q ++ [text]))).
  { rewrite chunks_text_app, str_length_app, Ht. cbn. by rewrite str_app_nil. }
  assert (Hv' : Forall (fun c => valid_utf8 c = true) (q_chunks q ++ [text]))
    by (apply Forall_app_2; [done | by apply Forall_singleton]).
  pose proof (drop_oldest_spec _ _ 0 Htot Hv') as Hd.
  destruct (drop_oldest _ _ 0) as [[chunks total] dropped].
  destruct Hd as (H1 & H2 & H3 & lost & H4 & H5).
  assert (Hall : chunks_text (q_chunks q) +:+ text = lost +:+ chunks_text chunks).
  { rewrite <- H4, chunks_text_app. cbn. by rewrite str_app_nil. }
  destruct (Nat.ltb_spec TERMINAL_INPUT_QUEUE_MAX_BYTES total) as [Hlt|Hge].
  - destruct (H3 Hlt) as [c ->]. cbn [head tail from_option id].
    inversion H2 as [|? ? Hc _]; subst.
    destruct (trim_suffix c TERMINAL_INPUT_QUEUE_MAX_BYTES Hc) as (lost2 & E & Hval & Hle).
    set (tr := trimChunkToTailBytes c _) in *. clearbody tr.
    assert (Hone : forall x, chunks_text [x] = x) by (intros x; cbn; by rewrite str_app_nil).
    split; [unfold queue_ok; cbn [q_chunks q_totalBytes]; rewrite Hone; split_and!; [done | done | by constructor]|].
    exists (lost +:+ lost2). cbn [q_chunks]. rewrite Hall, !Hone, E, str_app_assoc, str_length_app.
    split; [done|]. unfold utf8ByteLength. rewrite str_length_app. lia.
  - split; [done|]. exists lost. split; [done | lia].
Qed.

(** The state after a sequence of inputs, and the bytes reported as dropped. *)
Fixpoint type_all (q : TerminalInputQueueState) (inputs : list string) : TerminalInputQueueState * nat :=
  match inputs with
  | [] => (q, 0)
  | text :: inputs =>
      let '(q, d) := enqueueTerminalInput q text in
      let '(q, ds) := type_all q inputs in (q, d + ds)
  end.

(** C27: whatever is typed while disconnected, the queue never holds more than its cap, what it
    flushes is the end of what was typed, cut at a character, and the bytes reported as dropped are
    exactly those missing before it. *)
Theorem queue_keeps_tail inputs :
  Forall (fun text => valid_utf8 text = true) inputs ->
  let '(q, dropped) := type_all emptyTerminalInputQueue inputs in
  let flushed := (takeQueuedTerminalInput q).2 in
  q_totalBytes q = String.length flushed
  /\ String.length flushed <= TERMINAL_INPUT_QUEUE_MAX_BYTES
  /\ valid_utf8 flushed = true
  /\ (exists lost, chunks_text inputs = lost +:+ flushed /\ String.length lost = dropped)
  /\ hasQueuedTerminalInput q = str_truthy flushed.
Proof.
  intros Hin.
  assert (Hgen : forall q, queue_ok q ->
    let '(q', dropped) := type_all q inputs in
    queue_ok q' /\ exists lost, chunks_text (q_chunks q) +:+ chunks_text inputs
                                = lost +:+ chunks_text (q_chunks q') /\ String.length lost = dropped).
  { induction Hin as [|text inputs Htext _ IH]; intros q Hq; cbn [type_all].
    - split; [done|]. exists "". split; [by cbn; rewrite str_app_nil | done].
    - pose proof (enqueue_spec q text Hq Htext) as He. destruct (enqueueTerminalInput q text) as [q1 d].
      destruct He as (Hq1 & l1 & E1 & ->). specialize (IH q1 Hq1).
      destruct (type_all q1 inputs) as [q2 ds]. destruct IH as (Hq2 & l2 & E2 & <-). split; [done|].
      exists (l1 +:+ l2). change (chunks_text (text :: inputs)) with (text +:+ chunks_text inputs).
      rewrite <- str_app_assoc, E1, !str_app_assoc, E2, str_length_app. done. }
  specialize (Hgen emptyTerminalInputQueue). destruct (type_all _ inputs) as [q dropped].
  destruct Hgen as ((H1 & H2 & H3) & Hl); [split_and!; [done | cbn; lia | constructor]|].
  cbn [takeQueuedTerminalInput snd]. split_and!; [done | lia | | by exact Hl |].
  - clear -H3. induction H3 as [|c l Hc _ IH]; cbn; [done|]. by rewrite valid_utf8_app.
  - unfold hasQueuedTerminalInput. rewrite H1. by destruct (chunks_text (q_chunks q)).
Qed.

Lemma queue_keeps_tail_witness :
  let '(q, dropped) := type_all emptyTerminalInputQueue ["ls"; " -l"] in
  (takeQueuedTerminalInput q).2 = "ls -l" /\ dropped = 0 /\ q_totalBytes q = 5.
Proof.
  assert (Ht := queue_keeps_tail ["ls"; " -l"] ltac:(by repeat constructor)).
  destruct (type_all _ _) as [q dropped] eqn:E. destruct Ht as (Ht & _).
  injection E as <- <-. split_and!; [done | done | exact Ht].
Defined.
