(* ===== verification/OutputStore.v ===== *)
(** The durable terminal output log of
    [service/src/runtime/terminal/output-store.ts].

    - [TerminalOutputPersistence] is the persistence boundary of the source, a
      class of operations; [OutputPersistenceLaws] states what the store relies
      on, over the rows of a session in offset order.
    - [Drizzle] is the default implementation, over a table keyed by
      (session, byte offset); its laws are proved in [OutputTable.v].
    - [readRange], [tailOutput] and [handleTerminalOutput] are the store's
      algorithms, with their pagination loops.

    Loops carry fuel: one unit per query of a page. [read_loop_enough] and
    [tail_loop_enough] show that one unit per stored row, plus one, is never
    exhausted, so the results are those of the unbounded loops. *)
From Stdlib Require Import Strings.Byte ZArith QArith Qround Lia.
From stdpp Require Import base tactics strings gmap sorting option pretty.
From stdpp Require Import list.
From S2P Require Import Prelude JsRuntime Base64 EventBus.

#[local] Open Scope Z_scope.

Definition READ_BATCH_ROWS : nat := 128.

Record StoredOutputChunk := mkChunk {
  byteOffset : Z;
  data : list byte;
}.

(** [chunk.byteOffset + chunk.data.length]. *)
Definition chunk_end (c : StoredOutputChunk) : Z := byteOffset c + zlen (data c).

(** ** The persistence boundary *)

Class TerminalOutputPersistence (D : Type) := {
  insertChunk : string -> Z -> list byte -> D -> bool * D;
  bumpOutputStats : string -> Z -> Z -> Z -> D -> D;
  db_getStoredOutputBytes : string -> D -> Z;
  findCoveringChunk : string -> Z -> D -> option StoredOutputChunk;
  listChunksFrom : string -> Z -> nat -> option Z -> D -> list StoredOutputChunk;
  listTailChunks : string -> option Z -> nat -> D -> list StoredOutputChunk;
  db_getStoredEndOffset : string -> D -> Z;
  pruneOldestChunks : string -> Z -> D -> Z * D;
}.

(** A chunk lies before another: the key order. *)
Definition chunk_lt (a b : StoredOutputChunk) : Prop := byteOffset a < byteOffset b.

(** [byteOffset < before], all when [before] is absent. *)
Definition before_offset (before : option Z) (x : Z) : bool :=
  match before with Some e => x <? e | None => true end.

(** The bytes stored in a list of rows. *)
Definition stored_len (rows : list StoredOutputChunk) : Z :=
  zsum ((fun c => zlen (data c)) <$> rows).

(** What the store relies on: [rows s d] is the output of session [s] in
    ascending offset order, and every operation is described through it. *)
Class OutputPersistenceLaws (D : Type) `{TerminalOutputPersistence D} := {
  rows : string -> D -> list StoredOutputChunk;
  rows_sorted s d : StronglySorted chunk_lt (rows s d);
  insertChunk_law s off bs d :
    let '(inserted, d') := insertChunk s off bs d in
    (forall s', s' <> s -> rows s' d' = rows s' d)
    /\ (if inserted
        then off ∉ (byteOffset <$> rows s d) /\ rows s d' ≡ₚ mkChunk off bs :: rows s d
        else off ∈ (byteOffset <$> rows s d) /\ d' = d);
  bumpOutputStats_law s total stored at_ d s' :
    rows s' (bumpOutputStats s total stored at_ d) = rows s' d;
  getStoredOutputBytes_law s d : db_getStoredOutputBytes s d = stored_len (rows s d);
  findCoveringChunk_law s off d :
    findCoveringChunk s off d = last (filter (fun c => byteOffset c <= off) (rows s d));
  listChunksFrom_law s from limit before d :
    listChunksFrom s from limit before d
    = take limit (filter (fun c => from <= byteOffset c
                                   /\ before_offset before (byteOffset c) = true)
                    (rows s d));
  listTailChunks_law s before limit d :
    listTailChunks s before limit d
    = take limit (reverse (filter (fun c => before_offset before (byteOffset c) = true)
                             (rows s d)));
  getStoredEndOffset_law s d :
    let e := db_getStoredEndOffset s d in
    (rows s d = [] /\ e = 0)
    \/ (e ∈ (chunk_end <$> rows s d) /\ Forall (fun c => chunk_end c <= e) (rows s d));
  (** Deletes the shortest prefix of the rows that holds [n] bytes, all of them
      when they hold less; returns the bytes deleted. *)
  pruneOldestChunks_law s n d :
    let '(removed, d') := pruneOldestChunks s n d in
    (forall s', s' <> s -> rows s' d' = rows s' d)
    /\ exists k, rows s d' = drop k (rows s d)
       /\ removed = stored_len (take k (rows s d))
       /\ (n <= removed \/ rows s d' = [])
       /\ (forall j, (j < k)%nat -> (j < length (rows s d))%nat ->
           stored_len (take j (rows s d)) < n);
}.

(** ** Reading a range *)

(** [buffer.subarray(k)] and [buffer.subarray(0, k)] for [k >= 0]. *)
Definition subarray_from {A} (k : Z) (l : list A) : list A := drop (Z.to_nat k) l.
Definition subarray_to {A} (k : Z) (l : list A) : list A := take (Z.to_nat k) l.

(** The mutable locals of [readRange] that [pushSlice] updates. *)
Record ReadState := mkRead {
  rd_buffers : list (list byte);
  rd_firstByteOffset : option Z;
  rd_consumedEnd : Z;
  rd_remaining : Z;
  rd_truncated : bool;
}.

(** The closure [pushSlice]: [false] stops the scan. *)
Definition pushSlice (startOffset : Z) (rangeEnd : option Z)
    (chunk : StoredOutputChunk) (s : ReadState) : bool * ReadState :=
  let slice := data chunk in
  let sliceStart := byteOffset chunk in
  let '(slice, sliceStart) :=
    if sliceStart <? startOffset
    then (subarray_from (startOffset - sliceStart) slice, startOffset)
    else (slice, sliceStart) in
  let slice :=
    match rangeEnd with
    | Some e => if e <? sliceStart + zlen slice
                then subarray_to (Z.max (e - sliceStart) 0) slice else slice
    | None => slice
    end in
  if zlen slice =? 0 then (true, s)
  else if rd_remaining s <=? 0 then
    (false, mkRead (rd_buffers s) (rd_firstByteOffset s) (rd_consumedEnd s)
              (rd_remaining s) true)
  else
    let '(slice, truncated) :=
      if rd_remaining s <? zlen slice
      then (subarray_to (rd_remaining s) slice, true)
      else (slice, rd_truncated s) in
    (negb truncated,
     mkRead (rd_buffers s ++ [slice])
       (match rd_firstByteOffset s with None => Some sliceStart | o => o end)
       (sliceStart + zlen slice)
       (rd_remaining s - zlen slice)
       truncated).

(** [for (const row of rows) { if (!pushSlice(row)) break; }] *)
Fixpoint pushRows (startOffset : Z) (rangeEnd : option Z)
    (rs : list StoredOutputChunk) (s : ReadState) : ReadState :=
  match rs with
  | [] => s
  | r :: rs =>
      let '(go_on, s) := pushSlice startOffset rangeEnd r s in
      if go_on then pushRows startOffset rangeEnd rs s else s
  end.

Record OutputRangeReadResult := mkRange {
  rr_data : list byte;
  rr_startOffset : Z;
  rr_endOffset : Z;
  rr_truncated : bool;
  rr_nextOffset : option Z;
}.

Record OutputTailReadResult := mkTail {
  tr_data : list byte;
  tr_startOffset : Z;
  tr_endOffset : Z;
  tr_totalBytesStored : Z;
}.

Section Reads.
Context {D : Type} `{TerminalOutputPersistence D}.

(** The [while] loop of [readRange]; [None] when the fuel runs out. *)
Fixpoint read_loop (fuel : nat) (sid : string) (startOffset : Z)
    (rangeEnd : option Z) (d : D) (scanFrom : Z) (s : ReadState) : option ReadState :=
  match fuel with
  | O => None
  | S fuel =>
      if negb (rd_truncated s) && before_offset rangeEnd scanFrom then
        let rs := listChunksFrom sid scanFrom READ_BATCH_ROWS rangeEnd d in
        match last rs with
        | None => Some s
        | Some lst =>
            let s := pushRows startOffset rangeEnd rs s in
            let scanFrom := byteOffset lst + Z.max (zlen (data lst)) 1 in
            if (length rs <? READ_BATCH_ROWS)%nat then Some s
            else read_loop fuel sid startOffset rangeEnd d scanFrom s
        end
      else Some s
  end.

(** [readRange(sessionId, { startOffset, endOffset, maxBytes })]. *)
Definition readRange (fuel : nat) (sid : string) (startOffset : Q)
    (endOffset : option Q) (maxBytes : Q) (d : D) : option OutputRangeReadResult :=
  let startOffset := floor_nonneg startOffset in
  let rangeEnd := (fun e => Z.max startOffset (Qfloor e)) <$> endOffset in
  let maxBytes := floor_nonneg maxBytes in
  let s := mkRead [] None startOffset maxBytes false in
  let '(s, scanFrom) :=
    match findCoveringChunk sid startOffset d with
    | Some covering =>
        if startOffset <? chunk_end covering
        then ((pushSlice startOffset rangeEnd covering s).2, chunk_end covering)
        else (s, startOffset)
    | None => (s, startOffset)
    end in
  s ← read_loop fuel sid startOffset rangeEnd d scanFrom s;
  Some (mkRange (concat (rd_buffers s))
          (rd_firstByteOffset s ?? startOffset)
          (rd_consumedEnd s)
          (rd_truncated s)
          (if rd_truncated s then Some (rd_consumedEnd s) else None)).

(** The inner [for] of [tailOutput]: collected rows (newest first),
    their bytes, and the offset to page before. *)
Fixpoint tail_scan (budget : Z) (rs collected : list StoredOutputChunk)
    (collectedBytes : Z) (before : option Z)
    : list StoredOutputChunk * Z * option Z :=
  match rs with
  | [] => (collected, collectedBytes, before)
  | r :: rs =>
      let collected := collected ++ [r] in
      let collectedBytes := collectedBytes + zlen (data r) in
      let before := Some (byteOffset r) in
      if budget <=? collectedBytes then (collected, collectedBytes, before)
      else tail_scan budget rs collected collectedBytes before
  end.

Fixpoint tail_loop (fuel : nat) (sid : string) (budget : Z) (d : D)
    (collected : list StoredOutputChunk) (collectedBytes : Z) (before : option Z)
    : option (list StoredOutputChunk) :=
  match fuel with
  | O => None
  | S fuel =>
      if collectedBytes <? budget then
        match listTailChunks sid before READ_BATCH_ROWS d with
        | [] => Some collected
        | rs =>
            let '(collected, collectedBytes, before) :=
              tail_scan budget rs collected collectedBytes before in
            if (length rs <? READ_BATCH_ROWS)%nat then Some collected
            else tail_loop fuel sid budget d collected collectedBytes before
        end
      else Some collected
  end.

(** [tailOutput(sessionId, maxBytes)]. *)
Definition tailOutput (fuel : nat) (sid : string) (maxBytes : Q) (d : D)
    : option OutputTailReadResult :=
  let budget := floor_nonneg maxBytes in
  collected ← tail_loop fuel sid budget d [] 0 None;
  let collected := reverse collected in
  let combined := concat (data <$> collected) in
  let startOffset := (byteOffset <$> head collected) ?? 0 in
  let endOffset := (chunk_end <$> last collected) ?? 0 in
  let '(combined, startOffset) :=
    if budget <? zlen combined
    then (subarray_from (zlen combined - budget) combined,
          startOffset + (zlen combined - budget))
    else (combined, startOffset) in
  Some (mkTail combined startOffset endOffset (db_getStoredOutputBytes sid d)).
End Reads.

(** ** The store and its ingest *)

Record TerminalOutputStore (D : Type) := mkStore {
  st_lastOffsets : list (string * Z);
  st_retainedBytes : list (string * Z);
  st_db : D;
  st_events : SseEventBus;
}.
Arguments mkStore {D}.
Arguments st_lastOffsets {D}.
Arguments st_retainedBytes {D}.
Arguments st_db {D}.
Arguments st_events {D}.

(** The details passed to [onOutputObserved]. *)
Record OutputObserved := mkObserved {
  oo_sessionId : string;
  oo_requestOffset : Z;
  oo_endOffset : Z;
  oo_outputBytes : Z;
}.

(** The SSE event of a stored chunk: its id is the end offset. *)
Definition terminal_output_event (off : Z) (buffer : list byte) : SseEvent :=
  mkEvent "terminal.output"
    [("data", JStr (Base64.encode buffer));
     ("byte_offset", JNum (JFin (inject_Z off)))]
    (Some (pretty (off + zlen buffer))).

(** What one call does besides updating the store. *)
Record IngestEffects := mkIngest {
  ie_observed : OutputObserved;
  ie_inserted : bool;
  ie_removed : Z;
  ie_deliveries : list (nat * SseEvent);
}.

Section Store.
Context {D : Type} `{TerminalOutputPersistence D}.
(** [config.terminalOutputSoftCapBytes]. *)
Context (softCap : Z).

(** [getLastOffset(sessionId)]. *)
Definition getLastOffset (sid : string) (st : TerminalOutputStore D) : Z :=
  JsMap.get sid (st_lastOffsets st) ?? 0.

(** [getStoredEndOffset] and [getStoredOutputBytes]. *)
Definition getStoredEndOffset (sid : string) (st : TerminalOutputStore D) : Z :=
  db_getStoredEndOffset sid (st_db st).
Definition getStoredOutputBytes (sid : string) (st : TerminalOutputStore D) : Z :=
  db_getStoredOutputBytes sid (st_db st).

(** [clearSessionCache] and [clearSessionCaches]. *)
Definition clearSessionCache (sid : string) (st : TerminalOutputStore D)
    : TerminalOutputStore D :=
  mkStore (JsMap.delete sid (st_lastOffsets st)) (st_retainedBytes st)
    (st_db st) (st_events st).
Definition clearSessionCaches (sids : list string) (st : TerminalOutputStore D)
    : TerminalOutputStore D :=
  foldl (fun st sid => clearSessionCache sid st) st sids.

(** The retention step: the retained count, pruned to the cap. *)
Definition enforceRetention (sid : string) (retained : Z) (d : D) : Z * Z * D :=
  if softCap <? retained then
    let '(removed, d) := pruneOldestChunks sid (retained - softCap) d in
    (retained - removed, removed, d)
  else (retained, 0, d).

(** [handleTerminalOutput(sessionId, { data, byte_offset })] at time [now]. *)
Definition handleTerminalOutput (sid : string) (payload_data : string)
    (byte_offset : Z) (now : Z) (st : TerminalOutputStore D)
    : TerminalOutputStore D * IngestEffects :=
  let buffer := Base64.decode payload_data in
  let endOffset := byte_offset + zlen buffer in
  let previousEnd := JsMap.get sid (st_lastOffsets st) ?? 0 in
  let lastOffsets := if previousEnd <? endOffset
                     then JsMap.set sid endOffset (st_lastOffsets st)
                     else st_lastOffsets st in
  let observed := mkObserved sid byte_offset endOffset (zlen buffer) in
  if zlen buffer =? 0 then
    (mkStore lastOffsets (st_retainedBytes st) (st_db st) (st_events st),
     mkIngest observed false 0 [])
  else
    let '(inserted, d) := insertChunk sid byte_offset buffer (st_db st) in
    if inserted then
      let d := bumpOutputStats sid (zlen buffer) (zlen buffer) now d in
      let retained := (JsMap.get sid (st_retainedBytes st)
                       ?? db_getStoredOutputBytes sid d) + zlen buffer in
      let '(retained, removed, d) := enforceRetention sid retained d in
      let '(events, deliveries) :=
        emit sid (terminal_output_event byte_offset buffer) true (st_events st) in
      (mkStore lastOffsets (JsMap.set sid retained (st_retainedBytes st)) d events,
       mkIngest observed true removed deliveries)
    else
      (mkStore lastOffsets (st_retainedBytes st) d (st_events st),
       mkIngest observed false 0 []).
End Store.
