(* ===== verification/OutputReads.v ===== *)
(** Reads of the terminal output log return what a direct scan of the stored
    bytes returns.

    The reference is the stored log as a list of (offset, byte) pairs: a range
    read is the first [maxBytes] pairs inside the range, a tail read the last
    [maxBytes] pairs. The theorems hold for every persistence that satisfies
    [OutputPersistenceLaws] and every log whose chunks are non-empty and do not
    overlap; [OutputIngest.v] shows in-order ingest builds such logs. *)
From Stdlib Require Import Strings.Byte ZArith QArith Qround Lia.
From stdpp Require Import base tactics strings gmap sorting option.
From stdpp Require Import list.
From S2P Require Import Prelude JsRuntime OutputStore.

#[local] Open Scope Z_scope.

(** ** The stored log as offset-byte pairs *)

Fixpoint bytes_at (off : Z) (l : list byte) : list (Z * byte) :=
  match l with
  | [] => []
  | b :: l => (off, b) :: bytes_at (off + 1) l
  end.

Definition chunk_bytes (c : StoredOutputChunk) : list (Z * byte) :=
  bytes_at (byteOffset c) (data c).

Definition stored_bytes (rs : list StoredOutputChunk) : list (Z * byte) :=
  rs ≫= chunk_bytes.

(** The pairs a read of [startOffset, rangeEnd) is about. *)
Definition in_window (startOffset : Z) (rangeEnd : option Z) (p : Z * byte) : Prop :=
  startOffset <= p.1 /\ before_offset rangeEnd p.1 = true.

#[export] Instance in_window_dec s e p : Decision (in_window s e p) := _.

Definition window (startOffset : Z) (rangeEnd : option Z) (rs : list StoredOutputChunk)
  : list (Z * byte) :=
  filter (in_window startOffset rangeEnd) (stored_bytes rs).

(** The reference range read. *)
Definition ref_read (startOffset : Z) (rangeEnd : option Z) (maxBytes : Z)
    (rs : list StoredOutputChunk) : OutputRangeReadResult :=
  let all := window startOffset rangeEnd rs in
  let out := take (Z.to_nat maxBytes) all in
  let endOffset := ((fun p => p.1 + 1) <$> last out) ?? startOffset in
  let truncated := maxBytes <? zlen all in
  mkRange out.*2 ((fst <$> head out) ?? startOffset) endOffset truncated
    (if truncated then Some endOffset else None).

(** A log whose chunks are non-empty and do not overlap. *)
Definition chunk_before (a b : StoredOutputChunk) : Prop := chunk_end a <= byteOffset b.

Definition disjoint_log (rs : list StoredOutputChunk) : Prop :=
  StronglySorted chunk_before rs /\ Forall (fun c => data c <> []) rs.

(** ** Offset-byte pairs *)

Lemma bytes_at_length off l : length (bytes_at off l) = length l.
Proof. revert off; induction l; intros; simpl; auto. Qed.

Lemma bytes_at_snd off l : (bytes_at off l).*2 = l.
Proof. revert off; induction l; intros; simpl; [done|]. by f_equal. Qed.

Lemma bytes_at_take n off l : take n (bytes_at off l) = bytes_at off (take n l).
Proof. revert n off; induction l; intros [|n] off; simpl; try done. by f_equal. Qed.

Lemma bytes_at_drop n off l :
  drop n (bytes_at off l) = bytes_at (off + Z.of_nat n) (drop n l).
Proof.
  revert n off; induction l as [|b l IH]; intros [|n] off; simpl; try done.
  - by rewrite Z.add_0_r.
  - rewrite IH. f_equal. lia.
Qed.

Lemma bytes_at_last off l :
  l <> [] -> fst <$> last (bytes_at off l) = Some (off + zlen l - 1).
Proof.
  revert off; induction l as [|b [|b' l] IH]; intros off Hne; [done| |].
  - simpl. f_equal. unfold zlen. simpl. lia.
  - simpl bytes_at. rewrite last_cons_cons. specialize (IH (off + 1)).
    simpl in IH. rewrite IH by done. f_equal. rewrite !zlen_cons. lia.
Qed.

Lemma bytes_at_pos off l p : p ∈ bytes_at off l -> off <= p.1 < off + zlen l.
Proof.
  revert off; induction l as [|b l IH]; intros off; simpl; [set_solver|].
  rewrite elem_of_cons, zlen_cons. pose proof (zlen_nonneg l).
  intros [->|Hin%IH]; simpl; lia.
Qed.

Lemma bytes_at_filter_ge off l k :
  filter (fun p : Z * byte => k <= p.1) (bytes_at off l)
  = bytes_at (Z.max off k) (drop (Z.to_nat (k - off)) l).
Proof.
  revert off; induction l as [|b l IH]; intros off; simpl; [by rewrite drop_nil|].
  rewrite filter_cons. simpl. case_decide.
  - rewrite (Z.max_l off k) by lia. replace (Z.to_nat (k - off)) with 0%nat by lia.
    simpl. rewrite IH. f_equal. rewrite (Z.max_l (off + 1) k) by lia.
    by replace (Z.to_nat (k - (off + 1))) with 0%nat by lia.
  - rewrite IH. replace (Z.to_nat (k - off)) with (S (Z.to_nat (k - (off + 1)))) by lia.
    simpl. f_equal. lia.
Qed.

Lemma bytes_at_filter_lt off l e :
  filter (fun p : Z * byte => before_offset (Some e) p.1 = true) (bytes_at off l)
  = bytes_at off (take (Z.to_nat (e - off)) l).
Proof.
  revert off; induction l as [|b l IH]; intros off; simpl; [by rewrite take_nil|].
  rewrite filter_cons. simpl. case_decide; zbool.
  - replace (Z.to_nat (e - off)) with (S (Z.to_nat (e - (off + 1)))) by lia.
    simpl. by rewrite <-IH.
  - rewrite IH. replace (Z.to_nat (e - (off + 1))) with 0%nat by lia.
    replace (Z.to_nat (e - off)) with 0%nat by (destruct (Z.ltb_spec off e); [done|lia]).
    done.
Qed.

(** The pairs of one chunk inside a window are its slice. *)
Lemma window_chunk start rangeEnd c :
  filter (in_window start rangeEnd) (chunk_bytes c)
  = let sliceStart := Z.max (byteOffset c) start in
    let slice := drop (Z.to_nat (start - byteOffset c)) (data c) in
    bytes_at sliceStart
      match rangeEnd with
      | Some e => take (Z.to_nat (e - sliceStart)) slice
      | None => slice
      end.
Proof.
  unfold chunk_bytes.
  rewrite (filter_conj (fun p : Z * byte => start <= p.1)
             (fun p : Z * byte => before_offset rangeEnd p.1 = true)
             (in_window start rangeEnd)) by done.
  rewrite bytes_at_filter_ge. destruct rangeEnd as [e|]; simpl.
  - apply bytes_at_filter_lt.
  - apply filter_all. by apply Forall_true.
Qed.

(** ** [pushSlice] *)

(** What [pushSlice] does once the slice is cut. *)
Definition push_core (sliceStart : Z) (slice : list byte) (s : ReadState) : bool * ReadState :=
  if zlen slice =? 0 then (true, s)
  else if rd_remaining s <=? 0 then
    (false, mkRead (rd_buffers s) (rd_firstByteOffset s) (rd_consumedEnd s)
              (rd_remaining s) true)
  else
    let '(slice, truncated) :=
      if rd_remaining s <? zlen slice
      then (subarray_to (rd_remaining s) slice, true)
      else (slice, rd_truncated s) in
    (negb truncated,
     mkRead (rd_buffers s ++ [slice])
       (match rd_firstByteOffset s with None => Some sliceStart | o => o end)
       (sliceStart + zlen slice) (rd_remaining s - zlen slice) truncated).

Definition slice_of (start : Z) (rangeEnd : option Z) (c : StoredOutputChunk) : list byte :=
  let slice := drop (Z.to_nat (start - byteOffset c)) (data c) in
  match rangeEnd with
  | Some e => take (Z.to_nat (e - Z.max (byteOffset c) start)) slice
  | None => slice
  end.

Lemma pushSlice_core start rangeEnd c s :
  pushSlice start rangeEnd c s
  = push_core (Z.max (byteOffset c) start) (slice_of start rangeEnd c) s.
Proof.
  assert (pair_eq : (if byteOffset c <? start
      then (subarray_from (start - byteOffset c) (data c), start)
      else (data c, byteOffset c))
    = (drop (Z.to_nat (start - byteOffset c)) (data c), Z.max (byteOffset c) start)).
  { destruct (Z.ltb_spec (byteOffset c) start).
    - f_equal. lia.
    - replace (Z.to_nat (start - byteOffset c)) with 0%nat by lia. f_equal. lia. }
  unfold pushSlice, slice_of. rewrite pair_eq. unfold push_core. destruct rangeEnd as [e|]; [|done].
  set (sl := drop _ _). set (st := Z.max _ _).
  assert ((if e <? st + zlen sl then subarray_to (Z.max (e - st) 0) sl else sl)
          = take (Z.to_nat (e - st)) sl) as ->; [|done].
  unfold subarray_to. destruct (Z.ltb_spec e (st + zlen sl)).
  - f_equal. lia.
  - rewrite take_ge; [done|]. unfold zlen in *. lia.
Qed.

(** The locals of [readRange] after collecting the pairs [out]. *)
Record rep (start maxBytes : Z) (out : list (Z * byte)) (s : ReadState) : Prop := {
  rep_data : concat (rd_buffers s) = out.*2;
  rep_first : rd_firstByteOffset s = fst <$> head out;
  rep_end : rd_consumedEnd s = ((fun p => p.1 + 1) <$> last out) ?? start;
  rep_left : rd_remaining s = maxBytes - zlen out;
}.

Lemma last_end_bytes_at st l start :
  l <> [] -> ((fun p : Z * byte => p.1 + 1) <$> last (bytes_at st l)) ?? start = st + zlen l.
Proof.
  intros Hl%(bytes_at_last st). destruct (last (bytes_at st l)); simplify_eq/=. lia.
Qed.

Lemma take_app_exact {A} (n : Z) (out w : list A) :
  zlen out <= n -> take (Z.to_nat n) (out ++ w) = out ++ take (Z.to_nat (n - zlen out)) w.
Proof.
  intros. unfold zlen in *. rewrite take_app. f_equal.
  - apply take_ge. lia.
  - f_equal. lia.
Qed.

(** Appending a non-empty slice keeps the representation. *)
Lemma rep_append start maxBytes out s st l t :
  rep start maxBytes out s -> l <> [] ->
  rep start maxBytes (out ++ bytes_at st l)
    (mkRead (rd_buffers s ++ [l])
       (match rd_firstByteOffset s with None => Some st | o => o end)
       (st + zlen l) (rd_remaining s - zlen l) t).
Proof.
  intros [Hd Hf He Hr] Hl. constructor; simpl.
  - rewrite concat_app, Hd, fmap_app, bytes_at_snd. simpl. by rewrite app_nil_r.
  - rewrite Hf. destruct l; [done|]. by destruct out.
  - rewrite last_app. destruct (last (bytes_at st l)) eqn:E.
    + rewrite <-(last_end_bytes_at st l start) by done. by rewrite E.
    + apply last_None in E. by destruct l.
  - rewrite zlen_app, Hr. unfold zlen. rewrite bytes_at_length. lia.
Qed.

Lemma push_core_spec start maxBytes out s st l :
  rep start maxBytes out s -> rd_truncated s = false -> zlen out <= maxBytes ->
  let all := out ++ bytes_at st l in
  let '(go, s') := push_core st l s in
  rep start maxBytes (take (Z.to_nat maxBytes) all) s'
  /\ rd_truncated s' = (maxBytes <? zlen all) /\ go = negb (maxBytes <? zlen all).
Proof.
  intros Hrep Ht Hlen all. pose proof Hrep as [_ _ _ Hr].
  assert (Hall : zlen all = zlen out + zlen l).
  { unfold all. rewrite zlen_app. unfold zlen at 2. by rewrite bytes_at_length. }
  pose proof (zlen_nonneg l). unfold push_core.
  destruct (Z.eqb_spec (zlen l) 0) as [Hz|Hz].
  { assert (l = []) as -> by (apply zlen_zero_inv; lia).
    unfold all in *. simpl in *. rewrite app_nil_r in *.
    rewrite take_ge by (unfold zlen in *; lia).
    destruct (Z.ltb_spec maxBytes (zlen out)); [lia|]. by rewrite Ht. }
  assert (l <> []) by (intros ->; done).
  destruct (Z.leb_spec (rd_remaining s) 0) as [Hr0|Hr0].
  { assert (zlen out = maxBytes) by lia.
    destruct (Z.ltb_spec maxBytes (zlen all)); [|lia]. simpl. split_and!; [|done..].
    unfold all. rewrite take_app_exact by lia.
    replace (Z.to_nat (maxBytes - zlen out)) with 0%nat by lia.
    rewrite take_0, app_nil_r. destruct Hrep. by constructor. }
  destruct (Z.ltb_spec (rd_remaining s) (zlen l)) as [Hlt|Hge].
  - destruct (Z.ltb_spec maxBytes (zlen all)); [|lia]. split_and!; [|done..].
    unfold all. rewrite take_app_exact by lia. rewrite bytes_at_take.
    unfold subarray_to. rewrite <-Hr.
    apply rep_append; [done|]. intros E%(f_equal zlen). unfold zlen in *.
    rewrite length_take in E. simpl in E. lia.
  - destruct (Z.ltb_spec maxBytes (zlen all)); [lia|]. rewrite Ht. split_and!; [|done..].
    rewrite take_ge by (unfold zlen in *; lia). by apply rep_append.
Qed.

Lemma pushSlice_spec start rangeEnd maxBytes out s c :
  rep start maxBytes out s -> rd_truncated s = false -> zlen out <= maxBytes ->
  let all := out ++ filter (in_window start rangeEnd) (chunk_bytes c) in
  let '(go, s') := pushSlice start rangeEnd c s in
  rep start maxBytes (take (Z.to_nat maxBytes) all) s'
  /\ rd_truncated s' = (maxBytes <? zlen all) /\ go = negb (maxBytes <? zlen all).
Proof.
  intros ? ? ? all. subst all. rewrite window_chunk, pushSlice_core.
  by apply push_core_spec.
Qed.

Section Progress.
Context (start : Z) (rangeEnd : option Z) (maxBytes : Z).

(** The locals after visiting chunks whose window holds [all]. *)
Definition progress (all : list (Z * byte)) (s : ReadState) : Prop :=
  rep start maxBytes (take (Z.to_nat maxBytes) all) s
  /\ rd_truncated s = (maxBytes <? zlen all).

Lemma window_app xs ys :
  window start rangeEnd (xs ++ ys) = window start rangeEnd xs ++ window start rangeEnd ys.
Proof. unfold window, stored_bytes. by rewrite bind_app, filter_app. Qed.

Lemma window_cons c xs :
  window start rangeEnd (c :: xs)
  = filter (in_window start rangeEnd) (chunk_bytes c) ++ window start rangeEnd xs.
Proof. unfold window, stored_bytes. by rewrite bind_cons, filter_app. Qed.

Lemma progress_untruncated all s :
  progress all s -> rd_truncated s = false ->
  zlen all <= maxBytes /\ take (Z.to_nat maxBytes) all = all.
Proof.
  intros [_ Ht] Hf. rewrite Ht in Hf. zbool. split; [done|].
  apply take_ge. unfold zlen in *. lia.
Qed.

Lemma progress_stop all more s :
  progress all s -> rd_truncated s = true -> progress (all ++ more) s.
Proof.
  intros [Hrep Ht] Htr. rewrite Ht in Htr. zbool. split.
  - rewrite take_app_le by (unfold zlen in *; lia). done.
  - rewrite Ht, zlen_app. pose proof (zlen_nonneg more).
    destruct (Z.ltb_spec maxBytes (zlen all)), (Z.ltb_spec maxBytes (zlen all + zlen more));
      try done; lia.
Qed.

Lemma progress_slice all s c :
  progress all s -> rd_truncated s = false ->
  let r := pushSlice start rangeEnd c s in
  progress (all ++ filter (in_window start rangeEnd) (chunk_bytes c)) r.2
  /\ r.1 = negb (rd_truncated r.2).
Proof.
  intros Hp Hf. destruct (progress_untruncated all s Hp Hf) as [Hl Ht].
  destruct Hp as [Hrep _]. rewrite Ht in Hrep.
  pose proof (pushSlice_spec start rangeEnd maxBytes all s c Hrep Hf Hl) as H.
  simpl in *. destruct (pushSlice start rangeEnd c s) as [go s']. simpl.
  destruct H as (Hr & Htr & Hgo). unfold progress. by rewrite Htr.
Qed.

Lemma progress_rows all s rs :
  progress all s -> rd_truncated s = false ->
  progress (all ++ window start rangeEnd rs) (pushRows start rangeEnd rs s).
Proof.
  revert all s. induction rs as [|c rs IH]; intros all s Hp Hf.
  { unfold window. simpl. by rewrite app_nil_r. }
  destruct (progress_slice all s c Hp Hf) as [Hp' Hgo]. simpl in *.
  rewrite window_cons, (assoc_L (++)).
  destruct (pushSlice start rangeEnd c s) as [go s']. simpl in *.
  destruct (rd_truncated s') eqn:E; simpl in Hgo; subst go.
  - by apply progress_stop.
  - by apply IH.
Qed.
End Progress.

(** ** The page loop *)

(** The rows a scan from [scanFrom] still has to visit. *)
Definition pending_rows (scanFrom : Z) (rangeEnd : option Z) (rs : list StoredOutputChunk)
  : list StoredOutputChunk :=
  filter (fun c => scanFrom <= byteOffset c
                   /\ before_offset rangeEnd (byteOffset c) = true) rs.

Lemma disjoint_log_filter (P : StoredOutputChunk -> Prop) `{!forall x, Decision (P x)} rs :
  disjoint_log rs -> disjoint_log (filter P rs).
Proof.
  intros [Hs Hn]. split; [by apply StronglySorted_filter_sub|].
  apply Forall_forall. intros x [_ Hx]%list_elem_of_filter.
  by eapply Forall_forall in Hn.
Qed.

Lemma disjoint_log_app xs ys :
  disjoint_log (xs ++ ys) <->
  disjoint_log xs /\ disjoint_log ys
  /\ (forall a b, a ∈ xs -> b ∈ ys -> chunk_end a <= byteOffset b).
Proof.
  unfold disjoint_log. rewrite StronglySorted_app, Forall_app. unfold chunk_before.
  naive_solver.
Qed.

Lemma chunk_len_pos c : data c <> [] -> 0 < zlen (data c).
Proof. intros. destruct (data c); [done|]. rewrite zlen_cons. pose proof (zlen_nonneg l). lia. Qed.

Lemma disjoint_log_cons c rs :
  disjoint_log (c :: rs) <->
  data c <> [] /\ disjoint_log rs /\ (forall b, b ∈ rs -> chunk_end c <= byteOffset b).
Proof.
  unfold disjoint_log. rewrite StronglySorted_cons, !Forall_cons, (Forall_forall (chunk_before c)).
  unfold chunk_before. naive_solver.
Qed.

(** The rows after a full page are those at or after its end. *)
Lemma next_page scanFrom rangeEnd rs n lst :
  disjoint_log rs ->
  last (take n (pending_rows scanFrom rangeEnd rs)) = Some lst ->
  pending_rows (byteOffset lst + Z.max (zlen (data lst)) 1) rangeEnd rs
  = drop n (pending_rows scanFrom rangeEnd rs).
Proof.
  intros Hd Hl. destruct (last_take_split _ _ _ Hl) as (pre & _ & E).
  assert (Hdp : disjoint_log (pending_rows scanFrom rangeEnd rs))
    by by apply disjoint_log_filter.
  assert (scanFrom <= byteOffset lst) as Hge.
  { assert (lst ∈ pending_rows scanFrom rangeEnd rs) as Hin by (rewrite E; set_solver).
    apply list_elem_of_filter in Hin as [[? ?] _]. done. }
  set (P := pending_rows scanFrom rangeEnd rs) in *.
  assert (pending_rows (byteOffset lst + Z.max (zlen (data lst)) 1) rangeEnd rs
    = filter (fun c => byteOffset lst + Z.max (zlen (data lst)) 1 <= byteOffset c) P) as ->.
  { apply filter_conj. intros x. split; [|naive_solver]. intros [? ?]. split_and!; [lia|done|done]. }
  remember (drop n P) as post eqn:Epost. clear Epost.
  rewrite E in Hdp |- *. apply disjoint_log_app in Hdp as (_ & Hr & Hpre).
  apply disjoint_log_cons in Hr as (Hne & _ & Hpost).
  pose proof (chunk_len_pos _ Hne). rewrite filter_app, filter_cons.
  rewrite decide_False by (unfold chunk_end in *; lia).
  rewrite filter_none, filter_all; [done|..]; apply Forall_forall; intros c Hc.
  - specialize (Hpost c Hc). unfold chunk_end in *. lia.
  - assert (chunk_end c <= byteOffset lst) as Hcl by (apply Hpre; set_solver).
    unfold chunk_end in Hcl. pose proof (zlen_nonneg (data c)). lia.
Qed.

(** Rows outside a window contribute nothing to it. *)
Lemma chunk_window_nil start rangeEnd c :
  chunk_end c <= start \/ before_offset rangeEnd (byteOffset c) = false ->
  filter (in_window start rangeEnd) (chunk_bytes c) = [].
Proof.
  intros Hc. apply filter_none, Forall_forall. intros p Hp%bytes_at_pos [Hge Hlt].
  destruct Hc as [Hc|Hc]; [unfold chunk_end in Hc; lia|].
  destruct rangeEnd as [e|]; simpl in *; [|done]. zbool. lia.
Qed.

Lemma window_nil start rangeEnd rs :
  (forall c, c ∈ rs -> chunk_end c <= start \/ before_offset rangeEnd (byteOffset c) = false) ->
  window start rangeEnd rs = [].
Proof.
  intros Hout. induction rs as [|c rs IH]; [done|].
  rewrite window_cons, chunk_window_nil, IH; set_solver.
Qed.

(** Dropping the rows at or after the end of the range changes no window. *)
Lemma window_pending start rangeEnd scanFrom rs :
  window start rangeEnd (filter (fun c => scanFrom <= byteOffset c) rs)
  = window start rangeEnd (pending_rows scanFrom rangeEnd rs).
Proof.
  induction rs as [|c rs IH]; [done|]. unfold pending_rows in *.
  rewrite !filter_cons. destruct (decide (scanFrom <= byteOffset c)) as [Hc|Hc].
  - destruct (before_offset rangeEnd (byteOffset c)) eqn:Hb.
    + rewrite decide_True by done. by rewrite !window_cons, IH.
    + rewrite decide_False by naive_solver.
      by rewrite window_cons, IH, chunk_window_nil by auto.
  - rewrite decide_False by naive_solver. done.
Qed.

(** The rows after the covering chunk are those a scan past it visits. *)
Lemma scan_after_covering pre cov post scanFrom :
  disjoint_log (pre ++ cov :: post) ->
  byteOffset cov < scanFrom ->
  Forall (fun c => scanFrom <= byteOffset c) post ->
  filter (fun c => scanFrom <= byteOffset c) (pre ++ cov :: post) = post.
Proof.
  intros (_ & Hr & Hpre)%disjoint_log_app Hlt Hpost.
  rewrite filter_app, filter_cons, decide_False by lia.
  rewrite filter_none, filter_all; [done|done|].
  apply Forall_forall. intros c Hc.
  assert (chunk_end c <= byteOffset cov) as Hcl by (apply Hpre; set_solver).
  unfold chunk_end in Hcl. pose proof (zlen_nonneg (data c)). lia.
Qed.

Section ReadRange.
Context {D : Type} `{OutputPersistenceLaws D}.
Context (sid : string) (d : D).
Context (start : Z) (rangeEnd : option Z) (maxBytes : Z).
Context (Hdis : disjoint_log (rows sid d)).

Lemma read_loop_spec fuel scanFrom all s :
  (length (pending_rows scanFrom rangeEnd (rows sid d)) < fuel)%nat ->
  progress start maxBytes all s ->
  exists s', read_loop fuel sid start rangeEnd d scanFrom s = Some s'
    /\ progress start maxBytes
         (all ++ window start rangeEnd (pending_rows scanFrom rangeEnd (rows sid d))) s'.
Proof.
  revert scanFrom all s. induction fuel as [|fuel IH]; intros scanFrom all s Hf Hp; [lia|].
  simpl. destruct (rd_truncated s) eqn:Ht; simpl.
  { exists s. split; [done|]. by apply progress_stop. }
  destruct (before_offset rangeEnd scanFrom) eqn:Hb; simpl.
  2:{ exists s. split; [done|]. rewrite window_nil, app_nil_r; [done|].
      intros c [[Hc Hc'] _]%list_elem_of_filter. destruct rangeEnd; simpl in *; zbool; [lia|done]. }
  rewrite listChunksFrom_law. fold (pending_rows scanFrom rangeEnd (rows sid d)).
  set (P := pending_rows scanFrom rangeEnd (rows sid d)) in *.
  destruct (last (take READ_BATCH_ROWS P)) as [lst|] eqn:El.
  2:{ apply last_None in El. assert (P = []) as ->.
      { destruct P; [done|]. by unfold READ_BATCH_ROWS in El. }
      exists s. split; [done|]. unfold window. simpl. by rewrite app_nil_r. }
  pose proof (progress_rows start rangeEnd maxBytes all s (take READ_BATCH_ROWS P) Hp Ht) as Hp'.
  rewrite length_take. destruct (Nat.ltb_spec (min READ_BATCH_ROWS (length P)) READ_BATCH_ROWS).
  - rewrite take_ge in Hp' |- * by lia. eauto.
  - pose proof (next_page _ _ _ _ _ Hdis El) as Hnext. fold P in Hnext.
    destruct (IH (byteOffset lst + Z.max (zlen (data lst)) 1)
                (all ++ window start rangeEnd (take READ_BATCH_ROWS P))
                (pushRows start rangeEnd (take READ_BATCH_ROWS P) s)) as (s' & Hr & Hps); [|done|].
    + rewrite Hnext, length_drop. unfold READ_BATCH_ROWS in *. lia.
    + exists s'. split; [done|]. rewrite Hnext in Hps.
      by rewrite <-(assoc_L (++)), <-window_app, take_drop in Hps.
Qed.

Lemma read_loop_enough scanFrom all s :
  progress start maxBytes all s ->
  is_Some (read_loop (S (length (rows sid d))) sid start rangeEnd d scanFrom s).
Proof.
  intros Hp. destruct (read_loop_spec (S (length (rows sid d))) scanFrom all s) as (s' & -> & _);
    [|done|by eexists].
  unfold pending_rows. pose proof (length_filter (fun c => scanFrom <= byteOffset c /\
    before_offset rangeEnd (byteOffset c) = true) (rows sid d)). lia.
Qed.

Lemma progress_result all s :
  progress start maxBytes all s ->
  mkRange (concat (rd_buffers s)) (rd_firstByteOffset s ?? start) (rd_consumedEnd s)
    (rd_truncated s) (if rd_truncated s then Some (rd_consumedEnd s) else None)
  = let out := take (Z.to_nat maxBytes) all in
    let endOffset := ((fun p => p.1 + 1) <$> last out) ?? start in
    let truncated := maxBytes <? zlen all in
    mkRange out.*2 ((fst <$> head out) ?? start) endOffset truncated
      (if truncated then Some endOffset else None).
Proof. intros [[-> -> -> _] ->]. done. Qed.

Lemma progress_init : 0 <= maxBytes ->
  progress start maxBytes [] (mkRead [] None start maxBytes false).
Proof.
  intros. unfold progress. rewrite take_nil. split; [constructor; try done|].
  - simpl. unfold zlen. simpl. lia.
  - symmetry. by apply Z.ltb_ge.
Qed.

Lemma pending_after_covering pre cov post scanFrom :
  rows sid d = pre ++ cov :: post ->
  byteOffset cov < scanFrom ->
  Forall (fun c => scanFrom <= byteOffset c) post ->
  byteOffset cov <= start ->
  window start rangeEnd (rows sid d)
  = filter (in_window start rangeEnd) (chunk_bytes cov)
    ++ window start rangeEnd (pending_rows scanFrom rangeEnd (rows sid d)).
Proof.
  intros E Hlt Hpost Hle. rewrite <-window_pending. pose proof Hdis as Hd.
  rewrite E in Hd |- *.
  rewrite scan_after_covering by done. rewrite window_app, window_cons.
  rewrite (window_nil start rangeEnd pre); [done|].
  intros c Hc. left. apply disjoint_log_app in Hd as (_ & _ & Hpre).
  etrans; [apply (Hpre c cov); set_solver|done].
Qed.

(** The covering chunk splits the log. *)
Lemma covering_split cov :
  findCoveringChunk sid start d = Some cov ->
  byteOffset cov <= start /\ byteOffset cov < chunk_end cov
  /\ exists pre post, rows sid d = pre ++ cov :: post
     /\ Forall (fun c => chunk_end cov <= byteOffset c) post
     /\ Forall (fun c => start < byteOffset c) post.
Proof.
  rewrite findCoveringChunk_law. intros E. pose proof Hdis as Hd.
  assert (Hin : cov ∈ filter (fun c => byteOffset c <= start) (rows sid d))
    by by apply last_elem.
  apply list_elem_of_filter in Hin as [Hle _].
  destruct (last_filter_Some _ _ _ E) as (pre & post & Er & Hpost).
  rewrite Er in Hd. apply disjoint_log_app in Hd as (_ & Hr & _).
  apply disjoint_log_cons in Hr as (Hne%chunk_len_pos & _ & Hr).
  split_and!; [done|unfold chunk_end; lia|]. exists pre, post. split_and!; [done| |].
  - by apply Forall_forall.
  - eapply Forall_impl; [exact Hpost|]. simpl. lia.
Qed.

(** What [readRange] starts its page loop with: the pairs collected so far
    and the ones the loop will visit are the whole window. *)
Definition read_start : ReadState * Z :=
  let s := mkRead [] None start maxBytes false in
  match findCoveringChunk sid start d with
  | Some covering =>
      if start <? chunk_end covering
      then ((pushSlice start rangeEnd covering s).2, chunk_end covering)
      else (s, start)
  | None => (s, start)
  end.

Lemma read_start_progress : 0 <= maxBytes ->
  exists all, progress start maxBytes all read_start.1
  /\ all ++ window start rangeEnd (pending_rows read_start.2 rangeEnd (rows sid d))
     = window start rangeEnd (rows sid d).
Proof.
  intros Hm%progress_init. unfold read_start.
  destruct (findCoveringChunk sid start d) as [cov|] eqn:E.
  - destruct (covering_split cov E) as (Hle & Hlt & pre & post & Er & Hafter & Hpost).
    destruct (Z.ltb_spec start (chunk_end cov)); simpl.
    + exists (filter (in_window start rangeEnd) (chunk_bytes cov)). split.
      * apply (progress_slice start rangeEnd maxBytes [] _ cov Hm eq_refl).
      * symmetry. by eapply pending_after_covering.
    + exists []. split; [done|]. symmetry.
      rewrite (pending_after_covering pre cov post start); [|done|lia| |done].
      * by rewrite chunk_window_nil by auto.
      * eapply Forall_impl; [exact Hpost|]. simpl. lia.
  - exists []. split; [done|]. simpl.
    rewrite <-window_pending, filter_all; [done|].
    rewrite findCoveringChunk_law in E. apply last_None in E.
    apply Forall_forall. intros c Hc. destruct (decide (byteOffset c <= start)); [|lia].
    assert (c ∈ filter (fun c => byteOffset c <= start) (rows sid d)) as Hin
      by by apply list_elem_of_filter.
    rewrite E in Hin. set_solver.
Qed.
End ReadRange.

Lemma pending_length scanFrom rangeEnd rs :
  (length (pending_rows scanFrom rangeEnd rs) <= length rs)%nat.
Proof. apply length_filter. Qed.

(** A range read of the output log returns exactly what a direct scan of
    the stored bytes returns: the first [maxBytes] bytes at or after the start
    offset and before the end offset, the offsets of the first byte and after
    the last byte, and a continuation offset exactly when bytes of the range
    are left over. The page loop stops within one query per stored row. *)
Lemma readRange_scans {D : Type} `{OutputPersistenceLaws D}
    (sid : string) (d : D) (startOffset : Q) (endOffset : option Q) (maxBytes : Q)
    (fuel : nat) :
  disjoint_log (rows sid d) ->
  (length (rows sid d) < fuel)%nat ->
  readRange fuel sid startOffset endOffset maxBytes d
  = Some (ref_read (floor_nonneg startOffset)
            ((fun e => Z.max (floor_nonneg startOffset) (Qfloor e)) <$> endOffset)
            (floor_nonneg maxBytes) (rows sid d)).
Proof.
  intros Hdis Hfuel. unfold readRange.
  set (start := floor_nonneg startOffset). set (rangeEnd := _ <$> endOffset).
  set (mx := floor_nonneg maxBytes).
  destruct (read_start_progress sid d start rangeEnd mx Hdis) as (all & Hp & Hw);
    [apply floor_nonneg_ge0|].
  unfold read_start in Hp, Hw. destruct (match findCoveringChunk sid start d with
    Some _ => _ | None => _ end) as [s scanFrom]. simpl in Hp, Hw.
  destruct (read_loop_spec sid d start rangeEnd mx Hdis fuel scanFrom all s) as (s' & -> & Hps).
  { pose proof (pending_length scanFrom rangeEnd (rows sid d)). lia. }
  { done. }
  rewrite Hw in Hps. simpl. f_equal. by apply (progress_result start mx).
Qed.

(** ** Tail reads *)

(** The reference tail read: the last [budget] stored pairs. *)
Definition ref_tail (budget : Z) (rs : list StoredOutputChunk) : OutputTailReadResult :=
  let out := last_n (Z.to_nat budget) (stored_bytes rs) in
  mkTail out.*2 ((fst <$> head out) ?? 0) (((fun p => p.1 + 1) <$> last out) ?? 0)
    (stored_len rs).

(** The locals of [tailOutput] after collecting the [k] newest rows of the log,
    [L] being the log newest first. *)
Record tail_at (L : list StoredOutputChunk) (budget : Z) (k : nat)
    (collected : list StoredOutputChunk) (bytes : Z) (before : option Z) : Prop := {
  ta_collected : collected = take k L;
  ta_bound : (k <= length L)%nat;
  ta_bytes : bytes = stored_len (take k L);
  ta_before : before = byteOffset <$> last (take k L);
  ta_least : forall j, (j < k)%nat -> stored_len (take j L) < budget;
}.

Lemma stored_len_app xs ys : stored_len (xs ++ ys) = stored_len xs + stored_len ys.
Proof. unfold stored_len. by rewrite fmap_app, zsum_app. Qed.

Lemma stored_len_one c : stored_len [c] = zlen (data c).
Proof. unfold stored_len. simpl. lia. Qed.

Lemma stored_len_nonneg rs : 0 <= stored_len rs.
Proof.
  apply zsum_nonneg, Forall_fmap, Forall_true. intros c. apply zlen_nonneg.
Qed.

Lemma stored_len_concat rs : stored_len rs = zlen (concat (data <$> rs)).
Proof.
  induction rs as [|c rs IH]; [done|]. rewrite fmap_cons. cbn [concat].
  by rewrite zlen_app, <-IH.
Qed.

Lemma stored_bytes_len rs : zlen (stored_bytes rs) = stored_len rs.
Proof.
  induction rs as [|c rs IH]; [done|]. unfold stored_bytes in *. rewrite bind_cons, zlen_app, IH.
  unfold chunk_bytes, zlen at 1. by rewrite bytes_at_length.
Qed.

Lemma stored_bytes_snd rs : (stored_bytes rs).*2 = concat (data <$> rs).
Proof.
  induction rs as [|c rs IH]; [done|]. unfold stored_bytes in *.
  rewrite bind_cons, fmap_app, IH, fmap_cons. cbn [concat]. f_equal. apply bytes_at_snd.
Qed.

Lemma tail_scan_spec L budget rs k collected bytes before :
  rs `prefix_of` drop k L ->
  tail_at L budget k collected bytes before -> bytes < budget ->
  exists k', let '(c', b', f') := tail_scan budget rs collected bytes before in
    tail_at L budget k' c' b' f'
    /\ (budget <= b' \/ k' = (k + length rs)%nat) /\ (k + min 1 (length rs) <= k')%nat.
Proof.
  revert k collected bytes before. induction rs as [|r rs IH];
    intros k collected bytes before [q Hq] Hat Hb.
  { exists k. simpl. split_and!; [done|right|]; lia. }
  destruct Hat as [-> Hk -> -> Hleast].
  assert (Hr : L !! k = Some r).
  { rewrite <-(Nat.add_0_r k), <-lookup_drop, Hq. done. }
  assert (Htake : take k L ++ [r] = take (S k) L) by by rewrite (take_S_r _ _ r).
  assert (Hlen : stored_len (take k L) + zlen (data r) = stored_len (take (S k) L)).
  { by rewrite <-Htake, stored_len_app, stored_len_one. }
  assert (Hat' : tail_at L budget (S k) (take (S k) L) (stored_len (take (S k) L))
                   (Some (byteOffset r))).
  { constructor; try done.
    - apply lookup_lt_Some in Hr. lia.
    - by rewrite <-Htake, last_snoc.
    - intros j Hj. destruct (decide (j = k)) as [->|]; [done|]. apply Hleast. lia. }
  simpl. rewrite Htake, Hlen. destruct (Z.leb_spec budget (stored_len (take (S k) L))).
  - exists (S k). split_and!; [done|by left|simpl; lia].
  - destruct (IH (S k) (take (S k) L) (stored_len (take (S k) L)) (Some (byteOffset r)))
      as (k' & Hk'); [|done|done|].
    + exists q. replace (S k) with (k + 1)%nat by lia. rewrite <-drop_drop, Hq. done.
    + exists k'. destruct (tail_scan _ _ _ _ _) as [[c' b'] f'].
      destruct Hk' as (Ha & Hor & Hle). split_and!; [done|destruct Hor; [by left|right]|]; lia.
Qed.

(** The rows before the oldest collected one are the rest of the log. *)
Lemma tail_page R k :
  StronglySorted chunk_lt R ->
  reverse (filter (fun c => before_offset (byteOffset <$> last (take k (reverse R)))
                              (byteOffset c) = true) R)
  = drop k (reverse R).
Proof.
  intros Hs. destruct (last (take k (reverse R))) as [c|] eqn:El; simpl.
  - destruct (last_take_split _ _ _ El) as (pre & _ & E).
    remember (drop k (reverse R)) as post eqn:Ep. clear Ep El.
    assert (R = reverse post ++ c :: reverse pre) as ->.
    { rewrite <-(reverse_involutive R), E, reverse_app, reverse_cons.
      by rewrite <-(assoc_L (++)). }
    apply StronglySorted_app in Hs as (Hlt & _ & [Hc _]%StronglySorted_cons).
    rewrite filter_app, filter_cons, decide_False by (rewrite Z.ltb_irrefl; done).
    rewrite filter_all, filter_none, app_nil_r; [by rewrite reverse_involutive|..].
    + eapply Forall_impl; [exact Hc|]. unfold chunk_lt. intros x Hx ?. zbool. lia.
    + apply Forall_forall. intros x Hx. apply Z.ltb_lt. apply Hlt; set_solver.
  - apply last_None in El. rewrite filter_all by by apply Forall_true.
    destruct k; [done|]. by destruct (reverse R).
Qed.

Section Tail.
Context {D : Type} `{OutputPersistenceLaws D}.
Context (sid : string) (d : D) (budget : Z).
Let L := reverse (rows sid d).

Lemma tail_loop_spec fuel k collected bytes before :
  (length L - k < fuel)%nat ->
  tail_at L budget k collected bytes before ->
  exists k' bytes' before', tail_loop fuel sid budget d collected bytes before = Some (take k' L)
    /\ tail_at L budget k' (take k' L) bytes' before'
    /\ (budget <= bytes' \/ k' = length L).
Proof.
  revert k collected bytes before.
  induction fuel as [|fuel IH]; intros k collected bytes before Hf Hat; [lia|].
  pose proof Hat as [-> Hk -> -> Hleast]. cbn [tail_loop].
  destruct (Z.ltb_spec (stored_len (take k L)) budget) as [Hlt|Hge];
    [|exists k; do 2 eexists; split_and!; [done|done|by left]].
  pose proof (tail_page (rows sid d) k (rows_sorted sid d)) as Hpage. fold L in Hpage.
  rewrite listTailChunks_law, Hpage.
  destruct (take READ_BATCH_ROWS (drop k L)) as [|r rs] eqn:Ep.
  { assert (k = length L).
    { apply (f_equal length) in Ep. rewrite length_take, length_drop in Ep.
      cbn [length] in Ep. unfold READ_BATCH_ROWS in Ep. lia. }
    exists k; do 2 eexists. split_and!; [done|done|by right]. }
  destruct (tail_scan_spec L budget (r :: rs) k (take k L) (stored_len (take k L))
              (byteOffset <$> last (take k L))) as (k' & Hs); [|done|done|].
  { rewrite <-Ep. apply prefix_take. }
  destruct (tail_scan _ _ _ _ _) as [[c' b'] f']. destruct Hs as (Hat' & Hor & Hk').
  simpl in Hk'. pose proof Hat' as [-> Hb' _ _ _].
  assert (Hplen : length (r :: rs) = min READ_BATCH_ROWS (length L - k)).
  { rewrite <-Ep, length_take, length_drop. done. }
  destruct (Nat.ltb_spec (length (r :: rs)) READ_BATCH_ROWS).
  - exists k', b', f'. split_and!; [done|done|].
    destruct Hor as [?|Hor]; [by left|right]. lia.
  - apply (IH k'); [|done]. lia.
Qed.

Lemma tail_loop_enough :
  is_Some (tail_loop (S (length (rows sid d))) sid budget d [] 0 None).
Proof.
  destruct (tail_loop_spec (S (length (rows sid d))) 0 [] 0 None) as (k & b & f & -> & _); eauto.
  - unfold L. rewrite length_reverse. lia.
  - constructor; try done; lia.
Qed.
End Tail.

Lemma last_n_app_r {A} n (xs ys : list A) :
  (n <= length ys)%nat -> last_n n (xs ++ ys) = last_n n ys.
Proof.
  intros. apply (suffix_same_length _ _ (xs ++ ys)).
  - apply last_n_suffix.
  - etrans; [apply last_n_suffix|]. by exists xs.
  - rewrite !last_n_length, length_app. lia.
Qed.

Lemma last_last_n {A} n (l : list A) : (0 < n)%nat -> last (last_n n l) = last l.
Proof.
  intros. destruct (last_n_suffix n l) as [p E]. rewrite E at 2. rewrite last_app.
  destruct (last (last_n n l)) eqn:El; [done|]. apply last_None in El.
  apply (f_equal length) in El. rewrite last_n_length in El. cbn [length] in El.
  destruct l; [|simpl in El; lia]. by apply eq_sym, app_nil in E as [-> _].
Qed.

(** The end of the last non-empty chunk is the end of the stored pairs. *)
Lemma stored_bytes_last rs c :
  last rs = Some c -> data c <> [] ->
  ((fun p => p.1 + 1) <$> last (stored_bytes rs)) = Some (chunk_end c).
Proof.
  intros [pre ->]%last_Some Hne. unfold stored_bytes.
  rewrite bind_app, bind_singleton, last_app. unfold chunk_bytes.
  pose proof (bytes_at_last (byteOffset c) (data c) Hne) as Hl.
  destruct (last (bytes_at (byteOffset c) (data c))); simplify_eq/=.
  f_equal. unfold chunk_end. lia.
Qed.

(** The first pair of the last [n] pairs of a log whose first chunk is only
    partly needed. *)
Lemma stored_bytes_trim_head c rs n :
  data c <> [] -> 0 <= n -> stored_len rs < n <= stored_len (c :: rs) ->
  fst <$> head (last_n (Z.to_nat n) (stored_bytes (c :: rs)))
  = Some (byteOffset c + (stored_len (c :: rs) - n)).
Proof.
  intros Hne Hn [Hlo Hhi]. pose proof (stored_bytes_len (c :: rs)) as Hlen.
  unfold last_n. unfold zlen in Hlen. set (t := stored_len (c :: rs) - n).
  replace (length (stored_bytes (c :: rs)) - Z.to_nat n)%nat with (Z.to_nat t) by lia.
  assert (Hc : stored_len (c :: rs) = zlen (data c) + stored_len rs) by done.
  unfold stored_bytes. rewrite bind_cons. unfold chunk_bytes at 1.
  rewrite drop_app_le by (rewrite bytes_at_length; unfold zlen in *; lia).
  rewrite bytes_at_drop, Z2Nat.id by lia.
  destruct (drop (Z.to_nat t) (data c)) eqn:E; [|done].
  apply (f_equal length) in E. rewrite length_drop in E. cbn [length] in E.
  unfold zlen in *. lia.
Qed.

(** The suffix of the log a tail read collects, as a tail read sees it. *)
Lemma ref_tail_suffix budget pre suf :
  0 <= budget -> Forall (fun c => data c <> []) suf ->
  (budget <= stored_len suf \/ pre = []) ->
  (forall c rest, suf = c :: rest -> stored_len rest < budget) ->
  let combined := concat (data <$> suf) in
  let startOffset := (byteOffset <$> head suf) ?? 0 in
  let endOffset := (chunk_end <$> last suf) ?? 0 in
  (if budget <? zlen combined
   then (subarray_from (zlen combined - budget) combined,
         startOffset + (zlen combined - budget))
   else (combined, startOffset))
  = (let out := last_n (Z.to_nat budget) (stored_bytes (pre ++ suf)) in
     (out.*2, (fst <$> head out) ?? 0))
  /\ (((fun p => p.1 + 1) <$> last (last_n (Z.to_nat budget) (stored_bytes (pre ++ suf)))) ?? 0)
     = endOffset.
Proof.
  intros Hb Hne Hor Hleast combined startOffset endOffset.
  assert (Hlen : zlen combined = stored_len suf) by (symmetry; apply stored_len_concat).
  assert (Hw : last_n (Z.to_nat budget) (stored_bytes (pre ++ suf))
             = last_n (Z.to_nat budget) (stored_bytes suf)).
  { unfold stored_bytes. rewrite bind_app. destruct Hor as [Hor| ->]; [|done].
    rewrite <-stored_bytes_len in Hor. apply last_n_app_r. unfold zlen in Hor. 
    unfold stored_bytes in Hor. lia. }
  rewrite Hw. destruct suf as [|c rest].
  { rewrite Hlen. destruct (Z.ltb_spec budget (stored_len [])) as [Hx|]; [|done].
    change (stored_len []) with 0 in Hx. lia. }
  specialize (Hleast c rest eq_refl). pose proof (stored_len_nonneg rest).
  inversion Hne as [|? ? Hc Hrest]; subst.
  split.
  - rewrite Hlen. destruct (Z.ltb_spec budget (stored_len (c :: rest))).
    + f_equal.
      * unfold last_n. rewrite fmap_drop, stored_bytes_snd. fold combined.
        unfold subarray_from. f_equal. rewrite <-stored_bytes_len. unfold zlen. lia.
      * rewrite stored_bytes_trim_head by (done || lia). done.
    + rewrite last_n_all.
      2:{ rewrite <-stored_bytes_len in *. unfold zlen in *. lia. }
      f_equal; [by rewrite stored_bytes_snd|].
      unfold stored_bytes. rewrite bind_cons. unfold chunk_bytes.
      by destruct (data c).
  - rewrite last_last_n by lia. subst endOffset.
    destruct (last (c :: rest)) as [l|] eqn:El; [|by apply last_None in El].
    erewrite stored_bytes_last; [done|exact El|].
    eapply Forall_forall in Hne; [exact Hne|]. by apply last_elem.
Qed.

(** A tail read returns the last [maxBytes] stored bytes, with the offset
    of the first of them and the offset after the last stored byte, however
    many rows that takes; it stops within one query per stored row. *)
Lemma tailOutput_scans {D : Type} `{OutputPersistenceLaws D}
    (sid : string) (d : D) (maxBytes : Q) (fuel : nat) :
  Forall (fun c => data c <> []) (rows sid d) ->
  (length (rows sid d) < fuel)%nat ->
  tailOutput fuel sid maxBytes d = Some (ref_tail (floor_nonneg maxBytes) (rows sid d)).
Proof.
  intros Hne Hfuel. unfold tailOutput. pose proof (floor_nonneg_ge0 maxBytes) as Hb.
  set (budget := floor_nonneg maxBytes) in *.
  destruct (tail_loop_spec sid d budget fuel 0 [] 0 None) as (k & b & f & -> & Hat & Hor).
  { rewrite length_reverse. lia. }
  { constructor; try done; lia. }
  destruct Hat as [_ Hk -> _ Hleast]. set (L := reverse (rows sid d)) in *.
  assert (Hrows : rows sid d = reverse (drop k L) ++ reverse (take k L)).
  { rewrite <-reverse_app, take_drop. unfold L. by rewrite reverse_involutive. }
  cbn [mbind option_bind].
  destruct (ref_tail_suffix budget (reverse (drop k L)) (reverse (take k L))) as [Hd He].
  { done. }
  { rewrite Hrows in Hne. by apply Forall_app in Hne as [_ ?]. }
  { destruct Hor as [Hor| ->].
    - left. unfold stored_len in *. by rewrite fmap_reverse, zsum_reverse.
    - right. by rewrite drop_all. }
  { intros c rest E. apply (f_equal reverse) in E. rewrite reverse_involutive, reverse_cons in E.
    destruct k as [|k]; [by destruct (reverse rest)|].
    assert (take k L = reverse rest) as Et.
    { assert (take k L = take k (take (S k) L)) as ->
        by (rewrite take_take; f_equal; lia).
      rewrite E. apply (f_equal length) in E. rewrite length_take, length_app in E.
      cbn [length] in E. apply take_app_length'. lia. }
    specialize (Hleast k). rewrite Et in Hleast.
    unfold stored_len in *. rewrite fmap_reverse, zsum_reverse in Hleast. lia. }
  cbn zeta in Hd, He. rewrite Hd, getStoredOutputBytes_law. unfold ref_tail.
  rewrite <-Hrows, <-He, <-Hrows. done.
Qed.

(** C2: A paginated range read returns exactly what a direct scan of the stored bytes
    returns, its first and last offset and the continuation offset when bytes of the
    range are left over; a tail read returns the last [maxBytes] stored bytes with
    their offsets; both stop within one query per stored row. *)
Theorem reads_equal_scan {D : Type} `{OutputPersistenceLaws D} (sid : string) (d : D) (fuel : nat) :
  (length (rows sid d) < fuel)%nat ->
  (disjoint_log (rows sid d) -> forall startOffset endOffset maxBytes,
     readRange fuel sid startOffset endOffset maxBytes d
     = Some (ref_read (floor_nonneg startOffset)
               ((fun e => Z.max (floor_nonneg startOffset) (Qfloor e)) <$> endOffset)
               (floor_nonneg maxBytes) (rows sid d))) /\
  (Forall (fun c => data c <> []) (rows sid d) -> forall maxBytes,
     tailOutput fuel sid maxBytes d = Some (ref_tail (floor_nonneg maxBytes) (rows sid d))).
Proof.
  intros Hf. split; intros Hd; intros; [by apply readRange_scans|by apply tailOutput_scans].
Qed.
