(* ===== verification/OutputTable.v ===== *)
(** The Drizzle implementation of the output persistence: the class
    [DrizzleTerminalOutputPersistence] of
    [service/src/runtime/terminal/output-store.ts] over two tables.

    [output_table] is [terminal_session_output], whose key is
    (session id, byte offset); [session_table] holds the counters of
    [terminal_session] that ingest bumps. A query is a selection of a session's
    rows, ordered by offset, cut to its limit. [drizzle_laws] discharges the
    interface [OutputPersistenceLaws] the store is proved against. *)
From Stdlib Require Import Strings.Byte ZArith QArith Qround Lia.
From stdpp Require Import base tactics strings gmap sorting option.
From stdpp Require Import list.
From S2P Require Import Prelude JsRuntime OutputStore OutputReads.

#[local] Open Scope Z_scope.

(** The counters of a [terminal_session] row. *)
Record SessionStats := mkStats {
  totalOutputBytes : Z;
  outputLogBytes : Z;
  lastOutputAt : option Z;
  lastActivityAt : option Z;
}.

Record OutputDb := mkDb {
  output_table : gmap (string * Z) (list byte);
  session_table : gmap string SessionStats;
}.

(** The rows of a session, in no particular order. *)
Definition session_rows (sid : string) (d : OutputDb) : list StoredOutputChunk :=
  omap (fun kv : string * Z * list byte =>
          if decide (kv.1.1 = sid) then Some (mkChunk kv.1.2 kv.2) else None)
    (map_to_list (output_table d)).

Definition offset_le (a b : StoredOutputChunk) : Prop := byteOffset a <= byteOffset b.
Definition offset_ge (a b : StoredOutputChunk) : Prop := byteOffset b <= byteOffset a.
#[export] Instance offset_le_dec a b : Decision (offset_le a b).
Proof. unfold offset_le. apply _. Defined.
#[export] Instance offset_ge_dec a b : Decision (offset_ge a b).
Proof. unfold offset_ge. apply _. Defined.

(** [order by byte_offset asc] and [desc]. *)
Definition order_asc (l : list StoredOutputChunk) := merge_sort offset_le l.
Definition order_desc (l : list StoredOutputChunk) := merge_sort offset_ge l.

Module Drizzle.
Definition insertChunk (sid : string) (off : Z) (bs : list byte) (d : OutputDb)
    : bool * OutputDb :=
  match output_table d !! (sid, off) with
  | Some _ => (false, d)
  | None => (true, mkDb (<[(sid, off) := bs]> (output_table d)) (session_table d))
  end.

Definition bumpOutputStats (sid : string) (totalDelta storedDelta at_ : Z)
    (d : OutputDb) : OutputDb :=
  mkDb (output_table d)
    (alter (fun r => mkStats (totalOutputBytes r + totalDelta)
                       (outputLogBytes r + storedDelta) (Some at_) (Some at_))
       sid (session_table d)).

Definition getStoredOutputBytes (sid : string) (d : OutputDb) : Z :=
  zsum ((fun c => zlen (data c)) <$> session_rows sid d).

Definition findCoveringChunk (sid : string) (off : Z) (d : OutputDb)
    : option StoredOutputChunk :=
  head (take 1 (order_desc (filter (fun c => byteOffset c <= off) (session_rows sid d)))).

Definition listChunksFrom (sid : string) (from : Z) (limit : nat) (before : option Z)
    (d : OutputDb) : list StoredOutputChunk :=
  take limit (order_asc
    (filter (fun c => from <= byteOffset c /\ before_offset before (byteOffset c) = true)
       (session_rows sid d))).

Definition listTailChunks (sid : string) (before : option Z) (limit : nat)
    (d : OutputDb) : list StoredOutputChunk :=
  take limit (order_desc
    (filter (fun c => before_offset before (byteOffset c) = true) (session_rows sid d))).

(** [max(byte_offset + octet_length(data))], 0 without rows. *)
Definition getStoredEndOffset (sid : string) (d : OutputDb) : Z :=
  match chunk_end <$> session_rows sid d with
  | [] => 0
  | e :: es => foldr Z.max e es
  end.

(** The rows a pruning page selects. *)
Definition PRUNE_BATCH_ROWS : nat := 512.

(** The inner [for]: bytes removed so far and the last offset to delete. *)
Fixpoint prune_scan (minBytes : Z) (rs : list StoredOutputChunk) (removed : Z)
    (cutoff : option Z) : Z * option Z :=
  match rs with
  | [] => (removed, cutoff)
  | r :: rs =>
      let removed := removed + zlen (data r) in
      let cutoff := Some (byteOffset r) in
      if minBytes <=? removed then (removed, cutoff)
      else prune_scan minBytes rs removed cutoff
  end.

(** [delete ... where session_id = sid and byte_offset <= cutoff]. *)
Definition delete_upto (sid : string) (cutoff : Z) (d : OutputDb) : OutputDb :=
  mkDb (filter (fun kv => ~ (kv.1.1 = sid /\ kv.1.2 <= cutoff)) (output_table d))
    (session_table d).

(** The [while] loop; [None] when the fuel runs out. *)
Fixpoint prune_loop (fuel : nat) (sid : string) (minBytes removed : Z) (d : OutputDb)
    : option (Z * OutputDb) :=
  match fuel with
  | O => None
  | S fuel =>
      if removed <? minBytes then
        let rs := take PRUNE_BATCH_ROWS (order_asc (session_rows sid d)) in
        if bool_decide (rs = []) then Some (removed, d)
        else
          let '(removed, cutoff) := prune_scan minBytes rs removed None in
          match cutoff with
          | None => Some (removed, d)
          | Some cutoff =>
              let d := delete_upto sid cutoff d in
              if (removed <? minBytes) && (length rs <? PRUNE_BATCH_ROWS)%nat
              then Some (removed, d)
              else prune_loop fuel sid minBytes removed d
          end
      else Some (removed, d)
  end.

(** [pruneOldestChunks(sessionId, minBytesToRemove)]; the fuel suffices by
    [prune_loop_spec]. *)
Definition pruneOldestChunks (sid : string) (minBytes : Z) (d : OutputDb)
    : Z * OutputDb :=
  prune_loop (S (length (session_rows sid d))) sid minBytes 0 d ?? (0, d).
End Drizzle.

#[export] Instance drizzle : TerminalOutputPersistence OutputDb := {|
  insertChunk := Drizzle.insertChunk;
  bumpOutputStats := Drizzle.bumpOutputStats;
  db_getStoredOutputBytes := Drizzle.getStoredOutputBytes;
  findCoveringChunk := Drizzle.findCoveringChunk;
  listChunksFrom := Drizzle.listChunksFrom;
  listTailChunks := Drizzle.listTailChunks;
  db_getStoredEndOffset := Drizzle.getStoredEndOffset;
  pruneOldestChunks := Drizzle.pruneOldestChunks;
|}.

(** The rows of a session in offset order. *)
Definition table_rows (sid : string) (d : OutputDb) : list StoredOutputChunk :=
  order_asc (session_rows sid d).

(** ** Ordering *)

#[local] Instance offset_le_trans : Transitive offset_le.
Proof. unfold offset_le. intros x y z. lia. Qed.
#[local] Instance offset_le_total : Total offset_le.
Proof. unfold offset_le. intros x y. lia. Qed.
#[local] Instance offset_ge_trans : Transitive offset_ge.
Proof. unfold offset_ge. intros x y z. lia. Qed.
#[local] Instance offset_ge_total : Total offset_ge.
Proof. unfold offset_ge. intros x y. lia. Qed.
#[export] Instance chunk_lt_antisymm : AntiSymm (=) chunk_lt.
Proof. unfold chunk_lt. intros x y. lia. Qed.

(** Rows with distinct offsets. *)
Definition distinct (l : list StoredOutputChunk) : Prop := NoDup (byteOffset <$> l).

Lemma sorted_distinct_lt l :
  distinct l -> StronglySorted offset_le l -> StronglySorted chunk_lt l.
Proof.
  unfold distinct. intros Hd Hs. induction Hs as [|x l Hs IH Hx]; [constructor|].
  rewrite fmap_cons, NoDup_cons in Hd. destruct Hd as [Hn Hd]. constructor; [auto|].
  apply Forall_forall. intros y Hy. eapply Forall_forall in Hx; [|done].
  unfold offset_le, chunk_lt in *.
  assert (byteOffset x <> byteOffset y); [|lia].
  intros E. apply Hn. rewrite E. by apply list_elem_of_fmap_2.
Qed.

#[export] Instance distinct_proper : Proper ((≡ₚ) ==> iff) distinct.
Proof. intros l k E. unfold distinct. by rewrite E. Qed.

Lemma order_asc_lt l : distinct l -> StronglySorted chunk_lt (order_asc l).
Proof.
  intros. apply sorted_distinct_lt.
  - unfold order_asc. by rewrite merge_sort_Permutation.
  - apply StronglySorted_merge_sort; apply _.
Qed.

Lemma order_asc_unique l k :
  distinct l -> StronglySorted chunk_lt k -> k ≡ₚ l -> order_asc l = k.
Proof.
  intros Hd Hs Hp. eapply StronglySorted_unique; [apply _|by apply order_asc_lt|done|].
  unfold order_asc. by rewrite merge_sort_Permutation.
Qed.

Lemma distinct_filter (P : StoredOutputChunk -> Prop) `{!forall x, Decision (P x)} l :
  distinct l -> distinct (filter P l).
Proof.
  unfold distinct. intros. eapply sublist_NoDup; [done|].
  apply fmap_sublist, sublist_filter.
Qed.

Lemma filter_perm (P : StoredOutputChunk -> Prop) `{!forall x, Decision (P x)} l k :
  l ≡ₚ k -> filter P l ≡ₚ filter P k.
Proof. by intros ->. Qed.

Lemma order_asc_filter (P : StoredOutputChunk -> Prop) `{!forall x, Decision (P x)} l :
  distinct l -> order_asc (filter P l) = filter P (order_asc l).
Proof.
  intros Hd. apply order_asc_unique; [by apply distinct_filter| |].
  - by apply StronglySorted_filter_sub, order_asc_lt.
  - apply filter_perm. unfold order_asc. by rewrite merge_sort_Permutation.
Qed.

Lemma order_desc_reverse l : distinct l -> order_desc l = reverse (order_asc l).
Proof.
  intros Hd. rewrite <-(reverse_involutive (order_desc l)). f_equal.
  symmetry. apply order_asc_unique; [done| |].
  - apply sorted_distinct_lt.
    + rewrite reverse_Permutation. unfold order_desc. by rewrite merge_sort_Permutation.
    + assert (Hs : StronglySorted offset_ge (order_desc l))
        by (apply StronglySorted_merge_sort; apply _).
      induction Hs as [|x m _ IH Hx]; [constructor|]. rewrite reverse_cons.
      apply StronglySorted_app_2; [|done|repeat constructor].
      intros a b Ha ->%list_elem_of_singleton.
      rewrite Forall_forall in Hx. apply (Hx a). by apply elem_of_reverse.
  - rewrite reverse_Permutation. unfold order_desc. by rewrite merge_sort_Permutation.
Qed.

(** ** The rows of a session *)

Lemma elem_session_rows sid d c :
  c ∈ session_rows sid d <-> output_table d !! (sid, byteOffset c) = Some (data c).
Proof.
  unfold session_rows. rewrite list_elem_of_omap. split.
  - intros ([[s o] b] & Hin & E). apply elem_of_map_to_list in Hin.
    simpl in E. case_decide; by simplify_eq/=.
  - intros H. exists (sid, byteOffset c, data c). split.
    + by apply elem_of_map_to_list.
    + simpl. rewrite decide_True by done. by destruct c.
Qed.

Lemma session_rows_distinct sid d : distinct (session_rows sid d).
Proof.
  unfold distinct, session_rows.
  assert (Hnd := NoDup_fst_map_to_list (output_table d)).
  induction (map_to_list (output_table d)) as [|[[s o] b] l IH]; [constructor|].
  rewrite fmap_cons, NoDup_cons in Hnd. destruct Hnd as [Hn Hnd]. simpl.
  case_decide; [|by apply IH]. subst s. simpl. apply NoDup_cons. split; [|by apply IH].
  intros (c & -> & Hc)%list_elem_of_fmap. apply Hn. simpl.
  apply list_elem_of_omap in Hc as ([[s' o'] b'] & Hin & E). simpl in E.
  case_decide; simplify_eq/=. apply list_elem_of_fmap. by exists (sid, o', b').
Qed.

Lemma distinct_NoDup l : distinct l -> NoDup l.
Proof. apply NoDup_fmap_1. Qed.

(** Two tables with the same entries for a session have the same rows. *)
Lemma session_rows_perm sid d l :
  distinct l ->
  (forall c, c ∈ l <-> output_table d !! (sid, byteOffset c) = Some (data c)) ->
  session_rows sid d ≡ₚ l.
Proof.
  intros Hd Hl. apply NoDup_Permutation.
  - apply distinct_NoDup, session_rows_distinct.
  - by apply distinct_NoDup.
  - intros c. by rewrite elem_session_rows, Hl.
Qed.

Lemma table_rows_perm sid d : table_rows sid d ≡ₚ session_rows sid d.
Proof. apply merge_sort_Permutation. Qed.

Lemma table_rows_sorted sid d : StronglySorted chunk_lt (table_rows sid d).
Proof. apply order_asc_lt, session_rows_distinct. Qed.

Lemma table_rows_elem sid d c :
  c ∈ table_rows sid d <-> output_table d !! (sid, byteOffset c) = Some (data c).
Proof. by rewrite table_rows_perm, elem_session_rows. Qed.

(** Rows are determined by their entries. *)
Lemma table_rows_unique sid d l :
  StronglySorted chunk_lt l ->
  (forall c, c ∈ l <-> output_table d !! (sid, byteOffset c) = Some (data c)) ->
  table_rows sid d = l.
Proof.
  intros Hs Hl.
  assert (distinct l) as Hd.
  { unfold distinct. clear Hl. induction Hs as [|x l _ IH Hx]; [constructor|].
    simpl. apply NoDup_cons. split; [|done]. intros (y & E & Hy)%list_elem_of_fmap.
    eapply Forall_forall in Hx; [|done]. unfold chunk_lt in Hx. lia. }
  apply order_asc_unique; [apply session_rows_distinct|done|].
  symmetry. by apply session_rows_perm.
Qed.

(** ** The pruning loop *)

Lemma delete_upto_rows sid cutoff d :
  table_rows sid (Drizzle.delete_upto sid cutoff d)
  = filter (fun c => cutoff < byteOffset c) (table_rows sid d).
Proof.
  apply table_rows_unique.
  - apply StronglySorted_filter_sub, table_rows_sorted.
  - intros c. rewrite list_elem_of_filter, table_rows_elem.
    unfold Drizzle.delete_upto. simpl. rewrite map_lookup_filter_Some. simpl.
    split; intros [? ?]; (split; [|done]) || (split; [done|]); intuition lia.
Qed.

Lemma delete_upto_other sid sid' cutoff d :
  sid' <> sid -> table_rows sid' (Drizzle.delete_upto sid cutoff d) = table_rows sid' d.
Proof.
  intros Hne. apply table_rows_unique; [apply table_rows_sorted|].
  intros c. rewrite table_rows_elem. unfold Drizzle.delete_upto. simpl.
  rewrite map_lookup_filter_Some. simpl. naive_solver.
Qed.

(** The scan stops at the first row that reaches the target. *)
Lemma prune_scan_spec minBytes rs removed cutoff :
  rs <> [] -> removed < minBytes ->
  exists k, (0 < k <= length rs)%nat
    /\ Drizzle.prune_scan minBytes rs removed cutoff
       = (removed + stored_len (take k rs), byteOffset <$> last (take k rs))
    /\ (minBytes <= removed + stored_len (take k rs) \/ k = length rs)
    /\ (forall j, (j < k)%nat -> removed + stored_len (take j rs) < minBytes).
Proof.
  revert removed cutoff. induction rs as [|r rs IH]; intros removed cutoff Hne Hlt; [done|].
  simpl. assert (Hr : forall l, stored_len (r :: l) = zlen (data r) + stored_len l) by done.
  destruct (Z.leb_spec minBytes (removed + zlen (data r))) as [Hge|Hl].
  - exists 1%nat. simpl. rewrite take_0, Hr. change (stored_len []) with 0.
    split_and!; [lia|lia|f_equal; lia|left; lia|].
    intros j Hj. replace j with 0%nat by lia. simpl. change (stored_len []) with 0. lia.
  - destruct rs as [|r' rs].
    + exists 1%nat. simpl. rewrite Hr. change (stored_len []) with 0.
      split_and!; [lia|lia|f_equal; lia|by right|].
      intros j Hj. replace j with 0%nat by lia. simpl. change (stored_len []) with 0. lia.
    + destruct (IH (removed + zlen (data r)) (Some (byteOffset r))) as (k & Hk & E & Hor & Hj);
        [done|done|].
      exists (S k). rewrite E. cbn [take length]. rewrite Hr. split_and!; [lia|simpl in Hk; lia| | |].
      * f_equal; [lia|]. destruct k; [lia|]. done.
      * destruct Hor as [? | ->]; [left; lia|by right].
      * intros [|j] Hjk; simpl; [change (stored_len []) with 0; lia|].
        rewrite Hr. specialize (Hj j). lia.
Qed.

Lemma filter_after R k c :
  StronglySorted chunk_lt R -> last (take k R) = Some c ->
  filter (fun x => byteOffset c < byteOffset x) R = drop k R.
Proof.
  intros Hs Hl. destruct (last_take_split _ _ _ Hl) as (pre & _ & E).
  remember (drop k R) as post eqn:Ep. clear Ep Hl. subst R.
  apply StronglySorted_app in Hs as (Hlt & _ & [Hc _]%StronglySorted_cons).
  rewrite filter_app, filter_cons, decide_False by lia.
  rewrite filter_none, filter_all; [done|done|].
  apply Forall_forall. intros x Hx ?. specialize (Hlt x c Hx). unfold chunk_lt in Hlt.
  assert (byteOffset x < byteOffset c) by (apply Hlt; set_solver). lia.
Qed.

(** One page of pruning: a prefix of the rows goes, at least one row. *)
Lemma prune_page sid minBytes removed d :
  removed < minBytes -> table_rows sid d <> [] ->
  let R := table_rows sid d in
  let rs := take Drizzle.PRUNE_BATCH_ROWS R in
  exists k c, (0 < k <= length rs)%nat
    /\ Drizzle.prune_scan minBytes rs removed None
       = (removed + stored_len (take k R), Some (byteOffset c))
    /\ table_rows sid (Drizzle.delete_upto sid (byteOffset c) d) = drop k R
    /\ (minBytes <= removed + stored_len (take k R) \/ k = length rs)
    /\ (forall j, (j < k)%nat -> removed + stored_len (take j R) < minBytes).
Proof.
  intros Hlt Hne R rs.
  assert (rs <> []) as Hrs
    by (subst rs R; by destruct (table_rows sid d)).
  destruct (prune_scan_spec minBytes rs removed None Hrs Hlt) as (k & Hk & E & Hor & Hj).
  assert (Hpre : forall j, (j <= k)%nat -> take j rs = take j R).
  { intros j Hjk. unfold rs in Hk |- *. rewrite length_take in Hk. rewrite take_take. f_equal. lia. }
  destruct (last (take k R)) as [c|] eqn:El.
  2:{ apply last_None in El. rewrite <-Hpre in El by lia. apply (f_equal length) in El.
      rewrite length_take in El. cbn [length] in El. lia. }
  exists k, c. rewrite E, (Hpre k) by lia. rewrite El. rewrite Hpre in Hor by lia. split_and!; auto; try lia.
  - rewrite delete_upto_rows. by apply filter_after; [apply table_rows_sorted|].
  - intros j Hjk. rewrite <-Hpre by lia. by apply Hj.
Qed.

(** What pruning does to the rows: a prefix of them is deleted, the shortest
    that reaches the target, or all of them. *)
Definition pruned (sid : string) (minBytes removed : Z) (d : OutputDb)
    (removed' : Z) (d' : OutputDb) : Prop :=
  (forall s', s' <> sid -> table_rows s' d' = table_rows s' d)
  /\ exists k, table_rows sid d' = drop k (table_rows sid d)
     /\ removed' = removed + stored_len (take k (table_rows sid d))
     /\ (minBytes <= removed' \/ table_rows sid d' = [])
     /\ (forall j, (j < k)%nat -> (j < length (table_rows sid d))%nat ->
          removed + stored_len (take j (table_rows sid d)) < minBytes).

Lemma pruned_refl sid minBytes removed d :
  minBytes <= removed \/ table_rows sid d = [] ->
  pruned sid minBytes removed d removed d.
Proof.
  intros Hor. split; [done|]. exists 0%nat.
  rewrite take_0. change (stored_len []) with 0. split_and!; [done|lia|done|lia].
Qed.

Lemma pruned_step sid minBytes removed d k d1 removed' d' :
  (forall s', s' <> sid -> table_rows s' d1 = table_rows s' d) ->
  table_rows sid d1 = drop k (table_rows sid d) ->
  (forall j, (j < k)%nat -> removed + stored_len (take j (table_rows sid d)) < minBytes) ->
  pruned sid minBytes (removed + stored_len (take k (table_rows sid d))) d1 removed' d' ->
  pruned sid minBytes removed d removed' d'.
Proof.
  intros Hother Hrows Hj (Ho & k' & Hd' & -> & Hor' & Hj').
  split; [intros; by rewrite Ho, Hother|].
  exists (k + k')%nat. rewrite Hrows in Hd', Hor', Hj' |- *.
  rewrite drop_drop in Hd'. rewrite <-take_take_drop, stored_len_app.
  split_and!; [done|lia|destruct Hor'; [left; lia|by right]|].
  intros j Hjk Hjl. destruct (decide (j < k)%nat); [by apply Hj|].
  specialize (Hj' (j - k)%nat). rewrite length_drop in Hj'.
  replace j with (k + (j - k))%nat by lia. rewrite <-take_take_drop, stored_len_app. lia.
Qed.

Lemma prune_loop_spec fuel sid minBytes removed d :
  (length (table_rows sid d) < fuel)%nat ->
  exists removed' d', Drizzle.prune_loop fuel sid minBytes removed d = Some (removed', d')
    /\ pruned sid minBytes removed d removed' d'.
Proof.
  revert removed d. induction fuel as [|fuel IH]; intros removed d Hf; [lia|].
  cbn [Drizzle.prune_loop]. fold (table_rows sid d).
  destruct (Z.ltb_spec removed minBytes) as [Hlt|Hge].
  2:{ do 2 eexists. split; [done|]. apply pruned_refl. by left. }
  case_bool_decide as Hrs.
  { do 2 eexists. split; [done|]. apply pruned_refl. right.
    revert Hrs. by destruct (table_rows sid d). }
  destruct (prune_page sid minBytes removed d) as (k & c & Hk & -> & Hrows & Hor & Hj);
    [done|by intros E; rewrite E in Hrs|].
  pose proof (fun s' Hs => delete_upto_other sid s' (byteOffset c) d Hs) as Hother.
  rewrite length_take in Hk, Hor |- *.
  case_match eqn:Ec.
  - zbool. do 2 eexists. split; [done|]. eapply pruned_step; [done..|].
    apply pruned_refl. right. destruct Hor as [?|Hor]; [lia|].
    rewrite Hrows. apply drop_ge. lia.
  - destruct (IH (removed + stored_len (take k (table_rows sid d)))
                (Drizzle.delete_upto sid (byteOffset c) d)) as (r' & d' & -> & Hp).
    { rewrite Hrows, length_drop. lia. }
    do 2 eexists. split; [done|]. by eapply pruned_step.
Qed.

(** ** The laws *)

Lemma insertChunk_rows sid off bs d s' :
  s' <> sid -> table_rows s' (Drizzle.insertChunk sid off bs d).2 = table_rows s' d.
Proof.
  intros Hne. unfold Drizzle.insertChunk. case_match; [done|].
  apply table_rows_unique; [apply table_rows_sorted|]. intros c.
  rewrite table_rows_elem. simpl. rewrite lookup_insert_ne; [done|congruence].
Qed.

Lemma table_rows_offset sid d off :
  off ∈ (byteOffset <$> table_rows sid d) <-> is_Some (output_table d !! (sid, off)).
Proof.
  rewrite list_elem_of_fmap. split.
  - intros (c & -> & Hc%table_rows_elem). eauto.
  - intros [bs Hbs]. exists (mkChunk off bs). by rewrite table_rows_elem.
Qed.

Lemma foldr_max_spec c l :
  let e := foldr Z.max (chunk_end c) (chunk_end <$> l) in
  e ∈ (chunk_end <$> c :: l) /\ Forall (fun x => chunk_end x <= e) (c :: l).
Proof.
  induction l as [|x l [Hin Hall]]; simpl in *.
  - split; [set_solver|]. by repeat constructor.
  - set (e := foldr Z.max _ _) in *. inversion Hall as [|? ? Hc Hl]; subst.
    split; [destruct (Z.max_spec (chunk_end x) e) as [[_ ->]|[_ ->]]; set_solver|].
    repeat constructor; try lia. eapply Forall_impl; [exact Hl|]. simpl. lia.
Qed.

#[export] Program Instance drizzle_laws : OutputPersistenceLaws OutputDb :=
  {| rows := table_rows |}.
Next Obligation. apply table_rows_sorted. Qed.
Next Obligation.
  intros s off bs d. simpl. pose proof (insertChunk_rows s off bs d) as Hother.
  unfold Drizzle.insertChunk in *.
  destruct (output_table d !! (s, off)) eqn:E; split; [by intros; apply Hother| |by intros; apply Hother|].
  - split; [|done]. apply table_rows_offset. eauto.
  - rewrite table_rows_offset, E. split; [by intros [? ?]|].
    rewrite table_rows_perm. apply session_rows_perm.
    + assert (Hd : distinct (table_rows s d))
        by (rewrite table_rows_perm; apply session_rows_distinct).
      unfold distinct. rewrite fmap_cons, NoDup_cons. split; [|done]. simpl.
      rewrite table_rows_offset, E. by intros [? ?].
    + intros c. simpl. rewrite elem_of_cons, table_rows_elem, lookup_insert.
      case_decide as Heq; simplify_eq/=.
      * split; [intros [->|Hc]; [done|congruence]|]. intros [= ->]. left. by destruct c.
      * split; [intros [->|?]; [done|done]|by right].
Qed.
Next Obligation. done. Qed.
Next Obligation.
  intros s d. simpl. unfold Drizzle.getStoredOutputBytes, stored_len.
  by rewrite (table_rows_perm s d).
Qed.
Next Obligation.
  intros s off d. simpl. unfold Drizzle.findCoveringChunk.
  rewrite order_desc_reverse by apply distinct_filter, session_rows_distinct.
  rewrite order_asc_filter by apply session_rows_distinct. fold (table_rows s d).
  destruct (filter _ (table_rows s d)) as [|c l] using rev_ind; [done|].
  by rewrite reverse_app, last_snoc.
Qed.
Next Obligation.
  intros s from limit before d. simpl. unfold Drizzle.listChunksFrom.
  by rewrite order_asc_filter by apply session_rows_distinct.
Qed.
Next Obligation.
  intros s before limit d. simpl. unfold Drizzle.listTailChunks.
  rewrite order_desc_reverse by apply distinct_filter, session_rows_distinct.
  by rewrite order_asc_filter by apply session_rows_distinct.
Qed.
Next Obligation.
  intros s d e. simpl in e. unfold Drizzle.getStoredEndOffset in e.
  assert (Hp := table_rows_perm s d). destruct (session_rows s d) as [|c l]; simpl in e.
  - left. by apply Permutation_nil_r in Hp.
  - right. rewrite Hp. apply (foldr_max_spec c).
Qed.
Next Obligation.
  intros s n d. simpl. unfold Drizzle.pruneOldestChunks.
  rewrite <-(Permutation_length (table_rows_perm s d)).
  destruct (prune_loop_spec (S (length (table_rows s d))) s n 0 d) as (r & d' & -> & Hp); [lia|].
  destruct Hp as (Ho & k & Hd & -> & Hor & Hj). simpl. split; [done|].
  exists k. split_and!; [done|lia|done|]. intros. specialize (Hj j). lia.
Qed.
