(* ===== verification/OutputIngest.v ===== *)
(** Ingest of terminal output: idempotence, in-order logs, the retention cap,
    and what a reader sees of an ingested frame.

    The section is proved against [OutputPersistenceLaws]; the witnesses and the
    two concrete runs at the end use the Drizzle tables. *)
From Stdlib Require Import Strings.Byte ZArith QArith Qround Lia.
From stdpp Require Import base tactics strings gmap sorting option.
From stdpp Require Import list.
From S2P Require Import Prelude JsRuntime Base64 EventBus OutputStore OutputReads OutputTable.

#[local] Open Scope Z_scope.

(** A sequence of ingested frames: session, payload, offset, arrival time. *)
Definition ingest_run {D} `{TerminalOutputPersistence D} (softCap : Z)
    (fs : list (string * string * Z * Z)) (st : TerminalOutputStore D)
  : TerminalOutputStore D :=
  foldl (fun st '(sid, p, off, now) => (handleTerminalOutput softCap sid p off now st).1) st fs.

Section Ingest.
Context {D : Type} `{OutputPersistenceLaws D}.
Context (softCap : Z).

Implicit Types st : TerminalOutputStore D.

(** The cached count never under-estimates what is stored. *)
Definition retained_sound st : Prop :=
  forall sid r, JsMap.get sid (st_retainedBytes st) = Some r ->
  stored_len (rows sid (st_db st)) <= r.

(** The retained count an insertion starts the retention step from. *)
Definition retained_before (sid : string) (len : Z) (d : D) st : Z :=
  (JsMap.get sid (st_retainedBytes st) ?? stored_len (rows sid d)) + len.

(** An ingest is ignored, or stores its chunk and prunes a prefix. *)
Variant ingested (sid : string) (bs : list byte) (off : Z) st st' : bool -> Prop :=
  | ingest_ignored :
      st_db st' = st_db st -> st_retainedBytes st' = st_retainedBytes st ->
      st_events st' = st_events st ->
      (bs = [] \/ off ∈ (byteOffset <$> rows sid (st_db st))) ->
      ingested sid bs off st st' false
  | ingest_stored d1 k removed :
      bs <> [] -> off ∉ (byteOffset <$> rows sid (st_db st)) ->
      rows sid d1 ≡ₚ mkChunk off bs :: rows sid (st_db st) ->
      StronglySorted chunk_lt (rows sid d1) ->
      rows sid (st_db st') = drop k (rows sid d1) ->
      removed = stored_len (take k (rows sid d1)) ->
      (forall s', s' <> sid -> rows s' (st_db st') = rows s' (st_db st)) ->
      (let r := retained_before sid (zlen bs) d1 st in
       st_retainedBytes st' = JsMap.set sid (r - removed) (st_retainedBytes st)
       /\ (r - softCap <= removed \/ rows sid (st_db st') = [])
       /\ (r <= softCap -> k = 0%nat)) ->
      st_events st' = (emit sid (terminal_output_event off bs) true (st_events st)).1 ->
      ingested sid bs off st st' true.

Lemma stored_len_perm xs ys : xs ≡ₚ ys -> stored_len xs = stored_len ys.
Proof. unfold stored_len. by intros ->. Qed.

Lemma enforceRetention_spec sid r d :
  let '(r', removed, d') := enforceRetention softCap sid r d in
  r' = r - removed
  /\ (forall s', s' <> sid -> rows s' d' = rows s' d)
  /\ exists k, rows sid d' = drop k (rows sid d)
     /\ removed = stored_len (take k (rows sid d))
     /\ (r - softCap <= removed \/ rows sid d' = [])
     /\ (r <= softCap -> k = 0%nat).
Proof.
  unfold enforceRetention. destruct (Z.ltb_spec softCap r).
  - pose proof (pruneOldestChunks_law sid (r - softCap) d) as Hp.
    destruct (pruneOldestChunks sid (r - softCap) d) as [removed d'].
    destruct Hp as (Ho & k & Hk & Hr & Hor & _). split_and!; [done|done|].
    exists k. split_and!; [done|done|done|lia].
  - split_and!; [lia|done|]. exists 0%nat. rewrite drop_0, take_0.
    change (stored_len []) with 0. split_and!; [done|done|lia|done].
Qed.

Lemma handle_ingested sid p off now st :
  let r := handleTerminalOutput softCap sid p off now st in
  ingested sid (Base64.decode p) off st r.1 (ie_inserted r.2)
  /\ ie_deliveries r.2
     = (if ie_inserted r.2
        then (emit sid (terminal_output_event off (Base64.decode p)) true (st_events st)).2
        else []).
Proof.
  unfold handleTerminalOutput. set (bs := Base64.decode p).
  destruct (Z.eqb_spec (zlen bs) 0) as [Hz|Hz].
  { split; [|done]. apply ingest_ignored; [done..|left]. apply zlen_zero_inv. lia. }
  pose proof (insertChunk_law sid off bs (st_db st)) as Hins.
  destruct (insertChunk sid off bs (st_db st)) as [[] d1]; destruct Hins as [Hoth [Hin Hrows]].
  2:{ subst d1. split; [|done]. apply ingest_ignored; [done..|by right]. }
  set (d2 := bumpOutputStats sid (zlen bs) (zlen bs) now d1).
  assert (Hd2 : forall s', rows s' d2 = rows s' d1) by (intros; apply bumpOutputStats_law).
  rewrite getStoredOutputBytes_law, Hd2.
  pose proof (enforceRetention_spec sid (retained_before sid (zlen bs) d1 st) d2) as He.
  unfold retained_before in He.
  destruct (enforceRetention softCap sid _ d2) as [[r' removed] d'].
  rewrite Hd2 in He. destruct He as (-> & Ho & k & Hk & Hr & Hor & Hk0).
  split; [|done]. eapply (ingest_stored _ _ _ _ _ d1 k removed); try done.
  - intros ->. done.
  - apply rows_sorted.
  - intros s' Hs. simpl. by rewrite Ho, Hd2, Hoth.
Qed.

Lemma last_n_drop_len k rs :
  stored_len (drop k rs) = stored_len rs - stored_len (take k rs).
Proof. rewrite <-(take_drop k rs) at 2. rewrite stored_len_app. lia. Qed.

(** An insertion keeps the log of its session under the cap. *)
Lemma ingested_bounded sid bs off st st' inserted :
  0 <= softCap -> retained_sound st ->
  ingested sid bs off st st' inserted ->
  retained_sound st'
  /\ (inserted = true -> stored_len (rows sid (st_db st')) <= softCap).
Proof.
  intros Hcap Hinv [Hdb Hret Hev Hor | d1 k removed Hne Hni Hperm Hs Hrows Hrm Hoth Hr Hev].
  { split; [|done]. intros s r. rewrite Hdb, Hret. apply Hinv. }
  destruct Hr as (Hset & Hor & _). set (r := retained_before sid (zlen bs) d1 st) in *.
  assert (Hlen : stored_len (rows sid d1) = zlen bs + stored_len (rows sid (st_db st)))
    by by rewrite (stored_len_perm _ _ Hperm).
  assert (Hle : stored_len (rows sid d1) <= r).
  { unfold r, retained_before. pose proof (zlen_nonneg bs).
    destruct (JsMap.get sid (st_retainedBytes st)) as [r0|] eqn:E; simpl; [|lia].
    apply Hinv in E. lia. }
  assert (Hnew : stored_len (rows sid (st_db st')) = stored_len (rows sid d1) - removed).
  { by rewrite Hrows, last_n_drop_len, Hrm. }
  split.
  - intros s r0. rewrite Hset, JsMap.get_set. case_decide; [subst s|].
    + intros [= <-]. lia.
    + rewrite Hoth by done. apply Hinv.
  - intros _. destruct Hor as [?|E]; [lia|]. rewrite E. by change (stored_len []) with 0.
Qed.

Lemma retained_sound_run fs st :
  0 <= softCap -> retained_sound st -> retained_sound (ingest_run softCap fs st).
Proof.
  intros Hcap. revert st. induction fs as [|[[[sid p] off] now] fs IH]; intros st Hinv; [done|].
  apply IH. destruct (handle_ingested sid p off now st) as [Hi _].
  by eapply ingested_bounded.
Qed.

(** In-order arrival appends to the log. *)
Lemma in_order_rows sid bs off d1 rs :
  disjoint_log rs -> bs <> [] ->
  Forall (fun c => chunk_end c <= off) rs ->
  rows sid d1 ≡ₚ mkChunk off bs :: rs -> StronglySorted chunk_lt (rows sid d1) ->
  rows sid d1 = rs ++ [mkChunk off bs] /\ disjoint_log (rs ++ [mkChunk off bs]).
Proof.
  intros Hd Hne Hin Hp Hs.
  assert (Hd' : disjoint_log (rs ++ [mkChunk off bs])).
  { apply disjoint_log_app. split_and!; [done| |].
    - apply disjoint_log_cons. split_and!; [done|by repeat constructor|set_solver].
    - intros a b Ha ->%list_elem_of_singleton. by eapply Forall_forall in Hin. }
  split; [|done]. apply (StronglySorted_unique chunk_lt); [done| |].
  - destruct Hd' as [Hc Hn]. clear -Hc Hn. induction Hc as [|x l _ IH Hx]; [constructor|].
    inversion Hn as [|? ? Hx' Hl]; subst. constructor; [by apply IH|].
    eapply Forall_impl; [exact Hx|]. intros y. unfold chunk_before, chunk_lt, chunk_end.
    pose proof (chunk_len_pos _ Hx'). lia.
  - rewrite Hp. by rewrite Permutation_cons_append.
Qed.

Lemma disjoint_log_drop k rs : disjoint_log rs -> disjoint_log (drop k rs).
Proof.
  intros Hd. rewrite <-(take_drop k rs) in Hd.
  by apply disjoint_log_app in Hd as (_ & ? & _).
Qed.

(** An in-order ingest leaves a suffix of the extended log. *)
Lemma ingested_in_order sid bs off st st' :
  ingested sid bs off st st' true ->
  disjoint_log (rows sid (st_db st)) ->
  Forall (fun c => chunk_end c <= off) (rows sid (st_db st)) ->
  disjoint_log (rows sid (st_db st'))
  /\ rows sid (st_db st') `suffix_of` (rows sid (st_db st) ++ [mkChunk off bs]).
Proof.
  intros Hi Hd Hin. inversion Hi as [|d1 k removed Hne Hni Hperm Hs Hrows Hrm Hoth Hr Hev]; subst.
  destruct (in_order_rows sid bs off d1 _ Hd Hne Hin Hperm Hs) as [E Hd'].
  rewrite Hrows, E. split; [by apply disjoint_log_drop|apply suffix_drop].
Qed.
End Ingest.

(** The reference read of a chunk appended to a log that ends before it. *)
Lemma ref_read_appended rs bs off maxBytes :
  bs <> [] -> zlen bs <= maxBytes -> Forall (fun c => chunk_end c <= off) rs ->
  ref_read off None maxBytes (rs ++ [mkChunk off bs])
  = mkRange bs off (off + zlen bs) false None.
Proof.
  intros Hne Hmax Hord. unfold ref_read.
  assert (window off None (rs ++ [mkChunk off bs]) = bytes_at off bs) as ->.
  { rewrite window_app, window_nil, window_cons, window_chunk
      by (intros c Hc; left; by eapply Forall_forall in Hord).
    cbn. rewrite Z.max_id, Z.sub_diag, drop_0. by rewrite app_nil_r. }
  assert (Hl : zlen (bytes_at off bs) = zlen bs) by (unfold zlen; by rewrite bytes_at_length).
  rewrite take_ge by (unfold zlen in *; lia). rewrite Hl, bytes_at_snd.
  rewrite last_end_bytes_at by done. destruct (Z.ltb_spec maxBytes (zlen bs)); [lia|].
  f_equal. by destruct bs.
Qed.

(** ** Properties *)

(** A frame whose chunk is still stored changes nothing. *)
Lemma redelivery_nothing {D : Type} `{OutputPersistenceLaws D} (softCap : Z)
    (st : TerminalOutputStore D) (sid p : string) (off now : Z) :
  off ∈ (byteOffset <$> rows sid (st_db st)) ->
  let r := handleTerminalOutput softCap sid p off now st in
  st_db r.1 = st_db st /\ st_retainedBytes r.1 = st_retainedBytes st
  /\ st_events r.1 = st_events st /\ ie_deliveries r.2 = [].
Proof.
  intros Hin r. destruct (handle_ingested softCap sid p off now st) as [Hi Hd].
  fold r in Hi, Hd. destruct (ie_inserted r.2) eqn:E.
  - inversion Hi. congruence.
  - inversion Hi. done.
Qed.

(** C3: Starting from any stored log and empty caches, after any sequence of
    ingested frames, an ingest that stores its chunk leaves at most the
    configured cap of bytes in the log of its session; and one whose chunk is
    still stored is a no-op, whatever the payload: the log, the counters and
    the retention cache are unchanged and nothing is emitted. *)
Theorem retention_bound {D : Type} `{OutputPersistenceLaws D} (softCap : Z)
    (fs : list (string * string * Z * Z)) (d : D) (ev : SseEventBus)
    (sid p : string) (off now : Z) :
  0 <= softCap ->
  let st := ingest_run softCap fs (mkStore [] [] d ev) in
  let r := handleTerminalOutput softCap sid p off now st in
  (ie_inserted r.2 = true -> stored_len (rows sid (st_db r.1)) <= softCap)
  /\ (off ∈ (byteOffset <$> rows sid (st_db st)) ->
      st_db r.1 = st_db st /\ st_retainedBytes r.1 = st_retainedBytes st
      /\ st_events r.1 = st_events st /\ ie_deliveries r.2 = []).
Proof.
  intros Hcap st r. split; [intros Hins|by apply redelivery_nothing].
  destruct (handle_ingested softCap sid p off now st) as [Hi _].
  eapply ingested_bounded in Hi as [_ Hb]; [by apply Hb|done|].
  apply retained_sound_run; [done|]. by intros s x.
Qed.

(** C4: Ingest then read: a frame that arrives in order and fits under the cap
    is read back byte for byte from its offset, and listeners are sent exactly
    its event, whose id is the offset after its last byte. *)
Theorem ingest_read_roundtrip {D : Type} `{OutputPersistenceLaws D} (softCap : Z)
    (st : TerminalOutputStore D) (sid : string) (bs : list byte) (off now : Z)
    (maxBytes : Z) (fuel : nat) :
  bs <> [] -> 0 <= off -> zlen bs <= maxBytes ->
  disjoint_log (rows sid (st_db st)) ->
  Forall (fun c => chunk_end c <= off) (rows sid (st_db st)) ->
  (JsMap.get sid (st_retainedBytes st) ?? (stored_len (rows sid (st_db st)) + zlen bs))
    + zlen bs <= softCap ->
  (length (rows sid (st_db st)) + 1 < fuel)%nat ->
  let r := handleTerminalOutput softCap sid (Base64.encode bs) off now st in
  readRange fuel sid (inject_Z off) None (inject_Z maxBytes) (st_db r.1)
  = Some (mkRange bs off (off + zlen bs) false None)
  /\ ie_deliveries r.2
     = (fun l => (l, terminal_output_event off bs)) <$> bus_channel sid (st_events st).
Proof.
  intros Hne Hoff Hmax Hd Hord Hcap Hfuel r. pose proof (zlen_nonneg bs).
  destruct (handle_ingested softCap sid (Base64.encode bs) off now st) as [Hi Hdel].
  fold r in Hi, Hdel. rewrite Base64.decode_encode in Hi, Hdel.
  destruct (ie_inserted r.2).
  2:{ inversion Hi as [_ _ _ [?|Hin]|]; [done|]. exfalso.
      apply list_elem_of_fmap in Hin as (c & -> & Hc).
      destruct Hd as [_ Hn]. rewrite Forall_forall in Hord, Hn.
      specialize (Hord c Hc). pose proof (chunk_len_pos c (Hn c Hc)).
      unfold chunk_end in Hord. lia. }
  split; [|by rewrite Hdel].
  inversion Hi as [|d1 k removed Hne' Hni Hperm Hs Hrows Hrm Hoth Hr Hev]; subst.
  destruct (in_order_rows sid bs off d1 _ Hd Hne Hord Hperm Hs) as [E Hd'].
  assert (k = 0%nat) as ->.
  { apply Hr. unfold retained_before. rewrite (stored_len_perm _ _ Hperm).
    change (stored_len (?c :: ?l)) with (zlen (data c) + stored_len l). cbn [data].
    destruct (JsMap.get sid (st_retainedBytes st)); simpl in *; lia. }
  rewrite drop_0, E in Hrows.
  rewrite readRange_scans; rewrite Hrows; [|done|rewrite length_app; simpl; lia].
  rewrite !floor_nonneg_Z by lia. f_equal. by apply ref_read_appended.
Qed.

(** The first ingest of a session after a start counts its own chunk twice
    (the lazily seeded count is read after the insert, then the chunk is added
    to it), so a log that fits under the cap together with the new chunk is
    pruned anyway when counting the chunk twice exceeds the cap. *)
Lemma first_ingest_prunes {D : Type} `{OutputPersistenceLaws D} (softCap : Z)
    (st : TerminalOutputStore D) (sid : string) (bs : list byte) (off now : Z) :
  JsMap.get sid (st_retainedBytes st) = None ->
  off ∉ (byteOffset <$> rows sid (st_db st)) ->
  stored_len (rows sid (st_db st)) + zlen bs <= softCap
    < stored_len (rows sid (st_db st)) + 2 * zlen bs ->
  let r := handleTerminalOutput softCap sid (Base64.encode bs) off now st in
  stored_len (rows sid (st_db r.1)) < stored_len (rows sid (st_db st)) + zlen bs.
Proof.
  intros Hnone Hni [Hfit Hover] r. pose proof (stored_len_nonneg (rows sid (st_db st))).
  destruct (handle_ingested softCap sid (Base64.encode bs) off now st) as [Hi _].
  fold r in Hi. rewrite Base64.decode_encode in Hi.
  inversion Hi as [_ _ _ [?|Hin]|d1 k removed Hne' _ Hperm Hs Hrows Hrm Hoth Hr Hev]; subst.
  - change (zlen []) with 0 in *. lia.
  - done.
  - destruct Hr as (_ & Hor & _). unfold retained_before in Hor. rewrite Hnone in Hor. simpl in Hor.
    assert (Hlen : stored_len (rows sid d1) = zlen bs + stored_len (rows sid (st_db st)))
      by by rewrite (stored_len_perm _ _ Hperm).
    destruct Hor as [Hor|E].
    + rewrite Hrows, last_n_drop_len. lia.
    + rewrite E. change (stored_len []) with 0. pose proof (zlen_nonneg bs). lia.
Qed.

(** ** Concrete stores *)

Definition empty_db (sid : string) : OutputDb :=
  mkDb ∅ {[sid := mkStats 0 0 None None]}.

Definition empty_store (sid : string) : TerminalOutputStore OutputDb :=
  mkStore [] [] (empty_db sid) (add_listener sid 1 (new_bus 1000)).

Definition abc : list byte := ["a"%byte; "b"%byte; "c"%byte].
Definition def : list byte := ["d"%byte; "e"%byte; "f"%byte].

(** Two chunks, in order. *)
Definition two_chunks : TerminalOutputStore OutputDb :=
  ingest_run 100 [("s", Base64.encode abc, 0, 1); ("s", Base64.encode def, 3, 2)]
    (empty_store "s").

(** A redelivered frame is stored, counted and emitted again once its
    chunk has been pruned: with a cap of 6 bytes, redelivering the first of two
    3-byte chunks emits it to the attached listener a second time and leaves
    the session's lifetime counter at 9 bytes for 6 bytes of output. *)
Lemma redelivery_counts_twice :
  let st := ingest_run 6 [("s", Base64.encode abc, 0, 1); ("s", Base64.encode def, 3, 2)]
              (empty_store "s") in
  let r := handleTerminalOutput 6 "s" (Base64.encode abc) 0 3 st in
  table_rows "s" (st_db st) = [mkChunk 3 def]
  /\ ie_deliveries r.2 = [(1%nat, terminal_output_event 0 abc)]
  /\ totalOutputBytes <$> session_table (st_db st) !! "s" = Some 6
  /\ totalOutputBytes <$> session_table (st_db r.1) !! "s" = Some 9.
Proof. vm_compute. auto. Qed.

Lemma two_chunks_rows : table_rows "s" (st_db two_chunks) = [mkChunk 0 abc; mkChunk 3 def].
Proof. vm_compute. reflexivity. Qed.

Lemma reads_equal_scan_witness :
  readRange 10 "s" 1 (Some (inject_Z 5)) (inject_Z 3) (st_db two_chunks)
  = Some (mkRange ["b"%byte; "c"%byte; "d"%byte] 1 4 true (Some 4)) /\
  tailOutput 10 "s" (inject_Z 4) (st_db two_chunks)
  = Some (mkTail ["c"%byte; "d"%byte; "e"%byte; "f"%byte] 2 6 6).
Proof.
  destruct (reads_equal_scan "s" (st_db two_chunks) 10) as [Hr Ht].
  - change (length (table_rows "s" (st_db two_chunks)) < 10)%nat. rewrite two_chunks_rows.
    simpl. lia.
  - split.
    + rewrite Hr; [vm_compute; reflexivity|].
      change (disjoint_log (table_rows "s" (st_db two_chunks))). rewrite two_chunks_rows.
      split; repeat constructor; try discriminate; vm_compute; discriminate.
    + rewrite Ht; [vm_compute; reflexivity|].
      change (Forall (fun c => data c <> []) (table_rows "s" (st_db two_chunks))).
      rewrite two_chunks_rows. repeat constructor; discriminate.
Defined.

Lemma retention_bound_witness :
  stored_len (rows "s" (st_db (handleTerminalOutput 6 "s" (Base64.encode def) 3 2
    (ingest_run 6 [("s", Base64.encode abc, 0, 1)] (empty_store "s"))).1)) <= 6.
Proof.
  apply (retention_bound 6 [("s", Base64.encode abc, 0, 1)] (empty_db "s")
           (add_listener "s" 1 (new_bus 1000)) "s" (Base64.encode def) 3 2).
  - lia.
  - vm_compute. reflexivity.
Defined.

Lemma ingest_read_roundtrip_witness :
  readRange 5 "s" (inject_Z 6) None (inject_Z 3)
    (st_db (handleTerminalOutput 100 "s" (Base64.encode abc) 6 3 two_chunks).1)
  = Some (mkRange abc 6 9 false None).
Proof.
  refine (proj1 (ingest_read_roundtrip 100 two_chunks "s" abc 6 3 3 5 _ _ _ _ _ _ _));
    try (vm_compute; congruence); try lia.
  - change (disjoint_log (table_rows "s" (st_db two_chunks))). rewrite two_chunks_rows.
    split; repeat constructor; try discriminate; vm_compute; discriminate.
  - change (Forall (fun c => chunk_end c <= 6) (table_rows "s" (st_db two_chunks))).
    rewrite two_chunks_rows. repeat constructor; vm_compute; discriminate.
  - change (length (table_rows "s" (st_db two_chunks)) + 1 < 5)%nat. rewrite two_chunks_rows.
    simpl. lia.
Defined.

(** Retention counts twice in two places.  The first ingest of a session after a
    start counts its own chunk twice, so a log that fits under the cap together with it
    is pruned anyway when the double count exceeds the cap; and a frame redelivered
    after its chunk was pruned is stored, counted and emitted again (with a cap of 6
    bytes, the first of two 3-byte chunks leaves the lifetime counter at 9). *)
Theorem retention_counts_twice {D : Type} `{OutputPersistenceLaws D} (softCap : Z)
    (st : TerminalOutputStore D) (sid : string) (bs : list byte) (off now : Z) :
  JsMap.get sid (st_retainedBytes st) = None ->
  off ∉ (byteOffset <$> rows sid (st_db st)) ->
  stored_len (rows sid (st_db st)) + zlen bs <= softCap
    < stored_len (rows sid (st_db st)) + 2 * zlen bs ->
  stored_len (rows sid (st_db (handleTerminalOutput softCap sid (Base64.encode bs) off now st).1))
    < stored_len (rows sid (st_db st)) + zlen bs /\
  let st := ingest_run 6 [("s", Base64.encode abc, 0, 1); ("s", Base64.encode def, 3, 2)]
              (empty_store "s") in
  let r := handleTerminalOutput 6 "s" (Base64.encode abc) 0 3 st in
  table_rows "s" (st_db st) = [mkChunk 3 def]
  /\ ie_deliveries r.2 = [(1%nat, terminal_output_event 0 abc)]
  /\ totalOutputBytes <$> session_table (st_db st) !! "s" = Some 6
  /\ totalOutputBytes <$> session_table (st_db r.1) !! "s" = Some 9.
Proof.
  intros Hn Hni Hb. split; [by apply first_ingest_prunes|apply redelivery_counts_twice].
Qed.

Lemma retention_counts_twice_witness :
  stored_len (rows "s" (st_db
    (handleTerminalOutput 5 "s" (Base64.encode abc) 0 1 (empty_store "s")).1))
  < stored_len (rows "s" (st_db (empty_store "s"))) + zlen abc.
Proof.
  apply (retention_counts_twice 5 (empty_store "s") "s" abc 0 1).
  - reflexivity.
  - change (0 ∉ (byteOffset <$> table_rows "s" (st_db (empty_store "s")))).
    vm_compute. apply not_elem_of_nil.
  - vm_compute. split; [discriminate|reflexivity].
Defined.
