(* ===== verification/Invocation.v ===== *)
(** Durable agent invocations ([service/src/agent/invocation-repository.ts],
    [invocation-timing.ts]): a queue of turns per thread, leased to workers.

    A table is a finite map from its primary key, a row has the columns the
    repository uses.  [invs] is the invocation table; [tables] are the others.
    A transaction is a program of [tx]: what throws rolls back.  Transactions
    that lock the invocation rows they change run as one step, at one reading of
    the clock; [claim] locks the thread and not the invocation, so it runs one
    statement at a time ([claim_pc]) and other transactions commit in between.
    The table's unique index on reserved threads and its check constraint on
    leases are not part of the statements: the theorems show that the code never
    runs into them.

    Times of the database are microseconds.  [clock_timestamp] is the argument
    [now]; fresh ids and the service's [new Date()] are arguments.  The text of a
    JSON value that is not a string, the reading of a timestamp and the hash of a
    lock name are PostgreSQL's and are parameters; so are the automation policy
    and its evidence, which only read, and the creation of data and proposal
    requests, which does not touch invocations. *)
From Stdlib Require Import ZArith Lia.
From stdpp Require Import base tactics strings gmap sorting option pretty.
From stdpp Require Import list.
From S2P Require Import Prelude JsRuntime Json JsText.
Open Scope Z_scope.

(** ** Rows *)

Inductive InvocationStatus :=
  | InvPending | InvRetryWait | InvLeased | InvWaitingForBud | InvWaitingForModel
  | InvRunning | InvWaitingForUser | InvSucceeded | InvFailed | InvCanceled
  | InvExpired | InvNeedsReview.

#[export] Instance InvocationStatus_eq_dec : EqDecision InvocationStatus.
Proof. solve_decision. Defined.

Inductive InvocationOrigin := Human | Automation.

#[export] Instance InvocationOrigin_eq_dec : EqDecision InvocationOrigin.
Proof. solve_decision. Defined.

(** The columns that are set at admission and never change. *)
Record InvocationKey := mkInvKey {
  k_turnId : string;
  k_threadId : string;
  k_budId : string;
  k_inputMessageId : string;
  k_origin : InvocationOrigin;
  k_idempotencyKey : string;
  k_model : string;
  k_reasoningEffort : string;
  k_latestStartAt : option Z;
  k_createdByUserId : string;
  k_tenantId : option string;
  k_createdAt : Z
}.

Record Invocation := mkInvocation {
  i_key : InvocationKey;
  i_status : InvocationStatus;
  i_reservesThread : bool;
  i_attempt : Z;
  i_fence : Z;
  i_workerId : option string;
  i_leaseExpiresAt : option Z;
  i_nextAttemptAt : Z;
  i_workDurationMs : option Z;
  i_workStartedAt : option Z;
  i_outcomeCode : option string;
  i_cancelRequestedAt : option Z;
  i_canceledByUserId : option string;
  i_updatedAt : Z
}.

Notation i_turnId r := (k_turnId (i_key r)).
Notation i_threadId r := (k_threadId (i_key r)).
Notation i_budId r := (k_budId (i_key r)).
Notation i_inputMessageId r := (k_inputMessageId (i_key r)).
Notation i_origin r := (k_origin (i_key r)).
Notation i_latestStartAt r := (k_latestStartAt (i_key r)).
Notation i_createdByUserId r := (k_createdByUserId (i_key r)).

Definition jsonb := list (string * jsval).

Record ActionRow := mkAction {
  a_invocationId : string;
  a_callId : string;
  a_fence : Z;
  a_kind : string;
  a_status : string;
  a_evidence : option jsonb;
  a_createdByUserId : string;
  a_completedAt : option Z
}.

Record HandoffRow := mkHandoff {
  h_sessionId : string;
  h_threadId : string;
  h_budId : string;
  h_invocationId : option string;
  h_callId : option string;
  h_clientId : option string;
  h_reason : string;
  h_kind : string;
  h_status : string;
  h_createdByUserId : string;
  h_resolutionReason : option string;
  h_resolvedAt : option Z
}.

Record SessionRow := mkSession {
  s_threadId : string;
  s_budId : string;
  s_createdByUserId : string;
  s_browserId : option string;
  s_desiredState : string;
  s_closedAt : option Z
}.

Record ResourceRow := mkResource {
  r_budId : string;
  r_createdByUserId : string;
  r_controlState : string;
  r_privateContent : bool;
  r_desiredState : string;
  r_retiredAt : option Z
}.

Record QuestionRow := mkQuestion {
  q_threadId : string;
  q_turnId : string;
  q_callId : string;
  q_status : string;
  q_createdByUserId : option string;
  q_updatedAt : Z
}.

(** A data access request, an automation proposal or a bootstrap proposal. *)
Record ProposalRow := mkProposal {
  p_invocationId : string;
  p_threadId : string;
  p_callId : string;
  p_status : string;
  p_version : Z;
  p_createdByUserId : string;
  p_updatedAt : Z
}.

Record ThreadRow := mkThread {
  th_budId : string;
  th_tenantId : option string;
  th_createdByUserId : option string;
  th_deletedAt : option Z;
  th_lastActivityAt : Z;
  th_modelId : option string;
  th_reasoningEffort : option string;
  th_messageCount : Z;
  th_lastMessagePreview : option string
}.

Record MessageRow := mkMessage {
  m_clientId : string;
  m_threadId : string;
  m_role : string;
  m_displayRole : option string;
  m_content : string;
  m_metadata : jsonb;
  m_tenantId : option string;
  m_createdByUserId : option string;
  m_createdAt : Z
}.

(** An automation delivery or bootstrap group, as far as [start] looks at it. *)
Record DeliveryRow := mkDelivery {
  d_invocationId : option string;
  d_createdByUserId : string
}.

Record tables := mkTables {
  actions : gmap string ActionRow;
  handoffs : gmap string HandoffRow;
  sessions : gmap string SessionRow;
  resources : gmap string ResourceRow;
  questions : gmap string QuestionRow;
  dataRequests : gmap string ProposalRow;
  automationProposals : gmap string ProposalRow;
  bootstrapProposals : gmap string ProposalRow;
  threads : gmap string ThreadRow;
  buds : gmap string (option string);   (** the owner *)
  messages : gmap string MessageRow;
  deliveries : list DeliveryRow;
  bootstrapGroups : list DeliveryRow
}.

Definition set_actions (v : gmap string ActionRow) (t : tables) : tables :=
  mkTables v (handoffs t) (sessions t) (resources t) (questions t) (dataRequests t)
    (automationProposals t) (bootstrapProposals t) (threads t) (buds t) (messages t)
    (deliveries t) (bootstrapGroups t).
Definition set_handoffs (v : gmap string HandoffRow) (t : tables) : tables :=
  mkTables (actions t) v (sessions t) (resources t) (questions t) (dataRequests t)
    (automationProposals t) (bootstrapProposals t) (threads t) (buds t) (messages t)
    (deliveries t) (bootstrapGroups t).
Definition set_waits (q : gmap string QuestionRow) (d a b : gmap string ProposalRow) (t : tables)
    : tables :=
  mkTables (actions t) (handoffs t) (sessions t) (resources t) q d a b
    (threads t) (buds t) (messages t) (deliveries t) (bootstrapGroups t).
Definition set_threads (v : gmap string ThreadRow) (t : tables) : tables :=
  mkTables (actions t) (handoffs t) (sessions t) (resources t) (questions t) (dataRequests t)
    (automationProposals t) (bootstrapProposals t) v (buds t) (messages t)
    (deliveries t) (bootstrapGroups t).
Definition set_messages (v : gmap string MessageRow) (t : tables) : tables :=
  mkTables (actions t) (handoffs t) (sessions t) (resources t) (questions t) (dataRequests t)
    (automationProposals t) (bootstrapProposals t) (threads t) (buds t) v
    (deliveries t) (bootstrapGroups t).

(** ** Transactions

    [t_timed] and [t_ids], [t_wake] are what [recordSettledTiming] and
    [recordInvocationChange] registered for the owner of the transaction. *)
Record txs := mkTx {
  t_invs : gmap string Invocation;
  t_tables : tables;
  t_timed : list (string * Invocation);
  t_ids : list string;
  t_wake : bool
}.

Definition tx (A : Type) := txs -> res (A * txs).

#[export] Instance tx_mret : MRet tx := fun _ a t => Ok (a, t).
#[export] Instance tx_mbind : MBind tx :=
  fun A B k m t => match m t with Ok (a, t') => k a t' | Err e => Err e end.

Definition throw {A} (code : string) : tx A := fun _ => Err code.

Definition tx_invs : tx (gmap string Invocation) := fun t => Ok (t_invs t, t).
Definition tx_tables : tx tables := fun t => Ok (t_tables t, t).
Definition put_invs (v : gmap string Invocation) : tx unit :=
  fun t => Ok (tt, mkTx v (t_tables t) (t_timed t) (t_ids t) (t_wake t)).
Definition modify_tables (f : tables -> tables) : tx unit :=
  fun t => Ok (tt, mkTx (t_invs t) (f (t_tables t)) (t_timed t) (t_ids t) (t_wake t)).
Definition require_true (c : bool) (code : string) : tx unit :=
  if c then mret tt else throw code.
Definition require_some {A} (o : option A) (code : string) : tx A :=
  match o with Some a => mret a | None => throw code end.

Definition recordInvocationChange (id : string) : tx unit :=
  fun t => Ok (tt, mkTx (t_invs t) (t_tables t) (t_timed t)
    (if str_truthy id then JsSet.add id (t_ids t) else t_ids t) true).

Definition push_timed (id : string) (row : Invocation) : tx unit :=
  fun t => Ok (tt, mkTx (t_invs t) (t_tables t) (t_timed t ++ [(id, row)]) (t_ids t) (t_wake t)).

Definition recordSettledTiming (id : string) (row : Invocation) : tx unit :=
  push_timed id row;; recordInvocationChange id.

(** [tx.update(inv).set(f).where(eq(inv.id, id)).returning()]. *)
Definition update_inv (id : string) (f : Invocation -> Invocation) : tx (option Invocation) :=
  rows ← tx_invs;
  match rows !! id with
  | Some r => put_invs (<[id := f r]> rows);; mret (Some (f r))
  | None => mret None
  end.

(** [for (const x of xs) await body(x)]. *)
Fixpoint for_each {A} (xs : list A) (body : A -> tx unit) : tx unit :=
  match xs with
  | [] => mret tt
  | x :: xs => body x;; for_each xs body
  end.

(** ** Work timing *)

Definition settledWorkDuration (now : Z) (r : Invocation) : option Z :=
  match i_workDurationMs r with
  | None => None
  | Some d =>
      match i_workStartedAt r with
      | Some t =>
          if bool_decide (i_status r = InvRunning) then Some (d + Z.max 0 ((now - t) / 1000))
          else None
      | None => if bool_decide (i_status r = InvRunning) then None else Some d
      end
  end.

Definition begunWorkDuration (r : Invocation) : option Z :=
  match i_workStartedAt r with Some _ => None | None => i_workDurationMs r end.

Record TurnTiming := mkTurnTiming {
  turn_id : string;
  work_duration_ms : option Z
}.

Definition settledTurnTiming (r : Invocation) : option TurnTiming :=
  if bool_decide (i_status r ∈ [InvSucceeded; InvFailed; InvCanceled; InvExpired; InvNeedsReview])
  then Some (mkTurnTiming (i_turnId r)
    (if bool_decide (i_status r <> InvNeedsReview) && bool_decide (i_workStartedAt r = None)
     then v ← i_workDurationMs r;
          if (v <=? MAX_SAFE_INTEGER) && (0 <=? v) then Some v else None
     else None))
  else None.

(** What the owner of a transaction publishes after the commit: the changed
    invocations, when any was registered, and the settled timings by thread. *)
Record publication := mkPublication {
  pub_changes : option (list string);
  pub_timings : list (string * TurnTiming)
}.

Definition invocationTimingTransaction {A} (operation : tx A) (rows : gmap string Invocation)
    (ts : tables) : res (A * gmap string Invocation * tables * publication) :=
  match operation (mkTx rows ts [] [] false) with
  | Ok (a, t) =>
      Ok (a, t_invs t, t_tables t,
          mkPublication (if t_wake t then Some (t_ids t) else None)
            (omap (fun '(_, r) => pair (i_threadId r) <$> settledTurnTiming r) (t_timed t)))
  | Err e => Err e
  end.

(** ** The updates of an invocation row *)

Definition LEASE_US : Z := 60000000.

Definition lease_row (workerId : string) (now : Z) (r : Invocation) : Invocation :=
  mkInvocation (i_key r) InvLeased true (i_attempt r + 1) (i_fence r + 1) (Some workerId)
    (Some (now + LEASE_US)) (i_nextAttemptAt r) (i_workDurationMs r) (i_workStartedAt r)
    (i_outcomeCode r) (i_cancelRequestedAt r) (i_canceledByUserId r) now.

Definition heartbeat_row (now : Z) (r : Invocation) : Invocation :=
  mkInvocation (i_key r) (i_status r) (i_reservesThread r) (i_attempt r) (i_fence r)
    (i_workerId r) (Some (now + LEASE_US)) (i_nextAttemptAt r) (i_workDurationMs r)
    (i_workStartedAt r) (i_outcomeCode r) (i_cancelRequestedAt r) (i_canceledByUserId r) now.

Definition start_row (now : Z) (r : Invocation) : Invocation :=
  mkInvocation (i_key r) InvRunning (i_reservesThread r) (i_attempt r) (i_fence r)
    (i_workerId r) (i_leaseExpiresAt r) (i_nextAttemptAt r) (begunWorkDuration r)
    (Some now) (i_outcomeCode r) (i_cancelRequestedAt r) (i_canceledByUserId r) now.

Definition expire_row (now : Z) (r : Invocation) : Invocation :=
  mkInvocation (i_key r) InvExpired false (i_attempt r) (i_fence r)
    (i_workerId r) (i_leaseExpiresAt r) (i_nextAttemptAt r) (settledWorkDuration now r)
    None (Some "latest_start_elapsed") (i_cancelRequestedAt r) (i_canceledByUserId r) now.

Definition defer_row (status : InvocationStatus) (reserves : bool) (delaySeconds now : Z)
    (r : Invocation) : Invocation :=
  mkInvocation (i_key r) status reserves (i_attempt r) (i_fence r) None None
    (now + delaySeconds * 1000000) (settledWorkDuration now r) None
    (i_outcomeCode r) (i_cancelRequestedAt r) (i_canceledByUserId r) now.

Definition finish_row (pending : bool) (status : InvocationStatus) (outcomeCode : string)
    (now : Z) (r : Invocation) : Invocation :=
  let canceled := bool_decide (is_Some (i_cancelRequestedAt r)) in
  let review := pending || bool_decide (status = InvNeedsReview) in
  mkInvocation (i_key r)
    (if canceled then InvCanceled else if pending then InvNeedsReview else status)
    (negb canceled && review) (i_attempt r) (i_fence r) None None (i_nextAttemptAt r)
    (if negb canceled && review then None else settledWorkDuration now r) None
    (Some (if canceled then "user_canceled"
           else if pending then "unresolved_action_intent" else outcomeCode))
    (i_cancelRequestedAt r) (i_canceledByUserId r) now.

(** [date] is the service's [new Date()]. *)
Definition cancel_row (owner : string) (date now : Z) (r : Invocation) : Invocation :=
  let at_ := Some (i_cancelRequestedAt r ?? date) in
  if bool_decide (i_status r = InvRunning) then
    mkInvocation (i_key r) (i_status r) (i_reservesThread r) (i_attempt r) (i_fence r)
      (i_workerId r) (i_leaseExpiresAt r) (i_nextAttemptAt r) (i_workDurationMs r)
      (i_workStartedAt r) (i_outcomeCode r) at_ (Some owner) now
  else
    mkInvocation (i_key r) InvCanceled false (i_attempt r) (i_fence r + 1) None None
      (i_nextAttemptAt r) (settledWorkDuration now r) None (Some "user_canceled") at_
      (Some owner) now.

Definition supersede_row (r : Invocation) : Invocation :=
  mkInvocation (i_key r) (i_status r) (i_reservesThread r) (i_attempt r) (i_fence r)
    (i_workerId r) (i_leaseExpiresAt r) (i_nextAttemptAt r) (i_workDurationMs r)
    (i_workStartedAt r) (Some "superseded_by_user_message") (i_cancelRequestedAt r)
    (i_canceledByUserId r) (i_updatedAt r).

Definition park_row (reserves : bool) (now : Z) (r : Invocation) : Invocation :=
  mkInvocation (i_key r) InvWaitingForUser reserves (i_attempt r) (i_fence r + 1) None None
    (i_nextAttemptAt r) (settledWorkDuration now r) None (i_outcomeCode r)
    (i_cancelRequestedAt r) (i_canceledByUserId r) now.

Definition abandon_row (owner : string) (now : Z) (r : Invocation) : Invocation :=
  mkInvocation (i_key r) InvCanceled false (i_attempt r) (i_fence r + 1) None None
    (i_nextAttemptAt r) None None (Some "user_abandoned_after_review")
    (Some (i_cancelRequestedAt r ?? now)) (Some owner) now.

Definition ended_row (now : Z) (r : Invocation) : Invocation :=
  mkInvocation (i_key r) InvCanceled false (i_attempt r) (i_fence r + 1) None None
    (i_nextAttemptAt r) (settledWorkDuration now r) None (Some "browser_session_ended")
    (i_cancelRequestedAt r) (i_canceledByUserId r) now.

(** [row] is the row as selected, [r] the one the update reads. *)
Definition recover_row (continuation browserWait : bool) (now : Z) (row r : Invocation)
    : Invocation :=
  let canceled := bool_decide (is_Some (i_cancelRequestedAt row)) in
  let running := bool_decide (i_status row = InvRunning) in
  let leased := bool_decide (i_status row = InvLeased) in
  mkInvocation (i_key r)
    (if canceled then InvCanceled else if leased then InvRetryWait else InvNeedsReview)
    (negb canceled && (running || (continuation && negb browserWait)))
    (i_attempt r) (i_fence r + 1) None None now
    (if running then None else settledWorkDuration now r) None
    (Some (if canceled then "user_canceled"
           else if leased then "preflight_lease_expired" else "execution_lease_expired"))
    (i_cancelRequestedAt r) (i_canceledByUserId r) now.

Definition invalidate_row (r : Invocation) : Invocation :=
  mkInvocation (i_key r) (i_status r) (i_reservesThread r) (i_attempt r) (i_fence r)
    (i_workerId r) (i_leaseExpiresAt r) (i_nextAttemptAt r) None None (i_outcomeCode r)
    (i_cancelRequestedAt r) (i_canceledByUserId r) (i_updatedAt r).

(** ** Reading tables *)

Definition rows_where {R} (P : string -> R -> bool) (m : gmap string R) : list (string * R) :=
  List.filter (fun x => P x.1 x.2) (map_to_list m).
Definition some_row {R} (P : string -> R -> bool) (m : gmap string R) : bool :=
  existsb (fun x => P x.1 x.2) (map_to_list m).
(** [.limit(1)], where at most one row matches. *)
Definition find_row {R} (P : string -> R -> bool) (m : gmap string R) : option (string * R) :=
  head (rows_where P m).
(** [tx.update(table).set(f).where(P)]. *)
Definition update_where {R} (P : string -> R -> bool) (f : R -> R) (m : gmap string R)
    : gmap string R :=
  map_imap (fun k r => Some (if P k r then f r else r)) m.

Definition has_member (key : string) (e : option jsonb) : bool :=
  match e with Some fs => bool_decide (key ∈ fs.*1) | None => false end.

(** The first units of a string: a pair that is cut leaves a lone surrogate,
    which is stored as U+FFFD. *)
Definition replacement_char : string :=
  String (Ascii.ascii_of_N 239) (String (Ascii.ascii_of_N 191) (String (Ascii.ascii_of_N 189) EmptyString)).
Fixpoint js_prefix (n : Z) (s : string) : string :=
  match s with
  | EmptyString => EmptyString
  | String c r =>
      let u := utf16_units c in
      if u =? 0 then String c (js_prefix n r)
      else if u <=? n then String c (js_prefix (n - u) r)
      else if n =? 1 then replacement_char else EmptyString
  end.

Definition APP_KEY_REQUEST_TOOL : string := "data_request_api_key".
Definition AUTOMATION_PROPOSAL_TOOL : string := "automations_request_activation".
Definition BOOTSTRAP_PROPOSAL_TOOL : string := "automations_request_existing_contacts".

Definition QUEUED : list InvocationStatus :=
  [InvPending; InvRetryWait; InvWaitingForBud; InvWaitingForModel].
Definition LIVE : list InvocationStatus := [InvLeased; InvRunning].

(** The pattern of [parkAppDataRequest] and its siblings. *)
Definition is_hex (c : Ascii.ascii) : bool :=
  let n := Ascii.N_of_ascii c in
  (((48 <=? n) && (n <=? 57)) || ((65 <=? n) && (n <=? 70)) || ((97 <=? n) && (n <=? 102)))%N.
(** [h] stands for a hexadecimal digit. *)
Definition hex_mark : Ascii.ascii := Ascii.ascii_of_N 104.
Fixpoint matches_shape (shape s : string) : bool :=
  match shape, s with
  | EmptyString, EmptyString => true
  | String h shape, String c s =>
      (if Ascii.eqb h hex_mark then is_hex c else Ascii.eqb c h) && matches_shape shape s
  | _, _ => false
  end.
Definition is_uuid (s : string) : bool :=
  matches_shape "hhhhhhhh-hhhh-hhhh-hhhh-hhhhhhhhhhhh" s.

Record InvocationLease := mkLease {
  l_id : string;
  l_fence : Z;
  l_workerId : option string;
  l_createdByUserId : string
}.

Record InvocationAdmission := mkAdmission {
  ad_owner : string;
  ad_threadId : string;
  ad_origin : InvocationOrigin;
  ad_idempotencyKey : string;
  ad_clientId : option string;
  ad_text : string;
  ad_model : string;
  ad_reasoningEffort : string;
  ad_latestStartAt : option Z;
  ad_metadata : jsonb;
  ad_persistModelSelection : bool
}.

(** The ids that are drawn on the way: of the invocation, the turn, the message
    and, when the client gave none, of the client's message. *)
Record admission_ids := mkAdmissionIds {
  fresh_id : string;
  fresh_turnId : string;
  fresh_messageId : string;
  fresh_clientId : string
}.

(** [hashtextextended], [->>] of a value that is no string, [::timestamptz]; the
    capacity of a Bud; what [start] asks of the automation policy. *)
Class InvocationEnv := {
  lock_hash : string -> Z;
  jsonb_text : jsval -> string;
  timestamptz : string -> option Z;
  automationConcurrencyPerBud : Z;
  checkAutomationPolicy : string -> Invocation -> gmap string Invocation -> tables -> res string;
  automationStartEvidence : string -> Invocation -> gmap string Invocation -> tables
    -> res (option string)
}.

Section repository.
Context `{InvocationEnv}.

(** [e ->> key]. *)
Definition evidence_text (key : string) (e : option jsonb) : option string :=
  match e with
  | None => None
  | Some fs =>
      match field_lookup key fs with
      | JUndef | JNull => None
      | JStr s => Some s
      | v => Some (jsonb_text v)
      end
  end.

Definition waiting_actions (id : string) (P : ActionRow -> bool) (ts : tables) : bool :=
  some_row (fun _ a => bool_decide (a_invocationId a = id) &&
    bool_decide (a_status a = "waiting_for_user") && P a) (actions ts).

Definition has_continuation (id : string) (ts : tables) : bool :=
  waiting_actions id (fun _ => true) ts.

Definition hasBrowserWait (id : string) (ts : tables) : bool :=
  waiting_actions id
    (fun a => bool_decide (is_Some (evidence_text "browser_handoff_id" (a_evidence a)))) ts.

(** The thread with its Bud, when both belong to [owner] and the thread is not
    deleted. *)
Definition owned_thread (owner threadId : string) (ts : tables) : option ThreadRow :=
  th ← threads ts !! threadId;
  b ← buds ts !! th_budId th;
  if bool_decide (th_createdByUserId th = Some owner) && bool_decide (b = Some owner) &&
     bool_decide (th_deletedAt th = None)
  then Some th else None.

(** ** Canceling what waits for the user *)

Definition cancel_handoff (now : Z) (h : HandoffRow) : HandoffRow :=
  mkHandoff (h_sessionId h) (h_threadId h) (h_budId h) (h_invocationId h) (h_callId h)
    (h_clientId h) (h_reason h) (h_kind h) "canceled" (h_createdByUserId h)
    (h_resolutionReason h) (Some now).

(** With an owner, only the handoffs of that owner. *)
Definition cancel_handoffs (id : string) (owner : option string) (now : Z) (ts : tables) : tables :=
  set_handoffs (update_where (fun _ h => bool_decide (h_invocationId h = Some id) &&
      bool_decide (h_status h = "pending") &&
      match owner with Some o => bool_decide (h_createdByUserId h = o) | None => true end)
    (cancel_handoff now) (handoffs ts)) ts.

Definition cancel_proposals (id owner : string) (now : Z) (m : gmap string ProposalRow)
    : gmap string ProposalRow :=
  update_where (fun _ p => bool_decide (p_invocationId p = id) &&
      bool_decide (p_createdByUserId p = owner) && bool_decide (p_status p = "pending"))
    (fun p => mkProposal (p_invocationId p) (p_threadId p) (p_callId p) "canceled"
                (p_version p + 1) (p_createdByUserId p) now) m.

Definition cancel_questions (threadId turnId owner : string) (now : Z)
    (m : gmap string QuestionRow) : gmap string QuestionRow :=
  update_where (fun _ q => bool_decide (q_threadId q = threadId) &&
      bool_decide (q_turnId q = turnId) && bool_decide (q_createdByUserId q = Some owner) &&
      bool_decide (q_status q = "pending"))
    (fun q => mkQuestion (q_threadId q) (q_turnId q) (q_callId q) "canceled"
                (q_createdByUserId q) now) m.

Definition cancel_requests (id threadId turnId owner : string) (now : Z) (ts : tables) : tables :=
  set_waits (cancel_questions threadId turnId owner now (questions ts))
    (cancel_proposals id owner now (dataRequests ts))
    (cancel_proposals id owner now (automationProposals ts))
    (cancel_proposals id owner now (bootstrapProposals ts)) ts.

Definition TERMINAL : list InvocationStatus := [InvSucceeded; InvFailed; InvCanceled; InvExpired].

Definition requestCancelInTransaction (owner invocationId : string) (date now : Z)
    : tx Invocation :=
  rows ← tx_invs;
  row ← require_some (r ← rows !! invocationId;
                      if bool_decide (i_createdByUserId r = owner) then Some r else None)
          "invocation_not_found";
  if bool_decide (i_status row ∈ TERMINAL) then mret row
  else
    modify_tables (fun ts => cancel_requests invocationId (i_threadId row) (i_turnId row) owner now
                     (cancel_handoffs invocationId (Some owner) now ts));;
    updated ← update_inv invocationId (cancel_row owner date now);
    updated ← require_some updated "TypeError";
    recordSettledTiming invocationId updated;;
    mret updated.

(** ** Admission *)

Definition one : jsval := JNum (JFin (QArith_base.inject_Z 1)).

Definition set_reason (reason : string) (h : HandoffRow) : HandoffRow :=
  mkHandoff (h_sessionId h) (h_threadId h) (h_budId h) (h_invocationId h) (h_callId h)
    (h_clientId h) (h_reason h) (h_kind h) (h_status h) (h_createdByUserId h)
    (Some reason) (h_resolvedAt h).

(** The invocations of the thread that wait for an agent's browser handoff. *)
Definition browser_waits (owner threadId : string) (rows : gmap string Invocation) (ts : tables)
    : list string :=
  (rows_where (fun id r => bool_decide (i_threadId r = threadId) &&
      bool_decide (i_createdByUserId r = owner) && bool_decide (i_status r = InvWaitingForUser) &&
      some_row (fun _ h => bool_decide (h_invocationId h = Some id) &&
        bool_decide (h_createdByUserId h = owner) && bool_decide (h_kind h = "agent") &&
        bool_decide (h_status h = "pending")) (handoffs ts)) rows).*1.

Definition supersede (owner : string) (date now : Z) (id : string) : tx unit :=
  requestCancelInTransaction owner id date now;;
  update_inv id supersede_row;;
  modify_tables (fun ts => set_handoffs
    (update_where (fun _ h => bool_decide (h_invocationId h = Some id) &&
       bool_decide (h_createdByUserId h = owner)) (set_reason "user_redirected") (handoffs ts)) ts).

(** The text that was admitted: an automation's message may have got evidence. *)
Definition admitted_text (origin : InvocationOrigin) (m : MessageRow) : jsval :=
  match origin with
  | Automation =>
      match field_lookup "automation_admission_text" (m_metadata m) with
      | JUndef | JNull => JStr (m_content m)
      | v => v
      end
  | Human => JStr (m_content m)
  end.

Definition same_admission (input : InvocationAdmission) (r : Invocation) (m : option MessageRow)
    : bool :=
  bool_decide (i_threadId r = ad_threadId input) && bool_decide (i_origin r = ad_origin input) &&
  bool_decide (k_model (i_key r) = ad_model input) &&
  bool_decide (k_reasoningEffort (i_key r) = ad_reasoningEffort input) &&
  match m with
  | None => false
  | Some m =>
      bool_decide (as_string (admitted_text (i_origin r) m) = Some (ad_text input)) &&
      negb (ostr_truthy (ad_clientId input) &&
            bool_decide (ad_clientId input <> Some (m_clientId m)))
  end.

Definition insert_message (id : string) (m : MessageRow) : tx unit :=
  ts ← tx_tables;
  require_true (bool_decide (messages ts !! id = None) &&
    negb (some_row (fun _ m' => bool_decide (m_clientId m' = m_clientId m)) (messages ts)))
    "duplicate key";;
  modify_tables (fun ts => set_messages (<[id := m]> (messages ts)) ts).

Definition insert_inv (id : string) (r : Invocation) : tx unit :=
  rows ← tx_invs;
  require_true (bool_decide (rows !! id = None) &&
    negb (some_row (fun _ r' =>
      (bool_decide (i_createdByUserId r' = i_createdByUserId r) &&
       bool_decide (k_idempotencyKey (i_key r') = k_idempotencyKey (i_key r))) ||
      bool_decide (i_turnId r' = i_turnId r) ||
      bool_decide (i_inputMessageId r' = i_inputMessageId r)) rows)) "duplicate key";;
  put_invs (<[id := r]> rows).

Definition admission_message (input : InvocationAdmission) (ids : admission_ids) (th : ThreadRow)
    (now : Z) : MessageRow :=
  mkMessage (ad_clientId input ?? fresh_clientId ids) (ad_threadId input)
    (match ad_origin input with Human => "user" | Automation => "system" end)
    (Some (match ad_origin input with Human => "User" | Automation => "Automation" end))
    (ad_text input)
    (JsMap.set "model_context_at" JNull
      (JsMap.set "origin"
         (JStr (match ad_origin input with Human => "human" | Automation => "automation" end))
         (JsMap.set "invocation_id" (JStr (fresh_id ids)) (ad_metadata input))))
    (th_tenantId th) (Some (ad_owner input)) now.

Definition admitted_row (input : InvocationAdmission) (ids : admission_ids) (th : ThreadRow)
    (now : Z) : Invocation :=
  mkInvocation
    (mkInvKey (fresh_turnId ids) (ad_threadId input) (th_budId th) (fresh_messageId ids)
       (ad_origin input) (ad_idempotencyKey input) (ad_model input) (ad_reasoningEffort input)
       (ad_latestStartAt input) (ad_owner input) (th_tenantId th) now)
    InvPending false 0 0 None None now (Some 0) None None None None now.

Definition touch_thread (input : InvocationAdmission) (now : Z) (th : ThreadRow) : ThreadRow :=
  mkThread (th_budId th) (th_tenantId th) (th_createdByUserId th) (th_deletedAt th) now
    (if ad_persistModelSelection input then Some (ad_model input) else th_modelId th)
    (if ad_persistModelSelection input then Some (ad_reasoningEffort input)
     else th_reasoningEffort th)
    (th_messageCount th + 1) (Some (js_prefix 360 (ad_text input))).

(** Returns the invocation and whether it had been admitted before. *)
Definition admitInTransaction (input : InvocationAdmission) (ids : admission_ids) (date now : Z)
    : tx (string * bool) :=
  require_true (str_truthy (ad_owner input) && str_truthy (ad_idempotencyKey input) &&
    (js_length (ad_idempotencyKey input) <=? 256) && str_truthy (ad_text input) &&
    (js_length (ad_text input) <=? 100000)) "invalid_admission";;
  ts ← tx_tables;
  th ← require_some (owned_thread (ad_owner input) (ad_threadId input) ts) "thread_not_found";
  rows ← tx_invs;
  match find_row (fun _ r => bool_decide (i_createdByUserId r = ad_owner input) &&
           bool_decide (k_idempotencyKey (i_key r) = ad_idempotencyKey input)) rows with
  | Some (id, existing) =>
      require_true (same_admission input existing (messages ts !! i_inputMessageId existing))
        "admission_conflict";;
      mret (id, true)
  | None =>
      match ad_origin input with
      | Human => for_each (browser_waits (ad_owner input) (ad_threadId input) rows ts)
                   (supersede (ad_owner input) date now)
      | Automation => mret tt
      end;;
      insert_message (fresh_messageId ids) (admission_message input ids th now);;
      insert_inv (fresh_id ids) (admitted_row input ids th now);;
      modify_tables (fun ts => set_threads (alter (touch_thread input now) (ad_threadId input)
                                              (threads ts)) ts);;
      recordInvocationChange (fresh_id ids);;
      mret (fresh_id ids, false)
  end.

(** ** Work under a lease *)

Definition lease_matches (lease : InvocationLease) (now : Z) (r : Invocation) : bool :=
  bool_decide (i_createdByUserId r = l_createdByUserId lease) &&
  bool_decide (i_fence r = l_fence lease) &&
  ostr_truthy (l_workerId lease) && bool_decide (i_workerId r = l_workerId lease) &&
  match i_leaseExpiresAt r with Some t => now <? t | None => false end.

Definition lockedLease (lease : InvocationLease) (statuses : list InvocationStatus)
    (allowCancellation : bool) (now : Z) : tx Invocation :=
  rows ← tx_invs;
  row ← require_some (r ← rows !! l_id lease;
                      if lease_matches lease now r && bool_decide (i_status r ∈ statuses)
                      then Some r else None) "lease_lost";
  require_true (bool_decide (i_cancelRequestedAt row = None) || allowCancellation)
    "invocation_canceled";;
  ts ← tx_tables;
  require_true (bool_decide (is_Some (owned_thread (i_createdByUserId row) (i_threadId row) ts)))
    "invocation_authority_lost";;
  mret row.

Definition heartbeat (lease : InvocationLease) (now : Z) : tx unit :=
  lockedLease lease LIVE false now;;
  update_inv (l_id lease) (heartbeat_row now);;
  mret tt.

(** [latestStartAt] has passed and nothing waits for the user. *)
Definition start_elapsed (id : string) (now : Z) (ts : tables) (r : Invocation) : bool :=
  match i_latestStartAt r with Some t => (t <=? now) && negb (has_continuation id ts) | None => false end.

Definition is_invocation_input (rows : gmap string Invocation) (mid : string) (m : MessageRow)
    : bool :=
  some_row (fun _ r => bool_decide (i_inputMessageId r = mid) &&
    bool_decide (i_threadId r = m_threadId m) &&
    bool_decide (Some (i_createdByUserId r) = m_createdByUserId m)) rows.

Definition modelContextMessageVisible (rows : gmap string Invocation) (mid : string)
    (m : MessageRow) : bool :=
  negb (is_invocation_input rows mid m) ||
  bool_decide (is_Some (evidence_text "model_context_at" (Some (m_metadata m)))).

Definition modelContextMessageCreatedAt (rows : gmap string Invocation) (mid : string)
    (m : MessageRow) : res (option Z) :=
  if is_invocation_input rows mid m then
    match evidence_text "model_context_at" (Some (m_metadata m)) with
    | Some text => match timestamptz text with Some t => Ok (Some t) | None => Err "invalid timestamp" end
    | None => Ok None
    end
  else Ok (Some (m_createdAt m)).

Fixpoint latest (rows : gmap string Invocation) (ms : list (string * MessageRow)) : res (option Z) :=
  match ms with
  | [] => Ok None
  | (mid, m) :: ms =>
      t ← modelContextMessageCreatedAt rows mid m;
      rest ← latest rows ms;
      mret (match t, rest with
            | Some t, Some u => Some (Z.max t u)
            | Some t, None => Some t
            | None, o => o
            end)
  end.

(** Truncation to milliseconds, in microseconds. *)
Definition trunc_ms (t : Z) : Z := t / 1000 * 1000.

Definition context_clock (threadId : string) (now : Z) (rows : gmap string Invocation)
    (ts : tables) : res Z :=
  newest ← latest rows (rows_where (fun mid m => bool_decide (m_threadId m = threadId) &&
                          modelContextMessageVisible rows mid m) (messages ts));
  mret (match newest with
        | Some t => Z.max (trunc_ms now) (trunc_ms t + 1000)
        | None => trunc_ms now
        end).

Definition lift {A} (r : res A) : tx A := match r with Ok a => mret a | Err e => throw e end.

Definition set_message (content : string) (metadata : jsonb) (m : MessageRow) : MessageRow :=
  mkMessage (m_clientId m) (m_threadId m) (m_role m) (m_displayRole m) content metadata
    (m_tenantId m) (m_createdByUserId m) (m_createdAt m).

Definition update_message (id owner : string) (f : MessageRow -> MessageRow) : tx unit :=
  modify_tables (fun ts => set_messages
    (update_where (fun k m => bool_decide (k = id) && bool_decide (m_createdByUserId m = Some owner))
       f (messages ts)) ts).

(** What an automation has to pass before it starts. *)
Definition start_automation (id : string) (row : Invocation) : tx unit :=
  ts ← tx_tables;
  rows ← tx_invs;
  let mine := fun d => bool_decide (d_invocationId d = Some id) &&
                       bool_decide (d_createdByUserId d = i_createdByUserId row) in
  if existsb mine (deliveries ts) || existsb mine (bootstrapGroups ts) then
    policy ← lift (checkAutomationPolicy id row rows ts);
    require_true (bool_decide (policy = "ready")) "automation_paused";;
    input ← require_some (m ← messages ts !! i_inputMessageId row;
        if bool_decide (m_threadId m = i_threadId row) &&
           bool_decide (m_createdByUserId m = Some (i_createdByUserId row))
        then Some m else None) "input_message_missing";
    if json_truthy (field_lookup "model_context_at" (m_metadata input)) then mret tt
    else
      context ← lift (automationStartEvidence id row rows ts);
      match context with
      | None => mret tt
      | Some text =>
          update_message (i_inputMessageId row) (i_createdByUserId row)
            (fun _ => set_message (m_content input +:+ text)
               (JsMap.set "contact_evidence_version" one
                 (JsMap.set "automation_admission_text" (JStr (m_content input))
                    (m_metadata input))) input)
      end
  else mret tt.

Definition start (lease : InvocationLease) (now : Z) : tx unit :=
  recordInvocationChange (l_id lease);;
  row ← lockedLease lease [InvLeased] false now;
  match i_origin row with Automation => start_automation (l_id lease) row | Human => mret tt end;;
  ts ← tx_tables;
  rows ← tx_invs;
  require_true (negb (start_elapsed (l_id lease) now ts row)) "latest_start_elapsed";;
  at_ ← lift (context_clock (i_threadId row) now rows ts);
  update_message (i_inputMessageId row) (i_createdByUserId row)
    (fun m => set_message (m_content m)
       (JsMap.set "model_context_at"
          (JStr (evidence_text "model_context_at" (Some (m_metadata m)) ?? toISOString (at_ / 1000)))
          (m_metadata m)) m);;
  update_inv (l_id lease) (start_row now);;
  mret tt.

Definition defer (lease : InvocationLease) (status : InvocationStatus) (delaySeconds now : Z)
    : tx unit :=
  require_true ((1 <=? delaySeconds) && (delaySeconds <=? 300)) "invalid_retry_delay";;
  recordInvocationChange (l_id lease);;
  lockedLease lease [InvLeased] false now;;
  ts ← tx_tables;
  update_inv (l_id lease) (defer_row status
    (has_continuation (l_id lease) ts && negb (hasBrowserWait (l_id lease) ts)) delaySeconds now);;
  mret tt.

(** *** Actions *)

Definition action_taken (id : string) (a : ActionRow) (ts : tables) : bool :=
  bool_decide (is_Some (actions ts !! id)) ||
  some_row (fun _ a' => bool_decide (a_invocationId a' = a_invocationId a) &&
    bool_decide (a_callId a' = a_callId a)) (actions ts).

Definition insert_action (id : string) (a : ActionRow) (code : string) : tx unit :=
  ts ← tx_tables;
  require_true (negb (action_taken id a ts)) code;;
  modify_tables (fun ts => set_actions (<[id := a]> (actions ts)) ts).

Definition recordAction (lease : InvocationLease) (callId kind ulid : string) (now : Z) : tx unit :=
  row ← lockedLease lease [InvRunning] false now;
  insert_action ulid (mkAction (l_id lease) callId (i_fence row) kind "intent" None
                        (i_createdByUserId row) None) "action_already_recorded".

(** Updates the actions that match; throws [code] when there is none. *)
Definition update_actions (P : ActionRow -> bool) (f : ActionRow -> ActionRow) (code : string)
    : tx unit :=
  ts ← tx_tables;
  require_true (some_row (fun _ a => P a) (actions ts)) code;;
  modify_tables (fun ts => set_actions (update_where (fun _ a => P a) f (actions ts)) ts).

Definition completed_evidence (evidence : jsonb) (old : option jsonb) : jsonb :=
  if has_member "browser_cell" old
  then JsMap.set "browser_cell" (field_lookup "browser_cell" (old ?? [])) evidence
  else evidence.

Definition completeAction (lease : InvocationLease) (callId : string) (evidence : jsonb) (now : Z)
    : tx unit :=
  lockedLease lease [InvRunning] false now;;
  update_actions (fun a => bool_decide (a_invocationId a = l_id lease) &&
      bool_decide (a_fence a = l_fence lease) && bool_decide (a_callId a = callId) &&
      bool_decide (a_status a ∈ ["intent"; "waiting_for_user"]))
    (fun a => mkAction (a_invocationId a) (a_callId a) (a_fence a) (a_kind a) "completed"
       (Some (completed_evidence evidence (a_evidence a))) (a_createdByUserId a) (Some now))
    "action_not_pending".

Definition unresolved_action (id : string) (ts : tables) : bool :=
  some_row (fun _ a => bool_decide (a_invocationId a = id) &&
    bool_decide (a_status a ∈ ["intent"; "waiting_for_user"])) (actions ts).

Definition finish (lease : InvocationLease) (status : InvocationStatus) (outcomeCode : string)
    (now : Z) : tx unit :=
  current ← lockedLease lease LIVE true now;
  ts ← tx_tables;
  let pending := unresolved_action (l_id lease) ts in
  (if negb pending || bool_decide (is_Some (i_cancelRequestedAt current))
   then modify_tables (cancel_handoffs (l_id lease) None now) else mret tt);;
  timed ← update_inv (l_id lease) (finish_row pending status outcomeCode now);
  timed ← require_some timed "TypeError";
  recordSettledTiming (l_id lease) timed.

(** *** Parking *)

Definition wait_action (fence : Z) (evidence : jsonb) (a : ActionRow) : ActionRow :=
  mkAction (a_invocationId a) (a_callId a) fence (a_kind a) "waiting_for_user" (Some evidence)
    (a_createdByUserId a) (a_completedAt a).

(** The intent of this call, of [kind] when one is given. *)
Definition is_intent (lease : InvocationLease) (callId : string) (kind : option string)
    (a : ActionRow) : bool :=
  bool_decide (a_invocationId a = l_id lease) && bool_decide (a_callId a = callId) &&
  bool_decide (a_fence a = l_fence lease) && bool_decide (a_status a = "intent") &&
  match kind with Some k => bool_decide (a_kind a = k) | None => true end.

Definition session_resource (sid : string) (ts : tables) : option ResourceRow :=
  s ← sessions ts !! sid; b ← s_browserId s; resources ts !! b.

Definition parkBrowserHandoff (lease : InvocationLease) (callId handoffId : string) (now : Z)
    : tx unit :=
  recordInvocationChange (l_id lease);;
  row ← lockedLease lease [InvRunning] false now;
  ts ← tx_tables;
  require_true (match handoffs ts !! handoffId with
    | Some h =>
        bool_decide (h_invocationId h = Some (l_id lease)) && bool_decide (h_callId h = Some callId) &&
        bool_decide (h_createdByUserId h = i_createdByUserId row) &&
        bool_decide (h_status h ∈ ["pending"; "returned"]) &&
        match session_resource (h_sessionId h) ts with
        | Some r => bool_decide (r_retiredAt r = None)
        | None => false
        end
    | None => false
    end) "browser_handoff_not_available";;
  update_actions (is_intent lease callId None)
    (wait_action (l_fence lease + 1) [("browser_handoff_id", JStr handoffId)])
    "browser_handoff_action_not_pending";;
  update_inv (l_id lease) (park_row false now);;
  mret tt.

Definition set_call (callId : string) (h : HandoffRow) : HandoffRow :=
  mkHandoff (h_sessionId h) (h_threadId h) (h_budId h) (h_invocationId h) (Some callId)
    (h_clientId h) (h_reason h) (h_kind h) (h_status h) (h_createdByUserId h)
    (h_resolutionReason h) (h_resolvedAt h).

(** Returns the handoff and the call, or nothing when the user did not take over. *)
Definition parkUserBrowserHandoff (lease : InvocationLease) (nextCall : option (string * string))
    (ulid : string) (now : Z) : tx (option (string * string)) :=
  row ← lockedLease lease [InvRunning] false now;
  ts ← tx_tables;
  match find_row (fun _ h => bool_decide (h_invocationId h = Some (l_id lease)) &&
      bool_decide (h_createdByUserId h = i_createdByUserId row) && bool_decide (h_kind h = "user") &&
      bool_decide (h_status h = "pending") && bool_decide (h_callId h = None) &&
      match session_resource (h_sessionId h) ts with
      | Some r => bool_decide (r_controlState r <> "agent")
      | None => false
      end) (handoffs ts) with
  | None => mret None
  | Some (hid, _) =>
      recordInvocationChange (l_id lease);;
      let callId := (fst <$> nextCall) ?? ("browser-user-" +:+ hid) in
      insert_action ulid (mkAction (l_id lease) callId (l_fence lease + 1)
        ((snd <$> nextCall) ?? "browser_user_handoff") "waiting_for_user"
        (Some [("browser_handoff_id", JStr hid)]) (i_createdByUserId row) None) "duplicate key";;
      modify_tables (fun ts => set_handoffs (alter (set_call callId) hid (handoffs ts)) ts);;
      update_inv (l_id lease) (park_row false now);;
      mret (Some (hid, callId))
  end.

Definition parkQuestion (lease : InvocationLease) (callId questionRequestId : string) (now : Z)
    : tx unit :=
  recordInvocationChange (l_id lease);;
  row ← lockedLease lease [InvRunning] false now;
  ts ← tx_tables;
  require_true (match questions ts !! questionRequestId with
    | Some q =>
        bool_decide (q_threadId q = i_threadId row) && bool_decide (q_turnId q = i_turnId row) &&
        bool_decide (q_callId q = callId) &&
        bool_decide (q_createdByUserId q = Some (i_createdByUserId row)) &&
        bool_decide (q_status q ∈ ["pending"; "answered"])
    | None => false
    end) "question_not_available";;
  update_actions (is_intent lease callId (Some "ask_user_questions"))
    (fun a => wait_action (a_fence a) [("question_request_id", JStr questionRequestId)] a)
    "question_action_not_pending";;
  update_inv (l_id lease) (park_row true now);;
  mret tt.

(** [request] creates the row that the user decides about and gives its id. *)
Definition parkAppDataRequest (lease : InvocationLease) (callId clientId : string)
    (request : gmap string Invocation -> tables -> res (string * tables)) (now : Z) : tx string :=
  require_true (is_uuid clientId) "invalid_tool_client_id";;
  recordInvocationChange (l_id lease);;
  rows ← tx_invs;
  ts ← tx_tables;
  made ← lift (request rows ts);
  modify_tables (fun _ => made.2);;
  lockedLease lease [InvRunning] false now;;
  update_actions (is_intent lease callId (Some APP_KEY_REQUEST_TOOL))
    (fun a => wait_action (a_fence a) [("data_access_request_id", JStr made.1);
                                       ("tool_client_id", JStr clientId)] a)
    "app_data_action_not_pending";;
  update_inv (l_id lease) (park_row true now);;
  mret made.1.

Definition parkAutomationProposal (lease : InvocationLease) (callId clientId : string)
    (request : gmap string Invocation -> tables -> res (string * tables)) (now : Z) : tx string :=
  require_true (is_uuid clientId) "invalid_tool_client_id";;
  recordInvocationChange (l_id lease);;
  rows ← tx_invs;
  ts ← tx_tables;
  made ← lift (request rows ts);
  modify_tables (fun _ => made.2);;
  lockedLease lease [InvRunning] false now;;
  update_actions (is_intent lease callId (Some AUTOMATION_PROPOSAL_TOOL))
    (fun a => wait_action (a_fence a) [("automation_proposal_id", JStr made.1);
                                       ("tool_client_id", JStr clientId)] a)
    "automation_proposal_action_not_pending";;
  update_inv (l_id lease) (park_row true now);;
  mret made.1.

(** What [requestInTransaction] ([personal-data/automation-bootstrap-proposals.ts]) checks
    of the invocation and of the intent before it reads anything else.  A [Date] is in
    milliseconds, and [this.now()] is taken to be the database's time. *)
Definition bootstrap_source (lease : InvocationLease) (callId : string) (now : Z)
    (rows : gmap string Invocation) (ts : tables) : res unit :=
  let owner := l_createdByUserId lease in
  match r ← rows !! l_id lease;
        th ← threads ts !! i_threadId r;
        bud ← buds ts !! i_budId r;
        if bool_decide (i_createdByUserId r = owner) && bool_decide (bud = Some owner) &&
           bool_decide (th_createdByUserId th = Some owner) && bool_decide (th_deletedAt th = None)
        then Some r else None with
  | None => Err "bootstrap_proposal_not_found"
  | Some r =>
      if bool_decide (i_origin r <> Human) then Err "automation_management_origin_denied"
      else if bool_decide (i_status r <> InvRunning) || negb (i_reservesThread r) ||
              bool_decide (i_workerId r <> Some (l_workerId lease ?? "")) ||
              bool_decide (i_fence r <> l_fence lease) ||
              match i_leaseExpiresAt r with Some t => t / 1000 <=? now / 1000 | None => true end ||
              bool_decide (is_Some (i_cancelRequestedAt r))
      then Err "invocation_unavailable"
      else if some_row (fun _ a => is_intent lease callId (Some BOOTSTRAP_PROPOSAL_TOOL) a &&
                                   bool_decide (a_createdByUserId a = owner)) (actions ts)
      then Ok tt else Err "bootstrap_proposal_intent_required"
  end.

(** [admitted]: whether the input parses and the owner has a row to lock.  [request], the
    rest of [requestInTransaction], may find that there is no work: then nothing is parked. *)
Definition parkBootstrapProposal (lease : InvocationLease) (callId clientId : string)
    (admitted : res unit)
    (request : gmap string Invocation -> tables -> res (option string * tables)) (now : Z)
    : tx (option string) :=
  require_true (is_uuid clientId) "invalid_tool_client_id";;
  lift admitted;;
  rows ← tx_invs;
  ts ← tx_tables;
  lift (bootstrap_source lease callId now rows ts);;
  made ← lift (request rows ts);
  modify_tables (fun _ => made.2);;
  match made.1 with
  | None => mret None
  | Some pid =>
      recordInvocationChange (l_id lease);;
      lockedLease lease [InvRunning] false now;;
      update_actions (is_intent lease callId (Some BOOTSTRAP_PROPOSAL_TOOL))
        (wait_action (l_fence lease + 1) [("bootstrap_proposal_id", JStr pid);
                                          ("tool_client_id", JStr clientId)])
        "bootstrap_proposal_action_not_pending";;
      update_inv (l_id lease) (park_row true now);;
      mret (Some pid)
  end.

(** A browser dispatch ([service/src/browser/repository.ts], [prepare]) parks the
    invocation when the user has control of the browser.  What precedes, on the
    tables of the browser, gives the session and whether [paused] and
    [sessionOpen] hold; it throws or returns without a change of invocations, or
    goes on here. *)
Definition dispatched (a : ActionRow) : bool :=
  match a_evidence a with
  | Some fs => match field_lookup "browser_dispatched" fs with JBool b => b | _ => false end
  | None => false
  end.

Definition dispatch_authority (lease : InvocationLease) (turnId threadId budId : string) (now : Z)
    (rows : gmap string Invocation) (ts : tables) : bool :=
  match rows !! l_id lease with
  | Some r => lease_matches lease now r && bool_decide (i_turnId r = turnId) &&
      bool_decide (i_status r = InvRunning) && bool_decide (i_cancelRequestedAt r = None) &&
      bool_decide (i_threadId r = threadId) &&
      match owned_thread (l_createdByUserId lease) threadId ts with
      | Some th => bool_decide (th_budId th = budId)
      | None => false
      end
  | None => false
  end.

Definition parkReturnControl (lease : InvocationLease) (turnId threadId budId callId clientId
    sessionId handoffId : string) (paused sessionOpen : bool) (now : Z) : tx unit :=
  rows ← tx_invs;
  ts ← tx_tables;
  let owner := l_createdByUserId lease in
  require_true (dispatch_authority lease turnId threadId budId now rows ts)
    "browser_authority_lost";;
  require_true (some_row (fun _ a => is_intent lease callId None a &&
      bool_decide (a_createdByUserId a = owner) && negb (dispatched a)) (actions ts))
    "browser_call_already_dispatched";;
  require_true (paused && str_truthy clientId && sessionOpen) "browser_private_or_paused";;
  require_true (bool_decide (handoffs ts !! handoffId = None) &&
    negb (some_row (fun _ h => bool_decide (h_invocationId h = Some (l_id lease)) &&
      (bool_decide (h_callId h = Some callId) || bool_decide (h_status h = "pending")))
      (handoffs ts))) "duplicate key";;
  modify_tables (fun ts => set_handoffs (<[handoffId :=
    mkHandoff sessionId threadId budId (Some (l_id lease)) (Some callId) (Some clientId)
      "Return browser control so Bud can continue." "return_control" "pending" owner None None]>
    (handoffs ts)) ts);;
  modify_tables (fun ts => set_actions (update_where
    (fun _ a => bool_decide (a_invocationId a = l_id lease) && bool_decide (a_callId a = callId))
    (fun a => wait_action (a_fence a + 1) [("browser_handoff_id", JStr handoffId);
                                           ("browser_dispatched", JBool false)] a)
    (actions ts)) ts);;
  update_inv (l_id lease) (park_row false now);;
  mret tt.

(** ** Decisions of the owner and maintenance *)

Definition abandonReviewed (owner threadId invocationId expectedUpdatedAt ulid callUlid : string)
    (now : Z) : tx unit :=
  rows ← tx_invs;
  ts ← tx_tables;
  row ← require_some (r ← rows !! invocationId;
      if bool_decide (i_threadId r = threadId) && bool_decide (i_createdByUserId r = owner) &&
         bool_decide (is_Some (owned_thread owner threadId ts))
      then Some r else None) "invocation_not_found";
  if bool_decide (i_status row = InvCanceled) &&
     bool_decide (i_outcomeCode row = Some "user_abandoned_after_review") then mret tt
  else
    require_true (bool_decide (i_status row = InvNeedsReview) &&
      bool_decide (toISOString (i_updatedAt row / 1000) = expectedUpdatedAt))
      "invocation_review_conflict";;
    modify_tables (cancel_handoffs invocationId (Some owner) now);;
    insert_action ulid (mkAction invocationId ("owner-review-" +:+ callUlid) (i_fence row)
      "owner_review" "completed"
      (Some [("decision", JStr "abandon"); ("acknowledged_possible_effects", JBool true);
             ("prior_outcome_code", match i_outcomeCode row with Some c => JStr c | None => JNull end)])
      owner (Some now)) "duplicate key";;
    modify_tables (cancel_requests invocationId threadId (i_turnId row) owner now);;
    updated ← update_inv invocationId (abandon_row owner now);
    updated ← require_some updated "TypeError";
    recordSettledTiming invocationId updated.

Definition owned_by_filter (ownerFilter : option string) (r : Invocation) : bool :=
  negb (ostr_truthy ownerFilter) || bool_decide (ownerFilter = Some (i_createdByUserId r)).

(** [for update skip locked limit 100]: which of the rows that match are taken is
    the database's choice [chosen]. *)
Definition legal_choice (P : string -> Invocation -> bool) (rows : gmap string Invocation)
    (chosen : list string) : bool :=
  bool_decide (NoDup chosen) && (zlen chosen <=? 100) &&
  forallb (fun id => match rows !! id with Some r => P id r | None => false end) chosen.

Definition queue_expired (ownerFilter : option string) (now : Z) (ts : tables) (id : string)
    (r : Invocation) : bool :=
  bool_decide (i_status r ∈ QUEUED) && start_elapsed id now ts r && owned_by_filter ownerFilter r.

Definition expire_one (now : Z) (id : string) : tx unit :=
  timed ← update_inv id (expire_row now);
  timed ← require_some timed "TypeError";
  recordSettledTiming id timed.

Definition expireQueued (ownerFilter : option string) (chosen : list string) (now : Z) : tx nat :=
  rows ← tx_invs;
  ts ← tx_tables;
  require_true (legal_choice (queue_expired ownerFilter now ts) rows chosen) "not a choice";;
  for_each chosen (expire_one now);;
  mret (length chosen).

(** The browser session or thread behind a handoff is gone. *)
Definition handoff_ended (ts : tables) (h : HandoffRow) : bool :=
  match sessions ts !! h_sessionId h, threads ts !! h_threadId h, buds ts !! h_budId h with
  | Some s, Some th, Some b =>
      bool_decide (h_status h ∈ ["pending"; "returned"; "canceled"]) &&
      (bool_decide (h_status h = "canceled") || bool_decide (is_Some (s_closedAt s)) ||
       bool_decide (s_desiredState s = "closed") || bool_decide (is_Some (th_deletedAt th)) ||
       match session_resource (h_sessionId h) ts with
       | Some r => bool_decide (is_Some (r_retiredAt r))
       | None => true
       end ||
       bool_decide (th_createdByUserId th <> Some (h_createdByUserId h)) ||
       bool_decide (b <> Some (h_createdByUserId h)))
  | _, _, _ => false
  end.

Definition browser_ended (ownerFilter : option string) (ts : tables) (id : string) (r : Invocation)
    : bool :=
  bool_decide (i_status r ∈ [InvWaitingForUser; InvWaitingForBud; InvWaitingForModel; InvRetryWait]) &&
  waiting_actions id (fun a => has_member "browser_handoff_id" (a_evidence a)) ts &&
  owned_by_filter ownerFilter r &&
  some_row (fun _ h => bool_decide (h_invocationId h = Some id) &&
    bool_decide (h_createdByUserId h = i_createdByUserId r) && handoff_ended ts h) (handoffs ts).

Definition end_one (now : Z) (id : string) : tx unit :=
  modify_tables (cancel_handoffs id None now);;
  timed ← update_inv id (ended_row now);
  timed ← require_some timed "TypeError";
  recordSettledTiming id timed.

Definition lease_expired (ownerFilter : option string) (now : Z) (_ : string) (r : Invocation)
    : bool :=
  bool_decide (i_status r ∈ LIVE) &&
  match i_leaseExpiresAt r with Some t => t <=? now | None => false end &&
  owned_by_filter ownerFilter r.

Definition recover_one (now : Z) (row : string * Invocation) : tx unit :=
  ts ← tx_tables;
  let continuation := has_continuation row.1 ts in
  (if bool_decide (is_Some (i_cancelRequestedAt row.2)) || bool_decide (i_status row.2 = InvRunning)
   then modify_tables (cancel_handoffs row.1 None now) else mret tt);;
  timed ← update_inv row.1 (recover_row continuation (hasBrowserWait row.1 ts) now row.2);
  timed ← require_some timed "TypeError";
  recordSettledTiming row.1 timed.

Definition selected (rows : gmap string Invocation) (chosen : list string)
    : list (string * Invocation) :=
  omap (fun id => pair id <$> rows !! id) chosen.

Definition recoverExpired (ownerFilter : option string) (ended chosen : list string) (now : Z)
    : tx nat :=
  rows ← tx_invs;
  ts ← tx_tables;
  require_true (legal_choice (browser_ended ownerFilter ts) rows ended) "not a choice";;
  for_each ended (end_one now);;
  rows ← tx_invs;
  require_true (legal_choice (lease_expired ownerFilter now) rows chosen) "not a choice";;
  for_each (selected rows chosen) (recover_one now);;
  mret (length chosen).

Definition timing_interrupted (now : Z) (_ : string) (r : Invocation) : bool :=
  bool_decide (is_Some (i_workStartedAt r)) &&
  (bool_decide (i_status r <> InvRunning) ||
   match i_leaseExpiresAt r with Some t => t <=? now | None => true end).

Definition invalidateInterruptedTiming (now : Z) : tx unit :=
  rows ← tx_invs;
  put_invs (update_where (timing_interrupted now) invalidate_row rows).

(** ** Claiming

    The statements of [claim]; between two of them other transactions commit. *)

Definition question_answered (ts : tables) (r : Invocation) (a : ActionRow) : bool :=
  match evidence_text "question_request_id" (a_evidence a) ≫= (questions ts !!.) with
  | Some q => bool_decide (q_status q = "answered") && bool_decide (q_turnId q = i_turnId r) &&
      bool_decide (q_threadId q = i_threadId r) &&
      bool_decide (q_createdByUserId q = Some (i_createdByUserId r))
  | None => false
  end.

Definition proposal_decided (member tool : string) (m : gmap string ProposalRow) (id : string)
    (r : Invocation) (a : ActionRow) : bool :=
  match evidence_text member (a_evidence a) ≫= (m !!.) with
  | Some p => bool_decide (a_kind a = tool) && bool_decide (p_status p <> "pending") &&
      bool_decide (p_invocationId p = id) && bool_decide (p_callId p = a_callId a) &&
      bool_decide (p_threadId p = i_threadId r) &&
      bool_decide (p_createdByUserId p = i_createdByUserId r)
  | None => false
  end.

Definition browser_returned (ts : tables) (id : string) (r : Invocation) (a : ActionRow) : bool :=
  match evidence_text "browser_handoff_id" (a_evidence a) ≫= (handoffs ts !!.) with
  | Some h =>
      match sessions ts !! h_sessionId h, session_resource (h_sessionId h) ts with
      | Some s, Some b =>
          bool_decide (s_createdByUserId s = h_createdByUserId h) &&
          bool_decide (r_createdByUserId b = h_createdByUserId h) &&
          bool_decide (h_status h = "returned") && bool_decide (r_controlState b = "agent") &&
          negb (r_privateContent b) && bool_decide (r_retiredAt b = None) &&
          bool_decide (r_desiredState b = "open") && bool_decide (s_closedAt s = None) &&
          bool_decide (h_invocationId h = Some id) &&
          bool_decide (h_createdByUserId h = i_createdByUserId r)
      | _, _ => false
      end
  | None => false
  end.

Definition user_wait_over (ts : tables) (id : string) (r : Invocation) : bool :=
  waiting_actions id (fun a => question_answered ts r a ||
    proposal_decided "data_access_request_id" APP_KEY_REQUEST_TOOL (dataRequests ts) id r a ||
    proposal_decided "automation_proposal_id" AUTOMATION_PROPOSAL_TOOL (automationProposals ts) id r a ||
    proposal_decided "bootstrap_proposal_id" BOOTSTRAP_PROPOSAL_TOOL (bootstrapProposals ts) id r a ||
    browser_returned ts id r a) ts.

(** An automation that holds the reservation of its thread on this Bud. *)
Definition uses_capacity (budId : string) (r : Invocation) : bool :=
  bool_decide (i_budId r = budId) && bool_decide (i_origin r = Automation) && i_reservesThread r.

Definition capacity_used (budId : string) (rows : gmap string Invocation) : Z :=
  zlen (rows_where (fun _ => uses_capacity budId) rows).

Definition reserved_by_other (id threadId : string) (rows : gmap string Invocation) : bool :=
  some_row (fun id' r => bool_decide (id' <> id) && bool_decide (i_threadId r = threadId) &&
    i_reservesThread r) rows.

Definition claimable (ownerFilter : option string) (now : Z) (rows : gmap string Invocation)
    (ts : tables) (id : string) (r : Invocation) : bool :=
  (bool_decide (i_status r ∈ QUEUED) ||
   (bool_decide (i_status r = InvWaitingForUser) && user_wait_over ts id r)) &&
  (i_nextAttemptAt r <=? now) && bool_decide (i_cancelRequestedAt r = None) &&
  match threads ts !! i_threadId r, buds ts !! i_budId r with
  | Some th, Some b => bool_decide (th_deletedAt th = None) &&
      bool_decide (th_createdByUserId th = Some (i_createdByUserId r)) &&
      bool_decide (b = Some (i_createdByUserId r))
  | _, _ => false
  end &&
  owned_by_filter ownerFilter r &&
  (bool_decide (i_origin r = Human) || i_reservesThread r ||
   (capacity_used (i_budId r) rows <? automationConcurrencyPerBud)) &&
  negb (reserved_by_other id (i_threadId r) rows).

(** [order by]: people first, then the oldest, then the id. *)
Definition claim_before (a b : string * Invocation) : bool :=
  let rank := fun r : Invocation => match i_origin r with Human => 0 | Automation => 1 end in
  let created := fun r : Invocation => k_createdAt (i_key r) in
  if rank a.2 =? rank b.2 then
    if created a.2 =? created b.2 then str_lt a.1 b.1 else created a.2 <? created b.2
  else rank a.2 <? rank b.2.

Definition first_by {A} (before : A -> A -> bool) (l : list A) : option A :=
  foldr (fun x best => match best with
                       | Some y => if before y x then Some y else Some x
                       | None => Some x
                       end) None l.

(** Where a claim is: before its second select, before the check for other
    reservations, before the expiry, before the advisory lock, before the count
    of the capacity, before the lease.  [cur] is the row as it was selected. *)
Inductive claim_pc :=
  | AtRead
  | AtActive (cur : Invocation) (expired : bool)
  | AtExpire (cur : Invocation)
  | AtLock (cur : Invocation)
  | AtCount (cur : Invocation)
  | AtLease (cur : Invocation).

(** A claim under way holds the lock of its thread and, from [AtCount] on, the
    advisory lock [c_lock]. *)
Record claiming := mkClaiming {
  c_workerId : string;
  c_id : string;
  c_threadId : string;
  c_lock : option Z;
  c_pc : claim_pc
}.

Definition locked_thread (threadId : string) (cs : list claiming) : bool :=
  existsb (fun c => bool_decide (c_threadId c = threadId)) cs.
Definition locked_key (key : Z) (cs : list claiming) : bool :=
  existsb (fun c => bool_decide (c_lock c = Some key)) cs.

(** [for update of thread skip locked limit 1]. *)
Definition claim_candidate (workerId : string) (ownerFilter : option string) (now : Z)
    (rows : gmap string Invocation) (ts : tables) (others : list claiming) : option claiming :=
  c ← first_by claim_before (rows_where (fun id r => claimable ownerFilter now rows ts id r &&
         negb (locked_thread (i_threadId r) others)) rows);
  mret (mkClaiming workerId c.1 (i_threadId c.2) None AtRead).

Definition bud_lock (budId : string) : Z := lock_hash ("bud-automation-cap:" +:+ budId).

Definition claim_actions (id : string) (fence : Z) (ts : tables) : tables :=
  set_actions (update_where (fun _ a => bool_decide (a_invocationId a = id) &&
      bool_decide (a_status a = "waiting_for_user"))
    (fun a => mkAction (a_invocationId a) (a_callId a) fence (a_kind a) (a_status a) (a_evidence a)
                (a_createdByUserId a) (a_completedAt a)) (actions ts)) ts.

Definition lease_claim (workerId id : string) (now : Z) : tx (option Invocation) :=
  leased ← update_inv id (lease_row workerId now);
  match leased with
  | Some r =>
      recordInvocationChange id;;
      modify_tables (claim_actions id (i_fence r));;
      mret (Some r)
  | None => mret None
  end.

(** The next statement of [claim]: it goes on, or the transaction commits with
    its result (and the writes of [CommitTx]). *)
Inductive claim_next :=
  | Continue (c : claiming)
  | CommitTx (writes : tx (option Invocation)).

Definition after_active (c : claiming) (cur : Invocation) : claiming :=
  mkClaiming (c_workerId c) (c_id c) (c_threadId c) (c_lock c)
    (if bool_decide (i_origin cur = Automation) && negb (i_reservesThread cur) then AtLock cur
     else AtLease cur).

Definition at_pc (c : claiming) (lock : option Z) (pc : claim_pc) : claiming :=
  mkClaiming (c_workerId c) (c_id c) (c_threadId c) lock pc.

Definition claim_step (c : claiming) (others : list claiming) (now : Z) (rows : gmap string Invocation)
    (ts : tables) : claim_next :=
  match c_pc c with
  | AtRead =>
      match rows !! c_id c with
      | Some cur =>
          if bool_decide (i_cancelRequestedAt cur = None) &&
             bool_decide (i_status cur ∈ InvWaitingForUser :: QUEUED)
          then Continue (at_pc c None (AtActive cur (start_elapsed (c_id c) now ts cur)))
          else CommitTx (mret None)
      | None => CommitTx (mret None)
      end
  | AtActive cur expired =>
      if reserved_by_other (c_id c) (i_threadId cur) rows then CommitTx (mret None)
      else if expired && bool_decide (i_status cur <> InvWaitingForUser)
      then Continue (at_pc c None (AtExpire cur))
      else Continue (after_active c cur)
  | AtExpire _ => CommitTx (expire_one now (c_id c);; mret None)
  | AtLock cur =>
      if locked_key (bud_lock (i_budId cur)) others then CommitTx (mret None)
      else Continue (at_pc c (Some (bud_lock (i_budId cur))) (AtCount cur))
  | AtCount cur =>
      if capacity_used (i_budId cur) rows <? automationConcurrencyPerBud
      then Continue (at_pc c (c_lock c) (AtLease cur))
      else CommitTx (mret None)
  | AtLease _ => CommitTx (lease_claim (c_workerId c) (c_id c) now)
  end.
(** [claim] when nothing comes in between: at most six statements. *)
Fixpoint run_claim (fuel : nat) (c : claiming) (others : list claiming) (now : Z)
    : tx (option Invocation) :=
  match fuel with
  | O => throw "out of fuel"
  | S fuel =>
      rows ← tx_invs;
      ts ← tx_tables;
      match claim_step c others now rows ts with
      | Continue c => run_claim fuel c others now
      | CommitTx writes => writes
      end
  end.

Definition claim (workerId : string) (ownerFilter : option string) (others : list claiming)
    (now : Z) : tx (option Invocation) :=
  require_true (str_truthy workerId) "worker_required";;
  rows ← tx_invs;
  ts ← tx_tables;
  match claim_candidate workerId ownerFilter now rows ts others with
  | Some c => run_claim 6 c others now
  | None => mret None
  end.

(** ** The system

    The calls that run as one transaction, with the ids and the times they draw. *)

Inductive call :=
  | Admit (input : InvocationAdmission) (ids : admission_ids) (date : Z)
  | Heartbeat (lease : InvocationLease)
  | Start (lease : InvocationLease)
  | Defer (lease : InvocationLease) (status : InvocationStatus) (delaySeconds : Z)
  | RecordAction (lease : InvocationLease) (callId kind ulid : string)
  | CompleteAction (lease : InvocationLease) (callId : string) (evidence : jsonb)
  | Finish (lease : InvocationLease) (status : InvocationStatus) (outcomeCode : string)
  | RequestCancel (owner invocationId : string) (date : Z)
  | ParkBrowserHandoff (lease : InvocationLease) (callId handoffId : string)
  | ParkUserBrowserHandoff (lease : InvocationLease) (nextCall : option (string * string))
      (ulid : string)
  | ParkQuestion (lease : InvocationLease) (callId questionRequestId : string)
  | ParkAppDataRequest (lease : InvocationLease) (callId clientId : string)
      (request : gmap string Invocation -> tables -> res (string * tables))
  | ParkAutomationProposal (lease : InvocationLease) (callId clientId : string)
      (request : gmap string Invocation -> tables -> res (string * tables))
  | ParkBootstrapProposal (lease : InvocationLease) (callId clientId : string)
      (admitted : res unit)
      (request : gmap string Invocation -> tables -> res (option string * tables))
  | ParkReturnControl (lease : InvocationLease)
      (turnId threadId budId callId clientId sessionId handoffId : string)
      (paused sessionOpen : bool)
  | AbandonReviewed (owner threadId invocationId expectedUpdatedAt ulid callUlid : string)
  | ExpireQueued (ownerFilter : option string) (chosen : list string)
  | RecoverExpired (ownerFilter : option string) (ended chosen : list string)
  | InvalidateInterruptedTiming.

Definition call_tx (op : call) (now : Z) : tx unit :=
  match op with
  | Admit input ids date => admitInTransaction input ids date now;; mret tt
  | Heartbeat lease => heartbeat lease now
  | Start lease => start lease now
  | Defer lease status delaySeconds => defer lease status delaySeconds now
  | RecordAction lease callId kind ulid => recordAction lease callId kind ulid now
  | CompleteAction lease callId evidence => completeAction lease callId evidence now
  | Finish lease status outcomeCode => finish lease status outcomeCode now
  | RequestCancel owner id date => requestCancelInTransaction owner id date now;; mret tt
  | ParkBrowserHandoff lease callId hid => parkBrowserHandoff lease callId hid now
  | ParkUserBrowserHandoff lease next ulid => parkUserBrowserHandoff lease next ulid now;; mret tt
  | ParkQuestion lease callId qid => parkQuestion lease callId qid now
  | ParkAppDataRequest lease callId clientId request =>
      parkAppDataRequest lease callId clientId request now;; mret tt
  | ParkAutomationProposal lease callId clientId request =>
      parkAutomationProposal lease callId clientId request now;; mret tt
  | ParkBootstrapProposal lease callId clientId admitted request =>
      parkBootstrapProposal lease callId clientId admitted request now;; mret tt
  | ParkReturnControl lease turn th bud callId clientId sid hid paused sessionOpen =>
      parkReturnControl lease turn th bud callId clientId sid hid paused sessionOpen now
  | AbandonReviewed owner th id expected ulid callUlid =>
      abandonReviewed owner th id expected ulid callUlid now
  | ExpireQueued ownerFilter chosen => expireQueued ownerFilter chosen now;; mret tt
  | RecoverExpired ownerFilter ended chosen => recoverExpired ownerFilter ended chosen now;; mret tt
  | InvalidateInterruptedTiming => invalidateInterruptedTiming now
  end.

(** The lease that a call presents. *)
Definition call_lease (op : call) : option InvocationLease :=
  match op with
  | Heartbeat l | Start l | Defer l _ _ | RecordAction l _ _ _ | CompleteAction l _ _
  | Finish l _ _ | ParkBrowserHandoff l _ _ | ParkUserBrowserHandoff l _ _ | ParkQuestion l _ _
  | ParkAppDataRequest l _ _ _ | ParkAutomationProposal l _ _ _
  | ParkBootstrapProposal l _ _ _ _ | ParkReturnControl l _ _ _ _ _ _ _ _ _ => Some l
  | _ => None
  end.

(** The thread row that a call locks. *)
Definition call_thread (op : call) : option string :=
  match op with
  | Admit input _ _ => Some (ad_threadId input)
  | ParkReturnControl _ _ th _ _ _ _ _ _ _ => Some th
  | AbandonReviewed _ th _ _ _ _ => Some th
  | _ => None
  end.

(** The argument types of [defer] and [finish]. *)
Definition typed_call (op : call) : bool :=
  match op with
  | Defer _ status _ => bool_decide (status ∈ [InvWaitingForBud; InvWaitingForModel; InvRetryWait])
  | Finish _ status _ => bool_decide (status ∈ [InvSucceeded; InvFailed; InvNeedsReview])
  | _ => true
  end.

Record system := mkSystem {
  y_invs : gmap string Invocation;
  y_tables : tables;
  y_now : Z;
  y_claims : list claiming
}.

(** One transaction commits, a claim begins or makes a statement, the rest of the
    service changes the other tables, or time passes. *)
Inductive inv_step (s : system) : system -> Prop :=
  | step_call op rows ts pub :
      typed_call op = true ->
      match call_thread op with Some th => locked_thread th (y_claims s) = false | None => True end ->
      invocationTimingTransaction (call_tx op (y_now s)) (y_invs s) (y_tables s)
        = Ok (tt, rows, ts, pub) ->
      inv_step s (mkSystem rows ts (y_now s) (y_claims s))
  | step_begin workerId ownerFilter c :
      str_truthy workerId = true ->
      claim_candidate workerId ownerFilter (y_now s) (y_invs s) (y_tables s) (y_claims s) = Some c ->
      inv_step s (mkSystem (y_invs s) (y_tables s) (y_now s) (y_claims s ++ [c]))
  | step_continue before c after c' :
      y_claims s = before ++ c :: after ->
      claim_step c (before ++ after) (y_now s) (y_invs s) (y_tables s) = Continue c' ->
      inv_step s (mkSystem (y_invs s) (y_tables s) (y_now s) (before ++ c' :: after))
  | step_commit before c after writes leased rows ts pub :
      y_claims s = before ++ c :: after ->
      claim_step c (before ++ after) (y_now s) (y_invs s) (y_tables s) = CommitTx writes ->
      invocationTimingTransaction writes (y_invs s) (y_tables s) = Ok (leased, rows, ts, pub) ->
      inv_step s (mkSystem rows ts (y_now s) (before ++ after))
  | step_rollback before c after :
      y_claims s = before ++ c :: after ->
      inv_step s (mkSystem (y_invs s) (y_tables s) (y_now s) (before ++ after))
  | step_tables ts : inv_step s (mkSystem (y_invs s) ts (y_now s) (y_claims s))
  | step_time now : y_now s <= now -> inv_step s (mkSystem (y_invs s) (y_tables s) now (y_claims s)).

End repository.
