(* ===== verification/InvocationProps.v ===== *)
(** What every transaction of the invocation repository does to the table of
    invocations, as a relation on rows: [change] for the transactions that lock
    their rows. *)
From Stdlib Require Import ZArith Lia.
From stdpp Require Import base tactics strings gmap sorting option pretty relations.
From stdpp Require Import list.
From S2P Require Import Prelude JsRuntime Invocation.
Open Scope Z_scope.

(** ** Rows *)

Definition live (r : Invocation) : Prop := i_status r ∈ LIVE.

(** The columns of a row fit together: a lease, with a worker that has a name, exactly
    while leased or running, and then the thread is reserved; the work clock runs only
    while running; no negative duration; every attempt took a new fence. *)
Definition row_ok (r : Invocation) : Prop :=
  (live r -> i_reservesThread r = true /\ ostr_truthy (i_workerId r) = true /\
     is_Some (i_leaseExpiresAt r)) /\
  (~ live r -> i_workerId r = None /\ i_leaseExpiresAt r = None) /\
  (is_Some (i_workStartedAt r) -> i_status r = InvRunning) /\
  (forall d, i_workDurationMs r = Some d -> 0 <= d) /\
  0 <= i_attempt r <= i_fence r.

(** What a statement may do to a row it found at time [now]: rows stay well
    formed, fences do not go back, no thread gets reserved, no lease comes to life,
    and a lease that has run out is not renewed. *)
Definition soft_change (now : Z) (r r' : Invocation) : Prop :=
  i_key r' = i_key r /\ i_fence r <= i_fence r' /\
  (i_reservesThread r' = true -> i_reservesThread r = true) /\
  row_ok r' /\
  (live r' -> live r /\ i_fence r' = i_fence r /\ i_workerId r' = i_workerId r /\
     (i_leaseExpiresAt r' = i_leaseExpiresAt r \/
      exists t, i_leaseExpiresAt r = Some t /\ now < t)).

(** The transactions that lock their rows also leave settled ones alone. *)
Definition change (now : Z) (r r' : Invocation) : Prop :=
  row_ok r ->
  soft_change now r r' /\ (i_status r ∈ TERMINAL -> i_status r' = i_status r).

(** A row that was not there before. *)
Definition new_row (r : Invocation) : Prop :=
  row_ok r /\ ~ live r /\ i_reservesThread r = false.

Definition rows_rel (R : Invocation -> Invocation -> Prop) (rows rows' : gmap string Invocation)
    : Prop :=
  forall id, match rows !! id, rows' !! id with
             | Some r, Some r' => R r r'
             | Some _, None => False
             | None, Some r' => new_row r'
             | None, None => True
             end.

#[export] Instance live_dec r : Decision (live r).
Proof. unfold live. apply _. Defined.

Lemma change_refl now r : change now r r.
Proof. intros O. split; [|done]. split_and!; auto; lia. Qed.

Lemma change_trans now r1 r2 r3 : change now r1 r2 -> change now r2 r3 -> change now r1 r3.
Proof.
  intros C1 C2 O1. destruct (C1 O1) as [(K1 & F1 & R1 & O2 & L1) T1].
  destruct (C2 O2) as [(K2 & F2 & R2 & O3 & L2) T2].
  split; [split_and!; [congruence|lia|auto|done|]|].
  - intros [Hl (E & W & X)]%L2. destruct (L1 Hl) as (Hl1 & E1 & W1 & X1).
    split_and!; [done|congruence|congruence|].
    destruct X as [->|(t & Ht & Hn)]; [done|].
    destruct X1 as [E2|?]; [|auto]. right. exists t. by rewrite <- E2.
  - intros Ht. rewrite T2; [auto|]. by rewrite (T1 Ht).
Qed.

Lemma new_row_change now r r' : new_row r -> change now r r' -> new_row r'.
Proof.
  intros (O & L & R) C. destruct (C O) as [(_ & _ & R' & O' & L') _].
  split_and!; [done|by intros [? _]%L'|].
  destruct (i_reservesThread r'); [|done]. rewrite R' in R by done. done.
Qed.

Lemma rows_rel_refl now rows : rows_rel (change now) rows rows.
Proof. intros id. destruct (rows !! id); [apply change_refl|done]. Qed.

Lemma rows_rel_trans now a b c :
  rows_rel (change now) a b -> rows_rel (change now) b c -> rows_rel (change now) a c.
Proof.
  intros H1 H2 id. specialize (H1 id). specialize (H2 id).
  destruct (a !! id), (b !! id), (c !! id); try done.
  - by eapply change_trans.
  - by eapply new_row_change.
Qed.

Lemma rows_rel_insert now id r r' (rows : gmap string Invocation) :
  rows !! id = Some r -> change now r r' -> rows_rel (change now) rows (<[id := r']> rows).
Proof.
  intros E C id'. destruct (decide (id' = id)) as [->|N].
  - by rewrite E, lookup_insert_eq.
  - rewrite lookup_insert_ne by done. destruct (rows !! id'); [apply change_refl|done].
Qed.

Lemma rows_rel_new now id r' (rows : gmap string Invocation) :
  rows !! id = None -> new_row r' -> rows_rel (change now) rows (<[id := r']> rows).
Proof.
  intros E C id'. destruct (decide (id' = id)) as [->|N].
  - by rewrite E, lookup_insert_eq.
  - rewrite lookup_insert_ne by done. destruct (rows !! id'); [apply change_refl|done].
Qed.

(** ** Each update of a row is a change *)

Lemma settled_nonneg now r : row_ok r -> forall d, settledWorkDuration now r = Some d -> 0 <= d.
Proof.
  intros (_ & _ & _ & D & _) d. unfold settledWorkDuration.
  destruct (i_workDurationMs r) as [d0|]; [|done]. specialize (D _ eq_refl).
  destruct (i_workStartedAt r); case_bool_decide; intros [= <-]; lia.
Qed.

(** The updates that end a lease. *)
Lemma released_change now r r' :
  i_key r' = i_key r -> i_fence r <= i_fence r' -> i_attempt r' = i_attempt r ->
  (row_ok r -> i_reservesThread r' = true -> i_reservesThread r = true) ->
  ~ live r' -> i_workerId r' = None -> i_leaseExpiresAt r' = None -> i_workStartedAt r' = None ->
  i_workDurationMs r' = None \/ i_workDurationMs r' = settledWorkDuration now r ->
  i_status r ∉ TERMINAL -> change now r r'.
Proof.
  intros K F A R L W X S D T O. pose proof (settled_nonneg now r O) as Hd.
  split; [split_and!|]; auto; [|done|done].
  destruct O as (_ & _ & _ & _ & HA). split; [done|]. split; [done|]. split; [|split].
  - rewrite S. by intros [].
  - intros d Ed. destruct D as [D|D]; rewrite D in Ed; [done|auto].
  - lia.
Qed.

(** The updates that leave status, fence, worker and reservation alone. *)
Lemma same_change now r r' :
  i_key r' = i_key r -> i_status r' = i_status r -> i_fence r' = i_fence r ->
  i_attempt r' = i_attempt r -> i_reservesThread r' = i_reservesThread r ->
  i_workerId r' = i_workerId r ->
  (i_leaseExpiresAt r' = i_leaseExpiresAt r \/
   (is_Some (i_leaseExpiresAt r') /\ exists t, i_leaseExpiresAt r = Some t /\ now < t)) ->
  (i_workDurationMs r' = None \/ i_workDurationMs r' = i_workDurationMs r) ->
  (i_workStartedAt r' = None \/ i_workStartedAt r' = i_workStartedAt r) ->
  change now r r'.
Proof.
  intros K S F A R W X D B O. unfold soft_change, live. split; [|auto].
  rewrite S, F, R, W. split_and!; auto; [lia| |].
  - destruct O as (O1 & O2 & O3 & O4 & O5). unfold row_ok, live. rewrite S, F, A, R, W.
    split; [|split; [|split; [|split]]]; [| | | |lia].
    + intros L. destruct (O1 L) as (? & ? & ?). split_and!; auto.
      destruct X as [->|[? _]]; auto.
    + intros L. destruct (O2 L) as [? E]. split; auto. destruct X as [->|(_ & t & E' & _)]; congruence.
    + destruct B as [->| ->]; [by intros []|auto].
    + destruct D as [->| ->]; [done|auto].
  - intros L. split_and!; auto. destruct X as [?|[_ ?]]; auto.
Qed.

Lemma live_not_terminal r : live r -> i_status r ∉ TERMINAL.
Proof. unfold live. intros H1 H2. set_unfold. naive_solver congruence. Qed.
Lemma queued_not_live r : i_status r ∈ QUEUED -> ~ live r.
Proof. unfold live. intros H1 H2. set_unfold. naive_solver congruence. Qed.

Lemma live_reserves r : row_ok r -> live r -> i_reservesThread r = true.
Proof. intros (O & _) L. by destruct (O L). Qed.

Ltac not_live := unfold live; cbn [i_status]; set_unfold; naive_solver congruence.

Lemma heartbeat_change now r t :
  i_leaseExpiresAt r = Some t -> now < t -> change now r (heartbeat_row now r).
Proof. intros E L. apply same_change; cbn; eauto 6. Qed.

Lemma start_change now r : i_status r = InvLeased -> change now r (start_row now r).
Proof.
  intros S O. split; [|intros T; rewrite S in T; set_unfold; naive_solver].
  assert (live r) as L by (unfold live; rewrite S; set_solver).
  assert (live (start_row now r)) as L' by (unfold live; cbn; set_solver).
  destruct O as (O1 & _ & _ & O4 & O5). destruct (O1 L) as (R & W & X).
  split_and!; cbn; auto; [lia|].
  split; [by intros _; cbn|]. split; [done|]. split; [done|]. split; [|done].
  cbn. unfold begunWorkDuration. intros d. destruct (i_workStartedAt r); [done|auto].
Qed.

Lemma expire_change now r : ~ live r -> i_status r ∉ TERMINAL -> change now r (expire_row now r).
Proof.
  intros L T O. pose proof (settled_nonneg now r O) as Hd. split; [|done].
  assert (~ live (expire_row now r)) as L' by not_live.
  destruct O as (_ & O2 & _ & _ & O5). split_and!; cbn; auto; try done; try lia.
  split; [done|]. split; [by intros _; apply O2|]. split; [by intros []|]. split; [exact Hd|done].
Qed.

Lemma defer_change now r status reserves delaySeconds :
  live r -> status ∉ LIVE -> change now r (defer_row status reserves delaySeconds now r).
Proof.
  intros L S. apply released_change; cbn; auto; try lia; try done.
  - intros O _. by apply live_reserves.
  - by apply live_not_terminal.
Qed.

Lemma park_change now r reserves : live r -> change now r (park_row reserves now r).
Proof.
  intros L. apply released_change; cbn; auto; try lia; try done.
  - intros O _. by apply live_reserves.
  - not_live.
  - by apply live_not_terminal.
Qed.

Lemma finish_change now r pending status outcomeCode :
  live r -> status ∈ [InvSucceeded; InvFailed; InvNeedsReview] ->
  change now r (finish_row pending status outcomeCode now r).
Proof.
  intros L S. apply released_change; cbn; auto; try lia.
  - intros O _. by apply live_reserves.
  - unfold live. cbn. case_bool_decide; [|destruct pending]; set_unfold; naive_solver congruence.
  - case_match; auto.
  - by apply live_not_terminal.
Qed.

Lemma recover_change now row r continuation browserWait :
  row = r -> live r -> change now r (recover_row continuation browserWait now row r).
Proof.
  intros -> L. apply released_change; cbn; auto; try lia.
  - intros O _. by apply live_reserves.
  - unfold live. cbn. repeat case_bool_decide; set_unfold; naive_solver congruence.
  - case_match; auto.
  - by apply live_not_terminal.
Qed.

Lemma ended_change now r :
  i_status r ∈ [InvWaitingForUser; InvWaitingForBud; InvWaitingForModel; InvRetryWait] ->
  change now r (ended_row now r).
Proof.
  intros S. apply released_change; cbn; auto; try lia; try done.
  - not_live.
  - set_unfold. naive_solver congruence.
Qed.

Lemma abandon_change now r owner :
  i_status r = InvNeedsReview -> change now r (abandon_row owner now r).
Proof.
  intros S. apply released_change; cbn; auto; try lia; try done.
  - not_live.
  - set_unfold. naive_solver congruence.
Qed.

Lemma cancel_change now r owner date :
  i_status r ∉ TERMINAL -> change now r (cancel_row owner date now r).
Proof.
  intros T. unfold cancel_row. case_bool_decide as S.
  - by apply same_change; cbn; auto.
  - apply released_change; cbn; auto; try lia; try done. not_live.
Qed.

Lemma supersede_change now r : change now r (supersede_row r).
Proof. by apply same_change; cbn; auto. Qed.

Lemma invalidate_change now r : change now r (invalidate_row r).
Proof. by apply same_change; cbn; auto. Qed.

(** ** Transactions

    [tx_ok now I m]: run on invocations of which [I] holds, [m] changes them as
    [change] allows. *)

Definition tx_ok {A} (now : Z) (I : gmap string Invocation -> Prop) (m : tx A) : Prop :=
  forall t a t', I (t_invs t) -> m t = Ok (a, t') -> rows_rel (change now) (t_invs t) (t_invs t').

(** [m] does not touch the invocations. *)
Definition keeps {A} (m : tx A) : Prop :=
  forall t a t', m t = Ok (a, t') -> t_invs t' = t_invs t.

Lemma bind_ok {A B} (m : tx A) (k : A -> tx B) t b t' :
  (m ≫= k) t = Ok (b, t') -> exists a t1, m t = Ok (a, t1) /\ k a t1 = Ok (b, t').
Proof.
  unfold mbind, tx_mbind. destruct (m t) as [[a t1]|] eqn:E; [|done]. eauto.
Qed.

Lemma keeps_ret {A} (a : A) : keeps (mret a).
Proof. by intros t a' t' [= -> ->]. Qed.
Lemma keeps_throw {A} e : keeps (@throw A e).
Proof. by intros t a t'. Qed.
Lemma keeps_bind {A B} (m : tx A) (k : A -> tx B) :
  keeps m -> (forall a, keeps (k a)) -> keeps (m ≫= k).
Proof.
  intros Hm Hk t b t' (a & t1 & E1 & E2)%bind_ok.
  rewrite (Hk _ _ _ _ E2). by apply (Hm _ _ _ E1).
Qed.
Lemma keeps_invs : keeps tx_invs.
Proof. by intros t a t' [= <- <-]. Qed.
Lemma keeps_tables : keeps tx_tables.
Proof. by intros t a t' [= <- <-]. Qed.
Lemma keeps_modify f : keeps (modify_tables f).
Proof. by intros t a t' [= <- <-]. Qed.
Lemma keeps_change id : keeps (recordInvocationChange id).
Proof. by intros t a t' [= <- <-]. Qed.
Lemma keeps_push id r : keeps (push_timed id r).
Proof. by intros t a t' [= <- <-]. Qed.
Lemma keeps_require c e : keeps (require_true c e).
Proof. unfold require_true. destruct c; [apply keeps_ret|apply keeps_throw]. Qed.
Lemma keeps_some {A} (o : option A) e : keeps (require_some o e).
Proof. destruct o; [apply keeps_ret|apply keeps_throw]. Qed.
Lemma keeps_lift {A} (r : res A) : keeps (lift r).
Proof. destruct r; [apply keeps_ret|apply keeps_throw]. Qed.
Lemma keeps_settled id r : keeps (recordSettledTiming id r).
Proof. apply keeps_bind; [apply keeps_push|intros []; apply keeps_change]. Qed.

Create HintDb keeps.
#[export] Hint Resolve keeps_ret keeps_throw keeps_invs keeps_tables keeps_modify keeps_change
  keeps_push keeps_require keeps_some keeps_lift keeps_settled : keeps.

(** Proves that a program of reads and of writes to other tables keeps the
    invocations. *)
Ltac keep :=
  repeat first
    [ progress (auto with keeps)
    | progress intros
    | match goal with
      | |- keeps (mbind _ _) => apply keeps_bind
      | |- keeps (match ?x with _ => _ end) => destruct x
      | |- keeps (if ?x then _ else _) => destruct x
      end ].

Section rules.
Context (now : Z).

Lemma ok_keeps {A} I (m : tx A) : keeps m -> tx_ok now I m.
Proof. intros K t a t' _ E. rewrite (K _ _ _ E). apply rows_rel_refl. Qed.

(** What comes first leaves the invocations alone. *)
Lemma ok_after {A B} I (m : tx A) (k : A -> tx B) :
  keeps m -> (forall a, tx_ok now I (k a)) -> tx_ok now I (m ≫= k).
Proof.
  intros K Hk t b t' HI (a & t1 & E1 & E2)%bind_ok.
  rewrite <- (K _ _ _ E1) in *. by eapply Hk.
Qed.

Lemma ok_bind {A B} I (m : tx A) (k : A -> tx B) :
  tx_ok now I m -> (forall a, tx_ok now (fun _ => True) (k a)) -> tx_ok now I (m ≫= k).
Proof.
  intros Hm Hk t b t' HI (a & t1 & E1 & E2)%bind_ok.
  eapply rows_rel_trans; [by eapply Hm|]. by eapply Hk.
Qed.

Lemma ok_invs {B} I (k : gmap string Invocation -> tx B) :
  (forall rows, tx_ok now (fun x => x = rows /\ I rows) (k rows)) -> tx_ok now I (tx_invs ≫= k).
Proof.
  intros Hk t b t' HI (a & t1 & [= <- <-] & E2)%bind_ok. by eapply Hk.
Qed.

Lemma ok_require {B} I c e (k : unit -> tx B) :
  (c = true -> tx_ok now I (k tt)) -> tx_ok now I (require_true c e ≫= k).
Proof.
  intros Hk t b t' HI (a & t1 & E1 & E2)%bind_ok. unfold require_true in E1.
  destruct c; [|done]. injection E1 as [= <- <-]. by eapply Hk.
Qed.

Lemma ok_some {A B} I (o : option A) e (k : A -> tx B) :
  (forall a, o = Some a -> tx_ok now I (k a)) -> tx_ok now I (require_some o e ≫= k).
Proof.
  intros Hk t b t' HI (a & t1 & E1 & E2)%bind_ok. unfold require_some in E1.
  destruct o; [|done]. injection E1 as [= <- <-]. by eapply Hk.
Qed.

Lemma ok_update I id f :
  (forall rows r, I rows -> rows !! id = Some r -> change now r (f r)) ->
  tx_ok now I (update_inv id f).
Proof.
  intros Hf t b t' HI (rows & t1 & [= <- <-] & E2)%bind_ok.
  destruct (t_invs t !! id) as [r|] eqn:E.
  - injection E2 as [= <- <-]. cbn. eapply rows_rel_insert; eauto.
  - injection E2 as [= <- <-]. apply rows_rel_refl.
Qed.

Lemma ok_weaken {A} (I J : gmap string Invocation -> Prop) (m : tx A) :
  (forall rows, J rows -> I rows) -> tx_ok now I m -> tx_ok now J m.
Proof. intros HJ Hm t a t' HI E. eapply Hm; eauto. Qed.
End rules.

Section operations.
Context `{InvocationEnv} (now : Z).

(** The lease holds: the row has its fence and its worker, is leased or running,
    and the lease has not run out. *)
Lemma lockedLease_ok lease statuses allow t row t' :
  lockedLease lease statuses allow now t = Ok (row, t') ->
  t' = t /\ t_invs t !! l_id lease = Some row /\ lease_matches lease now row = true /\
  i_status row ∈ statuses.
Proof.
  intros (rows & t1 & [= <- <-] & E)%bind_ok.
  apply bind_ok in E as (r & t2 & E1 & E).
  destruct (t_invs t !! l_id lease) as [r0|] eqn:Er; [|done].
  cbn [mbind option_bind require_some] in E1.
  destruct (lease_matches lease now r0) eqn:EM; [|done].
  cbn [andb] in E1. destruct (bool_decide (i_status r0 ∈ statuses)) eqn:ES; [|done].
  apply bool_decide_eq_true in ES. injection E1 as [= <- <-].
  apply bind_ok in E as (u & t3 & E2 & E). unfold require_true in E2.
  destruct (bool_decide _ || _); [|done]. injection E2 as [= <- <-].
  apply bind_ok in E as (ts & t4 & [= <- <-] & E).
  apply bind_ok in E as (u' & t5 & E3 & [= <- <-]). unfold require_true in E3.
  destruct (bool_decide _); [|done]. by injection E3 as [= <- <-].
Qed.

Lemma keeps_lease lease statuses allow : keeps (lockedLease lease statuses allow now).
Proof. by intros t a t' (-> & _)%lockedLease_ok. Qed.

Lemma ok_lease {B} I lease statuses allow (k : Invocation -> tx B) :
  (forall row, lease_matches lease now row = true -> i_status row ∈ statuses ->
     tx_ok now (fun rows => rows !! l_id lease = Some row /\ I rows) (k row)) ->
  tx_ok now I (lockedLease lease statuses allow now ≫= k).
Proof.
  intros Hk t b t' HI (row & t1 & E1 & E2)%bind_ok.
  apply lockedLease_ok in E1 as (-> & Er & EM & ES). eapply Hk; eauto.
Qed.

(** Under a lease, one update and nothing else. *)
Lemma ok_leased_update {I} lease row f (k : option Invocation -> tx unit) :
  change now row (f row) -> (forall a, keeps (k a)) ->
  tx_ok now (fun rows => rows !! l_id lease = Some row /\ I rows)
    (update_inv (l_id lease) f ≫= k).
Proof.
  intros C K. apply ok_bind; [|intros; by apply ok_keeps].
  apply ok_update. intros rows r [E _] E'. by simplify_eq.
Qed.

Lemma lease_matches_live lease r :
  lease_matches lease now r = true -> exists t, i_leaseExpiresAt r = Some t /\ now < t.
Proof.
  unfold lease_matches. intros [_ E]%andb_prop.
  destruct (i_leaseExpiresAt r); [|done]. exists z. split; [done|lia].
Qed.

Lemma ok_heartbeat lease : tx_ok now (fun _ => True) (heartbeat lease now).
Proof.
  apply ok_lease. intros row (t & E & L)%lease_matches_live _.
  apply ok_leased_update; [by eapply heartbeat_change|keep].
Qed.

Lemma keeps_update_message id owner f : keeps (update_message id owner f).
Proof. apply keeps_modify. Qed.
Lemma keeps_start_automation id row : keeps (start_automation id row).
Proof. unfold start_automation. pose proof keeps_update_message. keep. Qed.

Lemma ok_start lease : tx_ok now (fun _ => True) (start lease now).
Proof.
  apply ok_after; [keep|intros _]. apply ok_lease. intros row _ S.
  apply ok_after; [destruct (i_origin row); [keep|apply keeps_start_automation]|intros _].
  apply ok_after; [keep|intros ts]. apply ok_after; [keep|intros rows].
  apply ok_after; [keep|intros _]. apply ok_after; [keep|intros at_].
  apply ok_after; [apply keeps_update_message|intros _].
  apply ok_leased_update; [apply start_change; set_solver|keep].
Qed.

Lemma ok_defer lease status delaySeconds :
  status ∈ [InvWaitingForBud; InvWaitingForModel; InvRetryWait] ->
  tx_ok now (fun _ => True) (defer lease status delaySeconds now).
Proof.
  intros Hs. apply ok_after; [keep|intros _]. apply ok_after; [keep|intros _].
  apply ok_lease. intros row _ S. apply ok_after; [keep|intros ts].
  apply ok_leased_update; [|keep]. apply defer_change; unfold live; set_unfold; naive_solver congruence.
Qed.

Lemma keeps_insert_action id a e : keeps (insert_action id a e).
Proof. unfold insert_action. keep. Qed.
Lemma keeps_update_actions P f e : keeps (update_actions P f e).
Proof. unfold update_actions. keep. Qed.
Hint Resolve keeps_lease keeps_insert_action keeps_update_actions keeps_update_message : keeps.

Lemma keeps_recordAction lease callId kind ulid : keeps (recordAction lease callId kind ulid now).
Proof. unfold recordAction. keep. Qed.
Lemma keeps_completeAction lease callId evidence : keeps (completeAction lease callId evidence now).
Proof. unfold completeAction. keep. Qed.

Lemma ok_finish lease status outcomeCode :
  status ∈ [InvSucceeded; InvFailed; InvNeedsReview] ->
  tx_ok now (fun _ => True) (finish lease status outcomeCode now).
Proof.
  intros Hs. apply ok_lease. intros row _ S. apply ok_after; [keep|intros ts].
  apply ok_after; [keep|intros _].
  apply ok_leased_update; [by apply finish_change|keep].
Qed.

(** The parking operations end with [park_row] of the running invocation. *)
Lemma ok_park {B} I lease reserves row (k : option Invocation -> tx B) :
  i_status row ∈ [InvRunning] -> (forall a, keeps (k a)) ->
  tx_ok now (fun rows => rows !! l_id lease = Some row /\ I rows)
    (update_inv (l_id lease) (park_row reserves now) ≫= k).
Proof.
  intros S K. apply ok_bind; [|intros; by apply ok_keeps].
  apply ok_update. intros rows r [E _] E'. simplify_eq. apply park_change. unfold live. set_solver.
Qed.

Ltac steps := repeat (apply ok_after; [solve [keep]|intros ?]).

Lemma ok_parkBrowserHandoff lease callId hid :
  tx_ok now (fun _ => True) (parkBrowserHandoff lease callId hid now).
Proof.
  apply ok_after; [keep|intros _]. apply ok_lease. intros row _ S. steps.
  apply ok_park; [done|keep].
Qed.

Lemma ok_parkUserBrowserHandoff lease next ulid :
  tx_ok now (fun _ => True) (parkUserBrowserHandoff lease next ulid now).
Proof.
  apply ok_lease. intros row _ S. apply ok_after; [keep|intros ts].
  destruct (find_row _ _) as [[hid h]|]; [|apply ok_keeps; keep].
  steps. apply ok_park; [done|keep].
Qed.

Lemma ok_parkQuestion lease callId qid :
  tx_ok now (fun _ => True) (parkQuestion lease callId qid now).
Proof.
  apply ok_after; [keep|intros _]. apply ok_lease. intros row _ S. steps.
  apply ok_park; [done|keep].
Qed.

Lemma ok_parkAppDataRequest lease callId clientId request :
  tx_ok now (fun _ => True) (parkAppDataRequest lease callId clientId request now).
Proof.
  do 6 (apply ok_after; [keep|intros ?]). apply ok_lease. intros row _ S. steps.
  apply ok_park; [done|keep].
Qed.

Lemma ok_parkAutomationProposal lease callId clientId request :
  tx_ok now (fun _ => True) (parkAutomationProposal lease callId clientId request now).
Proof.
  do 6 (apply ok_after; [keep|intros ?]). apply ok_lease. intros row _ S. steps.
  apply ok_park; [done|keep].
Qed.

Lemma ok_parkBootstrapProposal lease callId clientId admitted request :
  tx_ok now (fun _ => True) (parkBootstrapProposal lease callId clientId admitted request now).
Proof.
  do 7 (apply ok_after; [keep|intros ?]). case_match; [|apply ok_keeps; keep].
  apply ok_after; [keep|intros ?]. apply ok_lease. intros row _ S. steps.
  apply ok_park; [done|keep].
Qed.

Lemma ok_parkReturnControl lease turn th bud callId clientId sid hid paused sessionOpen :
  tx_ok now (fun _ => True)
    (parkReturnControl lease turn th bud callId clientId sid hid paused sessionOpen now).
Proof.
  apply ok_invs. intros rows. apply ok_after; [keep|intros ts]. apply ok_require. intros E.
  steps. unfold dispatch_authority in E. destruct (rows !! l_id lease) as [row|] eqn:Er; [|done].
  eapply (ok_weaken now (fun x => x !! l_id lease = Some row /\ True));
    [by intros x [-> _]|].
  apply ok_park; [|keep]. repeat (apply andb_prop in E as [E ?]).
  match goal with X : bool_decide (i_status row = InvRunning) = true |- _ =>
    apply bool_decide_eq_true in X as -> end. set_solver.
Qed.

(** *** Decisions of the owner *)

Lemma ok_requestCancel owner id date :
  tx_ok now (fun _ => True) (requestCancelInTransaction owner id date now).
Proof.
  apply ok_invs. intros rows. apply ok_some. intros row Er.
  destruct (rows !! id) as [r|] eqn:E; [|done]. cbn in Er. case_bool_decide; simplify_eq.
  case_bool_decide as T; [apply ok_keeps; keep|]. apply ok_after; [keep|intros _].
  apply ok_bind; [|intros; apply ok_keeps; keep].
  apply ok_update. intros x r [-> _] E'. simplify_eq. by apply cancel_change.
Qed.

Lemma ok_abandonReviewed owner th id expected ulid callUlid :
  tx_ok now (fun _ => True) (abandonReviewed owner th id expected ulid callUlid now).
Proof.
  apply ok_invs. intros rows. apply ok_after; [keep|intros ts]. apply ok_some. intros row Er.
  destruct (rows !! id) as [r|] eqn:E; [|done]. cbn in Er. case_match; simplify_eq.
  case_match; [apply ok_keeps; keep|]. apply ok_require. intros [S _]%andb_prop.
  apply bool_decide_eq_true in S. steps.
  apply ok_bind; [|intros; apply ok_keeps; keep].
  apply ok_update. intros x r [-> _] E'. simplify_eq. by apply abandon_change.
Qed.

Lemma ok_for_each {A} (body : A -> tx unit) xs :
  (forall x, tx_ok now (fun _ => True) (body x)) -> tx_ok now (fun _ => True) (for_each xs body).
Proof.
  intros Hb. induction xs as [|x xs IH]; cbn [for_each]; [apply ok_keeps, keeps_ret|].
  by apply ok_bind.
Qed.

Lemma ok_supersede owner date id : tx_ok now (fun _ => True) (supersede owner date now id).
Proof.
  apply ok_bind; [apply ok_requestCancel|intros _].
  apply ok_bind; [|intros; apply ok_keeps; keep].
  apply ok_update. intros. apply supersede_change.
Qed.

Lemma admitted_new input ids th : new_row (admitted_row input ids th now).
Proof.
  assert (~ live (admitted_row input ids th now)) as L by not_live. split_and!; [|done|done].
  split; [done|]. split; [done|]. split; [by intros []|]. split; [|cbn; lia].
  cbn. intros d [= <-]. done.
Qed.

Lemma ok_insert_inv I id r : new_row r -> tx_ok now I (insert_inv id r).
Proof.
  intros N. apply ok_invs. intros rows. apply ok_require. intros [E _]%andb_prop.
  apply bool_decide_eq_true in E. intros t a t' [<- _] [= <- <-]. by apply rows_rel_new.
Qed.

Lemma ok_admit input ids date : tx_ok now (fun _ => True) (admitInTransaction input ids date now).
Proof.
  do 4 (apply ok_after; [keep|intros ?]). destruct (find_row _ _) as [[id existing]|]; [apply ok_keeps; keep|].
  apply ok_bind.
  { destruct (ad_origin input); [|apply ok_keeps; keep].
    apply ok_for_each. intros id. apply ok_supersede. }
  intros _. apply ok_after; [unfold insert_message; keep|intros _].
  apply ok_bind; [apply ok_insert_inv, admitted_new|]. intros. apply ok_keeps. keep.
Qed.

(** *** Maintenance *)

(** A loop over different rows, each found as the loop found it at its start. *)
Lemma ok_for_each_rows {A} (key : A -> string) (P : A -> Invocation -> Prop) (body : A -> tx unit) xs :
  (forall x t a t' id, body x t = Ok (a, t') -> id <> key x -> t_invs t' !! id = t_invs t !! id) ->
  (forall x, tx_ok now (fun rows => exists r, rows !! key x = Some r /\ P x r) (body x)) ->
  NoDup (key <$> xs) ->
  tx_ok now (fun rows => Forall (fun x => exists r, rows !! key x = Some r /\ P x r) xs)
    (for_each xs body).
Proof.
  intros Ho Hb. induction xs as [|x xs IH]; cbn [for_each fmap list_fmap];
    [intros _; apply ok_keeps, keeps_ret|].
  intros [Hx ND]%NoDup_cons t b t' [Hr Hrs]%Forall_cons (u & t1 & E1 & E2)%bind_ok.
  eapply rows_rel_trans; [by eapply Hb|]. eapply IH; [done| |done].
  apply Forall_forall. intros y Hy. rewrite Forall_forall in Hrs.
  rewrite (Ho _ _ _ _ _ E1); [by apply Hrs|]. intros Ek. apply Hx. rewrite <- Ek.
  by apply list_elem_of_fmap_2.
Qed.

(** The body of such a loop: writes to other tables, one update, its timing. *)
Lemma settle_other {A} (pre : tx A) id f t u t' id' :
  keeps pre ->
  (pre ≫= fun _ => update_inv id f ≫= fun timed =>
     require_some timed "TypeError" ≫= recordSettledTiming id) t = Ok (u, t') ->
  id' <> id -> t_invs t' !! id' = t_invs t !! id'.
Proof.
  intros K (a & t1 & E1 & E)%bind_ok N. rewrite <- (K _ _ _ E1).
  apply bind_ok in E as (o & t2 & E2 & E3).
  rewrite (keeps_bind (require_some o "TypeError") (recordSettledTiming id)
             ltac:(keep) ltac:(keep) _ _ _ E3).
  apply bind_ok in E2 as (rows & t3 & [= <- <-] & E4).
  destruct (t_invs t1 !! id); injection E4 as [= <- <-]; [|done].
  cbn. by rewrite lookup_insert_ne.
Qed.

Lemma ok_settle {A} I (pre : tx A) id f :
  keeps pre -> (forall rows r, I rows -> rows !! id = Some r -> change now r (f r)) ->
  tx_ok now I (pre ≫= fun _ => update_inv id f ≫= fun timed =>
     require_some timed "TypeError" ≫= recordSettledTiming id).
Proof.
  intros K C. apply ok_after; [done|intros _].
  apply ok_bind; [by apply ok_update|intros; apply ok_keeps; keep].
Qed.

Lemma legal_choice_spec P rows chosen :
  legal_choice P rows chosen = true ->
  NoDup chosen /\ Forall (fun id => exists r, rows !! id = Some r /\ P id r = true) chosen.
Proof.
  unfold legal_choice. intros [[ND _]%andb_prop F]%andb_prop.
  apply bool_decide_eq_true in ND. split; [done|].
  rewrite forallb_forall in F. apply Forall_forall. intros id Hid%list_elem_of_In%F.
  destruct (rows !! id); [eauto|done].
Qed.

Definition expire_settle (id : string) : tx unit :=
  mret tt ≫= fun _ => update_inv id (expire_row now) ≫= fun timed =>
    require_some timed "TypeError" ≫= recordSettledTiming id.

Lemma queued_expires r : i_status r ∈ QUEUED -> change now r (expire_row now r).
Proof.
  intros S. apply expire_change; [by apply queued_not_live|]. set_unfold. naive_solver congruence.
Qed.

Lemma ok_expireQueued ownerFilter chosen :
  tx_ok now (fun _ => True) (expireQueued ownerFilter chosen now).
Proof.
  apply ok_invs. intros rows. apply ok_after; [keep|intros ts].
  apply ok_require. intros [ND F]%legal_choice_spec.
  apply ok_bind; [|intros; apply ok_keeps; keep].
  eapply ok_weaken; [|apply (ok_for_each_rows id (fun _ r => i_status r ∈ QUEUED) expire_settle)].
  - intros x [-> _]. eapply Forall_impl; [exact F|]. intros id (r & Er & Q). exists r.
    split; [done|]. unfold queue_expired in Q. repeat (apply andb_prop in Q as [Q _]).
    by apply bool_decide_eq_true in Q.
  - intros x t a t' id E. eapply settle_other; [|exact E]. keep.
  - intros x. apply ok_settle; [keep|]. intros rs r (r' & E & Q) E'. unfold id in E. simplify_eq.
    by apply queued_expires.
  - by rewrite list_fmap_id.
Qed.

Lemma ok_end_rows ownerFilter ts chosen rows :
  legal_choice (browser_ended ownerFilter ts) rows chosen = true ->
  tx_ok now (fun x => x = rows) (for_each chosen (end_one now)).
Proof.
  intros [ND F]%legal_choice_spec.
  eapply ok_weaken; [|apply (ok_for_each_rows id (fun _ r => i_status r ∈
    [InvWaitingForUser; InvWaitingForBud; InvWaitingForModel; InvRetryWait]) (end_one now))].
  - intros x ->. eapply Forall_impl; [exact F|]. intros id (r & Er & Q). exists r.
    split; [done|]. unfold browser_ended in Q. repeat (apply andb_prop in Q as [Q _]).
    by apply bool_decide_eq_true in Q.
  - intros x t a t' id E. eapply settle_other; [|exact E]. keep.
  - intros x. apply ok_settle; [keep|]. intros rs r (r' & E & Q) E'. unfold id in E. simplify_eq.
    by apply ended_change.
  - by rewrite list_fmap_id.
Qed.

Lemma recover_pre (row : string * Invocation) :
  keeps (if bool_decide (is_Some (i_cancelRequestedAt row.2)) || bool_decide (i_status row.2 = InvRunning)
         then modify_tables (cancel_handoffs row.1 None now) else mret tt).
Proof. keep. Qed.

Lemma recover_other row t a t' id :
  recover_one now row t = Ok (a, t') -> id <> row.1 -> t_invs t' !! id = t_invs t !! id.
Proof.
  intros (ts & t1 & [= <- <-] & E)%bind_ok. eapply settle_other; [|exact E]. apply recover_pre.
Qed.

Lemma ok_recover_rows ownerFilter chosen rows :
  legal_choice (lease_expired ownerFilter now) rows chosen = true ->
  tx_ok now (fun x => x = rows) (for_each (selected rows chosen) (recover_one now)).
Proof.
  intros [ND F]%legal_choice_spec.
  eapply ok_weaken; [|apply (ok_for_each_rows fst (fun row r => row.2 = r /\ live r))].
  - intros x ->. apply Forall_forall. intros [id row] Hin. unfold selected in Hin.
    apply list_elem_of_omap in Hin as (id' & Hid & E).
    destruct (rows !! id') as [r|] eqn:Er; [|done]. cbn in E. simplify_eq. exists row.
    split; [done|]. split; [done|]. rewrite Forall_forall in F.
    destruct (F _ Hid) as (r & Er' & Q). simplify_eq. unfold lease_expired in Q.
    repeat (apply andb_prop in Q as [Q _]). by apply bool_decide_eq_true in Q.
  - apply recover_other.
  - intros row. apply ok_after; [keep|intros ts]. apply ok_settle; [apply recover_pre|].
    intros rs r (r' & E & -> & L) E'. simplify_eq. by apply recover_change.
  - unfold selected. clear F. induction ND as [|id chosen Hid ND IH]; [constructor|].
    cbn. destruct (rows !! id); cbn; [|done]. constructor; [|done].
    intros (y & E & Hin)%list_elem_of_fmap. apply list_elem_of_omap in Hin as (id' & Hid' & E').
    destruct (rows !! id'); [|done]. cbn in E'. by simplify_eq/=.
Qed.

Lemma ok_recoverExpired ownerFilter ended chosen :
  tx_ok now (fun _ => True) (recoverExpired ownerFilter ended chosen now).
Proof.
  apply ok_invs. intros rows. apply ok_after; [keep|intros ts].
  apply ok_require. intros L. apply ok_bind.
  { eapply ok_weaken; [|by eapply ok_end_rows]. by intros x [-> _]. }
  intros _. apply ok_invs. intros rows'. apply ok_require. intros L'.
  apply ok_bind; [|intros; apply ok_keeps; keep].
  eapply ok_weaken; [|by eapply ok_recover_rows]. by intros x [-> _].
Qed.

Lemma ok_invalidate : tx_ok now (fun _ => True) (invalidateInterruptedTiming now).
Proof.
  apply ok_invs. intros rows t a t' [<- _] [= <- <-] id. cbn. unfold update_where.
  rewrite map_lookup_imap. destruct (t_invs t !! id) as [r|]; cbn; [|done].
  case_match; [apply invalidate_change|apply change_refl].
Qed.

(** ** Every call *)
Theorem call_changes op : typed_call op = true -> tx_ok now (fun _ => True) (call_tx op now).
Proof.
  intros T.
  destruct op; cbn [call_tx typed_call] in *;
    repeat match goal with H : bool_decide _ = true |- _ => apply bool_decide_eq_true in H end;
    first [ apply ok_keeps; solve [apply keeps_recordAction | apply keeps_completeAction]
          | solve [auto using ok_heartbeat, ok_start, ok_defer, ok_finish, ok_parkBrowserHandoff,
              ok_parkQuestion, ok_parkReturnControl, ok_abandonReviewed, ok_invalidate]
          | apply ok_bind; [|intros; apply ok_keeps, keeps_ret] ];
    auto using ok_admit, ok_requestCancel, ok_parkUserBrowserHandoff, ok_parkAppDataRequest,
      ok_parkAutomationProposal, ok_parkBootstrapProposal, ok_expireQueued, ok_recoverExpired.
Qed.
End operations.
