(* ===== verification/InvocationLeases.v ===== *)
(** Reservations and leases of invocations, in every state the interleaved system
    reaches: rows stay well formed, a thread has one reservation, a lost lease
    stays lost; and what holds when no transaction overtakes a claim. *)
From Stdlib Require Import ZArith Lia.
From stdpp Require Import base tactics strings gmap sorting option pretty relations.
From stdpp Require Import list.
From S2P Require Import Prelude JsRuntime Invocation InvocationProps.
Open Scope Z_scope.

(** ** Reading tables *)

Lemma rows_where_spec {R} (P : string -> R -> bool) m k r :
  (k, r) ∈ rows_where P m <-> m !! k = Some r /\ P k r = true.
Proof.
  unfold rows_where. rewrite list_elem_of_In, filter_In, <- list_elem_of_In, elem_of_map_to_list.
  done.
Qed.

Lemma rows_where_nodup {R} (P : string -> R -> bool) m : NoDup (rows_where P m).*1.
Proof.
  unfold rows_where. pose proof (NoDup_fst_map_to_list m) as ND.
  induction (map_to_list m) as [|x l IH]; [constructor|]. cbn in ND |- *.
  apply NoDup_cons in ND as [Hx ND]. destruct (P x.1 x.2); cbn; [|auto].
  apply NoDup_cons. split; [|auto]. intros Hin. apply Hx.
  apply list_elem_of_fmap in Hin as (y & E & Hy). rewrite E. apply list_elem_of_fmap_2.
  apply list_elem_of_In in Hy. apply filter_In in Hy as [Hy _]. by apply list_elem_of_In.
Qed.

Lemma some_row_false {R} (P : string -> R -> bool) m :
  some_row P m = false -> forall k r, m !! k = Some r -> P k r = false.
Proof.
  unfold some_row. intros E k r Ek. apply elem_of_map_to_list in Ek.
  apply not_true_is_false. intros EP. apply not_true_iff_false in E. apply E.
  apply existsb_exists. exists (k, r). split; [by apply list_elem_of_In|done].
Qed.

(** Counting rows: fewer when every counted row was counted before. *)
Lemma count_le {R} (P Q : string -> R -> bool) m m' :
  (forall k r', m' !! k = Some r' -> Q k r' = true -> exists r, m !! k = Some r /\ P k r = true) ->
  zlen (rows_where Q m') <= zlen (rows_where P m).
Proof.
  intros Hsub. unfold zlen. rewrite <- (length_fmap fst (rows_where Q m')), <- (length_fmap fst (rows_where P m)).
  apply inj_le, submseteq_length, NoDup_submseteq; [apply rows_where_nodup|].
  intros k Hk. apply list_elem_of_fmap in Hk as ([k' r'] & -> & Hin).
  apply rows_where_spec in Hin as [E EQ]. destruct (Hsub _ _ E EQ) as (r & Er & EP).
  apply list_elem_of_fmap. exists (k', r). split; [done|]. by apply rows_where_spec.
Qed.

(** At most one more when one row changed. *)
Lemma count_insert {R} (P : string -> R -> bool) m id (r' : R) :
  zlen (rows_where P (<[id := r']> m)) <= 1 + zlen (rows_where P m).
Proof.
  unfold zlen. rewrite <- (length_fmap fst (rows_where P (<[id := r']> m))), <- (length_fmap fst (rows_where P m)).
  change 1 with (Z.of_nat 1). rewrite <- Nat2Z.inj_add.
  change (1 + length (rows_where P m).*1)%nat with (length (id :: (rows_where P m).*1)).
  apply inj_le, submseteq_length, NoDup_submseteq; [apply rows_where_nodup|].
  intros k Hk. apply list_elem_of_fmap in Hk as ([k' x] & -> & Hin).
  apply rows_where_spec in Hin as [E EP]. cbn [fst].
  destruct (decide (k' = id)) as [->|N]; [left|right].
  rewrite lookup_insert_ne in E by done. apply list_elem_of_fmap. exists (k', x).
  split; [done|]. by apply rows_where_spec.
Qed.

(** ** The invariant *)

Definition rows_ok (rows : gmap string Invocation) : Prop :=
  forall id r, rows !! id = Some r -> row_ok r.

(** A thread is reserved by at most one invocation. *)
Definition one_reservation (rows : gmap string Invocation) : Prop :=
  forall id id' r r', rows !! id = Some r -> rows !! id' = Some r' ->
    i_reservesThread r = true -> i_reservesThread r' = true ->
    i_threadId r = i_threadId r' -> id = id'.

(** The row a claim has read. *)
Definition pc_row (pc : claim_pc) : option Invocation :=
  match pc with
  | AtRead => None
  | AtActive cur _ | AtExpire cur | AtLock cur | AtCount cur | AtLease cur => Some cur
  end.

Definition past_active (pc : claim_pc) : bool :=
  match pc with AtRead | AtActive _ _ => false | _ => true end.

Definition claim_ok (rows : gmap string Invocation) (c : claiming) : Prop :=
  str_truthy (c_workerId c) = true /\
  exists r, rows !! c_id c = Some r /\ i_threadId r = c_threadId c /\ ~ live r /\
    (forall cur, pc_row (c_pc c) = Some cur -> i_key cur = i_key r) /\
    (past_active (c_pc c) = true -> forall id' r', rows !! id' = Some r' -> id' <> c_id c ->
       i_threadId r' = c_threadId c -> i_reservesThread r' = false).

Definition sys_ok (s : system) : Prop :=
  rows_ok (y_invs s) /\ one_reservation (y_invs s) /\
  Forall (claim_ok (y_invs s)) (y_claims s) /\ NoDup (c_threadId <$> y_claims s).

(** ** What leaves it intact: soft changes *)

Definition soft_rows (now : Z) : gmap string Invocation -> gmap string Invocation -> Prop :=
  rows_rel (soft_change now).

Lemma changes_soft now rows rows' :
  rows_ok rows -> rows_rel (change now) rows rows' -> soft_rows now rows rows'.
Proof.
  intros O C id. specialize (C id). destruct (rows !! id) eqn:E, (rows' !! id); try done.
  by destruct (C (O _ _ E)).
Qed.

(** A reserved row was reserved before, under the same key. *)
Lemma soft_reserved now rows rows' id r' :
  soft_rows now rows rows' -> rows' !! id = Some r' -> i_reservesThread r' = true ->
  exists r, rows !! id = Some r /\ i_reservesThread r = true /\ i_key r' = i_key r.
Proof.
  intros S E R. specialize (S id). rewrite E in S. destruct (rows !! id) as [r|].
  - destruct S as (K & _ & R' & _). eauto.
  - destruct S as (_ & _ & R'). congruence.
Qed.

Lemma soft_rows_ok now rows rows' : soft_rows now rows rows' -> rows_ok rows'.
Proof.
  intros S id r' E. specialize (S id). rewrite E in S. destruct (rows !! id).
  - by destruct S as (_ & _ & _ & O & _).
  - by destruct S.
Qed.

Lemma soft_one now rows rows' :
  soft_rows now rows rows' -> one_reservation rows -> one_reservation rows'.
Proof.
  intros S O id id' r r' E E' R R' T.
  destruct (soft_reserved _ _ _ _ _ S E R) as (r0 & E0 & R0 & K0).
  destruct (soft_reserved _ _ _ _ _ S E' R') as (r1 & E1 & R1 & K1).
  eapply (O id id'); eauto. congruence.
Qed.

Lemma soft_claim now rows rows' c :
  soft_rows now rows rows' -> claim_ok rows c -> claim_ok rows' c.
Proof.
  intros S (W & r & E & T & L & K & A). pose proof (S (c_id c)) as Sc. rewrite E in Sc.
  destruct (rows' !! c_id c) as [r1|] eqn:E1; [|done]. destruct Sc as (K1 & _ & _ & _ & L1).
  split; [done|]. exists r1. split_and!; [done|congruence|by intros [? _]%L1| |].
  - intros cur Ec. rewrite K1. auto.
  - intros P id' r' E' N T'. apply not_true_is_false. intros R.
    destruct (soft_reserved _ _ _ _ _ S E' R) as (r0 & E0 & R0 & K0).
    rewrite (A P id' r0) in R0; congruence.
Qed.

Lemma soft_refl now rows : rows_ok rows -> soft_rows now rows rows.
Proof. intros O. apply changes_soft; [done|apply rows_rel_refl]. Qed.

Lemma soft_insert now id r r' (rows : gmap string Invocation) :
  rows_ok rows -> rows !! id = Some r -> soft_change now r r' -> soft_rows now rows (<[id := r']> rows).
Proof.
  intros O E C id'. destruct (decide (id' = id)) as [->|N].
  - by rewrite E, lookup_insert_eq.
  - rewrite lookup_insert_ne by done. by apply soft_refl.
Qed.

(** ** The statements of a claim *)

Section system.
Context `{InvocationEnv}.

Lemma update_inv_ok id f t o t' :
  update_inv id f t = Ok (o, t') ->
  (t_invs t !! id = None /\ t' = t /\ o = None) \/
  (exists r, t_invs t !! id = Some r /\ t_invs t' = <[id := f r]> (t_invs t) /\ o = Some (f r)).
Proof.
  intros (rows & t1 & [= <- <-] & E)%bind_ok. destruct (t_invs t !! id) as [r|]; [right|left].
  - injection E as [= <- <-]. eauto.
  - by injection E as [= <- <-].
Qed.

Lemma keeps_timed id o : keeps (require_some o "TypeError" ≫= recordSettledTiming id).
Proof. keep. Qed.

(** What the last statement of a claim writes. *)
Inductive commit_effect (c : claiming) (now : Z) (rows rows' : gmap string Invocation) : Prop :=
  | effect_none : rows' = rows -> commit_effect c now rows rows'
  | effect_expire cur r : c_pc c = AtExpire cur -> rows !! c_id c = Some r ->
      rows' = <[c_id c := expire_row now r]> rows -> commit_effect c now rows rows'
  | effect_lease cur r : c_pc c = AtLease cur -> rows !! c_id c = Some r ->
      rows' = <[c_id c := lease_row (c_workerId c) now r]> rows -> commit_effect c now rows rows'.

Lemma timing_ok {A} (m : tx A) rows ts a rows' ts' pub :
  invocationTimingTransaction m rows ts = Ok (a, rows', ts', pub) ->
  exists t, m (mkTx rows ts [] [] false) = Ok (a, t) /\ t_invs t = rows'.
Proof.
  unfold invocationTimingTransaction. destruct (m _) as [[a' t]|]; [|done].
  intros [= -> <- _ _]. eauto.
Qed.

Lemma expire_commit c cur now rows ts l rows' ts' pub :
  c_pc c = AtExpire cur ->
  invocationTimingTransaction (expire_one now (c_id c);; mret (@None Invocation)) rows ts
    = Ok (l, rows', ts', pub) -> commit_effect c now rows rows'.
Proof.
  intros Ep (t & E & <-)%timing_ok. apply bind_ok in E as (u & t1 & E1 & [= <- <-]).
  apply bind_ok in E1 as (o & t2 & E2 & E3). rewrite (keeps_timed _ _ _ _ _ E3).
  apply update_inv_ok in E2 as [(_ & -> & _)|(r & Er & -> & _)]; [by apply effect_none|].
  by eapply effect_expire.
Qed.

Lemma lease_commit c cur now rows ts l rows' ts' pub :
  c_pc c = AtLease cur ->
  invocationTimingTransaction (lease_claim (c_workerId c) (c_id c) now) rows ts
    = Ok (l, rows', ts', pub) -> commit_effect c now rows rows'.
Proof.
  intros Ep (t & E & <-)%timing_ok. apply bind_ok in E as (o & t1 & E1 & E2).
  apply update_inv_ok in E1 as [(_ & -> & ->)|(r & Er & Et & ->)].
  - injection E2 as [= <- <-]. by apply effect_none.
  - eapply effect_lease; [done|done|]. cbn [t_invs] in Et. rewrite <- Et.
    apply bind_ok in E2 as (u & t2 & [= <- <-] & E2).
    by apply bind_ok in E2 as (u' & t3 & [= <- <-] & [= <- <-]).
Qed.

Lemma commit_spec c others now rows ts writes l rows' ts' pub :
  claim_step c others now rows ts = CommitTx writes ->
  invocationTimingTransaction writes rows ts = Ok (l, rows', ts', pub) ->
  commit_effect c now rows rows'.
Proof.
  unfold claim_step. intros E T.
  assert (writes = mret None -> commit_effect c now rows rows') as Hnone.
  { intros ->. apply timing_ok in T as (t & [= <- <-] & <-). by apply effect_none. }
  destruct (c_pc c) as [|cur e|cur|cur|cur|cur] eqn:Ep;
    repeat (case_match; try discriminate); simplify_eq; try (by apply Hnone).
  - by eapply expire_commit.
  - by eapply lease_commit.
Qed.

(** A statement that goes on keeps the claim's row and its locks. *)
Lemma continue_spec c others now rows ts c' :
  claim_step c others now rows ts = Continue c' -> claim_ok rows c -> claim_ok rows c' /\
  c_id c' = c_id c /\ c_threadId c' = c_threadId c /\ c_workerId c' = c_workerId c.
Proof.
  unfold claim_step. intros E (W & r & Er & T & L & K & A).
  destruct (c_pc c) as [|cur e|cur|cur|cur|cur] eqn:Ep; cbn [pc_row past_active] in K, A.
  - rewrite Er in E. case_match; simplify_eq. split; [|done].
    split; [done|]. exists r. split_and!; cbn; [done|done|done| |done]. by intros ? [= <-].
  - destruct (reserved_by_other _ _ _) eqn:R; [done|].
    assert (forall id' r', rows !! id' = Some r' -> id' <> c_id c ->
      i_threadId r' = c_threadId c -> i_reservesThread r' = false) as A'.
    { intros id' r' E' N T'. pose proof (some_row_false _ _ R _ _ E') as F. cbn in F.
      rewrite (bool_decide_eq_true_2 (id' <> _)) in F by done.
      rewrite bool_decide_eq_true_2 in F; [done|]. rewrite (K cur eq_refl). congruence. }
    case_match; simplify_eq; (split; [|done]); (split; [done|]); exists r; split_and!; cbn; try done.
    intros ?. case_match; intros [= <-]; by apply K.
  - done.
  - case_match; simplify_eq. split; [|done]. split; [done|]. exists r. by split_and!.
  - case_match; simplify_eq. split; [|done]. split; [done|]. exists r. by split_and!.
  - done.
Qed.

Lemma candidate_spec workerId ownerFilter now rows ts others c :
  claim_candidate workerId ownerFilter now rows ts others = Some c ->
  c_pc c = AtRead /\ c_lock c = None /\ c_workerId c = workerId /\ locked_thread (c_threadId c) others = false /\
  exists r, rows !! c_id c = Some r /\ i_threadId r = c_threadId c /\
    claimable ownerFilter now rows ts (c_id c) r = true.
Proof.
  unfold claim_candidate. intros E.
  destruct (first_by _ _) as [[id r]|] eqn:F; [|done].
  injection E as [= <-]. cbn.
  assert (forall l, first_by claim_before l = Some (id, r) -> (id, r) ∈ l) as Hin.
  { clear. induction l as [|x l IH]; cbn; [done|].
    destruct (foldr _ _ l) as [y|] eqn:E; [|by intros [= ->]; left].
    case_match; intros [= ->]; [right; by apply IH|left]. }
  apply Hin, rows_where_spec in F as [Er [Hc Hl]%andb_prop].
  split_and!; [done|done|done|by apply negb_true_iff|]. eauto.
Qed.

Lemma claimable_not_live ownerFilter now rows ts id r :
  claimable ownerFilter now rows ts id r = true -> ~ live r.
Proof.
  unfold claimable. intros E. repeat (apply andb_prop in E as [E _]).
  apply orb_prop in E as [E|[E _]%andb_prop]; apply bool_decide_eq_true in E.
  - by apply queued_not_live.
  - unfold live. rewrite E. set_solver.
Qed.

(** ** One step *)

Lemma expire_soft now r : row_ok r -> ~ live r -> soft_change now r (expire_row now r).
Proof.
  intros O L. pose proof (settled_nonneg now r O) as Hd.
  assert (~ live (expire_row now r)) as L' by not_live.
  destruct O as (_ & O2 & _ & _ & O5). split_and!; cbn; auto; try done; try lia.
  split; [done|]. split; [by intros _; apply O2|]. split; [by intros []|]. split; [exact Hd|done].
Qed.

Lemma lease_row_ok w now r :
  str_truthy w = true -> row_ok r -> ~ live r -> row_ok (lease_row w now r).
Proof.
  intros W (_ & _ & O3 & O4 & O5) L.
  assert (live (lease_row w now r)) as L' by (unfold live; cbn; set_solver).
  split; [done|]. split; [done|]. split; [|split; [exact O4|cbn; lia]].
  cbn. intros S%O3. destruct L. unfold live. rewrite S. set_solver.
Qed.

Lemma rows_ok_insert rows id r : rows_ok rows -> row_ok r -> rows_ok (<[id := r]> rows).
Proof. intros O Or id' r'. rewrite lookup_insert_Some. naive_solver. Qed.

(** The lease: the claim's own thread has no other reservation. *)
Lemma lease_one c cur w now rows r :
  claim_ok rows c -> c_pc c = AtLease cur -> rows !! c_id c = Some r -> one_reservation rows ->
  one_reservation (<[c_id c := lease_row w now r]> rows).
Proof.
  intros (_ & r0 & E0 & T & _ & _ & A) Ep E O id id' r1 r2 E1 E2 R1 R2 TT. rewrite Ep in A.
  specialize (A eq_refl). simplify_eq. rewrite lookup_insert_Some in E1, E2.
  destruct E1 as [[<- <-]|[N1 E1]], E2 as [[<- <-]|[N2 E2]]; [done| | |].
  - rewrite (A id' r2) in R2; cbn in TT; congruence.
  - rewrite (A id r1) in R1; cbn in TT; congruence.
  - by eapply O.
Qed.

Lemma lease_other c c' w now rows r :
  rows !! c_id c = Some r -> i_threadId r = c_threadId c -> c_threadId c' <> c_threadId c ->
  claim_ok rows c' -> claim_ok (<[c_id c := lease_row w now r]> rows) c'.
Proof.
  intros E T N (W0 & r0 & E0 & T0 & L0 & K0 & A0).
  assert (c_id c <> c_id c') as Ni by (intros X; rewrite X in E; congruence).
  split; [done|]. exists r0. rewrite lookup_insert_ne by done. split_and!; [done..|].
  intros P id' r'. rewrite lookup_insert_Some. intros [[<- <-]|[_ E']] N' T'; [|by eapply A0].
  cbn in T'. congruence.
Qed.

Lemma Forall_middle {A} (P : A -> Prop) l x k :
  Forall P (l ++ x :: k) <-> Forall P l /\ P x /\ Forall P k.
Proof. rewrite Forall_app, Forall_cons. done. Qed.

Lemma NoDup_middle {A B} (f : A -> B) l x k :
  NoDup (f <$> l ++ x :: k) -> NoDup (f <$> l ++ k) /\ Forall (fun y => f y <> f x) (l ++ k).
Proof.
  rewrite !fmap_app, fmap_cons. rewrite <- Permutation_middle. intros [Hx ND]%NoDup_cons.
  split; [done|]. apply Forall_forall. intros y Hy E. apply Hx. rewrite <- E, <- fmap_app.
  by apply list_elem_of_fmap_2.
Qed.

Lemma sys_ok_soft now s rows ts now' :
  sys_ok s -> soft_rows now (y_invs s) rows -> sys_ok (mkSystem rows ts now' (y_claims s)).
Proof.
  intros (O & R & C & ND) S. split_and!; cbn; [by eapply soft_rows_ok|by eapply soft_one| |done].
  eapply Forall_impl; [exact C|]. intros c. by apply (soft_claim now).
Qed.

Lemma sys_ok_commit s before c after rows ts :
  sys_ok s -> y_claims s = before ++ c :: after -> commit_effect c (y_now s) (y_invs s) rows ->
  sys_ok (mkSystem rows ts (y_now s) (before ++ after)).
Proof.
  intros (O & R & C & ND) E F. rewrite E in C, ND.
  apply Forall_middle in C as (C1 & Cc & C2). apply NoDup_middle in ND as [ND Fn].
  assert (Forall (claim_ok (y_invs s)) (before ++ after)) as C by by apply Forall_app.
  assert (sys_ok (mkSystem (y_invs s) ts (y_now s) (before ++ after))) as Hs by done.
  destruct F as [->|cur r Ep Er ->|cur r Ep Er ->].
  - done.
  - apply (sys_ok_soft (y_now s) _ _ ts (y_now s) Hs). destruct Cc as (_ & r0 & E0 & _ & L & _).
    simplify_eq. eapply soft_insert; [done|done|]. apply expire_soft; [by eapply O|done].
  - pose proof Cc as (W & r0 & E0 & T & L & K & A). simplify_eq. split_and!; cbn.
    + apply rows_ok_insert; [done|]. apply lease_row_ok; [exact W|by eapply O|done].
    + by eapply lease_one.
    + apply Forall_forall. intros c' Hc'. rewrite Forall_forall in C, Fn.
      apply lease_other; [done|done|by apply Fn|by apply C].
    + done.
Qed.

Theorem inv_step_ok s s' : sys_ok s -> inv_step s s' -> sys_ok s'.
Proof.
  intros Hs [op rows ts pub Ty Hl E|w f c Hw E|before c after c' E E'|before c after writes l rows ts pub E E' T
            |before c after E|ts|now Hn].
  - apply timing_ok in E as (t & E & <-). eapply sys_ok_soft; [done|].
    apply (changes_soft (y_now s)); [apply Hs|]. by apply (call_changes (y_now s) op Ty _ _ _ I E).
  - destruct Hs as (O & R & C & ND). apply candidate_spec in E as (Ep & _ & Ew & Hl & r & Er & T & Hc).
    split_and!; cbn; [done|done| |].
    + apply Forall_app. split; [done|]. apply Forall_singleton. split; [by rewrite Ew|]. exists r.
      split_and!; [done|done|by eapply claimable_not_live| |]; rewrite Ep; done.
    + rewrite fmap_app. apply NoDup_app. split_and!; [done| |apply NoDup_singleton].
      intros x Hx ->%list_elem_of_singleton. apply not_true_iff_false in Hl. apply Hl.
      apply list_elem_of_fmap in Hx as (c' & Ec & Hc'). apply existsb_exists. exists c'.
      split; [by apply list_elem_of_In|]. by apply bool_decide_eq_true.
  - destruct Hs as (O & R & C & ND). rewrite E in C, ND. apply Forall_middle in C as (C1 & Cc & C2).
    destruct (continue_spec _ _ _ _ _ _ E' Cc) as (Cc' & _ & ET & _).
    split_and!; cbn; [done|done|by apply Forall_middle|].
    rewrite fmap_app, fmap_cons in *. by rewrite ET.
  - eapply sys_ok_commit; [done|done|]. by eapply commit_spec.
  - eapply sys_ok_commit; [done|done|]. by apply effect_none.
  - eapply (sys_ok_soft (y_now s)); [done|]. apply soft_refl, Hs.
  - eapply (sys_ok_soft (y_now s)); [done|]. apply soft_refl, Hs.
Qed.

Theorem steps_ok s s' : sys_ok s -> rtc inv_step s s' -> sys_ok s'.
Proof. intros Hs Hr. induction Hr; eauto using inv_step_ok. Qed.

(** ** Leases *)

(** The lease lets its holder work. *)
Definition lease_holds (rows : gmap string Invocation) (now : Z) (l : InvocationLease) : Prop :=
  exists r, rows !! l_id l = Some r /\ lease_matches l now r = true /\ live r.

Definition holds_lease (s : system) (l : InvocationLease) : Prop :=
  lease_holds (y_invs s) (y_now s) l.

(** The fence of the lease has been reached: it was given out, or never will be. *)
Definition fence_reached (s : system) (l : InvocationLease) : Prop :=
  exists r, y_invs s !! l_id l = Some r /\ l_fence l <= i_fence r.

Lemma lease_matches_spec l now r :
  lease_matches l now r = true <->
  i_createdByUserId r = l_createdByUserId l /\ i_fence r = l_fence l /\
  ostr_truthy (l_workerId l) = true /\ i_workerId r = l_workerId l /\
  exists t, i_leaseExpiresAt r = Some t /\ now < t.
Proof.
  unfold lease_matches. rewrite !andb_true_iff, !bool_decide_eq_true.
  split.
  - intros ((((? & ?) & ?) & ?) & E). split_and!; auto.
    destruct (i_leaseExpiresAt r) as [t|]; [|done]. exists t. split; [done|lia].
  - intros (? & ? & ? & ? & t & -> & ?). split_and!; auto. lia.
Qed.

(** A lease that holds after a soft change held before. *)
Lemma soft_holds now now' rows rows' l :
  soft_rows now rows rows' -> now <= now' -> (exists r, rows !! l_id l = Some r) ->
  lease_holds rows' now' l -> lease_holds rows now l.
Proof.
  intros S N [r E] (r' & E' & M & L'). specialize (S (l_id l)). rewrite E, E' in S.
  destruct S as (K & _ & _ & _ & X). destruct (X L') as (L & F & W & Y).
  apply lease_matches_spec in M as (M1 & M2 & M3 & M4 & t & M5 & M6).
  exists r. split_and!; [done| |done]. apply lease_matches_spec.
  split_and!; [by rewrite <- K|congruence|done|congruence|].
  destruct Y as [Y|Y]; [|done]. exists t. split; [congruence|lia].
Qed.

Lemma soft_fence now rows rows' l :
  soft_rows now rows rows' -> (exists r, rows !! l_id l = Some r /\ l_fence l <= i_fence r) ->
  exists r, rows' !! l_id l = Some r /\ l_fence l <= i_fence r.
Proof.
  intros S (r & E & F). specialize (S (l_id l)). rewrite E in S.
  destruct (rows' !! l_id l) as [r'|]; [|done]. destruct S as (_ & F' & _). exists r'. split; [done|lia].
Qed.

(** What a step does to the rows: a soft change, or a lease. *)
Lemma step_effect s s' :
  sys_ok s -> inv_step s s' ->
  y_now s <= y_now s' /\
  (soft_rows (y_now s) (y_invs s) (y_invs s') \/
   exists before c after cur r, y_claims s = before ++ c :: after /\ c_pc c = AtLease cur /\
     y_invs s !! c_id c = Some r /\ claim_ok (y_invs s) c /\ y_claims s' = before ++ after /\
     y_invs s' = <[c_id c := lease_row (c_workerId c) (y_now s) r]> (y_invs s)).
Proof.
  intros Hs Hst. pose proof Hs as (O & _ & C & _).
  destruct Hst as [op rows ts pub Ty Hl E|w f c Hw E|before c after c' E E'
    |before c after writes l rows ts pub E E' T|before c after E|ts|now Hn];
    cbn; (split; [lia|]); try (left; by apply soft_refl).
  - left. apply timing_ok in E as (t & E & <-). apply changes_soft; [done|].
    by apply (call_changes (y_now s) op Ty _ _ _ I E).
  - rewrite E in C. apply Forall_middle in C as (_ & Cc & _).
    destruct (commit_spec _ _ _ _ _ _ _ _ _ _ E' T) as [->|cur r Ep Er ->|cur r Ep Er ->].
    + left. by apply soft_refl.
    + left. destruct Cc as (_ & r0 & E0 & _ & L & _). simplify_eq.
      eapply soft_insert; [done|done|]. apply expire_soft; [by eapply O|done].
    + right. by exists before, c, after, cur, r.
Qed.

Lemma lost_step s s' l :
  sys_ok s -> inv_step s s' -> fence_reached s l -> ~ holds_lease s l ->
  fence_reached s' l /\ ~ holds_lease s' l.
Proof.
  intros Hs Hst F N. destruct (step_effect _ _ Hs Hst) as [Hn [S|E]].
  - split; [by eapply soft_fence|]. intros Hh. apply N.
    destruct F as (r & E & _). by eapply soft_holds; eauto.
  - destruct E as (b & c & a & cur & r & _ & _ & Er & _ & _ & Ei).
    destruct F as (r0 & E0 & F). unfold fence_reached, holds_lease, lease_holds. rewrite Ei.
    destruct (decide (c_id c = l_id l)) as [Ec|Nc].
    + rewrite <- Ec in *. rewrite lookup_insert_eq. simplify_eq. split; [eexists; split; [done|cbn; lia]|].
      intros (r' & [= <-] & (_ & M & _)%lease_matches_spec & _). cbn in M. lia.
    + rewrite lookup_insert_ne by done. split; [eauto|]. intros (r' & E' & M & L). apply N.
      exists r'. split_and!; [done| |done]. apply lease_matches_spec.
      apply lease_matches_spec in M as (? & ? & ? & ? & t & ? & ?). split_and!; auto.
      exists t. split; [done|lia].
Qed.

Lemma lost_steps s s' l :
  sys_ok s -> rtc inv_step s s' -> fence_reached s l -> ~ holds_lease s l -> ~ holds_lease s' l.
Proof.
  intros Hs Hr. induction Hr as [|s s1 s' Hst _ IH]; [done|]. intros F N.
  destruct (lost_step _ _ _ Hs Hst F N). apply IH; eauto using inv_step_ok.
Qed.

(** *** Calls that present a lease need it *)

Definition needs_lease {A} (now : Z) (l : InvocationLease) (m : tx A) : Prop :=
  forall t a t', rows_ok (t_invs t) -> m t = Ok (a, t') -> lease_holds (t_invs t) now l.

Lemma needs_here {A} now l statuses allow (k : Invocation -> tx A) :
  (forall x, x ∈ statuses -> x ∈ LIVE) -> needs_lease now l (lockedLease l statuses allow now ≫= k).
Proof.
  intros Hs t a t' _ (row & t1 & E & _)%bind_ok.
  apply lockedLease_ok in E as (-> & Er & M & S). exists row. unfold live. auto.
Qed.

Lemma needs_after {A B} now l (m : tx A) (k : A -> tx B) :
  keeps m -> (forall a, needs_lease now l (k a)) -> needs_lease now l (m ≫= k).
Proof.
  intros K Hk t b t' O (a & t1 & E1 & E2)%bind_ok. rewrite <- (K _ _ _ E1) in *. by eapply Hk.
Qed.

Lemma needs_before {A B} now l (m : tx A) (k : A -> tx B) :
  needs_lease now l m -> needs_lease now l (m ≫= k).
Proof. intros Hm t b t' O (a & t1 & E1 & E2)%bind_ok. by eapply Hm. Qed.

Lemma needs_return now l turn th bud callId clientId sid hid paused sessionOpen :
  needs_lease now l (parkReturnControl l turn th bud callId clientId sid hid paused sessionOpen now).
Proof.
  intros t a t' _ (rows & t1 & [= <- <-] & E)%bind_ok.
  apply bind_ok in E as (ts & t2 & [= <- <-] & E). apply bind_ok in E as (u & t3 & E & _).
  unfold require_true in E. case_match eqn:Ec; [|done].
  unfold dispatch_authority in Ec.
  destruct (t_invs t !! l_id l) as [row|] eqn:Er; [|done].
  do 5 (apply andb_prop in Ec as [Ec ?]). exists row. split_and!; [done|done|].
  match goal with X : bool_decide (i_status row = InvRunning) = true |- _ =>
    apply bool_decide_eq_true in X; unfold live; rewrite X end. set_solver.
Qed.

(** The source of a proposal is checked like the lease, also when there is no work. *)
Lemma bootstrap_source_lease l callId now rows ts u :
  rows_ok rows -> bootstrap_source l callId now rows ts = Ok u -> lease_holds rows now l.
Proof.
  intros O. unfold bootstrap_source. destruct (rows !! l_id l) as [r|] eqn:Er; [|done].
  cbn [mbind option_bind]. destruct (threads ts !! _) as [th|]; [|done]. cbn [mbind option_bind].
  destruct (buds ts !! _) as [bud|]; [|done]. cbn [mbind option_bind].
  destruct (bool_decide (i_createdByUserId r = _) && _ && _ && _) eqn:Eo; [|done].
  case_match; [done|]. destruct (_ || _) eqn:El; [done|]. intros _.
  do 3 (apply andb_prop in Eo as [Eo _]). apply bool_decide_eq_true in Eo.
  apply orb_false_iff in El as [(((( E1 & _)%orb_false_iff & E2)%orb_false_iff & E3)%orb_false_iff
    & E4)%orb_false_iff _].
  apply bool_decide_eq_false, dec_stable in E1, E2, E3.
  assert (live r) as L by (unfold live; rewrite E1; set_solver).
  destruct (O _ _ Er) as [Hl _]. destruct (Hl L) as (_ & Hw & _).
  exists r. split_and!; [done| |done]. apply lease_matches_spec. rewrite E2 in Hw |- *.
  assert (Some (l_workerId l ?? "") = l_workerId l) as Ew by by destruct (l_workerId l).
  rewrite <-Ew. split_and!; [done|done|exact Hw|done|].
  destruct (i_leaseExpiresAt r) as [t|]; [|done]. exists t. split; [done|].
  apply Z.leb_gt in E4. apply Z.nle_gt. intros Hle. apply (Z.div_le_mono _ _ 1000) in Hle; lia.
Qed.

Lemma needs_bootstrap now l callId clientId admitted request :
  needs_lease now l (parkBootstrapProposal l callId clientId admitted request now).
Proof.
  apply needs_after; [keep|intros _]. apply needs_after; [keep|intros _].
  intros t a t' O (rows & t1 & [= <- <-] & E)%bind_ok.
  apply bind_ok in E as (ts & t2 & [= <- <-] & E). apply bind_ok in E as (u & t3 & E & _).
  unfold lift in E. destruct (bootstrap_source _ _ _ _ _) eqn:Es; [|done].
  by eapply bootstrap_source_lease.
Qed.

Lemma call_needs_lease op l now : call_lease op = Some l -> needs_lease now l (call_tx op now).
Proof.
  intros E. destruct op; try discriminate; injection E as <-; cbn [call_tx];
    try apply needs_return; try apply needs_before, needs_bootstrap;
    repeat first
      [ apply needs_here; intros; set_solver
      | apply needs_after; [solve [keep]|intros ?]
      | apply needs_before ].
Qed.

Lemma without_lease op l s :
  sys_ok s -> call_lease op = Some l -> ~ holds_lease s l ->
  exists e, invocationTimingTransaction (call_tx op (y_now s)) (y_invs s) (y_tables s) = Err e.
Proof.
  intros (O & _) E N.
  destruct (invocationTimingTransaction _ _ _) as [[[[a r] ts] pub]|e] eqn:T; [|eauto].
  apply timing_ok in T as (t & T & _). destruct N.
  refine (call_needs_lease op l _ E _ _ _ _ T). exact O.
Qed.

(** Two leases that hold on one thread are one lease. *)
Lemma holds_one s l l' r r' :
  sys_ok s -> holds_lease s l -> holds_lease s l' -> y_invs s !! l_id l = Some r ->
  y_invs s !! l_id l' = Some r' -> i_threadId r = i_threadId r' -> l = l'.
Proof.
  intros (O & One & _) (r1 & E1 & M1 & L1) (r2 & E2 & M2 & L2) E E' T.
  rewrite E in E1. injection E1 as <-. rewrite E' in E2. injection E2 as <-.
  assert (l_id l = l_id l') as Ei.
  { eapply (One (l_id l) (l_id l') r r'); eauto using live_reserves. }
  rewrite Ei in E. rewrite E in E'. injection E' as <-. apply lease_matches_spec in M1, M2.
  destruct l, l'; cbn in *. f_equal; intuition congruence.
Qed.

(** What a claim gives out is a lease that holds, on a new fence. *)
Lemma claimed_holds s before c after writes r rows ts pub :
  sys_ok s -> y_claims s = before ++ c :: after ->
  claim_step c (before ++ after) (y_now s) (y_invs s) (y_tables s) = CommitTx writes ->
  invocationTimingTransaction writes (y_invs s) (y_tables s) = Ok (Some r, rows, ts, pub) ->
  lease_holds rows (y_now s) (mkLease (c_id c) (i_fence r) (i_workerId r) (i_createdByUserId r)) /\
  exists r0, y_invs s !! c_id c = Some r0 /\ i_fence r = i_fence r0 + 1.
Proof.
  intros (O & _ & C & _) E E' T. rewrite E in C. apply Forall_middle in C as (_ & (W & _) & _).
  apply timing_ok in T as (t & T & <-). unfold claim_step in E'.
  assert (writes <> mret None) as Hn by (intros ->; discriminate T).
  destruct (c_pc c) as [|cur e|cur|cur|cur|cur] eqn:Ep;
    repeat (case_match; try discriminate); simplify_eq.
  - apply bind_ok in T as (u & t1 & _ & T). discriminate T.
  - apply bind_ok in T as (o & t1 & T1 & T2).
    apply update_inv_ok in T1 as [(_ & _ & ->)|(r0 & Er & Et & ->)]; [discriminate T2|].
    cbn [t_invs] in Er, Et. apply bind_ok in T2 as (u & t2 & [= <- <-] & T2).
    apply bind_ok in T2 as (u' & t3 & [= <- <-] & [= <- <-]). cbn [t_invs]. rewrite Et. split; [|by exists r0].
    eexists. split; [apply lookup_insert_eq|]. split; [|unfold live; cbn; set_solver].
    apply lease_matches_spec. cbn. split_and!; auto. exists (y_now s + LEASE_US).
    split; [done|]. unfold LEASE_US. lia.
Qed.

(** ** [claim] on its own is a run of the system *)

Definition statements_left (pc : claim_pc) : nat :=
  match pc with
  | AtRead => 5 | AtActive _ _ => 4 | AtLock _ => 3 | AtCount _ => 2 | AtExpire _ | AtLease _ => 1
  end.

Lemma continue_left c others now rows ts c' :
  claim_step c others now rows ts = Continue c' ->
  (statements_left (c_pc c') < statements_left (c_pc c))%nat.
Proof.
  unfold claim_step. intros E. destruct (c_pc c);
    repeat (case_match; try discriminate); simplify_eq; cbn; try lia.
  case_match; cbn; lia.
Qed.

(** Six statements are enough. *)
Lemma run_claim_enough fuel c others now t :
  (statements_left (c_pc c) <= fuel)%nat ->
  exists c' writes, claim_step c' others now (t_invs t) (t_tables t) = CommitTx writes /\
    run_claim fuel c others now t = writes t.
Proof.
  revert c. induction fuel as [|fuel IH]; intros c Hf; [destruct (c_pc c); cbn in Hf; lia|].
  cbn [run_claim]. unfold tx_invs, tx_tables, mbind, tx_mbind.
  destruct (claim_step c others now (t_invs t) (t_tables t)) as [c'|writes] eqn:E; [|eauto].
  apply continue_left in E. apply IH. lia.
Qed.

Lemma run_claim_steps fuel s before c after t a t' pub :
  y_claims s = before ++ c :: after -> t = mkTx (y_invs s) (y_tables s) [] [] false ->
  run_claim fuel c (before ++ after) (y_now s) t = Ok (a, t') ->
  pub = mkPublication (if t_wake t' then Some (t_ids t') else None)
          (omap (fun '(_, r) => pair (i_threadId r) <$> settledTurnTiming r) (t_timed t')) ->
  rtc inv_step s (mkSystem (t_invs t') (t_tables t') (y_now s) (before ++ after)).
Proof.
  intros Ec -> E Hp. revert s c Ec E. induction fuel as [|fuel IH]; intros s c Ec E; [done|].
  cbn [run_claim] in E. unfold tx_invs, tx_tables, mbind, tx_mbind in E. cbn [t_invs t_tables] in E.
  destruct (claim_step c _ _ _ _) as [c'|writes] eqn:Es.
  - eapply rtc_l; [by eapply step_continue|].
    by apply (IH (mkSystem (y_invs s) (y_tables s) (y_now s) (before ++ c' :: after)) c').
  - apply rtc_once. eapply step_commit; [done|done|].
    unfold invocationTimingTransaction. rewrite E. rewrite <- Hp. reflexivity.
Qed.

Lemma claim_alone s w f a rows ts pub :
  invocationTimingTransaction (claim w f (y_claims s) (y_now s)) (y_invs s) (y_tables s)
    = Ok (a, rows, ts, pub) ->
  rtc inv_step s (mkSystem rows ts (y_now s) (y_claims s)).
Proof.
  unfold invocationTimingTransaction, claim.
  destruct ((require_true _ _ ≫= _) _) as [[a' t]|] eqn:E; [|done]. intros [= -> <- <- Hp].
  apply bind_ok in E as (u & t1 & E1 & E). unfold require_true in E1.
  destruct (str_truthy w) eqn:W; [|done]. injection E1 as [= <- <-].
  apply bind_ok in E as (rs & t2 & [= <- <-] & E). apply bind_ok in E as (tb & t3 & [= <- <-] & E).
  cbn [t_invs t_tables] in E.
  destruct (claim_candidate _ _ _ _ _ _) as [c|] eqn:C.
  - eapply rtc_l; [by eapply step_begin|].
    pose proof (run_claim_steps 6 (mkSystem (y_invs s) (y_tables s) (y_now s) (y_claims s ++ [c]))
      (y_claims s) c [] _ a t pub eq_refl eq_refl) as R.
    rewrite app_nil_r in R. by apply R.
  - injection E as [= <- <-]. by destruct s.
Qed.
End system.
