(* ===== verification/InvocationClaims.v ===== *)
(** The claims on the invocation repository: rows are well typed, a thread
    has one reservation and a Bud no more automations than it may, leases
    are fenced. *)
From Stdlib Require Import ZArith Lia.
From stdpp Require Import base tactics strings gmap sorting option pretty relations.
From stdpp Require Import list.
From S2P Require Import Prelude JsRuntime Invocation InvocationProps InvocationLeases.
Open Scope Z_scope.

(** The check constraint [agent_invocation_lease_check] of the table. *)
Definition lease_check (r : Invocation) : bool :=
  Bool.eqb (bool_decide (i_status r ∈ LIVE))
    (bool_decide (is_Some (i_workerId r)) && bool_decide (is_Some (i_leaseExpiresAt r))).

Lemma row_ok_check r : row_ok r -> lease_check r = true.
Proof.
  intros (O1 & O2 & _). unfold lease_check. case_bool_decide as L.
  - destruct (O1 L) as (_ & W & X).
    assert (is_Some (i_workerId r)) by (destruct (i_workerId r); [by eexists|done]). by rewrite !bool_decide_eq_true_2.
  - destruct (O2 L) as [-> ->]. done.
Qed.

(** ** Runs in which no transaction overtakes a claim *)

Section calm.
Context `{InvocationEnv}.

Definition initial (s : system) : Prop := y_invs s = ∅ /\ y_claims s = [].

Lemma initial_sys_ok s : initial s -> sys_ok s.
Proof.
  intros [E1 E2]. unfold sys_ok. rewrite E1, E2. split_and!; [| |constructor|constructor].
  - intros id r. by rewrite lookup_empty.
  - intros id id' r r'. by rewrite lookup_empty.
Qed.

(** The row that a claim has read is still the one in the table. *)
Definition undisturbed (s : system) : Prop :=
  Forall (fun c => forall cur, pc_row (c_pc c) = Some cur -> y_invs s !! c_id c = Some cur) (y_claims s).

Definition calm_step (s s' : system) : Prop := inv_step s s' /\ undisturbed s'.

(** A claim that will take capacity holds the lock of its Bud, and from the count
    on there is room. *)
Definition claim_room (rows : gmap string Invocation) (c : claiming) : Prop :=
  (forall cur, pc_row (c_pc c) = Some cur -> i_status cur ∈ InvWaitingForUser :: QUEUED) /\
  match c_pc c with
  | AtCount cur => c_lock c = Some (bud_lock (i_budId cur))
  | AtLease cur =>
      i_origin cur = Human \/ i_reservesThread cur = true \/
      (c_lock c = Some (bud_lock (i_budId cur)) /\
       capacity_used (i_budId cur) rows < automationConcurrencyPerBud)
  | _ => True
  end.

Definition room (s : system) : Prop :=
  (forall bud, capacity_used bud (y_invs s) <= automationConcurrencyPerBud) /\
  Forall (claim_room (y_invs s)) (y_claims s) /\ NoDup (omap c_lock (y_claims s)).

Lemma soft_capacity now rows rows' bud :
  soft_rows now rows rows' -> capacity_used bud rows' <= capacity_used bud rows.
Proof.
  intros S. apply count_le. intros k r' E U. unfold uses_capacity in U.
  apply andb_prop in U as [[Ub Uo]%andb_prop Ur].
  destruct (soft_reserved _ _ _ _ _ S E Ur) as (r & Er & R & K). exists r. split; [done|].
  unfold uses_capacity. rewrite K in Ub, Uo. by rewrite Ub, Uo, R.
Qed.

Lemma less_used_room rows rows' c :
  (forall bud, capacity_used bud rows' <= capacity_used bud rows) ->
  claim_room rows c -> claim_room rows' c.
Proof.
  intros L [S R]. split; [done|]. destruct (c_pc c) as [| | | | |cur]; try done.
  destruct R as [?|[?|[? ?]]]; auto. right. right. split; [done|]. specialize (L (i_budId cur)). lia.
Qed.

Lemma room_less s rows ts now :
  (forall bud, capacity_used bud rows <= capacity_used bud (y_invs s)) ->
  room s -> room (mkSystem rows ts now (y_claims s)).
Proof.
  intros L (U & C & ND). split_and!; cbn; [|eapply Forall_impl; [exact C|]|done].
  - intros bud. specialize (L bud). specialize (U bud). lia.
  - intros c. by apply less_used_room.
Qed.

(** A lease takes capacity of its own Bud only, and only when it had none. *)
Lemma lease_capacity w now (rows : gmap string Invocation) id r bud :
  rows !! id = Some r -> i_budId r <> bud \/ i_origin r = Human \/ i_reservesThread r = true ->
  capacity_used bud (<[id := lease_row w now r]> rows) <= capacity_used bud rows.
Proof.
  intros E D. apply count_le. intros k r'. rewrite lookup_insert_Some.
  intros [[<- <-]|[_ E']]; [|eauto]. unfold uses_capacity. cbn.
  intros [[Ub Uo]%andb_prop _]%andb_prop. exists r. split; [done|].
  apply bool_decide_eq_true in Ub, Uo. destruct D as [D|[D|D]]; [done|congruence|].
  by rewrite D, !bool_decide_eq_true_2.
Qed.

Lemma omap_middle {A B} (f : A -> option B) l x k :
  omap f (l ++ x :: k) ≡ₚ match f x with Some y => [y] | None => [] end ++ omap f (l ++ k).
Proof.
  rewrite !omap_app. cbn. destruct (f x); cbn; [|done]. by rewrite Permutation_middle.
Qed.

Lemma room_drop s before c after :
  y_claims s = before ++ c :: after -> room s ->
  room (mkSystem (y_invs s) (y_tables s) (y_now s) (before ++ after)).
Proof.
  intros E (U & C & ND). rewrite E in C, ND. apply Forall_middle in C as (C1 & _ & C2).
  rewrite omap_middle in ND. split_and!; cbn; [done|by apply Forall_app|].
  by apply NoDup_app in ND as (_ & _ & ?).
Qed.

Lemma continue_room c others now rows ts c' :
  claim_step c others now rows ts = Continue c' -> claim_room rows c ->
  claim_room rows c' /\
  (c_lock c' = c_lock c \/ c_lock c' = None \/
   exists key, c_lock c' = Some key /\ locked_key key others = false).
Proof.
  unfold claim_step. intros E [S R].
  destruct (c_pc c) as [|cur e|cur|cur|cur|cur] eqn:Ep; cbn [pc_row] in S.
  - destruct (rows !! c_id c) as [cur|]; [|done].
    destruct (bool_decide (i_cancelRequestedAt cur = None) && _) eqn:B; [|done].
    injection E as <-. apply andb_prop in B as [_ B]. apply bool_decide_eq_true in B.
    split; [|auto]. split; [|done]. by intros ? [= <-].
  - destruct (reserved_by_other _ _ _); [done|].
    destruct (e && _); injection E as <-; (split; [|auto]).
    + split; [|done]. by intros ? [= <-]; apply S.
    + unfold after_active, claim_room. cbn.
      destruct (bool_decide (i_origin cur = Automation) && negb (i_reservesThread cur)) eqn:B; cbn.
      * split; [|done]. by intros ? [= <-]; apply S.
      * split; [by intros ? [= <-]; apply S|]. apply andb_false_iff in B as [B|B].
        -- apply bool_decide_eq_false in B. left. by destruct (i_origin cur).
        -- right. left. by apply negb_false_iff.
  - done.
  - destruct (locked_key _ _) eqn:L; [done|]. injection E as <-. split; [|right; right; eauto].
    split; [|done]. by intros ? [= <-]; apply S.
  - destruct (capacity_used _ _ <? _) eqn:L; [|done]. injection E as <-. split; [|auto].
    split; [by intros ? [= <-]; apply S|]. right. right. split; [done|]. lia.
  - done.
Qed.

Lemma locked_key_omap key cs : locked_key key cs = false -> key ∉ omap c_lock cs.
Proof.
  intros L (c & Hc & E)%list_elem_of_omap. apply not_true_iff_false in L. apply L.
  apply existsb_exists. exists c. split; [by apply list_elem_of_In|]. by apply bool_decide_eq_true.
Qed.

Lemma locks_continue before c c' after :
  NoDup (omap c_lock (before ++ c :: after)) ->
  (c_lock c' = c_lock c \/ c_lock c' = None \/
   exists key, c_lock c' = Some key /\ locked_key key (before ++ after) = false) ->
  NoDup (omap c_lock (before ++ c' :: after)).
Proof.
  rewrite !omap_middle. intros ND [->|[->|(key & -> & L)]]; [done| |].
  - by apply NoDup_app in ND as (_ & _ & ?).
  - apply NoDup_cons. split; [by apply locked_key_omap|]. by apply NoDup_app in ND as (_ & _ & ?).
Qed.

(** The lease of a claim, whose row is as it was read. *)
Lemma room_lease s before c after cur w :
  y_claims s = before ++ c :: after -> c_pc c = AtLease cur -> y_invs s !! c_id c = Some cur ->
  room s ->
  room (mkSystem (<[c_id c := lease_row w (y_now s) cur]> (y_invs s)) (y_tables s) (y_now s)
          (before ++ after)).
Proof.
  intros E Ep Er Hr. pose proof (room_drop _ _ _ _ E Hr) as (U & C & ND).
  cbn [y_invs y_claims] in U, C, ND. destruct Hr as (_ & Call & NDall). rewrite E in Call, NDall.
  apply Forall_middle in Call as (_ & [_ R] & _). rewrite Ep in R.
  destruct (decide (i_origin cur = Human \/ i_reservesThread cur = true)) as [D|D].
  { assert (forall bud, capacity_used bud (<[c_id c := lease_row w (y_now s) cur]> (y_invs s))
                        <= capacity_used bud (y_invs s)) as L.
    { intros bud. apply lease_capacity; [done|]. by right. }
    by apply (room_less (mkSystem (y_invs s) (y_tables s) (y_now s) (before ++ after)) _ (y_tables s) (y_now s) L). }
  destruct R as [?|[?|[Hk Hroom]]]; [naive_solver|naive_solver|].
  split_and!; cbn; [|apply Forall_forall; intros c' Hc'|done].
  - intros bud. destruct (decide (i_budId cur = bud)) as [<-|N].
    + pose proof (count_insert (fun _ => uses_capacity (i_budId cur)) (y_invs s) (c_id c)
        (lease_row w (y_now s) cur)) as L. unfold capacity_used in *. lia.
    + etransitivity; [|apply (U bud)]. apply lease_capacity; auto.
  - rewrite Forall_forall in C. destruct (C _ Hc') as [S R']. split; [done|].
    destruct (c_pc c') as [| | | | |cur'] eqn:Ep'; try done.
    destruct R' as [?|[?|[Hk' Hroom']]]; auto. right. right. split; [done|].
    apply (Z.le_lt_trans _ (capacity_used (i_budId cur') (y_invs s))); [|done].
    apply lease_capacity; [done|]. left. intros Eb. rewrite omap_middle, Hk in NDall.
    apply NoDup_cons in NDall as [Hnot _]. apply Hnot. apply list_elem_of_omap.
    exists c'. by rewrite Hk', Eb.
Qed.

Theorem room_step s s' : sys_ok s -> undisturbed s -> room s -> inv_step s s' -> room s'.
Proof.
  intros Hs Hu Hr Hst. pose proof Hs as (O & _ & Cok & _).
  destruct Hst as [op rows ts pub Ty Hl E|w f c Hw E|before c after c' E E'
    |before c after writes l rows ts pub E E' T|before c after E|ts|now Hn].
  - apply timing_ok in E as (t & E & <-). apply room_less; [|done]. intros bud.
    eapply (soft_capacity (y_now s)), changes_soft; [done|].
    by apply (call_changes (y_now s) op Ty _ _ _ I E).
  - destruct Hr as (U & C & ND). apply candidate_spec in E as (Ep & El & _).
    split_and!; cbn; [done| |].
    + apply Forall_app. split; [done|]. apply Forall_singleton. unfold claim_room. by rewrite Ep.
    + rewrite omap_app. cbn. by rewrite El, app_nil_r.
  - destruct Hr as (U & C & ND). rewrite E in C, ND. apply Forall_middle in C as (C1 & Cc & C2).
    destruct (continue_room _ _ _ _ _ _ E' Cc) as [Cc' L].
    split_and!; cbn; [done|by apply Forall_middle|by eapply locks_continue].
  - destruct (commit_spec _ _ _ _ _ _ _ _ _ _ E' T) as [->|cur r Ep Er ->|cur r Ep Er ->].
    + by eapply room_drop.
    + eapply (room_less (mkSystem (y_invs s) ts (y_now s) (before ++ after))); [|by eapply room_drop].
      intros bud. eapply (soft_capacity (y_now s)). cbn. rewrite E in Cok.
      apply Forall_middle in Cok as (_ & (_ & r0 & E0 & _ & L & _) & _). simplify_eq.
      eapply soft_insert; [done|done|]. apply expire_soft; [by eapply O|done].
    + unfold undisturbed in Hu. rewrite E in Hu. apply Forall_middle in Hu as (_ & Hu & _).
      rewrite Ep in Hu. specialize (Hu cur eq_refl). simplify_eq. by eapply room_lease.
  - by eapply room_drop.
  - by apply room_less.
  - by apply room_less.
Qed.

(** In a calm run nothing moves a settled invocation. *)
Lemma settled_step s s' id r :
  sys_ok s -> undisturbed s -> room s -> inv_step s s' -> y_invs s !! id = Some r ->
  i_status r ∈ TERMINAL -> exists r', y_invs s' !! id = Some r' /\ i_status r' = i_status r.
Proof.
  intros Hs Hu (_ & C & _) Hst Ei Ht. pose proof Hs as (O & _ & _ & _).
  destruct Hst as [op rows ts pub Ty Hl E|w f c Hw E|before c after c' E E'
    |before c after writes l rows ts pub E E' T|before c after E|ts|now Hn]; cbn; eauto.
  - apply timing_ok in E as (t & E & <-).
    pose proof (call_changes (y_now s) op Ty _ _ _ I E id) as R. cbn in R. rewrite Ei in R.
    destruct (t_invs t !! id) as [r'|]; [|done]. exists r'. split; [done|].
    by destruct (R (O _ _ Ei)) as [_ ?]; auto.
  - unfold undisturbed in Hu. rewrite E in Hu, C. apply Forall_middle in Hu as (_ & Hu & _).
    apply Forall_middle in C as (_ & [S _] & _).
    assert (forall r', pc_row (c_pc c) = Some r' -> c_id c <> id) as N.
    { intros cur Ec <-. specialize (S _ Ec). specialize (Hu _ Ec). simplify_eq.
      set_unfold. naive_solver congruence. }
    destruct (commit_spec _ _ _ _ _ _ _ _ _ _ E' T) as [->|cur r1 Ep Er ->|cur r1 Ep Er ->]; eauto.
    + rewrite lookup_insert_ne by (eapply N; by rewrite Ep). eauto.
    + rewrite lookup_insert_ne by (eapply N; by rewrite Ep). eauto.
Qed.

Definition calm_ok (s : system) : Prop := sys_ok s /\ undisturbed s /\ room s.

Lemma calm_ok_step s s' : calm_ok s -> calm_step s s' -> calm_ok s'.
Proof. intros (O & U & R) [S U']. split_and!; eauto using inv_step_ok, room_step. Qed.

Lemma calm_ok_steps s s' : calm_ok s -> rtc calm_step s s' -> calm_ok s'.
Proof. intros C Hr. induction Hr; eauto using calm_ok_step. Qed.

Lemma initial_calm s : initial s -> 0 <= automationConcurrencyPerBud -> calm_ok s.
Proof.
  intros Hi Hc. split; [by apply initial_sys_ok|]. destruct Hi as [E1 E2].
  unfold undisturbed, room. rewrite E1, E2. split_and!; [constructor| |constructor|constructor].
  intros bud. unfold capacity_used, rows_where. by rewrite map_to_list_empty.
Qed.

Lemma settled_steps s s' id r :
  calm_ok s -> rtc calm_step s s' -> y_invs s !! id = Some r -> i_status r ∈ TERMINAL ->
  exists r', y_invs s' !! id = Some r' /\ i_status r' = i_status r.
Proof.
  intros C Hr. revert r. induction Hr as [|s s1 s' Hst _ IH]; [eauto|]. intros r E T.
  pose proof C as (O & U & R). destruct (settled_step s s1 id r O U R (proj1 Hst) E T) as (r1 & E1 & S1).
  destruct (IH (calm_ok_step _ _ C Hst) r1 E1) as (r' & E' & S'); [by rewrite S1|].
  exists r'. split; [done|congruence].
Qed.
End calm.

(** ** An executable scheduler, for runs on concrete data *)

Inductive command :=
  | DoCall (op : call)
  | DoBegin (workerId : string) (ownerFilter : option string)
  | DoClaim (n : nat)                 (** the next statement of the claim at [n] *)
  | DoTables (f : tables -> tables)
  | DoTime (dt : Z).

Section scheduler.
Context `{InvocationEnv}.

Definition exec_call (op : call) (s : system) : option system :=
  if typed_call op && match call_thread op with
                      | Some th => negb (locked_thread th (y_claims s))
                      | None => true
                      end
  then match invocationTimingTransaction (call_tx op (y_now s)) (y_invs s) (y_tables s) with
       | Ok (_, rows, ts, _) => Some (mkSystem rows ts (y_now s) (y_claims s))
       | Err _ => None
       end
  else None.

Definition exec_claim (n : nat) (s : system) : option system :=
  let before := take n (y_claims s) in
  match drop n (y_claims s) with
  | c :: after =>
      match claim_step c (before ++ after) (y_now s) (y_invs s) (y_tables s) with
      | Continue c' => Some (mkSystem (y_invs s) (y_tables s) (y_now s) (before ++ c' :: after))
      | CommitTx writes =>
          match invocationTimingTransaction writes (y_invs s) (y_tables s) with
          | Ok (_, rows, ts, _) => Some (mkSystem rows ts (y_now s) (before ++ after))
          | Err _ => None
          end
      end
  | [] => None
  end.

Definition exec_cmd (cmd : command) (s : system) : option system :=
  match cmd with
  | DoCall op => exec_call op s
  | DoBegin w f =>
      if str_truthy w then
        c ← claim_candidate w f (y_now s) (y_invs s) (y_tables s) (y_claims s);
        Some (mkSystem (y_invs s) (y_tables s) (y_now s) (y_claims s ++ [c]))
      else None
  | DoClaim n => exec_claim n s
  | DoTables f => Some (mkSystem (y_invs s) (f (y_tables s)) (y_now s) (y_claims s))
  | DoTime dt => if 0 <=? dt
      then Some (mkSystem (y_invs s) (y_tables s) (y_now s + dt) (y_claims s)) else None
  end.

Fixpoint exec_all (cmds : list command) (s : system) : option system :=
  match cmds with
  | [] => Some s
  | cmd :: cmds => s' ← exec_cmd cmd s; exec_all cmds s'
  end.

Lemma exec_step cmd s s' : exec_cmd cmd s = Some s' -> inv_step s s'.
Proof.
  destruct cmd as [op|w f|n|f|dt]; cbn [exec_cmd]; intros E.
  - unfold exec_call in E. destruct (typed_call op) eqn:Ty; [|done].
    destruct (call_thread op) as [th|] eqn:Et; cbn [andb] in E.
    1: destruct (locked_thread th (y_claims s)) eqn:L; [done|cbn [negb] in E].
    all: destruct (invocationTimingTransaction _ _ _) as [[[[[] rows] ts] pub]|] eqn:T; [|done];
      injection E as <-; apply (step_call s op rows ts pub); [done|by rewrite Et|done].
  - destruct (str_truthy w) eqn:W; [|done].
    destruct (claim_candidate _ _ _ _ _ _) as [c|] eqn:C; [|done]. injection E as <-.
    by eapply step_begin.
  - unfold exec_claim in E. destruct (drop n (y_claims s)) as [|c after] eqn:D; [done|].
    assert (y_claims s = take n (y_claims s) ++ c :: after) as Ec by by rewrite <- D, take_drop.
    destruct (claim_step _ _ _ _ _) as [c'|writes] eqn:Cs.
    + injection E as <-. by eapply step_continue.
    + destruct (invocationTimingTransaction _ _ _) as [[[[l rows] ts] pub]|] eqn:T; [|done].
      injection E as <-. by eapply step_commit.
  - injection E as <-. apply step_tables.
  - destruct (0 <=? dt) eqn:P; [|done]. injection E as <-. apply step_time. lia.
Qed.

Lemma exec_all_steps cmds s s' : exec_all cmds s = Some s' -> rtc inv_step s s'.
Proof.
  revert s. induction cmds as [|cmd cmds IH]; cbn [exec_all]; intros s E; [injection E as <-; done|].
  destruct (exec_cmd cmd s) as [s1|] eqn:E1; [|done]. eapply rtc_l; [by eapply exec_step|by apply IH].
Qed.

#[local] Instance InvocationKey_eq_dec : EqDecision InvocationKey.
Proof. solve_decision. Defined.
#[local] Instance Invocation_eq_dec : EqDecision Invocation.
Proof. solve_decision. Defined.

Definition undisturbedb (s : system) : bool :=
  forallb (fun c => match pc_row (c_pc c) with
                    | Some cur => bool_decide (y_invs s !! c_id c = Some cur)
                    | None => true
                    end) (y_claims s).

(** Stops when a claim has been overtaken. *)
Fixpoint exec_calm (cmds : list command) (s : system) : option system :=
  match cmds with
  | [] => Some s
  | cmd :: cmds => s' ← exec_cmd cmd s; if undisturbedb s' then exec_calm cmds s' else None
  end.

Lemma undisturbedb_spec s : undisturbedb s = true -> undisturbed s.
Proof.
  unfold undisturbedb. rewrite forallb_forall. intros F. apply Forall_forall.
  intros c Hc%list_elem_of_In%F cur E. rewrite E in Hc. by apply bool_decide_eq_true in Hc.
Qed.

Lemma exec_calm_steps cmds s s' : exec_calm cmds s = Some s' -> rtc calm_step s s'.
Proof.
  revert s. induction cmds as [|cmd cmds IH]; cbn [exec_calm]; intros s E; [injection E as <-; done|].
  destruct (exec_cmd cmd s) as [s1|] eqn:E1; [|done]. cbn [mbind option_bind] in E.
  destruct (undisturbedb s1) eqn:U; [|done].
  eapply rtc_l; [split; [by eapply exec_step|by apply undisturbedb_spec]|by apply IH].
Qed.

Lemma calm_steps_steps s s' : rtc calm_step s s' -> rtc inv_step s s'.
Proof. apply rtc_subrel. by intros ? ? []. Qed.
End scheduler.

(** ** A small service: one Bud, two threads of one owner *)

#[export] Instance demo_env : InvocationEnv := {|
  lock_hash := fun _ => 0;
  jsonb_text := fun _ => "";
  timestamptz := fun _ => None;
  automationConcurrencyPerBud := 1;
  checkAutomationPolicy := fun _ _ _ _ => Ok "ready";
  automationStartEvidence := fun _ _ _ _ => Ok None
|}.

Definition demo_thread : ThreadRow :=
  mkThread "bud" None (Some "ann") None 0 None None 0 None.
Definition demo_tables : tables :=
  mkTables ∅ ∅ ∅ ∅ ∅ ∅ ∅ ∅ {["t1" := demo_thread; "t2" := demo_thread]} {["bud" := Some "ann"]} ∅ [] [].
Definition demo : system := mkSystem ∅ demo_tables 1000000 [].

Definition demo_admission (th key : string) (origin : InvocationOrigin) : InvocationAdmission :=
  mkAdmission "ann" th origin key None "hello" "m" "low" None [] false.
Definition demo_ids (id : string) : admission_ids :=
  mkAdmissionIds id ("turn-" +:+ id) ("msg-" +:+ id) ("client-" +:+ id).
Definition demo_lease (id : string) (fence : Z) (worker : string) : InvocationLease :=
  mkLease id fence (Some worker) "ann".

(** Admit, claim and start [x] on [t1]. *)
Definition demo_start (origin : InvocationOrigin) : list command :=
  [ DoCall (Admit (demo_admission "t1" "k1" origin) (demo_ids "x") 0); DoTime 10;
    DoBegin "w1" None ] ++
  match origin with
  | Human => [DoClaim 0; DoClaim 0; DoClaim 0]
  | Automation => [DoClaim 0; DoClaim 0; DoClaim 0; DoClaim 0; DoClaim 0]
  end ++ [ DoCall (Start (demo_lease "x" 1 "w1")) ].

Example demo_runs :
  match exec_all (demo_start Human) demo with
  | Some s => (fun r => (i_status r, i_fence r, i_reservesThread r)) <$> y_invs s !! "x"
  | None => None
  end = Some (InvRunning, 1, true).
Proof. vm_compute. reflexivity. Qed.

(** The question of [x] is answered while it waits, with the reservation of its
    thread; [y] is queued on the other thread. *)
Definition demo_question : QuestionRow := mkQuestion "t1" "turn-x" "call" "answered" (Some "ann") 0.
Definition demo_waiting : list command :=
  demo_start Automation ++
  [ DoCall (RecordAction (demo_lease "x" 1 "w1") "call" "ask_user_questions" "a1");
    DoTables (fun ts => set_waits {["q1" := demo_question]} (dataRequests ts)
                (automationProposals ts) (bootstrapProposals ts) ts);
    DoCall (ParkQuestion (demo_lease "x" 1 "w1") "call" "q1");
    DoCall (Admit (demo_admission "t2" "k2" Automation) (demo_ids "y") 0); DoTime 10 ].

(** [claim] does not lock the invocation it has read: the owner cancels [x] between
    the claim's select and its update, [y] takes the capacity that came free, and
    the claim leases [x] all the same. *)
Definition demo_race : list command :=
  demo_waiting ++
  [ DoBegin "w2" None; DoClaim 0; DoClaim 0; DoCall (RequestCancel "ann" "x" 5);
    DoBegin "w3" None; DoClaim 1; DoClaim 1; DoClaim 1; DoClaim 1; DoClaim 1; DoClaim 0 ].

Definition demo_before : list command :=
  demo_waiting ++ [ DoBegin "w2" None; DoClaim 0; DoClaim 0; DoCall (RequestCancel "ann" "x" 5) ].

Definition demo_rest : list command := drop (length demo_before) demo_race.

(** What is seen of a run: a function of its last state. *)
Lemma exec_seen {A} (f : system -> A) (run : option system) a :
  f <$> run = Some a -> exists s, run = Some s /\ f s = a.
Proof. destruct run as [s|]; [|done]. cbn. intros [= <-]. eauto. Qed.

Definition status_of (id : string) (s : system) : option InvocationStatus :=
  i_status <$> y_invs s !! id.

Theorem claim_overtaken :
  exists s1 s2, rtc inv_step demo s1 /\ rtc inv_step s1 s2 /\
    status_of "x" s1 = Some InvCanceled /\ status_of "x" s2 = Some InvLeased /\
    capacity_used "bud" (y_invs s2) = 1 + automationConcurrencyPerBud.
Proof.
  assert ((fun x => (status_of "x" x.1, status_of "x" x.2, capacity_used "bud" (y_invs x.2))) <$>
    (s1 ← exec_all demo_before demo; s2 ← exec_all demo_rest s1; Some (s1, s2))
    = Some (Some InvCanceled, Some InvLeased, 2)) as E by (vm_compute; reflexivity).
  destruct (exec_all demo_before demo) as [s1|] eqn:E1; [|done]. cbn [mbind option_bind] in E.
  destruct (exec_all demo_rest s1) as [s2|] eqn:E2; [|done]. cbn [mbind option_bind] in E.
  exists s1, s2. injection E as [= Ea Eb Ec].
  split_and!; [by eapply exec_all_steps|by eapply exec_all_steps|exact Ea|exact Eb|exact Ec].
Qed.

(** ** Claims *)

(** C28: in every state that interleaved transactions, claims and the rest of the
    service reach, each invocation row is well typed: it has a worker and a lease
    exactly while it is leased or running (the table's check constraint never
    fires), it then reserves its thread, its work clock runs only while it is
    running, durations are not negative, and every attempt took a new fence. *)
Theorem invocation_rows_typed `{InvocationEnv} s0 s id r :
  initial s0 -> rtc inv_step s0 s -> y_invs s !! id = Some r -> lease_check r = true /\ row_ok r.
Proof.
  intros Hi Hr E. destruct (steps_ok _ _ (initial_sys_ok _ Hi) Hr) as (O & _).
  split; [apply row_ok_check|]; by eapply O.
Qed.

Lemma invocation_rows_typed_witness :
  exists s r, rtc inv_step demo s /\ y_invs s !! "x" = Some r /\ i_status r = InvRunning /\
    lease_check r = true.
Proof.
  destruct (exec_seen (status_of "x") (exec_all (demo_start Human) demo) (Some InvRunning))
    as (s & E & Es); [vm_compute; reflexivity|].
  unfold status_of in Es. destruct (y_invs s !! "x") as [r|] eqn:Ex; [|discriminate Es].
  injection Es as Es. exists s, r. split; [by eapply exec_all_steps|]. split; [done|]. split; [done|].
  apply (invocation_rows_typed demo s "x" r); [split; reflexivity|by eapply exec_all_steps|done].
Defined.

(** C29: in every reachable state a thread is reserved by at most one invocation,
    whatever commits between the statements of a claim (the unique index on
    reserved threads never fires).  In the runs in which no transaction changes an
    invocation that a claim has read and not yet written, a Bud never runs more
    automations than it may, and a settled invocation keeps its status. *)
Theorem reservations `{InvocationEnv} s0 s :
  initial s0 -> 0 <= automationConcurrencyPerBud ->
  (rtc inv_step s0 s -> one_reservation (y_invs s)) /\
  (rtc calm_step s0 s ->
     (forall bud, capacity_used bud (y_invs s) <= automationConcurrencyPerBud) /\
     forall s' id r, rtc calm_step s s' -> y_invs s !! id = Some r -> i_status r ∈ TERMINAL ->
       exists r', y_invs s' !! id = Some r' /\ i_status r' = i_status r).
Proof.
  intros Hi Hc. split.
  - intros Hr. by apply (steps_ok _ _ (initial_sys_ok _ Hi) Hr).
  - intros Hr. pose proof (calm_ok_steps _ _ (initial_calm _ Hi Hc) Hr) as C.
    split; [apply C|]. intros s' id r Hr' E T. by eapply settled_steps.
Qed.

(** [x] is leased and finished; [y] is then claimed in its place. *)
Definition demo_calm : list command :=
  demo_start Automation ++
  [ DoCall (Finish (demo_lease "x" 1 "w1") InvSucceeded "ok");
    DoCall (Admit (demo_admission "t2" "k2" Automation) (demo_ids "y") 0); DoTime 10;
    DoBegin "w2" None; DoClaim 0; DoClaim 0; DoClaim 0; DoClaim 0; DoClaim 0 ].

Lemma reservations_witness : initial demo /\ 0 <= automationConcurrencyPerBud /\
  exists s, rtc calm_step demo s /\ one_reservation (y_invs s) /\
    capacity_used "bud" (y_invs s) <= 1 /\ capacity_used "bud" (y_invs s) = 1.
Proof.
  split; [split; reflexivity|]. split; [by vm_compute|].
  destruct (exec_seen (fun s => capacity_used "bud" (y_invs s)) (exec_calm demo_calm demo) 1)
    as (s & E & Es); [vm_compute; reflexivity|].
  pose proof (exec_calm_steps _ _ _ E) as Hr. exists s. split; [done|].
  destruct (reservations demo s) as [H1 H2]; [split; reflexivity|by vm_compute|].
  split; [by apply H1, calm_steps_steps|]. split; [by apply H2|done].
Defined.

(** C30: leases are fenced.  In every reachable state: once a lease that was given
    out does not hold (another fence, another worker, not leased or running, or run
    out), every later call that presents it fails and changes nothing; two leases
    that hold on the same thread are the same lease; what a claim returns is a
    lease that holds, on the next fence, so the earlier leases on the invocation do
    not hold any more. *)
Theorem leases_fenced `{InvocationEnv} s0 s :
  initial s0 -> rtc inv_step s0 s ->
  (forall l s' op, fence_reached s l -> ~ holds_lease s l -> rtc inv_step s s' ->
     call_lease op = Some l ->
     exists e, invocationTimingTransaction (call_tx op (y_now s')) (y_invs s') (y_tables s') = Err e) /\
  (forall l l' r r', holds_lease s l -> holds_lease s l' -> y_invs s !! l_id l = Some r ->
     y_invs s !! l_id l' = Some r' -> i_threadId r = i_threadId r' -> l = l') /\
  (forall before c after writes r rows ts pub, y_claims s = before ++ c :: after ->
     claim_step c (before ++ after) (y_now s) (y_invs s) (y_tables s) = CommitTx writes ->
     invocationTimingTransaction writes (y_invs s) (y_tables s) = Ok (Some r, rows, ts, pub) ->
     lease_holds rows (y_now s) (mkLease (c_id c) (i_fence r) (i_workerId r) (i_createdByUserId r)) /\
     forall l, l_id l = c_id c -> fence_reached s l -> ~ lease_holds rows (y_now s) l).
Proof.
  intros Hi Hr. pose proof (steps_ok _ _ (initial_sys_ok _ Hi) Hr) as Hs. split_and!.
  - intros l s' op F N Hr' E. apply (without_lease op l); [by eapply steps_ok|done|]. by eapply lost_steps.
  - intros l l' r r'. by apply holds_one.
  - intros before c after writes r rows ts pub E E' T.
    destruct (claimed_holds _ _ _ _ _ _ _ _ _ Hs E E' T) as [Hh (r0 & Er & Ef)].
    split; [done|]. intros l El (r1 & Er1 & Fl) (r2 & E2 & M & L).
    destruct Hh as (r3 & E3 & M3 & _). cbn in E3. rewrite El in *. simplify_eq.
    apply lease_matches_spec in M as (_ & M & _). apply lease_matches_spec in M3 as (_ & M3 & _).
    cbn in M3. lia.
Qed.

(** The first worker's lease runs out; then [x] is recovered and goes to review. *)
Definition demo_expired : list command := demo_start Human ++ [DoTime 60000001].
Definition demo_recover : list command := [DoCall (RecoverExpired None [] ["x"])].

Definition seen_lease (s : system) : option (bool * bool) :=
  (fun r => (1 <=? i_fence r, lease_matches (demo_lease "x" 1 "w1") (y_now s) r)) <$> y_invs s !! "x".

Lemma leases_fenced_witness :
  exists s s', rtc inv_step demo s /\ rtc inv_step s s' /\ fence_reached s (demo_lease "x" 1 "w1") /\
    exists e, invocationTimingTransaction
      (call_tx (Finish (demo_lease "x" 1 "w1") InvSucceeded "ok") (y_now s'))
      (y_invs s') (y_tables s') = Err e.
Proof.
  assert ((fun x => (seen_lease x.1, status_of "x" x.2)) <$>
    (s1 ← exec_all demo_expired demo; s2 ← exec_all demo_recover s1; Some (s1, s2))
    = Some (Some (true, false), Some InvNeedsReview)) as E by (vm_compute; reflexivity).
  destruct (exec_all demo_expired demo) as [s|] eqn:E1; [|discriminate E]. cbn [mbind option_bind] in E.
  destruct (exec_all demo_recover s) as [s'|] eqn:E2; [|discriminate E].
  cbn [mbind option_bind] in E. injection E as [= Es _]. unfold seen_lease in Es.
  destruct (y_invs s !! "x") as [r|] eqn:Er; [|discriminate Es]. injection Es as [= Ef Em].
  assert (fence_reached s (demo_lease "x" 1 "w1")) as F.
  { exists r. split; [done|]. cbn. lia. }
  exists s, s'. split; [by eapply exec_all_steps|]. split; [by eapply exec_all_steps|]. split; [done|].
  apply (leases_fenced demo s) with (l := demo_lease "x" 1 "w1");
    [split; reflexivity|by eapply exec_all_steps|done| |by eapply exec_all_steps|done].
  intros (r' & Er' & M & _). cbn in Er'. rewrite Er in Er'. injection Er' as <-. congruence.
Defined.
