(* ===== verification/ContextStore.v ===== *)
(** The rows the context of a thread is built from
    ([service/src/agent/context-checkpoint-repository.ts],
    [compaction-message.ts], [model-context-order.ts]).

    Messages, threads and invocations are the tables of [Invocation]; a call of a
    model, its items and a checkpoint have the columns the code uses.  Times of the
    database are microseconds.  A [Date] is a whole number of milliseconds, so what
    the code reads as a [Date] is the time of the row cut down to its millisecond
    ([trunc_ms]), still counted in microseconds.

    Code that awaits statements is a program of [CM].  Before each statement
    anything may be committed by others ([interfere]), and the statement may fail, before
    or after it took effect ([statement_fault]: whether it did, and the name and message
    of the error); the clock, fresh ids and the answers of the model provider are
    arguments too.  PostgreSQL's [jsonb] refuses some texts ([jsonb_accepts]), such as
    an unpaired surrogate. *)
From Stdlib Require Import ZArith QArith Lia.
From stdpp Require Import base tactics strings gmap sorting option.
From stdpp Require Import list.
From S2P Require Import Prelude JsRuntime Json JsText Canonical ContextBudget ContextAccounting Invocation.
Open Scope Z_scope.

(** ** Rows *)

Record AgentContextCheckpointBoundary := mkBoundary {
  bo_messageCreatedAt : option Z;
  bo_messageId : option string;
  bo_llmCallCreatedAt : option Z;
  bo_llmCallId : option string
}.

Inductive CheckpointStatus := CkCompleted | CkFailed.

#[export] Instance CheckpointStatus_eq_dec : EqDecision CheckpointStatus.
Proof. solve_decision. Defined.

(** What a compaction is for: who started it, why, when in the turn, with which
    model. *)
Record CheckpointCause := mkCause {
  ca_trigger : string;
  ca_reason : string;
  ca_phase : string;
  ca_implementation : string;
  ca_sourceProvider : option string;
  ca_sourceModel : option string;
  ca_sourceReasoningEffort : option string
}.

Record AgentContextCheckpointRow := mkCheckpoint {
  ck_threadId : string;
  ck_cause : CheckpointCause;
  ck_status : CheckpointStatus;
  ck_summary : option string;
  ck_replacementHistory : list CanonicalMessage;
  ck_boundary : AgentContextCheckpointBoundary;      (** the four columns [compacted_through_*] *)
  ck_inputTokensBefore : option Z;
  ck_estimatedTokensAfter : option Z;
  ck_error : option jsonb;
  ck_tenantId : option string;
  ck_createdByUserId : option string;
  ck_createdAt : Z;
  ck_completedAt : option Z
}.

Record LlmCallRow := mkLlmCall {
  lc_threadId : string;
  lc_turnId : string;
  lc_stepIndex : Z;
  lc_provider : string;
  lc_model : string;
  lc_requestMode : string;
  lc_providerResponseId : option string;
  lc_status : string;
  lc_usage : jsval;
  lc_cacheMetadata : jsval;
  lc_promptCacheKey : option string;
  lc_createdByUserId : option string;
  lc_createdAt : Z;
  lc_completedAt : option Z
}.

Record LlmCallItemRow := mkLlmItem {
  li_llmCallId : string;
  li_threadId : string;
  li_direction : string;
  li_role : string;
  li_kind : string;
  li_sequence : Z;
  li_providerItemId : option string;
  li_toolCallId : option string;
  li_text : option string;
  li_canonicalPayload : jsonb;
  li_providerPayload : jsonb;
  li_visibility : string;
  li_messageId : option string;
  li_createdByUserId : option string
}.

Record context_db := mkContextDb {
  cx_invs : gmap string Invocation;
  cx_tables : tables;
  cx_calls : gmap string LlmCallRow;
  cx_items : gmap string LlmCallItemRow;
  cx_checkpoints : gmap string AgentContextCheckpointRow
}.

Definition with_messages (v : gmap string MessageRow) (d : context_db) : context_db :=
  mkContextDb (cx_invs d) (set_messages v (cx_tables d)) (cx_calls d) (cx_items d) (cx_checkpoints d).
Definition with_calls (v : gmap string LlmCallRow) (i : gmap string LlmCallItemRow)
    (d : context_db) : context_db :=
  mkContextDb (cx_invs d) (cx_tables d) v i (cx_checkpoints d).
Definition with_checkpoints (v : gmap string AgentContextCheckpointRow) (d : context_db)
    : context_db :=
  mkContextDb (cx_invs d) (cx_tables d) (cx_calls d) (cx_items d) v.

(** ** Programs *)

(** What is thrown: the provider's context window error, another error, or a value
    that is no error, by its text ([String(error)]). *)
Inductive failure :=
  | ContextWindowError (provider model message : string) (providerCode : option string)
  | JsError (name message : string)
  | Thrown (text : string).

Record ToolConfig := mkModelConfig {
  mc_model : string;
  mc_maxOutputTokens : Z;
  mc_reasoning : ReasoningConfig;
  mc_responseFormat : string;
  mc_toolChoice : string
}.

Record ProviderInvocationContext := mkProviderContext {
  pc_threadId : string;
  pc_budId : string;
  pc_ownerUserId : option string
}.

Record ProviderRequest := mkProviderRequest {
  rq_messages : list CanonicalMessage;
  rq_tools : list CanonicalTool;
  rq_config : ToolConfig;
  rq_context : ProviderInvocationContext
}.

Inductive CanonicalStreamEvent :=
  | EvMessageStart (id : string)
  | EvMessageDone (stop_reason : string) (usage : jsval)
  | EvTextDelta (index : Z) (delta : string)
  | EvError (error : failure)
  | EvOther.

(** The answer of a provider: it is not found, it answers at once (when it has
    [invokeSync]), or it streams events and then ends or throws. *)
Inductive ProviderAnswer :=
  | NoProvider (error : failure)
  | SyncAnswer (response : failure + list CanonicalContentBlock)
  | StreamAnswer (events : list CanonicalStreamEvent) (ending : option failure).

Class Surroundings := {
  interfere : nat -> context_db -> context_db;
  statement_fault : nat -> option (bool * string * string);
  clock_us : nat -> Z;
  context_ulid : nat -> string;
  random_uuid : nat -> string;
  message_client_id : nat -> string;
  provider_answer : nat -> ProviderRequest -> ProviderAnswer;
  jsonb_accepts : string -> bool
}.

Record ctx := mkCtx {
  w_db : context_db;
  w_awaits : nat;
  w_drawn : nat;
  w_requests : list ProviderRequest
}.

Definition CM (A : Type) := ctx -> (failure + A) * ctx.

#[export] Instance CM_mret : MRet CM := fun _ a w => (inr a, w).
#[export] Instance CM_mbind : MBind CM :=
  fun A B k m w => match m w with (inr a, w) => k a w | (inl e, w) => (inl e, w) end.

Definition throw_ {A} (e : failure) : CM A := fun w => (inl e, w).
(** [try { m } catch (err) { h(err) }]. *)
Definition catch {A} (m : CM A) (h : failure -> CM A) : CM A :=
  fun w => match m w with (inl e, w) => h e w | r => r end.

Section programs.
Context `{Surroundings}.

(** A statement: others commit first, then it runs on the state it finds, at the
    time of the database, or fails. *)
Definition statement {A} (st : Z -> context_db -> res (A * context_db)) : CM A :=
  fun w =>
    let n := w_awaits w in
    let d := interfere n (w_db w) in
    let w' d := mkCtx d (S n) (w_drawn w) (w_requests w) in
    match st (clock_us n) d, statement_fault n with
    | Ok (a, d'), None => (inr a, w' d')
    | Err m, None => (inl (JsError "Error" m), w' d)
    | Ok (a, d'), Some (true, name, message) => (inl (JsError name message), w' d')
    | _, Some (_, name, message) => (inl (JsError name message), w' d)
    end.

Definition select {A} (q : context_db -> res A) : CM A :=
  statement (fun _ d => a ← q d; Ok (a, d)).
Definition insert_row {A} (st : Z -> context_db -> A * context_db) : CM A :=
  statement (fun now d => Ok (st now d)).

Definition draw (f : nat -> string) : CM string :=
  fun w => (inr (f (w_drawn w)), mkCtx (w_db w) (w_awaits w) (S (w_drawn w)) (w_requests w)).

(** [new Date()] of the service, in microseconds. *)
Definition new_date : CM Z := fun w => (inr (trunc_ms (clock_us (w_awaits w))), w).

Definition ask_provider (r : ProviderRequest) : CM ProviderAnswer :=
  fun w => (inr (provider_answer (length (w_requests w)) r),
            mkCtx (w_db w) (w_awaits w) (w_drawn w) (w_requests w ++ [r])).
End programs.

(** ** The order of a thread *)

Notation stamped R := (Z * (string * R))%type.

(** [order by time asc, id asc]. *)
Definition row_before {R} (a b : stamped R) : Prop :=
  a.1 < b.1 \/ (a.1 = b.1 /\ str_lt b.2.1 a.2.1 = false).
#[export] Instance row_before_dec {R} : RelDecision (@row_before R).
Proof. intros a b. unfold row_before. apply _. Defined.

(** The row is after the time and id of a boundary. *)
Definition row_after {R} (at_ : Z) (id : string) (r : stamped R) : bool :=
  (at_ <? r.1) || ((at_ =? r.1) && str_lt id r.2.1).

Section order.
Context `{InvocationEnv}.

(** Each row with the time of its place in the model's context. *)
Fixpoint timed (rows : gmap string Invocation) (ms : list (string * MessageRow))
    : res (list (stamped MessageRow)) :=
  match ms with
  | [] => Ok []
  | (mid, m) :: ms =>
      t ← modelContextMessageCreatedAt rows mid m;
      rest ← timed rows ms;
      mret (match t with Some t => (t, (mid, m)) :: rest | None => rest end)
  end.

(** The visible messages of a thread in the order of the model's context. *)
Definition context_messages (threadId : string) (d : context_db) : res (list (stamped MessageRow)) :=
  ts ← timed (cx_invs d)
         (rows_where (fun mid m => bool_decide (m_threadId m = threadId) &&
                        modelContextMessageVisible (cx_invs d) mid m) (messages (cx_tables d)));
  mret (merge_sort row_before ts).

Definition context_calls (P : LlmCallRow -> bool) (d : context_db) : list (stamped LlmCallRow) :=
  merge_sort row_before ((fun x : string * LlmCallRow => (lc_createdAt x.2, x)) <$>
    rows_where (fun _ c => P c) (cx_calls d)).
Definition of_thread (threadId : string) (c : LlmCallRow) : bool :=
  bool_decide (lc_threadId c = threadId).

(** ** Checkpoints *)

Section checkpoints.
Context `{Surroundings}.

Definition getLatestCompletedContextCheckpoint (threadId : string)
    : CM (option (string * AgentContextCheckpointRow)) :=
  select (fun d => Ok (snd <$> last (merge_sort row_before
    ((fun x : string * AgentContextCheckpointRow => (ck_createdAt x.2, x)) <$>
       rows_where (fun _ c => bool_decide (ck_threadId c = threadId) &&
                              bool_decide (ck_status c = CkCompleted)) (cx_checkpoints d))))).

Definition countCompletedContextCheckpoints (threadId : string) : CM Z :=
  select (fun d => Ok (zlen (rows_where (fun _ c => bool_decide (ck_threadId c = threadId) &&
                              bool_decide (ck_status c = CkCompleted)) (cx_checkpoints d)))).

Definition getCurrentContextCheckpointBoundary (threadId : string)
    : CM AgentContextCheckpointBoundary :=
  message ← select (fun d => rows ← context_messages threadId d; Ok (last rows));
  llmCall ← select (fun d => Ok (last (context_calls (of_thread threadId) d)));
  mret (mkBoundary (trunc_ms ∘ fst <$> message) (fst ∘ snd <$> message)
          (trunc_ms ∘ fst <$> llmCall) (fst ∘ snd <$> llmCall)).

Definition getThreadCheckpointOwner (threadId : string) : CM (option string * option string) :=
  select (fun d => Ok (threads (cx_tables d) !! threadId ≫= th_createdByUserId,
                       threads (cx_tables d) !! threadId ≫= th_tenantId)).

(** Every text of a value, keys included. *)
Fixpoint json_texts (v : jsval) : list string :=
  match v with
  | JStr s => [s]
  | JArr l => concat (List.map json_texts l)
  | JObj fs => concat (List.map (fun kv => kv.1 :: json_texts kv.2) fs)
  | _ => []
  end.
Definition jsonb_ok (v : jsval) : bool := forallb jsonb_accepts (json_texts v).
Definition JSONB_REFUSED : string := "invalid input syntax for type json".

Record CheckpointArgs := mkCheckpointArgs {
  cg_threadId : string;
  cg_cause : CheckpointCause;
  cg_boundaries : AgentContextCheckpointBoundary;
  cg_inputTokensBefore : option Z;
  cg_ownerUserId : option string;
  cg_tenantId : option string
}.

Definition insert_checkpoint (id : string) (row : Z -> AgentContextCheckpointRow) (columns : jsval)
    : CM (string * AgentContextCheckpointRow) :=
  statement (fun now d =>
    if jsonb_ok columns then
      Ok ((id, row now), with_checkpoints (<[id := row now]> (cx_checkpoints d)) d)
    else Err JSONB_REFUSED).

Definition recordCompletedContextCheckpoint (args : CheckpointArgs) (summary : string)
    (replacementHistory : list CanonicalMessage) (estimatedTokensAfter : Z)
    : CM (string * AgentContextCheckpointRow) :=
  checkpointId ← draw context_ulid;
  completedAt ← new_date;
  insert_checkpoint checkpointId
    (fun now => mkCheckpoint (cg_threadId args) (cg_cause args) CkCompleted (Some summary)
       replacementHistory (cg_boundaries args) (cg_inputTokensBefore args)
       (Some estimatedTokensAfter) None (cg_tenantId args) (cg_ownerUserId args) now (Some completedAt))
    (messages_json replacementHistory).

(** [boundErrorRecord]: the message at most a thousand units long. *)
Definition boundErrorRecord (error : jsonb) : jsonb :=
  match field_lookup "message" error with
  | JStr m => if 1000 <? js_length m
              then JsMap.set "message" (JStr (js_take 1000 m +:+ "... [truncated]")) error else error
  | _ => error
  end.

Definition recordFailedContextCheckpoint (args : CheckpointArgs) (error : jsonb)
    : CM (string * AgentContextCheckpointRow) :=
  checkpointId ← draw context_ulid;
  completedAt ← new_date;
  insert_checkpoint checkpointId
    (fun now => mkCheckpoint (cg_threadId args) (cg_cause args) CkFailed None [] (cg_boundaries args)
       (cg_inputTokensBefore args) None (Some (boundErrorRecord error)) (cg_tenantId args)
       (cg_ownerUserId args) now (Some completedAt))
    (JObj (boundErrorRecord error)).

(** ** The transcript row of a compaction *)

Definition COMPACTION_MESSAGE_ROLE : string := "compaction".
Definition COMPACTION_MESSAGE_DISPLAY_ROLE : string := "Context compacted".
Definition COMPACTION_ARTIFACT_KIND : string := "context_compaction".

Definition buildCompactionMessageValues (checkpointId clientId : string) (now : Z)
    (c : AgentContextCheckpointRow) (turnId : option string) : MessageRow :=
  mkMessage clientId (ck_threadId c) COMPACTION_MESSAGE_ROLE (Some COMPACTION_MESSAGE_DISPLAY_ROLE)
    (ck_summary c ?? "")
    ([("artifact_kind", JStr COMPACTION_ARTIFACT_KIND); ("model_visible", JBool false);
      ("status", JStr "completed"); ("checkpoint_id", JStr checkpointId)]
     ++ (if ostr_truthy turnId then member "turn_id" JStr turnId else [])
     ++ [("trigger", JStr (ca_trigger (ck_cause c))); ("reason", JStr (ca_reason (ck_cause c)));
         ("phase", JStr (ca_phase (ck_cause c)));
         ("tokens_before", nullable num (ck_inputTokensBefore c));
         ("tokens_after", nullable num (ck_estimatedTokensAfter c));
         ("compacted_through_message_id", nullable JStr (bo_messageId (ck_boundary c)));
         ("compacted_through_llm_call_id", nullable JStr (bo_llmCallId (ck_boundary c)));
         ("source_provider", nullable JStr (ca_sourceProvider (ck_cause c)));
         ("source_model", nullable JStr (ca_sourceModel (ck_cause c)));
         ("source_reasoning_effort", nullable JStr (ca_sourceReasoningEffort (ck_cause c)));
         ("replacement_history_message_count", num (zlen (ck_replacementHistory c)))])
    (ck_tenantId c) (ck_createdByUserId c)
    (match ck_completedAt c with Some t => trunc_ms t | None => trunc_ms (ck_createdAt c) end).

Record SerializedCompactionMessage := mkSerialized {
  sm_message_id : string;
  sm_client_id : string;
  sm_role : string;
  sm_display_role : string;
  sm_content : string;
  sm_metadata : jsonb;
  sm_created_at : string
}.

Definition serializeCompactionMessage (messageId : string) (m : MessageRow)
    : SerializedCompactionMessage :=
  mkSerialized messageId (m_clientId m) COMPACTION_MESSAGE_ROLE
    (m_displayRole m ?? COMPACTION_MESSAGE_DISPLAY_ROLE) (m_content m) (m_metadata m)
    (toISOString (m_createdAt m / 1000)).

Definition insertCompactionMessage (checkpoint : string * AgentContextCheckpointRow)
    (turnId : option string) : CM SerializedCompactionMessage :=
  messageId ← draw random_uuid;
  clientId ← draw message_client_id;
  now ← new_date;
  let row := buildCompactionMessageValues checkpoint.1 clientId now checkpoint.2 turnId in
  statement (fun _ d =>
    if jsonb_ok (JObj (m_metadata row)) then
      Ok (serializeCompactionMessage messageId row,
          with_messages (<[messageId := row]> (messages (cx_tables d))) d)
    else Err JSONB_REFUSED).
End checkpoints.
End order.
