(* ===== verification/ProviderLedger.v ===== *)
(** The ledger of model calls ([service/src/llm/provider-ledger.ts]): each call with
    the items it gave back, from which the conversation of a thread is rebuilt. *)
From Stdlib Require Import ZArith QArith Lia.
From stdpp Require Import base tactics strings gmap sorting option.
From stdpp Require Import list.
From S2P Require Import Prelude JsRuntime Json JsText Canonical ContextBudget ContextAccounting Invocation ContextStore.
Open Scope Z_scope.

Section ledger.
Context `{NumberText} `{Surroundings}.

(** [JSON.parse(JSON.stringify(v ?? {}))]; the text of a value always parses. *)
Definition json_clone (v : jsval) : jsval :=
  JSON_parse (JSON_stringify (match v with JUndef | JNull => JObj [] | v => v end)) ?? JNull.

Definition jsonRecord (v : jsval) : jsonb :=
  match json_clone v with JObj fs => fs | normalized => [("value", normalized)] end.

(** ** Items *)

Definition kindForBlock (b : CanonicalContentBlock) : string :=
  match b with
  | TextBlock _ _ => "text"
  | ToolUseBlock _ _ _ => "tool_use"
  | ToolResultBlock _ _ _ => "tool_result"
  | ReasoningBlock _ _ => "reasoning"
  | ReasoningRedactedBlock _ => "reasoning_redacted"
  | ImageBlock _ _ => "image"
  end.

Definition visibilityForBlock (b : CanonicalContentBlock) : string :=
  match b with
  | TextBlock _ _ => "product_text"
  | ToolUseBlock _ _ _ | ToolResultBlock _ _ _ => "tool"
  | _ => "provider_only"
  end.

Definition textForBlock (b : CanonicalContentBlock) : option string :=
  match b with TextBlock t _ | ReasoningBlock t _ => Some t | _ => None end.

Definition block_provider_data (b : CanonicalContentBlock) : option CanonicalProviderData :=
  match b with ReasoningBlock _ d | ReasoningRedactedBlock d => d | _ => None end.

Definition providerItemIdForBlock (b : CanonicalContentBlock) : option string :=
  match b with
  | ToolUseBlock i _ _ => Some i
  | ReasoningBlock _ (Some d) => as_string (prop "id" (pdata_payload d))
  | _ => None
  end.

Definition buildOutputItemValue (llmCallId threadId : string) (sequence : Z)
    (b : CanonicalContentBlock) (messageId ownerUserId : option string) : LlmCallItemRow :=
  mkLlmItem llmCallId threadId "output" "assistant" (kindForBlock b) sequence
    (providerItemIdForBlock b)
    (match b with ToolUseBlock i _ _ => Some i | _ => None end)
    (textForBlock b) (jsonRecord (block_json b))
    (match block_provider_data b with
     | Some d => if json_truthy (pdata_payload d) then jsonRecord (pdata_payload d) else []
     | None => []
     end)
    (visibilityForBlock b) messageId ownerUserId.

Record RecordLlmCallArgs := mkRecordCall {
  ra_llmCallId : option string;
  ra_threadId : string;
  ra_turnId : string;
  ra_stepIndex : Z;
  ra_provider : string;
  ra_model : string;
  ra_requestMode : string;
  ra_providerResponseId : option string;
  ra_output : list CanonicalContentBlock;
  ra_usage : option jsval;
  ra_metadata : jsonb;               (** [cacheMetadataFromUsage] *)
  ra_ownerUserId : option string;
  ra_assistantMessageId : option string;
  ra_promptCacheKey : option string;
  ra_contextBaseline : option ContextRequestBaseline
}.

(** The rows of a call and its items go in in one transaction. *)
Definition recordLlmCall (args : RecordLlmCallArgs) : CM string :=
  llmCallId ← match ra_llmCallId args with Some i => mret i | None => draw context_ulid end;
  ids ← mapM (fun b => i ← draw context_ulid; mret (i, b)) (indexed (ra_output args));
  completedAt ← new_date;
  let item (x : nat * CanonicalContentBlock) :=
    buildOutputItemValue llmCallId (ra_threadId args) (Z.of_nat x.1) x.2
      (match x.2 with
       | TextBlock _ _ => if ostr_truthy (ra_assistantMessageId args)
                          then ra_assistantMessageId args else None
       | _ => None
       end) (ra_ownerUserId args) in
  let metadata := ra_metadata args ++ member "context_baseline" baseline_json (ra_contextBaseline args) in
  insert_row (fun now d =>
    (llmCallId,
     with_calls
       (<[llmCallId := mkLlmCall (ra_threadId args) (ra_turnId args) (ra_stepIndex args)
            (ra_provider args) (ra_model args) (ra_requestMode args) (ra_providerResponseId args)
            "completed" (match ra_usage args with Some u => JObj (jsonRecord u) | None => JNull end)
            (JObj (jsonRecord (JObj metadata)))
            (ra_promptCacheKey args) (ra_ownerUserId args) now (Some completedAt)]> (cx_calls d))
       (foldl (fun items x => <[x.1 := item x.2]> items) (cx_items d) ids) d)).

Definition recordLlmToolResultItem (llmCallId threadId : string) (sequence : Z)
    (toolCallId content : string) (payload : jsval) (messageId ownerUserId : option string) : CM unit :=
  id ← draw context_ulid;
  insert_row (fun _ d =>
    (tt, with_calls (cx_calls d)
       (<[id := mkLlmItem llmCallId threadId "input" "user" "tool_result" sequence None
            (Some toolCallId) (Some content)
            (jsonRecord (JObj [("type", JStr "tool_result"); ("tool_use_id", JStr toolCallId);
                               ("content", JStr content)]))
            (jsonRecord payload) "tool" messageId ownerUserId]> (cx_items d)) d)).

Definition is_record (v : jsval) : bool := match v with JObj _ => true | _ => false end.

Definition reasoningBlockFromPayload (canonicalPayload providerPayload : jsonb)
    : option CanonicalContentBlock :=
  text ← as_string (field_lookup "text" canonicalPayload);
  let data := field_lookup "providerData" canonicalPayload in
  Some (match as_string (prop "provider" data) with
        | Some p =>
            if bool_decide (p ∈ ["openai"; "anthropic"; "ds4"])
            then ReasoningBlock text (Some (mkProviderData p
                   (match providerPayload with [] => prop "payload" data | _ => JObj providerPayload end)))
            else ReasoningBlock text None
        | None => ReasoningBlock text None
        end).

Definition blockFromPayload (kind : string) (canonicalPayload providerPayload : jsonb)
    : option CanonicalContentBlock :=
  let get k := field_lookup k canonicalPayload in
  if decide (kind = "text") then
    t ← as_string (get "text");
    Some (TextBlock t (parseAssistantMessagePhase (get "assistantPhase")))
  else if decide (kind = "tool_use") then
    i ← as_string (get "id");
    n ← as_string (get "name");
    if is_record (get "input") then Some (ToolUseBlock i n (get "input")) else None
  else if decide (kind = "reasoning") then reasoningBlockFromPayload canonicalPayload providerPayload
  else if decide (kind = "reasoning_redacted") then
    Some (ReasoningRedactedBlock (Some (mkProviderData "anthropic"
      (match providerPayload with [] => JObj canonicalPayload | _ => JObj providerPayload end))))
  else None.

(** ** Reading a thread *)

Record ProviderLedgerMessage := mkLedgerMessage {
  lm_createdAt : Z;
  lm_llmCallId : string;
  lm_model : string;
  lm_requestMode : string;
  lm_content : list CanonicalContentBlock
}.

Notation ledger_boundary := (option (option Z * option string)).

(** [llmCallAfterBoundary]. *)
Definition call_after (boundary : ledger_boundary) (c : stamped LlmCallRow) : bool :=
  match boundary with
  | Some (Some t, Some id) => if str_truthy id then row_after t id c else true
  | _ => true
  end.

Definition parseRequestMode (v : string) : string :=
  if bool_decide (v ∈ ["openai_responses"; "anthropic_messages"; "ds4_openai_responses"; "ds4_openai_chat"])
  then v else "openai_responses".

Definition has_phase (b : CanonicalContentBlock) : bool :=
  match b with TextBlock _ None => false | _ => true end.
Definition is_tool_use (b : CanonicalContentBlock) : bool :=
  match b with ToolUseBlock _ _ _ => true | _ => false end.

Definition deriveOpenAIAssistantPhases (content : list CanonicalContentBlock)
    : list CanonicalContentBlock :=
  let fallbackPhase := if existsb is_tool_use content then Commentary else FinalAnswer in
  (fun b => match b with TextBlock t None => TextBlock t (Some fallbackPhase) | _ => b end) <$> content.

(** The items of a call in the order of their sequence. *)
Definition item_before (a b : string * LlmCallItemRow) : Prop := li_sequence a.2 <= li_sequence b.2.
#[export] Instance item_before_dec : RelDecision item_before.
Proof. intros a b. unfold item_before. apply _. Defined.
Definition items_of (llmCallId : string) (d : context_db) : list LlmCallItemRow :=
  snd <$> merge_sort item_before
    (rows_where (fun _ i => bool_decide (li_llmCallId i = llmCallId)) (cx_items d)).

(** The block an item of a call adds to its content. *)
Definition item_block (i : LlmCallItemRow) : option CanonicalContentBlock :=
  if bool_decide (li_direction i = "output") && str_truthy (li_kind i)
  then blockFromPayload (li_kind i) (li_canonicalPayload i) (li_providerPayload i) else None.

(** The joined rows grouped by call: a call without items has no row. *)
Definition ledger_message (provider : string) (d : context_db) (c : stamped LlmCallRow)
    : option ProviderLedgerMessage :=
  let content := omap item_block (items_of c.2.1 d) in
  match content with
  | [] => None
  | _ => if str_truthy c.2.1 then
           Some (mkLedgerMessage (trunc_ms c.1) c.2.1 (lc_model c.2.2)
             (parseRequestMode (lc_requestMode c.2.2))
             (if bool_decide (provider = "openai") then deriveOpenAIAssistantPhases content
              else content))
         else None
  end.

Definition loadProviderLedgerMessages (threadId provider : string) (after : ledger_boundary)
    : CM (list ProviderLedgerMessage) :=
  select (fun d => Ok (omap (ledger_message provider d)
    (List.filter (call_after after)
       (context_calls (fun c => of_thread threadId c && bool_decide (lc_provider c = provider)) d)))).

Definition CANONICAL_PROVIDER_IDS : list string := ["openai"; "anthropic"; "ds4"].

(** Counts by provider: only the providers with something to count. *)
Notation counts := (list (string * Z)).

Record ProviderLedgerThreadDiagnostics := mkLedgerDiagnostics {
  providerCallCounts : counts;
  outputItemCounts : counts;
  providerOnlyOutputItemCounts : counts;
  itemlessCompletedCallCounts : option counts;
  outputlessCompletedCallCounts : option counts
}.

Definition emptyProviderLedgerThreadDiagnostics : ProviderLedgerThreadDiagnostics :=
  mkLedgerDiagnostics [] [] [] None None.

Definition count_by (f : string -> Z) : counts :=
  omap (fun p => if 0 <? f p then Some (p, f p) else None) CANONICAL_PROVIDER_IDS.
Definition nonempty_counts (c : counts) : option counts := match c with [] => None | _ => Some c end.

Definition loadProviderLedgerThreadDiagnostics (threadId : string) (after : ledger_boundary)
    : CM ProviderLedgerThreadDiagnostics :=
  select (fun d =>
    let calls := List.filter (call_after after) (context_calls (of_thread threadId) d) in
    let of_provider p := List.filter (fun c : stamped LlmCallRow => bool_decide (lc_provider c.2.2 = p)) calls in
    let output (c : stamped LlmCallRow) :=
      List.filter (fun i => bool_decide (li_direction i = "output")) (items_of c.2.1 d) in
    let only c := List.filter (fun i => bool_decide (li_visibility i = "provider_only")) (output c) in
    let completed (c : stamped LlmCallRow) := bool_decide (lc_status c.2.2 = "completed") in
    let itemless c := bool_decide (items_of c.2.1 d = []) in
    let sum f p := zsum (f <$> of_provider p) in
    let number f p := zlen (List.filter f (of_provider p)) in
    Ok (mkLedgerDiagnostics (count_by (fun p => zlen (of_provider p)))
          (count_by (sum (fun c => zlen (output c)))) (count_by (sum (fun c => zlen (only c))))
          (nonempty_counts (count_by (number (fun c => completed c && itemless c))))
          (nonempty_counts (count_by (number (fun c => completed c && negb (itemless c)
                                        && bool_decide (output c = []))))))).

(** [buildRequestMode]. *)
Definition buildRequestMode (provider : string) : string :=
  if decide (provider = "openai") then "openai_responses"
  else if decide (provider = "anthropic") then "anthropic_messages" else "ds4_openai_responses".

Definition createCanonicalAssistantMessageFromLedger (content : list CanonicalContentBlock)
    : CanonicalMessage := mkCanonical Assistant (inr content).

Definition loadLatestContextUsageAnchor (threadId : string) : CM (option ContextUsageAnchor) :=
  select (fun d => Ok
    ((fun c : stamped LlmCallRow => mkAnchor c.2.1 (prop "context_baseline" (lc_cacheMetadata c.2.2))
                                      (lc_usage c.2.2)) <$>
     last (context_calls (fun c => of_thread threadId c && bool_decide (lc_status c = "completed")) d))).
End ledger.
