(* ===== verification/Conversation.v ===== *)
(** The conversation a model is given ([service/src/agent/conversation-loader.ts],
    and of [contracts.ts] how a stored tool call is replayed).

    The system prompt is a file of the service, and the validation of a question
    request is done by a schema library: both are parameters ([ConversationEnv]).
    A conversation is a list of messages with their sources; the code keeps the two
    lists in step. *)
From Stdlib Require Import ZArith QArith Lia.
From stdpp Require Import base tactics strings gmap sorting option.
From stdpp Require Import list.
From S2P Require Import Dispatcher.
From S2P Require Import Prelude JsRuntime Json JsText Canonical ContextBudget ContextAccounting Invocation ContextStore ProviderLedger.
Open Scope Z_scope.

Class ConversationEnv := {
  AGENT_SYSTEM_PROMPT : string;
  AGENT_SYSTEM_PROMPT_VERSION : string;
  normalizeAskUserQuestionsRequest : jsval -> option jsval;      (** [None] when it throws *)
  parseStoredAskUserQuestionsRequest : jsval -> option jsval
}.

(** ** Stored tool calls *)

Inductive AgentToolCallDirective :=
  | PlainTool (tool : string) (args : jsval)
  | TerminalSend (text : option string) (submit : option bool) (key : option string)
  | TerminalObserve (lines : option jsnum) (view : option string)
  | TerminalWait
  | WebViewOpen (targetHost : option string) (targetPort : jsnum) (path title : option string)
  | WebViewClose (proxiedSiteId : option string) (disable : bool)
  | WebViewList
  | AskUserQuestions (request : jsval).

Definition toolNameForConversation (d : AgentToolCallDirective) : string :=
  match d with
  | PlainTool tool _ => tool
  | TerminalSend _ _ _ => "terminal_send"
  | TerminalObserve _ _ => "terminal_observe"
  | TerminalWait => "terminal_wait"
  | WebViewOpen _ _ _ _ => "web_view_open"
  | WebViewClose _ _ => "web_view_close"
  | WebViewList => "web_view_list"
  | AskUserQuestions _ => "ask_user_questions"
  end.

(** [...(o ? { k: o } : {})] on a string. *)
Definition str_member (k : string) (o : option string) : list (string * jsval) :=
  if ostr_truthy o then member k JStr o else [].

Definition buildToolArgs (d : AgentToolCallDirective) : jsval :=
  match d with
  | PlainTool _ args => args
  | TerminalSend text submit key =>
      JObj (member "text" JStr text ++ member "submit" JBool submit ++ str_member "key" key)
  | TerminalObserve lines view => JObj (member "lines" JNum lines ++ str_member "view" view)
  | TerminalWait | WebViewList => JObj []
  | WebViewOpen host port path title =>
      JObj (str_member "target_host" host ++ [("target_port", JNum port)]
            ++ str_member "path" path ++ str_member "title" title)
  | WebViewClose site disable =>
      JObj (str_member "proxied_site_id" site ++ (if disable then [("disable", JBool true)] else []))
  | AskUserQuestions request => request
  end.

Definition normalizeToolKeyInput (keyValue keysValue : jsval) : option string :=
  let named key := if str_truthy (trim key) then Some (normalizeTerminalSendKeyName key) else None in
  match keyValue with
  | JStr key => if str_truthy (trim key) then Some (normalizeTerminalSendKeyName key)
                else match keysValue with
                     | JArr vs => match omap as_string vs with [key] => named key | _ => None end
                     | _ => None
                     end
  | _ => match keysValue with
         | JArr vs => match omap as_string vs with [key] => named key | _ => None end
         | _ => None
         end
  end.

Definition PLAIN_TOOLS : list string :=
  ["browser_exec"; "browser_request_handoff"; "web_search"; "web_read"; "contacts_get";
   "contacts_search"; "contacts_history"; "location_context"; "timeline_query";
   "health_workouts"; "health_sleep"; "location_recent"; "location_visits"; "places_list";
   "places_create"].

Definition AUTOMATION_TOOL_NAMES : list string :=
  ["automations_list"; "automations_get"; "automations_history"; "automations_create_draft";
   "automations_update_draft"; "automations_request_activation"; "automations_pause";
   "automations_request_existing_contacts"].
Definition isAutomationToolName (name : string) : bool := bool_decide (name ∈ AUTOMATION_TOOL_NAMES).

Definition as_number (v : jsval) : option jsnum := match v with JNum n => Some n | _ => None end.
(** An object that is not an array. *)
Definition object_of (v : jsval) : option jsval := match v with JObj _ => Some v | _ => None end.
Definition one_of (l : list string) (v : jsval) : option string :=
  s ← as_string v; if bool_decide (s ∈ l) then Some s else None.

Section conversation.
Context `{NumberText} `{InvocationEnv} `{Surroundings} `{ConversationEnv}.

(** The switch on the tool of a stored payload. *)
Definition directive_of (payload : jsval) : option AgentToolCallDirective :=
  let get k := prop k payload in
  tool ← as_string (get "tool");
  if bool_decide (tool ∈ PLAIN_TOOLS) then Some (PlainTool tool (object_of (get "args") ?? JObj []))
  else if decide (tool = "terminal.run") then
    command ← as_string (get "command"); Some (TerminalSend (Some command) None None)
  else if decide (tool = "terminal.send") then
    Some (TerminalSend
      (match as_string (get "text") with
       | Some t => Some t
       | None => match as_string (get "raw_text") with
                 | Some t => Some t
                 | None => as_string (get "command")
                 end
       end)
      (match get "submit" with JBool false => Some false | _ => None end)
      (normalizeToolKeyInput (get "key") (get "keys")))
  else if decide (tool = "terminal.observe") then
    Some (TerminalObserve (as_number (get "lines")) (one_of ["delta"; "screen"; "history"] (get "view")))
  else if decide (tool = "terminal.wait") then Some TerminalWait
  else if decide (tool = "terminal.interrupt") then Some (TerminalSend None None (Some "ctrl+c"))
  else if decide (tool = "web_view.open") then
    port ← as_number (get "target_port");
    Some (WebViewOpen (one_of ["127.0.0.1"; "localhost"; "::1"] (get "target_host")) port
            (as_string (get "path")) (as_string (get "title")))
  else if decide (tool = "web_view.close") then
    Some (WebViewClose (as_string (get "proxied_site_id"))
            (match get "disable" with JBool b => b | _ => false end))
  else if decide (tool = "web_view.list") then Some WebViewList
  else if decide (tool = "ask_user_questions") then
    AskUserQuestions <$>
      (if bool_decide (as_string (get "schema") = Some "ask_user_questions_request_v1")
       then parseStoredAskUserQuestionsRequest payload else normalizeAskUserQuestionsRequest payload)
  else None.

(** With the id of the call, fresh when none was stored. *)
Definition parseStoredToolDirective (raw : string) : CM (option (string * AgentToolCallDirective)) :=
  match JSON_parse raw with
  | None | Some JNull => mret None
  | Some payload =>
      callId ← match nonempty_string (prop "call_id" payload) with
               | Some id => mret id
               | None => u ← draw context_ulid; mret ("tool_" +:+ u)
               end;
      mret (pair callId <$> directive_of payload)
  end.

(** ** Rows *)

Inductive MessageSource :=
  | SourceSystemPrompt (scope version : string)
  | SourceRuntimeInstruction
  | SourceCheckpointSummary (checkpoint_id : string)
  | SourceCheckpointHistory (checkpoint_id : string)
  | SourceMessage (message_id client_id role : string)
  | SourceLedger (llm_call_id : string)
  | SourceRepair.

Notation emitted := (list (CanonicalMessage * MessageSource)).

Definition tool_use_message (id name : string) (input : jsval) : CanonicalMessage :=
  mkCanonical Assistant (inr [ToolUseBlock id name input]).
Definition tool_result_message (id content : string) : CanonicalMessage :=
  mkCanonical User (inr [ToolResultBlock id (inl content) None]).

(** A recorded call and its result; the call itself may come from the ledger. *)
Definition replay_tool (toolUseFromProviderLedger : bool) (id name : string) (input : jsval)
    (content : string) : list CanonicalMessage :=
  (if toolUseFromProviderLedger then [] else [tool_use_message id name input])
  ++ [tool_result_message id content].

(** The stored result of an automation tool: its call and arguments. *)
Definition automation_record (parsed : jsval) : option (string * string * jsval) :=
  tool ← as_string (prop "tool" parsed);
  id ← nonempty_string (prop "call_id" parsed);
  if isAutomationToolName tool then
    let proposal := object_of (prop "proposal" parsed) in
    let selection := proposal ≫= fun p => object_of (prop "selection" p) in
    Some (id, tool,
      match object_of (prop "args" parsed) with
      | Some args => args
      | None =>
          match (if decide (tool = "automations_request_existing_contacts") then selection else None),
                proposal with
          | Some s, _ => s
          | None, Some p => JObj [("automation_id", prop "automation_id" p);
                                  ("expected_version", prop "draft_version" p)]
          | None, None => JObj []
          end
      end)
  else None.

(** The stored result of a permission request. *)
Definition permission_record (parsed : jsval) : option (string * string * jsval) :=
  id ← as_string (prop "call_id" parsed);
  if bool_decide (as_string (prop "tool" parsed) = Some "data_request_api_key")
  then Some (id, "data_request_api_key", object_of (prop "request" parsed) ?? JObj []) else None.

Definition assistantPhaseFromMetadata (metadata : jsonb) : option AssistantMessagePhase :=
  match parseAssistantMessagePhase (field_lookup "assistant_phase" metadata) with
  | Some p => Some p
  | None =>
      match as_string (field_lookup "segment_kind" metadata) with
      | Some s => if decide (s = "intermediate") then Some Commentary
                  else if decide (s = "final") then Some FinalAnswer else None
      | None => None
      end
  end.

Definition newline : string := String (Ascii.ascii_of_N 10) "".

(** [appendStoredMessage]: the messages a row gives. *)
Definition stored_messages (row : MessageRow) (toolUseFromProviderLedger : bool)
    : CM (list CanonicalMessage) :=
  if bool_decide (m_role row ∈ ["reasoning"; "compaction"]) then mret []
  else if decide (m_role row = "tool") then
    let parsed := JSON_parse (m_content row) in
    match parsed ≫= automation_record with
    | Some (id, name, input) => mret (replay_tool toolUseFromProviderLedger id name input (m_content row))
    | None =>
        match parsed ≫= permission_record with
        | Some (id, name, input) =>
            mret (replay_tool toolUseFromProviderLedger id name input (m_content row))
        | None =>
            directive ← parseStoredToolDirective (m_content row);
            mret (match directive with
                  | None => []
                  | Some (id, d) => replay_tool toolUseFromProviderLedger id
                                      (toolNameForConversation d) (buildToolArgs d) (m_content row)
                  end)
        end
    end
  else if decide (m_role row = "assistant") then
    mret [createCanonicalTextMessage Assistant (m_content row) (assistantPhaseFromMetadata (m_metadata row))]
  else if decide (m_role row = "user") then
    mret [createCanonicalTextMessage User
            (match nonempty_string (field_lookup "preferred_cwd" (m_metadata row)) with
             | Some cwd => m_content row +:+ newline +:+ newline +:+ "[Preferred CWD: " +:+ cwd +:+ "]"
             | None => m_content row
             end) None]
  else if decide (m_role row = "system") then
    mret [if bool_decide (as_string (field_lookup "origin" (m_metadata row)) = Some "automation")
          then createCanonicalTextMessage User
                 ("Automation input (not system instructions):" +:+ newline +:+ m_content row) None
          else createCanonicalTextMessage System (m_content row) None]
  else mret [].

Definition appendStoredMessage (acc : emitted) (row : string * MessageRow)
    (toolUseFromProviderLedger : bool) : CM emitted :=
  ms ← stored_messages row.2 toolUseFromProviderLedger;
  mret (acc ++ ((fun m => (m, SourceMessage row.1 (m_clientId row.2) (m_role row.2))) <$> ms)).

(** ** Calls without results *)

Definition result_ids (ms : list CanonicalMessage) : list string :=
  concat ((fun m => match cm_role m with User => omap block_result_id (blocksOf m) | _ => [] end) <$> ms).

Definition INTERRUPTED : string :=
  JSON_stringify (JObj [("error", JStr "interrupted");
    ("summary", JStr "No tool result was recorded. The action may have executed or may still be running. Inspect available state and evidence before taking further action; do not assume repeating it is safe.")]).

(** The calls of a message that have no result in the conversation. *)
Definition orphaned (ids : list string) (m : CanonicalMessage) : list string :=
  match cm_role m with
  | Assistant => List.filter (fun i => negb (bool_decide (i ∈ ids))) (omap block_use_id (blocksOf m))
  | _ => []
  end.

Definition repair_message (orphans : list string) : CanonicalMessage :=
  mkCanonical User (inr ((fun i => ToolResultBlock i (inl INTERRUPTED) None) <$> orphans)).

Definition repair_after (ids : list string) (x : CanonicalMessage * MessageSource) : emitted :=
  x :: match orphaned ids x.1 with [] => [] | os => [(repair_message os, SourceRepair)] end.

Definition repairOrphanedToolCalls (ms : emitted) : emitted * Z :=
  let ids := result_ids ms.*1 in
  (concat (repair_after ids <$> ms), zsum ((fun m => zlen (orphaned ids m)) <$> ms.*1)).

(** ** Compatible calls *)

Record ConversationLoadOptions := mkLoadOptions {
  lo_provider : option string;
  lo_targetModel : option string;
  lo_targetReasoning : option ReasoningConfig
}.

Definition expectedRequestModeForProvider (provider : string) : string :=
  if decide (provider = "openai") then "openai_responses"
  else if decide (provider = "anthropic") then "anthropic_messages"
  else if decide (provider = "bud_local") then "openai_chat_completions"
  else "ds4_openai_responses".

Definition isAnthropicReasoningBlock (b : CanonicalContentBlock) : bool :=
  match block_provider_data b with
  | Some d => bool_decide (pdata_provider d = "anthropic")
  | None => false
  end.

Definition isProviderOnlyBlock (b : CanonicalContentBlock) : bool :=
  match b with ReasoningBlock _ _ | ReasoningRedactedBlock _ | ImageBlock _ _ => true | _ => false end.

Definition isProviderLedgerMessageCompatible (catalog : dynamic_catalog)
    (options : ConversationLoadOptions) (m : ProviderLedgerMessage) : bool :=
  if negb (bool_decide (lo_provider options = Some "anthropic")) then true
  else if negb (existsb isAnthropicReasoningBlock (lm_content m)) then true
  else if negb (bool_decide (lm_requestMode m = expectedRequestModeForProvider "anthropic")) then false
  else match lo_targetModel options with
       | None => false
       | Some target =>
           str_truthy target && bool_decide (lm_model m = target)
           && match lo_targetReasoning options with Some r => rc_enabled r | None => false end
           && match getCatalogEntry catalog target with
              | Some e => negb (bool_decide (ce_provider e = "anthropic")
                                && bool_decide (ce_reasoningKind e = "none"))
              | None => true
              end
       end.

(** ** Diagnostics *)

Inductive LlmReconstructionMode := CanonicalOnly | ProviderNative | CanonicalFallback | MixedDegraded.

Record CheckpointApplied := mkApplied {
  cp_checkpointId : string;
  cp_checkpointCreatedAt : string;
  cp_replacementHistoryMessageCount : Z;
  cp_compactedThroughMessageId : option string;
  cp_compactedThroughLlmCallId : option string
}.

Record LlmReconstructionDiagnostics := mkReconstruction {
  re_mode : LlmReconstructionMode;
  re_targetProvider : option string;
  re_targetModel : option string;
  re_targetReasoning : option ReasoningConfig;
  re_checkpoint : option CheckpointApplied;
  re_degraded : bool;
  re_degradedReasons : list string;
  re_sourceProviders : list string;
  re_providerNativeCallCount : Z;
  re_providerNativeOutputItemCount : Z;
  re_canonicalFallbackMessageCount : Z;
  re_omittedProviderOnlyItemCount : Z;
  re_ledger : ProviderLedgerThreadDiagnostics;
  re_sameProviderIncompatibleCallCount : Z;
  re_sameProviderIncompatibleOutputItemCount : Z
}.

Definition isModelTranscriptRow (row : MessageRow) : bool :=
  bool_decide (m_role row ∈ ["assistant"; "tool"]).
Definition countModelTranscriptRows (rows : list (stamped MessageRow)) : Z :=
  zlen (List.filter (fun r : stamped MessageRow => isModelTranscriptRow r.2.2) rows).

Definition count_of (p : string) (c : list (string * Z)) : Z := JsMap.get p c ?? 0.

Definition reconstructionMode (targetProvider : option string) (nativeCalls : Z) (hasPriorModelRows : bool)
    (degradedReasons : list string) : LlmReconstructionMode :=
  if bool_decide (targetProvider = None) || (negb hasPriorModelRows && (nativeCalls =? 0)) then CanonicalOnly
  else if 0 <? nativeCalls then
    match degradedReasons with [] => ProviderNative | _ => MixedDegraded end
  else CanonicalFallback.

Definition buildReconstructionDiagnostics (options : ConversationLoadOptions)
    (rows : list (stamped MessageRow)) (ledger : list ProviderLedgerMessage)
    (summary : ProviderLedgerThreadDiagnostics) (fallbackCount : Z)
    (incompatible : list ProviderLedgerMessage)
    (checkpoint : option (string * AgentContextCheckpointRow)) (historyCount : Z)
    : LlmReconstructionDiagnostics :=
  let target := lo_provider options in
  let native := zlen ledger in
  let sources := List.filter (fun p => 0 <? count_of p (providerCallCounts summary)) CANONICAL_PROVIDER_IDS in
  let targetCalls := match target with Some p => count_of p (providerCallCounts summary) | None => 0 end in
  let switched := match target with
                  | Some t => List.filter (fun p => negb (bool_decide (p = t))) sources
                  | None => []
                  end in
  let omitted := zsum ((fun p => count_of p (providerOnlyOutputItemCounts summary)) <$> switched)
    + zsum ((fun m => zlen (List.filter isProviderOnlyBlock (lm_content m))) <$> incompatible) in
  let prior := 0 <? countModelTranscriptRows rows in
  let some := bool_decide (is_Some target) in
  let when (c : bool) (reason : string) := if c then [reason] else [] in
  let reasons :=
    when (some && (0 <? zlen switched)) "provider_switch_canonical_fallback"
    ++ when (0 <? zlen incompatible) "same_provider_incompatible_reasoning"
    ++ when (some && (targetCalls =? 0) && prior) "missing_provider_ledger"
    ++ when (0 <? fallbackCount) "canonical_fallback_messages"
    ++ when (0 <? omitted) "provider_only_items_omitted" in
  mkReconstruction (reconstructionMode target native prior reasons) target (lo_targetModel options)
    (lo_targetReasoning options)
    ((fun c : string * AgentContextCheckpointRow =>
        mkApplied c.1 (toISOString (ck_createdAt c.2 / 1000)) historyCount
          (bo_messageId (ck_boundary c.2)) (bo_llmCallId (ck_boundary c.2))) <$> checkpoint)
    (0 <? zlen reasons) reasons sources native
    (zsum ((fun m => zlen (lm_content m)) <$> ledger)) fallbackCount omitted summary
    (zlen incompatible) (zsum ((fun m => zlen (lm_content m)) <$> incompatible)).

(** ** Loading *)

Definition messageAfterCheckpointBoundary (checkpoint : option (string * AgentContextCheckpointRow))
    (r : stamped MessageRow) : bool :=
  match checkpoint with
  | Some (_, c) =>
      match bo_messageCreatedAt (ck_boundary c), bo_messageId (ck_boundary c) with
      | Some t, Some id => if str_truthy id then row_after t id r else true
      | _, _ => true
      end
  | None => true
  end.

Definition loadStoredRows (threadId : string) (checkpoint : option (string * AgentContextCheckpointRow))
    : CM (list (stamped MessageRow)) :=
  select (fun d => rows ← context_messages threadId d;
                   Ok (List.filter (messageAfterCheckpointBoundary checkpoint) rows)).

Inductive timeline_item :=
  | MessageItem (row : string * MessageRow)
  | LedgerItem (ledger : ProviderLedgerMessage).

(** [xs.sort((a, b) => a.time - b.time)]: stable. *)
Fixpoint insert_stable {A} (x : Z * A) (l : list (Z * A)) : list (Z * A) :=
  match l with
  | [] => [x]
  | y :: l' => if x.1 <=? y.1 then x :: l else y :: insert_stable x l'
  end.
Definition sort_stable {A} (l : list (Z * A)) : list (Z * A) := foldr insert_stable [] l.

Definition timeline (rows : list (stamped MessageRow)) (ledger : list ProviderLedgerMessage)
    : list timeline_item :=
  snd <$> sort_stable
    (((fun r : stamped MessageRow => (trunc_ms r.1, MessageItem r.2)) <$> rows)
     ++ ((fun l => (lm_createdAt l, LedgerItem l)) <$> ledger)).

Definition row_call_id (row : MessageRow) : option string :=
  as_string (field_lookup "llm_call_id" (m_metadata row)).

(** What the loop over the timeline does with an item: the messages of the ledger,
    a row that the ledger already gives, or a row. *)
Definition from_ledger (ledgerCallIds : list string) (row : MessageRow) : bool :=
  match row_call_id row with
  | Some id => str_truthy id && bool_decide (id ∈ ledgerCallIds)
  | None => false
  end.

Definition append_item (ledgerCallIds : list string) (acc : emitted) (item : timeline_item)
    : CM emitted :=
  match item with
  | LedgerItem l =>
      mret (acc ++ [(createCanonicalAssistantMessageFromLedger (lm_content l), SourceLedger (lm_llmCallId l))])
  | MessageItem row =>
      if bool_decide (m_role row.2 = "assistant") && from_ledger ledgerCallIds row.2 then mret acc
      else appendStoredMessage acc row (from_ledger ledgerCallIds row.2)
  end.

Fixpoint foldM {A B} (f : A -> B -> CM A) (acc : A) (l : list B) : CM A :=
  match l with [] => mret acc | x :: l => acc ← f acc x; foldM f acc l end.

Definition isCheckpointSummaryMessage (m : CanonicalMessage) : bool :=
  starts_with CHECKPOINT_SUMMARY_PREFIX (trimStart (first_text m)).

Definition checkpoint_messages (c : string * AgentContextCheckpointRow) : emitted :=
  (fun m => (m, if isCheckpointSummaryMessage m then SourceCheckpointSummary c.1
                else SourceCheckpointHistory c.1)) <$>
  List.filter (fun m => negb (bool_decide (cm_role m = System))) (ck_replacementHistory c.2).

Record LoadedConversation := mkLoaded {
  ld_messages : list CanonicalMessage;
  ld_sources : list MessageSource;
  ld_reconstruction : LlmReconstructionDiagnostics
}.
Definition loaded (ms : emitted) (r : LlmReconstructionDiagnostics) : LoadedConversation :=
  mkLoaded ms.*1 ms.*2 r.

Definition loadInternal (catalog : dynamic_catalog) (threadId : string)
    (options : ConversationLoadOptions) (includeDiagnostics : bool) : CM LoadedConversation :=
  let prompt := (createCanonicalTextMessage System AGENT_SYSTEM_PROMPT None,
                 SourceSystemPrompt "default" AGENT_SYSTEM_PROMPT_VERSION) in
  checkpoint ← getLatestCompletedContextCheckpoint threadId;
  let history := match checkpoint with Some c => checkpoint_messages c | None => [] end in
  let start := prompt :: history in
  rows ← loadStoredRows threadId checkpoint;
  match (if ostr_truthy (lo_provider options) then lo_provider options else None) with
  | None =>
      ms ← foldM (fun acc (r : stamped MessageRow) => appendStoredMessage acc r.2 false) start rows;
      mret (loaded ms (buildReconstructionDiagnostics (mkLoadOptions None None None) rows []
              emptyProviderLedgerThreadDiagnostics (countModelTranscriptRows rows) [] checkpoint
              (zlen history)))
  | Some provider =>
      let boundary := (fun c : string * AgentContextCheckpointRow =>
        (bo_llmCallCreatedAt (ck_boundary c.2), bo_llmCallId (ck_boundary c.2))) <$> checkpoint in
      summary ← (if includeDiagnostics then loadProviderLedgerThreadDiagnostics threadId boundary
                 else mret emptyProviderLedgerThreadDiagnostics);
      loadedLedger ← loadProviderLedgerMessages threadId provider boundary;
      let compatible := List.filter (isProviderLedgerMessageCompatible catalog options) loadedLedger in
      let incompatible :=
        List.filter (fun m => negb (isProviderLedgerMessageCompatible catalog options m)) loadedLedger in
      let ids := lm_llmCallId <$> compatible in
      let items := timeline rows compatible in
      let fallbackCount := zlen (List.filter (fun i =>
        match i with
        | MessageItem row =>
            isModelTranscriptRow row.2 && negb (from_ledger ids row.2)
        | LedgerItem _ => false
        end) items) in
      ms ← foldM (append_item ids) start items;
      mret (loaded (repairOrphanedToolCalls ms).1
              (buildReconstructionDiagnostics options rows compatible summary fallbackCount incompatible
                 checkpoint (zlen history)))
  end.

Definition load (catalog : dynamic_catalog) (threadId : string) (options : ConversationLoadOptions)
    : CM (list CanonicalMessage) :=
  l ← loadInternal catalog threadId options false; mret (ld_messages l).
Definition loadWithDiagnostics (catalog : dynamic_catalog) (threadId : string)
    (options : ConversationLoadOptions) : CM LoadedConversation :=
  loadInternal catalog threadId options true.
End conversation.
