(* ===== verification/Compactor.v ===== *)
(** Compaction of a thread's context ([service/src/agent/context-compactor.ts], class
    [AgentContextCompactor]): the model summarises the conversation, and a checkpoint
    with the summary and the newest user messages replaces it.

    [compact] is a program of [CM]: it reads the boundary, asks the provider at most
    five times with shorter and shorter requests, and records how it ended. *)
From Stdlib Require Import ZArith QArith Lia.
From stdpp Require Import base tactics strings gmap sorting option.
From stdpp Require Import list.
From S2P Require Import Prelude JsRuntime Json JsText Canonical ContextBudget ContextAccounting Invocation ContextStore.
Open Scope Z_scope.

Definition lines (l : list string) : string := join (String (Ascii.ascii_of_N 10) "") l.

Definition COMPACTION_PROMPT : string := lines
  ["You are performing a CONTEXT CHECKPOINT COMPACTION. Create a handoff summary for another LLM that will resume the task.";
   "";
   "Include:";
   "- Current progress and key decisions made";
   "- Important context, constraints, or user preferences";
   "- What remains to be done (clear next steps)";
   "- Any critical data, examples, or references needed to continue";
   "";
   "Be concise, structured, and focused on helping the next LLM seamlessly continue the work."].

Definition RECENT_USER_MESSAGE_TOKEN_BUDGET : Z := 20000.
Definition MAX_COMPACTION_RETRIES : nat := 4.

Definition user_text (text : string) : CanonicalMessage :=
  mkCanonical User (inr [TextBlock text None]).

(** ** The request *)

(** [cloneMessages] is the identity on values that are not changed in place. *)
Definition buildCompactionMessages (conversation : list CanonicalMessage) : list CanonicalMessage :=
  conversation ++ [user_text COMPACTION_PROMPT].

(** [messages.splice(i, 1)]. *)
Definition splice {A} (i : nat) (l : list A) : list A := take i l ++ drop (S i) l.

(** The last index of [l] below [n] with [p]. *)
Fixpoint find_last_below {A} (p : A -> bool) (l : list A) (n : nat) : option nat :=
  match n with
  | O => None
  | S n => match l !! n with
           | Some x => if p x then Some n else find_last_below p l n
           | None => find_last_below p l n
           end
  end.

(** The first result of a removed call, at its place or later. *)
Definition remove_result (ms : list CanonicalMessage) (removed : CanonicalMessage)
    (removedIndex : nat) : list CanonicalMessage :=
  match toolUseIds removed with
  | [] => ms
  | _ =>
      match find_index (fun m => intersects (toolResultIds m) (toolUseIds removed))
              (drop removedIndex ms) with
      | Some i => splice (removedIndex + i)%nat ms
      | None => ms
      end
  end.

(** And the last call of a removed result, before it. *)
Definition removePairedToolMessage (ms : list CanonicalMessage) (removed : CanonicalMessage)
    (removedIndex : nat) : list CanonicalMessage :=
  let ms := remove_result ms removed removedIndex in
  match toolResultIds removed with
  | [] => ms
  | _ =>
      match find_last_below (fun m => intersects (toolUseIds m) (toolResultIds removed)) ms
              (Nat.min removedIndex (length ms)) with
      | Some i => splice i ms
      | None => ms
      end
  end.

(** The removed message is the first one after the first that is not the last: of
    three or more, the second. *)
Definition trimCompactionRequest (ms : list CanonicalMessage) : option (list CanonicalMessage) :=
  if (length ms <=? 2)%nat then None
  else
    match ms !! 1%nat with
    | Some removed =>
        let trimmed := removePairedToolMessage (splice 1 ms) removed 1 in
        if (length trimmed <? length ms)%nat then Some trimmed else None
    | None => None
    end.

Section compactor.
Context `{NumberText} `{InvocationEnv} `{Surroundings}.

Fixpoint trim_loop (fuel : nat) (maxTokens : Z) (ms : list CanonicalMessage) : list CanonicalMessage :=
  match fuel with
  | O => ms
  | S fuel =>
      if maxTokens <? estimateCanonicalMessagesTokens ms then
        match trimCompactionRequest ms with
        | Some next => trim_loop fuel maxTokens next
        | None => ms
        end
      else ms
  end.

(** Each turn removes a message. *)
Definition trimCompactionRequestToEstimatedBudget (ms : list CanonicalMessage) (maxTokens : option Z)
    : list CanonicalMessage :=
  match maxTokens with
  | Some m => if m =? 0 then ms else trim_loop (length ms) m ms
  | None => ms
  end.

(** ** The replacement history *)

Definition isRealUserTextMessage (m : CanonicalMessage) : bool :=
  match cm_role m with
  | User =>
      let blocks := normalizeContent (cm_content m) in
      if forallb (fun b => bool_decide (is_Some (block_result_id b))) blocks then false
      else str_truthy (trim (collectText blocks))
           && negb (includes CHECKPOINT_SUMMARY_PREFIX (collectText blocks))
  | _ => false
  end.

Definition TRUNCATION_MARKER : string :=
  lines [""; ""; "[Earlier user message truncated during context compaction.]"].

Definition truncateUserMessageToBudget (m : CanonicalMessage) (remainingBudget : Z)
    : option CanonicalMessage :=
  if remainingBudget <=? 16 then None
  else
    let text := collectText (normalizeContent (cm_content m)) in
    let maxChars := Z.max 0 ((remainingBudget - estimateTextTokens TRUNCATION_MARKER) * 4) in
    if maxChars <=? 0 then None
    else Some (user_text (js_slice_end maxChars text +:+ TRUNCATION_MARKER)).

(** The loop over the messages from the newest. *)
Fixpoint collect_recent (ms selected : list CanonicalMessage) (remainingBudget : Z)
    : list CanonicalMessage :=
  match ms with
  | [] => selected
  | m :: ms =>
      if negb (isRealUserTextMessage m) then collect_recent ms selected remainingBudget
      else
        let estimate := estimateCanonicalMessagesTokens [m] in
        if estimate <=? remainingBudget
        then collect_recent ms (selected ++ [m]) (remainingBudget - estimate)
        else match truncateUserMessageToBudget m remainingBudget with
             | Some t => selected ++ [t]
             | None => selected
             end
  end.

Definition collectRecentUserMessages (conversation : list CanonicalMessage) : list CanonicalMessage :=
  reverse (collect_recent (reverse conversation) [] RECENT_USER_MESSAGE_TOKEN_BUDGET).

Definition buildReplacementHistory (conversation : list CanonicalMessage) (summary : string)
    (currentTerminalContext : option string) : list CanonicalMessage :=
  [user_text (CHECKPOINT_SUMMARY_PREFIX +:+ lines [""; ""; trim summary])]
  ++ collectRecentUserMessages conversation
  ++ (match currentTerminalContext with
      | Some c => if str_truthy (trim c)
                  then [user_text (COMPACTION_TERMINAL_CONTEXT_PREFIX +:+ lines [""; trim c])] else []
      | None => []
      end).

(** ** The summary *)

(** The texts of a stream by the index of their block, or the error it carried. *)
Fixpoint stream_texts (events : list CanonicalStreamEvent) (blocks : list (Z * string))
    : failure + list (Z * string) :=
  match events with
  | [] => inr blocks
  | EvTextDelta index delta :: events =>
      stream_texts events (JsMap.set index ((JsMap.get index blocks ?? "") +:+ delta) blocks)
  | EvError e :: _ => inl e
  | _ :: events => stream_texts events blocks
  end.

Definition index_before (a b : Z * string) : Prop := a.1 <= b.1.
#[export] Instance index_before_dec : RelDecision index_before.
Proof. intros a b. unfold index_before. apply _. Defined.

Definition collectProviderResponse (events : list CanonicalStreamEvent) (ending : option failure)
    : failure + list CanonicalContentBlock :=
  match stream_texts events [], ending with
  | inl e, _ => inl e
  | inr _, Some e => inl e
  | inr blocks, None => inr ((fun b => TextBlock b.2 None) <$> merge_sort index_before blocks)
  end.

Record CompactContextInput := mkCompactInput {
  ci_threadId : string;
  ci_budId : string;
  ci_turnId : string;
  ci_phase : string;
  ci_trigger : string;
  ci_reason : string;
  ci_model : string;
  ci_provider : string;
  ci_providerModel : string;
  ci_reasoning : ReasoningConfig;
  ci_reasoningLevel : string;
  ci_conversation : list CanonicalMessage;
  ci_tools : list CanonicalTool;
  ci_inputTokensBefore : option Z;
  ci_ownerUserId : option (option string);       (** [undefined], [null] or an id *)
  ci_tenantId : option (option string);
  ci_currentTerminalContext : option string
}.

Definition summary_request (config : ContextConfig) (input : CompactContextInput)
    (owner : option string) (ms : list CanonicalMessage) : ProviderRequest :=
  mkProviderRequest ms (ci_tools input)
    (mkModelConfig (ci_providerModel input) (Z.min (agentMaxOutputTokens config) 16000)
       (ci_reasoning input) "text" "none")
    (mkProviderContext (ci_threadId input) (ci_budId input) owner).

Definition createSummary (config : ContextConfig) (input : CompactContextInput)
    (owner : option string) (ms : list CanonicalMessage) : CM string :=
  answer ← ask_provider (summary_request config input owner ms);
  content ← (match answer with
             | NoProvider e => throw_ e
             | SyncAnswer (inl e) => throw_ e
             | SyncAnswer (inr content) => mret content
             | StreamAnswer events ending =>
                 match collectProviderResponse events ending with
                 | inl e => throw_ e
                 | inr content => mret content
                 end
             end : CM (list CanonicalContentBlock));
  let summary := trim (collectText content) in
  if str_truthy summary then mret summary
  else throw_ (JsError "Error" "context_compaction_empty_summary").

(** ** Compaction *)

Definition resolveOwner (input : CompactContextInput) : CM (option string * option string) :=
  match ci_ownerUserId input, ci_tenantId input with
  | Some owner, Some tenant => mret (owner, tenant)
  | owner, tenant =>
      stored ← getThreadCheckpointOwner (ci_threadId input);
      let or_stored (o : option (option string)) (s : option string) :=
        match o with Some (Some v) => Some v | _ => s end in
      mret (or_stored owner stored.1, or_stored tenant stored.2)
  end.

Definition isProviderContextWindowError (e : failure) : bool :=
  match e with ContextWindowError _ _ _ _ => true | _ => false end.

Definition errorToRecord (e : failure) : jsonb :=
  match e with
  | ContextWindowError provider model message code =>
      [("name", JStr "ProviderContextWindowError"); ("message", JStr message);
       ("retryable", JBool true); ("code", JStr "CONTEXT_WINDOW"); ("provider", JStr provider);
       ("model", JStr model)] ++ member "provider_code" JStr code
  | JsError name message =>
      [("name", JStr name); ("message", JStr message); ("retryable", JBool false);
       ("code", JStr "COMPACTION_FAILED")]
  | Thrown text =>
      [("code", JStr "COMPACTION_FAILED"); ("message", JStr text); ("retryable", JBool false)]
  end.

Definition checkpoint_args (input : CompactContextInput) (owner : option string * option string)
    (boundaries : AgentContextCheckpointBoundary) : CheckpointArgs :=
  mkCheckpointArgs (ci_threadId input)
    (mkCause (ci_trigger input) (ci_reason input) (ci_phase input) "local_summary"
       (Some (ci_provider input)) (Some (ci_providerModel input)) (Some (ci_reasoningLevel input)))
    boundaries (ci_inputTokensBefore input) owner.1 owner.2.

Definition recordFailure (args : CheckpointArgs) (e : failure) : CM unit :=
  recordFailedContextCheckpoint args (errorToRecord e);; mret tt.

Record CompactContextResult := mkCompactResult {
  co_checkpoint : string * AgentContextCheckpointRow;
  co_replacementHistory : list CanonicalMessage;
  co_estimatedTokensAfter : Z;
  co_message : SerializedCompactionMessage
}.

(** The body of the [try]. *)
Definition attempt (config : ContextConfig) (input : CompactContextInput) (args : CheckpointArgs)
    (ms : list CanonicalMessage) : CM CompactContextResult :=
  summary ← createSummary config input (cg_ownerUserId args) ms;
  let replacementHistory :=
    buildReplacementHistory (ci_conversation input) summary (ci_currentTerminalContext input) in
  let estimatedTokensAfter := estimateCanonicalMessagesTokens replacementHistory in
  checkpoint ← recordCompletedContextCheckpoint args summary replacementHistory estimatedTokensAfter;
  message ← insertCompactionMessage checkpoint (Some (ci_turnId input));
  mret (mkCompactResult checkpoint replacementHistory estimatedTokensAfter message).

Definition CONTEXT_COMPACTION_FAILED : string :=
  "context_compaction_failed: provider could not summarize the current context within its context window".

(** The loop over the attempts: [more] are left. *)
Fixpoint attempts (config : ContextConfig) (input : CompactContextInput) (args : CheckpointArgs)
    (more : nat) (ms : list CanonicalMessage) (lastContextError : option failure)
    : CM CompactContextResult :=
  let no_summary :=
    recordFailure args (lastContextError ?? JsError "Error" "context_compaction_failed");;
    throw_ (JsError "Error" CONTEXT_COMPACTION_FAILED) in
  match more with
  | O => no_summary
  | S more =>
      catch (attempt config input args ms) (fun e =>
        if negb (isProviderContextWindowError e) then recordFailure args e;; throw_ e
        else
          match trimCompactionRequest ms with
          | Some trimmed => attempts config input args more trimmed (Some e)
          | None => recordFailure args e;; throw_ (JsError "Error" CONTEXT_COMPACTION_FAILED)
          end)
  end.

Definition compact (config : ContextConfig) (catalog : dynamic_catalog) (input : CompactContextInput)
    : CM CompactContextResult :=
  owner ← resolveOwner input;
  boundaries ← getCurrentContextCheckpointBoundary (ci_threadId input);
  let budget := resolveContextBudget config catalog (ci_model input) (ci_providerModel input)
                  CompactionSummaryRequest in
  let request := trimCompactionRequestToEstimatedBudget
    (buildCompactionMessages (ci_conversation input)) (bu_effectiveInputBudgetTokens budget) in
  attempts config input (checkpoint_args input owner boundaries) (S MAX_COMPACTION_RETRIES) request None.
End compactor.
