(* ===== verification/ContextProps.v ===== *)
(** Lemmas on the context of a model: what a conversation costs, which screenshots
    it will carry, what a trimmed request keeps. *)
From Stdlib Require Import ZArith QArith Qround Lia.
From stdpp Require Import base tactics strings gmap sorting option.
From stdpp Require Import list.
From S2P Require Import Prelude JsRuntime Json JsText Canonical ContextBudget ContextAccounting.
Open Scope Z_scope.

(** ** Screenshots *)

Section images.
Context `{NumberText}.

(** The screenshots a conversation refers to, in its order. *)
Definition message_images (m : CanonicalMessage) : list string :=
  match cm_role m with User => concat (imageArtifactIds <$> blocksOf m) | _ => [] end.
Definition image_ids (ms : list CanonicalMessage) : list string := concat (message_images <$> ms).

Lemma image_ids_app a b : image_ids (a ++ b) = image_ids a ++ image_ids b.
Proof. unfold image_ids. by rewrite fmap_app, concat_app. Qed.

(** The blocks that may carry screenshots, with their positions. *)
Definition message_refs (x : nat * CanonicalMessage) : list ((nat * nat) * list string) :=
  match cm_role x.2 with
  | User => (fun b => ((x.1, b.1), imageArtifactIds b.2)) <$> indexed (blocksOf x.2)
  | _ => []
  end.

Notation selection := (list ((nat * nat) * list string)).

(** One turn of the selection over the flat list. *)
Definition pick (st : selection * nat) (x : (nat * nat) * list string) : selection * nat :=
  let '(selected, remaining) := st in
  if (remaining =? 0)%nat then st
  else
    let ids := last_n remaining x.2 in
    if (0 <? length ids)%nat
    then (JsMap.set x.1 ids selected, (remaining - length ids)%nat) else st.

Lemma select_message_pick st x : select_message st x = foldl pick st (reverse (message_refs x)).
Proof.
  destruct x as [mi m]. unfold select_message, message_refs, blocksOf. cbn [fst snd].
  destruct (cm_role m), (cm_content m) as [s|bs]; try done.
  rewrite <-fmap_reverse. generalize (reverse (indexed bs)). intros l. revert st.
  induction l as [|b l IH]; intros st; [done|]. cbn [foldl fmap list_fmap]. by rewrite <-IH.
Qed.

Lemma select_flat ms :
  selectHydratedImageReferences ms
  = (foldl pick ([], HYDRATED_IMAGE_LIMIT) (reverse (concat (message_refs <$> indexed ms)))).1.
Proof.
  unfold selectHydratedImageReferences. f_equal. generalize ([] : selection, HYDRATED_IMAGE_LIMIT).
  induction (indexed ms) as [|x l IH] using rev_ind; intros st; [done|].
  rewrite reverse_snoc, fmap_app, concat_app. cbn [foldl fmap list_fmap concat].
  rewrite app_nil_r, reverse_app, foldl_app, <-select_message_pick. apply IH.
Qed.

Lemma pick_one (sel : selection) (r : nat) x :
  JsMap.get x.1 sel = None ->
  let st := pick (sel, r) x in
  JsMap.get x.1 st.1 ?? [] = last_n r x.2 /\ st.2 = (r - length x.2)%nat
  /\ (forall p, p <> x.1 -> JsMap.get p st.1 = JsMap.get p sel)
  /\ zsum (zlen <$> JsMap.values st.1) = zsum (zlen <$> JsMap.values sel) + Z.min (Z.of_nat r) (zlen x.2).
Proof.
  intros Hx. cbn [pick]. pose proof (last_n_length r x.2) as Hl. unfold zlen.
  destruct (r =? 0)%nat eqn:Er; [apply Nat.eqb_eq in Er|apply Nat.eqb_neq in Er].
  - subst. cbn [fst snd]. rewrite Hx. split_and!; [|lia|done|lia].
    unfold last_n. rewrite drop_ge by lia. done.
  - destruct (0 <? length (last_n r x.2))%nat eqn:El;
      [apply Nat.ltb_lt in El|apply Nat.ltb_ge in El]; cbn [fst snd].
    + rewrite JsMap.get_set_eq. split_and!; [done|lia|by intros; apply JsMap.get_set_ne|].
      rewrite JsMap.set_fresh by by apply JsMap.get_None_keys.
      unfold JsMap.values. rewrite !fmap_app, zsum_app. cbn. lia.
    + rewrite Hx. assert (last_n r x.2 = []) as -> by (apply nil_length_inv; lia).
      split_and!; [done|lia|done|lia].
Qed.

(** What a flat list of references selects: the newest screenshots, at most the
    limit, each at its position. *)
Lemma pick_spec (l : list ((nat * nat) * list string)) (sel : selection) (r : nat) :
  NoDup l.*1 -> (forall p, p ∈ l.*1 -> JsMap.get p sel = None) ->
  let sel' := (foldl pick (sel, r) (reverse l)).1 in
  (forall p, p ∉ l.*1 -> JsMap.get p sel' = JsMap.get p sel)
  /\ (forall l1 l2, l = l1 ++ l2 ->
        concat ((fun x => JsMap.get x.1 sel' ?? []) <$> l1)
        = last_n (r - length (concat l2.*2)) (concat l1.*2))
  /\ zsum (zlen <$> JsMap.values sel')
     = zsum (zlen <$> JsMap.values sel) + Z.min (Z.of_nat r) (zlen (concat l.*2)).
Proof.
  revert sel r. induction l as [|x l IH] using rev_ind; intros sel r Hnd Hnone sel'.
  { subst sel'. split_and!; [done| |cbn [fmap list_fmap concat]; rewrite zlen_nil, Z.min_r, Z.add_0_r by lia; done].
    intros [|? ?] [|? ?] E; done. }
  subst sel'. rewrite reverse_snoc. cbn [foldl].
  rewrite fmap_app in Hnd, Hnone. apply NoDup_app in Hnd as (Hl & Hxl & _).
  assert (x.1 ∉ l.*1) as Hx by (intros Hi; by apply (Hxl _ Hi), list_elem_of_singleton).
  destruct (pick_one sel r x) as (H1 & H2 & H3 & H4); [apply Hnone; set_solver|].
  destruct (pick (sel, r) x) as [sel1 r1]. cbn [fst snd] in *. subst r1.
  destruct (IH sel1 (r - length x.2)%nat Hl) as (I1 & I2 & I3).
  { intros p Hp. rewrite H3 by congruence. apply Hnone. set_solver. }
  set (sel' := (foldl pick (sel1, (r - length x.2)%nat) (reverse l)).1) in *.
  assert (Hlast : JsMap.get x.1 sel' ?? [] = last_n r x.2) by by rewrite I1.
  split_and!.
  - intros p Hp. rewrite fmap_app in Hp. rewrite I1, H3 by set_solver. done.
  - intros l1 l2 E. destruct l2 as [|y l2 _] using rev_ind.
    + rewrite app_nil_r in E. subst l1. specialize (I2 l [] ltac:(by rewrite app_nil_r)).
      rewrite !fmap_app, !concat_app. cbn [fmap list_fmap concat]. rewrite I2, Hlast.
      cbn [length fmap list_fmap concat]. rewrite !Nat.sub_0_r, !app_nil_r.
      unfold last_n. rewrite length_app, drop_app. f_equal; [|f_equal; lia].
      destruct (decide (length x.2 <= r)%nat); [f_equal; lia|]. rewrite !drop_ge by lia. done.
    + rewrite app_assoc in E. apply app_inj_tail in E as [-> ->].
      rewrite (I2 l1 l2 eq_refl), fmap_app, concat_app. cbn. rewrite length_app, app_nil_r.
      f_equal. lia.
  - rewrite I3, H4, fmap_app, concat_app. cbn. rewrite app_nil_r, zlen_app. unfold zlen. lia.
Qed.

Lemma imap_fst {A} (l : list A) (f : nat -> nat) : (imap (fun i x => (f i, x)) l).*1 = f <$> seq 0 (length l).
Proof.
  revert f. induction l as [|x l IH]; intros f; [done|]. cbn. f_equal.
  etrans; [apply (IH (f ∘ S))|]. by rewrite <-fmap_S_seq, <-list_fmap_compose.
Qed.
Lemma indexed_fst {A} (l : list A) : (indexed l).*1 = seq 0 (length l).
Proof. rewrite <-(list_fmap_id (seq _ _)). apply (imap_fst l id). Qed.
Lemma indexed_snd {A} (l : list A) : (indexed l).*2 = l.
Proof.
  unfold indexed. rewrite fmap_imap, (imap_ext _ (fun _ x => x)) by done.
  induction l as [|x l IH]; [done|]. cbn. f_equal. exact IH.
Qed.

Lemma message_refs_fst x p : p ∈ (message_refs x).*1 -> p.1 = x.1.
Proof.
  unfold message_refs. destruct (cm_role x.2); try (by intros ?%not_elem_of_nil).
  rewrite <-list_fmap_compose. intros (b & -> & _)%list_elem_of_fmap. done.
Qed.

Lemma refs_nodup ms : NoDup (concat (message_refs <$> indexed ms)).*1.
Proof.
  pose proof (NoDup_seq 0 (length ms)) as Hnd. rewrite <-indexed_fst in Hnd.
  induction (indexed ms) as [|x l IH]; [apply NoDup_nil_2|].
  cbn in Hnd. apply NoDup_cons in Hnd as [Hx Hl].
  cbn [fmap list_fmap concat]. rewrite fmap_app. apply NoDup_app. split_and!; [| |by apply IH].
  - unfold message_refs. destruct (cm_role x.2); try apply NoDup_nil_2.
    rewrite <-list_fmap_compose. change (fst ∘ _) with (pair x.1 ∘ fst (A:=nat) (B:=CanonicalContentBlock)).
    rewrite list_fmap_compose, indexed_fst. apply NoDup_fmap_2; [by intros ? ? E; injection E | apply NoDup_seq].
  - intros p Hp%message_refs_fst Hin. apply Hx.
    apply list_elem_of_fmap in Hin as (y & -> & Hy).
    apply list_elem_of_In, in_concat in Hy as (r & Hr & Hy).
    apply list_elem_of_In, list_elem_of_fmap in Hr as (z & -> & Hz).
    apply list_elem_of_In, (list_elem_of_fmap_2 fst), message_refs_fst in Hy.
    apply list_elem_of_fmap. exists z. split; [congruence|done].
Qed.

Lemma refs_ids (l : list (nat * CanonicalMessage)) :
  concat (concat (message_refs <$> l)).*2 = image_ids l.*2.
Proof.
  unfold image_ids. induction l as [|x l IH]; [done|]. cbn. rewrite fmap_app, concat_app, IH. f_equal.
  unfold message_refs, message_images. destruct (cm_role x.2); try done.
  rewrite <-list_fmap_compose. change (snd ∘ _) with (imageArtifactIds ∘ snd (A:=nat)).
  by rewrite list_fmap_compose, indexed_snd.
Qed.

Lemma indexed_inj {A} (l : list A) i a b : (i, a) ∈ indexed l -> (i, b) ∈ indexed l -> a = b.
Proof.
  assert (NoDup (indexed l).*1) as Hnd by (rewrite indexed_fst; apply NoDup_seq).
  intros (j & Hj)%list_elem_of_lookup (k & Hk)%list_elem_of_lookup.
  assert (j = k) as ->; [|congruence].
  by eapply (NoDup_lookup _ _ _ i Hnd); rewrite list_lookup_fmap, ?Hj, ?Hk.
Qed.

(** A reference of a conversation at the position of a message belongs to it. *)
Lemma refs_at ms x p : x ∈ indexed ms -> p ∈ (concat (message_refs <$> indexed ms)).*1 -> p.1 = x.1 ->
  p ∈ (message_refs x).*1.
Proof.
  intros Hx (y & -> & Hy)%list_elem_of_fmap E.
  apply list_elem_of_In, in_concat in Hy as (r & Hr & Hy).
  apply list_elem_of_In, list_elem_of_fmap in Hr as (z & -> & Hz). apply list_elem_of_In in Hy.
  pose proof (message_refs_fst z y.1 (list_elem_of_fmap_2 fst _ _ Hy)) as E'.
  assert (z = x) as ->; [|by apply list_elem_of_fmap_2].
  destruct z as [i m], x as [i' m']. cbn in *. assert (i = i') as <- by congruence.
  by rewrite (indexed_inj _ _ _ _ Hz Hx).
Qed.

Lemma select_spec ms :
  let sel := selectHydratedImageReferences ms in
  (forall p, p ∉ (concat (message_refs <$> indexed ms)).*1 -> JsMap.get p sel = None)
  /\ (forall l1 l2, concat (message_refs <$> indexed ms) = l1 ++ l2 ->
        concat ((fun x => JsMap.get x.1 sel ?? []) <$> l1)
        = last_n (8 - length (concat l2.*2)) (concat l1.*2))
  /\ hydrated_count ms = Z.min 8 (zlen (image_ids ms)).
Proof.
  intros sel. subst sel. unfold hydrated_count. rewrite select_flat.
  destruct (pick_spec _ [] HYDRATED_IMAGE_LIMIT (refs_nodup ms)) as (H1 & H2 & H3); [done|].
  split_and!; [intros p Hp; by rewrite H1 | done |]. rewrite refs_ids, indexed_snd in H3.
  by rewrite foldl_zsum, H3.
Qed.

Lemma hydrated_of_refs ms x : x ∈ indexed ms ->
  hydrated_of (selectHydratedImageReferences ms) x
  = concat ((fun y => JsMap.get y.1 (selectHydratedImageReferences ms) ?? []) <$> message_refs x).
Proof.
  intros Hx. destruct (select_spec ms) as (H1 & _). unfold hydrated_of.
  destruct (decide (cm_role x.2 = User)) as [Hu|Hu].
  - unfold message_refs. rewrite Hu, <-list_fmap_compose. done.
  - assert (message_refs x = []) as Hr by (unfold message_refs; by destruct (cm_role x.2)).
    rewrite Hr. cbn. apply concat_nil_Forall, Forall_fmap, Forall_true. intros b. cbn.
    rewrite H1; [done|]. intros Hin%(refs_at ms x); [|done|done]. rewrite Hr in Hin.
    by apply not_elem_of_nil in Hin.
Qed.

(** The screenshots of the first messages that a request carries: the newest eight
    of the conversation, without those of the later messages. *)
Lemma hydrated_prefix ms n :
  hydratedImageIds ms n = drop (length (image_ids ms) - 8) (image_ids (take n ms)).
Proof.
  destruct (select_spec ms) as (_ & H2 & _). unfold hydratedImageIds.
  assert (hydrated_of (selectHydratedImageReferences ms) <$> take n (indexed ms)
    = (fun x => concat ((fun y => JsMap.get y.1 (selectHydratedImageReferences ms) ?? []) <$> message_refs x))
        <$> take n (indexed ms)) as ->.
  { apply list_fmap_ext. intros i x Hi. apply hydrated_of_refs.
    apply list_elem_of_lookup_2 in Hi. by eapply subseteq_take. }
  assert (forall (l : list (nat * CanonicalMessage)) (g : (nat * nat) * list string -> list string),
    concat ((fun x => concat (g <$> message_refs x)) <$> l) = concat (g <$> concat (message_refs <$> l)))
    as Hc.
  { intros l g. induction l as [|x l IH]; [done|]. cbn. by rewrite fmap_app, concat_app, IH. }
  rewrite Hc, (H2 _ (concat (message_refs <$> drop n (indexed ms)))).
  2:{ by rewrite <-concat_app, <-fmap_app, take_drop. }
  rewrite !refs_ids, fmap_take, fmap_drop, indexed_snd.
  assert (length (image_ids ms) = length (image_ids (take n ms)) + length (image_ids (drop n ms)))%nat as ->
    by by rewrite <-length_app, <-image_ids_app, take_drop.
  unfold last_n.
  destruct (decide (length (image_ids (drop n ms)) <= 8)%nat); [f_equal; lia|].
  rewrite !drop_ge by lia. done.
Qed.
End images.

(** ** Estimates *)

Section estimates.
Context `{NumberText}.

Definition message_cost (m : CanonicalMessage) : Z :=
  MESSAGE_TOKEN_OVERHEAD +
  match cm_content m with
  | inl text => estimateTextTokens text
  | inr bs => zsum ((fun b => CONTENT_BLOCK_TOKEN_OVERHEAD + estimateBlockTokens b) <$> bs)
  end.

Definition breakdown_total (b : ContextBreakdownTokens) : Z := zsum (b <$> CONTEXT_BREAKDOWN_KINDS).

Lemma bump_total k t b : breakdown_total (bump k t b) = breakdown_total b + t.
Proof.
  unfold breakdown_total, bump, CONTEXT_BREAKDOWN_KINDS. cbn [fmap list_fmap zsum].
  destruct k; repeat (case_decide; try done); lia.
Qed.

Lemma breakdown_message_total b seen m :
  breakdown_total (breakdown_message (b, seen) m).1 = breakdown_total b + message_cost m.
Proof.
  unfold breakdown_message, message_cost. cbn [fst].
  generalize (messageBreakdownKind seen m). intros kind. destruct (cm_content m) as [s|bs].
  { rewrite !bump_total. lia. }
  rewrite Z.add_assoc, <-(bump_total kind). generalize (bump kind MESSAGE_TOKEN_OVERHEAD b).
  induction bs as [|x bs IH]; intros b'; cbn [foldl fmap list_fmap zsum]; [lia|].
  rewrite IH, bump_total. lia.
Qed.

(** The estimate of a conversation: each message on its own, and the screenshots it
    will carry, at most eight. *)
Lemma estimate_spec ms :
  estimateCanonicalMessagesTokens ms
  = zsum (message_cost <$> ms) + Z.min 8 (zlen (image_ids ms)) * IMAGE_TOKEN_ESTIMATE.
Proof.
  unfold estimateCanonicalMessagesTokens, estimateCanonicalMessagesBreakdown.
  rewrite foldl_zsum. change (zsum (?b <$> CONTEXT_BREAKDOWN_KINDS)) with (breakdown_total b).
  destruct (select_spec ms) as (_ & _ & ->).
  set (b0 := bump Images _ _). assert (Hb : breakdown_total b0
    = Z.min 8 (zlen (image_ids ms)) * IMAGE_TOKEN_ESTIMATE).
  { subst b0. rewrite bump_total. change (breakdown_total emptyContextBreakdown) with 0. lia. }
  rewrite <-Hb. clearbody b0. generalize false. clear Hb. revert b0.
  induction ms as [|m ms IH]; intros b seen; cbn [foldl fmap list_fmap zsum fst]; [lia|].
  pose proof (breakdown_message_total b seen m) as Hm.
  destruct (breakdown_message (b, seen) m) as [b' seen']. cbn [fst] in Hm.
  specialize (IH b' seen'). lia.
Qed.

Lemma estimateTextTokens_pos s : 1 <= estimateTextTokens s.
Proof. unfold estimateTextTokens. lia. Qed.

Lemma estimateBlockTokens_nonneg : forall b, 0 <= estimateBlockTokens b.
Proof.
  fix IH 1. intros [t p|mt d|i n v|i [s|bs] e|t d|d]; cbn [estimateBlockTokens].
  - pose proof (estimateTextTokens_pos t). lia.
  - unfold IMAGE_TOKEN_ESTIMATE. lia.
  - pose proof (estimateTextTokens_pos (JSON_stringify v)). pose proof (estimateTextTokens_pos n). lia.
  - pose proof (estimateTextTokens_pos s). lia.
  - generalize (Z.le_refl 0). generalize 0 at 2 4. induction bs as [|b bs IHbs]; intros n Hn;
      cbn [foldl List.map]; [done|].
    apply IHbs. pose proof (IH b). unfold CONTENT_BLOCK_TOKEN_OVERHEAD. lia.
  - pose proof (estimateTextTokens_pos t). lia.
  - pose proof (estimateTextTokens_pos
      (JSON_stringify match d with Some d => provider_data_json d | None => JObj [] end)). lia.
Qed.

Lemma message_cost_pos m : MESSAGE_TOKEN_OVERHEAD <= message_cost m.
Proof.
  unfold message_cost. destruct (cm_content m) as [s|bs]; [pose proof (estimateTextTokens_pos s); lia|].
  enough (0 <= zsum ((fun b => CONTENT_BLOCK_TOKEN_OVERHEAD + estimateBlockTokens b) <$> bs)) by lia.
  apply zsum_nonneg, Forall_fmap, Forall_true. intros b. cbn.
  pose proof (estimateBlockTokens_nonneg b). unfold CONTENT_BLOCK_TOKEN_OVERHEAD. lia.
Qed.

Lemma costs_nonneg ms : 0 <= zsum (message_cost <$> ms).
Proof.
  apply zsum_nonneg, Forall_fmap, Forall_true. intros m. cbn.
  pose proof (message_cost_pos m). unfold MESSAGE_TOKEN_OVERHEAD in *. lia.
Qed.

Lemma estimate_nonneg ms : 0 <= estimateCanonicalMessagesTokens ms.
Proof.
  rewrite estimate_spec. unfold IMAGE_TOKEN_ESTIMATE. pose proof (zlen_nonneg (image_ids ms)).
  pose proof (costs_nonneg ms). lia.
Qed.

Lemma estimate_zero ms : estimateCanonicalMessagesTokens ms = 0 <-> ms = [].
Proof.
  split; [|by intros ->]. destruct ms as [|m ms]; [done|]. rewrite estimate_spec.
  pose proof (message_cost_pos m). pose proof (costs_nonneg ms).
  pose proof (zlen_nonneg (image_ids (m :: ms))).
  unfold MESSAGE_TOKEN_OVERHEAD, IMAGE_TOKEN_ESTIMATE in *. cbn [fmap list_fmap zsum]. lia.
Qed.

(** Messages estimated one by one are not estimated lower than together. *)
Lemma estimate_split ms :
  estimateCanonicalMessagesTokens ms <= zsum ((fun m => estimateCanonicalMessagesTokens [m]) <$> ms).
Proof.
  rewrite estimate_spec. unfold IMAGE_TOKEN_ESTIMATE. induction ms as [|m ms IH]; [done|].
  cbn [fmap list_fmap zsum]. rewrite (estimate_spec [m]). cbn [fmap list_fmap zsum].
  change (m :: ms) with ([m] ++ ms). rewrite image_ids_app, zlen_app.
  pose proof (zlen_nonneg (image_ids [m])). pose proof (zlen_nonneg (image_ids ms)).
  unfold IMAGE_TOKEN_ESTIMATE. lia.
Qed.

Lemma estimate_app a b :
  estimateCanonicalMessagesTokens (a ++ b)
  <= estimateCanonicalMessagesTokens a + estimateCanonicalMessagesTokens b.
Proof.
  rewrite !estimate_spec, fmap_app, zsum_app, image_ids_app, zlen_app. unfold IMAGE_TOKEN_ESTIMATE.
  pose proof (zlen_nonneg (image_ids a)). pose proof (zlen_nonneg (image_ids b)). lia.
Qed.
End estimates.
