(* ===== verification/CompactorProps.v ===== *)
(** Lemmas on compaction: what trimming a request keeps, what the replacement history
    holds. *)
From Stdlib Require Import ZArith QArith Qround Lia.
From stdpp Require Import base tactics strings gmap sorting option relations.
From stdpp Require Import list.
From S2P Require Import Prelude JsRuntime Json JsText Canonical ContextBudget ContextAccounting Invocation ContextStore Compactor ContextProps.
Open Scope Z_scope.

(** ** Trimming *)

Lemma intersects_spec l k : intersects l k = true <-> exists v, v ∈ l /\ v ∈ k.
Proof.
  unfold intersects. rewrite existsb_exists. setoid_rewrite <-list_elem_of_In.
  setoid_rewrite bool_decide_eq_true. done.
Qed.

(** A call and its result, or nothing, go with the second message; the first one
    goes too when it is the call of the second. *)
Inductive trims_to : list CanonicalMessage -> list CanonicalMessage -> Prop :=
  | TrimAlone h x rest :
      rest <> [] ->
      Forall (fun y => intersects (toolResultIds y) (toolUseIds x) = false) rest ->
      trims_to (h :: x :: rest) (h :: rest)
  | TrimPair h x a y b :
      Forall (fun y => intersects (toolResultIds y) (toolUseIds x) = false) a ->
      intersects (toolResultIds y) (toolUseIds x) = true ->
      trims_to (h :: x :: a ++ y :: b) (h :: a ++ b)
  | TrimHead h x rest rest' :
      trims_to (h :: x :: rest) (h :: rest') ->
      intersects (toolUseIds h) (toolResultIds x) = true ->
      trims_to (h :: x :: rest) rest'.

Lemma intersects_nil_r l : intersects l [] = false.
Proof.
  apply not_true_is_false. intros (v & _ & Hv)%intersects_spec. by apply not_elem_of_nil in Hv.
Qed.

Lemma take_result h x rest :
  rest <> [] ->
  exists rest', remove_result (h :: rest) x 1 = h :: rest' /\ trims_to (h :: x :: rest) (h :: rest').
Proof.
  intros Hne. unfold remove_result. destruct (toolUseIds x) as [|u us] eqn:Eu.
  { exists rest. split; [done|]. apply TrimAlone; [done|]. apply Forall_true. intros y.
    rewrite Eu. apply intersects_nil_r. }
  rewrite <-Eu. change (drop 1 (h :: rest)) with rest. destruct (find_index _ rest) as [i|] eqn:Ei.
  - apply find_index_Some in Ei as (a & y & b & -> & <- & Hp & Ha). exists (a ++ b).
    split; [|by apply TrimPair]. unfold splice. cbn [Nat.add take drop].
    rewrite take_app_length. by rewrite cons_middle, app_assoc, drop_app_length'
      by (rewrite length_app; cbn; lia).
  - exists rest. split; [done|]. apply TrimAlone; [done|]. by apply find_index_None.
Qed.

Lemma remove_paired_spec h x rest :
  rest <> [] -> trims_to (h :: x :: rest) (removePairedToolMessage (h :: rest) x 1).
Proof.
  intros Hne. destruct (take_result h x rest Hne) as (rest' & E & Ht).
  unfold removePairedToolMessage. rewrite E.
  destruct (toolResultIds x) as [|r rs] eqn:Er; [done|]. rewrite <-Er.
  cbn [length]. replace (Nat.min 1 (S (length rest'))) with 1%nat by lia.
  cbn [find_last_below lookup list_lookup].
  destruct (intersects (toolUseIds h) (toolResultIds x)) eqn:Eh; [|done].
  unfold splice. cbn [take drop app]. by apply TrimHead.
Qed.

Lemma trims_to_sublist ms ms' : trims_to ms ms' -> ms' `sublist_of` ms.
Proof.
  induction 1.
  - apply sublist_skip, sublist_cons. done.
  - apply sublist_skip, sublist_cons. apply sublist_app; [done|]. by apply sublist_cons.
  - etrans; [|exact IHtrims_to]. by apply sublist_cons.
Qed.

Lemma trims_to_shorter ms ms' : trims_to ms ms' -> (length ms' < length ms)%nat.
Proof. induction 1; cbn in *; rewrite ?length_app in *; cbn; lia. Qed.

Lemma trim_stops ms : (length ms <= 2)%nat -> trimCompactionRequest ms = None.
Proof. intros Hl. unfold trimCompactionRequest. by rewrite (proj2 (Nat.leb_le _ _) Hl). Qed.

Lemma trim_goes_on ms : (2 < length ms)%nat ->
  exists ms', trimCompactionRequest ms = Some ms' /\ trims_to ms ms'.
Proof.
  intros Hl. destruct ms as [|h [|x rest]]; cbn in Hl; try lia.
  assert (rest <> []) as Hne by by destruct rest; cbn in Hl; [lia|].
  pose proof (remove_paired_spec h x rest Hne) as Ht. eexists. split; [|exact Ht].
  unfold trimCompactionRequest. rewrite (proj2 (Nat.leb_gt _ _)) by (cbn; lia).
  cbn [lookup list_lookup]. unfold splice. cbn [take drop app].
  rewrite (proj2 (Nat.ltb_lt _ _)); [done|]. by apply trims_to_shorter.
Qed.

Lemma trim_spec ms ms' : trimCompactionRequest ms = Some ms' -> trims_to ms ms'.
Proof.
  intros E. destruct (decide (length ms <= 2)%nat) as [Hl|Hl]; [by rewrite trim_stops in E|].
  destruct (trim_goes_on ms ltac:(lia)) as (? & ? & ?). congruence.
Qed.

(** A request and what trimming makes of it. *)
Definition trims : list CanonicalMessage -> list CanonicalMessage -> Prop :=
  rtc (fun a b => trimCompactionRequest a = Some b).

Lemma trims_sublist a b : trims a b -> b `sublist_of` a.
Proof. induction 1 as [|a b c Hab _ IH]; [done|]. etrans; [exact IH|]. by apply trims_to_sublist, trim_spec. Qed.

(** The system prompt stays the first message and the instruction the last one. *)
Lemma trims_to_ends h t p r :
  toolUseIds h = [] -> toolResultIds p = [] -> trims_to (h :: t ++ [p]) r ->
  exists l, r = h :: l ++ [p] /\ l `sublist_of` t.
Proof.
  intros Hh Hp. remember (h :: t ++ [p]) as ms eqn:E. destruct 1 as [h' x rest Hne|h' x a y b Ha Hy|h' x rest rest' _ Hi].
  - destruct t as [|x' t]; cbn in E; simplify_eq. exists t. split; [done|]. by apply sublist_cons.
  - destruct t as [|x' t]; cbn in E; [by destruct a|]. injection E as -> -> E.
    destruct b as [|p' b _] using rev_ind.
    + apply app_inj_tail in E as [_ ->]. by rewrite Hp in Hy.
    + rewrite app_comm_cons, app_assoc in E. apply app_inj_tail in E as [<- ->].
      exists (a ++ b). split; [by rewrite <-(assoc_L (++))|].
      apply sublist_cons, sublist_app; [done|]. by apply sublist_cons.
  - simplify_eq. by rewrite Hh in Hi.
Qed.

Lemma trims_ends h t p r :
  toolUseIds h = [] -> toolResultIds p = [] -> trims (h :: t ++ [p]) r ->
  exists l, r = h :: l ++ [p] /\ l `sublist_of` t.
Proof.
  intros Hh Hp. remember (h :: t ++ [p]) as ms eqn:Ems. intros Ht. revert t Ems.
  induction Ht as [ms|ms ms' r Hs _ IH]; intros t ->; [by exists t|].
  apply trim_spec, trims_to_ends in Hs as (l & -> & Hl); [|done|done].
  destruct (IH l eq_refl) as (k & -> & Hk). exists k. split; [done|]. by etrans.
Qed.

(** ** Calls and results stay together *)

Definition all_uses (ms : list CanonicalMessage) : list string := concat (toolUseIds <$> ms).
Definition all_results (ms : list CanonicalMessage) : list string := concat (toolResultIds <$> ms).

Lemma all_uses_app a b : all_uses (a ++ b) = all_uses a ++ all_uses b.
Proof. unfold all_uses. by rewrite fmap_app, concat_app. Qed.
Lemma all_results_app a b : all_results (a ++ b) = all_results a ++ all_results b.
Proof. unfold all_results. by rewrite fmap_app, concat_app. Qed.
Lemma all_uses_cons m b : all_uses (m :: b) = toolUseIds m ++ all_uses b.
Proof. done. Qed.
Lemma all_results_cons m b : all_results (m :: b) = toolResultIds m ++ all_results b.
Proof. done. Qed.

(** Every result comes after its call, every call before its result. *)
Definition answered (ms : list CanonicalMessage) : Prop :=
  forall pre post, ms = pre ++ post ->
    all_results pre ⊆ all_uses pre /\ all_uses post ⊆ all_results post.

(** At most one call or result in a message, none twice. *)
Record one_by_one (ms : list CanonicalMessage) : Prop := {
  ob_each : Forall (fun m => length (toolUseIds m) + length (toolResultIds m) <= 1)%nat ms;
  ob_uses : NoDup (all_uses ms);
  ob_results : NoDup (all_results ms)
}.

Lemma concat_sublist {A B} (f : A -> list B) a b :
  a `sublist_of` b -> concat (f <$> a) `sublist_of` concat (f <$> b).
Proof.
  induction 1; cbn; [done|by apply sublist_app|]. by apply sublist_inserts_l.
Qed.

Lemma one_by_one_sublist a b : a `sublist_of` b -> one_by_one b -> one_by_one a.
Proof.
  intros Hs [H1 H2 H3]. split.
  - rewrite Forall_forall in *. intros x Hx. apply H1. by eapply sublist_subseteq.
  - eapply sublist_NoDup; [exact H2|]. by apply concat_sublist.
  - eapply sublist_NoDup; [exact H3|]. by apply concat_sublist.
Qed.

(** A message without tools can go. *)
Lemma answered_skip a x b :
  toolUseIds x = [] -> toolResultIds x = [] -> answered (a ++ x :: b) -> answered (a ++ b).
Proof.
  intros Hu Hr Ha pre post E. apply app_eq_inv in E as [(k & -> & ->)|(k & -> & ->)].
  - destruct (Ha pre (k ++ x :: b)) as [H1 H2]; [by rewrite <-(assoc_L (++))|]. split; [done|].
    revert H2. by rewrite !all_uses_app, !all_results_app, all_uses_cons, all_results_cons, Hu, Hr.
  - destruct (Ha (a ++ x :: k) post) as [H1 H2]; [by rewrite <-(assoc_L (++))|]. split; [|done].
    revert H1. by rewrite !all_uses_app, !all_results_app, all_uses_cons, all_results_cons, Hu, Hr.
Qed.

(** A call goes with its result. *)
Lemma answered_pair u a x b y c :
  toolUseIds x = [u] -> toolResultIds x = [] -> toolUseIds y = [] -> toolResultIds y = [u] ->
  one_by_one (a ++ x :: b ++ y :: c) -> answered (a ++ x :: b ++ y :: c) -> answered (a ++ b ++ c).
Proof.
  intros Xu Xr Yu Yr [_ Nu Nr] Ha.
  rewrite all_uses_app, all_uses_cons, all_uses_app, all_uses_cons, Xu, Yu in Nu.
  rewrite all_results_app, all_results_cons, all_results_app, all_results_cons, Xr, Yr in Nr.
  cbn [app] in Nu, Nr.
  assert (u ∉ all_uses a ++ all_uses b ++ all_uses c) as Hu.
  { rewrite <-Permutation_middle in Nu. by apply NoDup_cons in Nu as []. }
  assert (u ∉ all_results a ++ all_results b ++ all_results c) as Hr.
  { rewrite (assoc_L (++)), <-Permutation_middle, <-(assoc_L (++)) in Nr. by apply NoDup_cons in Nr as []. }
  clear Nu Nr. intros pre post E.
  assert (exists pre' post', a ++ x :: b ++ y :: c = pre' ++ post'
    /\ all_results pre ⊆ all_results pre' /\ (forall v, v ∈ all_uses pre' -> v = u \/ v ∈ all_uses pre)
    /\ all_uses post ⊆ all_uses post' /\ (forall v, v ∈ all_results post' -> v = u \/ v ∈ all_results post))
    as (pre' & post' & E' & P1 & P2 & P3 & P4).
  { apply app_eq_inv in E as [(k & -> & ->)|(k & -> & E)].
    - exists pre, (k ++ x :: b ++ y :: c). split; [by rewrite <-(assoc_L (++))|].
      rewrite ?all_uses_app, ?all_results_app, ?all_uses_cons, ?all_results_cons,
        ?all_uses_app, ?all_results_app, ?all_uses_cons, ?all_results_cons, Xr, Yr, Xu, Yu. set_solver.
    - apply app_eq_inv in E as [(l & -> & ->)|(l & -> & ->)].
      + exists (a ++ x :: k), (l ++ y :: c). split; [by rewrite <-!(assoc_L (++))|].
        rewrite ?all_uses_app, ?all_results_app, ?all_uses_cons, ?all_results_cons, Xr, Yr, Xu, Yu.
        set_solver.
      + exists (a ++ x :: b ++ y :: l), post. split; [by rewrite <-!(assoc_L (++)); cbn; rewrite <-(assoc_L (++))|].
        rewrite ?all_uses_app, ?all_results_app, ?all_uses_cons, ?all_results_cons,
          ?all_uses_app, ?all_results_app, ?all_uses_cons, ?all_results_cons, Xr, Yr, Xu, Yu. set_solver. }
  destruct (Ha _ _ E') as [A1 A2].
  assert (all_results pre ++ all_results post = all_results a ++ all_results b ++ all_results c) as Er
    by by rewrite <-!all_results_app, <-E.
  assert (all_uses pre ++ all_uses post = all_uses a ++ all_uses b ++ all_uses c) as Eu
    by by rewrite <-!all_uses_app, <-E.
  rewrite <-Er in Hr. rewrite <-Eu in Hu. split; intros v Hv.
  - destruct (P2 v) as [->|]; [by apply A1, P1| |done]. exfalso. apply Hr, elem_of_app. by left.
  - destruct (P4 v) as [->|]; [by apply A2, P3| |done]. exfalso. apply Hu, elem_of_app. by right.
Qed.

(** What trimming keeps: a conversation in which the calls come one by one with
    their results is trimmed to one. *)
Lemma trims_to_answered h t r :
  toolUseIds h = [] -> toolResultIds h = [] ->
  one_by_one (h :: t) -> answered (h :: t) -> trims_to (h :: t) r -> answered r.
Proof.
  intros Hhu Hhr Hob Ha. remember (h :: t) as ms eqn:E.
  destruct 1 as [h' x rest Hne Hno|h' x a y b Hno Hy|h' x rest rest' _ Hi]; simplify_eq.
  - assert (length (toolUseIds x) + length (toolResultIds x) <= 1)%nat as Hx.
    { destruct Hob as [Hf _ _]. apply Forall_cons in Hf as [_ Hf]. by apply Forall_cons in Hf as []. }
    destruct (toolUseIds x) as [|u us] eqn:Eu.
    + apply (answered_skip [h] x rest); [done| |done].
      destruct (toolResultIds x) as [|v vs] eqn:Ev; [done|]. exfalso.
      destruct (Ha [h; x] rest eq_refl) as [H1 _].
      assert (v ∈ all_uses [h; x]) as Hv by (apply H1; rewrite !all_results_cons, Ev; set_solver).
      rewrite !all_uses_cons, Hhu, Eu in Hv. by apply not_elem_of_nil in Hv.
    + exfalso. destruct (Ha [h] (x :: rest) eq_refl) as [_ H2].
      assert (u ∈ all_results (x :: rest)) as Hu by (apply H2; rewrite all_uses_cons, Eu; set_solver).
      rewrite all_results_cons in Hu. cbn in Hx. destruct (toolResultIds x); [|cbn in Hx; lia]. cbn in Hu.
      unfold all_results in Hu. apply list_elem_of_In, in_concat in Hu as (l & Hl & Hu).
      apply list_elem_of_In, list_elem_of_fmap in Hl as (y & -> & Hy).
      rewrite Forall_forall in Hno. specialize (Hno y Hy). apply not_true_iff_false in Hno. apply Hno.
      apply intersects_spec. exists u. split; [by apply list_elem_of_In|set_solver].
  - destruct Hob as [Hf N1 N2]. assert (one_by_one (h :: x :: a ++ y :: b)) as Hob by by split.
    apply Forall_cons in Hf as [_ Hf]. apply Forall_cons in Hf as [Hx Hf].
    apply Forall_app in Hf as [_ Hf]. apply Forall_cons in Hf as [Hy1 _].
    apply intersects_spec in Hy as (u & H1 & H2).
    destruct (toolUseIds x) as [|u' [|? ?]] eqn:Eu; cbn in Hx; try lia; [by apply not_elem_of_nil in H2|].
    destruct (toolResultIds y) as [|v [|? ?]] eqn:Ev; cbn in Hy1; try lia; [by apply not_elem_of_nil in H1|].
    apply list_elem_of_singleton in H1 as ->. apply list_elem_of_singleton in H2 as ->.
    apply (answered_pair u' [h] x a y b); [done| | |done|done|done]; apply nil_length_inv; lia.
  - by rewrite Hhu in Hi.
Qed.

Lemma trims_answered h t p r :
  toolUseIds h = [] -> toolResultIds h = [] -> toolResultIds p = [] ->
  one_by_one (h :: t ++ [p]) -> answered (h :: t ++ [p]) -> trims (h :: t ++ [p]) r -> answered r.
Proof.
  intros Hhu Hhr Hp. remember (h :: t ++ [p]) as ms eqn:Ems. intros Hob Ha Ht. revert t Ems Hob Ha.
  induction Ht as [ms|ms ms' r Hs _ IH]; intros t -> Hob Ha; [done|]. apply trim_spec in Hs.
  destruct (trims_to_ends h t p ms') as (l & -> & Hl); [done|done|done|].
  apply (IH l eq_refl).
  - eapply one_by_one_sublist; [|exact Hob]. by apply trims_to_sublist.
  - by eapply trims_to_answered.
Qed.

Section trimming.
Context `{NumberText}.

(** Enough turns: as many as there are messages. *)
Lemma trim_loop_spec fuel maxTokens ms :
  (length ms <= fuel)%nat -> 0 <= maxTokens ->
  let r := trim_loop fuel maxTokens ms in
  trims ms r /\ (estimateCanonicalMessagesTokens r <= maxTokens \/ (length r <= 2)%nat).
Proof.
  revert ms. induction fuel as [|fuel IH]; intros ms Hf Hm; cbn [trim_loop].
  { split; [done|]. right. lia. }
  destruct (maxTokens <? estimateCanonicalMessagesTokens ms) eqn:E; zbool; [|by split; [|left]].
  destruct (decide (length ms <= 2)%nat) as [Hl|Hl]; [rewrite trim_stops by done; by split; [|right]|].
  destruct (trim_goes_on ms ltac:(lia)) as (ms' & E' & Ht). rewrite E'.
  apply trims_to_shorter in Ht. destruct (IH ms') as [H1 H2]; [lia|done|].
  split; [|done]. by eapply rtc_l.
Qed.

Lemma trim_budget_spec ms maxTokens :
  (forall m, maxTokens = Some m -> 0 <= m) ->
  let r := trimCompactionRequestToEstimatedBudget ms maxTokens in
  trims ms r
  /\ (forall m, maxTokens = Some m -> 0 < m ->
        estimateCanonicalMessagesTokens r <= m \/ (length r <= 2)%nat).
Proof.
  intros Hm. unfold trimCompactionRequestToEstimatedBudget. destruct maxTokens as [m|]; [|by split].
  destruct (m =? 0) eqn:E; zbool; [split; [done|]; intros ? [= ->]; lia|].
  destruct (trim_loop_spec (length ms) m ms) as [H1 H2]; [done|by apply Hm|]. split; [done|].
  by intros ? [= <-].
Qed.
End trimming.

(** ** The newest user messages *)

Section recent.
Context `{NumberText}.

Notation own_estimate m := (estimateCanonicalMessagesTokens [m]).

Definition real_messages (ms : list CanonicalMessage) : list CanonicalMessage :=
  List.filter isRealUserTextMessage ms.

Lemma real_messages_app a b : real_messages (a ++ b) = real_messages a ++ real_messages b.
Proof. apply List.filter_app. Qed.

(** What the selection gives of the messages [ms], the newest last, within a budget:
    the newest ones that fit, after the end of the first that does not. *)
Definition recent (ms : list CanonicalMessage) (budget : Z) (r : list CanonicalMessage) : Prop :=
  exists old kept, real_messages ms = old ++ kept /\ zsum ((fun m => own_estimate m) <$> kept) <= budget
    /\ match last old with
       | None => r = kept
       | Some m => budget - zsum ((fun m => own_estimate m) <$> kept) < own_estimate m
           /\ r = option_list (truncateUserMessageToBudget m
                    (budget - zsum ((fun m => own_estimate m) <$> kept))) ++ kept
       end.

Lemma collect_recent_spec ms selected budget :
  0 <= budget ->
  exists r, collect_recent ms selected budget = selected ++ reverse r /\ recent (reverse ms) budget r.
Proof.
  revert selected budget. induction ms as [|m ms IH]; intros selected budget Hb; cbn [collect_recent].
  { exists []. split; [by rewrite app_nil_r|]. exists [], []. by split_and!. }
  assert (Hr : real_messages (reverse (m :: ms))
    = real_messages (reverse ms) ++ (if isRealUserTextMessage m then [m] else [])).
  { rewrite reverse_cons, real_messages_app. done. }
  destruct (isRealUserTextMessage m) eqn:Em; cbn [negb].
  2:{ destruct (IH selected budget Hb) as (r & E & old & kept & H1 & H2). exists r. split; [done|].
      exists old, kept. by rewrite Hr, app_nil_r. }
  destruct (own_estimate m <=? budget) eqn:Ef; zbool.
  - destruct (IH (selected ++ [m]) (budget - own_estimate m)) as (r & E & old & kept & H1 & H2 & H3); [lia|].
    exists (r ++ [m]). split; [by rewrite E, <-(assoc_L (++)), reverse_snoc|].
    exists old, (kept ++ [m]). rewrite Hr, H1, <-(assoc_L (++)), fmap_app, zsum_app. cbn [fmap list_fmap zsum].
    split; [done|]. split; [lia|].
    replace (budget - (zsum ((fun m => own_estimate m) <$> kept) + (own_estimate m + 0)))
      with (budget - own_estimate m - zsum ((fun m => own_estimate m) <$> kept)) by lia.
    destruct (last old) as [o|]; [|by subst]. destruct H3 as [H3 ->]. split; [done|].
    by rewrite (assoc_L (++)).
  - exists (option_list (truncateUserMessageToBudget m budget)). split.
    { destruct (truncateUserMessageToBudget m budget); [done|]. by rewrite app_nil_r. }
    exists (real_messages (reverse ms) ++ [m]), []. rewrite Hr, app_nil_r, last_snoc.
    cbn [fmap list_fmap zsum].
    rewrite Z.sub_0_r, app_nil_r. split_and!; [done|lia|lia|done].
Qed.

Lemma recent_spec conversation :
  recent conversation RECENT_USER_MESSAGE_TOKEN_BUDGET (collectRecentUserMessages conversation).
Proof.
  unfold collectRecentUserMessages.
  destruct (collect_recent_spec (reverse conversation) [] RECENT_USER_MESSAGE_TOKEN_BUDGET) as (r & -> & Hr);
    [done|].
  cbn [app]. rewrite reverse_involutive in *. done.
Qed.

Lemma user_text_estimate t : own_estimate (user_text t) = 12 + estimateTextTokens t.
Proof.
  rewrite estimate_spec. assert (zlen (image_ids [user_text t]) = 0) as -> by done.
  cbn [fmap list_fmap zsum]. unfold message_cost, MESSAGE_TOKEN_OVERHEAD, CONTENT_BLOCK_TOKEN_OVERHEAD.
  cbn [user_text cm_content fmap list_fmap zsum estimateBlockTokens]. lia.
Qed.

(** A message cut to a budget takes up to twelve tokens more than the budget: the
    overhead of the message and of its block is not counted. *)
Lemma truncated_estimate m budget t :
  truncateUserMessageToBudget m budget = Some t -> own_estimate t <= budget + 12.
Proof.
  unfold truncateUserMessageToBudget. case_match; [done|]. zbool.
  set (room := (budget - estimateTextTokens TRUNCATION_MARKER) * 4).
  case_match; [done|]. zbool. intros [= <-]. rewrite user_text_estimate.
  unfold estimateTextTokens at 1. rewrite js_length_app.
  pose proof (js_slice_end_length (Z.max 0 room) (collectText (normalizeContent (cm_content m))) ltac:(lia)).
  revert H1 H2. generalize (js_length (js_slice_end (Z.max 0 room)
    (collectText (normalizeContent (cm_content m))))) as k.
  subst room. unfold estimateTextTokens. generalize (js_length TRUNCATION_MARKER) as l.
  intros l k Hroom Hk.
  assert (l <= 4 * Z.max 1 ((l + 3) / 4)) by (Z.to_euclidean_division_equations; lia).
  assert ((k + l + 3) / 4 <= budget) by (apply Z.lt_succ_r, Z.div_lt_upper_bound; lia). lia.
Qed.

Lemma recent_estimate ms budget r :
  0 <= budget -> recent ms budget r -> estimateCanonicalMessagesTokens r <= budget + 12.
Proof.
  intros Hb (old & kept & _ & Hk & Hr). pose proof (estimate_split kept) as Hs.
  destruct (last old) as [m|]; [|subst; lia]. destruct Hr as [_ ->].
  destruct (truncateUserMessageToBudget m _) as [t|] eqn:Et; cbn [option_list option_rect app]; [|lia].
  apply truncated_estimate in Et. change (t :: kept) with ([t] ++ kept).
  pose proof (estimate_app [t] kept). lia.
Qed.
End recent.
