(* ===== verification/CompactorRuns.v ===== *)
(** Runs of a compaction: what it asks of the provider, what the provider's answers say
    of how it ends ([refused_with], [gives]), and, when nobody else writes, what it leaves
    in the database ([compacted], [not_compacted]). *)
From Stdlib Require Import ZArith QArith Qround Lia Sorted.
From stdpp Require Import base tactics strings gmap sorting option relations.
From stdpp Require Import list.
From S2P Require Import Prelude JsRuntime Json JsText Canonical ContextBudget ContextAccounting Invocation ContextStore Compactor ContextProps CompactorProps.
Open Scope Z_scope.

Section runs.
Context `{NumberText} `{InvocationEnv} `{Surroundings}.

(** [Q] holds of the result and the state of a program that starts in [w]. *)
Definition runs {A} (m : CM A) (w : ctx) (Q : failure + A -> ctx -> Prop) : Prop := Q (m w).1 (m w).2.

Lemma runs_bind {A B} (m : CM A) (k : A -> CM B) w Q :
  runs m w (fun r w' => match r with inr a => runs (k a) w' Q | inl e => Q (inl e) w' end) ->
  runs (m ≫= k) w Q.
Proof. unfold runs, mbind, CM_mbind. by destruct (m w) as [[e|a] w']. Qed.

Lemma runs_catch {A} (m : CM A) (h : failure -> CM A) w Q :
  runs m w (fun r w' => match r with inl e => runs (h e) w' Q | inr a => Q (inr a) w' end) ->
  runs (catch m h) w Q.
Proof. unfold runs, catch. by destruct (m w) as [[e|a] w']. Qed.

Lemma runs_impl {A} (m : CM A) w (P Q : failure + A -> ctx -> Prop) :
  runs m w P -> (forall r w', P r w' -> Q r w') -> runs m w Q.
Proof. unfold runs. auto. Qed.

Lemma runs_both {A} (m : CM A) w (P Q : failure + A -> ctx -> Prop) :
  runs m w P -> runs m w Q -> runs m w (fun r w' => P r w' /\ Q r w').
Proof. done. Qed.

(** ** What is asked *)

(** A program that asks the provider nothing. *)
Definition asks_nothing {A} (m : CM A) : Prop :=
  forall w, runs m w (fun _ w' => w_requests w' = w_requests w).

Lemma asks_bind {A B} (m : CM A) (k : A -> CM B) :
  asks_nothing m -> (forall a, asks_nothing (k a)) -> asks_nothing (m ≫= k).
Proof.
  intros Hm Hk w. apply runs_bind. eapply runs_impl; [apply Hm|]. intros [e|a] w' E; [done|].
  eapply runs_impl; [apply Hk|]. intros ? ? ->. done.
Qed.

Lemma asks_statement {A} (st : Z -> context_db -> res (A * context_db)) : asks_nothing (statement st).
Proof.
  intros w. unfold runs, statement.
  destruct (st _ _) as [[a d]|m]; destruct (statement_fault (w_awaits w)) as [[[[] ?] ?]|]; done.
Qed.

Lemma asks_ret {A} (a : A) : asks_nothing (mret a : CM A).
Proof. done. Qed.
Lemma asks_throw {A} e : asks_nothing (@throw_ A e).
Proof. done. Qed.

Ltac asks := repeat first [apply asks_bind; [|intros] | apply asks_statement | done].

Lemma asks_recordFailure args e : asks_nothing (recordFailure args e).
Proof. unfold recordFailure, recordFailedContextCheckpoint, insert_checkpoint. asks. Qed.

Lemma asks_completed args s h n : asks_nothing (recordCompletedContextCheckpoint args s h n).
Proof. unfold recordCompletedContextCheckpoint, insert_checkpoint. asks. Qed.

Lemma asks_marker c t : asks_nothing (insertCompactionMessage c t).
Proof. unfold insertCompactionMessage. asks. Qed.

Lemma asks_owner input : asks_nothing (resolveOwner input).
Proof.
  unfold resolveOwner. destruct (ci_ownerUserId input), (ci_tenantId input); asks.
Qed.

Lemma asks_boundary th : asks_nothing (getCurrentContextCheckpointBoundary th).
Proof. unfold getCurrentContextCheckpointBoundary. asks. Qed.

Lemma summary_asks config input owner ms w :
  runs (createSummary config input owner ms) w (fun _ w' =>
    w_requests w' = w_requests w ++ [summary_request config input owner ms]).
Proof.
  unfold createSummary. apply runs_bind. unfold ask_provider, runs at 1. cbn [fst snd].
  apply runs_bind. destruct (provider_answer _ _) as [e|[e|c]|evs en]; try done.
  - unfold runs at 1. cbn. by case_match.
  - destruct (collectProviderResponse evs en); [done|]. unfold runs at 1. cbn. by case_match.
Qed.

Lemma attempt_asks config input args ms w :
  runs (attempt config input args ms) w (fun _ w' =>
    w_requests w' = w_requests w ++ [summary_request config input (cg_ownerUserId args) ms]).
Proof.
  unfold attempt. apply runs_bind. eapply runs_impl; [apply summary_asks|].
  intros [e|s] w1 E1; [done|]. apply runs_bind. eapply runs_impl; [apply asks_completed|].
  intros [e|c] w2 E2; [congruence|]. apply runs_bind. eapply runs_impl; [apply asks_marker|].
  intros [e|m] w3 E3; [congruence|]. unfold runs. cbn. congruence.
Qed.

(** Requests that go from one to the next by trimming. *)
Inductive chain (mk : list CanonicalMessage -> ProviderRequest)
    : list CanonicalMessage -> list ProviderRequest -> Prop :=
  | ChainOne ms : chain mk ms [mk ms]
  | ChainMore ms ms' qs :
      trimCompactionRequest ms = Some ms' -> chain mk ms' qs -> chain mk ms (mk ms :: qs).

Lemma attempts_S config input args n ms last :
  attempts config input args (S n) ms last
  = catch (attempt config input args ms) (fun e =>
      if negb (isProviderContextWindowError e) then recordFailure args e;; throw_ e
      else match trimCompactionRequest ms with
           | Some trimmed => attempts config input args n trimmed (Some e)
           | None => recordFailure args e;; throw_ (JsError "Error" CONTEXT_COMPACTION_FAILED)
           end).
Proof. done. Qed.

Lemma attempts_asks config input args n ms last w :
  runs (attempts config input args (S n) ms last) w (fun _ w' => exists qs,
    w_requests w' = w_requests w ++ qs /\ (length qs <= S n)%nat
    /\ chain (summary_request config input (cg_ownerUserId args)) ms qs).
Proof.
  revert ms last w. induction n as [|n IH]; intros ms last w.
  all: set (Q := fun _ _ => _); rewrite attempts_S; apply runs_catch;
    (eapply runs_impl; [apply attempt_asks|]); intros [e|res] w1 E1;
    [|exists [summary_request config input (cg_ownerUserId args) ms]; split_and!; [done|cbn; lia|constructor]].
  all: assert (Hone : forall (A : Type) (m : CM A), asks_nothing m -> runs m w1 (fun _ w' =>
         w_requests w' = w_requests w ++ [summary_request config input (cg_ownerUserId args) ms]))
    by (intros A m Hm; eapply runs_impl; [apply Hm|]; intros ? ? ->; done).
  all: assert (Hend : forall m : CM CompactContextResult, asks_nothing m -> runs m w1 Q)
    by (intros m Hm; eapply runs_impl; [by apply Hone|]; intros r w' E;
        exists [summary_request config input (cg_ownerUserId args) ms];
        split_and!; [done|cbn; lia|constructor]).
  all: destruct (isProviderContextWindowError e); cbn [negb];
    [|apply Hend; apply asks_bind; [apply asks_recordFailure|done]].
  all: destruct (trimCompactionRequest ms) as [ms'|] eqn:Et;
    [|apply Hend; apply asks_bind; [apply asks_recordFailure|done]].
  - apply Hend. apply asks_bind; [apply asks_recordFailure|done].
  - eapply runs_impl; [apply IH|]. intros r w' (qs & E & Hl & Hc).
    exists (summary_request config input (cg_ownerUserId args) ms :: qs).
    split_and!; [by rewrite E, E1, <-(assoc_L (++))|cbn; lia|by econstructor].
Qed.

(** ** What the provider said

    Lists of requests: those made before a run, and those made when it ended. *)

Definition answer_content (a : ProviderAnswer) : failure + list CanonicalContentBlock :=
  match a with
  | NoProvider e => inl e
  | SyncAnswer response => response
  | StreamAnswer events ending => collectProviderResponse events ending
  end.

(** The answer is no summary, because of [e]. *)
Definition refused_with (a : ProviderAnswer) (e : failure) : Prop :=
  match answer_content a with
  | inl e' => e = e'
  | inr content => str_truthy (trim (collectText content)) = false
                   /\ e = JsError "Error" "context_compaction_empty_summary"
  end.

Definition gives (a : ProviderAnswer) (summary : string) : Prop :=
  exists content, answer_content a = inr content /\ summary = trim (collectText content)
    /\ str_truthy summary = true.

(** The run asked [qs] and at last [q]; each of [qs] was refused because it did not fit
    the window. *)
Definition asked (before after qs : list ProviderRequest) (q : ProviderRequest) : Prop :=
  after = before ++ qs ++ [q]
  /\ forall i r, qs !! i = Some r -> exists e, isProviderContextWindowError e = true
       /\ refused_with (provider_answer (length before + i) r) e.

Definition summarised (before after : list ProviderRequest) (summary : string) : Prop :=
  exists qs q, asked before after qs q
    /\ gives (provider_answer (length before + length qs) q) summary.

(** The last answer was refused because of [e]; if that is the window, no more than [more]
    requests could follow the first, or there was nothing left to trim. *)
Definition gave_up (more : nat) (before after : list ProviderRequest) (e : failure) : Prop :=
  exists qs q, asked before after qs q
    /\ refused_with (provider_answer (length before + length qs) q) e
    /\ (isProviderContextWindowError e = true ->
        length qs = more \/ trimCompactionRequest (rq_messages q) = None).

Lemma asked_one before q : asked before (before ++ [q]) [] q.
Proof. split; [done|]. by intros i r. Qed.

Lemma asked_cons before q0 e0 after qs q :
  refused_with (provider_answer (length before) q0) e0 -> isProviderContextWindowError e0 = true ->
  asked (before ++ [q0]) after qs q -> asked before after (q0 :: qs) q.
Proof.
  intros Hr He [-> Hq]. split; [by rewrite <-(assoc_L (++))|]. intros [|i] r Hi; cbn in Hi.
  - simplify_eq. exists e0. by rewrite Nat.add_0_r.
  - destruct (Hq i r Hi) as (e & ? & Hre). exists e. split; [done|].
    by rewrite length_app, <-Nat.add_assoc in Hre.
Qed.

Lemma later_answer before (q0 : ProviderRequest) (qs : list ProviderRequest) :
  (length (before ++ [q0]) + length qs = length before + length (q0 :: qs))%nat.
Proof. rewrite length_app. cbn. lia. Qed.

Lemma summarised_cons before q0 e0 after summary :
  refused_with (provider_answer (length before) q0) e0 -> isProviderContextWindowError e0 = true ->
  summarised (before ++ [q0]) after summary -> summarised before after summary.
Proof.
  intros Hr He (qs & q & Ha & Hg). rewrite later_answer in Hg. exists (q0 :: qs), q.
  split; [by eapply asked_cons|done].
Qed.

Lemma gave_up_cons more before q0 e0 after e :
  refused_with (provider_answer (length before) q0) e0 -> isProviderContextWindowError e0 = true ->
  gave_up more (before ++ [q0]) after e -> gave_up (S more) before after e.
Proof.
  intros Hr He (qs & q & Ha & Hg & Hm). rewrite later_answer in Hg. exists (q0 :: qs), q.
  split_and!; [by eapply asked_cons|done|]. intros Hw. destruct (Hm Hw) as [<-|]; auto.
Qed.

(** ** What is left in the database

    When nobody else commits meanwhile. *)

Section alone.
Hypothesis alone : forall n d, interfere n d = d.

(** [e] is the error of a statement of the run: it failed, or the database refused a text. *)
Definition statement_error (w w' : ctx) (e : failure) : Prop :=
  (exists n took name message, (w_awaits w <= n < w_awaits w')%nat
     /\ statement_fault n = Some (took, name, message) /\ e = JsError name message)
  \/ (e = JsError "Error" JSONB_REFUSED /\ exists t, jsonb_accepts t = false).

Lemma statement_error_mono w w1 w2 w' e :
  (w_awaits w <= w_awaits w1)%nat -> (w_awaits w2 <= w_awaits w')%nat ->
  statement_error w1 w2 e -> statement_error w w' e.
Proof.
  intros ? ? [(n & took & name & message & ? & ?)|?]; [left|by right].
  exists n, took, name, message. split; [lia|done].
Qed.

Lemma statement_error_window w w' e : statement_error w w' e -> isProviderContextWindowError e = false.
Proof. by intros [(? & ? & ? & ? & _ & _ & ->)|[-> _]]. Qed.

(** The run went on from [w] to [w'] without a request. *)
Definition passed (w w' : ctx) : Prop :=
  (w_awaits w <= w_awaits w')%nat /\ w_requests w' = w_requests w.

#[local] Instance passed_preorder : PreOrder passed.
Proof.
  split; [done|]. intros w1 w2 w3 [? E1] [? E2]. split; [lia|congruence].
Qed.

Lemma statement_alone {A} (st : Z -> context_db -> res (A * context_db)) w :
  runs (statement st) w (fun r w' =>
    passed w w' /\
    match r with
    | inr a => st (clock_us (w_awaits w)) (w_db w) = Ok (a, w_db w')
    | inl e =>
        (w_db w' = w_db w \/ exists a, st (clock_us (w_awaits w)) (w_db w) = Ok (a, w_db w'))
        /\ ((exists n took name message, (w_awaits w <= n < w_awaits w')%nat
               /\ statement_fault n = Some (took, name, message) /\ e = JsError name message)
            \/ exists m, st (clock_us (w_awaits w)) (w_db w) = Err m /\ e = JsError "Error" m)
    end).
Proof.
  unfold runs, statement, passed. rewrite alone.
  assert (Hf : forall took name message, statement_fault (w_awaits w) = Some (took, name, message) ->
    exists n took' name' message', (w_awaits w <= n < S (w_awaits w))%nat
      /\ statement_fault n = Some (took', name', message') /\ JsError name message = JsError name' message')
    by (intros took name message Es; exists (w_awaits w), took, name, message; split; [lia|done]).
  destruct (st _ _) as [[a d]|m] eqn:Es;
    destruct (statement_fault (w_awaits w)) as [[[[] name] message]|] eqn:Ef;
    cbn [fst snd w_awaits w_db w_requests]; (split; [split; [lia|done]|]); try done.
  - split; [right; by exists a|left; by eapply Hf].
  - split; [by left|left; by eapply Hf].
  - split; [by left|left; by eapply Hf].
  - split; [by left|left; by eapply Hf].
  - split; [by left|right; by exists m].
Qed.

(** A statement that writes a row unless the database refuses one of its texts. *)
Lemma write_alone {A} (columns : jsval) (write : Z -> context_db -> A * context_db) w :
  runs (statement (fun now d => if jsonb_ok columns then Ok (write now d) else Err JSONB_REFUSED)) w
    (fun r w' => passed w w' /\ exists now,
       match r with
       | inr a => (a, w_db w') = write now (w_db w)
       | inl e => statement_error w w' e
           /\ (w_db w' = w_db w \/ exists a, (a, w_db w') = write now (w_db w))
       end).
Proof.
  eapply runs_impl; [apply statement_alone|]. cbn beta. intros r w' [Hp Hr]. split; [done|].
  exists (clock_us (w_awaits w)). destruct (jsonb_ok columns) eqn:Ej.
  - destruct r as [e|a]; [|congruence]. destruct Hr as [Hd [He|(m & ? & _)]]; [|done].
    split; [by left|]. destruct Hd as [|[a Ha]]; [by left|right; exists a; congruence].
  - destruct r as [e|a]; [|done]. destruct Hr as [Hd He]. split.
    + destruct He as [He|(m & [= <-] & ->)]; [by left|right]. split; [done|]. clear Hd.
      unfold jsonb_ok in Ej. induction (json_texts columns) as [|t l IH]; [done|]. cbn in Ej.
      destruct (jsonb_accepts t) eqn:Et; [auto|by exists t].
    + by destruct Hd as [|[a ?]]; [left|].
Qed.

(** The rows a run inserted. *)
Definition with_rows {R} (rows : list (string * R)) (m : gmap string R) : gmap string R :=
  foldr (fun x m => <[x.1 := x.2]> m) m rows.

(** The database with the rows of a compaction. *)
Definition left_by (checkpoints : list (string * AgentContextCheckpointRow))
    (marks : list (string * MessageRow)) (d : context_db) : context_db :=
  mkContextDb (cx_invs d) (set_messages (with_rows marks (messages (cx_tables d))) (cx_tables d))
    (cx_calls d) (cx_items d) (with_rows checkpoints (cx_checkpoints d)).

Lemma left_by_nothing d : left_by [] [] d = d.
Proof. by destruct d as [? [] ? ? ?]. Qed.

Lemma left_by_checkpoint id row d :
  with_checkpoints (<[id := row]> (cx_checkpoints d)) d = left_by [(id, row)] [] d.
Proof. by destruct d as [? [] ? ? ?]. Qed.

Lemma left_by_mark id row d :
  with_messages (<[id := row]> (messages (cx_tables d))) d = left_by [] [(id, row)] d.
Proof. by destruct d as [? [] ? ? ?]. Qed.

Lemma left_by_app fs cs ms d : left_by fs [] (left_by cs ms d) = left_by (fs ++ cs) ms d.
Proof. unfold left_by, with_rows. cbn. by rewrite foldr_app. Qed.
Lemma left_by_marks cs ms d : left_by [] ms (left_by cs [] d) = left_by cs ms d.
Proof. done. Qed.

Lemma insert_checkpoint_alone id row columns w :
  runs (insert_checkpoint id row columns) w (fun r w' => passed w w' /\ exists now,
    match r with
    | inr c => c = (id, row now) /\ w_db w' = left_by [(id, row now)] [] (w_db w)
    | inl e => statement_error w w' e
        /\ (w_db w' = w_db w \/ w_db w' = left_by [(id, row now)] [] (w_db w))
    end).
Proof.
  unfold insert_checkpoint. eapply runs_impl.
  { apply (write_alone columns (fun now d =>
      ((id, row now), with_checkpoints (<[id := row now]> (cx_checkpoints d)) d))). }
  cbn beta zeta. intros r w' (Hp & now & Hr). split; [done|]. exists now.
  rewrite left_by_checkpoint in Hr. destruct r as [e|c]; [|by simplify_eq].
  destruct Hr as [He [Hd|[a Ha]]]; (split; [done|]); [by left|right; by simplify_eq].
Qed.

(** ** The rows of a compaction *)

Section rows.
Context (config : ContextConfig) (input : CompactContextInput).
Context (owner : option string * option string) (boundary : AgentContextCheckpointBoundary).

(** What the row of a compaction says of its cause. *)
Definition says_cause (c : AgentContextCheckpointRow) : Prop :=
  ck_threadId c = ci_threadId input
  /\ ck_cause c = mkCause (ci_trigger input) (ci_reason input) (ci_phase input) "local_summary"
       (Some (ci_provider input)) (Some (ci_providerModel input)) (Some (ci_reasoningLevel input))
  /\ ck_boundary c = boundary /\ ck_inputTokensBefore c = ci_inputTokensBefore input
  /\ ck_createdByUserId c = owner.1 /\ ck_tenantId c = owner.2.

(** The first thousand units of a message. *)
Definition bounded_message (m : string) : jsval :=
  JStr (if 1000 <? js_length m then js_take 1000 m +:+ "... [truncated]" else m).

(** What a failed row says of the error: its name and message, whether it was the window,
    and then whose. *)
Definition error_record (e : failure) : jsonb :=
  match e with
  | ContextWindowError provider model message code =>
      [("name", JStr "ProviderContextWindowError"); ("message", bounded_message message);
       ("retryable", JBool true); ("code", JStr "CONTEXT_WINDOW"); ("provider", JStr provider);
       ("model", JStr model)] ++ member "provider_code" JStr code
  | JsError name message =>
      [("name", JStr name); ("message", bounded_message message); ("retryable", JBool false);
       ("code", JStr "COMPACTION_FAILED")]
  | Thrown text =>
      [("code", JStr "COMPACTION_FAILED"); ("message", bounded_message text);
       ("retryable", JBool false)]
  end.

Lemma error_record_spec e : boundErrorRecord (errorToRecord e) = error_record e.
Proof.
  unfold boundErrorRecord, error_record, bounded_message.
  destruct e as [p m s c|n s|s]; cbn [errorToRecord]; change (field_lookup "message" _) with (JStr s);
    cbv beta iota; by destruct (1000 <? js_length s).
Qed.

(** The row of a compaction that failed with [e]. *)
Definition failed_row (e : failure) (c : string * AgentContextCheckpointRow) : Prop :=
  says_cause c.2 /\ ck_status c.2 = CkFailed /\ ck_error c.2 = Some (error_record e)
  /\ ck_summary c.2 = None /\ ck_replacementHistory c.2 = [] /\ ck_estimatedTokensAfter c.2 = None.

(** The row of a compaction that succeeded with the summary of the provider. *)
Definition completed_row (before after : list ProviderRequest)
    (c : string * AgentContextCheckpointRow) : Prop :=
  exists summary, summarised before after summary /\ says_cause c.2
    /\ ck_status c.2 = CkCompleted /\ ck_error c.2 = None /\ ck_summary c.2 = Some summary
    /\ ck_replacementHistory c.2
       = buildReplacementHistory (ci_conversation input) summary (ci_currentTerminalContext input)
    /\ ck_estimatedTokensAfter c.2
       = Some (estimateCanonicalMessagesTokens (ck_replacementHistory c.2)).

(** The transcript row of a checkpoint. *)
Definition mark_of (c : string * AgentContextCheckpointRow) (m : string * MessageRow) : Prop :=
  exists clientId now, m.2 = buildCompactionMessageValues c.1 clientId now c.2 (Some (ci_turnId input)).

(** What is thrown in the end for the error of the last attempt. *)
Definition thrown_for (e : failure) : failure :=
  if isProviderContextWindowError e then JsError "Error" CONTEXT_COMPACTION_FAILED else e.

(** What a compaction that succeeded left: its checkpoint and the transcript row. *)
Definition compacted (res : CompactContextResult) (w w' : ctx) : Prop :=
  completed_row (w_requests w) (w_requests w') (co_checkpoint res)
  /\ co_replacementHistory res = ck_replacementHistory (co_checkpoint res).2
  /\ exists m, mark_of (co_checkpoint res) m /\ w_db w' = left_by [co_checkpoint res] [m] (w_db w).

(** The rows of attempts that failed. *)
Definition leftovers (before after : list ProviderRequest)
    (cs : list (string * AgentContextCheckpointRow)) (marks : list (string * MessageRow)) : Prop :=
  Forall (completed_row before after) cs /\ (length cs <= 1)%nat /\ (length marks <= 1)%nat
  /\ (cs = [] -> marks = []).

Lemma leftovers_nothing before after : leftovers before after [] [].
Proof. split_and!; try done; cbn; lia. Qed.

Lemma leftovers_row before after c marks :
  completed_row before after c -> (length marks <= 1)%nat -> leftovers before after [c] marks.
Proof. intros Hc Hl. split_and!; [by apply Forall_singleton|cbn; lia|done|done]. Qed.

(** What a compaction that failed with [out] left.  The last attempt failed with [e]: the
    provider gave no summary, or a statement failed, and only then may the rows of the attempt
    be there.  A failed row says so, unless it could not be written. *)
Definition not_compacted (more : nat) (out : failure) (w w' : ctx) : Prop :=
  exists cs fs marks e, w_db w' = left_by (fs ++ cs) marks (w_db w)
    /\ leftovers (w_requests w) (w_requests w') cs marks
    /\ (gave_up more (w_requests w) (w_requests w') e /\ cs = [] \/ statement_error w w' e)
    /\ Forall (failed_row e) fs /\ (length fs <= 1)%nat
    /\ (out = thrown_for e /\ fs <> [] \/ statement_error w w' out).

Notation args := (checkpoint_args input owner boundary).

Lemma recordFailure_alone e w :
  runs (recordFailure args e) w (fun r w' => passed w w' /\
    exists fs, w_db w' = left_by fs [] (w_db w) /\ Forall (failed_row e) fs /\ (length fs <= 1)%nat
      /\ match r with inr _ => fs <> [] | inl out => statement_error w w' out end).
Proof.
  unfold recordFailure. apply runs_bind. unfold recordFailedContextCheckpoint.
  apply runs_bind. unfold draw, runs at 1. cbn [fst snd]. apply runs_bind. unfold new_date, runs at 1.
  cbn [fst snd w_awaits]. set (w0 := mkCtx _ _ _ _).
  eapply runs_impl; [apply insert_checkpoint_alone|]. cbn beta. intros r w' (Hp & now & Hr).
  rewrite error_record_spec in Hr. set (c := (_, _)) in Hr.
  assert (Hc : failed_row e c) by done.
  destruct r as [out|c']; [split; [exact Hp|]|unfold runs; cbn [fst snd mret CM_mret]; split; [exact Hp|]].
  - destruct Hr as [He [E|E]]; [exists []|exists [c]]; (split_and!; [| |cbn; lia|exact He]);
      [by rewrite left_by_nothing|done|done|by apply Forall_singleton].
  - destruct Hr as [_ E]. exists [c]. split_and!; [done|by apply Forall_singleton|done|done].
Qed.

Lemma createSummary_alone ms w :
  runs (createSummary config input owner.1 ms) w (fun r w' =>
    let q := summary_request config input owner.1 ms in
    w_db w' = w_db w /\ w_awaits w' = w_awaits w /\ w_requests w' = w_requests w ++ [q]
    /\ let a := provider_answer (length (w_requests w)) q in
       match r with inr s => gives a s | inl e => refused_with a e end).
Proof.
  unfold createSummary. apply runs_bind. unfold ask_provider, runs at 1. cbn [fst snd].
  cbn zeta. unfold gives, refused_with. set (q := summary_request _ _ _ _). set (a := provider_answer _ _).
  assert (Hend : forall content (w1 : ctx), answer_content a = inr content ->
    w_db w1 = w_db w /\ w_awaits w1 = w_awaits w /\ w_requests w1 = w_requests w ++ [q] ->
    runs (if str_truthy (trim (collectText content)) then mret (trim (collectText content))
          else throw_ (JsError "Error" "context_compaction_empty_summary") : CM string) w1
      (fun r w' => w_db w' = w_db w /\ w_awaits w' = w_awaits w /\ w_requests w' = w_requests w ++ [q]
        /\ match r with
           | inr s => exists content, answer_content a = inr content /\ s = trim (collectText content)
               /\ str_truthy s = true
           | inl e => match answer_content a with
               | inl e' => e = e'
               | inr content => str_truthy (trim (collectText content)) = false
                   /\ e = JsError "Error" "context_compaction_empty_summary"
               end
           end)).
  { intros content w1 Ea (? & ? & ?). rewrite Ea. case_match eqn:Es; unfold runs;
      cbn [fst snd mret CM_mret throw_]; split_and!; try done. by exists content. }
  apply runs_bind. destruct a as [e|[e|content]|events ending] eqn:Ea; [done|done| |].
  - apply Hend; done.
  - cbn [answer_content] in *. destruct (collectProviderResponse events ending) as [e|content]; [done|].
    apply Hend; done.
Qed.

Lemma marker_alone c turn w :
  runs (insertCompactionMessage c turn) w (fun r w' => passed w w' /\
    exists id clientId now, let row := buildCompactionMessageValues c.1 clientId now c.2 turn in
    match r with
    | inr m => m = serializeCompactionMessage id row /\ w_db w' = left_by [] [(id, row)] (w_db w)
    | inl e => statement_error w w' e
        /\ (w_db w' = w_db w \/ w_db w' = left_by [] [(id, row)] (w_db w))
    end).
Proof.
  unfold insertCompactionMessage. apply runs_bind. unfold draw at 1, runs at 1. cbn [fst snd].
  apply runs_bind. unfold draw at 1, runs at 1. cbn [fst snd]. apply runs_bind.
  unfold new_date, runs at 1. cbn [fst snd w_awaits w_drawn w_db w_requests].
  set (w0 := mkCtx _ _ _ _). set (id := random_uuid _). set (clientId := message_client_id _).
  set (now := trunc_ms _). set (row := buildCompactionMessageValues _ _ _ _ _).
  eapply runs_impl.
  { apply (write_alone (JObj (m_metadata row)) (fun _ d => (serializeCompactionMessage id row,
      with_messages (<[id := row]> (messages (cx_tables d))) d))). }
  cbn beta. intros r w' (Hp & _ & Hr). split; [exact Hp|]. exists id, clientId, now. cbn zeta.
  rewrite left_by_mark in Hr. change (w_db w0) with (w_db w) in Hr.
  destruct r as [e|m]; [|by simplify_eq].
  destruct Hr as [He [Hd|[a Ha]]]; (split; [exact He|]); [by left|right; by simplify_eq].
Qed.

(** How an attempt ends. *)
Lemma attempt_alone ms w :
  let q := summary_request config input owner.1 ms in
  runs (attempt config input args ms) w (fun r w' => (w_awaits w <= w_awaits w')%nat
    /\ w_requests w' = w_requests w ++ [q] /\
    match r with
    | inr res => compacted res w w'
    | inl e => exists cs marks, w_db w' = left_by cs marks (w_db w)
        /\ leftovers (w_requests w) (w_requests w') cs marks
        /\ (refused_with (provider_answer (length (w_requests w)) q) e /\ cs = []
            \/ statement_error w w' e)
    end).
Proof.
  intros q. unfold attempt. apply runs_bind. eapply runs_impl; [apply createSummary_alone|].
  cbn zeta. fold q. intros [e|summary] w1 (D1 & A1 & R1 & Hs).
  { split; [lia|]. split; [done|]. exists [], []. rewrite left_by_nothing.
    split; [done|]. split; [apply leftovers_nothing|by left]. }
  assert (Hsum : summarised (w_requests w) (w_requests w ++ [q]) summary).
  { exists [], q. split; [apply asked_one|]. cbn. by rewrite Nat.add_0_r. }
  apply runs_bind. unfold recordCompletedContextCheckpoint. apply runs_bind.
  unfold draw, runs at 1. cbn [fst snd]. apply runs_bind. unfold new_date, runs at 1. cbn [fst snd w_awaits].
  set (w2 := mkCtx _ _ _ _). eapply runs_impl; [apply insert_checkpoint_alone|]. cbn beta.
  intros r w3 ([A3 R3] & now & Hr). set (c := (_, _)) in Hr. cbn [w_awaits w_requests w2 w_db] in A3, R3, Hr.
  assert (Hc : forall w', w_requests w' = w_requests w3 -> completed_row (w_requests w) (w_requests w') c).
  { intros w' E. rewrite E, R3, R1. by exists summary. }
  destruct r as [e|c'].
  { split; [lia|]. split; [congruence|]. destruct Hr as [He Hd].
    assert (statement_error w w3 e) as He' by (eapply statement_error_mono; [| |exact He]; cbn; lia).
    destruct Hd as [E|E]; [exists [], []|exists [c], []]; rewrite ?left_by_nothing;
      (split; [cbn in E; congruence|]); (split; [|by right]).
    - apply leftovers_nothing.
    - apply leftovers_row; [by apply Hc|cbn; lia]. }
  destruct Hr as (-> & E3). apply runs_bind. eapply runs_impl; [apply marker_alone|].
  intros r w4 [[A4 R4] (id & clientId & now' & Hr)]. cbn zeta in Hr.
  set (m := (id, _)) in Hr. assert (Hm : mark_of c m) by by exists clientId, now'.
  assert (Hrows : forall marks, w_db w4 = left_by [] marks (w_db w3) -> w_db w4 = left_by [c] marks (w_db w))
    by (intros marks ->; rewrite E3, D1; apply left_by_marks).
  destruct r as [e|msg].
  - destruct Hr as [He Hd]. split; [lia|]. split; [congruence|].
    assert (statement_error w w4 e) as He' by (eapply statement_error_mono; [| |exact He]; lia).
    destruct Hd as [Hd|Hd]; [exists [c], []|exists [c], [m]];
      (split; [apply Hrows; by rewrite ?left_by_nothing|]); (split; [|by right]);
      (apply leftovers_row; [by apply Hc|cbn; lia]).
  - destruct Hr as (-> & E4). unfold runs. cbn [fst snd mret CM_mret].
    split; [lia|]. split; [congruence|]. unfold compacted. cbn [co_checkpoint co_replacementHistory].
    split_and!; [by apply Hc|done|]. exists m. split; [done|]. by apply Hrows.
Qed.

(** The failure is recorded after attempts that left [cs] and [marks]. *)
Lemma fail_alone {A} more e cs marks w w1 :
  (w_awaits w <= w_awaits w1)%nat -> w_db w1 = left_by cs marks (w_db w) ->
  leftovers (w_requests w) (w_requests w1) cs marks ->
  (gave_up more (w_requests w) (w_requests w1) e /\ cs = [] \/ statement_error w w1 e) ->
  runs (recordFailure args e;; (throw_ (thrown_for e) : CM A)) w1 (fun r w' =>
    (w_awaits w <= w_awaits w')%nat
    /\ match r with inr _ => False | inl out => not_compacted more out w w' end).
Proof.
  intros Hl E Hc He. apply runs_bind. eapply runs_impl; [apply recordFailure_alone|].
  intros r w' ([Hl' Hq] & fs & E' & Hfs & L & Hr).
  assert (forall out, (out = thrown_for e /\ fs <> [] \/ statement_error w w' out) ->
    not_compacted more out w w') as Hn.
  { intros out Hout. exists cs, fs, marks, e. rewrite Hq. split_and!; auto.
    - by rewrite E', E, left_by_app.
    - destruct He as [He|He]; [by left|right]. eapply statement_error_mono; [| |exact He]; lia. }
  destruct r as [out|[]]; unfold runs; cbn [fst snd throw_]; (split; [lia|]); apply Hn.
  - right. eapply statement_error_mono; [| |exact Hr]; lia.
  - by left.
Qed.

(** A run that begins with a request that did not fit the window. *)
Section refused.
Context (w w1 w' : ctx) (q0 : ProviderRequest) (e0 : failure).
Hypothesis before_awaits : (w_awaits w <= w_awaits w1)%nat.
Hypothesis before_db : w_db w1 = w_db w.
Hypothesis before_asked : w_requests w1 = w_requests w ++ [q0].
Hypothesis before_refused : refused_with (provider_answer (length (w_requests w)) q0) e0.
Hypothesis before_window : isProviderContextWindowError e0 = true.

Lemma completed_cons c :
  completed_row (w_requests w1) (w_requests w') c -> completed_row (w_requests w) (w_requests w') c.
Proof.
  intros (summary & Hs & Hc). exists summary. split; [|done]. rewrite before_asked in Hs.
  by eapply summarised_cons.
Qed.

Lemma compacted_cons res : compacted res w1 w' -> compacted res w w'.
Proof.
  intros (Hc & Hh & m & Hm & E). split; [by apply completed_cons|]. split; [done|].
  exists m. by rewrite <-before_db.
Qed.

Lemma not_compacted_cons more out : not_compacted more out w1 w' -> not_compacted (S more) out w w'.
Proof.
  assert (forall e, statement_error w1 w' e -> statement_error w w' e) as Hs
    by (intros e; apply statement_error_mono; [done|lia]).
  intros (cs & fs & marks & e & E & (Hc & Hl) & He & Hf & L & Hout). exists cs, fs, marks, e.
  split; [by rewrite <-before_db|]. split; [split; [|done]|split_and!; auto].
  - eapply Forall_impl; [exact Hc|]. apply completed_cons.
  - destruct He as [[He ->]|He]; [left|right; auto]. split; [|done]. rewrite before_asked in He.
    by eapply gave_up_cons.
  - destruct Hout as [|Hout]; auto.
Qed.
End refused.

Lemma attempts_alone n ms last w :
  runs (attempts config input args (S n) ms last) w (fun r w' => (w_awaits w <= w_awaits w')%nat /\
    match r with inr res => compacted res w w' | inl out => not_compacted n out w w' end).
Proof.
  revert ms last w. induction n as [|n IH]; intros ms last w.
  all: rewrite attempts_S; apply runs_catch; (eapply runs_impl; [apply attempt_alone|]);
    intros [e|res] w1 (Hl & Hq & Hr); [|by split].
  all: destruct Hr as (cs & marks & E & Hc & He).
  all: assert (forall more, (isProviderContextWindowError e = true ->
        more = 0%nat \/ trimCompactionRequest ms = None) ->
      runs (recordFailure args e;; (throw_ (thrown_for e) : CM CompactContextResult)) w1
      (fun r w' => (w_awaits w <= w_awaits w')%nat /\
        match r with inr res => compacted res w w' | inl out => not_compacted more out w w' end)) as Hend.
  1, 3: intros more Hw; eapply runs_impl; [apply (fail_alone more e cs marks w w1); auto|
      intros [?|?] w' [? Hn]; [done|by destruct Hn]];
    destruct He as [[He ->]|He]; [left; split; [|done]|by right];
    exists [], (summary_request config input owner.1 ms); rewrite Hq; split; [apply asked_one|];
    split; [cbn; by rewrite Nat.add_0_r|]; intros [->|Ht]%Hw; [by left|by right].
  all: unfold thrown_for in Hend; destruct (isProviderContextWindowError e) eqn:Ee; cbn [negb];
    [|by apply Hend].
  all: destruct (trimCompactionRequest ms) as [ms'|] eqn:Et; [|by apply Hend; auto].
  - apply (Hend 0%nat). auto.
  - destruct He as [[He ->]|He]; [|by apply statement_error_window in He; congruence].
    destruct Hc as (_ & _ & _ & Hm). rewrite Hm, left_by_nothing in E by done.
    eapply runs_impl; [apply IH|]. intros r w' [Hl' Hr]. split; [lia|]. destruct r as [out|res].
    + by eapply not_compacted_cons.
    + by eapply compacted_cons.
Qed.
End rows.

(** ** A whole compaction *)

(** The end of a thread as the rows of the database have it. *)
Definition boundary_of (threadId : string) (d : context_db) : res AgentContextCheckpointBoundary :=
  rows ← context_messages threadId d;
  let calls := context_calls (of_thread threadId) d in
  Ok (mkBoundary (trunc_ms ∘ fst <$> last rows) (fst ∘ snd <$> last rows)
        (trunc_ms ∘ fst <$> last calls) (fst ∘ snd <$> last calls)).

(** Whose checkpoint it is: what the caller says, and where it says nothing what the thread has. *)
Definition owner_of (input : CompactContextInput) (d : context_db) : option string * option string :=
  let stored (column : ThreadRow -> option string) := threads (cx_tables d) !! ci_threadId input ≫= column in
  match ci_ownerUserId input, ci_tenantId input with
  | Some owner, Some tenant => (owner, tenant)
  | owner, tenant =>
      (match owner with Some (Some v) => Some v | _ => stored th_createdByUserId end,
       match tenant with Some (Some v) => Some v | _ => stored th_tenantId end)
  end.

Lemma select_alone {A} (q : context_db -> res A) w :
  runs (select q) w (fun r w' => passed w w' /\ w_db w' = w_db w /\
    match r with
    | inr a => q (w_db w) = Ok a
    | inl e => statement_error w w' e \/ exists m, q (w_db w) = Err m
    end).
Proof.
  eapply runs_impl; [apply statement_alone|]. intros r w' [Hp Hr]. split; [done|].
  destruct r as [e|a]; [|destruct (q (w_db w)); by simplify_eq/=].
  destruct Hr as [Hd Ht]. split.
  - destruct Hd as [|(a & E)]; [done|]. destruct (q (w_db w)); by simplify_eq/=.
  - destruct Ht as [|(m & E & _)]; [by left; left|]. right. exists m. destruct (q (w_db w)); by simplify_eq/=.
Qed.

Lemma boundary_alone th w :
  runs (getCurrentContextCheckpointBoundary th) w (fun r w' => passed w w' /\ w_db w' = w_db w /\
    match r with
    | inr b => boundary_of th (w_db w) = Ok b
    | inl e => statement_error w w' e \/ exists m, boundary_of th (w_db w) = Err m
    end).
Proof.
  unfold getCurrentContextCheckpointBoundary, boundary_of. apply runs_bind.
  eapply runs_impl; [apply select_alone|]. intros r w1 (P1 & D1 & Hr). destruct r as [e|message].
  { split_and!; auto. destruct Hr as [|[m Hm]]; [by left|]. right. exists m.
    by destruct (context_messages th (w_db w)); simplify_eq/=. }
  apply runs_bind. eapply runs_impl; [apply select_alone|]. intros r w2 (P2 & D2 & Hr2).
  destruct r as [e|call].
  { split_and!; [by etrans|congruence|]. destruct Hr2 as [Hf|[m Hm]]; [left|done].
    eapply statement_error_mono; [| |exact Hf]; [apply P1|done]. }
  unfold runs. cbn [fst snd mret CM_mret]. split_and!; [by etrans|congruence|]. rewrite D1 in Hr2.
  injection Hr2 as <-. destruct (context_messages th (w_db w)); by simplify_eq/=.
Qed.

Lemma owner_alone input w :
  runs (resolveOwner input) w (fun r w' => passed w w' /\ w_db w' = w_db w /\
    match r with inr owner => owner = owner_of input (w_db w) | inl e => statement_error w w' e end).
Proof.
  assert (forall k : option string * option string -> option string * option string,
    runs (stored ← getThreadCheckpointOwner (ci_threadId input); mret (k stored)) w
      (fun r w' => passed w w' /\ w_db w' = w_db w /\
         match r with
         | inr owner => owner = k (threads (cx_tables (w_db w)) !! ci_threadId input ≫= th_createdByUserId,
                                   threads (cx_tables (w_db w)) !! ci_threadId input ≫= th_tenantId)
         | inl e => statement_error w w' e
         end)) as Hread.
  { intros k. apply runs_bind. eapply runs_impl; [apply select_alone|].
    intros [e|a] w' (Hp & Hd & Hr); [by destruct Hr as [|[? ?]]|].
    injection Hr as <-. done. }
  unfold resolveOwner, owner_of.
  destruct (ci_ownerUserId input) as [[o|]|], (ci_tenantId input) as [[t|]|];
    first [exact (Hread _) | by unfold runs; cbn].
Qed.

(** How a compaction ends: completed, failed, or not begun because the end of the
    thread could not be read. *)
Lemma compact_alone config catalog input w b :
  boundary_of (ci_threadId input) (w_db w) = Ok b ->
  let owner := owner_of input (w_db w) in
  runs (compact config catalog input) w (fun r w' =>
    match r with
    | inr res => compacted input owner b res w w'
    | inl out =>
        not_compacted input owner b MAX_COMPACTION_RETRIES out w w'
        \/ (w_db w' = w_db w /\ w_requests w' = w_requests w /\ statement_error w w' out)
    end).
Proof.
  intros Hb owner. unfold compact. apply runs_bind. eapply runs_impl; [apply owner_alone|].
  intros [e|owner'] w1 ([A1 R1] & D1 & Hr1); [by right|]. fold owner in Hr1. subst owner'.
  apply runs_bind. eapply runs_impl; [apply boundary_alone|]. rewrite D1, Hb.
  intros [e|b'] w2 ([A2 R2] & D2 & Hr2).
  { right. split_and!; [done|congruence|]. destruct Hr2 as [Hf|[? ?]]; [|done].
    eapply statement_error_mono; [| |exact Hf]; lia. }
  injection Hr2 as <-. cbn zeta. eapply runs_impl; [apply attempts_alone|].
  assert (w_requests w2 = w_requests w) as R by congruence.
  assert (forall w' e, statement_error w2 w' e -> statement_error w w' e) as Hs
    by (intros w' e; apply statement_error_mono; lia).
  intros [out|res] w' [A' Hr].
  - left. destruct Hr as (cs & fs & marks & e & E & Hc & He & ? & ? & Hout). rewrite R in Hc, He.
    exists cs, fs, marks, e. split_and!; auto; [by rewrite E, D2|..].
    + destruct He as [|He]; auto.
    + destruct Hout as [|Hout]; auto.
  - destruct Hr as (Hc & Hh & m & ? & E'). rewrite R in Hc. split; [done|]. split; [done|].
    exists m. split; [done|]. by rewrite E', D2.
Qed.
End alone.

(** ** The requests of a compaction *)

Lemma chain_trims mk ms qs :
  (forall l, rq_messages (mk l) = l) -> chain mk ms qs -> Forall (fun q => trims ms (rq_messages q)) qs.
Proof.
  intros Hmk. induction 1 as [ms|ms ms' qs Ht _ IH].
  - apply Forall_singleton. by rewrite Hmk.
  - constructor; [by rewrite Hmk|]. eapply Forall_impl; [exact IH|]. intros q Hq. by eapply rtc_l.
Qed.

Lemma compact_asks config catalog input w :
  runs (compact config catalog input) w (fun _ w' => exists qs,
    w_requests w' = w_requests w ++ qs /\ (length qs <= S MAX_COMPACTION_RETRIES)%nat
    /\ Forall (fun q => trims (trimCompactionRequestToEstimatedBudget
          (buildCompactionMessages (ci_conversation input))
          (bu_effectiveInputBudgetTokens (resolveContextBudget config catalog (ci_model input)
             (ci_providerModel input) CompactionSummaryRequest))) (rq_messages q)) qs).
Proof.
  unfold compact. apply runs_bind. eapply runs_impl; [apply asks_owner|]. intros [e|owner] w1 E1.
  { exists []. rewrite app_nil_r. split_and!; [done|cbn; lia|done]. }
  apply runs_bind. eapply runs_impl; [apply asks_boundary|]. intros [e|b] w2 E2.
  { exists []. rewrite app_nil_r. split_and!; [congruence|cbn; lia|done]. }
  cbn zeta. eapply runs_impl; [apply attempts_asks|]. intros r w' (qs & E & Hl & Hc).
  exists qs. split_and!; [congruence|done|]. by eapply chain_trims in Hc.
Qed.
End runs.
