(* ===== verification/ContextClaims.v ===== *)
(** What a compaction and the budget of a context promise: the requests that are sent,
    what is left in the database, the replacement history, the meter. *)
From Stdlib Require Import ZArith QArith Qround Lia Sorted.
From stdpp Require Import base tactics strings gmap sorting option relations pretty.
From stdpp Require Import list.
From S2P Require Import Prelude JsRuntime Json JsText Canonical ContextBudget ContextAccounting Invocation ContextStore ProviderLedger Compactor ContextProps CompactorProps CompactorRuns WireCodec InvocationClaims.
Open Scope Z_scope.

(** ** Requests *)

Lemma sublist_cost `{NumberText} a b :
  a `sublist_of` b ->
  zsum (message_cost <$> a) <= zsum (message_cost <$> b) /\ zlen (image_ids a) <= zlen (image_ids b).
Proof.
  unfold image_ids. induction 1 as [|m a b _ [IH1 IH2]|m a b _ [IH1 IH2]]; [done|..];
    cbn [fmap list_fmap zsum concat]; rewrite ?zlen_app.
  - lia.
  - pose proof (message_cost_pos m). pose proof (zlen_nonneg (message_images m)).
    unfold MESSAGE_TOKEN_OVERHEAD in *. lia.
Qed.

Lemma estimate_sublist `{NumberText} a b :
  a `sublist_of` b -> estimateCanonicalMessagesTokens a <= estimateCanonicalMessagesTokens b.
Proof.
  intros Hs. rewrite !estimate_spec. apply sublist_cost in Hs. unfold IMAGE_TOKEN_ESTIMATE. lia.
Qed.

(** What a window allows is positive. *)
Lemma usable_positive entry input :
  po_usableInputWindowTokens (resolveModelContextPolicy entry) = Some input -> 0 < input.
Proof.
  unfold resolveModelContextPolicy. destruct entry as [e|]; [|done].
  destruct (positiveIntegerOrNull _), (positiveIntegerOrNull _), (nonNegativeIntegerOrNull _); try done.
  cbn zeta. destruct (_ || _) eqn:E; [done|]. cbn. intros [= <-].
  apply orb_false_iff in E as [_ E]. zbool. lia.
Qed.

Lemma summary_budget_positive config catalog model providerModel m :
  bu_effectiveInputBudgetTokens (resolveContextBudget config catalog model providerModel
    CompactionSummaryRequest) = Some m -> 0 < m.
Proof.
  unfold resolveContextBudget, resolveEffectiveInputBudgetTokens. cbn.
  destruct (po_usableInputWindowTokens _) eqn:E; [|done]. intros [= <-]. by eapply usable_positive.
Qed.

Lemma prompt_uses : toolUseIds (user_text COMPACTION_PROMPT) = [].
Proof. done. Qed.
Lemma prompt_results : toolResultIds (user_text COMPACTION_PROMPT) = [].
Proof. done. Qed.

Lemma one_by_one_snoc ms p :
  toolUseIds p = [] -> toolResultIds p = [] -> one_by_one ms -> one_by_one (ms ++ [p]).
Proof.
  intros Hu Hr [H1 H2 H3]. split.
  - apply Forall_app. split; [done|]. apply Forall_singleton. rewrite Hu, Hr. cbn. lia.
  - by rewrite all_uses_app, all_uses_cons, Hu, app_nil_r.
  - by rewrite all_results_app, all_results_cons, Hr, app_nil_r.
Qed.

Lemma answered_snoc ms p :
  toolUseIds p = [] -> toolResultIds p = [] -> answered ms -> answered (ms ++ [p]).
Proof.
  intros Hu Hr Ha pre post E. apply app_eq_inv in E as [(k & -> & ->)|(k & -> & E)].
  - destruct (Ha pre k eq_refl) as [H1 H2]. split; [done|].
    by rewrite all_uses_app, all_results_app, all_uses_cons, all_results_cons, Hu, Hr, !app_nil_r.
  - destruct (Ha ms []) as [H1 _]; [by rewrite app_nil_r|].
    assert (all_uses k = [] /\ all_results k = [] /\ all_uses post = [] /\ all_results post = [])
      as (E1 & E2 & E3 & E4).
    { destruct k as [|x [|y k]]; cbn in E; simplify_eq; unfold all_uses, all_results; cbn;
        by rewrite ?Hu, ?Hr. }
    by rewrite all_uses_app, all_results_app, E1, E2, E3, E4, !app_nil_r.
Qed.

Section requests.
Context `{NumberText} `{InvocationEnv} `{Surroundings}.

(** C7: A compaction asks the provider at most five times.  Each request begins with the
    first message of the conversation, ends with the instruction and keeps between them
    messages of the conversation in their order; where calls and results come one by one and
    answer each other they still do; and the estimate of each request is within the window
    of the model, unless only the first message and the instruction are left.  Nothing is
    assumed of what else happens to the database meanwhile. *)
Theorem compaction_requests config catalog input w first rest :
  ci_conversation input = first :: rest -> toolUseIds first = [] -> toolResultIds first = [] ->
  exists qs, w_requests (compact config catalog input w).2 = w_requests w ++ qs
    /\ (length qs <= 5)%nat
    /\ Forall (fun q =>
         (exists kept, rq_messages q = first :: kept ++ [user_text COMPACTION_PROMPT]
            /\ kept `sublist_of` rest)
         /\ (one_by_one (first :: rest) -> answered (first :: rest) -> answered (rq_messages q))
         /\ (forall budget, bu_effectiveInputBudgetTokens (resolveContextBudget config catalog
                (ci_model input) (ci_providerModel input) CompactionSummaryRequest) = Some budget ->
              estimateCanonicalMessagesTokens (rq_messages q) <= budget
              \/ rq_messages q = [first; user_text COMPACTION_PROMPT])) qs.
Proof.
  intros Hc Hu Hr. destruct (compact_asks config catalog input w) as (qs & E & Hl & Hq).
  exists qs. split; [done|]. split; [exact Hl|]. eapply Forall_impl; [exact Hq|]. clear E Hl Hq. cbn beta.
  unfold buildCompactionMessages. rewrite Hc. intros q Ht.
  set (budget := bu_effectiveInputBudgetTokens _) in *.
  destruct (trim_budget_spec ((first :: rest) ++ [user_text COMPACTION_PROMPT]) budget) as [Hb Hfit].
  { intros m Hm. apply Z.lt_le_incl. by eapply summary_budget_positive. }
  cbn zeta in Hb, Hfit. assert (trims (first :: rest ++ [user_text COMPACTION_PROMPT]) (rq_messages q))
    as Hall by (by etrans).
  destruct (trims_ends _ _ _ _ Hu prompt_results Hall) as (kept & Ek & Hs).
  split; [by exists kept|]. split.
  - intros Ho Ha. apply (trims_answered first rest (user_text COMPACTION_PROMPT)); try done.
    + by apply (one_by_one_snoc (first :: rest)).
    + by apply (answered_snoc (first :: rest)).
  - intros m Hm. apply trims_sublist in Ht. destruct (Hfit m Hm) as [Hf|Hf].
    + by eapply summary_budget_positive.
    + left. etrans; [by apply estimate_sublist|done].
    + right. pose proof (Nat.le_trans _ _ _ (sublist_length _ _ Ht) Hf) as Hl. clear - Ek Hl.
      rewrite Ek in Hl |- *. destruct kept as [|x kept]; [done|]. cbn in Hl.
      rewrite length_app in Hl. cbn in Hl. lia.
Qed.
End requests.

(** ** What is left *)

Section outcome.
Context `{NumberText} `{InvocationEnv} `{Surroundings}.

End outcome.

(** ** The replacement history *)

Lemma includes_app p a b : includes p a = true -> includes p (a +:+ b) = true.
Proof.
  assert (forall q t, starts_with q t = true -> starts_with q (t +:+ b) = true) as Hp.
  { intros q. induction q as [|c q IH]; intros t; [by destruct t, b|].
    destruct t as [|d t]; [done|]. unfold starts_with in *. rewrite str_app_cons. cbn.
    destruct (Ascii.ascii_dec c d); [apply IH|done]. }
  induction a as [|c a IH]; intros Ha.
  - cbn in Ha. rewrite orb_false_r in Ha. destruct p; [|done]. by destruct b.
  - rewrite str_app_cons. cbn [includes] in *. apply orb_true_iff in Ha as [Ha|Ha]; apply orb_true_iff.
    + left. rewrite <-str_app_cons. by apply Hp.
    + right. by apply IH.
Qed.

Section history.
Context `{NumberText}.

Notation own_estimate m := (estimateCanonicalMessagesTokens [m]).

(** A summary is never taken for a message of the user. *)
Lemma summary_not_real text : isRealUserTextMessage (user_text (CHECKPOINT_SUMMARY_PREFIX +:+ text)) = false.
Proof.
  unfold isRealUserTextMessage. cbn [user_text cm_role cm_content normalizeContent forallb block_result_id].
  rewrite bool_decide_false by by intros []. cbn [andb].
  assert (collectText [TextBlock (CHECKPOINT_SUMMARY_PREFIX +:+ text) None]
    = CHECKPOINT_SUMMARY_PREFIX +:+ text) as -> by done.
  rewrite includes_app; [by rewrite andb_false_r|]. vm_compute. reflexivity.
Qed.

(** C11: The replacement history is the summary, then the newest messages of the user that
    together fit the budget, in their order, and before them the end of the next older one
    unless at most 16 tokens are left, then the terminal context; the kept messages take at
    most 12 tokens more than the budget, and the summary is not taken for a message of the
    user when the history is compacted again. *)
Theorem replacement_history_spec conversation summary terminal :
  exists old cut kept,
    List.filter isRealUserTextMessage conversation = old ++ kept
    /\ buildReplacementHistory conversation summary terminal
       = [user_text (CHECKPOINT_SUMMARY_PREFIX +:+ lines [""; ""; trim summary])] ++ cut ++ kept
         ++ match terminal with
            | Some t => if str_truthy (trim t)
                        then [user_text (COMPACTION_TERMINAL_CONTEXT_PREFIX +:+ lines [""; trim t])] else []
            | None => []
            end
    /\ (let room := RECENT_USER_MESSAGE_TOKEN_BUDGET - zsum ((fun m => own_estimate m) <$> kept) in
        0 <= room
        /\ match last old with
           | None => cut = []
           | Some m => room < own_estimate m
               /\ (cut = [] /\ room <= 16
                   \/ 16 < room
                      /\ cut = [user_text (js_slice_end ((room - 16) * 4)
                                             (collectText (normalizeContent (cm_content m)))
                                           +:+ TRUNCATION_MARKER)])
           end)
    /\ estimateCanonicalMessagesTokens (cut ++ kept) <= RECENT_USER_MESSAGE_TOKEN_BUDGET + 12
    /\ List.filter isRealUserTextMessage
         [user_text (CHECKPOINT_SUMMARY_PREFIX +:+ lines [""; ""; trim summary])] = [].
Proof.
  pose proof (recent_spec conversation) as Hr.
  assert (estimateCanonicalMessagesTokens (collectRecentUserMessages conversation)
    <= RECENT_USER_MESSAGE_TOKEN_BUDGET + 12) as Hb by by eapply recent_estimate.
  destruct Hr as (old & kept & E & Hk & Hc). exists old.
  assert (List.filter isRealUserTextMessage
    [user_text (CHECKPOINT_SUMMARY_PREFIX +:+ lines [""; ""; trim summary])] = []) as Hs
    by (cbn [List.filter]; by rewrite summary_not_real).
  destruct (last old) as [m|] eqn:El.
  - destruct Hc as [Hm Hc]. exists (option_list (truncateUserMessageToBudget m
      (RECENT_USER_MESSAGE_TOKEN_BUDGET - zsum ((fun m => own_estimate m) <$> kept)))), kept.
    unfold buildReplacementHistory. rewrite Hc in Hb |- *. rewrite <-(assoc_L (++)).
    split_and!; try done; [lia|]. unfold truncateUserMessageToBudget. case_match; [left; by zbool|].
    zbool. right. split; [lia|]. assert (estimateTextTokens TRUNCATION_MARKER = 16) as -> by by vm_compute.
    rewrite Z.max_r by lia. by rewrite (proj2 (Z.leb_gt _ _)) by lia.
  - exists [], kept. unfold buildReplacementHistory. rewrite Hc in Hb |- *. by split_and!; try lia.
Qed.
End history.

(** ** The budget *)

Section budget.
Context `{NumberText} `{Sha256}.

Lemma blocks_no_schemas (kind : ContextBreakdownKind) bs b :
  kind <> ToolSchemas ->
  foldl (fun breakdown b => bump (blockBreakdownKind b kind) (CONTENT_BLOCK_TOKEN_OVERHEAD + estimateBlockTokens b)
    breakdown) b bs ToolSchemas = b ToolSchemas.
Proof.
  intros Hk. revert b. induction bs as [|x bs IH]; intros b; [done|]. cbn [foldl]. rewrite IH.
  unfold bump. rewrite decide_False; [done|]. by destruct x.
Qed.

Lemma breakdown_no_schemas ms : estimateCanonicalMessagesBreakdown ms ToolSchemas = 0.
Proof.
  unfold estimateCanonicalMessagesBreakdown. set (st := (_, _)).
  assert (st.1 ToolSchemas = 0) as Hst by done. clearbody st. revert st Hst.
  induction ms as [|m ms IH]; intros [b seen] Hb; [done|]. cbn [foldl]. apply IH.
  unfold breakdown_message. cbn [fst].
  assert (messageBreakdownKind seen m <> ToolSchemas) as Hk
    by (unfold messageBreakdownKind; repeat case_match; done).
  destruct (cm_content m) as [t|bs]; rewrite ?blocks_no_schemas by done; unfold bump;
    repeat rewrite decide_False by congruence; exact Hb.
Qed.

Lemma estimate_total ms :
  estimateCanonicalMessagesTokens ms
  = foldl (fun total kind => total + estimateCanonicalMessagesBreakdown ms kind) 0 CONTEXT_BREAKDOWN_KINDS.
Proof. reflexivity. Qed.

Lemma breakdown_split ms schemas :
  zsum ((fun kind => if decide (kind = ToolSchemas) then schemas
                     else estimateCanonicalMessagesBreakdown ms kind) <$> CONTEXT_BREAKDOWN_KINDS)
  = estimateCanonicalMessagesTokens ms + schemas.
Proof.
  unfold estimateCanonicalMessagesTokens. rewrite foldl_zsum. unfold CONTEXT_BREAKDOWN_KINDS.
  cbn [fmap list_fmap zsum]. rewrite breakdown_no_schemas. repeat (case_decide; try done). lia.
Qed.

Lemma ratio_bounds v : (0 < normalizeAutoCompactionRatio v <= 9 # 10)%Q.
Proof.
  unfold normalizeAutoCompactionRatio, DEFAULT_AUTO_COMPACTION_RATIO.
  destruct v as [|neg|q]; try (split; [reflexivity|discriminate]).
  destruct (Qle_bool q 0) eqn:E0; [split; [reflexivity|discriminate]|].
  destruct (Qle_bool q (9 # 10)) eqn:E9; [|split; [reflexivity|discriminate]]. split.
  - apply Qnot_le_lt. intros Hq%Qle_bool_iff. congruence.
  - by apply Qle_bool_iff.
Qed.

Lemma threshold_bounds v input :
  0 < input -> 0 <= Qfloor (inject_Z input * normalizeAutoCompactionRatio v) < input.
Proof.
  intros Hi. destruct (ratio_bounds v) as [H1 H2]. set (ratio := normalizeAutoCompactionRatio v) in *.
  assert (0 < inject_Z input)%Q as Hq by (by rewrite <-(Zlt_Qlt 0)).
  split.
  - change 0 with (Qfloor (inject_Z 0)). apply Qfloor_resp_le.
    apply Qlt_le_weak. by apply Qmult_lt_0_compat.
  - rewrite Zlt_Qlt. eapply Qle_lt_trans; [apply Qfloor_le|].
    eapply Qle_lt_trans; [apply Qmult_le_l; [done|exact H2]|].
    rewrite <-(Qmult_1_r (inject_Z input)) at 2. apply Qmult_lt_l; [done|reflexivity].
Qed.

(** The windows of a policy that is valid. *)
Lemma policy_bounds entry input :
  po_usableInputWindowTokens (resolveModelContextPolicy entry) = Some input ->
  exists window usable reserved,
    po_contextWindowTokens (resolveModelContextPolicy entry) = Some window
    /\ po_usableContextWindowTokens (resolveModelContextPolicy entry) = Some usable
    /\ po_reservedOutputTokens (resolveModelContextPolicy entry) = Some reserved
    /\ 0 < input <= usable /\ 0 <= reserved /\ input + reserved <= window.
Proof.
  unfold resolveModelContextPolicy. destruct entry as [e|]; [|done]. cbn zeta.
  destruct (positiveIntegerOrNull (contextWindowTokens _)) as [w|] eqn:Ew; [|done].
  destruct (positiveIntegerOrNull (_ ?? _)) as [u|]; [|done].
  destruct (nonNegativeIntegerOrNull _) as [r|] eqn:Er; [|done].
  assert (0 <= r) as Hr.
  { unfold nonNegativeIntegerOrNull in Er. destruct (_ ?? _) as [| |q]; try done.
    destruct (Qle_bool 0 q) eqn:Eq; [|done]. injection Er as <-. apply Qle_bool_iff in Eq.
    change 0 with (Qfloor (inject_Z 0)). by apply Qfloor_resp_le. }
  destruct (_ || _) eqn:E; [done|]. cbn. intros [= <-]. apply orb_false_iff in E as [E1 E2]. zbool.
  exists w, u, r. split_and!; try done; lia.
Qed.

(** Every model of the catalog has a valid policy. *)
Lemma catalog_valid e :
  e ∈ MODEL_CATALOG ->
  exists e', catalog_by ce_id (ce_id e) = Some e'
    /\ is_Some (po_usableInputWindowTokens (resolveModelContextPolicy (Some e'))).
Proof.
  intros He. assert (forallb (fun e => match catalog_by ce_id (ce_id e) with
     | Some e' => bool_decide (is_Some (po_usableInputWindowTokens (resolveModelContextPolicy (Some e'))))
     | None => false end) MODEL_CATALOG = true) as Hall by by vm_compute.
  rewrite forallb_forall in Hall. specialize (Hall e (proj1 (list_elem_of_In _ _) He)).
  destruct (catalog_by ce_id (ce_id e)) as [e'|]; [|done]. exists e'. split; [done|].
  by apply bool_decide_eq_true in Hall.
Qed.

(** C12: Whatever the model, the configuration and the conversation, the budget of a turn is
    ordered: the threshold is below the usable input, which is positive, at most the usable
    window and leaves the reserved output free; compaction is decided exactly at the
    threshold, and a request that is not compacted fits, with its output, into the window.
    The breakdown adds up.  Every model of the catalog has a budget; without one nothing is
    compacted. *)
Theorem context_decision_bounds config catalog model providerModel args conversation anchor
    identity toolTokens :
  let budget := resolveContextBudget config catalog model providerModel AgentTurn in
  let decision := buildContextBudgetDecision args budget conversation anchor identity toolTokens in
  match de_snapshot decision with
  | Available b =>
      0 < usable_input_window_tokens b <= usable_context_window_tokens b
      /\ 0 <= reserved_output_tokens b
      /\ usable_input_window_tokens b + reserved_output_tokens b <= context_window_tokens b
      /\ 0 <= compaction_threshold_tokens b < usable_input_window_tokens b
      /\ effective_budget_tokens b
         = (if compaction_enabled b then compaction_threshold_tokens b else usable_input_window_tokens b)
      /\ de_estimatedTokens decision = estimated_input_tokens b
      /\ de_shouldCompact decision
         = compaction_enabled b && (compaction_threshold_tokens b <=? estimated_input_tokens b)
      /\ (compaction_enabled b = true -> de_shouldCompact decision = false ->
          estimated_input_tokens b + reserved_output_tokens b < context_window_tokens b
          /\ remaining_context_tokens b = effective_budget_tokens b - estimated_input_tokens b
          /\ 0 < remaining_context_tokens b)
      /\ zsum (be_tokens <$> ab_breakdown b) = message_estimated_tokens b + tool_schema_tokens b
      /\ message_estimated_tokens b = estimateCanonicalMessagesTokens conversation
  | Unknown _ _ _ _ =>
      de_shouldCompact decision = false
      /\ de_estimatedTokens decision
         = estimateCanonicalMessagesTokens conversation + floor_nonneg toolTokens
      /\ model ∉ ce_id <$> MODEL_CATALOG
  end.
Proof.
  cbn zeta. set (budget := resolveContextBudget _ _ _ _ _).
  set (entry := match getCatalogEntry catalog model with
                | Some e => Some e | None => getCatalogEntry catalog providerModel end).
  assert (model ∈ ce_id <$> MODEL_CATALOG -> is_Some (bu_usableInputWindowTokens budget)) as Hcat.
  { intros (e & -> & He)%list_elem_of_fmap. destruct (catalog_valid e He) as (e' & E & Hs).
    subst budget entry. unfold resolveContextBudget, getCatalogEntry. rewrite E. exact Hs. }
  destruct (po_usableInputWindowTokens (resolveModelContextPolicy entry)) as [input|] eqn:Ei.
  - destruct (policy_bounds entry input Ei) as (window & usable & reserved & Ew & Eu & Er & ? & ? & ?).
    set (threshold := Qfloor (inject_Z input * normalizeAutoCompactionRatio (agentAutoCompactionRatio config))).
    pose proof (threshold_bounds (agentAutoCompactionRatio config) input ltac:(lia)) as Ht.
    fold threshold in Ht.
    assert (budget = mkBudget (agentAutoCompactionEnabled config) AgentTurn (Some window) (Some usable)
      (Some reserved) (Some input) (normalizeAutoCompactionRatio (agentAutoCompactionRatio config))
      (Some threshold) (Some (if agentAutoCompactionEnabled config then threshold else input))
      (po_invalidReason (resolveModelContextPolicy entry))) as ->.
    { subst budget. unfold resolveContextBudget. fold entry. rewrite Ew, Eu, Er, Ei. cbn.
      by destruct (agentAutoCompactionEnabled config). }
    unfold buildContextBudgetDecision, buildContextBudgetStateFromConversation.
    cbn [bu_enabled bu_contextWindowTokens bu_usableContextWindowTokens bu_reservedOutputTokens
      bu_usableInputWindowTokens bu_thresholdTokens bu_effectiveInputBudgetTokens bu_thresholdRatio].
    cbv zeta. rewrite <-estimate_total.
    pose proof (estimate_nonneg conversation) as Hn. pose proof (breakdown_split conversation) as Hs.
    cbn beta iota zeta. set (acct := resolveContextAccounting _ _ _ _).
    unfold shouldCompactContext.
    cbn [de_snapshot de_shouldCompact de_estimatedTokens usable_input_window_tokens
      usable_context_window_tokens reserved_output_tokens context_window_tokens
      compaction_threshold_tokens effective_budget_tokens compaction_enabled estimated_input_tokens
      remaining_context_tokens ab_breakdown message_estimated_tokens tool_schema_tokens
      bu_enabled bu_thresholdTokens].
    rewrite (Z.max_r 0 (estimateCanonicalMessagesTokens conversation)) by done. split_and!; try done; try lia.
    + intros -> Hd. cbn [andb] in Hd. zbool. split_and!; lia.
    + rewrite <-list_fmap_compose. apply Hs.
  - assert (bu_usableInputWindowTokens budget = None) as Hi by exact Ei.
    assert (exists reason common, buildContextBudgetStateFromConversation args budget conversation anchor
      identity toolTokens = Unknown (sc_model args) (sc_provider args) reason common) as (reason & common & E).
    { unfold buildContextBudgetStateFromConversation. cbn zeta. rewrite Hi.
      repeat case_match; try done; by do 2 eexists. }
    unfold buildContextBudgetDecision. rewrite E. cbn [de_snapshot de_shouldCompact de_estimatedTokens].
    split_and!; [done..|]. intros Hm. apply Hcat in Hm. rewrite Hi in Hm. by destruct Hm.
Qed.
End budget.

(** ** A small thread *)

#[local] Instance plain_numbers : NumberText := WireExample.integers.

(** The provider refuses the first request, and summarises the second. *)
#[local] Instance calm : Surroundings := {|
  interfere := fun _ d => d;
  statement_fault := fun _ => None;
  clock_us := fun n => 5000000 + 1000 * Z.of_nat n;
  context_ulid := fun n => "ulid-" +:+ pretty n;
  random_uuid := fun n => "uuid-" +:+ pretty n;
  message_client_id := fun n => "client-" +:+ pretty n;
  provider_answer := fun n _ =>
    match n with
    | O => SyncAnswer (inl (ContextWindowError "ds4" "deepseek-v4-flash" "too long" None))
    | _ => StreamAnswer [EvMessageStart "m"; EvTextDelta 0 "Two files "; EvTextDelta 0 "were read."] None
    end;
  jsonb_accepts := fun _ => true
|}.

Definition says (th role content : string) (at_ : Z) : MessageRow :=
  mkMessage ("client-of-" +:+ content) th role None content [] None (Some "ann") at_.
Definition small_db : context_db :=
  mkContextDb ∅ (set_messages {["m1" := says "t1" "user" "Read a and b." 1000700;
                                "m2" := says "t1" "assistant" "Done." 2000300]} demo_tables)
    ∅ ∅ ∅.
Definition small_ctx : ctx := mkCtx small_db 0 0 [].

Definition asks_for (text : string) : CanonicalMessage := createCanonicalTextMessage User text None.
Definition small_conversation : list CanonicalMessage :=
  [createCanonicalTextMessage System "You are Bud." None; asks_for "Read a and b.";
   mkCanonical Assistant (inr [ToolUseBlock "u1" "terminal_send" (JObj [("text", JStr "cat a b")])]);
   mkCanonical User (inr [ToolResultBlock "u1" (inl "one two") None]);
   createCanonicalTextMessage Assistant "Done." (Some FinalAnswer)].

Definition small_config : ContextConfig := mkContextConfig true (JFin (1 # 2)) 32000.
Definition small_input : CompactContextInput :=
  mkCompactInput "t1" "bud" "turn-1" "pre_turn" "auto" "context_limit" "ds4-deepseek-v4-flash" "ds4"
    "deepseek-v4-flash" (mkReasoningConfig false None None None) "none" small_conversation []
    (Some 90000) (Some (Some "ann")) None (Some "cwd: /home").

(** The run: the second request leaves out the first question. *)
Example small_run :
  match compact small_config [] small_input small_ctx with
  | (inr res, w') =>
      ((fun q => length (rq_messages q)) <$> w_requests w', (co_checkpoint res).1, size (messages (cx_tables (w_db w'))))
      = ([6; 5]%nat, "ulid-0", 3%nat)
  | _ => False
  end.
Proof. vm_compute. reflexivity. Qed.

(** Two calls of one message: trimming takes the message and its first result, the
    second result stays without its call. *)
Definition two_calls : list CanonicalMessage :=
  [createCanonicalTextMessage System "You are Bud." None;
   mkCanonical Assistant (inr [ToolUseBlock "a" "web_search" (JObj []); ToolUseBlock "b" "web_read" (JObj [])]);
   mkCanonical User (inr [ToolResultBlock "a" (inl "1") None]);
   mkCanonical User (inr [ToolResultBlock "b" (inl "2") None])].
Example two_calls_trimmed :
  answered two_calls /\
  (all_uses <$> trimCompactionRequest (buildCompactionMessages two_calls),
   all_results <$> trimCompactionRequest (buildCompactionMessages two_calls)) = (Some [], Some ["b"]).
Proof.
  split; [|by vm_compute]. intros pre post E.
  do 4 (destruct pre as [|? pre]; [cbn in E; subst; vm_compute; set_solver|injection E as <- E]).
  by destruct pre, post; vm_compute.
Qed.

(** The terminal context that a compaction wrote is a message of the user for the next one. *)
Example terminal_context_real :
  isRealUserTextMessage (user_text (COMPACTION_TERMINAL_CONTEXT_PREFIX +:+ lines [""; "cwd: /home"])) = true.
Proof. vm_compute. reflexivity. Qed.

(** A message cut to a budget of twenty tokens takes thirty-two. *)
Example cut_message_cost :
  (fun m => estimateCanonicalMessagesTokens [m]) <$>
    truncateUserMessageToBudget (asks_for "A question that is longer than the budget allows.") 20 = Some 32.
Proof. vm_compute. reflexivity. Qed.

Lemma compaction_requests_witness :
  toolUseIds (createCanonicalTextMessage System "You are Bud." None) = []
  /\ exists qs, w_requests (compact small_config [] small_input small_ctx).2 = [] ++ qs
       /\ length qs = 2%nat.
Proof.
  split; [done|].
  destruct (compaction_requests small_config [] small_input small_ctx
    (createCanonicalTextMessage System "You are Bud." None) (drop 1 small_conversation)
    eq_refl eq_refl eq_refl) as (qs & E & _). exists qs. split; [exact E|].
  enough (length (w_requests (compact small_config [] small_input small_ctx).2) = 2%nat) as Hl
    by (rewrite E in Hl; exact Hl).
  by vm_compute.
Defined.


(** A provider that finds every request too long is asked until nothing is left to trim or five
    times, and the row that is left says so. *)
Definition stubborn : Surroundings := {|
  interfere := fun _ d => d;
  statement_fault := fun _ => None;
  clock_us := fun n => 5000000 + 1000 * Z.of_nat n;
  context_ulid := fun n => "ulid-" +:+ pretty n;
  random_uuid := fun n => "uuid-" +:+ pretty n;
  message_client_id := fun n => "client-" +:+ pretty n;
  provider_answer := fun _ _ => NoProvider (ContextWindowError "ds4" "deepseek-v4-flash" "too long" None);
  jsonb_accepts := fun _ => true
|}.
Example stubborn_run :
  match @compact plain_numbers demo_env stubborn small_config [] small_input small_ctx with
  | (inl out, w') =>
      (out, length (w_requests w'), (fun x => ck_error x.2) <$> map_to_list (cx_checkpoints (w_db w')))
      = (JsError "Error" CONTEXT_COMPACTION_FAILED, 4%nat,
         [Some [("name", JStr "ProviderContextWindowError"); ("message", JStr "too long");
                ("retryable", JBool true); ("code", JStr "CONTEXT_WINDOW"); ("provider", JStr "ds4");
                ("model", JStr "deepseek-v4-flash")]])
  | _ => False
  end.
Proof. vm_compute. reflexivity. Qed.
