(* ===== verification/AccountingClaims.v ===== *)
(** What the provider measured of a request is reused exactly for a conversation that
    begins with that request: the baseline that is stored with a call, read back. *)
From Stdlib Require Import ZArith QArith Lia.
From stdpp Require Import base tactics strings gmap sorting option.
From stdpp Require Import list.
From S2P Require Import Prelude JsRuntime Json JsText Canonical ContextBudget ContextAccounting Invocation ContextStore ProviderLedger ContextProps WireCodec.
Open Scope Z_scope.

(** ** Digests *)

Section digests.
Context `{NumberText}.

Lemma sorted_plain v : plain v = true -> plain (sorted_json v) = true.
Proof.
  induction v as [| |b|n|s|l Hl|fs Hfs] using jsval_nested_ind; intros Hp; try done; cbn in Hp |- *.
  - rewrite !forallb_forall in *. rewrite Forall_forall in Hl.
    intros x (y & <- & Hy)%in_map_iff. apply Hl; [by apply list_elem_of_In|by apply Hp].
  - apply andb_true_iff in Hp as [Hnd Hp]. apply bool_decide_eq_true in Hnd.
    set (fs' := List.map _ fs).
    assert (merge_sort key_before fs' ≡ₚ fs') as Hperm by apply merge_sort_Permutation.
    assert (fs'.*1 = fs.*1) as Hkeys.
    { subst fs'. clear. induction fs as [|[k v] fs IH]; [done|]. cbn. by f_equal. }
    apply andb_true_iff. split.
    + apply bool_decide_eq_true. rewrite Hperm. by rewrite Hkeys.
    + rewrite forallb_forall in *. intros kv Hkv.
      assert (kv ∈ fs') as Hin by (rewrite <-Hperm; by apply list_elem_of_In).
      apply list_elem_of_In, in_map_iff in Hin as ([k v] & <- & Hin). specialize (Hp _ Hin).
      cbn in Hp |- *. apply andb_true_iff in Hp as [Hk Hv]. rewrite Hk. cbn.
      rewrite Forall_forall in Hfs. apply (Hfs (k, v)); [by apply list_elem_of_In|done].
Qed.

Lemma stringify_inj a b : plain a = true -> plain b = true -> JSON_stringify a = JSON_stringify b -> a = b.
Proof. intros Ha%parse_stringify Hb%parse_stringify E. rewrite E in Ha. congruence. Qed.

(** A record that is stored as JSON comes back as it was. *)
Lemma jsonRecord_plain fs : plain (JObj fs) = true -> jsonRecord (JObj fs) = fs.
Proof. intros Hp. unfold jsonRecord, json_clone. by rewrite parse_stringify. Qed.

Lemma last_member (fs : list (string * jsval)) k v :
  plain (JObj (fs ++ [(k, v)])) = true -> field_lookup k (fs ++ [(k, v)]) = v.
Proof.
  cbn. intros [Hnd _]%andb_true_iff. apply bool_decide_eq_true in Hnd. rewrite fmap_app in Hnd.
  apply NoDup_app in Hnd as (_ & Hk & _). unfold field_lookup.
  induction fs as [|[k' v'] fs IH]; cbn; [by rewrite decide_True|].
  rewrite decide_False; [|intros ->; apply (Hk k'); set_solver]. apply IH. intros x Hx. apply Hk. set_solver.
Qed.

Lemma take_plain ms n : plain (messages_json ms) = true -> plain (messages_json (take n ms)) = true.
Proof.
  cbn. rewrite !forallb_forall. intros Hp x Hx. apply Hp. rewrite fmap_take in Hx.
  apply list_elem_of_In. apply list_elem_of_In in Hx. by eapply subseteq_take.
Qed.
End digests.

(** ** Anchors *)

Section anchors.
Context `{NumberText} `{Sha256}.

(** The anchor of a call that was recorded with the baseline of its request, its
    metadata and its usage. *)
Definition recorded_anchor (callId : string) (metadata usage : jsonb)
    (measured : list CanonicalMessage) (identity : ContextRequestIdentity) : ContextUsageAnchor :=
  mkAnchor callId
    (prop "context_baseline" (JObj (jsonRecord (JObj (metadata ++
       member "context_baseline" baseline_json (Some (captureContextBaseline measured identity)))))))
    (JObj (jsonRecord (JObj usage))).

(** The hash tells the texts of these values apart. *)
Definition told_apart (vs : list jsval) : Prop :=
  forall a b, a ∈ vs -> b ∈ vs -> digest a = digest b ->
    JSON_stringify (sorted_json a) = JSON_stringify (sorted_json b).

Lemma digest_inj vs a b :
  told_apart vs -> a ∈ vs -> b ∈ vs ->
  plain a = true -> plain b = true -> digest a = digest b -> sorted_json a = sorted_json b.
Proof. intros Hvs Ha Hb Pa Pb E. apply stringify_inj; [by apply sorted_plain..|by apply Hvs]. Qed.

Lemma safe_integer_num z : safe_integer (num z) = if Z.abs z <=? MAX_SAFE_INTEGER then Some z else None.
Proof. unfold safe_integer, num. by rewrite as_integer_Z. Qed.

(** When the stored baseline is accepted. *)
Lemma anchored_captured measured identity conversation identity' :
  zlen measured <= MAX_SAFE_INTEGER ->
  anchored_count conversation identity' (baseline_json (captureContextBaseline measured identity))
  = if zlen conversation <? zlen measured then inl "invalid_baseline"
    else if negb (bool_decide (digest (identity_json identity) = digest (identity_json identity')))
    then inl "request_changed"
    else if negb (bool_decide (digest (messages_json measured)
                    = digest (messages_json (take (length measured) conversation))))
    then inl "prefix_changed"
    else if negb (bool_decide (digest (JArr (JStr <$> hydratedImageIds measured (length measured)))
                    = digest (JArr (JStr <$> hydratedImageIds conversation (length measured)))))
    then inl "image_hydration" else inr (length measured).
Proof.
  intros Hm. pose proof (zlen_nonneg measured). unfold anchored_count, captureContextBaseline.
  cbn [baseline_json ba_identity ba_prefix_hash ba_message_count ba_image_ids].
  change (prop "message_count" _) with (num (zlen measured)).
  rewrite safe_integer_num, (proj2 (Z.leb_le _ _)) by lia.
  change (prop "version" _) with (num 1). rewrite (safe_integer_num 1).
  rewrite (proj2 (Z.ltb_ge _ _)) by lia.
  assert (Z.to_nat (zlen measured) = length measured) as -> by (unfold zlen; lia).
  assert (forall s t, bool_decide (Some s = Some t) = bool_decide (s = t :> string)) as Hd
    by (intros s t; apply bool_decide_ext; naive_solver).
  change (as_string (prop "identity" _)) with (Some (digest (identity_json identity))).
  change (as_string (prop "prefix_hash" _)) with (Some (digest (messages_json measured))).
  change (prop "image_ids" _) with (JArr (JStr <$> hydratedImageIds measured (length measured))).
  rewrite !Hd. cbn [json_truthy baseline_json negb orb].
  rewrite bool_decide_true by done. rewrite bool_decide_true by by eexists. cbn [negb orb].
  rewrite !orb_false_r.
  by destruct (zlen conversation <? zlen measured).
Qed.

(** C13: Where the hash tells the texts it is given apart: what the provider measured of a recorded request is used exactly for conversations
    that begin with that request: when the stored baseline, read back, is accepted, the
    conversation begins with as many messages of the same JSON, the request has the same
    identity, and the count is the measured input and the estimate of the rest.  When it is
    not accepted the fallback is used, and the conversation does not continue the request,
    or the screenshots that go with it changed. *)
Theorem context_accounting_exact callId metadata usage measured identity conversation identity'
    fallback input :
  told_apart [identity_json identity; identity_json identity'; messages_json measured;
              messages_json (take (length measured) conversation)] ->
  plain (JObj (metadata ++ [("context_baseline", baseline_json (captureContextBaseline measured identity))]))
    = true ->
  plain (JObj usage) = true ->
  plain (messages_json measured) = true -> plain (messages_json conversation) = true ->
  plain (identity_json identity) = true -> plain (identity_json identity') = true ->
  zlen measured <= MAX_SAFE_INTEGER ->
  contextInputTokens (id_provider identity') (JObj usage) = Some input ->
  let r := resolveContextAccounting conversation (Some identity')
             (Some (recorded_anchor callId metadata usage measured identity)) fallback in
  match ac_fallbackReason r with
  | None => exists shared rest, conversation = shared ++ rest /\ length shared = length measured
      /\ sorted_json (messages_json shared) = sorted_json (messages_json measured)
      /\ sorted_json (identity_json identity') = sorted_json (identity_json identity)
      /\ ac_tokens r = input + estimateCanonicalMessagesTokens rest
  | Some _ => ac_tokens r = fallback /\ ac_providerUsage r = None
      /\ ~ exists rest, conversation = measured ++ rest /\ identity' = identity
           /\ drop (length (image_ids conversation) - 8) (image_ids measured)
              = drop (length (image_ids measured) - 8) (image_ids measured)
  end.
Proof.
  intros Hta Hp Hu Hm Hc Hi Hi' Hl Hin. unfold resolveContextAccounting, recorded_anchor.
  cbn [an_baseline an_usage member]. rewrite !jsonRecord_plain by done.
  assert (prop "context_baseline" (JObj (metadata
    ++ [("context_baseline", baseline_json (captureContextBaseline measured identity))]))
    = baseline_json (captureContextBaseline measured identity)) as -> by by apply last_member.
  rewrite anchored_captured, Hin by done.
  destruct (zlen conversation <? zlen measured) eqn:E1; zbool.
  { cbn. split_and!; [done..|]. intros (rest & -> & _). rewrite zlen_app in E1.
    pose proof (zlen_nonneg rest). lia. }
  destruct (bool_decide_reflect (digest (identity_json identity) = digest (identity_json identity'))) as [E2|E2].
  2:{ cbn. split_and!; [done..|]. intros (rest & _ & -> & _). done. }
  destruct (bool_decide_reflect (digest (messages_json measured)
    = digest (messages_json (take (length measured) conversation)))) as [E3|E3].
  2:{ cbn. split_and!; [done..|]. intros (rest & -> & _). by rewrite take_app_length in E3. }
  destruct (bool_decide_reflect (digest (JArr (JStr <$> hydratedImageIds measured (length measured)))
    = digest (JArr (JStr <$> hydratedImageIds conversation (length measured))))) as [E4|E4].
  - cbn [negb ac_fallbackReason ac_tokens].
    exists (take (length measured) conversation), (drop (length measured) conversation).
    apply (digest_inj _ _ _ Hta) in E2; [|set_solver..|done|done].
    apply (digest_inj _ _ _ Hta) in E3; [|set_solver..|done|by apply take_plain].
    split_and!; try done; [by rewrite take_drop|]. rewrite length_take. unfold zlen in E1. lia.
  - cbn. split_and!; [done..|]. intros (rest & -> & _ & Hd). apply E4. do 3 f_equal.
    rewrite !hydrated_prefix, take_app_length, take_ge by done. done.
Qed.
End anchors.

(** ** A call that was measured *)

Section measured.
#[local] Instance plain_numbers : NumberText := WireExample.integers.
#[local] Instance same_text : Sha256 := fun s => s.

Definition measured_call : list CanonicalMessage :=
  [createCanonicalTextMessage System "You are Bud." None;
   createCanonicalTextMessage User "Read a." None].
Definition measured_next : list CanonicalMessage :=
  measured_call ++ [createCanonicalTextMessage Assistant "It is empty." (Some FinalAnswer)].
Definition measured_identity : ContextRequestIdentity :=
  mkIdentity "anthropic" "claude-opus-4-7" (mkReasoningConfig false None None None)
    "anthropic_messages" None [].
Definition measured_usage : jsonb :=
  [("input_tokens", num 40); ("cache_read_input_tokens", num 2); ("output_tokens", num 7)].

Lemma context_accounting_exact_witness :
  let r := resolveContextAccounting measured_next (Some measured_identity)
    (Some (recorded_anchor "c1" [("cached", JBool true)] measured_usage measured_call measured_identity)) 999 in
  ac_fallbackReason r = None /\ ac_tokens r = 42 + 15
  /\ exists shared rest, measured_next = shared ++ rest /\ length shared = 2%nat.
Proof.
  assert (told_apart [identity_json measured_identity; identity_json measured_identity;
    messages_json measured_call; messages_json (take (length measured_call) measured_next)]) as Hta
    by (intros a b _ _ e; exact e).
  pose proof (context_accounting_exact "c1" [("cached", JBool true)] measured_usage
    measured_call measured_identity measured_next measured_identity 999 42 Hta
    ltac:(by vm_compute) ltac:(by vm_compute) ltac:(by vm_compute) ltac:(by vm_compute)
    ltac:(by vm_compute) ltac:(by vm_compute) ltac:(by vm_compute) ltac:(by vm_compute)) as Hr.
  cbn zeta in Hr |- *. assert (ac_fallbackReason (resolveContextAccounting measured_next (Some measured_identity)
    (Some (recorded_anchor "c1" [("cached", JBool true)] measured_usage measured_call measured_identity)) 999)
    = None) as E by by vm_compute.
  rewrite E in Hr. destruct Hr as (shared & rest & H1 & H2 & _). split; [done|].
  split; [by vm_compute|]. by exists shared, rest.
Defined.
End measured.
