(* ===== verification/ConversationClaims.v ===== *)
(** What a loaded conversation promises: every call of a tool has a result, and after a
    compaction the conversation goes on from the replacement history. *)
From Stdlib Require Import ZArith QArith Lia Sorted.
From stdpp Require Import base tactics strings gmap sorting option.
From stdpp Require Import list.
From S2P Require Import Prelude JsRuntime Json JsText Canonical ContextBudget ContextAccounting Invocation ContextStore ProviderLedger Conversation Compactor CompactorProps CompactorRuns ContextClaims InvocationClaims.
Open Scope Z_scope.

Notation emitted := (list (CanonicalMessage * MessageSource)).

(** ** Calls and results *)

(** The calls of the assistant. *)
Definition call_ids (ms : list CanonicalMessage) : list string :=
  concat ((fun m => match cm_role m with Assistant => omap block_use_id (blocksOf m) | _ => [] end) <$> ms).

Definition all_answered (ms : list CanonicalMessage) : Prop := call_ids ms ⊆ result_ids ms.

Lemma result_ids_app a b : result_ids (a ++ b) = result_ids a ++ result_ids b.
Proof. unfold result_ids. by rewrite fmap_app, concat_app. Qed.
Lemma call_ids_app a b : call_ids (a ++ b) = call_ids a ++ call_ids b.
Proof. unfold call_ids. by rewrite fmap_app, concat_app. Qed.

Section repair.
Context `{NumberText}.

Lemma repair_results os : result_ids [repair_message os] = os.
Proof.
  unfold result_ids, repair_message, blocksOf. cbn [fmap list_fmap concat cm_role cm_content].
  rewrite app_nil_r. induction os as [|o os IH]; [done|]. cbn. by f_equal.
Qed.
Lemma repair_calls os : call_ids [repair_message os] = [].
Proof. done. Qed.

Lemma orphaned_nil ids m : call_ids [m] ⊆ ids -> orphaned ids m = [].
Proof.
  unfold call_ids, orphaned. cbn [fmap list_fmap concat]. rewrite app_nil_r.
  destruct (cm_role m); try done. intros Hs. induction (omap block_use_id (blocksOf m)) as [|i l IH]; [done|].
  cbn. rewrite bool_decide_true by (apply Hs; set_solver). cbn. apply IH. set_solver.
Qed.

Lemma orphaned_spec ids m i : i ∈ orphaned ids m <-> i ∈ call_ids [m] /\ i ∉ ids.
Proof.
  unfold call_ids, orphaned. cbn [fmap list_fmap concat]. rewrite app_nil_r.
  destruct (cm_role m); try (split; [by intros ?%not_elem_of_nil|by intros [?%not_elem_of_nil _]]).
  rewrite list_elem_of_In, List.filter_In, <-list_elem_of_In, negb_true_iff, bool_decide_eq_false. done.
Qed.

Lemma zlen_zero {A} (l : list A) : zlen l = 0 -> l = [].
Proof. destruct l; [done|]. rewrite zlen_cons. pose proof (zlen_nonneg l). lia. Qed.

(** What repairing adds: after each message the results of its calls that have none. *)
Lemma repair_after_calls ids x : call_ids (repair_after ids x).*1 = call_ids [x.1].
Proof. unfold repair_after. by destruct (orphaned ids x.1). Qed.
Lemma repair_after_results ids x :
  result_ids (repair_after ids x).*1 = result_ids [x.1] ++ orphaned ids x.1.
Proof.
  unfold repair_after. destruct (orphaned ids x.1) as [|o os]; [by rewrite app_nil_r|].
  cbn [fmap list_fmap fst]. change [x.1; repair_message (o :: os)] with ([x.1] ++ [repair_message (o :: os)]).
  by rewrite result_ids_app, repair_results.
Qed.

Lemma repaired_calls ids (ms : emitted) : call_ids (concat (repair_after ids <$> ms)).*1 = call_ids ms.*1.
Proof.
  induction ms as [|x ms IH]; [done|]. cbn [fmap list_fmap concat].
  rewrite fmap_app, call_ids_app, IH, repair_after_calls. by rewrite <-call_ids_app.
Qed.

Lemma repaired_results ids (ms : emitted) i :
  i ∈ result_ids (concat (repair_after ids <$> ms)).*1
  <-> i ∈ result_ids ms.*1 \/ (i ∈ call_ids ms.*1 /\ i ∉ ids).
Proof.
  induction ms as [|x ms IH]; [cbn; set_solver|]. cbn [fmap list_fmap concat].
  rewrite fmap_app, result_ids_app, repair_after_results, !elem_of_app, IH, orphaned_spec.
  change (x.1 :: ms.*1) with ([x.1] ++ ms.*1). rewrite result_ids_app, call_ids_app, !elem_of_app. tauto.
Qed.

Lemma repair_answered (ms : emitted) : all_answered (repairOrphanedToolCalls ms).1.*1.
Proof.
  intros i. cbn [repairOrphanedToolCalls fst]. rewrite repaired_calls, repaired_results. intros Hi.
  destruct (decide (i ∈ result_ids ms.*1)); [by left|by right].
Qed.

(** Nothing to repair. *)
Lemma repair_nothing ids (ms : emitted) :
  call_ids ms.*1 ⊆ ids -> concat (repair_after ids <$> ms) = ms
    /\ zsum ((fun m => zlen (orphaned ids m)) <$> ms.*1) = 0.
Proof.
  induction ms as [|x ms IH]; intros Hs; [done|]. cbn [fmap list_fmap concat zsum].
  change (x :: ms).*1 with ([x.1] ++ ms.*1) in Hs. rewrite call_ids_app in Hs.
  destruct IH as [E1 E2]; [set_solver|].
  unfold repair_after at 1. rewrite orphaned_nil by set_solver. rewrite E1. split; [done|].
  rewrite E2. done.
Qed.

(** C10: Repairing a conversation keeps its messages in order and puts after a message at
    most one, with a result for exactly the calls of that message that have none anywhere;
    then every call has a result, no call is added, repairing again changes nothing, and the
    count is zero exactly when nothing was missing. *)
Theorem repair_spec (ms : emitted) :
  let '(out, repaired) := repairOrphanedToolCalls ms in
  all_answered out.*1
  /\ call_ids out.*1 = call_ids ms.*1
  /\ (exists added, out = concat (zip_with (fun x a => x :: a) ms added)
       /\ Forall2 (fun x a => match a with
            | [] => True
            | _ => exists os, a = [(repair_message os, SourceRepair)]
                /\ forall i, i ∈ os <-> i ∈ call_ids [x.1] /\ i ∉ result_ids ms.*1
            end) ms added)
  /\ (repaired = 0 <-> out = ms) /\ (repaired = 0 <-> all_answered ms.*1)
  /\ repairOrphanedToolCalls out = (out, 0).
Proof.
  pose proof (repair_answered ms) as Ha. unfold repairOrphanedToolCalls in *. cbn [fst] in Ha.
  set (ids := result_ids ms.*1) in *. split; [done|]. split; [apply repaired_calls|].
  assert (zsum ((fun m => zlen (orphaned ids m)) <$> ms.*1) = 0 -> call_ids ms.*1 ⊆ ids) as Hz.
  { clear Ha. clearbody ids. induction ms as [|x ms IH]; [intros _ i ?%not_elem_of_nil; done|].
    cbn [fmap list_fmap zsum]. intros Hz.
    assert (0 <= zsum ((fun m => zlen (orphaned ids m)) <$> ms.*1)) as Hp
      by (apply zsum_nonneg, Forall_fmap, Forall_true; intros; apply zlen_nonneg).
    pose proof (zlen_nonneg (orphaned ids x.1)).
    assert (orphaned ids x.1 = []) as E by (apply zlen_zero; lia).
    change (x.1 :: ms.*1) with ([x.1] ++ ms.*1). rewrite call_ids_app. intros i [Hi|Hi]%elem_of_app.
    - destruct (decide (i ∈ ids)) as [|Hn]; [done|].
      assert (i ∈ orphaned ids x.1) as Hx by by apply orphaned_spec. rewrite E in Hx.
      by apply not_elem_of_nil in Hx.
    - apply IH; [lia|done]. }
  split; [|split; [|split]].
  - exists ((fun x => match orphaned ids x.1 with [] => [] | os => [(repair_message os, SourceRepair)] end) <$> ms).
    clear Ha Hz. clearbody ids. induction ms as [|x ms [IH1 IH2]]; [by split|]. cbn. split.
    + by rewrite <-IH1.
    + constructor; [|done]. destruct (orphaned ids x.1) as [|o os] eqn:E; [done|]. exists (o :: os).
      split; [done|]. intros i. rewrite <-E. apply orphaned_spec.
  - split; [intros E; by apply repair_nothing, Hz|]. intros E. apply repair_nothing.
    rewrite E in Ha. exact Ha.
  - split; [exact Hz|]. intros Hm. by apply repair_nothing.
  - by destruct (repair_nothing _ _ Ha) as [-> ->].
Qed.
End repair.
