(* ===== verification/ConversationResume.v ===== *)
(** A thread after a compaction: what its conversation is loaded from. *)
From Stdlib Require Import ZArith QArith Lia Sorted.
From stdpp Require Import base tactics strings gmap sorting option.
From stdpp Require Import list.
From S2P Require Import Prelude JsRuntime Json JsText Canonical ContextBudget ContextAccounting Invocation InvocationLeases ContextStore ProviderLedger Conversation Compactor CompactorProps CompactorRuns ContextClaims InvocationClaims ConversationClaims.
Open Scope Z_scope.

(** ** The order of a thread *)

#[export] Instance row_before_trans {R} : Transitive (@row_before R).
Proof.
  intros a b c [H1|[H1 H1']] [H2|[H2 H2']]; unfold row_before in *; try (left; lia).
  right. split; [lia|]. destruct (str_lt c.2.1 a.2.1) eqn:E; [|done].
  destruct (str_lt_total b.2.1 a.2.1) as [?|[Eb|Eb]]; [congruence|rewrite <-Eb in E; congruence|].
  by rewrite (str_lt_trans _ _ _ E Eb) in H2'.
Qed.
#[export] Instance row_before_total {R} : Total (@row_before R).
Proof.
  intros a b. unfold row_before. destruct (Z.lt_trichotomy a.1 b.1) as [?|[E|?]]; [auto| |auto].
  destruct (str_lt b.2.1 a.2.1) eqn:Eb; [|auto]. right. right. split; [done|].
  destruct (str_lt a.2.1 b.2.1) eqn:Ea; [|done].
  pose proof (str_lt_trans _ _ _ Ea Eb) as Hc. by rewrite str_lt_irrefl in Hc.
Qed.

Lemma last_latest {R} (l : list (stamped R)) x t :
  last (merge_sort row_before l) = Some t -> x ∈ l -> row_before x t.
Proof.
  intros Hl Hx. rewrite <-(merge_sort_Permutation row_before l) in Hx.
  pose proof (StronglySorted_merge_sort row_before l) as Hs.
  apply last_Some in Hl as [k E]. rewrite E in Hs, Hx.
  apply elem_of_app in Hx as [Hx|Hx].
  - eapply StronglySorted_app_1_elem_of; [exact Hs|exact Hx|apply list_elem_of_here].
  - apply list_elem_of_singleton in Hx as ->. right. split; [done|apply str_lt_irrefl].
Qed.

Lemma last_none {R} (l : list (stamped R)) : last (merge_sort row_before l) = None -> l = [].
Proof.
  intros Hl%last_None. apply Permutation_nil_r. by rewrite <-Hl, merge_sort_Permutation.
Qed.

(** The newest row. *)
Lemma last_newest {R} (l : list (stamped R)) x :
  x ∈ l -> (forall y, y ∈ l -> y = x \/ y.1 < x.1) -> last (merge_sort row_before l) = Some x.
Proof.
  intros Hx Hn. destruct (last (merge_sort row_before l)) as [t|] eqn:El.
  - assert (t ∈ l) as Ht.
    { rewrite <-(merge_sort_Permutation row_before l). apply last_Some in El as [k ->]. set_solver. }
    destruct (Hn t Ht) as [->|Hlt]; [done|]. pose proof (last_latest l x t El Hx) as Hb.
    unfold row_before in Hb. lia.
  - apply last_none in El. subst. by apply not_elem_of_nil in Hx.
Qed.

(** ** Rows after a boundary *)

Lemma trunc_bounds t : trunc_ms t <= t < trunc_ms t + 1000.
Proof. unfold trunc_ms. Z.to_euclidean_division_equations. lia. Qed.

Lemma trunc_same s t : trunc_ms t <= s <= t -> trunc_ms s = trunc_ms t.
Proof. unfold trunc_ms. intros. f_equal. Z.to_euclidean_division_equations. lia. Qed.

(** The time of the boundary is cut to its millisecond: a row up to it counts as after
    it only in the same millisecond. *)
Lemma row_after_old {R} (r t : stamped R) :
  row_before r t -> row_after (trunc_ms t.1) t.2.1 r = true ->
  trunc_ms r.1 = trunc_ms t.1 /\ t.1 mod 1000 <> 0.
Proof.
  unfold row_before, row_after. intros Hb Ha. pose proof (trunc_bounds t.1).
  assert (trunc_ms t.1 <= r.1 <= t.1 /\ trunc_ms t.1 <> t.1) as [Hr Hne].
  { apply orb_true_iff in Ha as [Ha%Z.ltb_lt|[Ea%Z.eqb_eq Hs]%andb_true_iff]; [lia|].
    destruct Hb as [|[? Hn]]; [lia|congruence]. }
  split; [by apply trunc_same|]. unfold trunc_ms in Hne. Z.to_euclidean_division_equations. lia.
Qed.

Lemma row_after_new {R} t id (r : stamped R) : t < r.1 -> row_after (trunc_ms t) id r = true.
Proof.
  intros Hlt. unfold row_after. pose proof (trunc_bounds t). rewrite (proj2 (Z.ltb_lt _ _)) by lia. done.
Qed.

(** ** The newest checkpoint *)

Definition completed_of (threadId : string) (c : AgentContextCheckpointRow) : Prop :=
  ck_threadId c = threadId /\ ck_status c = CkCompleted.

Lemma latest_checkpoint threadId (m : gmap string AgentContextCheckpointRow)
    (c : string * AgentContextCheckpointRow) :
  m !! c.1 = Some c.2 -> completed_of threadId c.2 ->
  (forall id r, m !! id = Some r -> completed_of threadId r ->
     (id, r) = c \/ ck_createdAt r < ck_createdAt c.2) ->
  snd <$> last (merge_sort row_before
    ((fun x : string * AgentContextCheckpointRow => (ck_createdAt x.2, x)) <$>
       rows_where (fun _ c => bool_decide (ck_threadId c = threadId) &&
                              bool_decide (ck_status c = CkCompleted)) m)) = Some c.
Proof.
  intros Hc [Ht Hs] Hnew. rewrite (last_newest _ (ck_createdAt c.2, c)); [done| |].
  - apply list_elem_of_fmap. exists c. split; [done|]. destruct c as [id r]. apply rows_where_spec.
    split; [done|]. cbn in Ht, Hs. by rewrite !bool_decide_true.
  - intros y ([id r] & -> & Hin)%list_elem_of_fmap. apply rows_where_spec in Hin as [Hm Hp].
    apply andb_true_iff in Hp as [H1%bool_decide_eq_true H2%bool_decide_eq_true].
    destruct (Hnew id r Hm (conj H1 H2)) as [E|E]; [left; by rewrite <-E|by right].
Qed.

(** ** Loading *)

Section loading.
Context `{NumberText} `{InvocationEnv} `{Surroundings} `{ConversationEnv}.

(** A row always gives its messages; only fresh ids are drawn. *)
Lemma directive_total raw w :
  exists d w', parseStoredToolDirective raw w = (inr d, w') /\ w_db w' = w_db w.
Proof.
  unfold parseStoredToolDirective. assert (forall payload, exists d w',
    ((callId ← match nonempty_string (prop "call_id" payload) with
               | Some id => mret id
               | None => u ← draw context_ulid; mret ("tool_" +:+ u)
               end;
      mret (pair callId <$> directive_of payload)) : CM _) w = (inr d, w') /\ w_db w' = w_db w) as Hp.
  { intros payload. unfold mbind, CM_mbind. destruct (nonempty_string _); by do 2 eexists. }
  destruct (JSON_parse raw) as [[]|]; try apply Hp; by do 2 eexists.
Qed.

Lemma stored_total row flag w :
  exists ms w', stored_messages row flag w = (inr ms, w') /\ w_db w' = w_db w.
Proof.
  unfold stored_messages. destruct (bool_decide _); [by do 2 eexists|].
  destruct (decide (m_role row = "tool")); [|repeat case_decide; by do 2 eexists].
  cbn zeta. destruct (_ ≫= automation_record) as [[[? ?] ?]|]; [by do 2 eexists|].
  destruct (_ ≫= permission_record) as [[[? ?] ?]|]; [by do 2 eexists|].
  destruct (directive_total (m_content row) w) as (d & w' & E & Hd).
  unfold mbind, CM_mbind. rewrite E. by do 2 eexists.
Qed.

(** What an item of the timeline gives. *)
Definition item_gives (ids : list string) (item : timeline_item) (part : emitted) : Prop :=
  exists w, (append_item ids [] item w).1 = inr part.

Lemma append_total ids acc item w :
  exists part w', append_item ids acc item w = (inr (acc ++ part), w') /\ w_db w' = w_db w
    /\ item_gives ids item part.
Proof.
  destruct item as [row|l]; unfold item_gives; cbn [append_item].
  - destruct (_ && _).
    + exists [], w. split_and!; [by rewrite app_nil_r|done|by exists w].
    + destruct (stored_total row.2 (from_ledger ids row.2) w) as (ms & w' & E & Hd).
      eexists _, w'. split_and!; [|done|exists w]; unfold appendStoredMessage, mbind, CM_mbind; by rewrite E.
  - eexists _, w. split_and!; [done|done|by exists w].
Qed.

Lemma fold_total ids acc items w :
  exists parts w', foldM (append_item ids) acc items w = (inr (acc ++ concat parts), w')
    /\ w_db w' = w_db w /\ Forall2 (item_gives ids) items parts.
Proof.
  revert acc w. induction items as [|item items IH]; intros acc w.
  { exists [], w. cbn. by rewrite app_nil_r. }
  destruct (append_total ids acc item w) as (part & w1 & E1 & D1 & G1).
  destruct (IH (acc ++ part) w1) as (parts & w2 & E2 & D2 & G2).
  exists (part :: parts), w2. split_and!; [|congruence|by constructor].
  cbn [foldM]. unfold mbind, CM_mbind. rewrite E1, E2. cbn. by rewrite (assoc_L (++)).
Qed.

Section quiet.
Hypothesis alone : forall n d, interfere n d = d.
Hypothesis no_fault : forall n, statement_fault n = None.

Lemma select_quiet {A} (q : context_db -> res A) a w :
  q (w_db w) = Ok a ->
  select q w = (inr a, mkCtx (w_db w) (S (w_awaits w)) (w_drawn w) (w_requests w)).
Proof. intros E. unfold select, statement. rewrite alone, no_fault, E. done. Qed.

Lemma bind_inr {A B} (m : CM A) (k : A -> CM B) w a w1 : m w = (inr a, w1) -> (m ≫= k) w = k a w1.
Proof. unfold mbind, CM_mbind. by intros ->. Qed.

(** The ledger of the provider after a boundary, as [load] uses it. *)
Definition ledger_rows (catalog : dynamic_catalog) (threadId provider : string)
    (options : ConversationLoadOptions) (after : option (option Z * option string)) (d : context_db)
    : list ProviderLedgerMessage :=
  List.filter (isProviderLedgerMessageCompatible catalog options)
    (omap (ledger_message provider d)
       (List.filter (call_after after)
          (context_calls (fun c => of_thread threadId c && bool_decide (lc_provider c = provider)) d))).

(** A load after a checkpoint, with no statement that fails. *)
Lemma load_checkpoint catalog threadId options diag provider (c : string * AgentContextCheckpointRow) rows w :
  lo_provider options = Some provider -> str_truthy provider = true ->
  snd <$> last (merge_sort row_before
    ((fun x : string * AgentContextCheckpointRow => (ck_createdAt x.2, x)) <$>
       rows_where (fun _ c => bool_decide (ck_threadId c = threadId) &&
                              bool_decide (ck_status c = CkCompleted)) (cx_checkpoints (w_db w)))) = Some c ->
  context_messages threadId (w_db w) = Ok rows ->
  let replayed := List.filter (messageAfterCheckpointBoundary (Some c)) rows in
  let ledger := ledger_rows catalog threadId provider options
    (Some (bo_llmCallCreatedAt (ck_boundary c.2), bo_llmCallId (ck_boundary c.2))) (w_db w) in
  exists l w' parts, loadInternal catalog threadId options diag w = (inr l, w')
    /\ Forall2 (item_gives (lm_llmCallId <$> ledger)) (timeline replayed ledger) parts
    /\ ld_messages l = (repairOrphanedToolCalls
         (((createCanonicalTextMessage System AGENT_SYSTEM_PROMPT None,
            SourceSystemPrompt "default" AGENT_SYSTEM_PROMPT_VERSION) :: checkpoint_messages c)
          ++ concat parts)).1.*1.
Proof.
  intros Hp Ht Hc Hrows. cbn zeta. unfold loadInternal. cbn zeta.
  unfold getLatestCompletedContextCheckpoint, loadStoredRows.
  erewrite bind_inr by (apply select_quiet; by rewrite Hc).
  erewrite bind_inr by (apply select_quiet; cbn [w_db]; by rewrite Hrows).
  rewrite Hp. cbn [ostr_truthy option_rect w_db w_awaits w_drawn w_requests]. rewrite Ht.
  cbn [fmap option_fmap option_map].
  assert (exists summary w1, (if diag then loadProviderLedgerThreadDiagnostics threadId
      (Some (bo_llmCallCreatedAt (ck_boundary c.2), bo_llmCallId (ck_boundary c.2)))
    else mret emptyProviderLedgerThreadDiagnostics : CM _)
      (mkCtx (w_db w) (S (S (w_awaits w))) (w_drawn w) (w_requests w)) = (inr summary, w1)
    /\ w_db w1 = w_db w) as (summary & w1 & E1 & D1).
  { destruct diag; [|by do 2 eexists]. unfold loadProviderLedgerThreadDiagnostics.
    eexists _, _. split; [by apply select_quiet|done]. }
  erewrite bind_inr by exact E1. unfold loadProviderLedgerMessages.
  erewrite bind_inr by (by apply select_quiet). rewrite D1.
  fold (ledger_rows catalog threadId provider options
    (Some (bo_llmCallCreatedAt (ck_boundary c.2), bo_llmCallId (ck_boundary c.2))) (w_db w)).
  destruct (fold_total (lm_llmCallId <$> ledger_rows catalog threadId provider options
      (Some (bo_llmCallCreatedAt (ck_boundary c.2), bo_llmCallId (ck_boundary c.2))) (w_db w))
    ((createCanonicalTextMessage System AGENT_SYSTEM_PROMPT None,
      SourceSystemPrompt "default" AGENT_SYSTEM_PROMPT_VERSION) :: checkpoint_messages c)
    (timeline (List.filter (messageAfterCheckpointBoundary (Some c)) rows)
       (ledger_rows catalog threadId provider options
          (Some (bo_llmCallCreatedAt (ck_boundary c.2), bo_llmCallId (ck_boundary c.2))) (w_db w)))
    (mkCtx (w_db w) (S (w_awaits w1)) (w_drawn w1) (w_requests w1))) as (parts & w' & E & _ & G).
  eexists _, w', parts. split; [|split; [exact G|]].
  - erewrite bind_inr by exact E. reflexivity.
  - done.
Qed.
End quiet.

(** ** What is replayed *)

(** The rows of a thread with their times. *)
Lemma timed_ids invs ms ts r : timed invs ms = Ok ts -> r ∈ ts -> r.2 ∈ ms.
Proof.
  revert ts. induction ms as [|[mid m] ms IH]; intros ts; cbn; [intros [= <-]; by intros ?%not_elem_of_nil|].
  destruct (modelContextMessageCreatedAt invs mid m) as [t|e]; cbn; [|done].
  destruct (timed invs ms) as [rest|e]; cbn; [|done]. intros [= <-] Hr.
  destruct t as [t|]; [apply elem_of_cons in Hr as [->|Hr]; [apply list_elem_of_here|]|];
    apply list_elem_of_further; by apply (IH rest).
Qed.

Lemma context_rows threadId d rows :
  context_messages threadId d = Ok rows ->
  exists ts, rows = merge_sort row_before ts
    /\ forall r, r ∈ rows -> messages (cx_tables d) !! r.2.1 = Some r.2.2.
Proof.
  unfold context_messages. destruct (timed _ _) as [ts|e] eqn:E; cbn; [|done]. intros [= <-].
  exists ts. split; [done|]. intros [t [mid m]] Hr. rewrite merge_sort_Permutation in Hr.
  pose proof (timed_ids _ _ _ _ E Hr) as Hin. apply rows_where_spec in Hin. by destruct Hin.
Qed.

(** Of the rows that were compacted, only some of the last one's millisecond; of the
    newer ones all. *)
Lemma replayed_rows threadId d rows rows' b (c : string * AgentContextCheckpointRow) :
  context_messages threadId d = Ok rows -> boundary_of threadId d = Ok b -> ck_boundary c.2 = b ->
  messages (cx_tables d) !! "" = None ->
  let replayed := List.filter (messageAfterCheckpointBoundary (Some c)) rows' in
  (forall r, r ∈ rows' -> (forall x, x ∈ rows -> x.1 < r.1) -> r ∈ replayed)
  /\ (forall r, r ∈ rows -> r ∈ replayed ->
       exists t, last rows = Some t /\ trunc_ms r.1 = trunc_ms t.1 /\ t.1 mod 1000 <> 0).
Proof.
  intros Hrows Hb Hc Hid. cbn zeta. unfold boundary_of in Hb. rewrite Hrows in Hb. injection Hb as Hb.
  destruct (context_rows _ _ _ Hrows) as (ts & Ets & Hin).
  assert (forall r t, last rows = Some t ->
    messageAfterCheckpointBoundary (Some c) r = row_after (trunc_ms t.1) t.2.1 r) as Hafter.
  { intros r t Hl. destruct c as [cid c]. cbn in Hc |- *. rewrite Hc, <-Hb, Hl. cbn.
    assert (t ∈ rows) as Ht by (apply last_Some in Hl as [k ->]; set_solver).
    specialize (Hin t Ht). destruct t as [t [[|? ?] m]]; [cbn in Hin; congruence|done]. }
  setoid_rewrite list_elem_of_In. setoid_rewrite List.filter_In. setoid_rewrite <-list_elem_of_In. split.
  - intros r Hr Hnew. split; [done|]. destruct (last rows) as [t|] eqn:El.
    + rewrite (Hafter r t) by done. apply row_after_new, Hnew. apply last_Some in El as [k ->]. set_solver.
    + destruct c as [cid c]. cbn in Hc |- *. by rewrite Hc, <-Hb.
  - intros r Hr [_ Ha]. destruct (last rows) as [t|] eqn:El.
    + exists t. split; [done|]. rewrite (Hafter r t) in Ha by done. apply row_after_old with (2 := Ha).
      rewrite Ets in El, Hr. rewrite merge_sort_Permutation in Hr. by apply (last_latest ts).
    + rewrite Ets in El, Hr. apply last_none in El. subst ts. by apply not_elem_of_nil in Hr.
Qed.

Lemma context_calls_spec P d (r : stamped LlmCallRow) :
  r ∈ context_calls P d <->
  cx_calls d !! r.2.1 = Some r.2.2 /\ P r.2.2 = true /\ r.1 = lc_createdAt r.2.2.
Proof.
  unfold context_calls. rewrite merge_sort_Permutation, list_elem_of_fmap. destruct r as [t [id call]].
  cbn [fst snd]. split.
  - intros ([id' c] & E & Hin). injection E as -> <- <-. apply rows_where_spec in Hin as [K1 K2]. done.
  - intros (K1 & K2 & ->). exists (id, call). split; [done|]. by apply rows_where_spec.
Qed.

(** A call of the thread in the state [d]. *)
Definition call_of (threadId : string) (d : context_db) (id : string) (call : LlmCallRow) : Prop :=
  cx_calls d !! id = Some call /\ lc_threadId call = threadId.

Lemma ledger_rows_spec catalog threadId provider options after d m :
  m ∈ ledger_rows catalog threadId provider options after d <->
  isProviderLedgerMessageCompatible catalog options m = true /\
  exists id call, call_of threadId d id call /\ lc_provider call = provider
    /\ call_after after (lc_createdAt call, (id, call)) = true
    /\ ledger_message provider d (lc_createdAt call, (id, call)) = Some m.
Proof.
  unfold ledger_rows, call_of. rewrite list_elem_of_In, List.filter_In, <-list_elem_of_In, list_elem_of_omap.
  setoid_rewrite list_elem_of_In. setoid_rewrite List.filter_In. setoid_rewrite <-list_elem_of_In.
  setoid_rewrite context_calls_spec. setoid_rewrite andb_true_iff. unfold of_thread.
  setoid_rewrite bool_decide_eq_true. split.
  - intros [([t [id call]] & [(K1 & [K2 K3] & Ht) K4] & K5) Hc]. cbn in Ht. subst t.
    split; [done|]. by exists id, call.
  - intros [Hc (id & call & [K1 K2] & K3 & K4 & K5)]. split; [|done].
    by exists (lc_createdAt call, (id, call)).
Qed.

Lemma ledger_message_id provider d c m : ledger_message provider d c = Some m -> lm_llmCallId m = c.2.1.
Proof. unfold ledger_message. cbn zeta. repeat case_match; by intros [= <-]. Qed.

Lemma replayed_calls catalog threadId provider options d d2 b :
  boundary_of threadId d = Ok b -> cx_calls d !! "" = None ->
  let ledger := ledger_rows catalog threadId provider options
                  (Some (bo_llmCallCreatedAt b, bo_llmCallId b)) d2 in
  (forall id call m, call_of threadId d2 id call -> lc_provider call = provider ->
     (forall id' call', call_of threadId d id' call' -> lc_createdAt call' < lc_createdAt call) ->
     ledger_message provider d2 (lc_createdAt call, (id, call)) = Some m ->
     isProviderLedgerMessageCompatible catalog options m = true -> m ∈ ledger)
  /\ (forall m call, m ∈ ledger -> call_of threadId d (lm_llmCallId m) call ->
       cx_calls d2 !! lm_llmCallId m = Some call ->
       exists id0 call0, call_of threadId d id0 call0
         /\ trunc_ms (lc_createdAt call) = trunc_ms (lc_createdAt call0)
         /\ lc_createdAt call0 mod 1000 <> 0).
Proof.
  intros Hb Hid. cbn zeta. unfold boundary_of in Hb. destruct (context_messages threadId d); [|done].
  injection Hb as Hb. set (calls := context_calls (of_thread threadId) d) in Hb.
  assert (forall r, r ∈ calls -> call_of threadId d r.2.1 r.2.2 /\ r.1 = lc_createdAt r.2.2) as Hcalls.
  { intros r (K1 & K2 & K3)%context_calls_spec. apply bool_decide_eq_true in K2. done. }
  assert (forall t (r : stamped LlmCallRow), last calls = Some t ->
    call_after (Some (bo_llmCallCreatedAt b, bo_llmCallId b)) r = row_after (trunc_ms t.1) t.2.1 r) as Hafter.
  { intros t r Hl. rewrite <-Hb, Hl. cbn.
    assert (t ∈ calls) as Ht by (apply last_Some in Hl as [k ->]; set_solver).
    apply Hcalls in Ht as [[Ht _] _]. destruct t as [t [[|? ?] m]]; [cbn in Ht; congruence|done]. }
  setoid_rewrite ledger_rows_spec. split.
  - intros id call m Hcall Hp Hnew Hm Hc. split; [done|]. exists id, call. split_and!; [done..| |done].
    destruct (last calls) as [t|] eqn:El; [|by rewrite <-Hb].
    rewrite (Hafter t _ eq_refl). apply row_after_new. cbn [fst].
    assert (t ∈ calls) as [Ht ->]%Hcalls by (apply last_Some in El as [k ->]; set_solver). by eapply Hnew.
  - intros m call [_ (id & call' & [Hcall' _] & _ & Ha & Hm)] Hcall K2.
    apply ledger_message_id in Hm. cbn in Hm. subst id. assert (call' = call) as -> by congruence.
    assert ((lc_createdAt call, (lm_llmCallId m, call)) ∈ calls) as Hin.
    { apply context_calls_spec. destruct Hcall as [K1 K3]. split_and!; [done| |done].
      by apply bool_decide_eq_true. }
    destruct (last calls) as [t|] eqn:El.
    + rewrite (Hafter t _ eq_refl) in Ha. apply row_after_old in Ha as [K3 K4].
      * assert (t ∈ calls) as [Ht E]%Hcalls by (apply last_Some in El as [k ->]; set_solver).
        exists t.2.1, t.2.2. rewrite <-E. done.
      * unfold calls, context_calls in El, Hin. rewrite merge_sort_Permutation in Hin.
        by eapply last_latest.
    + apply last_none in El. unfold calls, context_calls in Hin.
      rewrite merge_sort_Permutation, El in Hin. by apply not_elem_of_nil in Hin.
Qed.

(** A replacement history has only messages of the user. *)
Lemma replacement_users conversation summary terminal :
  Forall (fun m => cm_role m = User) (buildReplacementHistory conversation summary terminal).
Proof.
  unfold buildReplacementHistory. apply Forall_app. split; [by apply Forall_singleton|].
  apply Forall_app. split; [|repeat case_match; by repeat constructor].
  destruct (recent_spec conversation) as (old & kept & E & _ & Hr).
  assert (Forall (fun m => cm_role m = User) (old ++ kept)) as Hk.
  { rewrite <-E. apply List.Forall_forall. intros m [_ Hm]%List.filter_In. revert Hm.
    unfold isRealUserTextMessage. by destruct (cm_role m). }
  apply Forall_app in Hk as [_ Hk]. destruct (last old) as [m|]; [|by rewrite Hr].
  destruct Hr as [_ ->]. apply Forall_app. split; [|done].
  unfold truncateUserMessageToBudget. repeat case_match; by repeat constructor.
Qed.

Lemma checkpoint_messages_users (c : string * AgentContextCheckpointRow) :
  Forall (fun m => cm_role m = User) (ck_replacementHistory c.2) ->
  (checkpoint_messages c).*1 = ck_replacementHistory c.2.
Proof.
  unfold checkpoint_messages. rewrite <-list_fmap_compose.
  induction 1 as [|m ms Hm _ IH]; [done|]. cbn [List.filter].
  rewrite bool_decide_false by by rewrite Hm. cbn. by f_equal.
Qed.

(** C9: After a compaction a thread goes on from it.  Loaded from any later state of the
    database with the same checkpoints, the conversation is the system prompt, the
    replacement history, and what the rows and the calls of the provider after the boundary
    give, repaired; every call in it has a result.  Every newer row and every newer call
    that is compatible is there; of those that were compacted only some of the millisecond
    of the last one come back, and none when its time is a whole millisecond. *)
Theorem compaction_resumes (alone : forall n d, interfere n d = d)
    (no_fault : forall n, statement_fault n = None)
    config catalog input w res w1 rows w2 rows' options diag provider :
  compact config catalog input w = (inr res, w1) ->
  (forall id c, cx_checkpoints (w_db w) !! id = Some c -> completed_of (ci_threadId input) c ->
     ck_createdAt c < ck_createdAt (co_checkpoint res).2) ->
  messages (cx_tables (w_db w)) !! "" = None -> cx_calls (w_db w) !! "" = None ->
  context_messages (ci_threadId input) (w_db w) = Ok rows ->
  cx_checkpoints (w_db w2) = cx_checkpoints (w_db w1) ->
  context_messages (ci_threadId input) (w_db w2) = Ok rows' ->
  lo_provider options = Some provider -> str_truthy provider = true ->
  exists l w3 start replayed ledger parts,
    loadInternal catalog (ci_threadId input) options diag w2 = (inr l, w3)
    /\ ld_messages l = (repairOrphanedToolCalls (start ++ concat parts)).1.*1
    /\ start.*1 = createCanonicalTextMessage System AGENT_SYSTEM_PROMPT None :: co_replacementHistory res
    /\ Forall2 (item_gives (lm_llmCallId <$> ledger)) (timeline replayed ledger) parts
    /\ all_answered (ld_messages l)
    /\ (forall r, r ∈ replayed -> r ∈ rows')
    /\ (forall r, r ∈ rows' -> (forall x, x ∈ rows -> x.1 < r.1) -> r ∈ replayed)
    /\ (forall r, r ∈ rows -> r ∈ replayed ->
          exists t, last rows = Some t /\ trunc_ms r.1 = trunc_ms t.1 /\ t.1 mod 1000 <> 0)
    /\ (forall id call m, call_of (ci_threadId input) (w_db w2) id call -> lc_provider call = provider ->
          (forall id' call', call_of (ci_threadId input) (w_db w) id' call' ->
             lc_createdAt call' < lc_createdAt call) ->
          ledger_message provider (w_db w2) (lc_createdAt call, (id, call)) = Some m ->
          isProviderLedgerMessageCompatible catalog options m = true -> m ∈ ledger)
    /\ (forall m call, m ∈ ledger -> call_of (ci_threadId input) (w_db w) (lm_llmCallId m) call ->
          cx_calls (w_db w2) !! lm_llmCallId m = Some call ->
          exists id0 call0, call_of (ci_threadId input) (w_db w) id0 call0
            /\ trunc_ms (lc_createdAt call) = trunc_ms (lc_createdAt call0)
            /\ lc_createdAt call0 mod 1000 <> 0).
Proof.
  intros Hrun Hold Hm Hl Hrows Hck Hrows' Hp Ht.
  destruct (boundary_of (ci_threadId input) (w_db w)) as [b|] eqn:Hb;
    [|by unfold boundary_of in Hb; rewrite Hrows in Hb].
  pose proof (compact_alone alone config catalog input w b Hb) as Ha. unfold runs in Ha.
  rewrite Hrun in Ha.
  destruct Ha as ((summary & _ & (Hth & _ & Hbo & _) & Hst & _ & _ & Hrh & _) & Hco & mark & _ & Hdb).
  set (c := co_checkpoint res) in *. cbn [snd] in Hdb.
  assert (cx_checkpoints (w_db w2) = <[c.1 := c.2]> (cx_checkpoints (w_db w))) as Hcx by by rewrite Hck, Hdb.
  assert (completed_of (ci_threadId input) c.2) as Hc by done.
  destruct (load_checkpoint alone no_fault catalog (ci_threadId input) options diag provider c rows' w2)
    as (l & w3 & parts & Hload & Hparts & Hms); [done|done| |done|].
  { apply latest_checkpoint; [by rewrite Hcx, lookup_insert_eq|done|]. intros id r. rewrite Hcx.
    intros [(<- & <-)|[_ Hr]]%lookup_insert_Some Hr'; [left; by destruct c|right; by eapply Hold]. }
  exists l, w3. eexists _, _, _, parts. split; [exact Hload|]. split; [exact Hms|]. split.
  { rewrite Hco. cbn [fmap list_fmap fst]. f_equal. apply checkpoint_messages_users. rewrite Hrh.
    apply replacement_users. }
  split; [exact Hparts|]. split; [rewrite Hms; apply repair_answered|]. split.
  { intros r [Hr _]%list_elem_of_In%List.filter_In. by apply list_elem_of_In. }
  destruct (replayed_rows _ _ _ rows' _ c Hrows Hb Hbo Hm) as [R1 R2].
  destruct (replayed_calls catalog _ provider options _ (w_db w2) b Hb Hl) as [C1 C2].
  rewrite Hbo. done.
Qed.
End loading.

(** ** The small thread, compacted and gone on *)

#[local] Existing Instance plain_numbers.
#[local] Existing Instance calm.
#[local] Instance no_questions : ConversationEnv := {|
  AGENT_SYSTEM_PROMPT := "You are Bud.";
  AGENT_SYSTEM_PROMPT_VERSION := "v1";
  normalizeAskUserQuestionsRequest := fun _ => None;
  parseStoredAskUserQuestionsRequest := fun _ => None
|}.

Definition gone_on (w : ctx) : ctx :=
  mkCtx (with_messages (<["m3" := says "t1" "user" "And c?" 9000000]> (messages (cx_tables (w_db w)))) (w_db w))
    (w_awaits w) (w_drawn w) (w_requests w).
Definition ds4_options : ConversationLoadOptions := mkLoadOptions (Some "ds4") None None.
Definition text_of (m : CanonicalMessage) : string := collectText (blocksOf m).

(** The last answer of the compacted part comes back: its time was 2000300, the boundary's
    2000000. *)
Example gone_on_texts :
  match compact small_config [] small_input small_ctx with
  | (inr res, w1) =>
      match loadInternal [] "t1" ds4_options false (gone_on w1) with
      | (inr l, _) => text_of <$> drop 2 (ld_messages l)
          = ["Read a and b."; COMPACTION_TERMINAL_CONTEXT_PREFIX +:+ newline +:+ "cwd: /home";
             "Done."; "And c?"]
      | _ => False
      end
  | _ => False
  end.
Proof. vm_compute. reflexivity. Qed.

Lemma compaction_resumes_witness :
  exists res w1 l w3,
    compact small_config [] small_input small_ctx = (inr res, w1)
    /\ loadInternal [] "t1" ds4_options false (gone_on w1) = (inr l, w3)
    /\ all_answered (ld_messages l)
    /\ exists start tail, start.*1 = createCanonicalTextMessage System "You are Bud." None
                                     :: co_replacementHistory res
         /\ ld_messages l = (repairOrphanedToolCalls (start ++ tail)).1.*1.
Proof.
  destruct (compact small_config [] small_input small_ctx) as [[e|res] w1] eqn:Ec; [by vm_compute in Ec|].
  destruct (context_messages "t1" small_db) as [rows|] eqn:Er; [|by vm_compute in Er].
  destruct (context_messages "t1" (w_db (gone_on w1))) as [rows'|] eqn:Er'.
  2:{ exfalso. assert (w1 = (compact small_config [] small_input small_ctx).2) as -> by by rewrite Ec.
      clear Ec. by vm_compute in Er'. }
  assert (forall n d, interfere n d = d) as Ha by done.
  assert (forall n, statement_fault n = None) as Hf by done.
  destruct (compaction_resumes Ha Hf small_config [] small_input small_ctx
    res w1 rows (gone_on w1) rows' ds4_options false "ds4" Ec) as
    (l & w3 & start & replayed & ledger & parts & H1 & H2 & H3 & _ & H5 & _);
    [intros i ? He; change (cx_checkpoints (w_db small_ctx)) with (∅ : gmap string AgentContextCheckpointRow) in He; by rewrite lookup_empty in He|by vm_compute|by vm_compute|exact Er|reflexivity
    |exact Er'|reflexivity|reflexivity|].
  exists res, w1, l, w3. split; [reflexivity|]. split; [exact H1|]. split; [exact H5|].
  exists start, (concat parts). split; [exact H3|exact H2].
Defined.
