(* ===== verification/Presence.v ===== *)
(** Where the owner is: presence at saved places, from geofence reports, readings
    and visits ([service/src/personal-data/place-presence.ts], [places.ts]).

    All of it runs under the owner lock, so a transaction is one function on the
    tables ([PM], a state monad).  Times are milliseconds, as a JavaScript [Date]
    reads them.  Coordinates, distances and speeds are rationals: rounding of
    floating point is left out, and [Math.sin] and its like are parameters, as are
    the reading of a date, the text of a JSON value that is no string, and fresh
    ids.  A select without an order gives the rows in the order of the map. *)
From Stdlib Require Import ZArith QArith Qround Qabs Lia.
From stdpp Require Import base tactics strings gmap sorting option pretty.
From stdpp Require Import list.
From S2P Require Import Prelude JsRuntime.
Open Scope Z_scope.

(** ** Rows *)

Inductive PresenceState := Inside | Outside.

#[export] Instance PresenceState_eq_dec : EqDecision PresenceState.
Proof. solve_decision. Defined.

Record PresenceRow := mkPresence {
  pr_state : PresenceState;
  pr_since : Z;
  pr_leavingAt : option Z;
  pr_lastEnteredAt : option Z;
  pr_visitId : option string;
  pr_leavingEventId : option string;
  pr_leavingConfirmed : bool;
  pr_approachingAt : option Z;
  pr_arrivingAt : option Z;
  pr_arrivingEventId : option string
}.

Definition set_place (state : PresenceState) (since : Z) (r : PresenceRow) : PresenceRow :=
  mkPresence state since (pr_leavingAt r) (pr_lastEnteredAt r) (pr_visitId r)
    (pr_leavingEventId r) (pr_leavingConfirmed r) (pr_approachingAt r) (pr_arrivingAt r)
    (pr_arrivingEventId r).
Definition set_leaving (v : option Z) (r : PresenceRow) : PresenceRow :=
  mkPresence (pr_state r) (pr_since r) v (pr_lastEnteredAt r) (pr_visitId r)
    (pr_leavingEventId r) (pr_leavingConfirmed r) (pr_approachingAt r) (pr_arrivingAt r)
    (pr_arrivingEventId r).
Definition set_lastEntered (v : option Z) (r : PresenceRow) : PresenceRow :=
  mkPresence (pr_state r) (pr_since r) (pr_leavingAt r) v (pr_visitId r)
    (pr_leavingEventId r) (pr_leavingConfirmed r) (pr_approachingAt r) (pr_arrivingAt r)
    (pr_arrivingEventId r).
Definition set_visit (v : option string) (r : PresenceRow) : PresenceRow :=
  mkPresence (pr_state r) (pr_since r) (pr_leavingAt r) (pr_lastEnteredAt r) v
    (pr_leavingEventId r) (pr_leavingConfirmed r) (pr_approachingAt r) (pr_arrivingAt r)
    (pr_arrivingEventId r).
Definition set_leavingEvent (v : option string) (r : PresenceRow) : PresenceRow :=
  mkPresence (pr_state r) (pr_since r) (pr_leavingAt r) (pr_lastEnteredAt r) (pr_visitId r)
    v (pr_leavingConfirmed r) (pr_approachingAt r) (pr_arrivingAt r) (pr_arrivingEventId r).
Definition set_confirmed (v : bool) (r : PresenceRow) : PresenceRow :=
  mkPresence (pr_state r) (pr_since r) (pr_leavingAt r) (pr_lastEnteredAt r) (pr_visitId r)
    (pr_leavingEventId r) v (pr_approachingAt r) (pr_arrivingAt r) (pr_arrivingEventId r).
Definition set_approaching (v : option Z) (r : PresenceRow) : PresenceRow :=
  mkPresence (pr_state r) (pr_since r) (pr_leavingAt r) (pr_lastEnteredAt r) (pr_visitId r)
    (pr_leavingEventId r) (pr_leavingConfirmed r) v (pr_arrivingAt r) (pr_arrivingEventId r).
Definition set_arriving (at_ : option Z) (event : option string) (r : PresenceRow) : PresenceRow :=
  mkPresence (pr_state r) (pr_since r) (pr_leavingAt r) (pr_lastEnteredAt r) (pr_visitId r)
    (pr_leavingEventId r) (pr_leavingConfirmed r) (pr_approachingAt r) at_ event.

(** The columns an insert fills with their defaults. *)
Definition fresh_presence (since : Z) : PresenceRow :=
  mkPresence Outside since None None None None false None None None.

Inductive Transition := Arrived | Departed.
Inductive Source := Region | Visit | Reading.

#[export] Instance Transition_eq_dec : EqDecision Transition.
Proof. solve_decision. Defined.
#[export] Instance Source_eq_dec : EqDecision Source.
Proof. solve_decision. Defined.

Record PlaceRow := mkPlace {
  pl_latitude : Q;
  pl_longitude : Q;
  pl_radiusM : Q;
  pl_geometryChangedAt : Z;
  pl_deletedAt : option Z;
  pl_createdByUserId : string
}.

Record RawEvent := mkRaw {
  re_eventType : string;
  re_occurredAt : Z;
  re_recordedAt : Z;
  re_rawEnvelope : jsval;
  re_createdByUserId : string
}.

Record PresenceEvent := mkPresenceEvent {
  pe_id : string;
  pe_placeId : string;
  pe_transition : Transition;
  pe_occurredAt : Z;
  pe_source : Source;
  pe_visitId : option string;
  pe_rawEventId : option string;
  pe_createdByUserId : string
}.

Record DomainEvent := mkDomain {
  de_id : string;
  de_subject : string;              (** the presence event or the visit *)
  de_placeId : option string;
  de_eventType : string;
  de_publicationSequence : Z;
  de_createdByUserId : string
}.

Record pdb := mkPdb {
  presence : gmap (string * string) PresenceRow;   (** by owner and place *)
  presenceEvents : list PresenceEvent;             (** in the order of their insertion *)
  domains : list DomainEvent;
  owners : gmap string Z;                          (** the publication sequence *)
  places : gmap string PlaceRow;
  rawEvents : gmap string RawEvent;
  ulids : nat                                      (** ids drawn so far *)
}.

Definition set_presence (v : gmap (string * string) PresenceRow) (d : pdb) : pdb :=
  mkPdb v (presenceEvents d) (domains d) (owners d) (places d) (rawEvents d) (ulids d).
Definition set_places (v : gmap string PlaceRow) (d : pdb) : pdb :=
  mkPdb (presence d) (presenceEvents d) (domains d) (owners d) v (rawEvents d) (ulids d).
Definition set_rawEvents (v : gmap string RawEvent) (d : pdb) : pdb :=
  mkPdb (presence d) (presenceEvents d) (domains d) (owners d) (places d) v (ulids d).

(** ** The monad of a transaction *)

Definition PM (A : Type) : Type := pdb -> A * pdb.

#[export] Instance PM_ret : MRet PM := fun A a d => (a, d).
#[export] Instance PM_bind : MBind PM := fun A B k m d => let '(a, d') := m d in k a d'.

Definition pget {A} (f : pdb -> A) : PM A := fun d => (f d, d).
Definition pmodify (f : pdb -> pdb) : PM unit := fun d => (tt, f d).
Definition skip : PM unit := mret tt.

Fixpoint pfor {A} (xs : list A) (body : A -> PM unit) : PM unit :=
  match xs with
  | [] => skip
  | x :: xs => body x;; pfor xs body
  end.

(** What is left to JavaScript and PostgreSQL. *)
Class PresenceEnv := {
  math_PI : Q;
  math_sin : Q -> Q;
  math_cos : Q -> Q;
  math_asin : Q -> Q;
  math_sqrt : Q -> Q;
  date_parse : string -> option Z;
  json_text : jsval -> string;
  ulid : nat -> string
}.

(** ** Constants *)

Definition REGION_TRANSITION_TYPE : string := "location.region_transition.v1".
Definition DEPARTURE_SETTLE_MS : Z := 3 * 60000.
Definition MISSED_EXIT_MS : Z := 12 * 3600000.
Definition ARRIVAL_CONFIRM_MS : Z := 30000.
Definition STOPPED_MPS : Q := 1 # 2.
Definition STILL_M : Q := 15.
Definition DEPARTURE_CONFIRM_MS : Z := 30000.
Definition ARRIVAL_STAY_MS : Z := 5 * 60000.
Definition FIX_MAX_ACCURACY_M : Q := 100.
Definition NEARBY_PLACE_M : Q := 1000.

(** [a < b] on numbers. *)
Definition Qltb (a b : Q) : bool := negb (Qle_bool b a).

Record PresenceChange := mkChange {
  ch_transition : Transition;
  ch_at : Z;
  ch_source : Source;
  ch_visitId : option string;
  ch_rawEventId : option string;
  ch_visitDepartureAt : option Z;
  ch_initial : bool;
  ch_confirmed : bool
}.

Record FixReading := mkFix {
  fx_latitude : Q;
  fx_longitude : Q;
  fx_accuracyM : Q;
  fx_at : Z;
  fx_speedMps : option Q
}.

Record ParsedTransition := mkParsed {
  pt_placeId : string;
  pt_transition : Transition;
  pt_at : Z;
  pt_initial : bool;
  pt_revision : string;
  pt_fix : option FixReading
}.

Inductive ReadingClass := RInside | ROutside | RUncertain | RUnknown.

#[export] Instance ReadingClass_eq_dec : EqDecision ReadingClass.
Proof. solve_decision. Defined.

Section presence.
Context `{PresenceEnv}.

(** ** Geometry *)

(** Great-circle distance in metres. *)
Definition distanceM (lat1 lon1 lat2 lon2 : Q) : Q :=
  let rad := (math_PI / 180)%Q in
  let dLat := ((lat2 - lat1) * rad)%Q in
  let dLon := ((lon2 - lon1) * rad)%Q in
  let sLat := math_sin (dLat / 2)%Q in
  let sLon := math_sin (dLon / 2)%Q in
  let a := (sLat * sLat +
            math_cos (lat1 * rad)%Q * math_cos (lat2 * rad)%Q * (sLon * sLon))%Q in
  let root := math_sqrt a in
  (2 * 6371000 * math_asin (if Qle_bool 1 root then 1%Q else root))%Q.

Definition geometryRevision (p : PlaceRow) : string := pretty (pl_geometryChangedAt p).

Definition fix_distance (f : FixReading) (p : PlaceRow) : Q :=
  distanceM (fx_latitude f) (fx_longitude f) (pl_latitude p) (pl_longitude p).

(** A nearer saved place that contains the reading. *)
Definition nearer_place (f : FixReading) (placeId : string) (distance : Q)
    (owned : list (string * PlaceRow)) : bool :=
  existsb (fun other => bool_decide (other.1 <> placeId) &&
    (let d := fix_distance f other.2 in
     Qltb d distance && Qle_bool d (pl_radiusM other.2 + fx_accuracyM f)%Q)) owned.

Definition classifyReading (f : FixReading) (placeId : string) (p : PlaceRow)
    (owned : list (string * PlaceRow)) : ReadingClass :=
  let distance := fix_distance f p in
  if Qltb FIX_MAX_ACCURACY_M (fx_accuracyM f) then RUnknown
  else if Qltb (pl_radiusM p) (distance - fx_accuracyM f)%Q then ROutside
  else if Qltb (pl_radiusM p) (distance + fx_accuracyM f)%Q then RUncertain
  else if nearer_place f placeId distance owned then RUncertain else RInside.

(** Whether [later] shows the owner stopped. *)
Definition stopped (later : FixReading) (earlier : option FixReading) : bool :=
  match fx_speedMps later with
  | Some v => Qltb v STOPPED_MPS
  | None =>
      match earlier with
      | Some e => Qle_bool (distanceM (fx_latitude later) (fx_longitude later)
                              (fx_latitude e) (fx_longitude e)) STILL_M
      | None => false
      end
  end.

(** ** Payloads *)

Definition crockford (c : Ascii.ascii) : bool :=
  let n := Ascii.N_of_ascii c in
  (((48 <=? n) && (n <=? 57)) || ((65 <=? n) && (n <=? 72)) || (n =? 74) || (n =? 75) ||
   (n =? 77) || (n =? 78) || ((80 <=? n) && (n <=? 84)) || ((86 <=? n) && (n <=? 90)))%N.
Definition is_digit (c : Ascii.ascii) : bool :=
  let n := Ascii.N_of_ascii c in ((48 <=? n) && (n <=? 57))%N.
Fixpoint all_chars (p : Ascii.ascii -> bool) (s : string) : bool :=
  match s with EmptyString => true | String c s => p c && all_chars p s end.

Definition is_place_id (s : string) : bool :=
  (String.length s =? 26)%nat && all_chars crockford s.
Definition is_revision (s : string) : bool :=
  (1 <=? String.length s)%nat && (String.length s <=? 16)%nat && all_chars is_digit s.

Definition finite_number (v : jsval) : option Q :=
  match v with JNum (JFin q) => Some q | _ => None end.

Definition date_member (v : jsval) : option Z := s ← as_string v; date_parse s.

(** A payload's [speed_mps]. *)
Definition speedOf (payload : list (string * jsval)) : option Q :=
  q ← finite_number (field_lookup "speed_mps" payload);
  if Qle_bool 0 q then Some q else None.

Definition Qabs_le (q bound : Q) : bool := Qle_bool (Qabs.Qabs q) bound.

Definition parseFix (value : jsval) : option FixReading :=
  fs ← as_record value;
  latitude ← finite_number (field_lookup "latitude" fs);
  longitude ← finite_number (field_lookup "longitude" fs);
  accuracy ← finite_number (field_lookup "horizontal_accuracy_m" fs);
  if Qabs_le latitude 90 && Qabs_le longitude 180 && Qle_bool 0 accuracy then
    at_ ← date_member (field_lookup "occurred_at" fs);
    Some (mkFix latitude longitude accuracy at_ (speedOf fs))
  else None.

Definition parse_transition (v : jsval) : option Transition :=
  s ← as_string v;
  if bool_decide (s = "entered") then Some Arrived
  else if bool_decide (s = "exited") then Some Departed else None.

Definition parseRegionTransition (value : jsval) : option ParsedTransition :=
  fs ← as_record value;
  placeId ← as_string (field_lookup "place_id" fs);
  transition ← parse_transition (field_lookup "transition" fs);
  initial ← match field_lookup "initial" fs with JBool b => Some b | _ => None end;
  occurredAt ← as_string (field_lookup "occurred_at" fs);
  revision ← as_string (field_lookup "geometry_revision" fs);
  if is_place_id placeId && is_revision revision then
    at_ ← date_parse occurredAt;
    match field_lookup "fix" fs with
    | JUndef | JNull => Some (mkParsed placeId transition at_ initial revision None)
    | v => f ← parseFix v; Some (mkParsed placeId transition at_ initial revision (Some f))
    end
  else None.

(** [raw_envelope->'payload'->>key]. *)
Definition payload_text (key : string) (envelope : jsval) : option string :=
  fs ← as_record envelope;
  payload ← as_record (field_lookup "payload" fs);
  match field_lookup key payload with
  | JUndef | JNull => None
  | JStr s => Some s
  | v => Some (json_text v)
  end.

(** ** Raw events *)

Definition raw_event (owner : string) (id : option string) (d : pdb) : option RawEvent :=
  i ← id;
  e ← rawEvents d !! i;
  if bool_decide (re_createdByUserId e = owner) then Some e else None.

(** The precise reading a raw event carries. *)
Definition storedReading (owner : string) (id : option string) (d : pdb) : option FixReading :=
  e ← raw_event owner id d;
  fs ← as_record (re_rawEnvelope e);
  payload ← as_record (field_lookup "payload" fs);
  match field_lookup "fix" payload with
  | JUndef =>
      point ← as_record (field_lookup "coordinate" payload);
      lat ← finite_number (field_lookup "lat" point);
      lon ← finite_number (field_lookup "lon" point);
      accuracy ← finite_number (field_lookup "horizontal_accuracy_m" payload);
      Some (mkFix lat lon accuracy (re_occurredAt e) (speedOf payload))
  | v => parseFix v
  end.

Definition exitSource (owner : string) (leavingEventId : option string) (d : pdb) : Source :=
  match raw_event owner leavingEventId d with
  | Some e => if bool_decide (re_eventType e = REGION_TRANSITION_TYPE) then Region else Reading
  | None => Region
  end.

Definition arrivalSource (owner : string) (eventId : option string) (placeId : string) (d : pdb)
    : Source :=
  match raw_event owner eventId d with
  | Some e => if bool_decide (re_eventType e = REGION_TRANSITION_TYPE) &&
                 bool_decide (payload_text "place_id" (re_rawEnvelope e) = Some placeId)
              then Region else Reading
  | None => Reading
  end.

(** The same report was received before. *)
Definition isRedelivery (owner rawEventId : string) (parsed : ParsedTransition) (d : pdb) : bool :=
  match rawEvents d !! rawEventId with
  | None => false
  | Some own =>
      existsb (fun x => let id := x.1 in let e := x.2 in
        bool_decide (re_createdByUserId e = owner) &&
        bool_decide (re_eventType e = REGION_TRANSITION_TYPE) &&
        bool_decide (re_occurredAt e = pt_at parsed) && bool_decide (id <> rawEventId) &&
        bool_decide (payload_text "place_id" (re_rawEnvelope e) = Some (pt_placeId parsed)) &&
        bool_decide (payload_text "geometry_revision" (re_rawEnvelope e) = Some (pt_revision parsed)) &&
        ((re_recordedAt e <? re_recordedAt own) ||
         ((re_recordedAt e =? re_recordedAt own) && str_lt id rawEventId)))
        (map_to_list (rawEvents d))
  end.

(** ** Writing *)

Definition draw : PM string :=
  fun d => (ulid (ulids d), mkPdb (presence d) (presenceEvents d) (domains d) (owners d) (places d)
                              (rawEvents d) (S (ulids d))).
Definition insert_event (e : PresenceEvent) : PM unit :=
  pmodify (fun d => mkPdb (presence d) (presenceEvents d ++ [e]) (domains d) (owners d) (places d)
                      (rawEvents d) (ulids d)).
Definition insert_domain (e : DomainEvent) : PM unit :=
  pmodify (fun d => mkPdb (presence d) (presenceEvents d) (domains d ++ [e]) (owners d) (places d)
                      (rawEvents d) (ulids d)).
(** The row of the owner is created when it is not there. *)
Definition next_sequence (owner : string) : PM Z :=
  fun d => let n := (owners d !! owner ?? 0) + 1 in
    (n, mkPdb (presence d) (presenceEvents d) (domains d) (<[owner := n]> (owners d)) (places d)
          (rawEvents d) (ulids d)).

Definition transition_name (t : Transition) : string :=
  match t with Arrived => "arrived" | Departed => "departed" end.

Definition publishPresence (owner placeId : string) (transition : Transition) (at_ : Z)
    (source : Source) (rawEventId visitId : option string) : PM unit :=
  id ← draw;
  insert_event (mkPresenceEvent id placeId transition at_ source visitId rawEventId owner);;
  sequence ← next_sequence owner;
  id' ← draw;
  insert_domain (mkDomain id' id (Some placeId) ("place." +:+ transition_name transition) sequence owner).

Definition presence_row (owner placeId : string) : PM (option PresenceRow) :=
  pget (fun d => presence d !! (owner, placeId)).
Definition put_row (owner placeId : string) (r : PresenceRow) : PM unit :=
  pmodify (fun d => set_presence (<[(owner, placeId) := r]> (presence d)) d).

(** [insert(presence).values({... since ...}).onConflictDoUpdate({set})]. *)
Definition upsert_row (owner placeId : string) (row : option PresenceRow) (since : Z)
    (f : PresenceRow -> PresenceRow) : PM unit :=
  put_row owner placeId (f (row ?? fresh_presence since)).

(** The columns of an arrival, and of a departure, of this place. *)
Definition arrive_row (at_ : Z) (visitId : option string) (r : PresenceRow) : PresenceRow :=
  set_arriving None None (set_approaching None (set_visit visitId (set_lastEntered (Some at_)
    (set_leaving None (set_place Inside at_ r))))).
Definition depart_row (at_ : Z) (r : PresenceRow) : PresenceRow :=
  set_visit None (set_lastEntered None (set_leaving None (set_place Outside at_ r))).
(** A stay that begins while the owner is inside. *)
Definition restay_row (since : Z) (lastEnteredAt : option Z) (visitId : option string)
    (r : PresenceRow) : PresenceRow :=
  set_visit visitId (set_lastEntered lastEnteredAt (set_leaving None (set_place (pr_state r) since r))).

Definition reached (o : option Z) (at_ : Z) : bool :=
  match o with Some t => t <=? at_ | None => false end.

(** ** Applying a change *)

Definition apply_initial (owner placeId : string) (row : option PresenceRow) (c : PresenceChange)
    : PM unit :=
  if match row with Some r => ch_at c <? pr_since r | None => false end then skip
  else upsert_row owner placeId row (ch_at c) (fun r =>
    set_arriving None None (set_approaching None (set_visit None (set_lastEntered
      (match ch_transition c with Arrived => Some (ch_at c) | Departed => None end)
      (set_leaving None (set_place
        (match ch_transition c with Arrived => Inside | Departed => Outside end) (ch_at c) r)))))).

(** An arrival while inside. *)
Definition arrive_inside (owner placeId : string) (r : PresenceRow) (c : PresenceChange) : PM unit :=
  let visitId := match ch_source c with Visit => ch_visitId c | _ => None end in
  if reached (pr_leavingAt r) (ch_at c) then
    let leavingAt := pr_leavingAt r ?? 0 in
    if negb (pr_leavingConfirmed r) || (ch_at c - leavingAt <? DEPARTURE_SETTLE_MS)
    then put_row owner placeId (set_lastEntered (Some (ch_at c))
           (set_confirmed false (set_leaving None r)))
    else
      publishPresence owner placeId Departed leavingAt Region None None;;
      put_row owner placeId (set_visit visitId (set_lastEntered (Some (ch_at c))
        (set_leaving None (set_place Inside (ch_at c) r))));;
      publishPresence owner placeId Arrived (ch_at c) (ch_source c) (ch_rawEventId c) visitId
  else
    let lastEnteredAt := match pr_lastEnteredAt r with
      | Some t => if t <? ch_at c then ch_at c else t
      | None => ch_at c
      end in
    if ostr_truthy visitId && bool_decide (visitId <> pr_visitId r) &&
       (pr_since r <? ch_at c) &&
       (bool_decide (is_Some (pr_visitId r)) || (MISSED_EXIT_MS <? ch_at c - pr_since r))
    then
      put_row owner placeId (restay_row (ch_at c) (Some lastEnteredAt) visitId r);;
      publishPresence owner placeId Arrived (ch_at c) (ch_source c) (ch_rawEventId c) visitId
    else
      let overlaps := match ch_visitDepartureAt c with Some t => pr_since r <=? t | None => true end in
      put_row owner placeId (set_lastEntered (Some lastEnteredAt)
        (if ostr_truthy visitId && negb (ostr_truthy (pr_visitId r)) && overlaps
         then set_visit visitId r else r)).

(** A departure that is certain: a completed visit, or a reading at another place. *)
Definition depart_now (owner placeId : string) (r : PresenceRow) (c : PresenceChange) : PM unit :=
  let visitId := match ch_source c with Visit => ch_visitId c | _ => None end in
  match pr_leavingAt r with
  | Some leftAt =>
      if (leftAt <? ch_at c) && (pr_leavingConfirmed r || (ch_at c - leftAt <=? DEPARTURE_SETTLE_MS))
      then
        put_row owner placeId (depart_row leftAt r);;
        source ← pget (exitSource owner (pr_leavingEventId r));
        publishPresence owner placeId Departed leftAt source (pr_leavingEventId r) visitId
      else
        put_row owner placeId (depart_row (ch_at c) r);;
        publishPresence owner placeId Departed (ch_at c) (ch_source c) (ch_rawEventId c) visitId
  | None =>
      put_row owner placeId (depart_row (ch_at c) r);;
      publishPresence owner placeId Departed (ch_at c) (ch_source c) (ch_rawEventId c) visitId
  end.

(** An exit or a reading outside, while inside: it starts or confirms a wait. *)
Definition depart_wait (owner placeId : string) (r : PresenceRow) (c : PresenceChange) : PM unit :=
  let exit_ := bool_decide (ch_source c = Region) in
  match pr_leavingAt r with
  | None => put_row owner placeId (set_confirmed exit_ (set_leavingEvent (ch_rawEventId c)
              (set_leaving (Some (ch_at c)) r)))
  | Some leavingAt =>
      if negb (pr_leavingConfirmed r) && (exit_ || (DEPARTURE_CONFIRM_MS <=? ch_at c - leavingAt))
      then put_row owner placeId (set_confirmed true r)
      else skip
  end.

(** A departure while inside, not older than the stay. *)
Definition depart_inside (owner placeId : string) (r : PresenceRow) (c : PresenceChange) : PM unit :=
  if bool_decide (ch_source c = Visit) then depart_now owner placeId r c
  else
    match pr_lastEnteredAt r with
    | Some lastEnteredAt =>
        if ch_at c <? lastEnteredAt then
          if bool_decide (ch_source c = Reading) ||
             (lastEnteredAt - ch_at c <? DEPARTURE_SETTLE_MS) then skip
          else
            publishPresence owner placeId Departed (ch_at c) (ch_source c) (ch_rawEventId c) None;;
            put_row owner placeId (set_visit None (set_leaving None
              (set_place (pr_state r) lastEnteredAt r)));;
            publishPresence owner placeId Arrived lastEnteredAt Region None None
        else if ch_confirmed c then depart_now owner placeId r c
        else depart_wait owner placeId r c
    | None => if ch_confirmed c then depart_now owner placeId r c else depart_wait owner placeId r c
    end.

(** A departure while outside: [again] applies the change once more, after an
    arrival that had been waiting long enough. *)
Definition depart_outside (again : PM unit) (owner placeId : string) (r : PresenceRow)
    (c : PresenceChange) : PM unit :=
  let approach := reached (pr_approachingAt r) (ch_at c) in
  let arriving := reached (pr_arrivingAt r) (ch_at c) in
  let arrivedAt := pr_arrivingAt r ?? 0 in
  if arriving && bool_decide (ch_source c = Region) && (ARRIVAL_STAY_MS <=? ch_at c - arrivedAt) then
    put_row owner placeId (arrive_row arrivedAt None r);;
    source ← pget (arrivalSource owner (pr_arrivingEventId r) placeId);
    publishPresence owner placeId Arrived arrivedAt source (pr_arrivingEventId r) None;;
    again
  else if approach || arriving then
    put_row owner placeId ((if arriving then set_arriving None None else fun x => x)
      ((if approach then set_approaching None else fun x => x) r))
  else skip.

Definition apply_once (again : PM unit) (owner placeId : string) (c : PresenceChange) : PM unit :=
  row ← presence_row owner placeId;
  if ch_initial c then apply_initial owner placeId row c
  else
    let visitId := match ch_source c with Visit => ch_visitId c | _ => None end in
    match row, ch_transition c with
    | None, Departed => skip
    | None, Arrived =>
        upsert_row owner placeId None (ch_at c) (arrive_row (ch_at c) visitId);;
        publishPresence owner placeId Arrived (ch_at c) (ch_source c) (ch_rawEventId c) visitId
    | Some r, Arrived =>
        if bool_decide (pr_state r = Inside) then arrive_inside owner placeId r c
        else if ch_at c <? pr_since r then skip
        else
          put_row owner placeId (arrive_row (ch_at c) visitId r);;
          publishPresence owner placeId Arrived (ch_at c) (ch_source c) (ch_rawEventId c) visitId
    | Some r, Departed =>
        if bool_decide (pr_state r = Inside) then
          if ch_at c <? pr_since r then
            if ostr_truthy visitId && bool_decide (pr_visitId r = visitId)
            then put_row owner placeId (set_visit None r) else skip
          else depart_inside owner placeId r c
        else depart_outside again owner placeId r c
    end.

(** The change is applied again at most once: the owner is inside by then. *)
Definition applyPresence (owner placeId : string) (c : PresenceChange) : PM unit :=
  apply_once (apply_once skip owner placeId c) owner placeId c.

(** ** Evidence *)

Definition change_at (transition : Transition) (at_ : Z) (source : Source) (rawEventId : option string)
    : PresenceChange :=
  mkChange transition at_ source None rawEventId None false false.

Definition clearArrival (owner placeId : string) : PM unit :=
  row ← presence_row owner placeId;
  match row with Some r => put_row owner placeId (set_arriving None None r) | None => skip end.

Definition note_row (at_ : Z) (r : PresenceRow) : PresenceRow :=
  set_lastEntered (Some (Z.max (pr_lastEnteredAt r ?? at_) at_)) r.

Definition noteInside (owner placeId : string) (at_ : Z) : PM unit :=
  row ← presence_row owner placeId;
  match row with
  | Some r => if bool_decide (pr_state r = Inside) then put_row owner placeId (note_row at_ r) else skip
  | None => skip
  end.

Definition insideEvidence (owner placeId : string) (at_ : Z) (rawEventId : string)
    (known : option PresenceRow) : PM unit :=
  now_row ← presence_row owner placeId;
  match match known with Some r => Some r | None => now_row end with
  | Some r =>
      if bool_decide (pr_state r = Inside) then
        if reached (pr_leavingAt r) at_
        then applyPresence owner placeId (change_at Arrived at_ Reading (Some rawEventId))
        else noteInside owner placeId at_
      else skip
  | None => skip
  end.

Definition markApproaching (owner placeId : string) (geometryChangedAt at_ : Z) : PM unit :=
  row ← presence_row owner placeId;
  if match row with
     | Some r => bool_decide (pr_state r = Inside) || (at_ <? pr_since r) ||
         match pr_approachingAt r with Some t => at_ <=? t | None => false end
     | None => false
     end then skip
  else upsert_row owner placeId row geometryChangedAt (set_approaching (Some at_)).

(** A confirming reading: the two are far enough apart and the later shows a stop. *)
Definition confirms (first at_ : Z) (fix_ : FixReading) (stored : option FixReading) : bool :=
  (ARRIVAL_CONFIRM_MS <=? Z.abs (at_ - first)) &&
  (if at_ <? first
   then match stored with Some later => stopped later (Some fix_) | None => false end
   else stopped fix_ stored).

(** [at_], [source] and [rawEventId] of the reading, with the reading itself. *)
Definition arriveOnReading (owner placeId : string) (geometryChangedAt at_ : Z) (source : Source)
    (rawEventId : string) (fix_ : FixReading) : PM unit :=
  row ← presence_row owner placeId;
  let start := upsert_row owner placeId row geometryChangedAt
                 (set_arriving (Some at_) (Some rawEventId)) in
  match row with
  | None => start
  | Some r =>
      if bool_decide (pr_state r = Inside)
      then applyPresence owner placeId (change_at Arrived at_ source (Some rawEventId))
      else if at_ <? pr_since r then skip
      else
        match pr_arrivingAt r with
        | None => start
        | Some first =>
            stored ← pget (storedReading owner (pr_arrivingEventId r));
            if confirms first at_ fix_ stored then
              source' ← pget (arrivalSource owner (pr_arrivingEventId r) placeId);
              applyPresence owner placeId
                (if at_ <? first then change_at Arrived at_ source (Some rawEventId)
                 else change_at Arrived first source' (pr_arrivingEventId r));;
              noteInside owner placeId (if at_ <? first then first else at_)
            else if first <=? at_ then skip else start
        end
  end.

(** Saved places of the owner. *)
Definition placesForOwner (owner : string) (d : pdb) : list (string * PlaceRow) :=
  take 200 (List.filter (fun x => bool_decide (pl_createdByUserId x.2 = owner) &&
                                  bool_decide (pl_deletedAt x.2 = None)) (map_to_list (places d))).

(** The place, if it is the owner's and not deleted. *)
Definition live_place (owner placeId : string) (d : pdb) : option PlaceRow :=
  p ← places d !! placeId;
  if bool_decide (pl_createdByUserId p = owner) && bool_decide (pl_deletedAt p = None)
  then Some p else None.

Definition find_place (id : string) (all : list (string * PlaceRow)) : option PlaceRow :=
  JsMap.get id all.

(** The rows of the owner that a select gives, with their places. *)
Definition select_rows (owner : string) (q : string -> PresenceRow -> bool) (d : pdb)
    : list (string * PresenceRow) :=
  omap (fun x => let '((o, p), r) := x in
    if bool_decide (o = owner) && q p r then Some (p, r) else None) (map_to_list (presence d)).

(** [applyReading] works on one snapshot of the rows of the owner. *)
Definition reading_rows (owner : string) (insideIds : list string) : pdb -> list (string * PresenceRow) :=
  select_rows owner (fun p r => bool_decide (pr_state r = Inside) ||
    bool_decide (is_Some (pr_arrivingAt r)) || bool_decide (p ∈ insideIds)).

Definition newest_inside (r : PresenceRow) : Z :=
  Z.max (pr_since r) (pr_lastEnteredAt r ?? 0).

Definition confirmedElsewhereAfter (all : list (string * PlaceRow)) (rows : list (string * PresenceRow))
    (at_ : Z) (id : string) : bool :=
  existsb (fun x => bool_decide (x.1 <> id) && bool_decide (pr_state x.2 = Inside) &&
    match find_place id all, find_place x.1 all with
    | Some here, Some there =>
        Qle_bool (distanceM (pl_latitude here) (pl_longitude here)
                    (pl_latitude there) (pl_longitude there)) NEARBY_PLACE_M
    | _, _ => false
    end && (at_ <? newest_inside x.2)) rows.

(** One place of [applyReading]. *)
Definition reading_at_place (owner : string) (fix_ : FixReading) (rawEventId : string)
    (all : list (string * PlaceRow)) (rows : list (string * PresenceRow)) (insideIds : list string)
    (except : option string) (id : string) : PM unit :=
  match find_place id all with
  | None => skip
  | Some place =>
      let row := JsMap.get id rows in
      if bool_decide (Some id = except) || (fx_at fix_ <? pl_geometryChangedAt place) ||
         match row with Some r => fx_at fix_ <? pr_since r | None => false end
      then skip
      else
        let state := classifyReading fix_ id place all in
        let elsewhere := existsb (fun other => bool_decide (other <> id)) insideIds &&
                         bool_decide (state <> RUnknown) in
        match row with
        | Some r =>
            if bool_decide (pr_state r = Inside) then
              if bool_decide (state = RInside) then insideEvidence owner id (fx_at fix_) rawEventId (Some r)
              else if elsewhere then
                applyPresence owner id
                  (mkChange Departed (fx_at fix_) Reading None (Some rawEventId) None false true)
              else if bool_decide (state = ROutside) then
                applyPresence owner id (change_at Departed (fx_at fix_) Reading (Some rawEventId))
              else skip
            else if bool_decide (state = RInside) && negb (confirmedElsewhereAfter all rows (fx_at fix_) id)
            then arriveOnReading owner id (pl_geometryChangedAt place) (fx_at fix_) Reading rawEventId fix_
            else if reached (pr_arrivingAt r) (fx_at fix_) && (bool_decide (state = ROutside) || elsewhere)
            then clearArrival owner id
            else skip
        | None =>
            if bool_decide (state = RInside) && negb (confirmedElsewhereAfter all rows (fx_at fix_) id)
            then arriveOnReading owner id (pl_geometryChangedAt place) (fx_at fix_) Reading rawEventId fix_
            else skip
        end
  end.

Definition row_inside (rows : list (string * PresenceRow)) (id : string) : bool :=
  match JsMap.get id rows with Some r => bool_decide (pr_state r = Inside) | None => false end.

Definition inside_ids (fix_ : FixReading) (all : list (string * PlaceRow)) : list string :=
  (List.filter (fun x => bool_decide (classifyReading fix_ x.1 x.2 all = RInside)) all).*1.

(** Stays first, so departures come before arrivals (the sort is stable). *)
Definition reading_order (rows : list (string * PresenceRow)) (insideIds : list string) : list string :=
  let candidates := JsSet.of_list (rows.*1 ++ insideIds) in
  List.filter (row_inside rows) candidates ++ List.filter (fun id => negb (row_inside rows id)) candidates.

Definition applyReading (owner : string) (fix_ : FixReading) (rawEventId : string)
    (owned : option (list (string * PlaceRow))) (except : option string) : PM unit :=
  if Qltb FIX_MAX_ACCURACY_M (fx_accuracyM fix_) then skip
  else
    mine ← pget (placesForOwner owner);
    let all := owned ?? mine in
    let insideIds := inside_ids fix_ all in
    rows ← pget (reading_rows owner insideIds);
    pfor (reading_order rows insideIds)
      (reading_at_place owner fix_ rawEventId all rows insideIds except).

(** ** Geofence reports *)

Definition region_change (transition : Transition) (at_ : Z) (rawEventId : string) (initial : bool)
    : PresenceChange :=
  mkChange transition at_ Region None (Some rawEventId) None initial false.

(** What the report says about its own place, given how its reading classifies. *)
Definition apply_report (owner rawEventId : string) (parsed : ParsedTransition) (place : PlaceRow)
    (initial : bool) (reading : ReadingClass) : PM unit :=
  let apply := fun t =>
    applyPresence owner (pt_placeId parsed) (region_change t (pt_at parsed) rawEventId initial) in
  match reading, pt_fix parsed with
  | RUnknown, _ | _, None => apply (pt_transition parsed)
  | _, Some fix_ =>
      if initial then apply (if bool_decide (reading = RInside) then Arrived else Departed)
      else
        match pt_transition parsed with
        | Arrived =>
            if bool_decide (reading = RInside)
            then arriveOnReading owner (pt_placeId parsed) (pl_geometryChangedAt place) (pt_at parsed)
                   Region rawEventId fix_
            else markApproaching owner (pt_placeId parsed) (pl_geometryChangedAt place) (pt_at parsed)
        | Departed =>
            match reading with
            | ROutside => apply Departed
            | RInside => insideEvidence owner (pt_placeId parsed) (fx_at fix_) rawEventId None
            | _ => skip
            end
        end
  end.

(** False when the payload is no report. *)
Definition processRegionTransition (owner rawEventId : string) (payload : jsval) : PM bool :=
  match parseRegionTransition payload with
  | None => mret false
  | Some parsed =>
      found ← pget (live_place owner (pt_placeId parsed));
      redelivery ← pget (isRedelivery owner rawEventId parsed);
      match found with
      | None => mret true
      | Some place =>
          if bool_decide (pt_revision parsed <> geometryRevision place) || redelivery then mret true
          else
            let initial := pt_initial parsed || (pt_at parsed <? pl_geometryChangedAt place) in
            owned ← pget (placesForOwner owner);
            let reading := match pt_fix parsed with
              | Some f => classifyReading f (pt_placeId parsed) place owned
              | None => RUnknown
              end in
            let others := match pt_fix parsed with
              | Some f => if bool_decide (reading <> RUnknown) && negb initial
                          then applyReading owner f rawEventId (Some owned) (Some (pt_placeId parsed))
                          else skip
              | None => skip
              end in
            (if bool_decide (pt_transition parsed = Arrived) then others else skip);;
            apply_report owner rawEventId parsed place initial reading;;
            (if bool_decide (pt_transition parsed = Departed) then others else skip);;
            mret true
      end
  end.

(** ** Visits *)

Record VisitRow := mkVisit {
  v_id : string;
  v_latitude : Q;
  v_longitude : Q;
  v_horizontalAccuracyM : Q;
  v_startedAt : Z;
  v_arrivalAt : option Z;
  v_departureAt : option Z
}.

Definition Qmin (a b : Q) : Q := if Qle_bool a b then a else b.

Definition visit_distance (v : VisitRow) (p : PlaceRow) : Q :=
  distanceM (v_latitude v) (v_longitude v) (pl_latitude p) (pl_longitude p).

Definition visitAtPlace (v : VisitRow) (p : PlaceRow) : bool :=
  Qle_bool (visit_distance v p) (pl_radiusM p + Qmin (v_horizontalAccuracyM v) 200)%Q.

(** The nearest place the visit matches, the first of equals. *)
Definition visitPlace (owned : list (string * PlaceRow)) (v : VisitRow) : option (string * PlaceRow) :=
  fst <$> foldl (fun nearest p =>
    if visitAtPlace v p.2 then
      let distance := visit_distance v p.2 in
      match nearest with
      | Some (_, best) => if Qltb distance best then Some (p, distance) else nearest
      | None => Some (p, distance)
      end
    else nearest) None owned.

(** Order of events at a place: by time, then by id. *)
Definition event_before (a b : PresenceEvent) : bool :=
  (pe_occurredAt a <? pe_occurredAt b) ||
  ((pe_occurredAt a =? pe_occurredAt b) && str_lt (pe_id a) (pe_id b)).
Definition event_le (a b : PresenceEvent) : Prop := event_before b a = false.
#[local] Instance event_le_dec : RelDecision event_le.
Proof. intros a b. unfold event_le. apply _. Defined.

Definition place_events (owner placeId : string) (d : pdb) : list PresenceEvent :=
  merge_sort event_le (List.filter (fun e => bool_decide (pe_createdByUserId e = owner) &&
    bool_decide (pe_placeId e = placeId)) (presenceEvents d)).

(** How long presence had the owner at a place; stays that a visit started do not
    count. *)
Definition presenceDuringMs (owner placeId : string) (start : Z) (end_ : option Z) (now : Z) (d : pdb)
    : Z :=
  let mine := place_events owner placeId d in
  let before := last (List.filter (fun e => pe_occurredAt e <? start) mine) in
  let during := List.filter (fun e => (start <=? pe_occurredAt e) &&
    match end_ with Some t => pe_occurredAt e <? t | None => true end) mine in
  let from := match before with
    | Some e => if bool_decide (pe_transition e = Arrived) && bool_decide (pe_source e <> Visit)
                then Some start else None
    | None => None
    end in
  let '(total, from) := foldl (fun '(total, from) e =>
    match pe_transition e with
    | Departed => (match from with Some f => total + (pe_occurredAt e - f) | None => total end, None)
    | Arrived => (total, match from with
        | None => if bool_decide (pe_source e <> Visit) then Some (pe_occurredAt e) else None
        | Some f => Some f
        end)
    end) (0, from) during in
  match from with Some f => total + (end_ ?? now) - f | None => total end.

Definition placeOfVisit (owner : string) (owned : list (string * PlaceRow)) (v : VisitRow) (now : Z)
    (d : pdb) : option (string * PlaceRow) :=
  let fits := List.filter (fun p => visitAtPlace v p.2) owned in
  match fits with
  | [] => None
  | [p] => Some p
  | _ =>
      let best := foldl (fun best p =>
        let ms := presenceDuringMs owner p.1 (v_arrivalAt v ?? v_startedAt v) (v_departureAt v) now d in
        if (0 <? ms) && match best with Some (_, b) => b <? ms | None => true end
        then Some (p, ms) else best) None fits in
      match best with Some (p, _) => Some p | None => visitPlace fits v end
  end.

Definition visit_change (transition : Transition) (at_ : Z) (v : VisitRow) : PresenceChange :=
  mkChange transition at_ Visit (Some (v_id v)) None (v_departureAt v) false false.

(** A completed visit has its departure. *)
Definition publishVisitEvents (owner : string) (v : VisitRow) (arrived completed : bool) (now : Z)
    : PM unit :=
  if negb arrived && negb completed then skip
  else
    owned ← pget (fun d => List.filter (fun x => bool_decide (pl_createdByUserId x.2 = owner) &&
               bool_decide (pl_deletedAt x.2 = None)) (map_to_list (places d)));
    place ← pget (placeOfVisit owner owned v now);
    let at_ := match place with
      | Some p => if pl_geometryChangedAt p.2 <=? v_startedAt v then [p.1] else []
      | None => []
      end in
    (if arrived then pfor at_ (fun id => applyPresence owner id
       (visit_change Arrived (v_arrivalAt v ?? v_startedAt v) v)) else skip);;
    if completed then
      linked ← pget (fun d => (select_rows owner (fun _ r =>
        bool_decide (pr_visitId r = Some (v_id v)) && bool_decide (pr_state r = Inside)) d).*1);
      let ending := at_ ++ List.filter (fun id => bool_decide (id ∉ at_) && bool_decide (id ∈ linked))
                             owned.*1 in
      pfor ending (fun id => applyPresence owner id
        (visit_change Departed (v_departureAt v ?? 0) v));;
      sequence ← next_sequence owner;
      id ← draw;
      known ← pget (fun d => existsb (fun e => bool_decide (de_subject e = v_id v) &&
        bool_decide (de_eventType e = "visit.ended")) (domains d));
      if (known : bool) then skip
      else insert_domain (mkDomain id (v_id v) None "visit.ended" sequence owner)
    else skip.

(** ** Departures that stayed out, and moved places *)

Definition departure_due (now : Z) (r : PresenceRow) : bool :=
  match pr_leavingAt r with
  | Some t => pr_leavingConfirmed r && (t <=? now - DEPARTURE_SETTLE_MS)
  | None => false
  end.

Definition settle_row (owner placeId : string) (r : PresenceRow) : PM unit :=
  match pr_leavingAt r with
  | Some leavingAt =>
      put_row owner placeId (depart_row leavingAt r);;
      source ← pget (exitSource owner (pr_leavingEventId r));
      publishPresence owner placeId Departed leavingAt source (pr_leavingEventId r) None
  | None => skip
  end.

(** The transaction of [settleDepartures] for one owner. *)
Definition settle_owner (owner : string) (now : Z) : PM bool :=
  rows ← pget (select_rows owner (fun _ r =>
    bool_decide (pr_state r = Inside) && departure_due now r));
  pfor rows (fun x => settle_row owner x.1 x.2);;
  mret (negb (bool_decide (rows = []))).

(** The owner of the earliest wait that is due. *)
Definition due_owner (now : Z) (d : pdb) : option string :=
  fst <$> foldr (fun (x : string * string * PresenceRow) (best : option (string * Z)) =>
    let '((o, _), r) := x in
    if departure_due now r then
      match best with
      | Some (_, t) => if t <? (pr_leavingAt r ?? 0) then best else Some (o, pr_leavingAt r ?? 0)
      | None => Some (o, pr_leavingAt r ?? 0)
      end
    else best) None (map_to_list (presence d)).

(** Nothing happens for an owner without a state row, or whose row is [locked]. *)
Definition settleDepartures (now : Z) (locked : bool) : PM bool :=
  candidate ← pget (due_owner now);
  match candidate with
  | Some owner =>
      state ← pget (fun d => owners d !! owner);
      if locked || bool_decide (state = None) then mret false else settle_owner owner now
  | None => mret false
  end.

Definition resetPresence (owner placeId : string) : PM unit :=
  pmodify (fun d => set_presence (delete (owner, placeId) (presence d)) d).

(** ** Saved places *)

Definition places_per_owner : nat := 200.

(** [Places.create], its input validated; [None] at the limit. *)
Definition create_place (owner : string) (latitude longitude radiusM : Q) (now : Z)
    : PM (option string) :=
  pmodify (fun d => mkPdb (presence d) (presenceEvents d) (domains d)
    (<[owner := owners d !! owner ?? 0]> (owners d)) (places d) (rawEvents d) (ulids d));;
  count ← pget (fun d => length (List.filter (fun x => bool_decide (pl_createdByUserId x.2 = owner) &&
             bool_decide (pl_deletedAt x.2 = None)) (map_to_list (places d))));
  if (places_per_owner <=? count)%nat then mret None
  else
    id ← draw;
    pmodify (fun d => set_places
      (<[id := mkPlace latitude longitude radiusM now None owner]> (places d)) d);;
    mret (Some id).

(** [Places.update]: a new centre or radius resets the presence of the place. *)
Definition update_place (owner placeId : string) (centre : option (Q * Q)) (radiusM : option Q) (now : Z)
    : PM bool :=
  row ← pget (live_place owner placeId);
  match row with
  | Some p =>
      let geometry := bool_decide (is_Some centre) || bool_decide (is_Some radiusM) in
      let '(latitude, longitude) := centre ?? (pl_latitude p, pl_longitude p) in
      pmodify (fun d => set_places (<[placeId := mkPlace latitude longitude (radiusM ?? pl_radiusM p)
        (if geometry then now else pl_geometryChangedAt p) None owner]> (places d)) d);;
      (if geometry then resetPresence owner placeId else skip);;
      mret true
  | None => mret false
  end.

(** [Places.delete]. *)
Definition delete_place (owner placeId : string) (now : Z) : PM bool :=
  row ← pget (live_place owner placeId);
  match row with
  | Some p =>
      pmodify (fun d => set_places (<[placeId := mkPlace (pl_latitude p) (pl_longitude p)
        (pl_radiusM p) (pl_geometryChangedAt p) (Some now) owner]> (places d)) d);;
      mret true
  | None => mret false
  end.

(** ** What runs under the owner lock *)

Inductive PresenceOp :=
  | ReportOp (owner rawEventId : string) (payload : jsval)
  | ReadingOp (owner : string) (fix_ : FixReading) (rawEventId : string)
  | VisitOp (owner : string) (v : VisitRow) (arrived completed : bool) (now : Z)
  | SettleOp (now : Z) (locked : bool)
  | CreateOp (owner : string) (latitude longitude radiusM : Q) (now : Z)
  | UpdateOp (owner placeId : string) (centre : option (Q * Q)) (radiusM : option Q) (now : Z)
  | DeleteOp (owner placeId : string) (now : Z)
  | RecordOp (id : string) (e : RawEvent).   (** an event is stored, before it is processed *)

Definition run_op (op : PresenceOp) : PM unit :=
  match op with
  | ReportOp owner raw payload => processRegionTransition owner raw payload;; skip
  | ReadingOp owner f raw => applyReading owner f raw None None
  | VisitOp owner v arrived completed now => publishVisitEvents owner v arrived completed now
  | SettleOp now locked => settleDepartures now locked;; skip
  | CreateOp owner latitude longitude radiusM now => create_place owner latitude longitude radiusM now;; skip
  | UpdateOp owner placeId centre radiusM now => update_place owner placeId centre radiusM now;; skip
  | DeleteOp owner placeId now => delete_place owner placeId now;; skip
  | RecordOp id e => pmodify (fun d => set_rawEvents (<[id := e]> (rawEvents d)) d)
  end.

Definition run_ops (ops : list PresenceOp) : PM unit := pfor ops run_op.
End presence.
