(* ===== verification/PresenceProps.v ===== *)
(** Place presence: what every operation does to the rows and to the published
    timeline of each place ([Presence]).

    [emits] reads off what a program writes at one place; [tells] is the
    Hoare-style statement about all places of an operation, with a rule for
    each way the code composes them. *)
From Stdlib Require Import ZArith QArith Lia.
From stdpp Require Import base tactics strings gmap sorting option.
From stdpp Require Import list.
From S2P Require Import Prelude JsRuntime Presence.
Open Scope Z_scope.

Create HintDb presence.

(** ** The row of a place *)

(** Inside: since when, the newest evidence of it, and a wait that began after
    that.  Outside: nothing of a stay is left, and what is expected came after. *)
Record row_ok (r : PresenceRow) : Prop := {
  ok_inside : pr_state r = Inside -> exists t,
    pr_lastEnteredAt r = Some t /\ pr_since r <= t /\
    (forall l, pr_leavingAt r = Some l -> t <= l) /\
    pr_arrivingAt r = None /\ pr_approachingAt r = None;
  ok_outside : pr_state r = Outside ->
    pr_lastEnteredAt r = None /\ pr_leavingAt r = None /\ pr_visitId r = None /\
    (forall a, pr_arrivingAt r = Some a -> pr_since r <= a) /\
    (forall a, pr_approachingAt r = Some a -> pr_since r <= a)
}.

Lemma row_ok_inside r t :
  pr_state r = Inside -> pr_lastEnteredAt r = Some t -> pr_since r <= t ->
  (forall l, pr_leavingAt r = Some l -> t <= l) ->
  pr_arrivingAt r = None -> pr_approachingAt r = None -> row_ok r.
Proof. intros. split; [eauto 10|congruence]. Qed.

Lemma row_ok_outside r :
  pr_state r = Outside -> pr_lastEnteredAt r = None -> pr_leavingAt r = None ->
  pr_visitId r = None ->
  (forall a, pr_arrivingAt r = Some a -> pr_since r <= a) ->
  (forall a, pr_approachingAt r = Some a -> pr_since r <= a) -> row_ok r.
Proof. intros. split; [congruence|auto]. Qed.

(** ** Times in order *)

Definition le_opt (a b : option Z) : Prop :=
  match a, b with
  | None, _ => True
  | Some a, Some b => a <= b
  | Some _, None => False
  end.

#[export] Instance le_opt_refl : Reflexive le_opt.
Proof. intros [x|]; simpl; [lia|done]. Qed.
#[export] Instance le_opt_trans : Transitive le_opt.
Proof. intros [x|] [y|] [z|]; simpl; try done; lia. Qed.

(** Times that follow each other from [lo] to [hi]. *)
Inductive in_order : option Z -> list Z -> option Z -> Prop :=
  | in_order_nil lo hi : le_opt lo hi -> in_order lo [] hi
  | in_order_cons lo t ts hi :
      le_opt lo (Some t) -> in_order (Some t) ts hi -> in_order lo (t :: ts) hi.

Lemma in_order_weaken lo lo' ts hi :
  le_opt lo' lo -> in_order lo ts hi -> in_order lo' ts hi.
Proof.
  intros Hl Ht. inversion Ht; subst; constructor; by (etrans; [exact Hl|]) || done.
Qed.

Lemma in_order_app lo ts mid ts' hi :
  in_order lo ts mid -> in_order mid ts' hi -> in_order lo (ts ++ ts') hi.
Proof.
  induction 1 as [lo hi0 Hl|lo t ts hi0 Hl _ IH]; intros Ht'; simpl.
  - by eapply in_order_weaken.
  - constructor; [done|]. by apply IH.
Qed.

(** ** Stays *)

(** Away from the place, or at it since when and by which visit. *)
Inductive stay := Away | Staying (since : Z) (visit : option string).

(** What an event says, its place and ids aside: what, when, from where, for which visit. *)
Definition core : Type := Transition * Z * Source * option string.
Definition core_of (e : PresenceEvent) : core :=
  (pe_transition e, pe_occurredAt e, pe_source e, pe_visitId e).
Definition core_transition (c : core) : Transition := c.1.1.1.
Definition core_at (c : core) : Z := c.1.1.2.

(** What may be said of a place, [V] the visits of the owner that were reported.  Arrivals
    and departures take turns, but for one case: a visit that is not the one of the stay
    begins another stay when the stay is a visit's already, or has lasted for over
    [MISSED_EXIT_MS].  A reported visit may be linked to a stay without one, or turn out
    to be no part of it; nothing is said then. *)
Inductive timeline (V : string -> Prop) : stay -> list core -> stay -> Prop :=
  | tl_nil s : timeline V s [] s
  | tl_arrive t source v l s :
      timeline V (Staying t v) l s -> timeline V Away ((Arrived, t, source, v) :: l) s
  | tl_depart t source v since v0 l s :
      timeline V Away l s -> timeline V (Staying since v0) ((Departed, t, source, v) :: l) s
  | tl_again t v since v0 l s :
      V v -> str_truthy v = true -> v0 <> Some v -> since < t ->
      (is_Some v0 \/ MISSED_EXIT_MS < t - since) ->
      timeline V (Staying t (Some v)) l s ->
      timeline V (Staying since v0) ((Arrived, t, Visit, Some v) :: l) s
  | tl_link v since v0 l s :
      V v -> str_truthy v = true -> ostr_truthy v0 = false ->
      timeline V (Staying since (Some v)) l s -> timeline V (Staying since v0) l s
  | tl_unlink v since l s :
      V v -> timeline V (Staying since None) l s -> timeline V (Staying since (Some v)) l s.

Lemma timeline_app V s l s' l' s'' :
  timeline V s l s' -> timeline V s' l' s'' -> timeline V s (l ++ l') s''.
Proof.
  intros Hl Hl'. induction Hl; simpl; [done| | | | |].
  - by apply tl_arrive, IHHl.
  - by apply tl_depart, IHHl.
  - apply tl_again; auto.
  - eapply tl_link; eauto.
  - eapply tl_unlink; eauto.
Qed.

(** ** Histories *)

Definition since_of (row : option PresenceRow) : option Z := pr_since <$> row.
Definition state_of (row : option PresenceRow) : PresenceState :=
  match row with Some r => pr_state r | None => Outside end.
Definition stay_of (row : option PresenceRow) : stay :=
  match row with
  | Some r => match pr_state r with
              | Inside => Staying (pr_since r) (pr_visitId r)
              | Outside => Away
              end
  | None => Away
  end.

(** From a row to a row, saying [said]; [live] when no report is a baseline. *)
Record history (V : string -> Prop) (live : bool) (row : option PresenceRow) (said : list core)
    (row' : option PresenceRow) : Prop := {
  hist_order : in_order (since_of row) (core_at <$> said) (since_of row');
  hist_turn : live = true -> timeline V (stay_of row) said (stay_of row')
}.

Lemma history_refl V live row : history V live row [] row.
Proof. split; [by constructor|constructor]. Qed.

Lemma history_app V live row said row' said' row'' :
  history V live row said row' -> history V live row' said' row'' ->
  history V live row (said ++ said') row''.
Proof.
  intros [O T] [O' T']. split.
  - rewrite fmap_app. by eapply in_order_app.
  - intros HL. eapply timeline_app; eauto.
Qed.

Lemma history_live V live row said row' :
  history V true row said row' -> history V live row said row'.
Proof. intros [O T]. split; auto. Qed.

#[export] Hint Resolve history_refl : presence.

(** ** What a program writes *)

Notation place_key := (string * string)%type (only parsing).

Definition on_place (k : place_key) (e : PresenceEvent) : Prop :=
  (pe_createdByUserId e, pe_placeId e) = k.
#[export] Instance on_place_dec k e : Decision (on_place k e).
Proof. unfold on_place. apply _. Defined.
Definition events_of (k : place_key) (es : list PresenceEvent) : list PresenceEvent :=
  filter (on_place k) es.

Lemma events_of_app k es es' : events_of k (es ++ es') = events_of k es ++ events_of k es'.
Proof. apply filter_app. Qed.

Lemma events_of_on k es : Forall (on_place k) es -> events_of k es = es.
Proof. apply filter_all. Qed.

Lemma events_of_off k k' es : k <> k' -> Forall (on_place k) es -> events_of k' es = [].
Proof.
  intros Hk He. apply filter_none. eapply Forall_impl; [exact He|].
  unfold on_place. congruence.
Qed.

(** The programs below write one place: [said] to the events, [row'] to the row. *)
Definition emits {A} (k : place_key) (said : list core) (row' : option PresenceRow) (m : PM A)
    (d : pdb) : Prop :=
  presence (m d).2 = match row' with Some r => <[k := r]> (presence d) | None => presence d end /\
  places (m d).2 = places d /\ rawEvents (m d).2 = rawEvents d /\
  exists es, presenceEvents (m d).2 = presenceEvents d ++ es /\
    Forall (on_place k) es /\ core_of <$> es = said.

Section emits.
Context `{PresenceEnv}.
Implicit Types (k : place_key) (d : pdb).

Lemma emits_ret {A} k (x : A) d : emits k [] None (mret x) d.
Proof. repeat split. exists []. by rewrite app_nil_r. Qed.

Lemma emits_skip k d : emits k [] None skip d.
Proof. apply emits_ret. Qed.

Lemma emits_put k r d : emits k [] (Some r) (put_row k.1 k.2 r) d.
Proof. destruct k. repeat split. exists []. by rewrite app_nil_r. Qed.

Lemma emits_put_here owner p r d : emits (owner, p) [] (Some r) (put_row owner p r) d.
Proof. apply (emits_put (owner, p)). Qed.

Lemma emits_publish owner p t at_ source raw visit d :
  emits (owner, p) [(t, at_, source, visit)] None (publishPresence owner p t at_ source raw visit) d.
Proof.
  repeat split. eexists. split; [reflexivity|]. split; [|reflexivity]. by constructor.
Qed.

Lemma emits_get {A B} k said row' (f : pdb -> A) (m : A -> PM B) d :
  emits k said row' (m (f d)) d -> emits k said row' (pget f ≫= m) d.
Proof. done. Qed.

Lemma emits_seq {A B} k said row said' row' (m : PM A) (n : PM B) d :
  emits k said row m d -> emits k said' row' n (m d).2 ->
  emits k (said ++ said') (match row' with Some _ => row' | None => row end) (m;; n) d.
Proof.
  intros (Ep & Epl & Era & es & Ee & Fe & <-) (Ep' & Epl' & Era' & es' & Ee' & Fe' & <-).
  unfold emits, mbind, PM_bind. destruct (m d) as [x d']. simpl in *.
  repeat split; [|congruence..|].
  - rewrite Ep', Ep. destruct row'; [|done]. destruct row; [by rewrite insert_insert_eq|done].
  - exists (es ++ es'). rewrite Ee', Ee, (assoc_L (++)), fmap_app. split_and!; [done| |done].
    by apply Forall_app.
Qed.
End emits.

(** ** Statements about every place *)

(** The visits of each owner that are reported. *)
Class Reported := reported : string -> string -> Prop.

Definition good (d : pdb) : Prop := forall k r, presence d !! k = Some r -> row_ok r.

(** From a good state, the operation touches the places of [on] only, and tells a
    history of each place. *)
Definition tells_at `{Reported} {A} (on : place_key -> Prop) (live : place_key -> bool) (m : PM A) (d : pdb)
    : Prop :=
  good d ->
  good (m d).2 /\
  (forall k, ~ on k -> presence (m d).2 !! k = presence d !! k) /\
  exists es, presenceEvents (m d).2 = presenceEvents d ++ es /\
    forall k, history (reported k.1) (live k) (presence d !! k) (core_of <$> events_of k es) (presence (m d).2 !! k).

Definition tells `{Reported} {A} (on : place_key -> Prop) (live : place_key -> bool) (m : PM A) : Prop :=
  forall d, tells_at on live m d.

Section tells.
Context `{PresenceEnv} `{Reported}.
Implicit Types (k : place_key) (d : pdb) (on : place_key -> Prop) (live : place_key -> bool).

(** A program that leaves rows and events. *)
Lemma tells_silent {A} on live (m : PM A) d :
  presence (m d).2 = presence d -> presenceEvents (m d).2 = presenceEvents d ->
  tells_at on live m d.
Proof.
  intros Ep Ee Hg. unfold good. rewrite Ep. split_and!; [exact Hg|done|].
  exists []. rewrite app_nil_r. split; [done|]. intros k. apply history_refl.
Qed.

Lemma tells_ret {A} on live (x : A) d : tells_at on live (mret x) d.
Proof. by apply tells_silent. Qed.

Lemma tells_bind {A B} on live (m : PM A) (f : A -> PM B) d :
  tells_at on live m d -> tells_at on live (f (m d).1) (m d).2 -> tells_at on live (m ≫= f) d.
Proof.
  intros Hm Hf Hg. destruct (Hm Hg) as (Hg1 & Hoff1 & es1 & Ee1 & Hh1).
  destruct (Hf Hg1) as (Hg2 & Hoff2 & es2 & Ee2 & Hh2).
  unfold mbind, PM_bind. destruct (m d) as [x d']. simpl in *. split_and!; [done| |].
  - intros k Hk. rewrite Hoff2, Hoff1; done.
  - exists (es1 ++ es2). rewrite Ee2, Ee1, (assoc_L (++)). split; [done|]. intros k.
    rewrite events_of_app, fmap_app. eapply history_app; [apply Hh1|apply Hh2].
Qed.

Lemma tells_good {A} on live (m : PM A) d :
  (good d -> tells_at on live m d) -> tells_at on live m d.
Proof. intros Hm Hg. by apply Hm. Qed.

Lemma tells_ext {A} on live (m m' : PM A) d :
  m d = m' d -> tells_at on live m' d -> tells_at on live m d.
Proof. unfold tells_at. by intros ->. Qed.

Lemma tells_get {A B} on live (f : pdb -> A) (m : A -> PM B) d :
  tells_at on live (m (f d)) d -> tells_at on live (pget f ≫= m) d.
Proof. done. Qed.

Lemma tells_weaken {A} on on' live live' (m : PM A) d :
  (forall k, on k -> on' k) -> (forall k, live' k = true -> live k = true) ->
  tells_at on live m d -> tells_at on' live' m d.
Proof.
  intros Hon Hlive Hm Hg. destruct (Hm Hg) as (Hg1 & Hoff & es & Ee & Hh).
  split_and!; [done|auto|]. exists es. split; [done|]. intros k. destruct (Hh k) as [O T].
  split; auto.
Qed.

(** What a program writes at one place, as a statement about all. *)
Lemma emits_tells {A} k live said row' (m : PM A) d :
  emits k said row' m d ->
  (good d -> (forall r, row' = Some r -> row_ok r) /\
             history (reported k.1) (live k) (presence d !! k) said
               (match row' with Some _ => row' | None => presence d !! k end)) ->
  tells_at (fun k' => k' = k) live m d.
Proof.
  intros (Ep & _ & _ & es & Ee & Fe & Es) Hr Hg. destruct (Hr Hg) as [Hok Hh]. split_and!.
  - intros k' r. rewrite Ep. destruct row' as [r'|]; [|apply Hg].
    intros [[<- <-]|[_ Hk]]%lookup_insert_Some; [by apply Hok|by eapply Hg].
  - intros k' Hk. rewrite Ep. destruct row'; [by rewrite lookup_insert_ne|done].
  - exists es. split; [done|]. intros k'. rewrite Ep. destruct (decide (k = k')) as [<-|Hk].
    + rewrite events_of_on by done. rewrite Es. destruct row'; [by rewrite lookup_insert_eq|done].
    + rewrite (events_of_off k k') by done. destruct row'; [rewrite lookup_insert_ne by done|];
        apply history_refl.
Qed.

(** A loop over rows of distinct places, taken from a snapshot: [P] is what the
    snapshot says of a row. *)
Lemma tells_for {X} live (key : X -> place_key) (P : X -> option PresenceRow -> Prop)
    (body : X -> PM unit) xs d :
  NoDup (key <$> xs) ->
  (forall x, x ∈ xs -> P x (presence d !! key x)) ->
  (forall x d, x ∈ xs -> P x (presence d !! key x) ->
     tells_at (fun k => k = key x) live (body x) d) ->
  tells_at (fun k => k ∈ key <$> xs) live (pfor xs body) d.
Proof.
  revert d. induction xs as [|x xs IH]; intros d Hnd Hp Hb; [apply tells_ret|].
  rewrite fmap_cons in Hnd |- *. apply NoDup_cons in Hnd as [Hx Hnd]. intros Hg.
  assert (Hbx : tells_at (fun k => k = key x) live (body x) d) by (apply Hb; [left|apply Hp; left]).
  destruct (Hbx Hg) as (_ & Hoff & _). revert Hg. apply tells_bind.
  - apply (tells_weaken (fun k => k = key x) _ live live); [|done|exact Hbx]. intros k ->. left.
  - apply (tells_weaken (fun k => k ∈ key <$> xs) _ live live); [by right|done|].
    apply IH; [done| |intros; apply Hb; [by right|done]].
    intros y Hy. rewrite Hoff; [apply Hp; by right|].
    intros E. apply Hx. rewrite <-E. by apply list_elem_of_fmap_2.
Qed.
End tells.

(** ** Applying a change *)

(** Read off what a program writes. *)
Ltac place_step :=
  lazymatch goal with
  | |- emits _ _ _ skip _ => apply emits_skip
  | |- emits _ _ _ (put_row _ _ _) _ => apply emits_put_here
  | |- emits _ _ _ (upsert_row _ _ _ _ _) _ => apply emits_put_here
  | |- emits _ _ _ (publishPresence _ _ _ _ _ _ _) _ => apply emits_publish
  | |- emits _ _ _ (pget _ ≫= _) _ => apply emits_get; cbv beta; place_step
  | |- emits _ _ _ (_ ≫= (fun _ => _)) _ => eapply emits_seq; [place_step | place_step]
  end.

(** The new row is well formed and the events are in order and in turn. *)
Ltac place_row :=
  first [ eapply row_ok_inside; simpl; [first [reflexivity|eassumption]|first [reflexivity|eassumption]|..]
        | eapply row_ok_outside; simpl; [first [reflexivity|eassumption]|..] ];
  try done; try lia; intros; simplify_eq/=; try done; try lia; auto with lia.

Ltac place_history :=
  split;
  [ repeat first [apply in_order_cons | apply in_order_nil]; unfold core_at; simpl; try done; try lia
  | intros _; simpl; try match goal with E : pr_state _ = _ |- _ => rewrite E end;
    repeat first [apply tl_nil | apply tl_arrive | apply tl_depart] ].

Ltac emitted Hrow :=
  eapply emits_tells; [place_step|]; rewrite ?Hrow; simpl; intros _;
  split; [intros ? [= <-]; place_row | place_history].

Section applying.
Context `{PresenceEnv} `{Reported}.
Implicit Types (d : pdb) (r : PresenceRow) (c : PresenceChange) (live : place_key -> bool).

(** The change of a visit is one of the visits reported. *)
Definition visit_known (owner : string) (c : PresenceChange) : Prop :=
  forall v, ch_source c = Visit -> ch_visitId c = Some v -> reported owner v.

Lemma no_visit owner c : ch_visitId c = None -> visit_known owner c.
Proof. intros E v _. by rewrite E. Qed.
Hint Resolve no_visit : presence.

Lemma arrive_inside_tells owner p r c live d :
  visit_known owner c ->
  presence d !! (owner, p) = Some r -> pr_state r = Inside ->
  tells_at (fun k => k = (owner, p)) live (arrive_inside owner p r c) d.
Proof.
  intros Hv Hrow Hin. apply tells_good. intros Hg. pose proof (Hg _ _ Hrow) as Hok.
  destruct (ok_inside _ Hok Hin) as (t & Et & Hst & Hl & Ea & Eap).
  unfold arrive_inside. destruct (reached (pr_leavingAt r) (ch_at c)) eqn:Er.
  - destruct (pr_leavingAt r) as [l|] eqn:El; [|done]. simpl in Er. zbool.
    specialize (Hl _ eq_refl). simpl.
    destruct (negb (pr_leavingConfirmed r) || _) eqn:Ec.
    + emitted Hrow.
    + emitted Hrow.
  - rewrite Et.
    set (le := if t <? ch_at c then ch_at c else t).
    assert (le = Z.max t (ch_at c)) as Ele.
    { unfold le. destruct (Z.ltb_spec t (ch_at c)); lia. }
    clearbody le. subst le.
    assert (forall l, pr_leavingAt r = Some l -> Z.max t (ch_at c) <= l).
    { intros l El. specialize (Hl _ El). rewrite El in Er. simpl in Er. zbool. lia. }
    destruct (_ && _ && _ && _) eqn:Ec.
    + destruct (ch_source c) eqn:Es; simpl in Ec; try done. apply andb_true_iff in Ec as [Ec Eagain].
      zbool. destruct (ch_visitId c) as [v|] eqn:Ev; [|done].
      assert (is_Some (pr_visitId r) \/ MISSED_EXIT_MS < ch_at c - pr_since r) as Hagain.
      { apply orb_true_iff in Eagain as [E|E]; [left; by apply bool_decide_eq_true in E|right; by zbool]. }
      match goal with X : bool_decide (Some v <> _) = true |- _ => apply bool_decide_eq_true in X end.
      emitted Hrow. apply tl_again; [by eapply Hv|done|congruence|done|done|apply tl_nil].
    + destruct (_ && _ && match ch_visitDepartureAt c with Some _ => _ | None => _ end) eqn:Elink;
        emitted Hrow.
      apply andb_true_iff in Elink as [[Ev En]%andb_true_iff _]. apply negb_true_iff in En.
      destruct (ch_source c) eqn:Es; [done| |done]. destruct (ch_visitId c) as [v|] eqn:Evis; [|done].
      eapply (tl_link _ v); [by eapply Hv|done|done|apply tl_nil].
Qed.

Lemma depart_now_tells owner p r c live d :
  presence d !! (owner, p) = Some r -> pr_state r = Inside -> pr_since r <= ch_at c ->
  tells_at (fun k => k = (owner, p)) live (depart_now owner p r c) d.
Proof.
  intros Hrow Hin Hs. apply tells_good. intros Hg. pose proof (Hg _ _ Hrow) as Hok.
  destruct (ok_inside _ Hok Hin) as (t & Et & Hst & Hl & Ea & Eap).
  unfold depart_now. destruct (pr_leavingAt r) as [l|] eqn:El; [|emitted Hrow].
  specialize (Hl _ eq_refl). destruct (_ && _) eqn:Ec; zbool; emitted Hrow.
Qed.

Lemma depart_wait_tells owner p r c live d :
  presence d !! (owner, p) = Some r -> pr_state r = Inside ->
  (forall t, pr_lastEnteredAt r = Some t -> t <= ch_at c) ->
  tells_at (fun k => k = (owner, p)) live (depart_wait owner p r c) d.
Proof.
  intros Hrow Hin Hs. apply tells_good. intros Hg. pose proof (Hg _ _ Hrow) as Hok.
  destruct (ok_inside _ Hok Hin) as (t & Et & Hst & Hl & Ea & Eap). specialize (Hs _ Et).
  unfold depart_wait. destruct (pr_leavingAt r) as [l|] eqn:El; [|emitted Hrow].
  specialize (Hl _ eq_refl). case_match; [emitted Hrow|apply tells_ret].
Qed.

Lemma depart_inside_tells owner p r c live d :
  presence d !! (owner, p) = Some r -> pr_state r = Inside -> pr_since r <= ch_at c ->
  tells_at (fun k => k = (owner, p)) live (depart_inside owner p r c) d.
Proof.
  intros Hrow Hin Hs. apply tells_good. intros Hg. pose proof (Hg _ _ Hrow) as Hok.
  destruct (ok_inside _ Hok Hin) as (t & Et & Hst & Hl & Ea & Eap).
  unfold depart_inside. rewrite Et. repeat case_match; zbool.
  all: lazymatch goal with
    | |- tells_at _ _ (depart_now _ _ _ _) _ => by apply depart_now_tells
    | |- tells_at _ _ (depart_wait _ _ _ _) _ =>
        apply depart_wait_tells; [done..|]; intros; simplify_eq; lia
    | |- tells_at _ _ skip _ => apply tells_ret
    | |- _ => emitted Hrow
    end.
Qed.

(** A change applied to a row outside. *)
Lemma arrive_tells owner p row c visitId live d :
  presence d !! (owner, p) = row -> state_of row = Outside ->
  (forall r, row = Some r -> pr_since r <= ch_at c) ->
  tells_at (fun k => k = (owner, p)) live
    (upsert_row owner p row (ch_at c) (arrive_row (ch_at c) visitId);;
     publishPresence owner p Arrived (ch_at c) (ch_source c) (ch_rawEventId c) visitId) d.
Proof.
  intros Hrow Hout Hs. apply tells_good. intros Hg. pose proof (Hg (owner, p)) as Hok. rewrite Hrow in Hok.
  destruct row as [r|]; [specialize (Hs _ eq_refl)|]; simpl in Hout; emitted Hrow.
Qed.

Lemma initial_tells owner p row c live d :
  presence d !! (owner, p) = row -> live (owner, p) = false ->
  tells_at (fun k => k = (owner, p)) live (apply_initial owner p row c) d.
Proof.
  intros Hrow Hlive. unfold apply_initial. destruct row as [r|].
  - case_match; zbool; [apply tells_ret|].
    eapply emits_tells; [place_step|]. rewrite Hrow, Hlive. simpl. intros _.
    split; [|split; [constructor; simpl; lia|done]].
    intros ? [= <-]. destruct (ch_transition c); place_row.
  - eapply emits_tells; [place_step|]. rewrite Hrow, Hlive. simpl. intros _.
    split; [|split; [by constructor|done]].
    intros ? [= <-]. destruct (ch_transition c); place_row.
Qed.

Lemma depart_outside_tells again owner p r c live d :
  presence d !! (owner, p) = Some r -> pr_state r = Outside ->
  (forall d' r', presence d' !! (owner, p) = Some r' -> pr_state r' = Inside ->
     pr_since r' <= ch_at c -> tells_at (fun k => k = (owner, p)) live again d') ->
  tells_at (fun k => k = (owner, p)) live (depart_outside again owner p r c) d.
Proof.
  intros Hrow Hout Hagain. apply tells_good. intros Hg. pose proof (Hg _ _ Hrow) as Hok.
  destruct (ok_outside _ Hok Hout) as (Et & El & Ev & Hsa & Hsp).
  unfold depart_outside. destruct (_ && _ && _) eqn:Ec; zbool.
  - destruct (pr_arrivingAt r) as [a|] eqn:Ea; [|done]. specialize (Hsa _ eq_refl). simpl.
    match goal with X : reached _ _ = true |- _ => simpl in X end. zbool.
    set (m := put_row owner p (arrive_row a None r);;
      source ← pget (arrivalSource owner (pr_arrivingEventId r) p);
      publishPresence owner p Arrived a source (pr_arrivingEventId r) None).
    apply (tells_ext _ _ _ (m;; again)); [done|].
    apply tells_bind; [subst m; emitted Hrow|].
    apply (Hagain _ (arrive_row a None r)); [|done|simpl; lia].
    simpl. by rewrite lookup_insert_eq.
  - destruct (reached (pr_approachingAt r) (ch_at c)), (reached (pr_arrivingAt r) (ch_at c));
      simpl; try apply tells_ret; emitted Hrow.
Qed.

Lemma apply_once_tells again owner p c live d :
  visit_known owner c ->
  (ch_initial c = true -> live (owner, p) = false) ->
  (forall d' r', presence d' !! (owner, p) = Some r' -> pr_state r' = Inside ->
     pr_since r' <= ch_at c -> tells_at (fun k => k = (owner, p)) live again d') ->
  tells_at (fun k => k = (owner, p)) live (apply_once again owner p c) d.
Proof.
  intros Hv Hi Hagain. unfold apply_once, presence_row. apply tells_get.
  destruct (ch_initial c) eqn:Ei; [by apply initial_tells; auto|].
  destruct (presence d !! (owner, p)) as [r|] eqn:Hrow, (ch_transition c).
  - destruct (pr_state r) eqn:Es; rewrite ?bool_decide_true, ?bool_decide_false by done.
    + by apply arrive_inside_tells.
    + destruct (Z.ltb_spec (ch_at c) (pr_since r)); [apply tells_ret|].
      apply (arrive_tells owner p (Some r)); [done..|]. by intros ? [= ->].
  - destruct (pr_state r) eqn:Es; rewrite ?bool_decide_true, ?bool_decide_false by done.
    + destruct (Z.ltb_spec (ch_at c) (pr_since r)); [|by apply depart_inside_tells].
      case_match eqn:El; [|apply tells_ret]. apply andb_true_iff in El as [El Evis].
      apply bool_decide_eq_true in Evis.
      apply tells_good. intros Hg. pose proof (Hg _ _ Hrow) as Hok.
      destruct (ok_inside _ Hok Es) as (t & Et & Hst & Hl & Ea & Eap). emitted Hrow.
      rewrite Evis. destruct (ch_source c) eqn:Esrc; [done| |done].
      destruct (ch_visitId c) as [v|] eqn:Ev; [|done].
      apply tl_unlink; [by eapply Hv|apply tl_nil].
    + by apply depart_outside_tells.
  - by apply (arrive_tells owner p None).
  - apply tells_ret.
Qed.

Lemma applyPresence_tells owner p c live d :
  visit_known owner c ->
  (ch_initial c = true -> live (owner, p) = false) ->
  tells_at (fun k => k = (owner, p)) live (applyPresence owner p c) d.
Proof.
  intros Hv Hi. apply apply_once_tells; [done|done|]. intros d' r' Hrow Hin Hs.
  unfold apply_once, presence_row. apply tells_get. rewrite Hrow.
  destruct (ch_initial c) eqn:Ei; [by apply initial_tells; auto|].
  destruct (ch_transition c); rewrite bool_decide_true by done; [by apply arrive_inside_tells|].
  destruct (Z.ltb_spec (ch_at c) (pr_since r')); [lia|]. by apply depart_inside_tells.
Qed.

(** ** Evidence *)

Lemma change_at_tells owner p t at_ source raw live d :
  tells_at (fun k => k = (owner, p)) live (applyPresence owner p (change_at t at_ source raw)) d.
Proof. apply applyPresence_tells; auto with presence. done. Qed.

Lemma clearArrival_tells owner p live d :
  tells_at (fun k => k = (owner, p)) live (clearArrival owner p) d.
Proof.
  unfold clearArrival, presence_row. apply tells_get.
  destruct (presence d !! (owner, p)) as [r|] eqn:Hrow; [|apply tells_ret].
  apply tells_good. intros Hg. pose proof (Hg _ _ Hrow) as Hok. destruct (pr_state r) eqn:Es.
  - destruct (ok_inside _ Hok Es) as (t & Et & Hst & Hl & Ea & Eap). emitted Hrow.
  - destruct (ok_outside _ Hok Es) as (Et & El & Ev & Hsa & Hsp). emitted Hrow.
Qed.

(** [noteInside] never passes a wait: callers look at it first. *)
Lemma noteInside_tells owner p at_ live d :
  (forall r l, presence d !! (owner, p) = Some r -> pr_state r = Inside ->
     pr_leavingAt r = Some l -> at_ <= l) ->
  tells_at (fun k => k = (owner, p)) live (noteInside owner p at_) d.
Proof.
  intros Hl'. unfold noteInside, presence_row. apply tells_get.
  destruct (presence d !! (owner, p)) as [r|] eqn:Hrow; [|apply tells_ret].
  case_bool_decide as Es; [|apply tells_ret].
  apply tells_good. intros Hg. pose proof (Hg _ _ Hrow) as Hok.
  destruct (ok_inside _ Hok Es) as (t & Et & Hst & Hl & Ea & Eap).
  unfold note_row. rewrite Et. simpl. specialize (fun l => Hl' r l eq_refl Es).
  assert (forall l, pr_leavingAt r = Some l -> Z.max t at_ <= l).
  { intros l El. specialize (Hl _ El). specialize (Hl' _ El). lia. }
  emitted Hrow.
Qed.

Lemma insideEvidence_tells owner p at_ raw known live d :
  (forall r, known = Some r -> presence d !! (owner, p) = Some r) ->
  tells_at (fun k => k = (owner, p)) live (insideEvidence owner p at_ raw known) d.
Proof.
  intros Hk. unfold insideEvidence, presence_row. apply tells_get.
  destruct (match known with Some r => Some r | None => _ end) as [r|] eqn:Er; [|apply tells_ret].
  assert (presence d !! (owner, p) = Some r) as Hrow.
  { destruct known; [|done]. simplify_eq. by apply Hk. }
  case_bool_decide as Es; [|apply tells_ret].
  destruct (reached (pr_leavingAt r) at_) eqn:E; [apply change_at_tells|].
  apply noteInside_tells. intros r' l Hr' _ El. rewrite Hrow in Hr'. simplify_eq.
  rewrite El in E. simpl in E. zbool. lia.
Qed.

(** A row for a place outside, or none yet, with something expected. *)
Lemma expect_tells owner p row since f live d :
  presence d !! (owner, p) = row -> state_of row = Outside ->
  (forall r, row = Some r \/ row = None /\ r = fresh_presence since -> row_ok r -> row_ok (f r) /\
     pr_since (f r) = pr_since r /\ pr_state (f r) = pr_state r) ->
  tells_at (fun k => k = (owner, p)) live (upsert_row owner p row since f) d.
Proof.
  intros Hrow Hout Hf. apply tells_good. intros Hg. eapply emits_tells; [place_step|].
  rewrite Hrow. intros _. destruct row as [r|]; simpl.
  - destruct (Hf r) as (Hok & Hs & Hst); [by left|by eapply Hg|].
    split; [by intros ? [= <-]|]. split; simpl; [constructor; simpl; lia|].
    intros _. simpl in Hout. rewrite Hst, Hout. apply tl_nil.
  - destruct (Hf (fresh_presence since)) as (Hok & Hs & Hst); [by right|by apply row_ok_outside|].
    split; [by intros ? [= <-]|]. split; simpl; [by constructor|].
    intros _. rewrite Hst. apply tl_nil.
Qed.

Lemma markApproaching_tells owner p geometry at_ live d :
  geometry <= at_ -> tells_at (fun k => k = (owner, p)) live (markApproaching owner p geometry at_) d.
Proof.
  intros Hge. unfold markApproaching, presence_row. apply tells_get.
  destruct (match presence d !! (owner, p) with Some r => _ | None => _ end) eqn:E; [apply tells_ret|].
  destruct (presence d !! (owner, p)) as [r|] eqn:Hrow; zbool.
  - match goal with X : bool_decide (pr_state r = Inside) = false |- _ =>
      apply bool_decide_eq_false in X as Eo end.
    destruct (pr_state r) eqn:Es; [done|].
    apply expect_tells; [done..|]. intros ? [[= <-]|[? ?]] Hok; [|done].
    destruct (ok_outside _ Hok Es) as (Et & El & Ev & Hsa & Hsp).
    split; [|done]. place_row.
  - apply expect_tells; [done..|]. intros ? [?|[_ ->]] Hok; [done|]. split; [|done]. place_row.
Qed.

Lemma applyPresence_arrived_row owner p at_ source raw d r :
  presence d !! (owner, p) = Some r -> pr_state r = Outside -> pr_since r <= at_ ->
  presence (applyPresence owner p (change_at Arrived at_ source raw) d).2 !! (owner, p)
    = Some (arrive_row at_ None r).
Proof.
  intros Hrow Hout Hs. unfold applyPresence, apply_once, presence_row, pget, mbind, PM_bind. simpl.
  rewrite Hrow. rewrite bool_decide_false by (by rewrite Hout).
  destruct (Z.ltb_spec at_ (pr_since r)); [lia|]. cbn -[lookup insert].
  destruct source; apply lookup_insert_eq.
Qed.

Lemma arriveOnReading_tells owner p geometry at_ source raw fix_ live d :
  geometry <= at_ ->
  tells_at (fun k => k = (owner, p)) live (arriveOnReading owner p geometry at_ source raw fix_) d.
Proof.
  intros Hge. apply tells_good. intros Hg. unfold arriveOnReading, presence_row. apply tells_get.
  destruct (presence d !! (owner, p)) as [r|] eqn:Hrow.
  2:{ apply expect_tells; [done..|]. intros ? [?|[_ ->]] Hok; [done|]. split; [|done]. place_row. }
  pose proof (Hg _ _ Hrow) as Hok.
  case_bool_decide as Es; [apply change_at_tells|].
  assert (pr_state r = Outside) as Eo by (by destruct (pr_state r)).
  destruct (ok_outside _ Hok Eo) as (Et & El & Ev & Hsa & Hsp).
  destruct (Z.ltb_spec at_ (pr_since r)); [apply tells_ret|].
  assert (tells_at (fun k => k = (owner, p)) live
    (upsert_row owner p (Some r) geometry (set_arriving (Some at_) (Some raw))) d) as Hstart.
  { apply expect_tells; [done..|]. intros ? [[= <-]|[? ?]] _; [|done]. split; [|done]. place_row. }
  destruct (pr_arrivingAt r) as [first|] eqn:Ea; [|exact Hstart]. specialize (Hsa _ eq_refl).
  apply tells_get. destruct (confirms _ _ _ _).
  2:{ case_match; [apply tells_ret|exact Hstart]. }
  apply tells_get. apply tells_bind.
  - case_match; apply change_at_tells.
  - apply noteInside_tells. intros r' l Hr' _ Elv. exfalso. revert Hr' Elv.
    case_match; (rewrite (applyPresence_arrived_row _ _ _ _ _ _ r); [|done..]); intros; simplify_eq.
Qed.
End applying.

(** ** Readings, reports, visits *)

Section operations.
Context `{PresenceEnv} `{Reported}.
Implicit Types (d : pdb) (live : place_key -> bool).

(** A snapshot has the current row of each of its places, once. *)
Lemma select_rows_elem owner q d p r :
  (p, r) ∈ select_rows owner q d <-> presence d !! (owner, p) = Some r /\ q p r = true.
Proof.
  unfold select_rows. rewrite list_elem_of_omap. split.
  - intros ([[o p'] r'] & Hin & E). apply elem_of_map_to_list in Hin.
    destruct (bool_decide (o = owner)) eqn:Eo, (q p' r') eqn:Eq; simplify_eq/=.
    apply bool_decide_eq_true in Eo. by subst.
  - intros [Hr Hq]. exists ((owner, p), r). split; [by apply elem_of_map_to_list|].
    by rewrite bool_decide_true, Hq by done.
Qed.

Lemma select_rows_NoDup owner q d : NoDup (select_rows owner q d).*1.
Proof.
  unfold select_rows. generalize (NoDup_fst_map_to_list (presence d)).
  generalize (map_to_list (presence d)). intros l.
  induction l as [|[[o p] r] l IH]; intros Hnd; [constructor|]. simpl.
  rewrite fmap_cons in Hnd. apply NoDup_cons in Hnd as [Hx Hnd].
  destruct (bool_decide (o = owner) && q p r) eqn:E; [|by apply IH]. simpl.
  constructor; [|by apply IH]. intros Hin. apply Hx.
  apply list_elem_of_fmap in Hin as ([p' r'] & -> & Hin).
  apply list_elem_of_omap in Hin as ([[o' p''] r''] & Hin & E').
  destruct (bool_decide (o' = owner)) eqn:Eo', (q p'' r''); simplify_eq/=.
  apply andb_true_iff in E as [Eo _]. apply bool_decide_eq_true in Eo, Eo'. subst.
  by apply (list_elem_of_fmap_2 fst) in Hin.
Qed.

Lemma select_rows_get owner q d p r :
  presence d !! (owner, p) = Some r -> q p r = true ->
  JsMap.get p (select_rows owner q d) = Some r.
Proof.
  intros Hr Hq. apply JsMap.elem_get; [apply select_rows_NoDup|]. by apply select_rows_elem.
Qed.

Lemma select_rows_get_None owner q d p :
  (forall r, q p r = true) -> JsMap.get p (select_rows owner q d) = presence d !! (owner, p).
Proof.
  intros Hq. destruct (presence d !! (owner, p)) as [r|] eqn:E; [by apply select_rows_get|].
  apply JsMap.get_None_keys. intros ([p' r] & -> & Hin)%list_elem_of_fmap.
  apply select_rows_elem in Hin as [? _]. simplify_eq/=.
Qed.

Lemma reading_at_place_tells owner fix_ raw all rows insideIds except id live d :
  JsMap.get id rows = presence d !! (owner, id) ->
  tells_at (fun k => k = (owner, id)) live
    (reading_at_place owner fix_ raw all rows insideIds except id) d.
Proof.
  intros Hrow. unfold reading_at_place. rewrite Hrow.
  destruct (find_place id all) as [place|]; [|apply tells_ret].
  destruct (_ || _ || _) eqn:Eg; [apply tells_ret|]. zbool.
  assert (tells_at (fun k => k = (owner, id)) live
    (arriveOnReading owner id (pl_geometryChangedAt place) (fx_at fix_) Reading raw fix_) d) as Ha
    by (by apply arriveOnReading_tells).
  destruct (presence d !! (owner, id)) as [r|] eqn:E; repeat case_match.
  all: lazymatch goal with
    | |- tells_at _ _ (insideEvidence _ _ _ _ _) _ =>
        apply insideEvidence_tells; intros ? [= <-]; exact E
    | |- tells_at _ _ (applyPresence _ _ _) _ => by apply applyPresence_tells; auto with presence
    | |- tells_at _ _ (clearArrival _ _) _ => apply clearArrival_tells
    | |- tells_at _ _ skip _ => apply tells_ret
    | |- _ => exact Ha
    end.
Qed.

Lemma filter_partition {A} (f : A -> bool) (l : list A) :
  List.filter f l ++ List.filter (fun x => negb (f x)) l ≡ₚ l.
Proof.
  induction l as [|x l IH]; simpl; [done|]. destruct (f x); simpl; [by rewrite IH|].
  by rewrite <-Permutation_middle, IH.
Qed.

Lemma reading_order_perm rows insideIds :
  reading_order rows insideIds ≡ₚ JsSet.of_list (rows.*1 ++ insideIds).
Proof. apply filter_partition. Qed.

(** The snapshot of a reading has the current row of every candidate. *)
Lemma reading_rows_get owner insideIds d id :
  id ∈ reading_order (reading_rows owner insideIds d) insideIds ->
  JsMap.get id (reading_rows owner insideIds d) = presence d !! (owner, id).
Proof.
  rewrite reading_order_perm, JsSet.elem_of_list, elem_of_app. intros [Hin|Hin].
  - apply list_elem_of_fmap in Hin as ([p r] & -> & Hin). simpl.
    rewrite (JsMap.elem_get p r); [|apply select_rows_NoDup|done].
    by apply select_rows_elem in Hin as [-> _].
  - apply select_rows_get_None. intros r. rewrite (bool_decide_true (id ∈ insideIds)) by done.
    by rewrite orb_true_r.
Qed.

Definition of_owner (owner : string) (k : place_key) : Prop := k.1 = owner.

Lemma applyReading_tells owner fix_ raw owned except live d :
  tells_at (of_owner owner) live (applyReading owner fix_ raw owned except) d.
Proof.
  unfold applyReading. case_match; [apply tells_ret|]. apply tells_get, tells_get.
  set (all := owned ?? placesForOwner owner d). set (ids := inside_ids fix_ all).
  eapply (tells_weaken _ _ live live); [|done|eapply (tells_for live (pair owner)
    (fun id row => JsMap.get id (reading_rows owner ids d) = row))].
  - intros k Hk. apply list_elem_of_fmap in Hk as (? & -> & _). done.
  - apply NoDup_fmap_2; [intros ? ? [=]; done|]. rewrite reading_order_perm.
    apply JsSet.NoDup_of_list.
  - intros id Hid. by apply reading_rows_get.
  - intros id d' _ Hrow. by apply reading_at_place_tells.
Qed.

Lemma tells_mono {A} k on live (m : PM A) d :
  on k -> tells_at (fun k' => k' = k) live m d -> tells_at on live m d.
Proof. intros Hk. apply tells_weaken; [by intros ? ->|done]. Qed.

Lemma apply_report_tells owner raw parsed place initial reading live d :
  initial = pt_initial parsed || (pt_at parsed <? pl_geometryChangedAt place) ->
  (initial = true -> live (owner, pt_placeId parsed) = false) ->
  tells_at (of_owner owner) live (apply_report owner raw parsed place initial reading) d.
Proof.
  intros Ei Hlive. apply (tells_mono (owner, pt_placeId parsed)); [done|].
  assert (forall t, tells_at (fun k => k = (owner, pt_placeId parsed)) live
    (applyPresence owner (pt_placeId parsed) (region_change t (pt_at parsed) raw initial)) d) as Hc
    by (intros t; by apply applyPresence_tells; auto with presence).
  unfold apply_report. destruct reading, (pt_fix parsed) as [f|]; try apply Hc.
  all: destruct initial; [by rewrite ?bool_decide_true, ?bool_decide_false by done; apply Hc|].
  all: symmetry in Ei; apply orb_false_iff in Ei as [_ Ei]; zbool.
  all: destruct (pt_transition parsed); repeat case_bool_decide; try done.
  all: lazymatch goal with
    | |- tells_at _ _ (arriveOnReading _ _ _ _ _ _ _) _ => by apply arriveOnReading_tells
    | |- tells_at _ _ (markApproaching _ _ _ _) _ => by apply markApproaching_tells
    | |- tells_at _ _ (insideEvidence _ _ _ _ _) _ => by apply insideEvidence_tells
    | |- tells_at _ _ skip _ => apply tells_ret
    | |- _ => apply Hc
    end.
Qed.

(** A report that only records where the owner is: the geofence is new. *)
Definition baseline_report (k : place_key) (owner : string) (payload : jsval) (d : pdb) : bool :=
  match parseRegionTransition payload with
  | Some parsed =>
      bool_decide ((owner, pt_placeId parsed) = k) &&
      match live_place owner (pt_placeId parsed) d with
      | Some place => pt_initial parsed || (pt_at parsed <? pl_geometryChangedAt place)
      | None => false
      end
  | None => false
  end.

Lemma processRegionTransition_tells owner raw payload live d :
  (forall k, baseline_report k owner payload d = true -> live k = false) ->
  tells_at (of_owner owner) live (processRegionTransition owner raw payload) d.
Proof.
  intros Hlive. unfold processRegionTransition, baseline_report in *.
  destruct (parseRegionTransition payload) as [parsed|]; [|apply tells_ret].
  apply tells_get, tells_get.
  destruct (live_place owner (pt_placeId parsed) d) as [place|] eqn:Ep; [|apply tells_ret].
  case_match; [apply tells_ret|]. apply tells_get. cbv zeta.
  set (initial := pt_initial parsed || _).
  assert (initial = true -> live (owner, pt_placeId parsed) = false) as Hi.
  { intros E. apply Hlive. by rewrite bool_decide_true. }
  assert (forall d' b, tells_at (of_owner owner) live
    (if b : bool then match pt_fix parsed with
      | Some f => if bool_decide (match pt_fix parsed with
            | Some f => classifyReading f (pt_placeId parsed) place (placesForOwner owner d)
            | None => RUnknown end <> RUnknown) && negb initial
          then applyReading owner f raw (Some (placesForOwner owner d)) (Some (pt_placeId parsed))
          else skip
      | None => skip
      end else skip) d') as Ho.
  { intros d' b. repeat case_match; try apply tells_ret; apply applyReading_tells. }
  apply tells_bind; [apply Ho|]. apply tells_bind; [by apply apply_report_tells|].
  apply tells_bind; [apply Ho|]. apply tells_ret.
Qed.

(** A loop whose body needs nothing of the state. *)
Lemma tells_each {X} on live (body : X -> PM unit) xs d :
  (forall x d, x ∈ xs -> tells_at on live (body x) d) -> tells_at on live (pfor xs body) d.
Proof.
  revert d. induction xs as [|x xs IH]; intros d Hb; [apply tells_ret|]. simpl.
  apply tells_bind; [apply Hb; left|]. apply IH. intros. apply Hb. by right.
Qed.

Lemma publishVisitEvents_tells owner v arrived completed now live d :
  reported owner (v_id v) ->
  tells_at (of_owner owner) live (publishVisitEvents owner v arrived completed now) d.
Proof.
  intros Hrep. assert (forall xs t a d, tells_at (of_owner owner) live
    (pfor xs (fun id => applyPresence owner id (visit_change t a v))) d) as Hv.
  { intros xs t a d'. apply tells_each. intros id d'' _.
    apply (tells_mono (owner, id)); [done|]. apply applyPresence_tells; [|done].
    by intros v' _ [= <-]. }
  unfold publishVisitEvents. case_match; [apply tells_ret|]. apply tells_get, tells_get. cbv zeta.
  apply tells_bind; [case_match; [apply Hv|apply tells_ret]|].
  destruct completed; [|apply tells_ret]. apply tells_get, tells_bind; [apply Hv|].
  apply tells_bind; [by apply tells_silent|]. apply tells_bind; [by apply tells_silent|].
  apply tells_get. case_match; by apply tells_silent.
Qed.

(** ** Departures that stayed out *)

Lemma settle_row_tells owner p r live d :
  presence d !! (owner, p) = Some r -> pr_state r = Inside ->
  tells_at (fun k => k = (owner, p)) live (settle_row owner p r) d.
Proof.
  intros Hrow Hin. apply tells_good. intros Hg. pose proof (Hg _ _ Hrow) as Hok.
  destruct (ok_inside _ Hok Hin) as (t & Et & Hst & Hl & Ea & Eap).
  unfold settle_row. destruct (pr_leavingAt r) as [l|]; [|apply tells_ret].
  specialize (Hl _ eq_refl). emitted Hrow.
Qed.

Lemma settleDepartures_tells now locked live d :
  tells_at (fun _ => True) live (settleDepartures now locked) d.
Proof.
  unfold settleDepartures. apply tells_get. destruct (due_owner now d) as [owner|]; [|apply tells_ret].
  apply tells_get. case_match; [apply tells_ret|]. unfold settle_owner. apply tells_get.
  apply tells_bind; [|apply tells_ret].
  set (q := fun (_ : string) r => _ && _).
  eapply (tells_weaken _ _ live live); [done|done|].
  apply (tells_for live (fun x : string * PresenceRow => (owner, x.1))
    (fun x row => row = Some x.2 /\ pr_state x.2 = Inside)).
  - change (fun x : string * PresenceRow => (owner, x.1)) with (pair owner ∘ @fst string PresenceRow).
    rewrite list_fmap_compose. apply NoDup_fmap_2; [intros ? ? [=]; done|]. apply select_rows_NoDup.
  - intros [p r] [Hr Hq]%select_rows_elem. split; [done|]. subst q. simpl in Hq.
    apply andb_true_iff in Hq as [Hin _]. by apply bool_decide_eq_true in Hin.
  - intros [p r] d' _ [Hr Hin]. by apply settle_row_tells.
Qed.
End operations.
