(* ===== verification/PresenceClaims.v ===== *)
(** Place presence: the timeline of a place through any run, exits and entries in
    either order, and what a reading needs to publish ([Presence]). *)
From Stdlib Require Import ZArith QArith Lia.
From stdpp Require Import base tactics strings gmap sorting option pretty.
From stdpp Require Import list.
From S2P Require Import Prelude JsRuntime Presence PresenceProps.
Open Scope Z_scope.

Section runs.
Context `{PresenceEnv} `{Reported}.
Implicit Types (k : (string * string)%type) (d : pdb).

(** The operation does not move or resize the place. *)
Definition unmoved (k : place_key) (op : PresenceOp) : bool :=
  match op with
  | UpdateOp owner placeId centre radiusM _ =>
      negb (bool_decide ((owner, placeId) = k) &&
            (bool_decide (is_Some centre) || bool_decide (is_Some radiusM)))
  | _ => true
  end.

Definition baseline_op (k : place_key) (op : PresenceOp) (d : pdb) : bool :=
  match op with
  | ReportOp owner _ payload => baseline_report k owner payload d
  | _ => false
  end.

(** No report of a new geofence of the place in the whole run. *)
Fixpoint baseline_free (k : place_key) (ops : list PresenceOp) (d : pdb) : bool :=
  match ops with
  | [] => true
  | op :: ops => negb (baseline_op k op d) && baseline_free k ops (run_op op d).2
  end.

(** What [tells_at] says of one place. *)
Definition tells_place (k : place_key) (live : bool) (m : PM unit) (d : pdb) : Prop :=
  good d -> good (m d).2 /\ exists es, presenceEvents (m d).2 = presenceEvents d ++ es /\
    history (reported k.1) live (presence d !! k) (core_of <$> events_of k es) (presence (m d).2 !! k).

Lemma tells_at_place on live k (m : PM unit) d :
  tells_at on live m d -> tells_place k (live k) m d.
Proof.
  intros Hm Hg. destruct (Hm Hg) as (Hg' & _ & es & Ee & Hh). split; [done|]. eauto.
Qed.

Lemma tells_place_silent k live (m : PM unit) d :
  presence (m d).2 !! k = presence d !! k -> presenceEvents (m d).2 = presenceEvents d ->
  (good d -> good (m d).2) -> tells_place k live m d.
Proof.
  intros Ep Ee Hg' Hg. split; [by apply Hg'|]. exists []. rewrite Ee, app_nil_r.
  split; [done|]. rewrite Ep. apply history_refl.
Qed.

Lemma update_place_silent k live owner p centre radiusM now d :
  unmoved k (UpdateOp owner p centre radiusM now) = true ->
  tells_place k live (update_place owner p centre radiusM now;; skip) d.
Proof.
  intros Hk.
  assert (presence (update_place owner p centre radiusM now d).2 = presence d \/
          presence (update_place owner p centre radiusM now d).2 = delete (owner, p) (presence d) /\
          (owner, p) <> k) as Hp.
  { unfold update_place, pget, pmodify, mbind, PM_bind. simpl.
    destruct (live_place owner p d); [|by left]. destruct (centre ?? _) as [la lo].
    simpl in Hk. destruct (_ || _); [right|by left]. split; [done|].
    rewrite andb_true_r in Hk. zbool. by apply bool_decide_eq_false in Hk. }
  assert (presenceEvents (update_place owner p centre radiusM now d).2 = presenceEvents d) as He.
  { unfold update_place, pget, pmodify, mbind, PM_bind. simpl.
    destruct (live_place owner p d); [|done]. destruct (centre ?? _). by destruct (_ || _). }
  unfold tells_place, mbind, PM_bind.
  destruct (update_place owner p centre radiusM now d) as [b d'] eqn:E. simpl in *.
  intros Hg. split.
  - intros k' r. destruct Hp as [->|[-> _]]; [apply Hg|].
    intros [_ Hr]%lookup_delete_Some. by eapply Hg.
  - exists []. rewrite He, app_nil_r. split; [done|].
    destruct Hp as [->|[-> Hne]]; rewrite ?lookup_delete_ne by done; apply history_refl.
Qed.

(** A visit the operation reports is one of the visits reported. *)
Definition reports_known (op : PresenceOp) : Prop :=
  match op with VisitOp owner v _ _ _ => reported owner (v_id v) | _ => True end.

Lemma run_op_tells k op d :
  reports_known op -> unmoved k op = true -> tells_place k (negb (baseline_op k op d)) (run_op op) d.
Proof.
  intros Hrep Hk. destruct op; simpl run_op.
  - change (negb _) with ((fun k => negb (baseline_op k (ReportOp owner rawEventId payload) d)) k).
    eapply tells_at_place. apply tells_bind; [|apply tells_ret].
    apply processRegionTransition_tells. intros k' Hb. simpl. by rewrite Hb.
  - apply (tells_at_place (of_owner owner) (fun _ => true)). apply applyReading_tells.
  - apply (tells_at_place (of_owner owner) (fun _ => true)). by apply publishVisitEvents_tells.
  - apply (tells_at_place (fun _ => True) (fun _ => true)).
    apply tells_bind; [|apply tells_ret]. apply settleDepartures_tells.
  - apply (tells_at_place (fun _ => True) (fun _ => true)).
    apply tells_bind; [|apply tells_ret]. unfold create_place.
    apply tells_bind; [by apply tells_silent|]. apply tells_get.
    case_match; [apply tells_ret|]. by apply tells_silent.
  - by apply update_place_silent.
  - apply (tells_at_place (fun _ => True) (fun _ => true)).
    apply tells_bind; [|apply tells_ret]. unfold delete_place. apply tells_get.
    case_match; [|apply tells_ret]. by apply tells_silent.
  - by apply tells_place_silent.
Qed.

Lemma run_ops_tells k ops d :
  Forall reports_known ops -> forallb (unmoved k) ops = true -> tells_place k (baseline_free k ops d) (run_ops ops) d.
Proof.
  intros Hrep. revert d. induction Hrep as [|op ops Hop Hrep IH]; intros d Hu Hg.
  - split; [done|]. exists []. rewrite app_nil_r. split; [done|]. apply history_refl.
  - simpl in Hu. apply andb_true_iff in Hu as [Hu Hus].
    destruct (run_op_tells k op d Hop Hu Hg) as (Hg1 & es1 & Ee1 & O1 & T1).
    destruct (IH (run_op op d).2 Hus Hg1) as (Hg2 & es2 & Ee2 & O2 & T2).
    unfold run_ops in *. simpl. unfold mbind, PM_bind. destruct (run_op op d) as [u d1] eqn:E1.
    simpl in *. split; [done|]. exists (es1 ++ es2).
    rewrite Ee2, Ee1, (assoc_L (++)). split; [done|].
    rewrite events_of_app, fmap_app. eapply history_app; split; [exact O1| |exact O2|].
    all: intros [? ?]%andb_true_iff; auto.
Qed.

End runs.

(** A visit of the owner that the run reports. *)
Definition visit_reported (ops : list PresenceOp) (owner visitId : string) : Prop :=
  exists v arrived completed now,
    VisitOp owner v arrived completed now ∈ ops /\ v_id v = visitId.

Lemma all_reported ops : Forall (reports_known (H0 := visit_reported ops)) ops.
Proof. apply Forall_forall. intros [] Hin; try exact I. by repeat eexists. Qed.

(** C31: through any run of reports, readings, visits, settled waits and changes of
    places, presence rows stay consistent, and what is published of a place whose
    geometry does not change is in the order of time, never before the state the run
    began in nor after the state it leaves.  Without a report of a new geofence,
    arrivals and departures take turns from the stay the run began in to the one the row
    has at the end, but for one case: a visit of the run, other than the one of the stay,
    begins another stay when the stay is a visit's already or has lasted for over twelve
    hours. *)
Theorem presence_timeline `{PresenceEnv} owner placeId ops d :
  good d -> forallb (unmoved (owner, placeId)) ops = true ->
  let d' := (run_ops ops d).2 in
  let row := presence d !! (owner, placeId) in
  let row' := presence d' !! (owner, placeId) in
  good d' /\ exists es, presenceEvents d' = presenceEvents d ++ es /\
    let mine := events_of (owner, placeId) es in
    in_order (since_of row) (pe_occurredAt <$> mine) (since_of row') /\
    (baseline_free (owner, placeId) ops d = true ->
     timeline (visit_reported ops owner) (stay_of row) (core_of <$> mine) (stay_of row')).
Proof.
  intros Hg Hu. destruct (run_ops_tells (H0 := visit_reported ops) _ _ d (all_reported ops) Hu Hg)
    as (Hg' & es & Ee & O & T).
  split; [done|]. exists es. split; [done|]. rewrite <-!list_fmap_compose in *. by split.
Qed.

(** ** One change, branch by branch *)

Section changes.
Context `{PresenceEnv}.
Implicit Types (d : pdb) (r : PresenceRow) (c : PresenceChange).

Lemma emits_ext {A} k said row' (m m' : PM A) d :
  m d = m' d -> emits k said row' m' d -> emits k said row' m d.
Proof. unfold emits. by intros ->. Qed.

Lemma emits_eq {A} k said said' row row' (m : PM A) d :
  emits k said row m d -> said = said' -> row = row' -> emits k said' row' m d.
Proof. by intros ? -> ->. Qed.

Lemma apply_arrived_inside owner p r c d :
  presence d !! (owner, p) = Some r -> pr_state r = Inside ->
  ch_initial c = false -> ch_transition c = Arrived ->
  applyPresence owner p c d = arrive_inside owner p r c d.
Proof.
  intros Hr Hs Hi Ht. unfold applyPresence, apply_once, presence_row, pget, mbind, PM_bind.
  by rewrite Hr, Hi, Ht, bool_decide_true.
Qed.

Lemma apply_departed_inside owner p r c d :
  presence d !! (owner, p) = Some r -> pr_state r = Inside ->
  ch_initial c = false -> ch_transition c = Departed -> pr_since r <= ch_at c ->
  applyPresence owner p c d = depart_inside owner p r c d.
Proof.
  intros Hr Hs Hi Ht Hc. unfold applyPresence, apply_once, presence_row, pget, mbind, PM_bind.
  rewrite Hr, Hi, Ht, bool_decide_true by done. by destruct (Z.ltb_spec (ch_at c) (pr_since r)); [lia|].
Qed.

Lemma apply_arrived_outside owner p r c d :
  presence d !! (owner, p) = Some r -> pr_state r = Outside ->
  ch_initial c = false -> ch_transition c = Arrived -> pr_since r <= ch_at c ->
  applyPresence owner p c d =
    (let visitId := match ch_source c with Visit => ch_visitId c | _ => None end in
     put_row owner p (arrive_row (ch_at c) visitId r);;
     publishPresence owner p Arrived (ch_at c) (ch_source c) (ch_rawEventId c) visitId) d.
Proof.
  intros Hr Hs Hi Ht Hc. unfold applyPresence, apply_once, presence_row, pget, mbind, PM_bind.
  rewrite Hr, Hi, Ht, bool_decide_false by (by rewrite Hs).
  by destruct (Z.ltb_spec (ch_at c) (pr_since r)); [lia|].
Qed.

#[local] Ltac emitting := eapply emits_eq; [place_step|reflexivity|reflexivity].

(** A re-entry seen by a reading. *)
Lemma reentry_emits owner p r l at_ source raw d :
  presence d !! (owner, p) = Some r -> pr_state r = Inside -> pr_leavingAt r = Some l -> l <= at_ ->
  source <> Visit ->
  let stayed := negb (pr_leavingConfirmed r) || (at_ - l <? DEPARTURE_SETTLE_MS) in
  emits (owner, p)
    (if stayed then [] else [(Departed, l, Region, None); (Arrived, at_, source, None)])
    (Some (if stayed then set_lastEntered (Some at_) (set_confirmed false (set_leaving None r))
           else set_visit None (set_lastEntered (Some at_) (set_leaving None (set_place Inside at_ r)))))
    (applyPresence owner p (change_at Arrived at_ source raw)) d.
Proof.
  intros Hr Hs Hl Hle Hsrc stayed. eapply emits_ext; [by eapply apply_arrived_inside|].
  unfold arrive_inside. rewrite Hl. simpl. destruct (Z.leb_spec l at_); [|lia]. fold stayed.
  destruct stayed; [emitting|]. destruct source; [|done|]; emitting.
Qed.

(** The owner is confirmed at another place: gone at once, or since the wait that
    was on. *)
Lemma elsewhere_emits owner p r t at_ raw d :
  presence d !! (owner, p) = Some r -> pr_state r = Inside -> pr_lastEnteredAt r = Some t ->
  pr_since r <= at_ ->
  exists said row', emits (owner, p) said row'
      (applyPresence owner p (mkChange Departed at_ Reading None (Some raw) None false true)) d /\
    Forall (fun x : core => core_transition x = Departed /\ t <= at_ /\
      (core_at x = at_ \/ pr_leavingAt r = Some (core_at x))) said.
Proof.
  intros Hr Hs Ht Hle. set (c := mkChange _ _ _ _ _ _ _ _).
  assert (exists said row', emits (owner, p) said row' (depart_inside owner p r c) d /\
    Forall (fun x : core => core_transition x = Departed /\ t <= at_ /\
      (core_at x = at_ \/ pr_leavingAt r = Some (core_at x))) said) as (said & row' & He & Hf).
  { unfold depart_inside. rewrite Ht. simpl. destruct (Z.ltb_spec at_ t).
    - exists [], None. split; [apply emits_skip|constructor].
    - unfold depart_now. simpl. destruct (pr_leavingAt r); [destruct (_ && _)|];
        eexists _, _; (split; [place_step|]); simpl; apply Forall_singleton; unfold core_at; simpl; auto. }
  exists said, row'. split; [|done]. eapply emits_ext; [|exact He]. by apply apply_departed_inside.
Qed.

(** A reading outside only starts or confirms a wait. *)
Lemma outside_emits owner p r at_ raw d :
  presence d !! (owner, p) = Some r -> pr_state r = Inside -> pr_since r <= at_ ->
  exists row', emits (owner, p) [] row'
    (applyPresence owner p (change_at Departed at_ Reading raw)) d.
Proof.
  intros Hr Hs Hle. set (c := change_at _ _ _ _).
  assert (exists row', emits (owner, p) [] row' (depart_inside owner p r c) d) as [row' He].
  { unfold depart_inside, depart_wait. simpl. repeat (case_match; simpl); eexists; emitting. }
  exists row'. eapply emits_ext; [|exact He]. by apply apply_departed_inside.
Qed.
End changes.

(** ** What a reading publishes *)

Section readings.
Context `{PresenceEnv}.
Implicit Types (d : pdb) (r : PresenceRow).

#[local] Ltac emitting := eapply emits_eq; [place_step|reflexivity|reflexivity].

(** A wait that a geofence exit or a second reading confirmed ran its full time. *)
Definition returned (r : PresenceRow) (at_ : Z) : Prop :=
  pr_leavingConfirmed r = true /\
  exists l, pr_leavingAt r = Some l /\ DEPARTURE_SETTLE_MS <= at_ - l.

(** The waiting reading and this one are far enough apart, and the later of the two
    shows the owner stopped. *)
Definition two_readings (owner : string) (fix_ : FixReading) (r : PresenceRow) (first : Z) (d : pdb)
    : Prop :=
  pr_arrivingAt r = Some first /\ ARRIVAL_CONFIRM_MS <= Z.abs (fx_at fix_ - first) /\
  if fx_at fix_ <? first
  then exists later, storedReading owner (pr_arrivingEventId r) d = Some later /\
         stopped later (Some fix_) = true
  else stopped fix_ (storedReading owner (pr_arrivingEventId r) d) = true.

(** Why a reading may publish [t] at [at_] for a place. *)
Definition warranted (owner : string) (fix_ : FixReading) (d : pdb) (id : string) (t : Transition)
    (at_ : Z) : Prop :=
  let all := placesForOwner owner d in
  exists place r, find_place id all = Some place /\ pl_geometryChangedAt place <= fx_at fix_ /\
    presence d !! (owner, id) = Some r /\
    let class := classifyReading fix_ id place all in
    match t with
    | Departed => pr_state r = Inside /\
        (class <> RInside /\ (exists other, other <> id /\ other ∈ inside_ids fix_ all) /\
           (forall newest, pr_lastEnteredAt r = Some newest -> newest <= fx_at fix_) /\
           (at_ = fx_at fix_ \/ pr_leavingAt r = Some at_)
         \/ class = RInside /\ returned r (fx_at fix_) /\ pr_leavingAt r = Some at_)
    | Arrived => class = RInside /\
        (pr_state r = Inside /\ returned r (fx_at fix_) /\ at_ = fx_at fix_
         \/ pr_state r = Outside /\ exists first, two_readings owner fix_ r first d /\
              at_ = Z.min first (fx_at fix_))
    end.

(** The program writes one place, and each thing it says satisfies [Q]. *)
Definition says {A} (k : place_key) (Q : core -> Prop) (m : PM A) (d : pdb) : Prop :=
  exists said row', emits k said row' m d /\ Forall Q said.

Lemma says_get {A B} k Q (f : pdb -> A) (m : A -> PM B) d :
  says k Q (m (f d)) d -> says k Q (pget f ≫= m) d.
Proof. done. Qed.

Lemma says_ext {A} k Q (m m' : PM A) d : m d = m' d -> says k Q m' d -> says k Q m d.
Proof. unfold says, emits. by intros ->. Qed.

Lemma says_nothing {A} k Q row' (m : PM A) d : emits k [] row' m d -> says k Q m d.
Proof. intros He. exists [], row'. split; [done|constructor]. Qed.

Lemma says_one {A} k (Q : core -> Prop) c row' (m : PM A) d :
  emits k [c] row' m d -> Q c -> says k Q m d.
Proof. intros He Hc. exists [c], row'. split; [done|by apply Forall_singleton]. Qed.

Lemma says_then {A B} k Q row' (m : PM A) (n : PM B) d :
  says k Q m d -> emits k [] row' n (m d).2 -> says k Q (m;; n) d.
Proof.
  intros (said & row & Hm & Hq) Hn. eexists _, _. split; [by eapply emits_seq|]. by rewrite app_nil_r.
Qed.

#[local] Notation why owner fix_ d p := (fun x : core => warranted owner fix_ d p (core_transition x) (core_at x)).

Section one_place.
Variables (owner p raw : string) (place : PlaceRow) (fix_ : FixReading) (d : pdb).
Hypothesis Hgood : good d.
Hypothesis Hfind : find_place p (placesForOwner owner d) = Some place.
Hypothesis Hgeometry : pl_geometryChangedAt place <= fx_at fix_.
Let class := classifyReading fix_ p place (placesForOwner owner d).

Lemma reentry_warranted r l raw' :
  class = RInside -> presence d !! (owner, p) = Some r -> pr_state r = Inside ->
  pr_leavingAt r = Some l -> l <= fx_at fix_ ->
  says (owner, p) (why owner fix_ d p)
    (applyPresence owner p (change_at Arrived (fx_at fix_) Reading raw')) d.
Proof.
  intros Hc Hr Hs Hl Hle. eexists _, _. split; [by eapply reentry_emits|].
  destruct (_ || _) eqn:E; [constructor|]. zbool.
  assert (returned r (fx_at fix_)) as Hret by (split; [done|]; exists l; split; [done|lia]).
  apply Forall_cons. split; [|apply Forall_singleton].
  all: exists place, r; split_and!; try done; simpl.
  - split; [done|]. right. by rewrite Hl.
  - split; [done|]. by left.
Qed.

Lemma noteInside_emits at_ d' :
  exists row', emits (owner, p) [] row' (noteInside owner p at_) d'.
Proof.
  unfold noteInside, presence_row.
  destruct (presence d' !! (owner, p)) as [r|] eqn:Hr;
    [destruct (bool_decide (pr_state r = Inside)) eqn:Es|];
    eexists; apply emits_get; rewrite Hr, ?Es; emitting.
Qed.

(** The second reading. *)
Lemma confirmed_warranted r first :
  class = RInside -> presence d !! (owner, p) = Some r -> pr_state r = Outside ->
  pr_since r <= fx_at fix_ -> pr_arrivingAt r = Some first ->
  confirms first (fx_at fix_) fix_ (storedReading owner (pr_arrivingEventId r) d) = true ->
  says (owner, p) (why owner fix_ d p)
    (applyPresence owner p (if fx_at fix_ <? first then change_at Arrived (fx_at fix_) Reading (Some raw)
       else change_at Arrived first (arrivalSource owner (pr_arrivingEventId r) p d)
              (pr_arrivingEventId r))) d.
Proof.
  intros Hc Hr Hs Hsince Ha Hconf.
  match goal with |- says _ _ (applyPresence _ _ ?x) _ => set (c := x) end.
  assert (ch_at c = Z.min first (fx_at fix_)) as Eat.
  { subst c. destruct (Z.ltb_spec (fx_at fix_) first); simpl; lia. }
  destruct (ok_outside _ (Hgood _ _ Hr) Hs) as (_ & _ & _ & Hsa & _). specialize (Hsa _ Ha).
  eapply says_ext.
  { eapply apply_arrived_outside; [done..|subst c; by case_match|subst c; by case_match|lia]. }
  cbv zeta. eapply says_one; [eapply emits_eq; [place_step|reflexivity|reflexivity]|].
  exists place, r. split_and!; try done. simpl. split; [done|]. right. split; [done|].
  exists first. split; [|exact Eat]. apply andb_true_iff in Hconf as [E1 E2]. zbool.
  split_and!; [done|done|]. destruct (fx_at fix_ <? first); [|done].
  destruct (storedReading _ _ _) as [later|]; [|done]. by exists later.
Qed.

Lemma arriveOnReading_warranted :
  class = RInside -> state_of (presence d !! (owner, p)) = Outside ->
  says (owner, p) (why owner fix_ d p)
    (arriveOnReading owner p (pl_geometryChangedAt place) (fx_at fix_) Reading raw fix_) d.
Proof.
  intros Hc Hout. unfold arriveOnReading, presence_row. apply says_get.
  destruct (presence d !! (owner, p)) as [r|] eqn:Hr; [|eapply says_nothing; emitting].
  simpl in Hout. rewrite bool_decide_false by (by rewrite Hout).
  destruct (Z.ltb_spec (fx_at fix_) (pr_since r)); [eapply says_nothing; emitting|].
  destruct (pr_arrivingAt r) as [first|] eqn:Ea; [|eapply says_nothing; emitting].
  apply says_get. destruct (confirms _ _ _ _) eqn:Ec.
  2:{ case_match; eapply says_nothing; emitting. }
  apply says_get.
  destruct (noteInside_emits (if fx_at fix_ <? first then first else fx_at fix_)
    (applyPresence owner p (if fx_at fix_ <? first then change_at Arrived (fx_at fix_) Reading (Some raw)
       else change_at Arrived first (arrivalSource owner (pr_arrivingEventId r) p d)
              (pr_arrivingEventId r)) d).2) as [row' Hn].
  eapply says_then; [by apply confirmed_warranted|exact Hn].
Qed.

Lemma reading_at_place_warranted rows insideIds :
  JsMap.get p rows = presence d !! (owner, p) ->
  insideIds = inside_ids fix_ (placesForOwner owner d) ->
  says (owner, p) (why owner fix_ d p)
    (reading_at_place owner fix_ raw (placesForOwner owner d) rows insideIds None p) d.
Proof.
  intros Hrow ->. unfold reading_at_place. rewrite Hrow, Hfind.
  destruct (_ || _ || _) eqn:Eg; [eapply says_nothing; emitting|].
  apply orb_false_iff in Eg as [_ Esince]. fold class.
  assert (class = RInside -> state_of (presence d !! (owner, p)) = Outside ->
    says (owner, p) (why owner fix_ d p) (arriveOnReading owner p (pl_geometryChangedAt place)
      (fx_at fix_) Reading raw fix_) d) as Harrive by apply arriveOnReading_warranted.
  destruct (presence d !! (owner, p)) as [r|] eqn:Hr.
  2:{ case_match eqn:E; [|eapply says_nothing; emitting]. apply andb_true_iff in E as [E _].
      apply Harrive; [by apply bool_decide_eq_true in E|done]. }
  destruct (pr_state r) eqn:Hs.
  - zbool. rewrite bool_decide_true by done. case_bool_decide as Hc.
    + unfold insideEvidence, presence_row. apply says_get. rewrite bool_decide_true by done.
      destruct (pr_leavingAt r) as [l|] eqn:El.
      * simpl. destruct (Z.leb_spec l (fx_at fix_)); [by eapply reentry_warranted|].
        destruct (noteInside_emits (fx_at fix_) d). by eapply says_nothing.
      * destruct (noteInside_emits (fx_at fix_) d). by eapply says_nothing.
    + case_match eqn:Ee.
      * apply andb_true_iff in Ee as [Eo _]. apply existsb_exists in Eo as (other & Ho & Hne).
        apply bool_decide_eq_true in Hne.
        destruct (ok_inside _ (Hgood _ _ Hr) Hs) as (t & Et & _).
        destruct (elsewhere_emits owner p r t (fx_at fix_) raw d) as (said & row' & He & Hw); [done..|].
        exists said, row'. split; [exact He|]. eapply Forall_impl; [exact Hw|].
        intros x (Ex & Hnew & Hat). exists place, r. rewrite Ex. split_and!; try done. simpl.
        split; [done|]. left. split_and!; [done| | |done].
        -- exists other. split; [done|]. by apply list_elem_of_In.
        -- intros newest En. rewrite Et in En. by simplify_eq.
      * destruct (bool_decide (class = ROutside)); [|eapply says_nothing; emitting].
        destruct (outside_emits owner p r (fx_at fix_) (Some raw) d) as [row' He]; [done..|].
        by eapply says_nothing.
  - rewrite bool_decide_false by congruence. case_match eqn:E.
    + apply andb_true_iff in E as [E _]. apply Harrive; [by apply bool_decide_eq_true in E|done].
    + case_match; [|eapply says_nothing; emitting]. unfold clearArrival, presence_row.
      apply says_get. rewrite Hr. eapply says_nothing; emitting.
Qed.
End one_place.

(** Nothing but the row of the place, the places and the stored readings matters. *)
Lemma warranted_frame owner fix_ d d' id t at_ :
  places d' = places d -> rawEvents d' = rawEvents d ->
  presence d' !! (owner, id) = presence d !! (owner, id) ->
  warranted owner fix_ d' id t at_ -> warranted owner fix_ d id t at_.
Proof.
  intros Ep Er Erow. unfold warranted, two_readings, storedReading, raw_event, placesForOwner.
  rewrite Ep, Er, Erow. done.
Qed.

Definition warranted_event (owner : string) (fix_ : FixReading) (d : pdb) (e : PresenceEvent) : Prop :=
  pe_createdByUserId e = owner /\
  warranted owner fix_ d (pe_placeId e) (pe_transition e) (pe_occurredAt e).

Lemma reading_loop_warranted owner fix_ raw rows insideIds ids d d0 :
  good d -> NoDup ids -> places d = places d0 -> rawEvents d = rawEvents d0 ->
  insideIds = inside_ids fix_ (placesForOwner owner d0) ->
  (forall id, id ∈ ids -> presence d !! (owner, id) = presence d0 !! (owner, id)) ->
  (forall id, id ∈ ids -> JsMap.get id rows = presence d0 !! (owner, id)) ->
  exists es, presenceEvents (pfor ids
      (reading_at_place owner fix_ raw (placesForOwner owner d0) rows insideIds None) d).2
      = presenceEvents d ++ es /\ Forall (warranted_event owner fix_ d0) es.
Proof.
  intros Hg Hnd Hp Hr Hins. revert d Hg Hp Hr.
  induction ids as [|id ids IH]; intros d Hg Hp Hr Hpres Hrows.
  { exists []. by rewrite app_nil_r. }
  apply NoDup_cons in Hnd as [Hid Hnd].
  assert (placesForOwner owner d = placesForOwner owner d0) as Epl
    by (unfold placesForOwner; by rewrite Hp).
  assert (JsMap.get id rows = presence d !! (owner, id)) as Hrow
    by (rewrite Hpres, Hrows by left; done).
  set (step := reading_at_place owner fix_ raw (placesForOwner owner d0) rows insideIds None id).
  assert (says (owner, id) (fun x => warranted owner fix_ d0 id (core_transition x) (core_at x)) step d)
    as (said & row' & (Ep & Epl' & Era & es & Ee & Fe & Es) & Hw).
  { destruct (find_place id (placesForOwner owner d0)) as [place|] eqn:Hf.
    2:{ eapply says_nothing. unfold step, reading_at_place. rewrite Hf. emitting. }
    destruct (decide (pl_geometryChangedAt place <= fx_at fix_)) as [Hge|Hge].
    - destruct (reading_at_place_warranted owner id raw place fix_ d Hg
        ltac:(by rewrite Epl) Hge rows insideIds Hrow ltac:(by rewrite Epl)) as (said & row' & He & Hw).
      rewrite Epl in He. exists said, row'. split; [exact He|]. eapply Forall_impl; [exact Hw|].
      intros x. apply warranted_frame; [done..|]. apply Hpres. left.
    - eapply says_nothing. unfold step, reading_at_place. rewrite Hf.
      destruct (Z.ltb_spec (fx_at fix_) (pl_geometryChangedAt place)); [|lia].
      rewrite orb_true_r. simpl. emitting. }
  destruct (reading_at_place_tells (H0 := fun _ _ => True) owner fix_ raw (placesForOwner owner d0) rows insideIds None id
    (fun _ => true) d Hrow Hg) as (Hg' & Hoff & _). fold step in Hg', Hoff.
  destruct (IH Hnd (step d).2 Hg') as (es' & Ee' & Hw').
  - by rewrite Epl'.
  - by rewrite Era.
  - intros id' Hid'. rewrite Hoff by congruence. apply Hpres. by right.
  - intros id' Hid'. apply Hrows. by right.
  - exists (es ++ es'). simpl. unfold mbind, PM_bind. fold step. revert Ee'.
    destruct (step d) as [u d1]. simpl in *. intros ->. rewrite Ee, (assoc_L (++)).
    split; [done|]. apply Forall_app. split; [|done].
    apply Forall_forall. intros e He. rewrite <-Es in Hw. rewrite Forall_fmap in Hw.
    rewrite !Forall_forall in *. specialize (Fe e He). unfold on_place in Fe. simplify_eq.
    split; [done|]. exact (Hw e He).
Qed.

(** C32: a reading publishes an arrival only for a place that definitely contains it:
    a return after a confirmed wait ran out, or the confirmation of a waiting reading at
    least [ARRIVAL_CONFIRM_MS] apart that shows a stop, at the earlier time of the two;
    it publishes a departure only when it is definitely inside another place and no
    older than the last evidence of the stay, or together with such a return.  One
    reading outside a place never publishes. *)
Theorem reading_warranted owner fix_ raw d :
  good d ->
  exists es, presenceEvents (applyReading owner fix_ raw None None d).2 = presenceEvents d ++ es /\
    Forall (warranted_event owner fix_ d) es.
Proof.
  intros Hg. unfold applyReading. case_match; [exists []; by rewrite app_nil_r|].
  unfold pget, mbind, PM_bind. simpl.
  set (ids := inside_ids fix_ (placesForOwner owner d)).
  apply reading_loop_warranted; [done| |done..|].
  - rewrite reading_order_perm. apply JsSet.NoDup_of_list.
  - intros id. apply reading_rows_get.
Qed.

(** ** An exit and the entry after it *)

(** A report without a reading, of the geometry of now, received once. *)
Definition trusted (owner raw : string) (payload : jsval) (placeId : string) (t : Transition)
    (at_ : Z) (d : pdb) : Prop :=
  exists place revision,
    parseRegionTransition payload = Some (mkParsed placeId t at_ false revision None) /\
    live_place owner placeId d = Some place /\ revision = geometryRevision place /\
    pl_geometryChangedAt place <= at_ /\
    isRedelivery owner raw (mkParsed placeId t at_ false revision None) d = false.

Lemma report_trusted owner raw payload placeId t at_ d :
  trusted owner raw payload placeId t at_ d ->
  (processRegionTransition owner raw payload d).2
    = (applyPresence owner placeId (region_change t at_ raw false) d).2.
Proof.
  intros (place & revision & Hp & Hl & -> & Hge & Hre).
  unfold processRegionTransition. rewrite Hp. unfold pget, mbind, PM_bind. simpl.
  rewrite Hl, Hre, bool_decide_false by tauto. simpl.
  destruct (Z.ltb_spec at_ (pl_geometryChangedAt place)); [lia|].
  destruct t; simpl; by destruct (applyPresence _ _ _ d).
Qed.

Lemma trusted_frame owner raw payload placeId t at_ d d' :
  places d' = places d -> rawEvents d' = rawEvents d ->
  trusted owner raw payload placeId t at_ d -> trusted owner raw payload placeId t at_ d'.
Proof. unfold trusted, live_place, isRedelivery. by intros -> ->. Qed.

(** The columns of a stay. *)
Definition stay_columns (row : option PresenceRow) :=
  r ← row; Some (pr_state r, pr_since r, pr_lastEnteredAt r, pr_leavingAt r, pr_visitId r).
Definition transitions (es : list PresenceEvent) : list (Transition * Z) :=
  (fun e => (pe_transition e, pe_occurredAt e)) <$> es.

Section exit_entry.
Variables (owner p : string) (r : PresenceRow) (t t1 t2 : Z) (d : pdb).
Hypothesis Hrow : presence d !! (owner, p) = Some r.
Hypothesis Hin : pr_state r = Inside.
Hypothesis Hwait : pr_leavingAt r = None.
Hypothesis Hnewest : pr_lastEnteredAt r = Some t.
Hypothesis Hsince : pr_since r <= t.
Hypothesis Ht1 : t <= t1.
Hypothesis Ht2 : t1 < t2.

Let short := t2 - t1 <? DEPARTURE_SETTLE_MS.
Let said : list core := if short then [] else [(Departed, t1, Region, None); (Arrived, t2, Region, None)].

Lemma exit_emits raw :
  emits (owner, p) [] (Some (set_confirmed true (set_leavingEvent (Some raw) (set_leaving (Some t1) r))))
    (applyPresence owner p (region_change Departed t1 raw false)) d.
Proof.
  eapply emits_ext; [apply (apply_departed_inside owner p r); try done; simpl; lia|].
  unfold depart_inside, depart_wait. rewrite Hnewest, Hwait. simpl.
  destruct (Z.ltb_spec t1 t); [lia|]. emitting.
Qed.

Lemma entry_emits raw :
  emits (owner, p) [] (Some (set_lastEntered (Some t2) r))
    (applyPresence owner p (region_change Arrived t2 raw false)) d.
Proof.
  eapply emits_ext; [by apply (apply_arrived_inside owner p r)|].
  unfold arrive_inside. rewrite Hnewest, Hwait. simpl.
  destruct (Z.ltb_spec t t2); [|lia]. emitting.
Qed.

(** The exit that comes after the evidence of the return. *)
Lemma late_exit_emits raw d' :
  presence d' !! (owner, p) = Some (set_lastEntered (Some t2) r) ->
  exists row', emits (owner, p) said row'
    (applyPresence owner p (region_change Departed t1 raw false)) d' /\
    stay_columns (match row' with Some _ => row' | None => Some (set_lastEntered (Some t2) r) end)
      = Some (Inside, if short then pr_since r else t2, Some t2, None,
              if short then pr_visitId r else None).
Proof.
  intros Hr.
  assert (exists row', emits (owner, p) said row' (depart_inside owner p (set_lastEntered (Some t2) r)
      (region_change Departed t1 raw false)) d' /\
    stay_columns (match row' with Some _ => row' | None => Some (set_lastEntered (Some t2) r) end)
      = Some (Inside, if short then pr_since r else t2, Some t2, None,
              if short then pr_visitId r else None)) as (row' & He & Hs).
  { unfold depart_inside. simpl. destruct (Z.ltb_spec t1 t2); [|lia]. subst said short.
    destruct (t2 - t1 <? DEPARTURE_SETTLE_MS); eexists; (split; [emitting|]); simpl;
      by rewrite ?Hin, ?Hwait. }
  exists row'. split; [|done]. eapply emits_ext; [|exact He].
  apply (apply_departed_inside owner p (set_lastEntered (Some t2) r)); try done; simpl; lia.
Qed.

Lemma return_emits raw raw' d' :
  presence d' !! (owner, p)
    = Some (set_confirmed true (set_leavingEvent (Some raw) (set_leaving (Some t1) r))) ->
  exists row', emits (owner, p) said row'
    (applyPresence owner p (region_change Arrived t2 raw' false)) d' /\
    stay_columns row' = Some (Inside, if short then pr_since r else t2, Some t2, None,
                      if short then pr_visitId r else None).
Proof.
  intros Hr. eexists. split.
  - eapply emits_eq; [eapply (reentry_emits owner p _ t1 t2 Region (Some raw') d' Hr); try done; lia| |
      reflexivity]. done.
  - subst said short. simpl. destruct (t2 - t1 <? DEPARTURE_SETTLE_MS); simpl; by rewrite ?Hin.
Qed.
End exit_entry.

Lemma emits_transitions {A} owner p said row' (m : PM A) d :
  emits (owner, p) said row' m d ->
  exists es, presenceEvents (m d).2 = presenceEvents d ++ es /\ transitions es = (fun x => (core_transition x, core_at x)) <$> said /\
    Forall (on_place (owner, p)) es.
Proof.
  intros (_ & _ & _ & es & Ee & Fe & <-). exists es. split_and!; [done| |done].
  unfold transitions. by rewrite <-list_fmap_compose.
Qed.

Lemma emits_row {A} k said row' (m : PM A) d :
  emits k said row' m d ->
  presence (m d).2 !! k = match row' with Some _ => row' | None => presence d !! k end.
Proof. intros (-> & _). destruct row'; [apply lookup_insert_eq|done]. Qed.

(** What is published and where the owner stands after an exit at [t1] and an entry
    at [t2]: nothing when the two are close, a departure and a new stay otherwise. *)
Definition exit_entry_outcome (owner p : string) (r : PresenceRow) (t1 t2 : Z) (d d' : pdb) : Prop :=
  let short := t2 - t1 <? DEPARTURE_SETTLE_MS in
  exists es, presenceEvents d' = presenceEvents d ++ es /\ Forall (on_place (owner, p)) es /\
    transitions es = (if short then [] else [(Departed, t1); (Arrived, t2)]) /\
    stay_columns (presence d' !! (owner, p)) =
      Some (Inside, if short then pr_since r else t2, Some t2, None, if short then pr_visitId r else None).

Lemma two_reports owner raw raw' pay pay' p t t' at1 at2 d said row said' row' :
  let c := region_change t at1 raw false in
  let c' := region_change t' at2 raw' false in
  trusted owner raw pay p t at1 d -> trusted owner raw' pay' p t' at2 d ->
  emits (owner, p) said row (applyPresence owner p c) d ->
  emits (owner, p) said' row' (applyPresence owner p c') (applyPresence owner p c d).2 ->
  let d' := (run_ops [ReportOp owner raw pay; ReportOp owner raw' pay'] d).2 in
  exists es, presenceEvents d' = presenceEvents d ++ es /\ Forall (on_place (owner, p)) es /\
    transitions es = (fun x => (core_transition x, core_at x)) <$> (said ++ said') /\
    presence d' !! (owner, p) = match row', row with
      | Some _, _ => row' | None, Some _ => row | None, None => presence d !! (owner, p) end.
Proof.
  intros c c' Ht Ht' He He'.
  set (m := applyPresence owner p c;; applyPresence owner p c').
  assert (emits (owner, p) (said ++ said') (match row' with Some _ => row' | None => row end) m d) as Hm
    by by eapply emits_seq.
  assert ((run_ops [ReportOp owner raw pay; ReportOp owner raw' pay'] d).2 = (m d).2) as Ed.
  { unfold run_ops, m. simpl. unfold mbind, PM_bind. pose proof (report_trusted _ _ _ _ _ _ _ Ht) as E.
    destruct (processRegionTransition owner raw pay d) as [b d1]. simpl in E. subst d1.
    destruct He as (_ & Epl & Era & _). fold c.
    destruct (applyPresence owner p c d) as [u d1]. simpl in *.
    pose proof (report_trusted owner raw' pay' p t' at2 d1 (trusted_frame _ _ _ _ _ _ _ _ Epl Era Ht')) as E'.
    fold c' in E'. destruct (processRegionTransition owner raw' pay' d1) as [b2 d2]. simpl in *.
    by destruct (applyPresence owner p c' d1). }
  simpl. rewrite Ed. destruct (emits_transitions _ _ _ _ _ _ Hm) as (es & E1 & E2 & E3).
  exists es. split_and!; [done..|]. rewrite (emits_row _ _ _ _ _ Hm). by destruct row', row.
Qed.

(** A geofence exit and the entry after it, received in either order while the owner
    is inside and no departure waits, have the same outcome: within the settle window
    the stay goes on and nothing is published; beyond it the departure and the new
    arrival are published with their own times. *)
Theorem exit_entry_commute owner p r t t1 t2 rawX payX rawE payE d :
  presence d !! (owner, p) = Some r -> pr_state r = Inside -> pr_leavingAt r = None ->
  pr_lastEnteredAt r = Some t -> pr_since r <= t -> t <= t1 -> t1 < t2 ->
  trusted owner rawX payX p Departed t1 d -> trusted owner rawE payE p Arrived t2 d ->
  let exit_ := ReportOp owner rawX payX in
  let entry := ReportOp owner rawE payE in
  exit_entry_outcome owner p r t1 t2 d (run_ops [exit_; entry] d).2 /\
  exit_entry_outcome owner p r t1 t2 d (run_ops [entry; exit_] d).2.
Proof.
  intros Hr Hs Hl Ht Hst Ht1 Ht2 Hx He exit_ entry. split.
  - eassert (emits (owner, p) _ _ (applyPresence owner p (region_change Departed t1 rawX false)) d)
      as H1 by (eapply exit_emits; eassumption).
    edestruct return_emits as (row' & H2 & Hstay);
      [eassumption|eassumption|exact (emits_row _ _ _ _ _ H1)|].
    destruct (two_reports _ _ _ _ _ _ _ _ _ _ _ _ _ _ _ Hx He H1 H2) as (es & E1 & E2 & E3 & E4).
    exists es. split_and!; [done|done| |].
    + rewrite E3. by destruct (_ <? _).
    + subst exit_ entry. rewrite E4. by destruct row'.
  - eassert (emits (owner, p) _ _ (applyPresence owner p (region_change Arrived t2 rawE false)) d)
      as H1 by (eapply entry_emits; eassumption).
    edestruct late_exit_emits as (row' & H2 & Hstay);
      [eassumption..|exact (emits_row _ _ _ _ _ H1)|].
    destruct (two_reports _ _ _ _ _ _ _ _ _ _ _ _ _ _ _ He Hx H1 H2) as (es & E1 & E2 & E3 & E4).
    exists es. split_and!; [done|done| |].
    + rewrite E3. by destruct (_ <? _).
    + subst exit_ entry. rewrite E4. by destruct row'.
Qed.
End readings.

(** ** A day of one phone *)

Module Day.
(** A flat earth. *)
#[local] Instance flat : PresenceEnv := {|
  math_PI := 180;
  math_sin x := x;
  math_cos _ := 1%Q;
  math_asin x := x;
  math_sqrt x := x;
  date_parse s :=
    if bool_decide (s = "1970-01-01T00:10:00Z") then Some 600000
    else if bool_decide (s = "1970-01-01T00:11:00Z") then Some 660000
    else if bool_decide (s = "1970-01-01T00:20:00Z") then Some 1200000 else None;
  json_text _ := "";
  ulid n := "u" +:+ pretty n
|}.

Definition home : string := "01HXYZ00000000000000000000".
Definition start : pdb :=
  mkPdb ∅ [] [] {["ada" := 0]} {[home := mkPlace 0 0 100 0 None "ada"]} ∅ 0.

Definition fix_at (at_ : Z) : FixReading := mkFix 0 0 5 at_ (Some 0%Q).
Definition fix_event (at_ : Z) : RawEvent :=
  mkRaw "location.fix.v1" at_ at_ (JObj [("payload", JObj [
    ("coordinate", JObj [("lat", JNum (JFin 0)); ("lon", JNum (JFin 0))]);
    ("horizontal_accuracy_m", JNum (JFin 5)); ("speed_mps", JNum (JFin 0))])]) "ada".
Definition report (transition at_ : string) : jsval :=
  JObj [("place_id", JStr home); ("transition", JStr transition); ("initial", JBool false);
        ("occurred_at", JStr at_); ("geometry_revision", JStr "0")].

(** Two readings at home, then out, and the wait runs its time. *)
Definition ops : list PresenceOp :=
  [RecordOp "r1" (fix_event 0); ReadingOp "ada" (fix_at 0) "r1";
   RecordOp "r2" (fix_event 60000); ReadingOp "ada" (fix_at 60000) "r2";
   ReportOp "ada" "r3" (report "exited" "1970-01-01T00:10:00Z");
   SettleOp 1000000 false].

Lemma good_start : good start.
Proof. intros k r. unfold start. simpl. by rewrite lookup_empty. Qed.

Lemma presence_timeline_witness :
  baseline_free ("ada", home) ops start = true /\
  transitions (presenceEvents (run_ops ops start).2) = [(Arrived, 0); (Departed, 600000)] /\
  let d' := (run_ops ops start).2 in
  let row := presence start !! ("ada", home) in
  let row' := presence d' !! ("ada", home) in
  good d' /\ exists es, presenceEvents d' = presenceEvents start ++ es /\
    let mine := events_of ("ada", home) es in
    in_order (since_of row) (pe_occurredAt <$> mine) (since_of row') /\
    (baseline_free ("ada", home) ops start = true ->
     timeline (visit_reported ops "ada") (stay_of row) (core_of <$> mine) (stay_of row')).
Proof.
  split; [vm_compute; reflexivity|]. split; [vm_compute; reflexivity|].
  apply (presence_timeline "ada" home ops start); [apply good_start|vm_compute; reflexivity].
Defined.

(** After the first reading. *)
Definition waiting : pdb := (run_ops (take 3 ops) start).2.

Lemma good_run n : good (run_ops (take n ops) start).2.
Proof.
  apply (run_ops_tells (H0 := visit_reported (take n ops)) ("ada", "nowhere") (take n ops) start);
    [apply all_reported| |apply good_start].
  do 7 (destruct n; [done|]). done.
Qed.

Lemma reading_warranted_witness :
  transitions (presenceEvents (applyReading "ada" (fix_at 60000) "r2" None None waiting).2)
    = [(Arrived, 0)] /\
  exists es, presenceEvents (applyReading "ada" (fix_at 60000) "r2" None None waiting).2
      = presenceEvents waiting ++ es /\
    Forall (warranted_event "ada" (fix_at 60000) waiting) es.
Proof.
  split; [vm_compute; reflexivity|].
  apply (reading_warranted "ada" (fix_at 60000) "r2" waiting). apply (good_run 3).
Defined.

(** At home. *)
Definition settled : pdb := (run_ops (take 4 ops) start).2.

Lemma exit_entry_commute_witness :
  exists r, presence settled !! ("ada", home) = Some r /\
  exit_entry_outcome "ada" home r 600000 1200000 settled
    (run_ops [ReportOp "ada" "r3" (report "exited" "1970-01-01T00:10:00Z");
              ReportOp "ada" "r4" (report "entered" "1970-01-01T00:20:00Z")] settled).2 /\
  exit_entry_outcome "ada" home r 600000 1200000 settled
    (run_ops [ReportOp "ada" "r4" (report "entered" "1970-01-01T00:20:00Z");
              ReportOp "ada" "r3" (report "exited" "1970-01-01T00:10:00Z")] settled).2.
Proof.
  destruct (presence settled !! ("ada", home)) as [r|] eqn:E; [|vm_compute in E; discriminate].
  exists r. split; [reflexivity|].
  assert (pr_state r = Inside /\ pr_leavingAt r = None /\ pr_lastEnteredAt r = Some 60000 /\
          pr_since r = 0) as (E1 & E2 & E3 & E4).
  { vm_compute in E. injection E as <-. repeat split. }
  apply (exit_entry_commute "ada" home r 60000 600000 1200000); try assumption; try lia.
  all: exists (mkPlace 0 0 100 0 None "ada"), "0"; repeat split; vm_compute; try reflexivity; done.
Defined.
End Day.
