(* ===== verification/ThreadMessages.v ===== *)
(** The messages of a thread as the web client keeps them
    ([web/src/features/threads/thread-message-state.ts], [use-thread-messages.ts]).

    Messages are immutable objects, and the hook compares them by identity: an
    object is marked with the operation that made it ([m_made]), and two are the same
    when mark and value are ([same_object] says why that is enough).  What [Date] reads of
    a timestamp, [localeCompare] and the text of a value that is no string are
    parameters.  React state and its ref are one state here, [client]; an
    asynchronous request is two operations, and the answer names the selection it
    was asked for. *)
From Stdlib Require Import ZArith QArith Lia.
From stdpp Require Import base tactics strings gmap sorting option pretty.
From stdpp Require Import list.
From S2P Require Import Prelude JsRuntime Json JsText.
Open Scope Z_scope.

Class ClientEnv := {
  time_of : string -> option Z;               (** [new Date(s).getTime()], [None] for NaN *)
  localeCompare : string -> string -> Z;
  string_of : jsval -> string                 (** [String(v)] of a value that is no string *)
}.

(** ** Messages *)

Notation jsobject := (list (string * jsval)).

Record ApiMessage := mkMessage {
  m_message_id : string;
  m_client_id : string;
  m_role : string;
  m_display_role : string;
  m_content : string;
  m_created_at : string;
  m_tool_payload : option jsobject;
  m_metadata : option jsobject;
  m_presentation : option jsval;
  m_made : nat
}.

Definition with_created_at (v : string) (made : nat) (m : ApiMessage) : ApiMessage :=
  mkMessage (m_message_id m) (m_client_id m) (m_role m) (m_display_role m) (m_content m) v
    (m_tool_payload m) (m_metadata m) (m_presentation m) made.
Definition with_ids (message_id client_id : string) (metadata : option jsobject) (made : nat)
    (m : ApiMessage) : ApiMessage :=
  mkMessage message_id client_id (m_role m) (m_display_role m) (m_content m) (m_created_at m)
    (m_tool_payload m) metadata (m_presentation m) made.
Definition with_metadata (metadata : jsobject) (made : nat) (m : ApiMessage) : ApiMessage :=
  with_ids (m_message_id m) (m_client_id m) (Some metadata) made m.

(** An object that arrives from the server. *)
Definition fresh_object (made : nat) (m : ApiMessage) : ApiMessage :=
  with_created_at (m_created_at m) made m.

#[export] Instance ApiMessage_eq_dec : EqDecision ApiMessage.
Proof. solve_decision. Defined.

(** [a === b].  The mark tells objects of different operations apart.  Of two that one
    operation makes at most one is published, so they meet only in [upsertMessage], where
    a spread differs from what it was made of in value, and where the value is the same
    the list is the same too. *)
Definition same_object (a b : ApiMessage) : bool := bool_decide (a = b).

Definition is_true (v : jsval) : bool := match v with JBool true => true | _ => false end.
Definition meta (key : string) (m : ApiMessage) : jsval :=
  match m_metadata m with Some fs => field_lookup key fs | None => JUndef end.

(** [{...fs, k: v, ...}]. *)
Definition spread (fs : jsobject) (kvs : jsobject) : jsobject :=
  foldl (fun acc kv => JsMap.set kv.1 kv.2 acc) fs kvs.

Definition getMessageIdentity (m : ApiMessage) : string := m_client_id m.
Definition isOptimisticMessage (m : ApiMessage) : bool := is_true (meta "optimistic" m).
Definition isPendingToolMessage (m : ApiMessage) : bool :=
  bool_decide (m_role m = "tool") && is_true (meta "pending" m).
Definition isDraftAssistantMessage (m : ApiMessage) : bool :=
  bool_decide (m_role m = "assistant") && is_true (meta "draft" m).
Definition isDraftReasoningMessage (m : ApiMessage) : bool :=
  bool_decide (m_role m = "reasoning") && is_true (meta "draft" m).
Definition isSyntheticMessage (m : ApiMessage) : bool :=
  isOptimisticMessage m || isPendingToolMessage m || isDraftAssistantMessage m ||
  isDraftReasoningMessage m.
Definition isAgentSyntheticMessage (m : ApiMessage) : bool :=
  isPendingToolMessage m || isDraftAssistantMessage m || isDraftReasoningMessage m.
Definition isCanonicalMessage (m : ApiMessage) : bool :=
  bool_decide (m_message_id m <> m_client_id m) && negb (isSyntheticMessage m).

(** ** What the agent state says *)

Record PendingTool := mkTool {
  pt_client_id : string;
  pt_call_id : string;
  pt_name : string;
  pt_args : jsobject;
  pt_started_at : option string
}.

Record ApiDraftAssistant := mkDraft {
  da_client_id : string;
  da_text : string;
  da_started_at : option string;
  da_updated_at : string
}.

Record ApiDraftReasoning := mkReasoning {
  dr_client_id : string;
  dr_text : string;
  dr_llm_call_id : string;
  dr_index : Z;
  dr_provider : string;
  dr_provider_model : string;
  dr_started_at : option string;
  dr_updated_at : string
}.

Record BrowserWait := mkBrowserWait { bw_turn_id : string; bw_pending_tool : PendingTool }.

Record ApiPendingQuestion := mkQuestion {
  pq_request_id : string;
  pq_turn_id : string;
  pq_client_id : string;
  pq_call_id : string;
  pq_request : jsobject;
  pq_created_at : string
}.

(** A data request or a proposal; [rq_status] is the status of what it asks for. *)
Record PendingRequest := mkRequest {
  rq_turn_id : string;
  rq_client_id : option string;
  rq_call_id : string;
  rq_created_at : string;
  rq_status : string;
  rq_args : jsobject
}.

Record InvocationRow := mkInvocationRow { iv_turn_id : string; iv_status : string }.

Record ApiAgentState := mkAgentState {
  ag_invocations : option (list InvocationRow);
  ag_pending_browser_waits : option (list BrowserWait);
  ag_pending_questions : option (list ApiPendingQuestion);
  ag_pending_data_requests : option (list PendingRequest);
  ag_pending_automation_requests : option (list PendingRequest);
  ag_pending_bootstrap_requests : option (list PendingRequest);
  ag_active : bool;
  ag_turn_id : option string;
  ag_pending_tool : option PendingTool;
  ag_draft_assistant : option ApiDraftAssistant;
  ag_draft_reasoning : option (list ApiDraftReasoning);
  ag_updated_at : string
}.

Record MessagePage := mkPage {
  pg_limit : Z;
  pg_returned : Z;
  pg_has_more_before : bool;
  pg_has_more_after : bool;
  pg_before_cursor : option string;
  pg_after_cursor : option string
}.

Record ApiMessagePage := mkMessagePage {
  mp_messages : list ApiMessage;
  mp_page : MessagePage
}.

(** ** A stable sort *)

(** [[...xs].sort(compare)], [compare] consistent. *)
Fixpoint sort_insert {A} (compare : A -> A -> Z) (x : A) (l : list A) : list A :=
  match l with
  | [] => [x]
  | y :: l => if compare x y <=? 0 then x :: y :: l else y :: sort_insert compare x l
  end.
Definition js_sort {A} (compare : A -> A -> Z) (l : list A) : list A :=
  foldr (sort_insert compare) [] l.

Section messages.
Context `{ClientEnv}.

(** A NaN counts as equal. *)
Definition compare_messages (left_ right_ : ApiMessage) : Z :=
  match time_of (m_created_at left_), time_of (m_created_at right_) with
  | Some a, Some b =>
      if a - b =? 0 then localeCompare (getMessageIdentity left_) (getMessageIdentity right_) else a - b
  | _, _ => 0
  end.

Definition sortMessagesChronologically (messages : list ApiMessage) : list ApiMessage :=
  js_sort compare_messages messages.

(** ** Updates of the list *)

(** [made] marks an object that is made here.  Where the code returns the same
    array the list is the same. *)
Definition upsertMessage (made : nat) (existing : list ApiMessage) (next : ApiMessage)
    : list ApiMessage :=
  match find_index (fun m => bool_decide (getMessageIdentity m = getMessageIdentity next)) existing with
  | None => sortMessagesChronologically (existing ++ [next])
  | Some index =>
      match existing !! index with
      | None => existing
      | Some current =>
          if isCanonicalMessage current && isSyntheticMessage next then existing
          else if same_object current next then existing
          else
            let next :=
              if bool_decide (m_role current <> "user") &&
                 bool_decide (m_message_id current = m_client_id current) &&
                 bool_decide (m_message_id next <> m_message_id current)
              then with_created_at (m_created_at current) made next else next in
            let nextMessages := <[index := next]> existing in
            if bool_decide (m_created_at current = m_created_at next) then nextMessages
            else sortMessagesChronologically nextMessages
      end
  end.

Definition insertStreamMessage (made : nat) (existing : list ApiMessage) (next : ApiMessage)
    : list ApiMessage :=
  if existsb (fun m => bool_decide (m_client_id m = m_client_id next) && isCanonicalMessage m) existing
  then existing else upsertMessage made existing next.

(** The older page without what is there, and each message once. *)
Fixpoint unique_older (ids : list string) (older : list ApiMessage) : list ApiMessage :=
  match older with
  | [] => []
  | m :: older =>
      if bool_decide (m_client_id m ∈ ids) then unique_older ids older
      else m :: unique_older (JsSet.add (m_client_id m) ids) older
  end.
Definition mergeOlderMessages (existing older : list ApiMessage) : list ApiMessage :=
  unique_older (JsSet.of_list (getMessageIdentity <$> existing)) older ++ existing.

Definition reconcileMessagePersistence (made : nat) (existing : list ApiMessage)
    (currentClientId nextMessageId nextClientId : string) (nextMessage : option ApiMessage)
    : list ApiMessage :=
  match nextMessage with
  | Some next =>
      sortMessagesChronologically
        (List.filter (fun m => bool_decide (getMessageIdentity m <> currentClientId) &&
                               bool_decide (getMessageIdentity m <> getMessageIdentity next)) existing
         ++ [next])
  | None =>
      sortMessagesChronologically ((fun m =>
        if bool_decide (getMessageIdentity m <> currentClientId) then m
        else
          let nextMetadata := match m_metadata m with
            | Some fs => JsMap.delete "optimistic" fs
            | None => []
            end in
          with_ids nextMessageId nextClientId
            (match nextMetadata with [] => None | _ => Some nextMetadata end) made m) <$> existing)
  end.

(** [upsertDraftAssistantMessage] and [upsertDraftReasoningMessage] are the same. *)
Definition upsertDraftMessage (made : nat) (existing : list ApiMessage) (clientId : string)
    (updater : option ApiMessage -> ApiMessage) : list ApiMessage :=
  let current := List.find (fun m => bool_decide (getMessageIdentity m = clientId)) existing in
  if match current with Some m => isCanonicalMessage m | None => false end then existing
  else upsertMessage made existing (updater current).

(** ** Cards and drafts *)

(** [now] is the ISO text of the time, where the code reads the clock. *)
Definition buildPendingToolMessageFromToolCall (made : nat) (turnId clientId callId name : string)
    (args : option jsobject) (startedAt createdAt : option string) (now : string) : ApiMessage :=
  mkMessage clientId clientId "tool" name name (startedAt ?? createdAt ?? now)
    (Some (spread (args ?? []) [("tool", JStr name); ("call_id", JStr callId)]))
    (Some ([("turn_id", JStr turnId); ("pending", JBool true)] ++
           match startedAt with
           | Some s => if str_truthy s then [("started_at", JStr s)] else []
           | None => []
           end))
    None made.

Definition tool_card (made : nat) (turnId : string) (tool : PendingTool) (createdAt : option string)
    (now : string) : ApiMessage :=
  buildPendingToolMessageFromToolCall made turnId (pt_client_id tool) (pt_call_id tool) (pt_name tool)
    (Some (pt_args tool)) (pt_started_at tool) createdAt now.

Definition is_str (s : string) (v : jsval) : bool :=
  match v with JStr t => bool_decide (s = t) | _ => false end.

(** [invocation-state.ts]: the database overrides stale activity. *)
Definition invocationAllowsLiveActivity (state : ApiAgentState) : bool :=
  if negb (ag_active state) then false
  else
    match List.find (fun row => bool_decide (Some (iv_turn_id row) = ag_turn_id state))
            (ag_invocations state ?? []) with
    | None => true
    | Some row => bool_decide (iv_status row = "running") || bool_decide (iv_status row = "leased")
    end.

Definition pending_named (state : ApiAgentState) (name : string) : bool :=
  match ag_pending_tool state with Some t => bool_decide (pt_name t = name) | None => false end.
Definition given {A} (o : option A) : bool := bool_decide (is_Some o).

Definition buildPendingToolMessageFromState (made : nat) (state : ApiAgentState) (now : string)
    : option ApiMessage :=
  let waits_for_control := match ag_pending_tool state with
    | Some t => is_str "return_control" (field_lookup "wait_kind" (pt_args t))
    | None => false
    end in
  let handoff := pending_named state "browser_request_handoff" in
  if given (ag_pending_browser_waits state) && (handoff || waits_for_control) then None
  else
    let browserWait := handoff && ostr_truthy (ag_turn_id state) &&
      existsb (fun i => bool_decide (Some (iv_turn_id i) = ag_turn_id state) &&
                        bool_decide (iv_status i = "waiting_for_user")) (ag_invocations state ?? []) in
    match browserWait, ag_pending_tool state, ag_turn_id state with
    | true, Some tool, Some turn => Some (tool_card made turn tool None now)
    | _, _, _ =>
        if given (ag_pending_data_requests state) && pending_named state "data_request_api_key" then None
        else if given (ag_pending_questions state) && pending_named state "ask_user_questions" then None
        else if given (ag_pending_bootstrap_requests state) &&
                pending_named state "automations_request_existing_contacts" then None
        else if given (ag_pending_automation_requests state) &&
                pending_named state "automations_request_activation" then None
        else if negb (invocationAllowsLiveActivity state) then None
        else if negb (ag_active state) || negb (ostr_truthy (ag_turn_id state)) then None
        else
          match ag_turn_id state, ag_pending_tool state with
          | Some turn, Some tool => Some (tool_card made turn tool (Some (ag_updated_at state)) now)
          | _, _ => None
          end
    end.

Definition buildDraftAssistantMessageFromState (made : nat) (state : ApiAgentState)
    : option ApiMessage :=
  if negb (invocationAllowsLiveActivity state) then None
  else if negb (ag_active state) || negb (ostr_truthy (ag_turn_id state)) then None
  else
    turn ← ag_turn_id state;
    draft ← ag_draft_assistant state;
    Some (mkMessage (da_client_id draft) (da_client_id draft) "assistant" "Bud Agent" (da_text draft)
      (da_started_at draft ?? da_updated_at draft) None
      (Some ([("turn_id", JStr turn); ("draft", JBool true)] ++
             match da_started_at draft with
             | Some s => if str_truthy s then [("started_at", JStr s)] else []
             | None => []
             end)) None made).

Definition ostr (o : option string) : jsval := match o with Some s => JStr s | None => JUndef end.

Definition buildDraftReasoningMessagesFromState (made : nat) (state : ApiAgentState)
    : list ApiMessage :=
  if negb (invocationAllowsLiveActivity state) then []
  else if negb (ag_active state) || negb (ostr_truthy (ag_turn_id state)) then []
  else
    (fun draft => mkMessage (dr_client_id draft) (dr_client_id draft) "reasoning" "Reasoning"
      (dr_text draft) (dr_started_at draft ?? dr_updated_at draft) None
      (Some [("artifact_kind", JStr "reasoning"); ("model_visible", JBool false);
             ("turn_id", ostr (ag_turn_id state)); ("draft", JBool true);
             ("llm_call_id", JStr (dr_llm_call_id draft));
             ("reasoning_index", JNum (JFin (inject_Z (dr_index draft))));
             ("provider", JStr (dr_provider draft));
             ("provider_model", JStr (dr_provider_model draft));
             ("started_at", ostr (dr_started_at draft))]) None made)
    <$> (ag_draft_reasoning state ?? []).

(** A saved message of the card's id, or one that is not the agent's, wins. *)
Definition settled_id (clientId : string) (messages : list ApiMessage) : bool :=
  existsb (fun m => bool_decide (m_client_id m = clientId) && negb (isAgentSyntheticMessage m)) messages.

Definition upsert_card (made : nat) (messages : list ApiMessage) (card : ApiMessage) : list ApiMessage :=
  if settled_id (m_client_id card) messages then messages else upsertMessage made messages card.

Definition question_card (made : nat) (now : string) (q : ApiPendingQuestion) : ApiMessage :=
  buildPendingToolMessageFromToolCall made (pq_turn_id q) (pq_client_id q) (pq_call_id q)
    "ask_user_questions" (Some (spread (pq_request q) [("request_id", JStr (pq_request_id q))]))
    (Some (pq_created_at q)) None now.

(** A request that waits for an answer and has a message. *)
Definition request_card (made : nat) (now name : string) (r : PendingRequest) : option ApiMessage :=
  clientId ← rq_client_id r;
  if str_truthy clientId && bool_decide (rq_status r = "pending")
  then Some (buildPendingToolMessageFromToolCall made (rq_turn_id r) clientId (rq_call_id r) name
               (Some (rq_args r)) (Some (rq_created_at r)) None now)
  else None.

(** The waits, questions and requests, in the order they are put. *)
Definition state_cards (made : nat) (now : string) (state : ApiAgentState) : list ApiMessage :=
  ((fun w => tool_card made (bw_turn_id w) (bw_pending_tool w) None now)
     <$> (ag_pending_browser_waits state ?? []))
  ++ (question_card made now <$> (ag_pending_questions state ?? []))
  ++ omap (request_card made now "data_request_api_key") (ag_pending_data_requests state ?? [])
  ++ omap (request_card made now "automations_request_activation")
       (ag_pending_automation_requests state ?? [])
  ++ omap (request_card made now "automations_request_existing_contacts")
       (ag_pending_bootstrap_requests state ?? []).

Definition put_pending_tool (made : nat) (now : string) (state : ApiAgentState)
    (base : list ApiMessage) : list ApiMessage :=
  match buildPendingToolMessageFromState made state now with
  | Some card =>
      if existsb (fun m => bool_decide (m_client_id m = m_client_id card)) base then base
      else upsertMessage made base card
  | None => base
  end.

Definition put_draft (made : nat) (state : ApiAgentState) (messages : list ApiMessage)
    : list ApiMessage :=
  match buildDraftAssistantMessageFromState made state with
  | Some draft => upsertMessage made messages draft
  | None => messages
  end.

Definition applyAgentStateOverlay (made : nat) (now : string) (messages : list ApiMessage)
    (state : ApiAgentState) : list ApiMessage :=
  let base := List.filter (fun m => negb (isAgentSyntheticMessage m)) messages in
  let cards := foldl (upsert_card made) (put_pending_tool made now state base)
                 (state_cards made now state) in
  sortMessagesChronologically (foldl (upsertMessage made) (put_draft made state cards)
    (buildDraftReasoningMessagesFromState made state)).

(** ** Snapshots *)

(** The server's row acknowledges the live one. *)
Definition acknowledges (canonical current : ApiMessage) : bool :=
  negb (isSyntheticMessage canonical) &&
  (bool_decide (m_content canonical = m_content current) || isPendingToolMessage current ||
   ((isDraftAssistantMessage current || isDraftReasoningMessage current) &&
    starts_with (m_content current) (m_content canonical))).

Definition keep_protected (made : nat) (incoming : list ApiMessage) (protectedIds removedIds : list string)
    (reconciled : list ApiMessage) (current : ApiMessage) : list ApiMessage :=
  let id := m_client_id current in
  if bool_decide (id ∈ protectedIds) && negb (bool_decide (id ∈ removedIds)) then
    (** the last row of an id, as [new Map(entries)] keeps it *)
    match last (List.filter (fun m => bool_decide (m_client_id m = id)) incoming) with
    | Some canonical =>
        if acknowledges canonical current
        then upsertMessage made reconciled (with_created_at (m_created_at current) made canonical)
        else upsertMessage made reconciled current
    | None => upsertMessage made reconciled current
    end
  else reconciled.

Definition mergeLatestBootstrapState (made : nat) (now : string) (currentMessages : list ApiMessage)
    (currentPage : MessagePage) (nextPage : ApiMessagePage) (nextAgentState : ApiAgentState)
    (protectedIds removedIds : list string) : list ApiMessage * MessagePage :=
  let incoming := List.filter (fun m => bool_decide (m_client_id m ∉ removedIds)) (mp_messages nextPage) in
  let latestIds := m_client_id <$> incoming in
  let preservedOlderMessages := List.filter (fun m => negb (isSyntheticMessage m) &&
    bool_decide (getMessageIdentity m ∉ latestIds)) currentMessages in
  let canonicalMessages := sortMessagesChronologically (preservedOlderMessages ++ incoming) in
  let reconciled := foldl (keep_protected made incoming protectedIds removedIds)
    (applyAgentStateOverlay made now canonicalMessages nextAgentState) currentMessages in
  (List.filter (fun m => bool_decide (m_client_id m ∉ removedIds)) reconciled,
   let page := mp_page nextPage in
   let from := match currentMessages with [] => page | _ => currentPage end in
   mkPage (pg_limit page) (zlen preservedOlderMessages + zlen (mp_messages nextPage))
     (pg_has_more_before from) (pg_has_more_after page) (pg_before_cursor from) (pg_after_cursor page)).

Definition managed_names (state : ApiAgentState) : list string :=
  (if given (ag_pending_questions state) then ["ask_user_questions"] else [])
  ++ (if given (ag_pending_data_requests state) then ["data_request_api_key"] else [])
  ++ (if given (ag_pending_automation_requests state) then ["automations_request_activation"] else [])
  ++ (if given (ag_pending_bootstrap_requests state)
      then ["automations_request_existing_contacts"] else [])
  ++ (if given (ag_pending_browser_waits state) then ["browser_request_handoff"] else []).

Definition payload (key : string) (m : ApiMessage) : jsval :=
  match m_tool_payload m with Some fs => field_lookup key fs | None => JUndef end.

(** [String(message.tool_payload?.tool ?? message.display_role)]. *)
Definition tool_of (m : ApiMessage) : string :=
  match payload "tool" m with
  | JUndef | JNull => m_display_role m
  | JStr s => s
  | v => string_of v
  end.

Definition belongs (state : ApiAgentState) (m : ApiMessage) : bool :=
  isPendingToolMessage m &&
  (bool_decide (tool_of m ∈ managed_names state) ||
   (given (ag_pending_browser_waits state) && is_str "return_control" (payload "wait_kind" m))).

Definition without_activity (state : ApiAgentState) : ApiAgentState :=
  mkAgentState (ag_invocations state) (ag_pending_browser_waits state) (ag_pending_questions state)
    (ag_pending_data_requests state) (ag_pending_automation_requests state)
    (ag_pending_bootstrap_requests state) false (ag_turn_id state) None None (Some [])
    (ag_updated_at state).

Definition applyPendingRequestInventory (made : nat) (now : string) (messages : list ApiMessage)
    (state : ApiAgentState) : list ApiMessage :=
  let next := applyAgentStateOverlay made now
    (List.filter (fun m => negb (isAgentSyntheticMessage m)) messages) (without_activity state) in
  foldl (fun next m =>
    if isAgentSyntheticMessage m && negb (belongs state m) then upsertMessage made next m else next)
    next messages.

(** [status] is [succeeded], [failed] or [canceled]. *)
Definition finalizeTurnMessages (made : nat) (messages : list ApiMessage) (turnId status : string)
    : list ApiMessage :=
  messages ≫= (fun m =>
    if negb (is_str turnId (meta "turn_id" m)) || negb (isAgentSyntheticMessage m) then [m]
    else if negb (str_truthy (trim (m_content m))) then []
    else [with_metadata (spread (m_metadata m ?? [])
            ([("draft", JBool false); ("pending", JBool false)] ++
             (if bool_decide (status = "succeeded") then [] else [("outcome", JStr status)])))
            made m]).
End messages.
