(* ===== verification/ThreadClient.v ===== *)
(** The state of the thread view: what [useThreadMessages] does with snapshots,
    pages and stream events ([web/src/features/threads/use-thread-messages.ts]).

    [protectedIds] are the rows that live evidence of the stream made and a
    snapshot may not take back; [removedIds] those that were taken away and a
    snapshot may not bring back.  Loading flags, errors, scrolling and turn
    timings are left out. *)
From Stdlib Require Import ZArith QArith Lia.
From stdpp Require Import base tactics strings gmap sorting option pretty.
From stdpp Require Import list.
From S2P Require Import Prelude JsRuntime Json JsText ThreadMessages.
Open Scope Z_scope.

Record client := mkClient {
  cl_messages : list ApiMessage;
  cl_page : MessagePage;
  cl_protected : list string;
  cl_removed : list string;
  cl_selection : nat;          (** which [selection] object: a new one for each thread *)
  cl_made : nat                (** operations so far, the mark of the next objects *)
}.

Section client.
Context `{ClientEnv}.

Definition publish (messages : list ApiMessage) (c : client) : client :=
  mkClient messages (cl_page c) (cl_protected c) (cl_removed c) (cl_selection c) (S (cl_made c)).
Definition set_page (page : MessagePage) (c : client) : client :=
  mkClient (cl_messages c) page (cl_protected c) (cl_removed c) (cl_selection c) (cl_made c).
Definition protect (id : string) (c : client) : client :=
  mkClient (cl_messages c) (cl_page c) (JsSet.add id (cl_protected c)) (cl_removed c)
    (cl_selection c) (cl_made c).
Definition unprotect (id : string) (c : client) : client :=
  mkClient (cl_messages c) (cl_page c) (JsSet.delete id (cl_protected c)) (cl_removed c)
    (cl_selection c) (cl_made c).
Definition mark_removed (id : string) (c : client) : client :=
  mkClient (cl_messages c) (cl_page c) (cl_protected c) (JsSet.add id (cl_removed c))
    (cl_selection c) (cl_made c).
Definition unremove (id : string) (c : client) : client :=
  mkClient (cl_messages c) (cl_page c) (cl_protected c) (JsSet.delete id (cl_removed c))
    (cl_selection c) (cl_made c).

(** The object of an id in a list of unique ids. *)
Definition object_of (id : string) (messages : list ApiMessage) : option ApiMessage :=
  last (List.filter (fun m => bool_decide (m_client_id m = id)) messages).

(** A row of [next] that is not the object [previous] has. *)
Definition changed_from (previous : list ApiMessage) (m : ApiMessage) : bool :=
  match object_of (m_client_id m) previous with
  | Some old => negb (same_object old m)
  | None => true
  end.

Definition setMessages (update : list ApiMessage -> list ApiMessage) (c : client) : client :=
  let previous := cl_messages c in
  let next := update previous in
  let ids := m_client_id <$> next in
  let c1 := foldl (fun c m => if changed_from previous m
      then unremove (m_client_id m) (protect (m_client_id m) c) else c) c next in
  let c2 := foldl (fun c m => if bool_decide (m_client_id m ∉ ids)
      then mark_removed (m_client_id m) (unprotect (m_client_id m) c) else c) c1 previous in
  publish next c2.

Definition protect_drafts (messages : list ApiMessage) (c : client) : client :=
  foldl (fun c m => if is_true (meta "draft" m) && bool_decide (m_role m <> "tool")
    then protect (m_client_id m) c else c) c messages.

(** What a response says is made of new objects. *)
Definition received_page (made : nat) (p : ApiMessagePage) : ApiMessagePage :=
  mkMessagePage (fresh_object made <$> mp_messages p) (mp_page p).

(** ** Snapshots and pages *)

(** Another thread is selected, or the first. *)
Definition open_thread (page : ApiMessagePage) (agent : ApiAgentState) (now : string) (c : client)
    : client :=
  let messages := applyAgentStateOverlay (cl_made c) now
    (mp_messages (received_page (cl_made c) page)) agent in
  protect_drafts messages
    (mkClient messages (mp_page page) [] [] (S (cl_selection c)) (S (cl_made c))).

Definition mergeLatestBootstrap (page : ApiMessagePage) (agent : ApiAgentState) (now : string)
    (c : client) : client :=
  let '(messages, page') := mergeLatestBootstrapState (cl_made c) now (cl_messages c) (cl_page c)
    (received_page (cl_made c) page) agent (cl_protected c) (cl_removed c) in
  set_page page' (publish messages c).

Definition applyAgentState (agent : ApiAgentState) (now : string) (c : client) : client :=
  publish (mergeLatestBootstrapState (cl_made c) now (cl_messages c) (cl_page c)
    (mkMessagePage (List.filter (fun m => bool_decide (m_client_id m ∉ cl_protected c)) (cl_messages c))
       (cl_page c)) agent (cl_protected c) (cl_removed c)).1 c.

Definition applyPendingRequests (state : ApiAgentState) (now : string) (c : client) : client :=
  let next := applyPendingRequestInventory (cl_made c) now (cl_messages c) state in
  let ids := m_client_id <$> next in
  publish next (foldl (fun c m => if bool_decide (m_client_id m ∉ ids)
    then unprotect (m_client_id m) c else c) c (cl_messages c)).

(** The rows of the request by message id, the last of each. *)
Definition requested_row (messageId : string) (batch : list ApiMessage) : option ApiMessage :=
  last (List.filter (fun m => bool_decide (m_message_id m = messageId)) batch).

(** [requested.get(id) === message], where either may be missing. *)
Definition same_row (a b : option ApiMessage) : bool :=
  match a, b with
  | Some a, Some b => same_object a b
  | None, None => true
  | _, _ => false
  end.

Definition gone (batch : list ApiMessage) (missing : list string) (m : ApiMessage) : bool :=
  bool_decide (m_message_id m ∈ missing) && same_row (requested_row (m_message_id m) batch) (Some m).

(** A returned row replaces what is shown, unless live evidence came since. *)
Definition take_row (batch : list ApiMessage) (acc : list ApiMessage * client) (m : ApiMessage)
    : list ApiMessage * client :=
  let '(next, c) := acc in
  let current := List.find (fun row => bool_decide (m_message_id row = m_message_id m)) next in
  if negb (same_row current (requested_row (m_message_id m) batch)) then (next, c)
  else (upsertMessage (cl_made c) next m, unremove (m_client_id m) (unprotect (m_client_id m) c)).

(** The answer to one batch of [reconcileLoadedMessages]: [batch] are the rows as
    they were when the reconciliation began. *)
Definition reconcile_batch (scope : nat) (batch : list ApiMessage) (rows : list ApiMessage)
    (missing : list string) (c : client) : client :=
  if negb (scope =? cl_selection c)%nat then c
  else
    let next := List.filter (fun m => negb (gone batch missing m)) (cl_messages c) in
    let c1 := foldl (fun c m => if gone batch missing m
      then unprotect (m_client_id m) (mark_removed (m_client_id m) c) else c) c (cl_messages c) in
    let '(next, c2) := foldl (take_row batch) (next, c1) (fresh_object (cl_made c) <$> rows) in
    publish next c2.

(** The answer to [loadOlderMessages] for the page before [requestedCursor]. *)
Definition older_page (scope : nat) (requestedCursor : string) (data : ApiMessagePage) (c : client)
    : client :=
  if negb (scope =? cl_selection c)%nat then c
  else
    let data := received_page (cl_made c) data in
    let previous := cl_page c in
    set_page (mkPage (pg_limit previous) (pg_returned previous + zlen (mp_messages data))
        (pg_has_more_before (mp_page data) &&
         bool_decide (pg_before_cursor (mp_page data) <> Some requestedCursor))
        (pg_has_more_after previous) (pg_before_cursor (mp_page data)) (pg_after_cursor previous))
      (publish (mergeOlderMessages (cl_messages c)
        (List.filter (fun m => bool_decide (m_client_id m ∉ cl_removed c)) (mp_messages data))) c).

(** The cursor was refused: history starts over from the latest page. *)
Definition history_reset (scope : nat) (opened : ApiMessagePage) (agent : ApiAgentState) (now : string)
    (c : client) : client :=
  if negb (scope =? cl_selection c)%nat then c
  else
    let opened := received_page (cl_made c) opened in
    set_page (mp_page opened) (publish (mergeLatestBootstrapState (cl_made c) now
      (List.filter (fun m => bool_decide (m_client_id m ∈ cl_protected c)) (cl_messages c))
      (mp_page opened) opened agent (cl_protected c) (cl_removed c)).1 c).

(** ** Live evidence *)

Definition addOptimisticUserMessage (id content now : string) (c : client) : client :=
  setMessages (fun prev => upsertMessage (cl_made c) prev
    (mkMessage id id "user" "User" content now None (Some [("optimistic", JBool true)]) None
       (cl_made c))) c.

Definition removeMessage (clientId : string) (c : client) : client :=
  setMessages (List.filter (fun m => bool_decide (m_client_id m <> clientId))) c.

Definition reconcilePersistedUserMessage (currentClientId nextMessageId nextClientId : string)
    (nextMessage : option ApiMessage) (c : client) : client :=
  setMessages (fun prev => reconcileMessagePersistence (cl_made c) prev currentClientId nextMessageId
    nextClientId (fresh_object (cl_made c) <$> nextMessage)) c.

Definition applyToolCall (turnId clientId callId name : string) (args : option jsobject)
    (startedAt : option string) (now : string) (c : client) : client :=
  setMessages (fun prev => upsertMessage (cl_made c) prev
    (buildPendingToolMessageFromToolCall (cl_made c) turnId clientId callId name args startedAt None now)) c.

Definition applyToolResultMessage (m : ApiMessage) (c : client) : client :=
  setMessages (fun prev => insertStreamMessage (cl_made c) prev (fresh_object (cl_made c) m)) c.

(** A draft of the assistant, its text from the draft before. *)
Definition assistant_draft (made : nat) (clientId now : string) (content : option ApiMessage -> string)
    (flags : jsobject) (current : option ApiMessage) : ApiMessage :=
  mkMessage clientId clientId "assistant" "Bud Agent" (content current)
    (match current with Some m => m_created_at m | None => now end) None
    (Some (spread (match current with Some m => m_metadata m ?? [] | None => [] end) flags)) None made.

Definition content_of (current : option ApiMessage) : string :=
  match current with Some m => m_content m | None => "" end.

Definition applyAssistantMessageStart (turnId clientId now : string) (c : client) : client :=
  setMessages (fun prev => upsertDraftMessage (cl_made c) prev clientId
    (assistant_draft (cl_made c) clientId now content_of
       [("turn_id", JStr turnId); ("draft", JBool true)])) c.

Definition applyAssistantMessageDelta (turnId clientId delta now : string) (c : client) : client :=
  setMessages (fun prev => upsertDraftMessage (cl_made c) prev clientId
    (assistant_draft (cl_made c) clientId now (fun m => content_of m +:+ delta)
       [("turn_id", JStr turnId); ("draft", JBool true)])) c.

Definition truthy_member (key : string) (v : option string) : jsobject :=
  match v with Some s => if str_truthy s then [(key, JStr s)] else [] | None => [] end.

Definition applyAssistantMessageDone (turnId clientId text : string)
    (segmentKind assistantPhase : option string) (now : string) (c : client) : client :=
  setMessages (fun prev => upsertDraftMessage (cl_made c) prev clientId
    (assistant_draft (cl_made c) clientId now (fun _ => text)
       ([("turn_id", JStr turnId);
         ("draft", JBool (negb (ostr_truthy segmentKind) &&
                          bool_decide (assistantPhase <> Some "final_answer")))]
        ++ truthy_member "segment_kind" segmentKind
        ++ truthy_member "assistant_phase" assistantPhase))) c.

Definition applyAssistantMessageEvent (turnId clientId messageId text : string)
    (message : option ApiMessage) (now : string) (c : client) : client :=
  match message with
  | Some m => applyToolResultMessage m c
  | None => setMessages (fun prev => upsertMessage (cl_made c) prev
      (mkMessage messageId clientId "assistant" "Bud Agent" text now None
         (Some [("turn_id", JStr turnId)]) None (cl_made c))) c
  end.

Definition reasoning_draft (made : nat) (clientId createdAt : string)
    (content : option ApiMessage -> string) (flags : jsobject) (current : option ApiMessage)
    : ApiMessage :=
  mkMessage clientId clientId "reasoning" "Reasoning" (content current)
    (match current with Some m => m_created_at m | None => createdAt end) None
    (Some (spread (match current with Some m => m_metadata m ?? [] | None => [] end) flags)) None made.

Definition applyReasoningStart (turnId clientId llmCallId : string) (index : Z)
    (provider providerModel : string) (startedAt : option string) (now : string) (c : client) : client :=
  setMessages (fun prev => upsertDraftMessage (cl_made c) prev clientId
    (reasoning_draft (cl_made c) clientId (startedAt ?? now) content_of
       ([("artifact_kind", JStr "reasoning"); ("model_visible", JBool false); ("turn_id", JStr turnId);
         ("draft", JBool true); ("llm_call_id", JStr llmCallId);
         ("reasoning_index", JNum (JFin (inject_Z index))); ("provider", JStr provider);
         ("provider_model", JStr providerModel)] ++ truthy_member "started_at" startedAt))) c.

Definition applyReasoningDelta (turnId clientId delta now : string) (c : client) : client :=
  setMessages (fun prev => upsertDraftMessage (cl_made c) prev clientId
    (reasoning_draft (cl_made c) clientId now (fun m => content_of m +:+ delta)
       [("artifact_kind", JStr "reasoning"); ("model_visible", JBool false); ("turn_id", JStr turnId);
        ("draft", JBool true)])) c.

Definition applyReasoningDone (turnId clientId messageId text : string) (message : option ApiMessage)
    (now : string) (c : client) : client :=
  match message with
  | Some m => applyToolResultMessage m c
  | None => setMessages (fun prev => upsertMessage (cl_made c) prev
      (mkMessage messageId clientId "reasoning" "Reasoning" text now None
         (Some [("artifact_kind", JStr "reasoning"); ("model_visible", JBool false);
                ("turn_id", JStr turnId)]) None (cl_made c))) c
  end.

Definition finalizeTurn (turnId status : string) (c : client) : client :=
  setMessages (fun prev => finalizeTurnMessages (cl_made c) prev turnId status) c.

(** ** Runs *)

Inductive ClientOp :=
  | OpenThread (page : ApiMessagePage) (agent : ApiAgentState) (now : string)
  | Bootstrap (page : ApiMessagePage) (agent : ApiAgentState) (now : string)
  | AgentState (agent : ApiAgentState) (now : string)
  | PendingRequests (state : ApiAgentState) (now : string)
  | ReconcileBatch (scope : nat) (batch rows : list ApiMessage) (missing : list string)
  | OlderPage (scope : nat) (cursor : string) (data : ApiMessagePage)
  | HistoryReset (scope : nat) (page : ApiMessagePage) (agent : ApiAgentState) (now : string)
  | Optimistic (id content now : string)
  | Remove (clientId : string)
  | Persisted (currentClientId nextMessageId nextClientId : string) (nextMessage : option ApiMessage)
  | ToolCall (turnId clientId callId name : string) (args : option jsobject)
      (startedAt : option string) (now : string)
  | ToolResult (m : ApiMessage)
  | AssistantStart (turnId clientId now : string)
  | AssistantDelta (turnId clientId delta now : string)
  | AssistantDone (turnId clientId text : string) (segmentKind assistantPhase : option string)
      (now : string)
  | AssistantMessage (turnId clientId messageId text : string) (message : option ApiMessage)
      (now : string)
  | ReasoningStart (turnId clientId llmCallId : string) (index : Z) (provider providerModel : string)
      (startedAt : option string) (now : string)
  | ReasoningDelta (turnId clientId delta now : string)
  | ReasoningDone (turnId clientId messageId text : string) (message : option ApiMessage)
      (now : string)
  | FinalizeTurn (turnId status : string).

Definition step (op : ClientOp) (c : client) : client :=
  match op with
  | OpenThread page agent now => open_thread page agent now c
  | Bootstrap page agent now => mergeLatestBootstrap page agent now c
  | AgentState agent now => applyAgentState agent now c
  | PendingRequests state now => applyPendingRequests state now c
  | ReconcileBatch scope batch rows missing => reconcile_batch scope batch rows missing c
  | OlderPage scope cursor data => older_page scope cursor data c
  | HistoryReset scope page agent now => history_reset scope page agent now c
  | Optimistic id content now => addOptimisticUserMessage id content now c
  | Remove clientId => removeMessage clientId c
  | Persisted cur messageId clientId m => reconcilePersistedUserMessage cur messageId clientId m c
  | ToolCall turn client call name args started now => applyToolCall turn client call name args started now c
  | ToolResult m => applyToolResultMessage m c
  | AssistantStart turn client now => applyAssistantMessageStart turn client now c
  | AssistantDelta turn client delta now => applyAssistantMessageDelta turn client delta now c
  | AssistantDone turn client text kind phase now =>
      applyAssistantMessageDone turn client text kind phase now c
  | AssistantMessage turn client messageId text m now =>
      applyAssistantMessageEvent turn client messageId text m now c
  | ReasoningStart turn client call index provider model started now =>
      applyReasoningStart turn client call index provider model started now c
  | ReasoningDelta turn client delta now => applyReasoningDelta turn client delta now c
  | ReasoningDone turn client messageId text m now =>
      applyReasoningDone turn client messageId text m now c
  | FinalizeTurn turn status => finalizeTurn turn status c
  end.

Definition run (ops : list ClientOp) (c : client) : client := foldl (fun c op => step op c) c ops.
End client.
