(* ===== verification/ThreadProps.v ===== *)
(** The messages of a thread: every update keeps one row per client id in the order
    of time ([good]), and a saved row that no update names stays as it is
    ([ThreadMessages]). *)
From Stdlib Require Import ZArith QArith Lia.
From stdpp Require Import base tactics strings gmap sorting option pretty.
From stdpp Require Import list.
From S2P Require Import Prelude JsRuntime Json JsText ThreadMessages.
Open Scope Z_scope.

(** What is documented of [localeCompare]: a total order up to equivalence. *)
Class LocaleLaws `{ClientEnv} := {
  locale_total : forall a b, localeCompare a b <= 0 \/ localeCompare b a <= 0;
  locale_trans : forall a b c,
    localeCompare a b <= 0 -> localeCompare b c <= 0 -> localeCompare a c <= 0
}.

(** ** Sorting *)

Section sorting.
Context {A : Type} (compare : A -> A -> Z).

Lemma sort_insert_perm x l : sort_insert compare x l ≡ₚ x :: l.
Proof.
  induction l as [|y l IH]; simpl; [done|]. destruct (compare x y <=? 0); [done|].
  rewrite IH. apply Permutation_swap.
Qed.

Lemma js_sort_perm l : js_sort compare l ≡ₚ l.
Proof.
  induction l as [|x l IH]; simpl; [done|]. by rewrite sort_insert_perm, IH.
Qed.

Definition ordered (l : list A) : Prop := StronglySorted (fun x y => compare x y <= 0) l.

(** On elements where [compare] is a total preorder. *)
Variable P : A -> Prop.
Hypothesis total : forall x y, P x -> P y -> compare x y <= 0 \/ compare y x <= 0.
Hypothesis trans : forall x y z, P x -> P y -> P z ->
  compare x y <= 0 -> compare y z <= 0 -> compare x z <= 0.

Lemma sort_insert_ordered x l :
  P x -> Forall P l -> ordered l -> ordered (sort_insert compare x l).
Proof.
  intros Hx Hl. induction 1 as [|y l Hs IH Hy]; simpl; [repeat constructor|].
  apply Forall_cons in Hl as [Py Hl]. destruct (Z.leb_spec (compare x y) 0).
  - constructor; [by constructor|]. constructor; [done|].
    rewrite !Forall_forall in *. intros z Hz. eapply trans; eauto.
  - constructor; [by apply IH|]. rewrite Forall_forall. intros z.
    rewrite sort_insert_perm, elem_of_cons. intros [->|Hz].
    + destruct (total x y); [done..|lia|done].
    + rewrite Forall_forall in Hy. by apply Hy.
Qed.

Lemma js_sort_ordered l : Forall P l -> ordered (js_sort compare l).
Proof.
  induction 1 as [|x l Hx Hl IH]; simpl; [constructor|]. apply sort_insert_ordered; [done| |done].
  rewrite Forall_forall in *. intros y. rewrite js_sort_perm. apply Hl.
Qed.
End sorting.

(** A list that differs from an ordered one only in what [compare] does not see. *)
Lemma ordered_same_keys {A K} (compare : A -> A -> Z) (key : A -> K) (l l' : list A) :
  (forall x x' y y', key x = key x' -> key y = key y' -> compare x y = compare x' y') ->
  key <$> l = key <$> l' -> ordered compare l -> ordered compare l'.
Proof.
  intros Hc. revert l'. induction l as [|x l IH]; intros [|x' l'] E Ho; simplify_eq/=; [done|].
  apply StronglySorted_inv in Ho as [Ho Hx]. constructor; [by apply IH|].
  rewrite Forall_forall in *. intros y' Hy'.
  assert (key y' ∈ key <$> l) as Hk by (rewrite H0; by apply list_elem_of_fmap_2).
  apply list_elem_of_fmap in Hk as (y & Ey & Hy). rewrite <-(Hc x x' y y'); auto.
Qed.

Section props.
Context `{LocaleLaws}.

Notation ids := (fmap m_client_id).

Definition dated (m : ApiMessage) : Prop := is_Some (time_of (m_created_at m)).

Lemma compare_total x y :
  dated x -> dated y -> compare_messages x y <= 0 \/ compare_messages y x <= 0.
Proof.
  intros [a Ea] [b Eb]. unfold compare_messages. rewrite Ea, Eb.
  destruct (Z.eqb_spec (a - b) 0), (Z.eqb_spec (b - a) 0); try lia. apply locale_total.
Qed.

Lemma compare_trans x y z :
  dated x -> dated y -> dated z ->
  compare_messages x y <= 0 -> compare_messages y z <= 0 -> compare_messages x z <= 0.
Proof.
  intros [a Ea] [b Eb] [c Ec]. unfold compare_messages. rewrite Ea, Eb, Ec.
  destruct (Z.eqb_spec (a - b) 0), (Z.eqb_spec (b - c) 0), (Z.eqb_spec (a - c) 0); try lia.
  apply locale_trans.
Qed.

Definition sort_key (m : ApiMessage) : string * string := (m_created_at m, m_client_id m).

Lemma compare_keys x x' y y' :
  sort_key x = sort_key x' -> sort_key y = sort_key y' ->
  compare_messages x y = compare_messages x' y'.
Proof. intros [= E1 E2] [= E3 E4]. unfold compare_messages, getMessageIdentity. by rewrite E1, E2, E3, E4. Qed.

(** Each client id once; [good]: and in the order of time. *)
Definition rows_ok (l : list ApiMessage) : Prop := NoDup (ids l) /\ Forall dated l.
Definition in_time (l : list ApiMessage) : Prop := ordered compare_messages l.
Definition good (l : list ApiMessage) : Prop := rows_ok l /\ in_time l.

Lemma sort_elem l m : m ∈ sortMessagesChronologically l <-> m ∈ l.
Proof. unfold sortMessagesChronologically. by rewrite js_sort_perm. Qed.

Lemma sort_good l : rows_ok l -> good (sortMessagesChronologically l).
Proof.
  intros [Hn Hd]. split; [split|].
  - unfold sortMessagesChronologically. by rewrite js_sort_perm.
  - rewrite Forall_forall in *. intros m. rewrite sort_elem. apply Hd.
  - eapply js_sort_ordered; [apply compare_total|apply compare_trans|exact Hd].
Qed.

Lemma rows_ok_app l k :
  rows_ok l -> rows_ok k -> (forall m, m ∈ k -> m_client_id m ∉ ids l) -> rows_ok (l ++ k).
Proof.
  intros [Hn Hd] [Hn' Hd'] Hx. split; [|by apply Forall_app]. rewrite fmap_app.
  apply NoDup_app. split_and!; [done| |done]. intros id Hl Hk.
  apply list_elem_of_fmap in Hk as (m & -> & Hm). by apply (Hx m).
Qed.

Lemma rows_ok_one m : dated m -> rows_ok [m].
Proof. split; [apply NoDup_singleton|by apply Forall_singleton]. Qed.

Lemma filter_is_filter {A} (f : A -> bool) l : List.filter f l = filter (fun x => f x = true) l.
Proof.
  induction l as [|x l IH]; simpl; [done|]. rewrite filter_cons, IH.
  destruct (f x) eqn:E; [by rewrite decide_True|by rewrite decide_False].
Qed.

Lemma elem_List_filter {A} (f : A -> bool) l x : x ∈ List.filter f l <-> f x = true /\ x ∈ l.
Proof. by rewrite filter_is_filter, list_elem_of_filter. Qed.

Lemma NoDup_ids_filter f l : NoDup (ids l) -> NoDup (ids (List.filter f l)).
Proof.
  induction l as [|m l IH]; simpl; [done|]. rewrite !NoDup_cons. intros [Hm Hl].
  destruct (f m); simpl; [|by apply IH]. apply NoDup_cons. split; [|by apply IH].
  intros Hin. apply Hm. apply list_elem_of_fmap in Hin as (x & -> & Hx).
  apply elem_List_filter in Hx as [_ Hx]. by apply list_elem_of_fmap_2.
Qed.

Lemma filter_rows_ok f l : rows_ok l -> rows_ok (List.filter f l).
Proof.
  intros [Hn Hd]. split; [by apply NoDup_ids_filter|]. rewrite Forall_forall in *.
  intros m [_ Hm]%elem_List_filter. by apply Hd.
Qed.

Lemma filter_good f l : good l -> good (List.filter f l).
Proof.
  intros [Hr Ht]. split; [by apply filter_rows_ok|]. rewrite filter_is_filter.
  by apply StronglySorted_filter_sub.
Qed.

(** ** One row put *)

(** The row [upsertMessage] leaves for [next]. *)
Definition row_put (made : nat) (next : ApiMessage) (m : ApiMessage) : Prop :=
  m = next \/ exists created, m = with_created_at created made next.

Lemma NoDup_ids_inj l m m' :
  NoDup (ids l) -> m ∈ l -> m' ∈ l -> m_client_id m = m_client_id m' -> m = m'.
Proof.
  intros Hn Hm Hm' E. apply list_elem_of_lookup in Hm as [i Hi], Hm' as [j Hj].
  assert (i = j) as <-; [|congruence].
  eapply (NoDup_lookup (ids l)); [done| |]; rewrite list_lookup_fmap; [rewrite Hi|rewrite Hj]; simpl;
    [done|by rewrite E].
Qed.

(** What [upsertMessage] does, by cases: nothing, a new row, or another row in place
    of the one of its id. *)
Inductive upserted (made : nat) (next : ApiMessage) : list ApiMessage -> list ApiMessage -> Prop :=
  | upserted_same l current :
      current ∈ l -> m_client_id current = m_client_id next ->
      isCanonicalMessage current = true /\ isSyntheticMessage next = true \/
        same_object current next = true ->
      upserted made next l l
  | upserted_new l :
      m_client_id next ∉ ids l ->
      upserted made next l (sortMessagesChronologically (l ++ [next]))
  | upserted_at a current b next' :
      m_client_id current = m_client_id next ->
      isCanonicalMessage current && isSyntheticMessage next = false ->
      same_object current next = false ->
      next' = next \/ next' = with_created_at (m_created_at current) made next ->
      upserted made next (a ++ current :: b)
        (if bool_decide (m_created_at current = m_created_at next') then a ++ next' :: b
         else sortMessagesChronologically (a ++ next' :: b)).

Lemma insert_middle {A} (a b : list A) x y : <[length a := y]> (a ++ x :: b) = a ++ y :: b.
Proof. induction a; simpl; [done|by f_equal]. Qed.

Lemma upsertMessage_cases made l next : upserted made next l (upsertMessage made l next).
Proof.
  unfold upsertMessage. destruct (find_index _ l) as [i|] eqn:E.
  - apply find_index_Some in E as (a & current & b & -> & <- & Hp & _).
    apply bool_decide_eq_true in Hp. rewrite list_lookup_middle by done.
    destruct (isCanonicalMessage current && isSyntheticMessage next) eqn:Ec.
    { apply andb_true_iff in Ec. apply (upserted_same _ _ _ current); [set_solver|done|by left]. }
    destruct (same_object current next) eqn:Es.
    { apply (upserted_same _ _ _ current); [set_solver|done|by right]. }
    rewrite insert_middle. apply upserted_at; [done..|]. case_match; [by right|by left].
  - apply upserted_new. intros Hin. apply list_elem_of_fmap in Hin as (m & Em & Hm).
    apply find_index_None in E. rewrite Forall_forall in E. specialize (E m Hm).
    by apply bool_decide_eq_false in E.
Qed.

Lemma replaced_rows_ok made a current b next next' :
  m_client_id current = m_client_id next -> dated next ->
  next' = next \/ next' = with_created_at (m_created_at current) made next ->
  rows_ok (a ++ current :: b) ->
  rows_ok (a ++ next' :: b) /\ m_client_id next' = m_client_id current.
Proof.
  intros Hid Hd Hnext [Hn Hda].
  assert (m_client_id next' = m_client_id current) as Eid
    by (rewrite Hid; by destruct Hnext as [->| ->]).
  rewrite Forall_app, Forall_cons in Hda. destruct Hda as (Hda & Hdc & Hdb).
  assert (dated next') as Hd' by (by destruct Hnext as [->| ->]).
  split; [|done]. split.
  - revert Hn. by rewrite !fmap_app, !fmap_cons, Eid.
  - apply Forall_app. by split; [|constructor].
Qed.

Lemma upsert_rows_ok made l next : rows_ok l -> dated next -> rows_ok (upsertMessage made l next).
Proof.
  intros Hr Hd. destruct (upsertMessage_cases made l next) as [|l Hn|a current b next' Hid _ _ Hnext].
  - done.
  - apply sort_good. apply rows_ok_app; [done|by apply rows_ok_one|]. set_solver.
  - destruct (replaced_rows_ok made a current b next next' Hid Hd Hnext Hr) as [Hr' _].
    case_bool_decide; [done|by apply sort_good].
Qed.

Lemma upsert_good made l next : good l -> dated next -> good (upsertMessage made l next).
Proof.
  intros [Hr Ht] Hd. split; [by apply upsert_rows_ok|]. revert Ht.
  destruct (upsertMessage_cases made l next) as [|l Hn|a current b next' Hid _ _ Hnext]; intros Ht.
  - done.
  - apply sort_good. apply rows_ok_app; [done|by apply rows_ok_one|]. set_solver.
  - destruct (replaced_rows_ok made a current b next next' Hid Hd Hnext Hr) as [Hr' Eid].
    case_bool_decide as E; [|by apply sort_good].
    eapply (ordered_same_keys _ sort_key); [apply compare_keys| |exact Ht].
    rewrite !fmap_app, !fmap_cons. unfold sort_key at 2 5. by rewrite E, Eid.
Qed.

Lemma upsert_elem made l next m :
  m ∈ upsertMessage made l next -> m ∈ l \/ row_put made next m.
Proof.
  destruct (upsertMessage_cases made l next) as [|l Hn|a current b next' Hid _ _ Hnext].
  - by left.
  - rewrite sort_elem. unfold row_put. set_solver.
  - assert (row_put made next next') as Hp
      by (unfold row_put; destruct Hnext as [->| ->]; eauto).
    case_bool_decide; rewrite ?sort_elem; rewrite elem_of_app, elem_of_cons;
      intros [?|[->|?]]; auto; left; set_solver.
Qed.

(** A row stays unless another object of its id comes that may replace it. *)
Lemma upsert_keeps made l next m :
  NoDup (ids l) -> m ∈ l ->
  m_client_id m <> m_client_id next \/ same_object m next = true \/
    isCanonicalMessage m = true /\ isSyntheticMessage next = true ->
  m ∈ upsertMessage made l next.
Proof.
  intros Hn Hm Hk. destruct (upsertMessage_cases made l next) as [|l Hnew|a current b next' Hid Hc Hs _].
  - done.
  - rewrite sort_elem. set_solver.
  - assert (m <> current) as Hne.
    { intros ->. destruct Hk as [?|[?|[E1 E2]]]; [done|congruence|].
      rewrite E1, E2 in Hc. done. }
    assert (m ∈ a ++ next' :: b) by set_solver.
    by case_bool_decide; rewrite ?sort_elem.
Qed.

Lemma same_object_refl m : same_object m m = true.
Proof. by apply bool_decide_eq_true. Qed.

(** ** The other updates *)

Lemma foldl_inv {A B} (P : A -> Prop) (Q : B -> Prop) (f : A -> B -> A) xs a :
  Forall Q xs -> (forall a x, P a -> Q x -> P (f a x)) -> P a -> P (foldl f a xs).
Proof. intros Hq Hf. revert a. induction Hq; simpl; auto. Qed.

Lemma insertStream_good made l next :
  good l -> dated next -> good (insertStreamMessage made l next).
Proof. intros. unfold insertStreamMessage. case_match; [done|by apply upsert_good]. Qed.

Lemma draft_good made l id updater :
  good l -> (forall m, (forall x, m = Some x -> x ∈ l) -> dated (updater m)) ->
  good (upsertDraftMessage made l id updater).
Proof.
  intros Hg Hu. unfold upsertDraftMessage.
  assert (dated (updater (List.find (fun m => bool_decide (getMessageIdentity m = id)) l))) as Hd.
  { apply Hu. intros x Hx. apply find_some in Hx as [Hx _]. by apply list_elem_of_In. }
  case_match; [done|]. by apply upsert_good.
Qed.

Lemma unique_older_spec ids0 older :
  NoDup (ids (unique_older ids0 older)) /\
  (forall m, m ∈ unique_older ids0 older -> m ∈ older /\ m_client_id m ∉ ids0).
Proof.
  revert ids0. induction older as [|m older IH]; intros ids0; simpl; [split; [constructor|set_solver]|].
  case_bool_decide as E.
  - destruct (IH ids0) as [Hn Hm]. split; [done|]. intros x Hx. destruct (Hm x Hx). set_solver.
  - destruct (IH (JsSet.add (m_client_id m) ids0)) as [Hn Hm]. split.
    + simpl. apply NoDup_cons. split; [|done]. intros Hin.
      apply list_elem_of_fmap in Hin as (x & Ex & Hx). destruct (Hm x Hx) as [_ Hnot].
      apply Hnot. rewrite JsSet.elem_add. by left.
    + intros x. rewrite elem_of_cons. intros [->|Hx]; [set_solver|].
      destruct (Hm x Hx) as [? Hnot]. rewrite JsSet.elem_add in Hnot. set_solver.
Qed.

Lemma older_rows_ok l older : rows_ok l -> Forall dated older -> rows_ok (mergeOlderMessages l older).
Proof.
  intros Hr Hd. unfold mergeOlderMessages.
  destruct (unique_older_spec (JsSet.of_list (getMessageIdentity <$> l)) older) as [Hn Hm].
  apply rows_ok_app; [|done|].
  - split; [done|]. rewrite Forall_forall in *. intros m [Hin _]%Hm. by apply Hd.
  - intros m Hml Hin. apply list_elem_of_fmap in Hin as (x & Ex & Hx).
    destruct (Hm x Hx) as [_ Hnot]. apply Hnot. rewrite JsSet.elem_of_list, <-Ex.
    by apply (list_elem_of_fmap_2 getMessageIdentity).
Qed.

Lemma older_good l older :
  good l -> Forall dated older -> in_time older ->
  (forall m x, m ∈ older -> x ∈ l -> compare_messages m x <= 0) ->
  good (mergeOlderMessages l older).
Proof.
  intros [Hr Ht] Hd Ho Hle. split; [by apply older_rows_ok|]. unfold mergeOlderMessages.
  generalize (JsSet.of_list (getMessageIdentity <$> l)). intros ids0.
  assert (forall m, m ∈ unique_older ids0 older -> m ∈ older) as Hsub
    by (intros m Hm; by apply unique_older_spec in Hm as [? _]).
  clear Hr Hd. revert ids0 Hsub. induction Ho as [|m older Ho IH Hm]; intros ids0 Hsub; simpl; [done|].
  case_bool_decide.
  - apply IH; [set_solver|]. intros x Hx. by apply unique_older_spec in Hx as [? _].
  - simpl. constructor.
    + apply IH; [set_solver|]. intros x Hx. by apply unique_older_spec in Hx as [? _].
    + rewrite Forall_forall in *. intros x. rewrite elem_of_app. intros [Hx|Hx].
      * apply Hm. by apply unique_older_spec in Hx as [? _].
      * apply Hle; [left|done].
Qed.

Lemma reconcile_good made l cur messageId clientId next :
  rows_ok l -> (forall m, next = Some m -> dated m) ->
  (next = None -> clientId = cur \/ clientId ∉ ids l) ->
  good (reconcileMessagePersistence made l cur messageId clientId next).
Proof.
  intros Hr Hd Hid. unfold reconcileMessagePersistence. destruct next as [next|]; apply sort_good.
  - apply rows_ok_app; [by apply filter_rows_ok|by apply rows_ok_one, Hd|].
    intros m ->%list_elem_of_singleton Hin. apply list_elem_of_fmap in Hin as (x & Ex & Hx).
    apply elem_List_filter in Hx as [Hx _]. apply andb_true_iff in Hx as [_ Hx].
    by apply bool_decide_eq_true in Hx.
  - specialize (Hid eq_refl). destruct Hr as [Hn Hda]. split.
    + rewrite <-list_fmap_compose. induction l as [|m l IH]; simpl; [constructor|].
      apply NoDup_cons in Hn as [Hm Hn]. apply Forall_cons in Hda as [Hdm Hda].
      apply NoDup_cons. split; [|apply IH; [done|done|set_solver]].
      intros Hin. apply list_elem_of_fmap in Hin as (x & Ex & Hx). simpl in Ex.
      assert (m_client_id x ∈ ids l) as Hxl by (by apply list_elem_of_fmap_2).
      revert Ex. unfold getMessageIdentity. repeat case_bool_decide; simpl; intros Ex;
        set_solver.
    + rewrite Forall_forall in *. intros y Hy. apply list_elem_of_fmap in Hy as (m & -> & Hm).
      specialize (Hda m Hm). by case_bool_decide.
Qed.

Lemma finalize_good made l turn status : good l -> good (finalizeTurnMessages made l turn status).
Proof.
  intros [[Hn Hd] Ht]. unfold finalizeTurnMessages, good, rows_ok, in_time.
  set (f := fun m : ApiMessage => _).
  assert (forall m, exists o : option ApiMessage, f m = option_list o /\
    forall x, o = Some x -> sort_key x = sort_key m) as Hf.
  { intros m. unfold f. case_match; [by exists (Some m); split; [|by intros ? [= ->]]|].
    case_match; [by exists None|]. eexists (Some _). split; [done|]. by intros ? [= <-]. }
  clearbody f. induction l as [|m l IH]; simpl; [repeat constructor|].
  apply NoDup_cons in Hn as [Hm Hn]. apply Forall_cons in Hd as [Hdm Hd].
  apply StronglySorted_inv in Ht as [Ht Hle]. destruct (IH Hn Hd Ht) as [[Hn' Hd'] Ht'].
  destruct (Hf m) as (o & -> & Ho). destruct o as [x|]; [|done]. simpl.
  specialize (Ho x eq_refl) as E. injection E as E1 E2.
  assert (forall y, y ∈ l ≫= f -> exists z, z ∈ l /\ sort_key y = sort_key z) as Hz.
  { intros y (z & Hy & Hz)%list_elem_of_bind. exists z. split; [done|].
    destruct (Hf z) as (o & Eo & Ho'). rewrite Eo in Hy. apply Ho'.
    destruct o; simpl in Hy; [by apply list_elem_of_singleton in Hy as ->|set_solver]. }
  split; [split|].
  - apply NoDup_cons. split; [|done]. intros Hin. apply list_elem_of_fmap in Hin as (y & Ey & Hy).
    destruct (Hz y Hy) as (z & Hzl & Ek). injection Ek as _ Ek. apply Hm.
    rewrite <-E2, Ey, Ek. by apply list_elem_of_fmap_2.
  - constructor; [|done]. unfold dated. by rewrite E1.
  - constructor; [done|]. rewrite Forall_forall in *. intros y Hy.
    destruct (Hz y Hy) as (z & Hzl & Ek). rewrite (compare_keys x m y z); [by apply Hle| |done].
    unfold sort_key. by rewrite E1, E2.
Qed.

(** ** Snapshots *)

(** Everything the agent state puts among the messages. *)
Definition state_rows (made : nat) (now : string) (state : ApiAgentState) : list ApiMessage :=
  option_list (buildPendingToolMessageFromState made state now) ++ state_cards made now state
  ++ option_list (buildDraftAssistantMessageFromState made state)
  ++ buildDraftReasoningMessagesFromState made state.

Definition state_dated (now : string) (state : ApiAgentState) : Prop :=
  forall made, Forall dated (state_rows made now state).

Lemma state_dated_parts now state made :
  state_dated now state ->
  (forall m, buildPendingToolMessageFromState made state now = Some m -> dated m) /\
  Forall dated (state_cards made now state) /\
  (forall m, buildDraftAssistantMessageFromState made state = Some m -> dated m) /\
  Forall dated (buildDraftReasoningMessagesFromState made state).
Proof.
  intros Hs. specialize (Hs made). unfold state_rows in Hs. rewrite !Forall_app in Hs.
  destruct Hs as (H1 & H2 & H3 & H4). split_and!; [|done| |done]; intros m E.
  - rewrite E in H1. by apply Forall_inv in H1.
  - rewrite E in H3. by apply Forall_inv in H3.
Qed.

Lemma overlay_rows_ok made now l state :
  rows_ok l -> state_dated now state -> good (applyAgentStateOverlay made now l state).
Proof.
  intros Hr Hs. destruct (state_dated_parts now state made Hs) as (H1 & H2 & H3 & H4).
  unfold applyAgentStateOverlay. apply sort_good.
  assert (forall l m, rows_ok l -> dated m -> rows_ok (upsertMessage made l m)) as Hu
    by (intros; by apply upsert_rows_ok).
  apply (foldl_inv rows_ok dated); [done|auto|].
  assert (forall l, rows_ok l -> rows_ok (put_draft made state l)) as Hp
    by (intros l' Hl'; unfold put_draft; case_match; auto).
  apply Hp. apply (foldl_inv rows_ok dated); [done| |].
  - intros. unfold upsert_card. case_match; auto.
  - unfold put_pending_tool. repeat case_match; auto using filter_rows_ok.
Qed.

Lemma keep_protected_good made incoming prot rem l current :
  good l -> Forall dated incoming -> dated current ->
  good (keep_protected made incoming prot rem l current).
Proof.
  intros Hg Hi Hd. unfold keep_protected. case_match; [|done].
  case_match eqn:E; [case_match|]; apply upsert_good; try done.
Qed.

(** The page has each row once. *)
Lemma merge_good made now l page next state prot rem :
  rows_ok l -> rows_ok (mp_messages next) -> state_dated now state ->
  good (mergeLatestBootstrapState made now l page next state prot rem).1.
Proof.
  intros Hl Hp Hs. unfold mergeLatestBootstrapState. simpl. apply filter_good.
  set (incoming := List.filter _ (mp_messages next)).
  assert (rows_ok incoming) as Hi by by apply filter_rows_ok.
  apply (foldl_inv good dated).
  - apply Hl.
  - intros. apply keep_protected_good; [done|apply Hi|done].
  - apply overlay_rows_ok; [|done]. apply sort_good. apply rows_ok_app; [by apply filter_rows_ok|done|].
    intros m Hm Hin. apply list_elem_of_fmap in Hin as (x & Ex & Hx).
    apply elem_List_filter in Hx as [Hx _]. apply andb_true_iff in Hx as [_ Hx].
    apply bool_decide_eq_true in Hx. apply Hx. unfold getMessageIdentity. rewrite <-Ex.
    by apply list_elem_of_fmap_2.
Qed.

Lemma without_activity_rows made now state :
  state_rows made now (without_activity state) = state_cards made now state.
Proof.
  unfold state_rows. replace (buildPendingToolMessageFromState _ _ _) with (@None ApiMessage).
  - simpl. by rewrite app_nil_r.
  - unfold buildPendingToolMessageFromState, pending_named. simpl. by repeat case_match.
Qed.

Lemma without_activity_dated now state : state_dated now state -> state_dated now (without_activity state).
Proof.
  intros Hs made. rewrite without_activity_rows. by apply (state_dated_parts now state made).
Qed.

Lemma inventory_good made now l state :
  rows_ok l -> state_dated now state -> good (applyPendingRequestInventory made now l state).
Proof.
  intros Hl Hs. unfold applyPendingRequestInventory. apply (foldl_inv good dated).
  - apply Hl.
  - intros. case_match; [by apply upsert_good|done].
  - apply overlay_rows_ok; [by apply filter_rows_ok|by apply without_activity_dated].
Qed.

(** ** Cards and drafts, and the rows they leave alone *)

Definition is_card (m : ApiMessage) : Prop := isAgentSyntheticMessage m = true.

Lemma is_card_synthetic m : is_card m -> isSyntheticMessage m = true.
Proof.
  unfold is_card, isAgentSyntheticMessage, isSyntheticMessage.
  destruct (isOptimisticMessage m); [done|]. done.
Qed.

Lemma canonical_not_card m : isCanonicalMessage m = true -> isAgentSyntheticMessage m = false.
Proof.
  intros [_ Hs]%andb_true_iff. apply negb_true_iff in Hs.
  destruct (isAgentSyntheticMessage m) eqn:E; [|done]. apply is_card_synthetic in E. congruence.
Qed.

Lemma put_row_card made next m : row_put made next m -> is_card next -> is_card m.
Proof. by intros [->|[c ->]]. Qed.

(** A card, or a draft, that the operation makes. *)
Definition made_card (made : nat) (m : ApiMessage) : Prop := is_card m /\ m_made m = made.

Lemma state_rows_made_cards made now state : Forall (made_card made) (state_rows made now state).
Proof.
  unfold state_rows. rewrite !Forall_app. split_and!.
  - destruct (buildPendingToolMessageFromState made state now) as [m|] eqn:E; [|constructor].
    apply Forall_singleton. revert E. unfold buildPendingToolMessageFromState.
    repeat case_match; intros; simplify_eq; done.
  - apply Forall_forall. intros m. unfold state_cards. rewrite !elem_of_app.
    intros [(x & -> & _)%list_elem_of_fmap|[(x & -> & _)%list_elem_of_fmap|Hm]]; [done..|].
    assert (exists name l, m ∈ omap (request_card made now name) l) as (name & l & Hin)
      by (destruct Hm as [?|[?|?]]; eauto).
    apply list_elem_of_omap in Hin as (r & _ & E). unfold request_card in E.
    destruct (rq_client_id r); simpl in E; [|done]. case_match; [|done]. by injection E as <-.
  - destruct (buildDraftAssistantMessageFromState made state) as [m|] eqn:E; [|constructor].
    apply Forall_singleton. revert E. unfold buildDraftAssistantMessageFromState.
    repeat case_match; [done..|]. destruct (ag_turn_id state), (ag_draft_assistant state); simpl;
      intros; simplify_eq; done.
  - apply Forall_forall. intros m. unfold buildDraftReasoningMessagesFromState.
    repeat case_match; try set_solver. all: by intros (x & -> & _)%list_elem_of_fmap.
Qed.

Lemma state_rows_cards made now state : Forall is_card (state_rows made now state).
Proof. eapply Forall_impl; [apply state_rows_made_cards|]. by intros m [? _]. Qed.

Lemma state_cards_parts made now state :
  (forall m, buildPendingToolMessageFromState made state now = Some m -> is_card m) /\
  Forall is_card (state_cards made now state) /\
  (forall m, buildDraftAssistantMessageFromState made state = Some m -> is_card m) /\
  Forall is_card (buildDraftReasoningMessagesFromState made state).
Proof.
  pose proof (state_rows_cards made now state) as Hs. unfold state_rows in Hs.
  rewrite !Forall_app in Hs. destruct Hs as (H1 & H2 & H3 & H4). split_and!; [|done| |done]; intros m E.
  - rewrite E in H1. by apply Forall_inv in H1.
  - rewrite E in H3. by apply Forall_inv in H3.
Qed.

(** Folds that put cards. *)
Definition only_cards (l l' : list ApiMessage) : Prop := forall m, m ∈ l' -> m ∈ l \/ is_card m.

Lemma upsert_only_cards made l next : is_card next -> only_cards l (upsertMessage made l next).
Proof. intros Hc m [?|Hp]%upsert_elem; [by left|right]. by eapply put_row_card. Qed.

#[export] Instance only_cards_preorder : PreOrder only_cards.
Proof. split; [by left|]. intros a b c Hab Hbc m [Hm|?]%Hbc; [by apply Hab|by right]. Qed.

Lemma foldl_only_cards {B} (Q : B -> Prop) (f : list ApiMessage -> B -> list ApiMessage) xs l :
  Forall Q xs -> (forall l x, Q x -> only_cards l (f l x)) -> only_cards l (foldl f l xs).
Proof.
  intros Hq Hf. revert l. induction Hq as [|x xs Hx _ IH]; intros l; simpl; [reflexivity|].
  etrans; [by apply Hf|apply IH].
Qed.

Lemma only_cards_sort l l' : only_cards l l' -> only_cards l (sortMessagesChronologically l').
Proof. intros Ho m. rewrite sort_elem. apply Ho. Qed.

Lemma overlay_only_cards made now l state :
  only_cards (List.filter (fun m => negb (isAgentSyntheticMessage m)) l)
    (applyAgentStateOverlay made now l state).
Proof.
  destruct (state_cards_parts made now state) as (H1 & H2 & H3 & H4).
  unfold applyAgentStateOverlay. set (base := List.filter _ l).
  apply only_cards_sort.
  etrans; [|apply (foldl_only_cards is_card); [done|intros l' x Hx; by apply upsert_only_cards]].
  etrans; [|unfold put_draft; case_match; [by apply upsert_only_cards, H3|reflexivity]].
  etrans; [|apply (foldl_only_cards is_card); [done|]].
  - unfold put_pending_tool. repeat case_match; try reflexivity. by apply upsert_only_cards, H1.
  - intros l' x Hx. unfold upsert_card. case_match; [reflexivity|by apply upsert_only_cards].
Qed.

Lemma inventory_only_cards made now l state :
  only_cards l (applyPendingRequestInventory made now l state).
Proof.
  unfold applyPendingRequestInventory.
  etrans; [|apply (foldl_only_cards (fun _ => True)); [by apply Forall_true|]].
  - intros m [Hm|?]%overlay_only_cards; [left|by right]. by repeat apply elem_List_filter in Hm as [_ Hm].
  - intros l' x _. case_match eqn:E; [|reflexivity]. apply andb_true_iff in E as [E _].
    by apply upsert_only_cards.
Qed.

(** ** Saved rows *)

(** [m] is a row of a well-formed list. *)
Definition holds (m : ApiMessage) (l : list ApiMessage) : Prop := rows_ok l /\ m ∈ l.

Lemma upsert_holds_card made l next m :
  isCanonicalMessage m = true -> holds m l -> dated next -> is_card next ->
  holds m (upsertMessage made l next).
Proof.
  intros Hc [Hr Hm] Hd Hn. split; [by apply upsert_rows_ok|].
  apply upsert_keeps; [apply Hr|done|]. right; right. split; [done|by apply is_card_synthetic].
Qed.

Lemma foldl_holds_cards made xs l m (f : list ApiMessage -> ApiMessage -> list ApiMessage) :
  isCanonicalMessage m = true -> Forall dated xs -> Forall is_card xs ->
  (forall l x, f l x = l \/ f l x = upsertMessage made l x) ->
  holds m l -> holds m (foldl f l xs).
Proof.
  intros Hc Hd Hk Hf. apply (foldl_inv (holds m) (fun x => dated x /\ is_card x)).
  - rewrite Forall_and. done.
  - intros l' x Hh [Hx Hx']. destruct (Hf l' x) as [->| ->]; [done|by apply upsert_holds_card].
Qed.

Lemma overlay_holds made now l state m :
  isCanonicalMessage m = true -> holds m l -> state_dated now state ->
  holds m (applyAgentStateOverlay made now l state).
Proof.
  intros Hc [Hr Hm] Hs. split; [by apply overlay_rows_ok|].
  destruct (state_dated_parts now state made Hs) as (D1 & D2 & D3 & D4).
  destruct (state_cards_parts made now state) as (K1 & K2 & K3 & K4).
  unfold applyAgentStateOverlay. rewrite sort_elem. set (base := List.filter _ l).
  assert (holds m base) as Hb.
  { split; [by apply filter_rows_ok|]. apply elem_List_filter.
    by rewrite (canonical_not_card m Hc). }
  eapply foldl_holds_cards; [done|done|done|by right|].
  assert (forall l, holds m l -> holds m (put_draft made state l)) as Ho.
  { intros l' Hl. unfold put_draft. case_match; [|done]. apply upsert_holds_card; auto. }
  apply Ho, (foldl_holds_cards made); [done..| |].
  - intros l' x. unfold upsert_card. case_match; auto.
  - unfold put_pending_tool. repeat case_match; try done. apply upsert_holds_card; auto.
Qed.

Lemma inventory_holds made now l state m :
  isCanonicalMessage m = true -> holds m l -> state_dated now state ->
  holds m (applyPendingRequestInventory made now l state).
Proof.
  intros Hc [Hr Hm] Hs. unfold applyPendingRequestInventory.
  apply (foldl_inv (holds m) dated); [apply Hr| |].
  - intros l' x Hh Hx. case_match eqn:E; [|done]. apply andb_true_iff in E as [E _].
    by apply upsert_holds_card.
  - apply overlay_holds; [done| |by apply without_activity_dated].
    split; [by apply filter_rows_ok|]. apply elem_List_filter.
    by rewrite (canonical_not_card m Hc).
Qed.

(** A snapshot keeps a saved row that its page does not have, or has as it is. *)
Lemma merge_holds made now l page next state prot rem m :
  isCanonicalMessage m = true -> holds m l -> rows_ok (mp_messages next) -> state_dated now state ->
  m_client_id m ∉ rem ->
  m_client_id m ∉ ids (mp_messages next) \/ (m ∈ mp_messages next /\ m_client_id m ∉ prot) ->
  m ∈ (mergeLatestBootstrapState made now l page next state prot rem).1.
Proof.
  intros Hc [Hr Hm] Hp Hs Hrem Hpage. unfold mergeLatestBootstrapState. simpl.
  apply elem_List_filter. split; [by apply bool_decide_eq_true|].
  set (incoming := List.filter _ (mp_messages next)).
  assert (rows_ok incoming) as Hi by by apply filter_rows_ok.
  assert (forall x, x ∈ incoming -> x ∈ mp_messages next) as Hsub
    by (intros x [_ Hx]%elem_List_filter; done).
  enough (holds m (foldl (keep_protected made incoming prot rem)
    (applyAgentStateOverlay made now (sortMessagesChronologically
      (List.filter (fun m0 => negb (isSyntheticMessage m0) &&
        bool_decide (getMessageIdentity m0 ∉ ids incoming)) l ++ incoming)) state) l)) as [_ ?] by done.
  apply (foldl_inv (holds m) (fun x => x ∈ l /\ dated x)).
  - apply Forall_and. split; [by apply Forall_forall|apply Hr].
  - intros l' x [Hr' Hm'] [Hx Hdx]. split.
    { unfold keep_protected. case_match; [|done]. case_match eqn:El; [case_match|];
        apply upsert_rows_ok; done. }
    unfold keep_protected. case_match eqn:Ep; [|done]. apply andb_true_iff in Ep as [Ep _].
    apply bool_decide_eq_true in Ep.
    destruct (decide (m_client_id m = m_client_id x)) as [E|E].
    + assert (m = x) as -> by (eapply NoDup_ids_inj; [apply Hr|..]; done).
      destruct Hpage as [Hno|[_ Hno]]; [|done].
      replace (last _) with (@None ApiMessage).
      * apply upsert_keeps; [apply Hr'|done|]. right; left. apply same_object_refl.
      * symmetry. apply last_None. rewrite filter_is_filter. apply filter_none, Forall_forall.
        intros y Hy Ey. apply bool_decide_eq_true in Ey. apply Hno. rewrite <-Ey.
        by apply list_elem_of_fmap_2, Hsub.
    + assert (forall y, m_client_id y = m_client_id x -> m ∈ upsertMessage made l' y) as Hu
        by (intros y Ey; apply upsert_keeps; [apply Hr'|done|left; congruence]).
      case_match eqn:El; [|by apply Hu]. apply last_elem, elem_List_filter in El as [El _].
      apply bool_decide_eq_true in El. case_match; by apply Hu.
  - apply overlay_holds; [done| |done]. split.
    + apply sort_good. apply rows_ok_app; [by apply filter_rows_ok|done|].
      intros y Hy Hin. apply list_elem_of_fmap in Hin as (x & Ex & Hx).
      apply elem_List_filter in Hx as [Hx _]. apply andb_true_iff in Hx as [_ Hx].
      apply bool_decide_eq_true in Hx. apply Hx. unfold getMessageIdentity. rewrite <-Ex.
      by apply list_elem_of_fmap_2.
    + rewrite sort_elem, elem_of_app, !elem_List_filter.
      destruct Hpage as [Hno|[Hin _]]; [left|right].
      * split; [|done]. unfold isCanonicalMessage in Hc. apply andb_true_iff in Hc as [_ ->]. simpl.
        apply bool_decide_eq_true. unfold getMessageIdentity.
        intros (x & Ex & Hx)%list_elem_of_fmap. apply Hno. rewrite Ex. by apply list_elem_of_fmap_2, Hsub.
      * apply elem_List_filter. split; [by apply bool_decide_eq_true|done].
Qed.
End props.
