(* ===== verification/ThreadClaims.v ===== *)
(** The thread view through any run of snapshots, pages and stream events: its rows
    stay one per message and in order, and saved rows stay ([ThreadClient]). *)
From Stdlib Require Import ZArith QArith Lia.
From stdpp Require Import base tactics strings gmap sorting option pretty.
From stdpp Require Import list.
From S2P Require Import Prelude JsRuntime Json JsText ThreadMessages ThreadClient ThreadProps.
Open Scope Z_scope.

Section claims.
Context `{LocaleLaws}.

Notation ids := (fmap m_client_id).
Definition parses (s : string) : Prop := is_Some (time_of s).

(** ** What the server and the clock may say *)

(** A page has each row once; an older page comes before what is there; a message
    that is persisted under another id has that id for itself; times can be read. *)
Definition valid (op : ClientOp) (c : client) : Prop :=
  match op with
  | OpenThread page agent now | Bootstrap page agent now | HistoryReset _ page agent now =>
      rows_ok (mp_messages page) /\ state_dated now agent
  | AgentState agent now | PendingRequests agent now => state_dated now agent
  | ReconcileBatch _ _ rows _ => Forall dated rows
  | OlderPage scope _ data =>
      scope = cl_selection c -> Forall dated (mp_messages data) /\ in_time (mp_messages data) /\
        forall m x, m ∈ mp_messages data -> x ∈ cl_messages c -> compare_messages m x <= 0
  | Optimistic _ _ now | AssistantStart _ _ now | AssistantDelta _ _ _ now
  | AssistantDone _ _ _ _ _ now | ReasoningDelta _ _ _ now => parses now
  | Persisted cur _ clientId next =>
      (forall m, next = Some m -> dated m) /\
      (next = None -> clientId = cur \/ clientId ∉ ids (cl_messages c))
  | ToolCall _ _ _ _ _ startedAt now | ReasoningStart _ _ _ _ _ _ startedAt now =>
      parses (startedAt ?? now)
  | ToolResult m => dated m
  | AssistantMessage _ _ _ _ message now | ReasoningDone _ _ _ _ message now =>
      match message with Some m => dated m | None => parses now end
  | Remove _ | FinalizeTurn _ _ => True
  end.

Fixpoint valid_run (ops : list ClientOp) (c : client) : Prop :=
  match ops with [] => True | op :: ops => valid op c /\ valid_run ops (step op c) end.

(** The operation says something of this saved row: it brings another row of its id,
    or takes it away. *)
Definition names (op : ClientOp) (c : client) (m : ApiMessage) : Prop :=
  let id := m_client_id m in
  match op with
  | OpenThread _ _ _ => True
  | Bootstrap page _ _ => id ∈ ids (mp_messages page)
  | HistoryReset scope page _ _ =>
      scope = cl_selection c /\ (id ∉ cl_protected c \/ id ∈ ids (mp_messages page))
  | ReconcileBatch scope _ rows missing =>
      scope = cl_selection c /\ (m_message_id m ∈ missing \/ id ∈ ids rows)
  | Remove clientId => id = clientId
  | Persisted cur _ _ next => id = cur \/ exists n, next = Some n /\ id = m_client_id n
  | AssistantMessage _ clientId _ _ None _ | ReasoningDone _ clientId _ _ None _ => id = clientId
  | _ => False
  end.

Fixpoint unnamed_run (ops : list ClientOp) (c : client) (m : ApiMessage) : Prop :=
  match ops with [] => True | op :: ops => ~ names op c m /\ unnamed_run ops (step op c) m end.

(** ** The state of the view *)

Record consistent (c : client) : Prop := {
  co_rows : good (cl_messages c);
  co_disjoint : forall id, id ∈ cl_protected c -> id ∉ cl_removed c;
  co_removed : forall m, m ∈ cl_messages c -> m_client_id m ∈ cl_removed c -> is_card m;
  co_made : forall m, m ∈ cl_messages c -> (m_made m < cl_made c)%nat
}.

(** Each row is an old one or made by the operation. *)
Definition made_here (made : nat) (l l' : list ApiMessage) : Prop :=
  forall m, m ∈ l' -> m ∈ l \/ m_made m = made.

#[export] Instance made_here_preorder made : PreOrder (made_here made).
Proof. split; [by left|]. intros a b c Hab Hbc m [Hm|?]%Hbc; [by apply Hab|by right]. Qed.

Lemma upsert_made made l next :
  m_made next = made \/ next ∈ l -> made_here made l (upsertMessage made l next).
Proof. intros Hn m [?|[->|[c ->]]]%upsert_elem; [by left| |by right]. destruct Hn; auto. Qed.

Lemma foldl_made {B} made (f : list ApiMessage -> B -> list ApiMessage) (Q : B -> Prop) xs l :
  Forall Q xs -> (forall l x, Q x -> made_here made l (f l x)) -> made_here made l (foldl f l xs).
Proof.
  intros Hq Hf. revert l. induction Hq as [|x xs Hx _ IH]; intros l; simpl; [reflexivity|].
  etrans; [by apply Hf|apply IH].
Qed.

(** ** [setMessages] *)

Lemma note_changed_removed previous next c id :
  id ∈ cl_removed (foldl (fun c m => if changed_from previous m
      then unremove (m_client_id m) (protect (m_client_id m) c) else c) c next) ->
  id ∈ cl_removed c /\ forall m, m ∈ next -> m_client_id m = id -> changed_from previous m = false.
Proof.
  revert c. induction next as [|m next IH]; intros c; simpl; [set_solver|].
  intros [Hc Hn]%IH. destruct (changed_from previous m) eqn:E.
  - simpl in Hc. apply JsSet.elem_delete in Hc as [Hne Hc]. split; [done|].
    intros x [->|Hx]%elem_of_cons Ex; [congruence|by apply Hn].
  - split; [done|]. intros x [->|Hx]%elem_of_cons Ex; [done|by apply Hn].
Qed.

Lemma note_gone_removed (kept : list string) previous c id :
  id ∈ cl_removed (foldl (fun c m => if bool_decide (m_client_id m ∉ kept)
      then mark_removed (m_client_id m) (unprotect (m_client_id m) c) else c) c previous) ->
  id ∈ cl_removed c \/ id ∉ kept.
Proof.
  revert c. induction previous as [|m previous IH]; intros c; simpl; [by left|].
  intros [Hc|?]%IH; [|by right]. case_bool_decide as E; [|by left].
  simpl in Hc. apply JsSet.elem_add in Hc as [->|Hc]; [by right|by left].
Qed.

Definition disjoint_marks (c : client) : Prop := forall id, id ∈ cl_protected c -> id ∉ cl_removed c.

Lemma disjoint_live id c : disjoint_marks c -> disjoint_marks (unremove id (protect id c)).
Proof.
  intros Hd x. simpl. rewrite JsSet.elem_add, JsSet.elem_delete. intros [->|Hx] [? Hr]; [done|].
  by apply (Hd x).
Qed.

Lemma disjoint_gone id c : disjoint_marks c -> disjoint_marks (mark_removed id (unprotect id c)).
Proof.
  intros Hd x. simpl. rewrite JsSet.elem_add, JsSet.elem_delete. intros [? Hx] [->|Hr]; [done|].
  by apply (Hd x).
Qed.

Lemma disjoint_unprotect id c : disjoint_marks c -> disjoint_marks (unprotect id c).
Proof. intros Hd x. simpl. rewrite JsSet.elem_delete. intros [_ Hx]. by apply Hd. Qed.

Lemma foldl_client {A} (P : client -> Prop) (f : client -> A -> client) xs c :
  (forall c x, P c -> P (f c x)) -> P c -> P (foldl f c xs).
Proof. intros Hf. apply (foldl_inv P (fun _ => True)); [by apply Forall_true|auto]. Qed.

Lemma unchanged_elem previous m : changed_from previous m = false -> m ∈ previous.
Proof.
  unfold changed_from, object_of. case_match eqn:E; [|done].
  apply last_elem, elem_List_filter in E as [_ E]. intros Hs%negb_false_iff.
  by apply bool_decide_eq_true in Hs as <-.
Qed.

Lemma setMessages_consistent update c :
  consistent c -> good (update (cl_messages c)) ->
  made_here (cl_made c) (cl_messages c) (update (cl_messages c)) ->
  consistent (setMessages update c).
Proof.
  intros [Hr Hd Hc Hm] Hg Hu. unfold setMessages.
  set (next := update (cl_messages c)) in *.
  set (c1 := foldl _ c next). set (c2 := foldl _ c1 (cl_messages c)).
  assert (cl_made c2 = cl_made c) as Em.
  { unfold c2, c1. do 2 (apply (foldl_client (fun c' => cl_made c' = cl_made c));
      [intros c' x Hx; by case_match|]). done. }
  split; simpl.
  - done.
  - unfold c2. apply (foldl_client disjoint_marks).
    { intros c' x Hx. case_match; [by apply disjoint_gone|done]. }
    unfold c1. apply (foldl_client disjoint_marks); [|done].
    intros c' x Hx. case_match; [by apply disjoint_live|done].
  - intros m Hin Hrem. apply note_gone_removed in Hrem as [Hrem|Hno].
    + apply note_changed_removed in Hrem as [Hrem Hun]. apply Hc; [|done].
      by apply unchanged_elem, Hun.
    + destruct Hno. by apply list_elem_of_fmap_2.
  - intros m Hin. rewrite Em. destruct (Hu m Hin) as [Hold|E]; [specialize (Hm m Hold); lia|lia].
Qed.

(** ** Rows the updates make *)

Lemma insertStream_made made l next :
  m_made next = made -> made_here made l (insertStreamMessage made l next).
Proof. intros. unfold insertStreamMessage. case_match; [reflexivity|by apply upsert_made; left]. Qed.

Lemma draft_made made l id updater :
  (forall m, m_made (updater m) = made) -> made_here made l (upsertDraftMessage made l id updater).
Proof. intros. unfold upsertDraftMessage. case_match; [reflexivity|by apply upsert_made; left]. Qed.

Lemma reconcile_made made l cur messageId clientId next :
  (forall m, next = Some m -> m_made m = made) ->
  made_here made l (reconcileMessagePersistence made l cur messageId clientId next).
Proof.
  intros Hn m. unfold reconcileMessagePersistence. destruct next as [next|]; rewrite sort_elem.
  - rewrite elem_of_app, elem_List_filter, list_elem_of_singleton.
    intros [[_ ?]| ->]; [by left|right; by apply Hn].
  - intros (x & -> & Hx)%list_elem_of_fmap. case_bool_decide; [by left|by right].
Qed.

Lemma finalize_made made l turn status : made_here made l (finalizeTurnMessages made l turn status).
Proof.
  intros m (x & Hm & Hx)%list_elem_of_bind. revert Hm. repeat case_match; set_solver.
Qed.

Lemma filter_made made (f : ApiMessage -> bool) l : made_here made l (List.filter f l).
Proof. intros m [_ Hm]%elem_List_filter. by left. Qed.

(** What holds of every row, however it is dated. *)
Section every_row.
Variables (made : nat) (P : ApiMessage -> Prop).
Hypothesis closed : forall m created, P m -> P (with_created_at created made m).

Lemma upsert_every l next : Forall P l -> P next -> Forall P (upsertMessage made l next).
Proof.
  rewrite !Forall_forall. intros Hl Hn m [?|[->|[c ->]]]%upsert_elem; auto.
Qed.

Lemma sort_every l : Forall P l -> Forall P (sortMessagesChronologically l).
Proof. rewrite !Forall_forall. intros Hl m. rewrite sort_elem. apply Hl. Qed.

Lemma overlay_every now l state :
  Forall P l -> Forall P (state_rows made now state) -> Forall P (applyAgentStateOverlay made now l state).
Proof.
  intros Hl Hs. unfold state_rows in Hs. rewrite !Forall_app in Hs. destruct Hs as (H1 & H2 & H3 & H4).
  unfold applyAgentStateOverlay. set (base := List.filter _ l).
  assert (Forall P base) as Hb by (rewrite Forall_forall in *; intros m [_ Hm]%elem_List_filter; auto).
  assert (forall l, Forall P l -> Forall P (put_draft made state l)) as Hd.
  { intros l' Hl'. unfold put_draft. case_match; [|done]. apply Forall_inv in H3.
    by apply upsert_every. }
  apply sort_every, (foldl_inv (Forall P) P); [done|intros; by apply upsert_every|].
  apply Hd, (foldl_inv (Forall P) P); [done| |].
  - intros. unfold upsert_card. case_match; [done|by apply upsert_every].
  - unfold put_pending_tool. repeat case_match; try done. apply Forall_inv in H1.
    by apply upsert_every.
Qed.

Lemma merge_every now l page next state prot rem :
  Forall P l -> Forall P (mp_messages next) -> Forall P (state_rows made now state) ->
  Forall P (mergeLatestBootstrapState made now l page next state prot rem).1.
Proof.
  intros Hl Hp Hs. unfold mergeLatestBootstrapState. simpl.
  assert (forall f l, Forall P l -> Forall P (List.filter f l)) as Hf
    by (intros f l'; rewrite !Forall_forall; intros Hx m [_ Hm]%elem_List_filter; auto).
  apply Hf. set (incoming := List.filter _ (mp_messages next)).
  assert (Forall P incoming) as Hi by by apply Hf.
  apply (foldl_inv (Forall P) P); [done| |].
  - intros l' x Hl' Hx. unfold keep_protected. case_match; [|done].
    case_match eqn:E; [case_match|]; apply upsert_every; try done.
    apply closed. apply last_elem, elem_List_filter in E as [_ E].
    rewrite Forall_forall in Hi. by apply Hi.
  - apply overlay_every; [|done]. rewrite Forall_forall. intros m.
    rewrite sort_elem, elem_of_app. rewrite !Forall_forall in *.
    intros [[_ Hm]%elem_List_filter|Hm]; auto.
Qed.

Lemma inventory_every now l state :
  Forall P l -> Forall P (state_rows made now state) ->
  Forall P (applyPendingRequestInventory made now l state).
Proof.
  intros Hl Hs. unfold applyPendingRequestInventory. apply (foldl_inv (Forall P) P); [done| |].
  - intros. case_match; [by apply upsert_every|done].
  - apply overlay_every.
    + rewrite Forall_forall in *. intros m [_ Hm]%elem_List_filter. auto.
    + rewrite without_activity_rows. unfold state_rows in Hs. rewrite !Forall_app in Hs. tauto.
Qed.
End every_row.


(** ** Every operation keeps the view consistent *)

Lemma received_ids made (l : list ApiMessage) : ids (fresh_object made <$> l) = ids l.
Proof. rewrite <-list_fmap_compose. by apply list_fmap_ext. Qed.

Lemma received_dated made (l : list ApiMessage) : Forall dated l -> Forall dated (fresh_object made <$> l).
Proof. intros Hd. by apply Forall_fmap. Qed.

Lemma received_rows_ok made (l : list ApiMessage) : rows_ok l -> rows_ok (fresh_object made <$> l).
Proof. intros [Hn Hd]. split; [by rewrite received_ids|by apply received_dated]. Qed.

Definition upto (made : nat) (m : ApiMessage) : Prop := (m_made m <= made)%nat.

Lemma upto_dated made m created : upto made m -> upto made (with_created_at created made m).
Proof. intros _. unfold upto. simpl. lia. Qed.

Lemma received_upto made (l : list ApiMessage) : Forall (upto made) (fresh_object made <$> l).
Proof. apply Forall_fmap, Forall_true. intros m. unfold upto. simpl. lia. Qed.

Lemma consistent_upto c : consistent c -> Forall (upto (cl_made c)) (cl_messages c).
Proof. intros Hc. apply Forall_forall. intros m Hm. apply co_made in Hm; [unfold upto; lia|done]. Qed.

Lemma state_rows_upto made now state : Forall (upto made) (state_rows made now state).
Proof.
  eapply Forall_impl; [apply state_rows_made_cards|]. intros m [_ E]. unfold upto. lia.
Qed.

#[local] Hint Resolve received_rows_ok received_upto consistent_upto state_rows_upto : thread.

Lemma Forall_filter_sub (P : ApiMessage -> Prop) f l : Forall P l -> Forall P (List.filter f l).
Proof. rewrite !Forall_forall. intros Hl m [_ Hm]%elem_List_filter. by apply Hl. Qed.

(** Snapshots publish a merge with what is removed left out. *)
Lemma merged_consistent c l page next state prot page' now :
  disjoint_marks c -> rows_ok l -> Forall (upto (cl_made c)) l ->
  rows_ok (mp_messages next) -> Forall (upto (cl_made c)) (mp_messages next) -> state_dated now state ->
  consistent (set_page page' (publish (mergeLatestBootstrapState (cl_made c) now l page next state prot
    (cl_removed c)).1 c)).
Proof.
  intros Hd Hl Hu Hn Hun Hs. split; simpl.
  - by apply (merge_good _ _ _ page next state prot).
  - done.
  - intros m Hm Hr. apply elem_List_filter in Hm as [Hm _]. by apply bool_decide_eq_true in Hm.
  - intros m Hm. pose proof (merge_every (cl_made c) (upto (cl_made c)) (fun m c => upto_dated _ m c)
      now l page next state prot (cl_removed c) Hu Hun (state_rows_upto _ _ _)) as Hall.
    rewrite Forall_forall in Hall. specialize (Hall m Hm). unfold upto in Hall. lia.
Qed.

Lemma protect_drafts_rest ms c :
  cl_messages (protect_drafts ms c) = cl_messages c /\ cl_removed (protect_drafts ms c) = cl_removed c /\
  cl_made (protect_drafts ms c) = cl_made c.
Proof.
  unfold protect_drafts. apply (foldl_client (fun c' => cl_messages c' = cl_messages c /\
    cl_removed c' = cl_removed c /\ cl_made c' = cl_made c)); [|done].
  intros c' x Hc'. by case_match.
Qed.

Lemma overlay_upto made now l state :
  Forall (upto made) l -> Forall (upto made) (applyAgentStateOverlay made now l state).
Proof. intros Hl. apply overlay_every; [apply upto_dated|done|apply state_rows_upto]. Qed.

Lemma open_thread_consistent page agent now c :
  rows_ok (mp_messages page) -> state_dated now agent -> consistent (open_thread page agent now c).
Proof.
  intros Hp Hs. unfold open_thread. set (messages := applyAgentStateOverlay _ _ _ _).
  match goal with |- consistent (protect_drafts _ ?x) => set (c0 := x) end.
  destruct (protect_drafts_rest messages c0) as (E1 & E2 & E3). split; rewrite ?E1, ?E2, ?E3; simpl.
  - apply overlay_rows_ok; [by apply received_rows_ok|done].
  - set_solver.
  - set_solver.
  - intros m Hm. pose proof (overlay_upto (cl_made c) now _ agent
      (received_upto (cl_made c) (mp_messages page))) as Hall.
    rewrite Forall_forall in Hall. specialize (Hall m Hm). unfold upto in Hall. lia.
Qed.

Lemma inventory_consistent state now c :
  consistent c -> state_dated now state -> consistent (applyPendingRequests state now c).
Proof.
  intros Hc Hs. unfold applyPendingRequests.
  set (next := applyPendingRequestInventory _ _ _ _). set (c1 := foldl _ c _).
  assert (disjoint_marks c1 /\ cl_removed c1 = cl_removed c /\ cl_made c1 = cl_made c) as (Hd & Er & Em).
  { apply (foldl_client (fun c1 => disjoint_marks c1 /\ cl_removed c1 = cl_removed c /\
      cl_made c1 = cl_made c)).
    - intros c' x (Hd & Er & Em). case_match; [|done]. split_and!; [by apply disjoint_unprotect|done|done].
    - split_and!; [exact (co_disjoint _ Hc)|done|done]. }
  split; simpl; rewrite ?Er, ?Em; [| |intros m Hm|intros m Hm].
  - apply inventory_good; [apply Hc|done].
  - intros id. rewrite <-Er. apply Hd.
  - apply inventory_only_cards in Hm as [Hm|?]; [by apply Hc|done].
  - pose proof (inventory_every (cl_made c) (upto (cl_made c)) (fun m c => upto_dated _ m c) now _ state
      (consistent_upto _ Hc) (state_rows_upto _ _ _)) as Hall.
    rewrite Forall_forall in Hall. specialize (Hall m Hm). unfold upto in Hall. lia.
Qed.

Lemma older_consistent scope cursor data c :
  consistent c -> valid (OlderPage scope cursor data) c -> consistent (older_page scope cursor data c).
Proof.
  intros Hc Hv. unfold older_page. destruct (Nat.eqb_spec scope (cl_selection c)) as [E|]; [|done].
  destruct (Hv E) as (Hd & Ho & Hle). simpl. set (page := List.filter _ _).
  assert (forall m, m ∈ page -> exists x, x ∈ mp_messages data /\ m = fresh_object (cl_made c) x /\
    m_client_id m ∉ cl_removed c) as Hpage.
  { intros m [Hr Hm]%elem_List_filter. apply bool_decide_eq_true in Hr.
    apply list_elem_of_fmap in Hm as (x & -> & Hx). eauto. }
  assert (forall m, m ∈ mergeOlderMessages (cl_messages c) page -> m ∈ page \/ m ∈ cl_messages c) as Hel.
  { intros m [Hm|Hm]%elem_of_app; [left|by right]. by apply unique_older_spec in Hm as [? _]. }
  split; simpl; [apply older_good|apply Hc|intros m Hm Hrem|intros m Hm].
  - apply Hc.
  - apply Forall_filter_sub, received_dated, Hd.
  - unfold page. rewrite filter_is_filter. apply StronglySorted_filter_sub.
    eapply (ordered_same_keys _ sort_key); [apply compare_keys| |exact Ho].
    rewrite <-list_fmap_compose. by apply list_fmap_ext.
  - intros m x Hm Hx. destruct (Hpage m Hm) as (y & Hy & -> & _).
    rewrite (compare_keys _ y x x); [by apply Hle|done|done].
  - destruct (Hel m Hm) as [Hp|Hold]; [|by apply Hc]. by destruct (Hpage m Hp) as (_ & _ & _ & ?).
  - destruct (Hel m Hm) as [Hp|Hold]; [|pose proof (co_made _ Hc m Hold); lia].
    destruct (Hpage m Hp) as (x & _ & -> & _). simpl. lia.
Qed.

(** Rows of the answer are put one by one. *)
Lemma take_rows_consistent batch rows made next c :
  Forall dated rows -> Forall (upto made) rows -> cl_made c = made ->
  good next -> Forall (upto made) next -> disjoint_marks c ->
  (forall m, m ∈ next -> m_client_id m ∈ cl_removed c -> is_card m) ->
  let '(next', c') := foldl (take_row batch) (next, c) rows in
  good next' /\ Forall (upto made) next' /\ disjoint_marks c' /\ cl_made c' = made /\
  forall m, m ∈ next' -> m_client_id m ∈ cl_removed c' -> is_card m.
Proof.
  revert next c. induction rows as [|m rows IH]; intros next c Hd Hu Em Hg Hn Hdis Hrem; simpl; [done|].
  apply Forall_cons in Hd as [Hdm Hd], Hu as [Hum Hu].
  destruct (negb (same_row _ _)); [by apply IH|]. apply IH; try done; simpl.
  - by apply upsert_good.
  - rewrite Em. apply upsert_every; [apply upto_dated|done|done].
  - intros id. simpl. rewrite !JsSet.elem_delete. intros [? Hp] [? Hr]. by apply (Hdis id).
  - intros x Hx. rewrite JsSet.elem_delete. intros [Hne Hr].
    apply upsert_elem in Hx as [Hx|[->|[created ->]]]; [by apply Hrem|done|done].
Qed.

Lemma batch_consistent scope batch rows missing c :
  consistent c -> Forall dated rows -> consistent (reconcile_batch scope batch rows missing c).
Proof.
  intros Hc Hd. unfold reconcile_batch. destruct (Nat.eqb_spec scope (cl_selection c)); [simpl|done].
  set (next := List.filter _ _). set (c1 := foldl _ c _).
  assert (disjoint_marks c1 /\ cl_made c1 = cl_made c /\
    forall id, id ∈ cl_removed c1 -> id ∈ cl_removed c \/
      exists m, m ∈ cl_messages c /\ m_client_id m = id /\ gone batch missing m = true)
    as (Hdis & Em & Hrem).
  { apply (foldl_inv (fun c1 => disjoint_marks c1 /\ cl_made c1 = cl_made c /\
      forall id, id ∈ cl_removed c1 -> id ∈ cl_removed c \/
        exists m, m ∈ cl_messages c /\ m_client_id m = id /\ gone batch missing m = true)
      (fun m => m ∈ cl_messages c)).
    - by apply Forall_forall.
    - intros c' x (Hdis & Em & Hrem) Hx. destruct (gone batch missing x) eqn:Eg; [|done].
      split_and!; [|done|].
      + intros id. simpl. rewrite JsSet.elem_delete, JsSet.elem_add.
        intros [Hne Hp] [?|Hr]; [done|]. by apply (Hdis id).
      + intros id. simpl. rewrite JsSet.elem_add. intros [->|Hr]; [|by apply Hrem]. right. eauto.
    - split_and!; [exact (co_disjoint _ Hc)|done|]. by left. }
  assert (forall m, m ∈ next -> gone batch missing m = false /\ m ∈ cl_messages c) as Hnext.
  { intros m [Hm Hin]%elem_List_filter. by apply negb_true_iff in Hm. }
  pose proof (take_rows_consistent batch (fresh_object (cl_made c) <$> rows) (cl_made c) next c1
    (received_dated _ _ Hd) (received_upto _ _) Em (filter_good _ _ (co_rows _ Hc))
    (Forall_filter_sub _ _ _ (consistent_upto _ Hc)) Hdis) as Htake.
  destruct (foldl (take_row batch) (next, c1) _) as [next' c2]. destruct Htake as (Hg & Hu & Hdis2 & Em2 & Hr2).
  - intros m Hm Hin. destruct (Hnext m Hm) as [Hgone Hold].
    destruct (Hrem _ Hin) as [Hin'|(x & Hx & Ex & Hg)]; [by apply Hc|].
    assert (x = m) as -> by (eapply NoDup_ids_inj; [apply (co_rows _ Hc)|..]; done). congruence.
  - split; simpl; [done|done|done|]. intros m Hm. rewrite Forall_forall in Hu.
    specialize (Hu m Hm). unfold upto in Hu. lia.
Qed.

Lemma consistent_marks c : consistent c -> disjoint_marks c.
Proof. intros Hc. exact (co_disjoint _ Hc). Qed.
#[local] Hint Resolve consistent_marks filter_rows_ok Forall_filter_sub : thread.

Lemma stream_message_consistent m c :
  consistent c -> dated m -> consistent (applyToolResultMessage m c).
Proof.
  intros Hc Hd. apply setMessages_consistent; [done| |].
  - apply insertStream_good; [apply Hc|done].
  - by apply insertStream_made.
Qed.

Lemma upsert_consistent m c :
  consistent c -> dated m -> m_made m = cl_made c ->
  consistent (setMessages (fun prev => upsertMessage (cl_made c) prev m) c).
Proof.
  intros Hc Hd Hm. apply setMessages_consistent; [done|apply upsert_good; [apply Hc|done]|].
  apply upsert_made. by left.
Qed.

(** A draft has the time of the one before, or the clock's. *)
Lemma draft_consistent clientId updater c :
  consistent c -> (forall m, m_made (updater m) = cl_made c) ->
  (forall m, m_created_at (updater (Some m)) = m_created_at m) -> dated (updater None) ->
  consistent (setMessages (fun prev => upsertDraftMessage (cl_made c) prev clientId updater) c).
Proof.
  intros Hc Hm Ht Hn. apply setMessages_consistent; [done| |by apply draft_made].
  apply draft_good; [apply Hc|]. intros [m|] Hin; [|done]. unfold dated. rewrite Ht.
  destruct (co_rows _ Hc) as [[_ Hd] _]. rewrite Forall_forall in Hd. by apply Hd, Hin.
Qed.

Lemma step_consistent op c : consistent c -> valid op c -> consistent (step op c).
Proof.
  intros Hc Hv. pose proof (co_rows _ Hc) as [Hr _]. pose proof (consistent_upto _ Hc) as Hu.
  destruct op; simpl in *.
  - destruct Hv. by apply open_thread_consistent.
  - unfold mergeLatestBootstrap. destruct (mergeLatestBootstrapState _ _ _ _ _ _ _ _) as [ms page'] eqn:E.
    replace ms with (mergeLatestBootstrapState (cl_made c) now (cl_messages c) (cl_page c)
      (received_page (cl_made c) page) agent (cl_protected c) (cl_removed c)).1 by by rewrite E.
    destruct Hv. apply merged_consistent; try done; simpl; auto with thread.
  - unfold applyAgentState.
    match goal with |- consistent (publish (?x).1 c) => set (ms := x) end.
    change (consistent (set_page (cl_page c) (publish ms.1 c))).
    apply merged_consistent; try done; simpl; auto with thread.
  - by apply inventory_consistent.
  - by apply batch_consistent.
  - by apply older_consistent.
  - unfold history_reset. case_match; [done|]. destruct Hv.
    apply merged_consistent; simpl; auto with thread.
  - by apply upsert_consistent.
  - apply setMessages_consistent; [done|by apply filter_good, Hc|apply filter_made].
  - destruct Hv as [Hd Hid]. apply setMessages_consistent; [done| |].
    + apply reconcile_good; [done| |].
      * intros m Hm. apply fmap_Some in Hm as (x & E & ->). exact (Hd x E).
      * intros Hm. apply Hid. destruct nextMessage; [discriminate Hm|reflexivity].
    + apply reconcile_made. intros m Hm. apply fmap_Some in Hm as (x & E & ->). reflexivity.
  - by apply upsert_consistent.
  - by apply stream_message_consistent.
  - by apply draft_consistent.
  - by apply draft_consistent.
  - by apply draft_consistent.
  - destruct message; [by apply stream_message_consistent|by apply upsert_consistent].
  - by apply draft_consistent.
  - by apply draft_consistent.
  - destruct message; [by apply stream_message_consistent|by apply upsert_consistent].
  - apply setMessages_consistent; [done|by apply finalize_good, Hc|apply finalize_made].
Qed.

Lemma run_consistent ops c : consistent c -> valid_run ops c -> consistent (run ops c).
Proof.
  revert c. induction ops as [|op ops IH]; intros c Hc; [done|]. intros [Hv Hvs].
  apply IH; [by apply step_consistent|done].
Qed.

(** ** Saved rows *)

Lemma reconcile_keeps made l cur messageId clientId next m :
  m ∈ l -> m_client_id m <> cur -> (forall n, next = Some n -> m_client_id m <> m_client_id n) ->
  m ∈ reconcileMessagePersistence made l cur messageId clientId next.
Proof.
  intros Hm Hc Hn. unfold reconcileMessagePersistence, getMessageIdentity. destruct next as [next|].
  - rewrite sort_elem. apply elem_of_app. left. apply elem_List_filter. split; [|done].
    rewrite !bool_decide_true; [done|by apply Hn|done].
  - rewrite sort_elem. apply list_elem_of_fmap. exists m. by rewrite bool_decide_true.
Qed.

Lemma finalize_keeps made l turn status m :
  m ∈ l -> isAgentSyntheticMessage m = false -> m ∈ finalizeTurnMessages made l turn status.
Proof.
  intros Hm Hs. apply list_elem_of_bind. exists m. split; [|done]. rewrite Hs, orb_true_r. set_solver.
Qed.

Lemma canonical_stream made l next m :
  rows_ok l -> m ∈ l -> isCanonicalMessage m = true -> m ∈ insertStreamMessage made l next.
Proof.
  intros Hr Hm Hc. unfold insertStreamMessage. case_match eqn:E; [done|].
  apply upsert_keeps; [apply Hr|done|]. left. intros Eid.
  apply Bool.not_true_iff_false in E. apply E. apply existsb_exists. exists m.
  split; [by apply list_elem_of_In|]. by rewrite bool_decide_true.
Qed.

Lemma canonical_draft made l id updater m :
  rows_ok l -> m ∈ l -> isCanonicalMessage m = true ->
  (forall x, m_client_id (updater x) = id) -> m ∈ upsertDraftMessage made l id updater.
Proof.
  intros Hr Hm Hc Hid. unfold upsertDraftMessage.
  destruct (List.find _ l) as [x|] eqn:E.
  - apply find_some in E as [Hx Ex]. apply bool_decide_eq_true in Ex.
    destruct (isCanonicalMessage x) eqn:Ecx; [done|].
    apply upsert_keeps; [apply Hr|done|]. left. rewrite Hid, <-Ex. intros E.
    assert (m = x) as -> by (eapply NoDup_ids_inj; [apply Hr|done|by apply list_elem_of_In|done]).
    congruence.
  - apply upsert_keeps; [apply Hr|done|]. left. rewrite Hid. intros E'.
    eapply find_none in E; [|by apply list_elem_of_In]. by apply bool_decide_eq_false in E.
Qed.

Lemma take_rows_keep batch rows made next c m :
  Forall dated rows -> Forall (upto made) rows -> cl_made c = made ->
  rows_ok next -> m ∈ next -> m_client_id m ∉ ids rows ->
  m ∈ (foldl (take_row batch) (next, c) rows).1.
Proof.
  revert next c. induction rows as [|x rows IH]; intros next c Hd Hu Em Hg Hm Hno; simpl; [done|].
  apply Forall_cons in Hd as [Hdm Hd], Hu as [Hum Hu].
  rewrite fmap_cons, not_elem_of_cons in Hno. destruct Hno as [Hne Hno].
  destruct (negb (same_row _ _)); apply IH; try done; simpl.
  - by apply upsert_rows_ok.
  - apply upsert_keeps; [apply Hg|done|by left].
Qed.

Lemma setMessages_rows update c : cl_messages (setMessages update c) = update (cl_messages c).
Proof. reflexivity. Qed.

Lemma step_keeps op c m :
  consistent c -> valid op c -> m ∈ cl_messages c -> isCanonicalMessage m = true ->
  ~ names op c m -> m ∈ cl_messages (step op c).
Proof.
  intros Hc Hv Hm Hcan Hn. pose proof (co_rows _ Hc) as [Hr Ht].
  pose proof (canonical_not_card m Hcan) as Hcard.
  assert (m_client_id m ∉ cl_removed c) as Hrem.
  { intros Hin. pose proof (co_removed _ Hc m Hm Hin) as E. unfold is_card in E. congruence. }
  assert (holds m (cl_messages c)) as Hh by done.
  assert (forall made x, m_client_id m <> m_client_id x \/ isSyntheticMessage x = true ->
    m ∈ upsertMessage made (cl_messages c) x) as Hup.
  { intros made x Hx. apply upsert_keeps; [apply Hr|done|]. destruct Hx; [by left|by right; right]. }
  destruct op; cbn [step names valid] in *; rewrite ?setMessages_rows.
  - done.
  - destruct Hv. unfold mergeLatestBootstrap.
    destruct (mergeLatestBootstrapState _ _ _ _ _ _ _ _) as [ms page'] eqn:E. simpl.
    change ms with ((ms, page').1). rewrite <-E. apply merge_holds; simpl; auto with thread.
    left. by rewrite received_ids.
  - unfold applyAgentState. cbn [cl_messages publish]. apply merge_holds; simpl; auto with thread.
    destruct (decide (m_client_id m ∈ cl_protected c)) as [Hp|Hp]; [left|right].
    + intros (x & E & Hx)%list_elem_of_fmap. apply elem_List_filter in Hx as [Hx _].
      apply bool_decide_eq_true in Hx. congruence.
    + split; [|done]. apply elem_List_filter. split; [by apply bool_decide_eq_true|done].
  - by apply (inventory_holds (cl_made c) now).
  - unfold reconcile_batch. destruct (Nat.eqb_spec scope (cl_selection c)) as [E|]; [simpl|done].
    assert (m_message_id m ∉ missing /\ m_client_id m ∉ ids rows) as [Hmi Hro] by tauto.
    match goal with |- context [foldl (take_row batch) (?n, ?k) ?r] =>
      pose proof (take_rows_keep batch r (cl_made c) n k m) as Hk;
      destruct (foldl (take_row batch) (n, k) r) as [next' c2] end.
    apply Hk; auto with thread.
    + by apply received_dated.
    + apply (foldl_client (fun c' => cl_made c' = cl_made c)); [|done].
      intros c' x Hx. by case_match.
    + apply elem_List_filter. split; [|done]. unfold gone. by rewrite bool_decide_false.
    + by rewrite received_ids.
  - unfold older_page. case_match; [done|]. simpl. apply elem_of_app. by right.
  - unfold history_reset. destruct (Nat.eqb_spec scope (cl_selection c)) as [E|]; [|done].
    cbn [negb cl_messages set_page publish]. destruct Hv. assert (m_client_id m ∈ cl_protected c /\ m_client_id m ∉ ids (mp_messages page)) as [Hp Hpa].
    { split; [destruct (decide (m_client_id m ∈ cl_protected c)); [done|]|]; tauto. }
    apply merge_holds; simpl; auto with thread.
    + split; [auto with thread|]. apply elem_List_filter. split; [by apply bool_decide_eq_true|done].
    + left. by rewrite received_ids.
  - apply Hup. by right.
  - apply elem_List_filter. split; [by apply bool_decide_eq_true|done].
  - apply reconcile_keeps; [done|tauto|]. intros n Hnext E. apply Hn. right.
    apply fmap_Some in Hnext as (x & -> & ->). by exists x.
  - apply Hup. right. by apply is_card_synthetic.
  - by apply canonical_stream.
  - by apply canonical_draft.
  - by apply canonical_draft.
  - by apply canonical_draft.
  - destruct message; [by apply canonical_stream|]. apply Hup. by left.
  - by apply canonical_draft.
  - by apply canonical_draft.
  - destruct message; [by apply canonical_stream|]. apply Hup. by left.
  - by apply finalize_keeps.
Qed.

(** C33: through any run of snapshots, pages, inventories, reconciliations and stream
    events in any order, the thread shows each message once, in the order of time with
    ties by client id; what live evidence protects and what was taken away never
    overlap, and of what was taken away at most a card of the agent comes back. *)
Theorem thread_rows_consistent ops c :
  consistent c -> valid_run ops c -> consistent (run ops c).
Proof. apply run_consistent. Qed.

(** C34: a saved message stays on the screen as it is, object and place, through any run
    in which nothing brings another row of its id or takes it away: no draft, card,
    stale snapshot of the agent or replayed event replaces it. *)
Theorem saved_rows_stay ops c m :
  consistent c -> valid_run ops c -> m ∈ cl_messages c -> isCanonicalMessage m = true ->
  unnamed_run ops c m -> m ∈ cl_messages (run ops c).
Proof.
  revert c. induction ops as [|op ops IH]; intros c Hc Hv Hm Hcan Hn; [done|].
  destruct Hv as [Hv Hvs], Hn as [Hn Hns].
  apply IH; [by apply step_consistent|done|by apply step_keeps|done|done].
Qed.
End claims.

(** ** A thread in use *)

Module Thread.
(** Times are tally marks, and ids are told apart by their length. *)
#[local] Instance tallies : ClientEnv := {|
  time_of s := Some (Z.of_nat (String.length s));
  localeCompare a b := Z.of_nat (String.length a) - Z.of_nat (String.length b);
  string_of _ := ""
|}.
#[local] Instance tallies_laws : LocaleLaws.
Proof. split; simpl; lia. Qed.

Definition row (id client role content time : string) : ApiMessage :=
  mkMessage id client role role content time None None None 0.
Definition page (ms : list ApiMessage) : ApiMessagePage :=
  mkMessagePage ms (mkPage 100 (zlen ms) false false None None).
Definition idle : ApiAgentState :=
  mkAgentState None None None None None None false None None None None "i".
(** A snapshot of the agent at work on the draft, and on a question. *)
Definition drafting : ApiAgentState :=
  mkAgentState None None
    (Some [mkQuestion "q" "turn" "question" "call" [] "iiii"]) None None None true (Some "turn") None
    (Some (mkDraft "answer" "Hel" (Some "iii") "iii")) None "iii".

Definition hello : ApiMessage := row "m1" "ask" "user" "Hi" "i".
Definition saved : ApiMessage := row "m2" "answer" "assistant" "Hello" "iii".

(** The answer streams in, is saved, and then an old snapshot with the draft comes. *)
Definition ops : list ClientOp :=
  [OpenThread (page [hello]) idle "i"; AssistantStart "turn" "answer" "iii";
   AssistantDelta "turn" "answer" "Hel" "iii"; ToolResult saved;
   AgentState drafting "iiiii"; AssistantDelta "turn" "answer" "lo" "iiiii";
   Bootstrap (page [hello]) drafting "iiiiii"].
Definition empty : client := mkClient [] (mkPage 0 0 false false None None) [] [] 0 0.

(** The saved answer comes back with a snapshot: it takes the time of the draft that was
    shown, and its place. *)
Example acknowledged_keeps_place :
  (fun m => (m_client_id m, m_created_at m)) <$> cl_messages (run
    [OpenThread (page []) idle "i"; AssistantStart "turn" "a" "ii";
     Bootstrap (page [row "m1" "tool" "tool" "ls" "iii"; row "m2" "a" "assistant" "Hi" "iiii"])
       idle "iiiii"] empty) = [("a", "ii"); ("tool", "iii")].
Proof. vm_compute. reflexivity. Qed.

Lemma consistent_empty : consistent empty.
Proof. split; simpl; [repeat constructor| | |]; intros; set_solver. Qed.

Lemma idle_dated now : state_dated now idle.
Proof. intros made. constructor. Qed.
Lemma drafting_dated now : state_dated now drafting.
Proof. intros made. repeat constructor; by eexists. Qed.
Lemma page_ok : rows_ok (mp_messages (page [hello])).
Proof. split; [apply NoDup_singleton|apply Forall_singleton]. by eexists. Qed.

Lemma valid_ops : valid_run ops empty.
Proof.
  repeat split; try apply idle_dated; try apply drafting_dated; try apply page_ok; by eexists.
Qed.

Lemma thread_rows_consistent_witness :
  (fun m => (m_client_id m, m_content m)) <$> cl_messages (run ops empty)
    = [("ask", "Hi"); ("answer", "Hello"); ("question", "ask_user_questions")] /\
  consistent (run ops empty).
Proof.
  split; [vm_compute; reflexivity|].
  apply (thread_rows_consistent ops empty consistent_empty valid_ops).
Defined.

(** The answer as it was saved. *)
Definition after_saved : client := run (take 4 ops) empty.
Definition shown : ApiMessage := with_created_at "iii" 3 saved.

Lemma saved_rows_stay_witness : shown ∈ cl_messages (run (drop 4 ops) after_saved).
Proof.
  apply (saved_rows_stay (drop 4 ops) after_saved shown).
  - apply run_consistent; [apply consistent_empty|].
    repeat split; try apply idle_dated; try apply page_ok; by eexists.
  - repeat split; try apply drafting_dated; try apply page_ok; by eexists.
  - vm_compute. right. left.
  - vm_compute. reflexivity.
  - vm_compute. repeat split; try tauto. intros Hin.
    repeat (apply elem_of_cons in Hin as [Hin|Hin]; [discriminate Hin|]). inversion Hin.
Defined.
End Thread.
