(* ===== verification/Sessions.v ===== *)
(** Terminal sessions, their commands and runtime facts: the tables and maps, the
    asynchronous jobs over them, and the stores
    ([service/src/runtime/terminal/session-store.ts], [terminal-command-store.ts],
    [runtime-state.ts]).

    A [job] is asynchronous code: [Sync] is a piece that runs without
    interruption, [Stmt] a database statement with what the code does with its
    answer.  Other jobs may run before every node.  A statement sees the table as
    it is when it runs; it may reject, because the table refuses it or because the
    scheduler says so (the connection was lost, before or after it took effect).
    One clock serves the service and the database. *)
From Stdlib Require Import Strings.Byte ZArith QArith Qround Lia.
From stdpp Require Import base tactics strings gmap sorting option pretty.
From stdpp Require Import list.
From S2P Require Import Prelude JsRuntime Base64 JsText Carrier.
Open Scope Z_scope.

(** ** Rows *)

Record TerminalSessionRow := mkSession {
  se_threadId : option string;
  se_budId : string;
  se_instanceId : option string;
  se_state : string;
  se_cwd : option string;
  se_cols : Z;
  se_rows : Z;
  se_createdAt : Z;
  se_startedAt : option Z;
  se_lastInputAt : option Z;
  se_lastOutputAt : option Z;
  se_lastActivityAt : option Z;
  se_closedAt : option Z;
  se_totalInputBytes : Z;
  se_totalOutputBytes : Z;
  se_outputLogBytes : Z;
  se_tenantId : option string;
  se_createdByUserId : option string
}.

Definition set_thread (v : option string) (r : TerminalSessionRow) : TerminalSessionRow :=
  mkSession v (se_budId r) (se_instanceId r) (se_state r) (se_cwd r) (se_cols r) (se_rows r)
    (se_createdAt r) (se_startedAt r) (se_lastInputAt r) (se_lastOutputAt r)
    (se_lastActivityAt r) (se_closedAt r) (se_totalInputBytes r) (se_totalOutputBytes r)
    (se_outputLogBytes r) (se_tenantId r) (se_createdByUserId r).
Definition set_state (v : string) (r : TerminalSessionRow) : TerminalSessionRow :=
  mkSession (se_threadId r) (se_budId r) (se_instanceId r) v (se_cwd r) (se_cols r) (se_rows r)
    (se_createdAt r) (se_startedAt r) (se_lastInputAt r) (se_lastOutputAt r)
    (se_lastActivityAt r) (se_closedAt r) (se_totalInputBytes r) (se_totalOutputBytes r)
    (se_outputLogBytes r) (se_tenantId r) (se_createdByUserId r).
Definition set_cwd (v : option string) (r : TerminalSessionRow) : TerminalSessionRow :=
  mkSession (se_threadId r) (se_budId r) (se_instanceId r) (se_state r) v (se_cols r) (se_rows r)
    (se_createdAt r) (se_startedAt r) (se_lastInputAt r) (se_lastOutputAt r)
    (se_lastActivityAt r) (se_closedAt r) (se_totalInputBytes r) (se_totalOutputBytes r)
    (se_outputLogBytes r) (se_tenantId r) (se_createdByUserId r).
Definition set_size (cols rows : Z) (r : TerminalSessionRow) : TerminalSessionRow :=
  mkSession (se_threadId r) (se_budId r) (se_instanceId r) (se_state r) (se_cwd r) cols rows
    (se_createdAt r) (se_startedAt r) (se_lastInputAt r) (se_lastOutputAt r)
    (se_lastActivityAt r) (se_closedAt r) (se_totalInputBytes r) (se_totalOutputBytes r)
    (se_outputLogBytes r) (se_tenantId r) (se_createdByUserId r).
Definition set_started (v : option Z) (r : TerminalSessionRow) : TerminalSessionRow :=
  mkSession (se_threadId r) (se_budId r) (se_instanceId r) (se_state r) (se_cwd r) (se_cols r)
    (se_rows r) (se_createdAt r) v (se_lastInputAt r) (se_lastOutputAt r)
    (se_lastActivityAt r) (se_closedAt r) (se_totalInputBytes r) (se_totalOutputBytes r)
    (se_outputLogBytes r) (se_tenantId r) (se_createdByUserId r).
Definition set_activity (v : option Z) (r : TerminalSessionRow) : TerminalSessionRow :=
  mkSession (se_threadId r) (se_budId r) (se_instanceId r) (se_state r) (se_cwd r) (se_cols r)
    (se_rows r) (se_createdAt r) (se_startedAt r) (se_lastInputAt r) (se_lastOutputAt r)
    v (se_closedAt r) (se_totalInputBytes r) (se_totalOutputBytes r)
    (se_outputLogBytes r) (se_tenantId r) (se_createdByUserId r).
Definition set_closed (v : option Z) (r : TerminalSessionRow) : TerminalSessionRow :=
  mkSession (se_threadId r) (se_budId r) (se_instanceId r) (se_state r) (se_cwd r) (se_cols r)
    (se_rows r) (se_createdAt r) (se_startedAt r) (se_lastInputAt r) (se_lastOutputAt r)
    (se_lastActivityAt r) v (se_totalInputBytes r) (se_totalOutputBytes r)
    (se_outputLogBytes r) (se_tenantId r) (se_createdByUserId r).
Definition set_input (at_ total : Z) (r : TerminalSessionRow) : TerminalSessionRow :=
  mkSession (se_threadId r) (se_budId r) (se_instanceId r) (se_state r) (se_cwd r) (se_cols r)
    (se_rows r) (se_createdAt r) (se_startedAt r) (Some at_) (se_lastOutputAt r)
    (Some at_) (se_closedAt r) total (se_totalOutputBytes r)
    (se_outputLogBytes r) (se_tenantId r) (se_createdByUserId r).
Definition set_output (at_ total log : Z) (r : TerminalSessionRow) : TerminalSessionRow :=
  mkSession (se_threadId r) (se_budId r) (se_instanceId r) (se_state r) (se_cwd r) (se_cols r)
    (se_rows r) (se_createdAt r) (se_startedAt r) (se_lastInputAt r) (Some at_)
    (Some at_) (se_closedAt r) (se_totalInputBytes r) total
    log (se_tenantId r) (se_createdByUserId r).

(** What an insert of [ensureSessionRecordForThread] gives: the other columns have
    their defaults. *)
Definition new_session (threadId : string) (budId : string) (createdByUserId : option string)
    (now : Z) : TerminalSessionRow :=
  mkSession (Some threadId) budId None "pending" None 200 50 now None None None None None
    0 0 0 None createdByUserId.

Record TerminalSession := mkTerminalSession {
  ts_sessionId : string;
  ts_threadId : option string;
  ts_budId : string;
  ts_instanceId : option string;
  ts_state : string;
  ts_cols : Z;
  ts_rows : Z;
  ts_cwd : option string;
  ts_createdAt : Z;
  ts_startedAt : option Z;
  ts_lastActivityAt : option Z;
  ts_outputLogBytes : Z;
  ts_createdByUserId : option string;
  ts_tenantId : option string
}.

Definition rowToSession (x : string * TerminalSessionRow) : TerminalSession :=
  let r := x.2 in
  mkTerminalSession x.1 (se_threadId r) (se_budId r) (se_instanceId r) (se_state r) (se_cols r)
    (se_rows r) (se_cwd r) (se_createdAt r) (se_startedAt r) (se_lastActivityAt r)
    (se_outputLogBytes r) (se_createdByUserId r) (se_tenantId r).

(** A row of [terminal_command]; its key is the command id. *)
Record TerminalCommandRecord := mkCommand {
  co_terminalSessionId : string;
  co_threadId : option string;
  co_budId : string;
  co_createdByUserId : option string;
  co_tenantId : option string;
  co_startedAt : Z;
  co_finishedAt : option Z;
  co_exitCode : option Z;
  co_outputByteStart : Z;
  co_outputByteEnd : option Z
}.

Record InputLogRow := mkInputLog {
  il_sessionId : string;
  il_data : list byte;
  il_source : string;
  il_userId : option string;
  il_createdAt : Z
}.

(** ** Runtime facts *)

Inductive TerminalMode := MShell | MTui | MRepl | MUnknown.
Inductive TerminalIntegration := IOsc133 | ISentinel | INone.

Definition isTerminalMode (value : jsval) : option TerminalMode :=
  match value with
  | JStr "shell" => Some MShell
  | JStr "tui" => Some MTui
  | JStr "repl" => Some MRepl
  | JStr "unknown" => Some MUnknown
  | _ => None
  end.

Definition isTerminalIntegration (value : jsval) : option TerminalIntegration :=
  match value with
  | JStr "osc133" => Some IOsc133
  | JStr "sentinel" => Some ISentinel
  | JStr "none" => Some INone
  | _ => None
  end.

Record TerminalRuntimeContext := mkRuntime {
  rc_mode : TerminalMode;
  rc_integration : option TerminalIntegration;
  rc_cwd : option string
}.

Definition DEFAULT_CONTEXT : TerminalRuntimeContext := mkRuntime MUnknown None None.

Definition runtimes := gmap string TerminalRuntimeContext.

Definition getSessionContext (sessionId : string) (m : runtimes) : TerminalRuntimeContext :=
  m !! sessionId ?? DEFAULT_CONTEXT.

Definition runtime_clearSessionCache (sessionId : string) (m : runtimes) : runtimes :=
  delete sessionId m.
Definition runtime_clearSessionCaches (sessionIds : list string) (m : runtimes) : runtimes :=
  foldl (fun m s => runtime_clearSessionCache s m) m sessionIds.

(** [getOrCreate], and the fields that are set of the object in the map. *)
Definition in_context (sessionId : string)
    (f : TerminalRuntimeContext -> TerminalRuntimeContext) (m : runtimes) : runtimes :=
  <[sessionId := f (getSessionContext sessionId m)]> m.

Definition set_mode (mode : jsval) (c : TerminalRuntimeContext) : TerminalRuntimeContext :=
  match isTerminalMode mode with
  | Some v => mkRuntime v (rc_integration c) (rc_cwd c)
  | None => c
  end.
Definition set_integration (integration : jsval) (c : TerminalRuntimeContext)
    : TerminalRuntimeContext :=
  match isTerminalIntegration integration with
  | Some v => mkRuntime (rc_mode c) (Some v) (rc_cwd c)
  | None => c
  end.

(** A text that is not only white space. *)
Definition filled_text (v : jsval) : option string :=
  match v with
  | JStr s => if str_truthy (trim s) then Some s else None
  | _ => None
  end.

Definition applyModeChange (sessionId : string) (mode integration : jsval) (m : runtimes)
    : runtimes :=
  in_context sessionId (fun c => set_integration integration (set_mode mode c)) m.

Definition applyCwd (sessionId : string) (cwd : jsval) (m : runtimes) : runtimes :=
  match filled_text cwd with
  | Some s => in_context sessionId (fun c => mkRuntime (rc_mode c) (rc_integration c) (Some s)) m
  | None => m
  end.

Definition applyStatusInfo (sessionId : string) (info : option (list (string * jsval)))
    (m : runtimes) : runtimes :=
  match info with
  | None => m
  | Some info =>
      in_context sessionId (fun c =>
        let c := set_integration (field_lookup "integration" info)
                   (set_mode (field_lookup "mode" info) c) in
        match filled_text (field_lookup "cwd" info) with
        | Some s => mkRuntime (rc_mode c) (rc_integration c) (Some s)
        | None => c
        end) m
  end.
