(* ===== verification/SessionStore.v ===== *)
(** Jobs over the terminal tables, and the two stores that are made of them:
    [TerminalSessionStore] ([service/src/runtime/terminal/session-store.ts]) and
    [TerminalCommandStore] ([terminal-command-store.ts]).

    The state [tw] has the tables, the maps of the service's memory, the router to
    the Buds (any [DaemonTransportRouter]), the stored output and the calls made to the parts that
    other files model, in order.  A database value that its column cannot hold
    rejects the statement ([int4], [int8]).  A time is any number of milliseconds: that a
    [Date] beyond 8.64e15 of them is invalid, and the statement that is given it rejected,
    is left out. *)
From Stdlib Require Import Strings.Byte ZArith QArith Qround Lia.
From stdpp Require Import base tactics strings gmap sorting option pretty.
From stdpp Require Import list.
From S2P Require Import Prelude JsRuntime Base64 JsText Carrier Sessions.
Open Scope Z_scope.

(** Calls to the event bus, the output store and the request dispatcher. *)
Inductive effect :=
  | Emitted (sessionId event : string) (data : list (string * jsval)) (buffered : bool)
  | BufferCleared (sessionId : string)
  | OutputCacheCleared (sessionId : string)
  | OutputIngested (sessionId : string) (payload : list (string * jsval))
  | ObserveAnswered (sessionId : string) (payload : list (string * jsval))
  | SendAnswered (sessionId : string) (payload : list (string * jsval))
  | RequestsRejected (sessionIds : list string) (message : string).

(** Fresh ids, by the number drawn before. *)
Class SessionIds := session_ulid : nat -> string.

Section jobs.
Context {R D : Type} `{DaemonTransportRouter R} `{SessionIds}.

Record tw := mkTw {
  tw_sessions : gmap string TerminalSessionRow;
  tw_commands : gmap string TerminalCommandRecord;
  tw_inputs : list InputLogRow;
  tw_capabilities : gmap string (option (list (string * jsval)));   (** of the Buds *)
  tw_runtime : runtimes;
  tw_viewers : gmap string Z;                                       (** [gridViewerCounts] *)
  tw_router : R;
  tw_output : D;                                                    (** the stored output *)
  tw_drawn : nat;
  tw_effects : list effect
}.

Definition set_sessions (v : gmap string TerminalSessionRow) (w : tw) : tw :=
  mkTw v (tw_commands w) (tw_inputs w) (tw_capabilities w) (tw_runtime w) (tw_viewers w)
    (tw_router w) (tw_output w) (tw_drawn w) (tw_effects w).
Definition set_commands (v : gmap string TerminalCommandRecord) (w : tw) : tw :=
  mkTw (tw_sessions w) v (tw_inputs w) (tw_capabilities w) (tw_runtime w) (tw_viewers w)
    (tw_router w) (tw_output w) (tw_drawn w) (tw_effects w).
Definition set_inputs (v : list InputLogRow) (w : tw) : tw :=
  mkTw (tw_sessions w) (tw_commands w) v (tw_capabilities w) (tw_runtime w) (tw_viewers w)
    (tw_router w) (tw_output w) (tw_drawn w) (tw_effects w).
Definition on_runtime (f : runtimes -> runtimes) (w : tw) : tw :=
  mkTw (tw_sessions w) (tw_commands w) (tw_inputs w) (tw_capabilities w) (f (tw_runtime w))
    (tw_viewers w) (tw_router w) (tw_output w) (tw_drawn w) (tw_effects w).
Definition set_viewers (v : gmap string Z) (w : tw) : tw :=
  mkTw (tw_sessions w) (tw_commands w) (tw_inputs w) (tw_capabilities w) (tw_runtime w) v
    (tw_router w) (tw_output w) (tw_drawn w) (tw_effects w).
Definition set_router (v : R) (w : tw) : tw :=
  mkTw (tw_sessions w) (tw_commands w) (tw_inputs w) (tw_capabilities w) (tw_runtime w)
    (tw_viewers w) v (tw_output w) (tw_drawn w) (tw_effects w).
Definition draw (w : tw) : tw :=
  mkTw (tw_sessions w) (tw_commands w) (tw_inputs w) (tw_capabilities w) (tw_runtime w)
    (tw_viewers w) (tw_router w) (tw_output w) (S (tw_drawn w)) (tw_effects w).
Definition note (es : list effect) (w : tw) : tw :=
  mkTw (tw_sessions w) (tw_commands w) (tw_inputs w) (tw_capabilities w) (tw_runtime w)
    (tw_viewers w) (tw_router w) (tw_output w) (tw_drawn w) (tw_effects w ++ es).

(** ** Jobs *)

(** The answer to a statement: the state it ran on and when, or its error. *)
Inductive settled :=
  | Done (w : tw) (now : Z)
  | Rejected (code : string).

Inductive job (A : Type) :=
  | Ret (a : A)
  | Throw (code : string)
  | Sync (f : Z -> tw -> tw) (k : Z -> tw -> job A)      (** [k] gets the state before [f] *)
  | Stmt (st : Z -> tw -> res tw) (k : settled -> job A).
Arguments Ret {A}.
Arguments Throw {A}.
Arguments Sync {A}.
Arguments Stmt {A}.

Fixpoint job_bind {A B} (k : A -> job B) (p : job A) : job B :=
  match p with
  | Ret a => k a
  | Throw e => Throw e
  | Sync f c => Sync f (fun now w => job_bind k (c now w))
  | Stmt st c => Stmt st (fun s => job_bind k (c s))
  end.

#[export] Instance job_mret : MRet job := fun A => Ret.
#[export] Instance job_mbind : MBind job := fun A B => job_bind.

(** [try { p } catch (err) { h }]. *)
Fixpoint job_catch {A} (p : job A) (h : string -> job A) : job A :=
  match p with
  | Ret a => Ret a
  | Throw e => h e
  | Sync f c => Sync f (fun now w => job_catch (c now w) h)
  | Stmt st c => Stmt st (fun s => job_catch (c s) h)
  end.

(** A piece of synchronous code with no result. *)
Definition sync (f : Z -> tw -> tw) : job unit := Sync f (fun _ _ => Ret tt).

(** A statement whose result the state before it determines. *)
Definition stmt {A} (st : Z -> tw -> res tw) (result : Z -> tw -> A) : job A :=
  Stmt st (fun s => match s with Done w now => Ret (result now w) | Rejected e => Throw e end).
Definition query {A} (result : tw -> A) : job A := stmt (fun _ w => Ok w) (fun _ w => result w).
Definition exec (f : Z -> tw -> tw) : job unit := stmt (fun now w => Ok (f now w)) (fun _ _ => tt).

(** What happens to a statement: it runs, or the connection is lost before or
    after it took effect. *)
Inductive fate := Runs | LostBefore | LostAfter.

Definition job_step {A} (o : fate) (now : Z) (p : job A) (w : tw) : tw * job A :=
  match p with
  | Ret _ | Throw _ => (w, p)
  | Sync f k => (f now w, k now w)
  | Stmt st k =>
      match o, st now w with
      | Runs, Ok w' => (w', k (Done w now))
      | Runs, Err e => (w, k (Rejected e))
      | LostAfter, Ok w' => (w', k (Rejected "ECONNRESET"))
      | _, _ => (w, k (Rejected "ECONNRESET"))
      end
  end.

Definition ended {A} (p : job A) : bool :=
  match p with Ret _ | Throw _ => true | _ => false end.

(** ** Columns *)

Definition int4 (z : Z) : bool := (- 2 ^ 31 <=? z) && (z <? 2 ^ 31).
Definition int8 (z : Z) : bool := (- 2 ^ 63 <=? z) && (z <? 2 ^ 63).
Definition nullable (p : Z -> bool) (o : option Z) : bool :=
  match o with Some z => p z | None => true end.

Definition UNIQUE_VIOLATION : string := "23505".
Definition FK_VIOLATION : string := "23503".
Definition OUT_OF_RANGE : string := "22003".

(** ** The session store *)

Definition rows_of (P : string -> TerminalSessionRow -> bool) (w : tw) : list (string * TerminalSessionRow) :=
  List.filter (fun x => P x.1 x.2) (map_to_list (tw_sessions w)).

(** [update terminal_session set f where session_id = id]. *)
Definition update_session (id : string) (f : Z -> TerminalSessionRow -> TerminalSessionRow) (now : Z) (w : tw) : tw :=
  set_sessions (alter (f now) id (tw_sessions w)) w.
(** [update terminal_session set f where P]. *)
Definition update_sessions (P : TerminalSessionRow -> bool) (f : TerminalSessionRow -> TerminalSessionRow) (w : tw) : tw :=
  set_sessions ((fun r => if P r then f r else r) <$> tw_sessions w) w.

Definition is_open (r : TerminalSessionRow) : bool := bool_decide (se_closedAt r = None).
Definition open_in (threadId : string) (r : TerminalSessionRow) : bool :=
  bool_decide (se_threadId r = Some threadId) && is_open r.

Definition getSessionForThread (threadId : string) : job (option TerminalSession) :=
  query (fun w => rowToSession <$> head (rows_of (fun _ => open_in threadId) w)).

Definition getBudCapabilities (budId : string) : job (option (list (string * jsval))) :=
  query (fun w => mjoin (tw_capabilities w !! budId)).

Definition getSession (sessionId : string) : job (option TerminalSession) :=
  query (fun w => (fun r => rowToSession (sessionId, r)) <$> tw_sessions w !! sessionId).

Definition isUniqueViolation (code : string) : bool := bool_decide (code = UNIQUE_VIOLATION).

(** The insert: the key and the index on the open sessions of a thread are unique. *)
Definition insert_session (id threadId budId : string) (createdByUserId : option string)
    (now : Z) (w : tw) : res tw :=
  if bool_decide (is_Some (tw_sessions w !! id)) ||
     negb (bool_decide (rows_of (fun _ => open_in threadId) w = []))
  then Err UNIQUE_VIOLATION
  else Ok (set_sessions (<[id := new_session threadId budId createdByUserId now]> (tw_sessions w)) w).

Definition ensureSessionRecordForThread (threadId budId : string) (createdByUserId : option string)
    : job (TerminalSession * bool) :=
  existing ← getSessionForThread threadId;
  match existing with
  | Some s => mret (s, false)
  | None =>
      id ← Sync (fun _ => draw) (fun _ w => Ret ("sess_" +:+ session_ulid (tw_drawn w)));
      job_catch
        (stmt (insert_session id threadId budId createdByUserId)
           (fun now _ =>
              (rowToSession (id, new_session threadId budId createdByUserId now), true)))
        (fun error =>
           if isUniqueViolation error then
             winner ← getSessionForThread threadId;
             match winner with
             | Some s => mret (s, false)
             | None => Throw error
             end
           else Throw error)
  end.

(** The members every frame to a Bud starts with. *)
Definition frame_head (type : string) (now : Z) (w : tw) : frame :=
  [("proto", JStr "0.3"); ("type", JStr type); ("id", JStr ("msg_" +:+ session_ulid (tw_drawn w)));
   ("ts", JNum (JFin (inject_Z now))); ("ext", JObj [])].

(** [daemonTransport.sendFrameToBud]: it may throw. *)
Definition send_to_bud (budId : string) (type : string) (members : list (string * jsval)) : job bool :=
  Sync (fun now w => draw (set_router
          (sendFrameToBud budId (frame_head type now w ++ members) (tw_router w)).2 w))
    (fun now w =>
       match (sendFrameToBud budId (frame_head type now w ++ members) (tw_router w)).1 with
       | Some sent => Ret sent
       | None => Throw "send failed"
       end).

Definition number (z : Z) : jsval := JNum (JFin (inject_Z z)).

Record EnsureResult := mkEnsure {
  en_ok : bool;
  en_resumed : bool;
  en_created : bool;
  en_error : option string
}.

Definition CREATED_STATES : list string := ["ready"; "active"; "idle"].

Definition store_ensureSession (sessionId : string) (resumeFromOffset : Z) : job EnsureResult :=
  found ← getSession sessionId;
  match found with
  | None => mret (mkEnsure false false false (Some "session_not_found"))
  | Some s =>
      if bool_decide (ts_state s = "closed") then
        mret (mkEnsure false false false (Some "session_closed"))
      else if bool_decide (ts_state s ∈ CREATED_STATES) then
        Sync (fun _ w => w) (fun _ w => Ret
          (if isBudOnline (ts_budId s) (tw_router w) then mkEnsure true true false None
           else mkEnsure false false false (Some "bud_offline")))
      else
        sent ← send_to_bud (ts_budId s) "terminal_ensure"
          ([("session_id", JStr sessionId);
            ("config", JObj [("cols", number (ts_cols s)); ("rows", number (ts_rows s))])]
           ++ (if 0 <? resumeFromOffset then [("resume_from_offset", number resumeFromOffset)] else []));
        if sent : bool then
          exec (update_session sessionId (fun now r => set_activity (Some now) (set_state "creating" r)));;
          mret (mkEnsure true false true None)
        else mret (mkEnsure false false false (Some "bud_offline"))
  end.

Definition close_row (now : Z) (r : TerminalSessionRow) : TerminalSessionRow :=
  set_closed (Some now) (set_state "closed" r).

Definition markClosed (sessionId : string) : job unit := exec (update_session sessionId close_row).

Definition int_member (key : string) (fs : list (string * jsval)) : option Z :=
  match field_lookup key fs with JNum (JFin q) => Some (Qfloor q) | _ => None end.

Definition status_row (state : string) (info : option (list (string * jsval))) (now : Z)
    (r : TerminalSessionRow) : TerminalSessionRow :=
  let info := info ?? [] in
  let r := set_state state r in
  let r := set_size (int_member "cols" info ?? se_cols r) (int_member "rows" info ?? se_rows r) r in
  let r := match as_string (field_lookup "cwd" info) with Some s => set_cwd (Some s) r | None => r end in
  let r := if bool_decide (state = "ready") then set_started (Some (se_startedAt r ?? now)) r else r in
  let r := if bool_decide (state = "closed") then set_closed (Some (se_closedAt r ?? now)) r else r in
  set_activity (Some now) r.

Definition updateStatus (sessionId state : string) (info : option (list (string * jsval))) : job unit :=
  stmt (fun now w =>
    if nullable int4 (int_member "cols" (info ?? [])) && nullable int4 (int_member "rows" (info ?? []))
    then Ok (update_session sessionId (status_row state info) now w) else Err OUT_OF_RANGE)
    (fun _ _ => tt).

Definition updateCwd (sessionId cwd : string) : job unit :=
  exec (update_session sessionId (fun now r => set_activity (Some now) (set_cwd (Some cwd) r))).

Definition listSessionIdsForBud (budId : string) (activeOnly : bool) : job (list string) :=
  query (fun w => (rows_of (fun _ r => bool_decide (se_budId r = budId) &&
                              (negb activeOnly || is_open r)) w).*1).

Definition suspendable (budId : string) (r : TerminalSessionRow) : bool :=
  bool_decide (se_budId r = budId) &&
  bool_decide (se_state r ∈ ["ready"; "active"; "idle"; "creating"]) && is_open r.

Definition suspendSessionsForBud (budId : string) : job unit :=
  exec (fun _ => update_sessions (suspendable budId) (set_state "pending")).

(** [last_activity_at < threshold]: false of a null. *)
Definition inactive_since (threshold : Z) (r : TerminalSessionRow) : bool :=
  match se_lastActivityAt r with Some at_ => at_ <? threshold | None => false end.

Definition idle_due (threshold : Z) (r : TerminalSessionRow) : bool :=
  bool_decide (se_state r ∈ ["ready"; "active"]) && inactive_since threshold r.

Definition markIdleSessions (threshold : Z) : job Z :=
  stmt (fun _ w => Ok (update_sessions (idle_due threshold) (set_state "idle") w))
    (fun _ w => zlen (rows_of (fun _ => idle_due threshold) w)).

Definition listStaleIdleSessionIds (threshold : Z) : job (list string) :=
  query (fun w => (rows_of (fun _ r => bool_decide (se_state r = "idle") &&
                                      inactive_since threshold r) w).*1).

(** ** The command store *)

(** Insert, doing nothing on a known command id; whether it inserted. *)
Definition insertCommand (id : string) (row : TerminalCommandRecord) : job bool :=
  stmt (fun _ w =>
    if negb (nullable int4 (co_exitCode row) && int8 (co_outputByteStart row) &&
             nullable int8 (co_outputByteEnd row)) then Err OUT_OF_RANGE
    else if bool_decide (is_Some (tw_commands w !! id)) then Ok w
    else if bool_decide (tw_sessions w !! co_terminalSessionId row = None) then Err FK_VIOLATION
    else Ok (set_commands (<[id := row]> (tw_commands w)) w))
    (fun _ w => bool_decide (tw_commands w !! id = None)).

Definition finish_command (at_ : Z) (exitCode outputByteEnd outputByteStart : option Z)
    (c : TerminalCommandRecord) : TerminalCommandRecord :=
  mkCommand (co_terminalSessionId c) (co_threadId c) (co_budId c) (co_createdByUserId c)
    (co_tenantId c) (co_startedAt c) (Some at_) exitCode
    (outputByteStart ?? co_outputByteStart c) outputByteEnd.

(** Whether there was a row to finish. *)
Definition finalizeCommand (id : string) (at_ : Z) (exitCode outputByteEnd outputByteStart : option Z)
    : job bool :=
  stmt (fun _ w =>
    if negb (nullable int4 exitCode && nullable int8 outputByteStart && nullable int8 outputByteEnd)
    then Err OUT_OF_RANGE
    else Ok (set_commands
           (alter (finish_command at_ exitCode outputByteEnd outputByteStart) id (tw_commands w)) w))
    (fun _ w => bool_decide (is_Some (tw_commands w !! id))).

Record CommandStartedEvent := mkStarted {
  cs_commandId : string;
  cs_outputByteStart : Z;
  cs_ts : Z
}.

Record CommandFinishedEvent := mkFinished {
  cf_commandId : string;
  cf_exitCode : option Z;
  cf_durationMs : option Z;
  cf_outputByteStart : option Z;
  cf_outputByteEnd : option Z;
  cf_ts : Z
}.

Definition started_record (s : TerminalSession) (e : CommandStartedEvent) : TerminalCommandRecord :=
  mkCommand (ts_sessionId s) (ts_threadId s) (ts_budId s) (ts_createdByUserId s) (ts_tenantId s)
    (cs_ts e) None None (cs_outputByteStart e) None.

(** A finish with no start before it. *)
Definition finished_record (s : TerminalSession) (e : CommandFinishedEvent) : TerminalCommandRecord :=
  mkCommand (ts_sessionId s) (ts_threadId s) (ts_budId s) (ts_createdByUserId s) (ts_tenantId s)
    (match cf_durationMs e with Some d => cf_ts e - Z.max d 0 | None => cf_ts e end)
    (Some (cf_ts e)) (cf_exitCode e) (cf_outputByteStart e ?? 0) (cf_outputByteEnd e).

(** A failure is logged. *)
Definition recordCommandStarted (s : TerminalSession) (e : CommandStartedEvent) : job unit :=
  job_catch (insertCommand (cs_commandId e) (started_record s e);; mret tt) (fun _ => mret tt).

Definition recordCommandFinished (s : TerminalSession) (e : CommandFinishedEvent) : job unit :=
  job_catch
    (updated ← finalizeCommand (cf_commandId e) (cf_ts e) (cf_exitCode e) (cf_outputByteEnd e)
                 (cf_outputByteStart e);
     if updated : bool then mret tt
     else insertCommand (cf_commandId e) (finished_record s e);; mret tt)
    (fun _ => mret tt).

Definition getCommand (id : string) : job (option TerminalCommandRecord) :=
  query (fun w => tw_commands w !! id).

(** Later start first; of one start the greater id first. *)
Definition later_command (a b : string * TerminalCommandRecord) : Prop :=
  co_startedAt b.2 < co_startedAt a.2 \/
  (co_startedAt b.2 = co_startedAt a.2 /\ str_lt a.1 b.1 = false).
#[export] Instance later_command_dec a b : Decision (later_command a b).
Proof. unfold later_command. apply _. Defined.

Definition getLatestCommandForSession (sessionId : string)
    : job (option (string * TerminalCommandRecord)) :=
  query (fun w => head (merge_sort later_command
    (List.filter (fun x => bool_decide (co_terminalSessionId x.2 = sessionId))
       (map_to_list (tw_commands w))))).
End jobs.

Arguments Ret {R D A}.
Arguments Throw {R D A}.
Arguments Sync {R D A}.
Arguments Stmt {R D A}.
Arguments tw : clear implicits.
Arguments job : clear implicits.
