(* ===== verification/SessionManager.v ===== *)
(** The terminal session manager
    ([service/src/runtime/terminal-session-manager.ts]) and the idle check
    ([runtime/terminal/idle-monitor.ts]): frames of the Buds, calls of the routes
    and the agent, and how they interleave.

    [handle] is what a frame does, [call_job] what a call does.  The frames of a
    session wait in its ingest queue and run one after the other; calls run beside
    them.  [station_step] lets any job take its next node, and the rest of the
    service change the tables ([env_step]). *)
From Stdlib Require Import Strings.Byte ZArith QArith Qround Lia.
From stdpp Require Import base tactics strings gmap sorting option pretty.
From stdpp Require Import list.
From S2P Require Import Prelude JsRuntime Base64 Json JsText Carrier OutputStore Sessions SessionStore.
Open Scope Z_scope.

(** ** Frames and calls *)

Inductive TerminalFrame :=
  | StatusFrame (state : string) (info : option (list (string * jsval)))
  | GridFrame (payload : list (string * jsval))
  | OutputFrame (payload : list (string * jsval))
  | EventFrame (event : string) (data : list (string * jsval)) (ts : Z)
  | ObserveFrame (payload : list (string * jsval))
  | SendFrame (payload : list (string * jsval)).

Inductive ManagerCall :=
  | EnsureRecord (threadId budId : string) (createdByUserId : option string)
  | EnsureSession (sessionId : string)
  | CloseSession (sessionId reason : string)
  | SendInput (sessionId : string) (data : list byte) (source userId : option string)
      (inputSeq : option Z)
  | SendResize (sessionId : string) (cols rows : Z)
  | AddGridViewer (sessionId : string)
  | RemoveGridViewer (sessionId : string)
  | ClearCaches (budId : string)
  | Suspend (budId : string)
  | ClearEventBuffers (budId : string)
  | EmitBudOffline (budId : string)
  | EmitBudOnline (budId : string)
  | RejectForThread (threadId message : string)
  | RejectForBud (budId message : string)
  | IdleCheck.

(** What the settings of the idle check are. *)
Record IdleConfig := mkIdle { idle_timeoutMinutes : Z; idle_cleanupHours : Z }.

Section manager.
Context {R D : Type} `{DaemonTransportRouter R} `{TerminalOutputPersistence D} `{SessionIds}.
Context (idle : IdleConfig).
Notation world := (tw R D).
Notation prog := (job R D).

Definition noting (es : list effect) : prog unit := sync (fun _ => note es).

Fixpoint for_each {A} (xs : list A) (body : A -> prog unit) : prog unit :=
  match xs with
  | [] => mret tt
  | x :: xs => body x;; for_each xs body
  end.

(** ** Sessions *)

Definition supportsTerminalSendAuto (sessionId : string) : prog bool :=
  found ← getSession sessionId;
  match found with
  | None => mret false
  | Some s =>
      capabilities ← getBudCapabilities (ts_budId s);
      mret (match field_lookup "terminal_send_auto" (capabilities ?? []) with
            | JBool b => b | _ => false end)
  end.

Record TerminalPathContext := mkPath {
  pc_terminal_session_id : string;
  pc_host_cwd : string;
  pc_captured_at : string
}.

Definition buildTerminalPathContext (s : TerminalSession) : TerminalPathContext :=
  mkPath (ts_sessionId s) (ts_cwd s ?? "")
    (toISOString (ts_lastActivityAt s ?? ts_startedAt s ?? ts_createdAt s)).

Definition path_context (found : option TerminalSession) : option TerminalPathContext :=
  s ← found;
  if ostr_truthy (ts_cwd s) then Some (buildTerminalPathContext s) else None.

Definition getPathContextForSession (sessionId : string) : prog (option TerminalPathContext) :=
  found ← getSession sessionId; mret (path_context found).
Definition getPathContextForThread (threadId : string) : prog (option TerminalPathContext) :=
  found ← getSessionForThread threadId; mret (path_context found).

Definition ensureSession (sessionId : string) : prog EnsureResult :=
  resumeFromOffset ← query (fun w => db_getStoredEndOffset sessionId (tw_output w));
  store_ensureSession sessionId resumeFromOffset.

Definition markSessionClosedLocally (sessionId reason : string) : prog unit :=
  markClosed sessionId;;
  sync (fun _ w => note
    [OutputCacheCleared sessionId; RequestsRejected [sessionId] "session_closed";
     Emitted sessionId "terminal.status" [("state", JStr "closed"); ("reason", JStr reason)] true]
    (on_runtime (runtime_clearSessionCache sessionId) w)).

Definition closeSession (sessionId reason : string) : prog unit :=
  found ← getSession sessionId;
  match found with
  | None => mret tt
  | Some s =>
      send_to_bud (ts_budId s) "terminal_close"
        [("session_id", JStr sessionId); ("reason", JStr reason)];;
      markSessionClosedLocally sessionId reason
  end.

(** A failure is logged. *)
Definition recordInput (sessionId : string) (data : list byte) (source userId : option string)
    : prog unit :=
  job_catch
    (stmt (fun now w =>
       if bool_decide (tw_sessions w !! sessionId = None) then Err FK_VIOLATION
       else Ok (set_inputs
              (tw_inputs w ++ [mkInputLog sessionId data (source ?? "agent") userId now]) w))
       (fun _ _ => tt))
    (fun _ => mret tt).

Definition bumpInputStats (sessionId : string) (deltaBytes : Z) : prog unit :=
  job_catch
    (exec (update_session sessionId
       (fun now r => set_input now (se_totalInputBytes r + deltaBytes) r)))
    (fun _ => mret tt).

Definition answer := (bool * option string)%type.      (** [{ ok, error }] *)

Definition sendInput (sessionId : string) (data : list byte) (source userId : option string)
    (inputSeq : option Z) : prog answer :=
  found ← getSession sessionId;
  match found with
  | None => mret (false, Some "session_not_found")
  | Some s =>
      sent ← send_to_bud (ts_budId s) "terminal_input"
        ([("session_id", JStr sessionId); ("data", JStr (Base64.encode data))] ++
         match inputSeq with Some n => [("input_seq", number n)] | None => [] end);
      if sent : bool then
        recordInput sessionId data source userId;;
        bumpInputStats sessionId (zlen data);;
        mret (true, None)
      else mret (false, Some "bud_offline")
  end.

Definition sendResize (sessionId : string) (cols rows : Z) : prog answer :=
  found ← getSession sessionId;
  match found with
  | None => mret (false, Some "session_not_found")
  | Some s =>
      sent ← send_to_bud (ts_budId s) "terminal_resize"
        [("session_id", JStr sessionId); ("cols", number cols); ("rows", number rows)];
      if sent : bool then
        stmt (fun now w => if int4 cols && int4 rows
          then Ok (update_session sessionId
                 (fun now r => set_activity (Some now) (set_size cols rows r)) now w)
          else Err OUT_OF_RANGE) (fun _ _ => tt);;
        mret (true, None)
      else mret (false, Some "bud_offline")
  end.

(** ** Viewers of the grid *)

Definition viewer_count (sessionId : string) (w : world) : Z := tw_viewers w !! sessionId ?? 0.

Definition hasGridViewers (sessionId : string) (w : world) : bool := 0 <? viewer_count sessionId w.

Definition sendGridWatch (sessionId : string) (enabled : bool) : prog bool :=
  found ← getSession sessionId;
  match found with
  | None => mret false
  | Some s => send_to_bud (ts_budId s) "terminal_grid_watch"
                [("session_id", JStr sessionId); ("enabled", JBool enabled)]
  end.

Definition addGridViewer (sessionId : string) : prog unit :=
  sync (fun _ w => set_viewers (<[sessionId := viewer_count sessionId w + 1]> (tw_viewers w)) w);;
  sendGridWatch sessionId true;;
  mret tt.

Definition leave_viewer (sessionId : string) (w : world) : world :=
  let current := viewer_count sessionId w in
  set_viewers (if current <=? 1 then delete sessionId (tw_viewers w)
               else <[sessionId := current - 1]> (tw_viewers w)) w.

Definition removeGridViewer (sessionId : string) : prog unit :=
  current ← Sync (fun _ => leave_viewer sessionId) (fun _ w => Ret (viewer_count sessionId w));
  if current =? 1 then sendGridWatch sessionId false;; mret tt else mret tt.

(** ** Frames *)

(** The session of a frame, when it is one of the Bud that sent it. *)
Definition resolveOwnedSession (budId sessionId : string) : prog (option TerminalSession) :=
  found ← getSession sessionId;
  mret (match found with
        | Some s => if bool_decide (ts_budId s = budId) then Some s else None
        | None => None
        end).

Definition asInteger (value : jsval) : option Z :=
  match value with
  | JNum (JFin q) => Some (Z.quot (Qnum q) (Zpos (Qden q)))
  | _ => None
  end.

Definition asNonNegativeInteger (value : jsval) : option Z :=
  parsed ← asInteger value; if 0 <=? parsed then Some parsed else None.

Definition handleTerminalStatusInner (budId sessionId state : string)
    (info : option (list (string * jsval))) : prog unit :=
  owned ← resolveOwnedSession budId sessionId;
  match owned with
  | None => mret tt
  | Some _ =>
      updateStatus sessionId state info;;
      viewers ← Sync (fun _ w => note
          [Emitted sessionId "terminal.status"
             [("state", JStr state); ("info", JObj (info ?? []))] true]
          (on_runtime (applyStatusInfo sessionId info) w))
        (fun _ w => Ret (hasGridViewers sessionId w));
      if bool_decide (state = "ready") && viewers
      then sendGridWatch sessionId true;; mret tt
      else mret tt
  end.

Definition handleTerminalGridInner (budId sessionId : string) (payload : list (string * jsval))
    : prog unit :=
  owned ← resolveOwnedSession budId sessionId;
  match owned with
  | None => mret tt
  | Some _ => noting [Emitted sessionId "terminal.grid" (("session_id", JStr sessionId) :: payload) false]
  end.

Definition handleTerminalOutputInner (budId sessionId : string) (payload : list (string * jsval))
    : prog unit :=
  owned ← resolveOwnedSession budId sessionId;
  match owned with
  | None => mret tt
  | Some _ => noting [OutputIngested sessionId payload]
  end.

Definition command_started_event (data : list (string * jsval)) (ts : Z) (id : string)
    : CommandStartedEvent :=
  mkStarted id (asNonNegativeInteger (field_lookup "output_byte_start" data) ?? 0) ts.

Definition command_finished_event (data : list (string * jsval)) (ts : Z) (id : string)
    : CommandFinishedEvent :=
  mkFinished id (asInteger (field_lookup "exit_code" data))
    (asNonNegativeInteger (field_lookup "duration_ms" data))
    (asNonNegativeInteger (field_lookup "output_byte_start" data))
    (asNonNegativeInteger (field_lookup "output_byte_end" data)) ts.

(** The [switch] over the event. *)
Definition event_effects (s : TerminalSession) (sessionId event : string)
    (data : list (string * jsval)) (ts : Z) : prog unit :=
  if bool_decide (event = "prompt_ready") then
    match filled_text (field_lookup "cwd" data) with
    | Some cwd =>
        sync (fun _ => on_runtime (applyCwd sessionId (JStr cwd)));;
        job_catch (updateCwd sessionId cwd) (fun _ => mret tt)
    | None => mret tt
    end
  else if bool_decide (event = "mode_changed") then
    sync (fun _ => on_runtime
      (applyModeChange sessionId (field_lookup "mode" data) (field_lookup "integration" data)))
  else if bool_decide (event = "command_started") then
    match as_string (field_lookup "command_id" data) with
    | Some id => recordCommandStarted s (command_started_event data ts id)
    | None => mret tt
    end
  else if bool_decide (event = "command_finished") then
    match as_string (field_lookup "command_id" data) with
    | Some id => recordCommandFinished s (command_finished_event data ts id)
    | None => mret tt
    end
  else if bool_decide (event = "child_exited") then
    markSessionClosedLocally sessionId "child_exited"
  else mret tt.

Definition handleTerminalEventInner (budId sessionId event : string)
    (data : list (string * jsval)) (ts : Z) : prog unit :=
  owned ← resolveOwnedSession budId sessionId;
  match owned with
  | None => mret tt
  | Some s =>
      event_effects s sessionId event data ts;;
      noting [Emitted sessionId "terminal.event"
        [("session_id", JStr sessionId); ("event", JStr event); ("data", JObj data);
         ("ts", number ts)] true]
  end.

Definition member_truthy (key : string) (fs : list (string * jsval)) : bool :=
  match field_lookup key fs with JStr s => str_truthy s | _ => false end.

Definition handleObserveResultInner (budId sessionId : string) (payload : list (string * jsval))
    : prog unit :=
  owned ← resolveOwnedSession budId sessionId;
  match owned with
  | None => mret tt
  | Some _ =>
      sync (fun _ w => note [ObserveAnswered sessionId payload]
        (if member_truthy "mode" payload || member_truthy "integration" payload
         then on_runtime (applyModeChange sessionId (field_lookup "mode" payload)
                            (field_lookup "integration" payload)) w
         else w))
  end.

Definition handleSendResultInner (budId sessionId : string) (payload : list (string * jsval))
    : prog unit :=
  owned ← resolveOwnedSession budId sessionId;
  match owned with
  | None => mret tt
  | Some _ => noting [SendAnswered sessionId payload]
  end.

Definition handle (budId sessionId : string) (f : TerminalFrame) : prog unit :=
  match f with
  | StatusFrame state info => handleTerminalStatusInner budId sessionId state info
  | GridFrame payload => handleTerminalGridInner budId sessionId payload
  | OutputFrame payload => handleTerminalOutputInner budId sessionId payload
  | EventFrame event data ts => handleTerminalEventInner budId sessionId event data ts
  | ObserveFrame payload => handleObserveResultInner budId sessionId payload
  | SendFrame payload => handleSendResultInner budId sessionId payload
  end.

(** ** Output of a command *)

Record TerminalCommandOutput := mkCommandOutput {
  cmo_command : TerminalCommandRecord;
  cmo_output : string;
  cmo_outputBytes : Z;
  cmo_truncated : bool
}.

Definition text_of (bs : list byte) : string := String.string_of_list_byte bs.

(** The range read: [(start, end, whether the cap cut it)]. *)
Definition command_range (c : TerminalCommandRecord) (maxBytes storedEnd : Z) : Z * Z * bool :=
  let rangeEnd := co_outputByteEnd c ?? storedEnd in
  let rangeStart := Z.min (co_outputByteStart c) rangeEnd in
  let cappedStart := Z.max rangeStart (rangeEnd - maxBytes) in
  (cappedStart, rangeEnd, rangeStart <? cappedStart).

(** [fuel] is that of the page loop of [readRange]. *)
Definition getCommandOutput (fuel : nat) (commandId : string) (maxBytes : option Q)
    : prog (option TerminalCommandOutput) :=
  found ← getCommand commandId;
  match found with
  | None => mret None
  | Some c =>
      let sid := co_terminalSessionId c in
      let maxBytes := Z.max 1 (Qfloor (maxBytes ?? 65536%Q)) in
      storedEnd ← match co_outputByteEnd c with
                  | Some e => mret e
                  | None => query (fun w => db_getStoredEndOffset sid (tw_output w))
                  end;
      let '(cappedStart, rangeEnd, cut) := command_range c maxBytes storedEnd in
      read ← query (fun w => readRange fuel sid (inject_Z cappedStart) (Some (inject_Z rangeEnd))
                               (inject_Z maxBytes) (tw_output w));
      mret (r ← read;
            Some (mkCommandOutput c (utf8_text (text_of (rr_data r))) (zlen (rr_data r))
                    (cut || rr_truncated r)))
  end.

(** ** Status and metrics *)

Definition iso_member (at_ : option Z) : jsval :=
  match at_ with Some t => JStr (toISOString t) | None => JUndef end.

Definition fetchStatus (sessionId : string) : prog (string * option (list (string * jsval))) :=
  found ← getSession sessionId;
  mret (match found with
        | None => ("none", None)
        | Some s => (ts_state s, Some
            [("cols", number (ts_cols s)); ("rows", number (ts_rows s));
             ("started_at", iso_member (ts_startedAt s));
             ("last_activity_at", iso_member (ts_lastActivityAt s));
             ("output_log_bytes", number (ts_outputLogBytes s))])
        end).

Record SessionMetrics := mkMetrics {
  me_state : string;
  me_totalInputBytes : Z;
  me_totalOutputBytes : Z;
  me_storedOutputBytes : Z;
  me_uptime : option Z;
  me_idleSeconds : option Z
}.

Definition fetchMetrics (sessionId : string) : prog SessionMetrics :=
  stmt (fun _ w => Ok w) (fun now w =>
    match tw_sessions w !! sessionId with
    | None => mkMetrics "none" 0 0 0 None None
    | Some r =>
        let seconds (o : option Z) := (fun t => (now - t) / 1000) <$> o in
        mkMetrics (se_state r) (se_totalInputBytes r) (se_totalOutputBytes r)
          (se_outputLogBytes r) (seconds (se_startedAt r)) (seconds (se_lastActivityAt r))
    end).

Record AggregateMetrics := mkAggregate {
  ag_totalSessions : Z;
  ag_byState : list (string * Z);
  ag_totalInputBytes : Z;
  ag_totalOutputBytes : Z
}.

Definition fetchAggregateMetrics : prog AggregateMetrics :=
  query (fun w =>
    let all := (map_to_list (tw_sessions w)).*2 in
    mkAggregate (zlen all)
      (foldl (fun m r => JsMap.set (se_state r) ((JsMap.get (se_state r) m ?? 0) + 1) m) [] all)
      (zsum (se_totalInputBytes <$> all)) (zsum (se_totalOutputBytes <$> all))).

(** ** Buds that come and go *)

Definition clearCachesForBud (budId : string) : prog unit :=
  sessionIds ← listSessionIdsForBud budId false;
  sync (fun _ w => note (OutputCacheCleared <$> sessionIds)
                     (on_runtime (runtime_clearSessionCaches sessionIds) w)).

Definition clearEventBuffersForBud (budId : string) : prog unit :=
  sessionIds ← listSessionIdsForBud budId true;
  noting (BufferCleared <$> sessionIds).

Definition emitBudOfflineForSessions (budId : string) : prog unit :=
  sessionIds ← listSessionIdsForBud budId true;
  noting ((fun s => Emitted s "terminal.bud_offline"
    [("bud_id", JStr budId); ("reason", JStr "disconnected")] false) <$> sessionIds).

Definition emitBudOnlineForSessions (budId : string) : prog unit :=
  sessionIds ← listSessionIdsForBud budId true;
  noting ((fun s => Emitted s "terminal.bud_online" [("bud_id", JStr budId)] false) <$> sessionIds).

Definition rejectPendingRequestsForThread (threadId message : string) : prog unit :=
  found ← getSessionForThread threadId;
  match found with
  | None => mret tt
  | Some s => noting [RequestsRejected [ts_sessionId s] message]
  end.

Definition rejectPendingRequestsForBud (budId message : string) : prog unit :=
  sessionIds ← listSessionIdsForBud budId true;
  noting [RequestsRejected sessionIds message].

(** ** The idle check *)

Definition runIdleCheck : prog unit :=
  now ← Sync (fun _ w => w) (fun now _ => Ret now);
  markIdleSessions (now - idle_timeoutMinutes idle * 60000);;
  if 0 <? idle_cleanupHours idle then
    staleSessionIds ← listStaleIdleSessionIds (now - idle_cleanupHours idle * 3600000);
    for_each staleSessionIds (fun sessionId => closeSession sessionId "idle_cleanup")
  else mret tt.

Definition call_job (c : ManagerCall) : prog unit :=
  match c with
  | EnsureRecord t b u => ensureSessionRecordForThread t b u;; mret tt
  | EnsureSession s => ensureSession s;; mret tt
  | CloseSession s reason => closeSession s reason
  | SendInput s data source user seq => sendInput s data source user seq;; mret tt
  | SendResize s cols rows => sendResize s cols rows;; mret tt
  | AddGridViewer s => addGridViewer s
  | RemoveGridViewer s => removeGridViewer s
  | ClearCaches b => clearCachesForBud b
  | Suspend b => suspendSessionsForBud b
  | ClearEventBuffers b => clearEventBuffersForBud b
  | EmitBudOffline b => emitBudOfflineForSessions b
  | EmitBudOnline b => emitBudOnlineForSessions b
  | RejectForThread t m => rejectPendingRequestsForThread t m
  | RejectForBud b m => rejectPendingRequestsForBud b m
  | IdleCheck => runIdleCheck
  end.

(** ** Interleaving *)

Record station := mkStation {
  sn_world : world;
  sn_queues : gmap string (list (prog unit));     (** [sessionIngestQueues] *)
  sn_calls : list (prog unit)
}.

(** [enqueueSessionIngest]: behind the frames of the session, whether they fail or not. *)
Definition enqueueSessionIngest (sessionId : string) (work : prog unit) (y : station) : station :=
  mkStation (sn_world y)
    (<[sessionId := (sn_queues y !! sessionId ?? []) ++ [work]]> (sn_queues y)) (sn_calls y).

(** What the rest of the service does to the state. *)
Inductive env_step : world -> world -> Prop :=
  | env_thread threadId w :                        (** [on delete set null] *)
      env_step w (update_sessions (fun r => bool_decide (se_threadId r = Some threadId))
                    (set_thread None) w)
  | env_deleted sessionId w :                      (** with its commands and inputs *)
      env_step w (set_sessions (delete sessionId (tw_sessions w))
        (set_commands (filter (fun x => co_terminalSessionId x.2 <> sessionId) (tw_commands w))
           (set_inputs (filter (fun i => il_sessionId i <> sessionId) (tw_inputs w)) w)))
  | env_output sessionId now total log d w :       (** the output store ingests *)
      env_step w (update_session sessionId (fun now r => set_output now total log r) now
        (mkTw (tw_sessions w) (tw_commands w) (tw_inputs w) (tw_capabilities w) (tw_runtime w)
           (tw_viewers w) (tw_router w) d (tw_drawn w) (tw_effects w)))
  | env_router r capabilities w :
      env_step w (mkTw (tw_sessions w) (tw_commands w) (tw_inputs w) capabilities (tw_runtime w)
           (tw_viewers w) r (tw_output w) (tw_drawn w) (tw_effects w)).

(** A job takes its next node, with a fate of [fates]; a finished frame leaves. *)
Inductive station_node (fates : fate -> Prop) : station -> station -> Prop :=
  | node_queue sessionId p rest o now w' p' y :
      sn_queues y !! sessionId = Some (p :: rest) -> ended p = false -> fates o ->
      job_step o now p (sn_world y) = (w', p') ->
      station_node fates y (mkStation w' (<[sessionId := p' :: rest]> (sn_queues y)) (sn_calls y))
  | node_next sessionId p rest y :
      sn_queues y !! sessionId = Some (p :: rest) -> ended p = true ->
      station_node fates y (mkStation (sn_world y)
        (if bool_decide (rest = []) then delete sessionId (sn_queues y)
         else <[sessionId := rest]> (sn_queues y)) (sn_calls y))
  | node_call before p after_ o now w' p' y :
      sn_calls y = before ++ p :: after_ -> fates o -> job_step o now p (sn_world y) = (w', p') ->
      station_node fates y (mkStation w' (sn_queues y) (before ++ p' :: after_)).

Definition receive_call (c : ManagerCall) (y : station) : station :=
  mkStation (sn_world y) (sn_queues y) (sn_calls y ++ [call_job c]).

Inductive station_step : station -> station -> Prop :=
  | step_frame budId sessionId f y :
      station_step y (enqueueSessionIngest sessionId (handle budId sessionId f) y)
  | step_call c y : station_step y (receive_call c y)
  | step_node y y' : station_node (fun _ => True) y y' -> station_step y y'
  | step_env w' y :
      env_step (sn_world y) w' ->
      station_step y (mkStation w' (sn_queues y) (sn_calls y)).

Inductive station_steps (y : station) : station -> Prop :=
  | steps_none : station_steps y y
  | steps_more y1 y2 : station_steps y y1 -> station_step y1 y2 -> station_steps y y2.
End manager.
