(* ===== verification/SessionProps.v ===== *)
(** Rules for jobs and the invariant of the terminal tables.

    [safe I G Q p w]: from a state where [I] holds every node of the job [p],
    started at any state with [I], makes a change in [G], and a result is given at a
    state where [Q] holds of it.  [I] is what other jobs keep between the nodes. *)
From Stdlib Require Import Strings.Byte ZArith QArith Qround Lia.
From stdpp Require Import base tactics strings gmap sorting option pretty.
From stdpp Require Import list.
From S2P Require Import Prelude JsRuntime Base64 Json JsText Carrier OutputStore.
From S2P Require Import Sessions SessionStore SessionManager.
Open Scope Z_scope.

Section safety.
Context {R D : Type}.
Notation world := (tw R D).
Notation prog := (job R D).
Implicit Types (I : world -> Prop) (G : world -> world -> Prop) (w : world).

Fixpoint safe {A} I G (Q : world -> A -> Prop) (p : prog A) w : Prop :=
  match p with
  | Ret a => Q w a
  | Throw _ => True
  | Sync f k => forall now w, I w -> G w (f now w) /\ safe I G Q (k now w) (f now w)
  | Stmt st k =>
      forall now w, I w ->
        match st now w with
        | Ok w' => G w w' /\ safe I G Q (k (Done w now)) w' /\
                   forall e, safe I G Q (k (Rejected e)) w'
        | Err _ => True
        end /\ forall e, safe I G Q (k (Rejected e)) w
  end.

Definition anything {A} (_ : world) (_ : A) : Prop := True.

Lemma safe_bind {A B} I G (Q : world -> A -> Prop) (S : world -> B -> Prop) (p : prog A)
    (k : A -> prog B) w :
  safe I G Q p w -> (forall a w, Q w a -> safe I G S (k a) w) -> safe I G S (p ≫= k) w.
Proof.
  intros Hp Hk. revert w Hp. unfold mbind, job_mbind.
  induction p as [a|e|f c IH|st c IH]; intros w; simpl; [by apply Hk|done| |].
  - intros H now v Hv. destruct (H now v Hv). split; [done|]. by apply IH.
  - intros H now v Hv. destruct (H now v Hv) as [H1 H2]. split; [|intros; by apply IH].
    destruct (st now v); [|done]. destruct H1 as (? & ? & ?). split_and!; [done|by apply IH|].
    intros. by apply IH.
Qed.

Lemma safe_weaken {A} I G (Q S : world -> A -> Prop) (p : prog A) w :
  safe I G Q p w -> (forall a w, Q w a -> S w a) -> safe I G S p w.
Proof.
  intros Hp Hk. revert w Hp.
  induction p as [a|e|f c IH|st c IH]; intros w; simpl; [by apply Hk|done| |].
  - intros H now v Hv. destruct (H now v Hv). split; [done|]. by apply IH.
  - intros H now v Hv. destruct (H now v Hv) as [H1 H2]. split; [|intros; by apply IH].
    destruct (st now v); [|done]. destruct H1 as (? & ? & ?). split_and!; [done|by apply IH|].
    intros. by apply IH.
Qed.

Lemma safe_catch {A} I G (Q : world -> A -> Prop) (p : prog A) h w :
  safe I G Q p w -> (forall e w, safe I G Q (h e) w) -> safe I G Q (job_catch p h) w.
Proof.
  intros Hp Hh. revert w Hp.
  induction p as [a|e|f c IH|st c IH]; intros w; simpl; [done|intros; apply Hh| |].
  - intros H now v Hv. destruct (H now v Hv). split; [done|]. by apply IH.
  - intros H now v Hv. destruct (H now v Hv) as [H1 H2]. split; [|intros; by apply IH].
    destruct (st now v); [|done]. destruct H1 as (? & ? & ?). split_and!; [done|by apply IH|].
    intros. by apply IH.
Qed.

Lemma safe_stmt {A} I G (st : Z -> world -> res world) (f : Z -> world -> A)
    (Q : world -> A -> Prop) w :
  (forall now w w', I w -> st now w = Ok w' -> G w w' /\ Q w' (f now w)) ->
  safe I G Q (stmt st f) w.
Proof.
  intros H. simpl. intros now v Hv. split; [|done].
  destruct (st now v) eqn:E; [|done]. by destruct (H now v _ Hv E).
Qed.

Lemma safe_exec I G (f : Z -> world -> world) w :
  (forall now w, I w -> G w (f now w)) -> safe I G anything (exec f) w.
Proof. intros H. apply safe_stmt. intros now v v' Hv [= <-]. split; [by apply H|done]. Qed.

Lemma safe_query {A} I G (f : world -> A) w :
  (forall w, I w -> G w w) -> safe I G anything (query f) w.
Proof. intros H. apply safe_stmt. intros now v v' Hv [= <-]. split; [by apply H|done]. Qed.

Lemma safe_sync I G (f : Z -> world -> world) w :
  (forall now w, I w -> G w (f now w)) -> safe I G anything (sync f) w.
Proof. intros H now v Hv. split; [by apply H|done]. Qed.

Lemma safe_for_each {A} I G (xs : list A) (body : A -> prog unit) w :
  (forall x w, safe I G anything (body x) w) -> safe I G anything (for_each xs body) w.
Proof.
  intros Hb. revert w. induction xs as [|x xs IH]; intros w; [done|]. cbn [for_each].
  eapply safe_bind; [apply Hb|]. intros [] v _. apply IH.
Qed.

Lemma safe_step {A} I G (Q : world -> A -> Prop) o now (p : prog A) w w' p' :
  I w -> safe I G Q p w -> job_step o now p w = (w', p') ->
  (G w w' \/ w' = w) /\ safe I G Q p' w'.
Proof.
  intros Hw Hp. destruct p as [a|e|f k|st k]; simpl in *; [intros; simplify_eq; auto..| |].
  - intros [= <- <-]. destruct (Hp now w Hw). auto.
  - destruct (Hp now w Hw) as [H1 H2]. destruct o, (st now w) eqn:E; intros [= <- <-];
      try destruct H1 as (? & ? & ?); auto.
Qed.

(** A node that has a result reaches it where [Q] holds. *)
Lemma safe_result {A} I G (Q : world -> A -> Prop) a w : safe I G Q (Ret a) w -> Q w a.
Proof. done. Qed.
(** A job that has not ended is as safe from one state as from another. *)
Lemma safe_anywhere {A} I G (Q : world -> A -> Prop) (p : prog A) w w' :
  (ended p = true -> forall a w, Q w a) -> safe I G Q p w -> safe I G Q p w'.
Proof. destruct p; simpl; auto. Qed.
End safety.

(** ** The tables *)

Section tables.
Context {R D : Type}.
Notation world := (tw R D).
Implicit Types (w : world).

(** What no job changes of a row. *)
Record row_kept (r r' : TerminalSessionRow) : Prop := {
  kept_bud : se_budId r' = se_budId r;
  kept_owner : se_createdByUserId r' = se_createdByUserId r;
  kept_tenant : se_tenantId r' = se_tenantId r;
  kept_created : se_createdAt r' = se_createdAt r;
  kept_thread : se_threadId r' = se_threadId r \/ se_threadId r' = None;
  kept_started : forall t, se_startedAt r = Some t -> se_startedAt r' = Some t;
  kept_closed : se_closedAt r <> None -> se_closedAt r' <> None;
  kept_input : se_totalInputBytes r <= se_totalInputBytes r'
}.

Record command_kept (c c' : TerminalCommandRecord) : Prop := {
  command_session : co_terminalSessionId c' = co_terminalSessionId c;
  command_thread : co_threadId c' = co_threadId c;
  command_bud : co_budId c' = co_budId c;
  command_owner : co_createdByUserId c' = co_createdByUserId c;
  command_started : co_startedAt c' = co_startedAt c;
  command_finished : co_finishedAt c <> None -> co_finishedAt c' <> None
}.

Definition closing_stamped (r : TerminalSessionRow) : Prop := se_state r = "closed" -> se_closedAt r <> None.

Definition row_step (r r' : TerminalSessionRow) : Prop :=
  row_kept r r' /\ (closing_stamped r -> closing_stamped r').

Record sound w : Prop := {
  one_open : forall t i j r s, tw_sessions w !! i = Some r -> tw_sessions w !! j = Some s ->
    open_in t r = true -> open_in t s = true -> i = j;
  stamped : forall i r, tw_sessions w !! i = Some r -> closing_stamped r;
  viewed : forall i n, tw_viewers w !! i = Some n -> 1 <= n;
  commands_owned : forall id c, tw_commands w !! id = Some c ->
    is_Some (tw_sessions w !! co_terminalSessionId c)
}.

(** A row is there with what is kept of it, or it was deleted. *)
Definition entries_kept {A} (K : A -> A -> Prop) (m m' : gmap string A) : Prop :=
  forall i r, m !! i = Some r -> m' !! i = None \/ exists r', m' !! i = Some r' /\ K r r'.

Definition kept w w' : Prop :=
  entries_kept row_kept (tw_sessions w) (tw_sessions w') /\
  entries_kept command_kept (tw_commands w) (tw_commands w').

Definition lands w w' : Prop := sound w' /\ kept w w'.

(** Sessions stay in their threads, and only the commands of [T] are touched. *)
Definition undisturbed (T : string -> Prop) w w' : Prop :=
  (forall id, ~ T id -> tw_commands w' !! id = tw_commands w !! id) /\
  (forall i r, tw_sessions w !! i = Some r ->
     exists r', tw_sessions w' !! i = Some r' /\ se_threadId r' = se_threadId r).

(** What a job does that writes the commands of [T]. *)
Definition moves (T : string -> Prop) w w' : Prop := lands w w' /\ undisturbed T w w'.

Lemma row_kept_refl r : row_kept r r.
Proof. split; auto; lia. Qed.
Lemma command_kept_refl c : command_kept c c.
Proof. split; auto. Qed.
Lemma entries_kept_refl {A} (K : A -> A -> Prop) (m : gmap string A) :
  (forall r, K r r) -> entries_kept K m m.
Proof. intros HK i r Hi. right. by exists r. Qed.

Lemma kept_open r r' t : row_kept r r' -> open_in t r' = true -> open_in t r = true.
Proof.
  intros K. unfold open_in, is_open. rewrite !andb_true_iff, !bool_decide_eq_true.
  intros [Ht Ho]. destruct (kept_thread _ _ K) as [E|E]; [|congruence].
  split; [congruence|]. destruct (se_closedAt r) eqn:Ec; [|done].
  destruct (kept_closed _ _ K); [by rewrite Ec|done].
Qed.

(** Rows that change, with the commands and viewers that stay. *)
Lemma rows_move w m (K : forall i r', m !! i = Some r' ->
      exists r, tw_sessions w !! i = Some r /\ row_step r r')
    (P : forall i, is_Some (tw_sessions w !! i) -> is_Some (m !! i)) :
  sound w -> lands w (set_sessions m w).
Proof.
  intros [H1 H2 H3 H4]. split; split; cbn; try done.
  - intros t i j r s Hi Hj Or Os.
    destruct (K _ _ Hi) as (r0 & Hr & [Kr _]), (K _ _ Hj) as (s0 & Hs & [Ks _]).
    by eapply H1; [exact Hr|exact Hs|eapply kept_open..].
  - intros i r Hi. destruct (K _ _ Hi) as (r0 & Hr & [_ St]). apply St. by eapply H2.
  - intros id c Hc. apply P. by eapply H4.
  - intros i r Hi. right. destruct (P i) as [r' Hr']; [by eexists|].
    exists r'. split; [done|]. destruct (K _ _ Hr') as (r0 & Hr & [Kr _]). by simplify_eq.
  - apply entries_kept_refl, command_kept_refl.
Qed.

Lemma update_session_lands id f now w :
  (forall r, row_step r (f now r)) -> sound w -> lands w (update_session id f now w).
Proof.
  intros Hf. apply rows_move.
  - intros i r'. rewrite lookup_alter. case_decide; subst.
    + destruct (tw_sessions w !! i) as [r|]; [|done]. intros [= <-]. eauto.
    + intros Hi. exists r'. split; [done|]. split; [apply row_kept_refl|done].
  - intros i [r Hr]. rewrite lookup_alter. case_decide; subst; rewrite Hr; cbn; eauto.
Qed.

Lemma update_sessions_lands P f w :
  (forall r, P r = true -> row_step r (f r)) -> sound w -> lands w (update_sessions P f w).
Proof.
  intros Hf. apply rows_move.
  - intros i r'. rewrite lookup_fmap. destruct (tw_sessions w !! i) as [r|]; [|done].
    intros [= <-]. exists r. split; [done|]. destruct (P r) eqn:E; [by apply Hf|].
    split; [apply row_kept_refl|done].
  - intros i [r Hr]. rewrite lookup_fmap, Hr. cbn. eauto.
Qed.

(** A step of a row that leaves it in its thread. *)
Definition row_move (r r' : TerminalSessionRow) : Prop := row_step r r' /\ se_threadId r' = se_threadId r.

Lemma update_session_moves T id f now w :
  (forall r, row_move r (f now r)) -> sound w -> moves T w (update_session id f now w).
Proof.
  intros Hf Hw. split; [apply update_session_lands; [apply Hf|done]|]. split; [done|].
  intros i r Hr. cbn. rewrite lookup_alter. case_decide; subst; rewrite Hr; cbn; eauto.
  eexists. split; [done|]. apply Hf.
Qed.

Lemma update_sessions_moves T P f w :
  (forall r, row_move r (f r)) -> sound w -> moves T w (update_sessions P f w).
Proof.
  intros Hf Hw. split; [apply update_sessions_lands; [intros; apply Hf|done]|]. split; [done|].
  intros i r Hr. cbn. rewrite lookup_fmap, Hr. cbn. eexists. split; [done|].
  destruct (P r); [apply Hf|done].
Qed.

Lemma undisturbed_same T w w' :
  tw_sessions w' = tw_sessions w -> tw_commands w' = tw_commands w -> undisturbed T w w'.
Proof. intros E1 E2. split; [by rewrite E2|]. rewrite E1. eauto. Qed.

(** Memory, router, output and effects are not tables. *)
Lemma memory_moves T w w' :
  tw_sessions w' = tw_sessions w -> tw_commands w' = tw_commands w ->
  (forall i n, tw_viewers w' !! i = Some n -> 1 <= n) -> sound w -> moves T w w'.
Proof.
  intros E1 E2 E3 [H1 H2 H3 H4]. split; [|by apply undisturbed_same].
  split; split; rewrite ?E1, ?E2; try done.
  - apply entries_kept_refl, row_kept_refl.
  - apply entries_kept_refl, command_kept_refl.
Qed.

Lemma same_moves T w w' :
  tw_sessions w' = tw_sessions w -> tw_commands w' = tw_commands w ->
  tw_viewers w' = tw_viewers w -> sound w -> moves T w w'.
Proof.
  intros E1 E2 E3 Hw. apply memory_moves; [done..| |done]. rewrite E3. apply (viewed _ Hw).
Qed.

Lemma commands_move (T : string -> Prop) w m :
  (forall id c, m !! id = Some c -> is_Some (tw_sessions w !! co_terminalSessionId c)) ->
  (forall id c, tw_commands w !! id = Some c -> exists c', m !! id = Some c' /\ command_kept c c') ->
  (forall id, ~ T id -> m !! id = tw_commands w !! id) ->
  sound w -> moves T w (set_commands m w).
Proof.
  intros HF HK HT [H1 H2 H3 H4]. split; [|split; cbn; eauto]. split; split; cbn; try done.
  - apply entries_kept_refl, row_kept_refl.
  - intros id c Hc. right. by apply HK.
Qed.

Lemma insert_session_moves T id t b u now w w' :
  sound w -> insert_session id t b u now w = Ok w' ->
  moves T w w' /\ rows_of (fun _ => open_in t) w = [] /\
  tw_sessions w' = <[id := new_session t b u now]> (tw_sessions w).
Proof.
  intros [H1 H2 H3 H4]. unfold insert_session.
  destruct (bool_decide (is_Some _)) eqn:E1; [done|].
  destruct (bool_decide (rows_of _ w = [])) eqn:E2; [|done].
  apply bool_decide_eq_false, eq_None_not_Some in E1. apply bool_decide_eq_true in E2.
  intros [= <-]. split_and!; [|done..].
  assert (Hnone : forall i r, tw_sessions w !! i = Some r -> open_in t r = false).
  { intros i r Hi. destruct (open_in t r) eqn:Er; [|done].
    assert (Hin : In (i, r) (rows_of (fun _ => open_in t) w)).
    { apply List.filter_In. split; [|done]. by apply base.list_elem_of_In, elem_of_map_to_list. }
    by rewrite E2 in Hin. }
  split; [|split; [done|]; intros i r Hi; exists r; cbn;
           by rewrite lookup_insert_ne by congruence].
  split; split; cbn; try done.
  - assert (Hnew : forall t', open_in t' (new_session t b u now) = true -> t' = t).
    { intros t'. unfold open_in. cbn. intros [Ot _]%andb_true_iff.
      apply bool_decide_eq_true in Ot. congruence. }
    intros t' i j r s. rewrite !lookup_insert_Some.
    intros [[<- <-]|[? Hi]] [[<- <-]|[? Hj]] Or Os; try done.
    + apply Hnew in Or as ->. by rewrite (Hnone _ _ Hj) in Os.
    + apply Hnew in Os as ->. by rewrite (Hnone _ _ Hi) in Or.
    + by eapply H1.
  - intros i r. rewrite lookup_insert_Some. intros [[? <-]|[? Hi]]; [done|by eapply H2].
  - intros c r Hc. rewrite lookup_insert. case_decide; [eauto|]. by eapply H4.
  - intros i r Hi. right. exists r. rewrite lookup_insert_ne by congruence.
    split; [done|apply row_kept_refl].
  - apply entries_kept_refl, command_kept_refl.
Qed.
End tables.

(** ** Rows *)

(** Steps of a row, by the columns they set. *)
Lemma row_step_fields r r' :
  se_budId r' = se_budId r -> se_createdByUserId r' = se_createdByUserId r ->
  se_tenantId r' = se_tenantId r -> se_createdAt r' = se_createdAt r ->
  (se_threadId r' = se_threadId r \/ se_threadId r' = None) ->
  (forall t, se_startedAt r = Some t -> se_startedAt r' = Some t) ->
  (se_closedAt r <> None -> se_closedAt r' <> None) ->
  se_totalInputBytes r <= se_totalInputBytes r' ->
  (se_state r' = se_state r \/ se_state r' <> "closed" \/ se_closedAt r' <> None) ->
  row_step r r'.
Proof.
  intros. split; [by split|]. unfold closing_stamped. intros Hs Hc.
  match goal with H : _ \/ _ \/ _ |- _ => destruct H as [E|[E|E]] end; [|done..].
  rewrite E in Hc. auto.
Qed.

Ltac row_fields :=
  intros; split; [|done]; apply row_step_fields; cbn; try solve [done | lia | auto | by left | by right; left | by right; right].

Lemma row_state state r : state <> "closed" -> row_move r (set_state state r).
Proof. row_fields. Qed.
Lemma row_creating now r : row_move r (set_activity (Some now) (set_state "creating" r)).
Proof. row_fields. Qed.
Lemma row_close now r : row_move r (close_row now r).
Proof. row_fields. Qed.
Lemma row_cwd cwd now r : row_move r (set_activity (Some now) (set_cwd cwd r)).
Proof. row_fields. Qed.
Lemma row_size cols rows now r : row_move r (set_activity (Some now) (set_size cols rows r)).
Proof. row_fields. Qed.
Lemma row_input now delta r :
  0 <= delta -> row_move r (set_input now (se_totalInputBytes r + delta) r).
Proof. row_fields. Qed.
Lemma row_output now total log r : row_move r (set_output now total log r).
Proof. row_fields. Qed.
Lemma row_orphaned r : row_step r (set_thread None r).
Proof. apply row_step_fields; cbn; auto; lia. Qed.
Lemma row_status state info now r : row_move r (status_row state info now r).
Proof.
  unfold status_row. destruct (as_string _) as [cwd|]; repeat case_bool_decide; subst; try done;
    row_fields; try (intros t ->; done).
Qed.

(** ** Every handler and call *)

(** The command of a frame. *)
Definition command_of (event : string) (data : list (string * jsval)) : option string :=
  if bool_decide (event = "command_started") || bool_decide (event = "command_finished")
  then as_string (field_lookup "command_id" data) else None.
Definition frame_command (f : TerminalFrame) : option string :=
  match f with EventFrame event data _ => command_of event data | _ => None end.

Section handlers.
Context {R D : Type} `{DaemonTransportRouter R} `{TerminalOutputPersistence D} `{SessionIds}.
Context (idle : IdleConfig).
Notation world := (tw R D).
Notation prog := (job R D).
Implicit Types (w : world) (T : string -> Prop).

Section jobs.
Context (T : string -> Prop).

Notation fine p := (forall w : world, safe sound (moves T) anything p w).

Lemma moves_refl w : sound w -> moves T w w.
Proof. by apply same_moves. Qed.

Lemma fine_query {A} (f : world -> A) : fine (query f).
Proof. intros w. apply safe_query, moves_refl. Qed.

Lemma fine_ret {A} (a : A) : fine (mret a : prog A).
Proof. done. Qed.

Lemma fine_throw {A} e : fine (Throw e : prog A).
Proof. done. Qed.

Lemma fine_bind {A B} (p : prog A) (k : A -> prog B) :
  fine p -> (forall a, fine (k a)) -> fine (p ≫= k).
Proof. intros Hp Hk w. eapply safe_bind; [apply Hp|]. intros a v _. apply Hk. Qed.

Lemma fine_catch {A} (p : prog A) h : fine p -> (forall e, fine (h e)) -> fine (job_catch p h).
Proof. intros Hp Hh w. apply safe_catch; [apply Hp|intros; apply Hh]. Qed.

Lemma fine_stmt {A} (st : Z -> world -> res world) (f : Z -> world -> A) :
  (forall now w w', sound w -> st now w = Ok w' -> moves T w w') -> fine (stmt st f).
Proof. intros Hs w. apply safe_stmt. intros. split; [by eapply Hs|done]. Qed.

Lemma fine_row id (f : Z -> TerminalSessionRow -> TerminalSessionRow) :
  (forall now r, row_move r (f now r)) -> fine (exec (update_session id f)).
Proof. intros Hf w. apply safe_exec. intros. by apply update_session_moves. Qed.

(** Code that reads and writes memory. *)
Lemma fine_memory {A} (f : Z -> world -> world) (k : Z -> world -> prog A) :
  (forall now w, tw_sessions (f now w) = tw_sessions w /\ tw_commands (f now w) = tw_commands w /\
     tw_viewers (f now w) = tw_viewers w) ->
  (forall now v, fine (k now v)) -> fine (Sync f k).
Proof.
  intros Hf Hk w now v Hv. destruct (Hf now v) as (? & ? & ?). split; [by apply same_moves|].
  apply Hk.
Qed.

Lemma fine_sync (f : Z -> world -> world) :
  (forall now w, tw_sessions (f now w) = tw_sessions w /\ tw_commands (f now w) = tw_commands w /\
     tw_viewers (f now w) = tw_viewers w) -> fine (sync f).
Proof. intros Hf. by apply fine_memory. Qed.

Lemma fine_each {A} (xs : list A) (body : A -> prog unit) :
  (forall x, fine (body x)) -> fine (for_each xs body).
Proof. intros Hb w. apply safe_for_each. intros x v. apply Hb. Qed.

Lemma fine_send budId type members : fine (send_to_bud budId type members : prog bool).
Proof.
  apply fine_memory; [done|]. intros now v w. by destruct (sendFrameToBud _ _ _).1.
Qed.

#[local] Hint Resolve row_state row_creating row_close row_cwd row_size row_input row_output
  row_orphaned row_status : core.

Ltac fine_steps :=
  repeat first
    [ progress intros
    | lazymatch goal with
      | |- safe _ _ _ (mbind _ _) ?w => revert w; apply fine_bind
      | |- safe _ _ _ (job_catch _ _) ?w => revert w; apply fine_catch
      | |- safe _ _ _ (query _) ?w => revert w; apply fine_query
      | |- safe _ _ _ (mret _) ?w => revert w; apply fine_ret
      | |- safe _ _ _ (Ret _) ?w => revert w; apply fine_ret
      | |- safe _ _ _ (Throw _) ?w => revert w; apply fine_throw
      | |- safe _ _ _ (send_to_bud _ _ _) ?w => revert w; apply fine_send
      | |- safe _ _ _ (exec (update_session _ _)) ?w => revert w; apply fine_row
      | |- safe _ _ _ (sync _) ?w => revert w; apply fine_sync
      | |- safe _ _ _ (noting _) ?w => revert w; apply fine_sync
      | |- safe _ _ _ (for_each _ _) ?w => revert w; apply fine_each
      | |- safe _ _ _ (Sync _ _) ?w => revert w; apply fine_memory
      | |- safe _ _ _ (match ?x with _ => _ end) _ => destruct x
      | |- safe _ _ _ (let '(_, _) := ?x in _) _ => destruct x
      | |- _ /\ _ => split_and!
      end
    | done | solve [auto] ].

Lemma fine_getSession id : fine (getSession id).
Proof. unfold getSession. fine_steps. Qed.

Lemma fine_forThread t : fine (getSessionForThread t).
Proof. unfold getSessionForThread. fine_steps. Qed.

Lemma fine_list b a : fine (listSessionIdsForBud b a).
Proof. unfold listSessionIdsForBud. fine_steps. Qed.

Lemma fine_owned b s : fine (resolveOwnedSession b s).
Proof. unfold resolveOwnedSession, getSession. fine_steps. Qed.

Lemma fine_watch s b : fine (sendGridWatch s b).
Proof. unfold sendGridWatch, getSession. fine_steps. Qed.

Lemma fine_closed s reason : fine (markSessionClosedLocally s reason).
Proof. unfold markSessionClosedLocally, markClosed. fine_steps. Qed.

Lemma fine_close s reason : fine (closeSession s reason).
Proof. unfold closeSession. fine_steps; auto using fine_getSession, fine_closed. Qed.

Lemma fine_insertCommand id c : T id -> fine (insertCommand id c).
Proof.
  intros HT. unfold insertCommand. apply fine_stmt. intros now v v' Hv.
  destruct (negb _); [done|]. destruct (bool_decide _) eqn:E1; [intros [= <-]; by apply moves_refl|].
  destruct (bool_decide (tw_sessions v !! _ = None)) eqn:E2; [done|]. intros [= <-].
  apply bool_decide_eq_false, eq_None_not_Some in E1. apply bool_decide_eq_false in E2.
  apply commands_move; [|intros i c' Hc|intros i Hi|done].
  - intros i c' [[<- <-]|[? Hc]]%lookup_insert_Some; [by apply not_eq_None_Some|].
    by eapply (commands_owned _ Hv).
  - exists c'. rewrite lookup_insert_ne by congruence. split; [done|apply command_kept_refl].
  - rewrite lookup_insert_ne; [done|]. by intros ->.
Qed.

Lemma fine_finalize id at_ x e b : T id -> fine (finalizeCommand id at_ x e b).
Proof.
  intros HT. unfold finalizeCommand. apply fine_stmt. intros now v v' Hv.
  destruct (negb _); [done|]. intros [= <-]. apply commands_move; [| | |done].
  - intros i c'. rewrite lookup_alter. case_decide; subst; [|apply (commands_owned _ Hv)].
    destruct (tw_commands v !! i) as [c|] eqn:Hc; [|done]. intros [= <-].
    by apply (commands_owned _ Hv i c).
  - intros i c Hc. rewrite lookup_alter. case_decide; subst; rewrite ?Hc; cbn [fmap option_fmap option_map].
    + exists (finish_command at_ x e b c). split; [done|]. by split.
    + exists c. split; [done|apply command_kept_refl].
  - intros i Hi. rewrite lookup_alter_ne; [done|]. by intros ->.
Qed.

Lemma fine_started s e : T (cs_commandId e) -> fine (recordCommandStarted s e).
Proof. intros HT. unfold recordCommandStarted. fine_steps; by apply fine_insertCommand. Qed.

Lemma fine_finished s e : T (cf_commandId e) -> fine (recordCommandFinished s e).
Proof.
  intros HT. unfold recordCommandFinished.
  fine_steps; first [by apply fine_finalize|by apply fine_insertCommand].
Qed.

#[local] Hint Resolve fine_getSession fine_forThread fine_list fine_owned fine_watch fine_closed
  fine_close fine_started fine_finished : core.

Lemma fine_status_update s state info : fine (updateStatus s state info).
Proof.
  apply fine_stmt. intros now v v' Hv. case_match; [|done]. intros [= <-].
  by apply update_session_moves.
Qed.

Lemma fine_event s sid event data ts :
  (forall id, command_of event data = Some id -> T id) -> fine (event_effects s sid event data ts).
Proof.
  unfold command_of, event_effects, updateCwd. intros HT.
  repeat case_bool_decide; subst; try done; destruct (as_string _) as [id|] eqn:E;
    try (destruct (filled_text _)); fine_steps; auto.
Qed.

#[local] Hint Resolve fine_status_update fine_event : core.

Lemma fine_handle b s f :
  (forall id, frame_command f = Some id -> T id) -> fine (handle b s f).
Proof.
  intros HT. destruct f; cbn [handle]; unfold handleTerminalStatusInner, handleTerminalGridInner,
    handleTerminalOutputInner, handleTerminalEventInner, handleObserveResultInner,
    handleSendResultInner; fine_steps; repeat case_match; try done; fine_steps.
Qed.

Lemma fine_ensureRecord t b u : fine (ensureSessionRecordForThread t b u).
Proof.
  unfold ensureSessionRecordForThread. fine_steps.
  revert w. apply fine_stmt. intros now v v' Hv E. by apply (insert_session_moves _ _ _ _ _ _ _ _ Hv E).
Qed.

Lemma fine_ensure s : fine (ensureSession s).
Proof. unfold ensureSession, store_ensureSession. fine_steps. Qed.

Lemma fine_input s data source user seq : fine (sendInput s data source user seq).
Proof.
  unfold sendInput, recordInput, bumpInputStats. fine_steps.
  - revert w. apply fine_stmt. intros now v v' Hv. case_bool_decide; [done|]. intros [= <-].
    by apply same_moves.
  - apply row_input. apply zlen_nonneg.
Qed.

Lemma fine_resize s cols rows : fine (sendResize s cols rows).
Proof.
  unfold sendResize. fine_steps. revert w. apply fine_stmt. intros now v v' Hv.
  destruct (_ && _); [|done]. intros [= <-]. by apply update_session_moves.
Qed.

Lemma viewer_count_nonneg s w : sound w -> 0 <= viewer_count s w.
Proof.
  intros Hw. unfold viewer_count. destruct (tw_viewers w !! s) eqn:E; simpl; [|done].
  pose proof (viewed _ Hw _ _ E). lia.
Qed.

Lemma fine_add s : fine (addGridViewer s).
Proof.
  unfold addGridViewer. apply fine_bind; [|fine_steps]. intros w. apply safe_sync. intros now v Hv.
  pose proof (viewer_count_nonneg s v Hv).
  apply memory_moves; [done..| |done]. cbn. intros i n [[<- <-]|[? Hi]]%lookup_insert_Some; [lia|].
  by apply (viewed _ Hv i).
Qed.

Lemma fine_remove s : fine (removeGridViewer s).
Proof.
  unfold removeGridViewer. apply fine_bind; [|intros; destruct (_ =? _); fine_steps].
  intros w now v Hv. split; [|done].
  apply memory_moves; [done..| |done]. unfold leave_viewer. cbn. intros i n.
  destruct (viewer_count s v <=? 1) eqn:E; zbool.
  - intros [? Hi]%lookup_delete_Some. by apply (viewed _ Hv i).
  - intros [[<- <-]|[? Hi]]%lookup_insert_Some; [lia|]. by apply (viewed _ Hv i).
Qed.

Lemma fine_suspend b : fine (suspendSessionsForBud b).
Proof.
  intros w. apply safe_exec. intros now v Hv. apply update_sessions_moves; auto.
Qed.

Lemma fine_idle : fine (runIdleCheck idle).
Proof.
  unfold runIdleCheck, markIdleSessions, listStaleIdleSessionIds. fine_steps.
  revert w. apply fine_stmt. intros now v v' Hv [= <-]. apply update_sessions_moves; auto.
Qed.

#[local] Hint Resolve fine_ensureRecord fine_ensure fine_input fine_resize fine_add fine_remove
  fine_suspend fine_idle : core.

Lemma fine_call c : fine (call_job idle c).
Proof.
  destruct c; cbn [call_job]; unfold clearCachesForBud, clearEventBuffersForBud,
    emitBudOfflineForSessions, emitBudOnlineForSessions, rejectPendingRequestsForThread,
    rejectPendingRequestsForBud; fine_steps.
Qed.

End jobs.

(** ** The station *)

Lemma env_lands w w' : sound w -> env_step w w' -> lands w w'.
Proof.
  intros Hw E. revert Hw. destruct E; intros Hw; [| | |by apply (same_moves (fun _ => False))].
  - apply update_sessions_lands; auto using row_orphaned.
  - destruct Hw as [W1 W2 W3 W4]. split; split; cbn; try done.
    + intros t i j r s [_ Hi]%lookup_delete_Some [_ Hj]%lookup_delete_Some. by eapply W1.
    + intros i r [_ Hi]%lookup_delete_Some. by eapply W2.
    + intros id c [Hc Hs]%map_lookup_filter_Some. cbn in Hs. rewrite lookup_delete_ne by done.
  by eapply W4.
    + intros i r Hi. rewrite lookup_delete. case_decide; [by left|]. right.
      exists r. split; [done|apply row_kept_refl].
    + intros id c Hc. rewrite map_lookup_filter, Hc. cbn. case_guard; [right|by left].
      exists c. split; [done|apply command_kept_refl].
  - set (w1 := mkTw _ _ _ _ _ _ _ _ _ _).
    assert (lands w1 (update_session sessionId (fun now r => set_output now total log r) now w1))
      as [? ?]; [|by split].
    apply update_session_lands; [|by destruct Hw]. intros r. apply row_output.
Qed.

Definition tame (p : prog unit) : Prop := exists T, forall w, safe sound (moves T) anything p w.

Lemma tame_handle b s f : tame (handle b s f).
Proof. exists (fun _ => True). intros w. by apply fine_handle. Qed.
Lemma tame_call c : tame (call_job idle c).
Proof. exists (fun _ => False). intros w. apply fine_call. Qed.

Definition jobs_safe (y : station (R := R) (D := D)) : Prop :=
  (forall s ps, sn_queues y !! s = Some ps ->
     Forall tame ps) /\
  Forall tame (sn_calls y).

Definition steady (y : station (R := R) (D := D)) : Prop := sound (sn_world y) /\ jobs_safe y.

Lemma next_node o now (p : prog unit) w w' p' :
  sound w -> tame p -> job_step o now p w = (w', p') -> lands w w' /\ tame p'.
Proof.
  intros Hw [T Hp] E. destruct (safe_step _ _ _ _ _ _ _ _ _ Hw (Hp w) E) as [Hm Hs]. split.
  - destruct Hm as [[? _]| ->]; [done|]. by apply (moves_refl T).
  - exists T. intros v. by apply (safe_anywhere _ _ _ _ w').
Qed.

Lemma steady_node fates y y' :
  steady y -> station_node fates y y' -> steady y' /\ kept (sn_world y) (sn_world y').
Proof.
  intros (Hw & Hq & Hc) St. pose proof (proj2 (proj1 (moves_refl (fun _ => False) _ Hw))) as Hk.
  destruct St as [s p rest o now w' p' y Hs _ _ E|s p rest y Hs _|before p after_ o now w' p' y Hs _ E];
    cbn.
  - pose proof (Hq _ _ Hs) as Hps. apply Forall_cons in Hps as [Hp Hrest].
    destruct (next_node _ _ _ _ _ _ Hw Hp E) as [[Hw' Hk'] Hp']. split; [|done].
    split; [done|]. split; [|done]. intros i ps. cbn. rewrite lookup_insert_Some.
    intros [[<- <-]|[? Hi]]; [by constructor|by eapply Hq].
  - split; [|done]. split; [done|]. split; [|done]. intros i ps. cbn.
    pose proof (Hq _ _ Hs) as [_ Hrest]%Forall_cons. case_bool_decide.
    + intros [_ Hi]%lookup_delete_Some. by eapply Hq.
    + intros [[<- <-]|[? Hi]]%lookup_insert_Some; [done|by eapply Hq].
  - rewrite Hs in Hc. apply Forall_app in Hc as [Hb [Hp Ha]%Forall_cons].
    destruct (next_node _ _ _ _ _ _ Hw Hp E) as [[Hw' Hk'] Hp']. split; [|done].
    split; [done|]. split; [done|]. apply Forall_app. split; [done|]. by constructor.
Qed.

Lemma steady_step y y' :
  steady y -> station_step idle y y' -> steady y' /\ kept (sn_world y) (sn_world y').
Proof.
  intros Hy St. pose proof Hy as (Hw & Hq & Hc).
  pose proof (proj2 (proj1 (moves_refl (fun _ => False) _ Hw))) as Hk.
  destruct St as [b s f y|c y|y y' E|w' y E]; [| |by eapply steady_node|]; cbn.
  - split; [|done]. split; [done|]. split; [|done]. intros i ps. cbn.
    rewrite lookup_insert_Some. intros [[<- <-]|[? Hi]]; [|by eapply Hq].
    apply Forall_app. split; [|apply Forall_singleton, tame_handle].
    destruct (sn_queues y !! s) eqn:Ei; [by eapply Hq|constructor].
  - split; [|done]. split; [done|]. split; [done|]. apply Forall_app.
    split; [done|]. apply Forall_singleton, tame_call.
  - destruct (env_lands _ _ Hw E). split; [|done]. by split.
Qed.

Lemma steady_steps y y' : steady y -> station_steps idle y y' -> steady y'.
Proof. intros Hy. induction 1; [done|]. by eapply steady_step. Qed.
End handlers.
