(* ===== verification/SessionHistory.v ===== *)
(** The row of a command as the history of its frames, and the rules that follow one
    command through the jobs of an ingest queue.

    [post c sid fates Q E p v] is a weakest precondition over the [view] of a command:
    its row and what stamps a row of its session.  Other jobs leave the view alone
    ([post_quiet]); [watched] is a run of the station in which the frames of the command
    arrive at one session. *)
From Stdlib Require Import Strings.Byte ZArith QArith Qround Lia.
From stdpp Require Import base tactics strings gmap sorting option pretty.
From stdpp Require Import list.
From S2P Require Import Prelude JsRuntime Base64 Json JsText Carrier OutputStore.
From S2P Require Import Sessions SessionStore SessionManager SessionProps.
Open Scope Z_scope.

(** ** Histories *)

Inductive delivery :=
  | CommandStarted (e : CommandStartedEvent)
  | CommandFinished (e : CommandFinishedEvent).

#[export] Instance CommandStartedEvent_eq_dec : EqDecision CommandStartedEvent.
Proof. solve_decision. Defined.
#[export] Instance CommandFinishedEvent_eq_dec : EqDecision CommandFinishedEvent.
Proof. solve_decision. Defined.
#[export] Instance delivery_eq_dec : EqDecision delivery.
Proof. solve_decision. Defined.

Definition finish_of (d : delivery) : option CommandFinishedEvent :=
  match d with CommandFinished e => Some e | CommandStarted _ => None end.
Definition finishes (h : list delivery) : list CommandFinishedEvent := omap finish_of h.

Definition first_record (s : TerminalSession) (d : delivery) : TerminalCommandRecord :=
  match d with
  | CommandStarted e => started_record s e
  | CommandFinished e => finished_record s e
  end.

(** The row after a history: the first frame says whose it is and when it started, the
    last finish how it ended, and the start of the output is the last that a later
    finish gave. *)
Definition history_row (s : TerminalSession) (h : list delivery) : option TerminalCommandRecord :=
  match h with
  | [] => None
  | d :: later =>
      let first := first_record s d in
      let end_ := last (finishes h) in
      Some (mkCommand (ts_sessionId s) (ts_threadId s) (ts_budId s) (ts_createdByUserId s)
        (ts_tenantId s) (co_startedAt first) (cf_ts <$> end_) (end_ ≫= cf_exitCode)
        (last (omap cf_outputByteStart (finishes later)) ?? co_outputByteStart first)
        (end_ ≫= cf_outputByteEnd))
  end.

Definition apply_delivery (s : TerminalSession) (d : delivery) (o : option TerminalCommandRecord)
    : option TerminalCommandRecord :=
  match o, d with
  | None, _ => Some (first_record s d)
  | Some c, CommandStarted _ => Some c
  | Some c, CommandFinished e =>
      Some (finish_command (cf_ts e) (cf_exitCode e) (cf_outputByteEnd e) (cf_outputByteStart e) c)
  end.

Lemma finishes_app h k : finishes (h ++ k) = finishes h ++ finishes k.
Proof. apply omap_app. Qed.

Lemma last_omap_snoc {A B} (f : A -> option B) (l : list A) x :
  last (omap f (l ++ [x])) = match f x with Some y => Some y | None => last (omap f l) end.
Proof.
  rewrite omap_app. cbn. destruct (f x); [by rewrite last_snoc|by rewrite app_nil_r].
Qed.

Lemma history_snoc s h d : history_row s (h ++ [d]) = apply_delivery s d (history_row s h).
Proof.
  destruct h as [|d0 h]; [by destruct d|]. cbn [app history_row apply_delivery].
  rewrite app_comm_cons, !finishes_app. destruct d as [e|e]; cbn [finishes omap list_omap finish_of].
  - by rewrite !app_nil_r.
  - rewrite last_snoc, last_omap_snoc. unfold finish_command. cbn. by destruct (cf_outputByteStart e).
Qed.

(** ** The frames of a command *)

Definition fits (d : delivery) : bool :=
  match d with
  | CommandStarted e => int8 (cs_outputByteStart e)
  | CommandFinished e =>
      nullable int4 (cf_exitCode e) && nullable int8 (cf_outputByteStart e) &&
      nullable int8 (cf_outputByteEnd e)
  end.

(** What a frame reports of the command [c], when the columns can hold it. *)
Definition reported (c : string) (f : TerminalFrame) : option delivery :=
  match f with
  | EventFrame event data ts =>
      id ← as_string (field_lookup "command_id" data);
      d ← (if bool_decide (event = "command_started")
           then Some (CommandStarted (command_started_event data ts id))
           else if bool_decide (event = "command_finished")
           then Some (CommandFinished (command_finished_event data ts id)) else None);
      if bool_decide (id = c) && fits d then Some d else None
  | _ => None
  end.

(** ... and it comes from the Bud [b]. *)
Definition delivered_by (b c : string) (x : string * TerminalFrame) : option delivery :=
  if bool_decide (x.1 = b) then reported c x.2 else None.

(** ** The view of a command *)

(** What a row of a command takes of its session. *)
Definition stamps : Type := option string * string * option string * option string.
Definition row_stamps (r : TerminalSessionRow) : stamps :=
  (se_threadId r, se_budId r, se_createdByUserId r, se_tenantId r).
Definition session_stamps (s : TerminalSession) : stamps :=
  (ts_threadId s, ts_budId s, ts_createdByUserId s, ts_tenantId s).

Lemma first_record_stamps s s' d :
  ts_sessionId s = ts_sessionId s' -> session_stamps s = session_stamps s' ->
  first_record s d = first_record s' d.
Proof.
  unfold session_stamps. intros E1 E2. simplify_eq. destruct d; cbn;
    unfold started_record, finished_record; congruence.
Qed.

Section views.
Context {R D : Type} `{DaemonTransportRouter R} `{TerminalOutputPersistence D} `{SessionIds}.
Notation world := (tw R D).
Notation prog := (job R D).
Implicit Types (w : world).
Context (c sid : string) (fates : fate -> Prop).

Definition view : Type := option TerminalCommandRecord * option stamps.
Definition view_of w : view := (tw_commands w !! c, row_stamps <$> tw_sessions w !! sid).

Fixpoint post {A} (Q : A -> view -> Prop) (E : view -> Prop) (p : prog A) (v : view) : Prop :=
  match p with
  | Ret a => Q a v
  | Throw _ => E v
  | Sync f k => forall now w, sound w -> view_of w = v -> post Q E (k now w) (view_of (f now w))
  | Stmt st k => forall now w, sound w -> view_of w = v ->
      (fates Runs -> match st now w with
                     | Ok w' => post Q E (k (Done w now)) (view_of w')
                     | Err e => post Q E (k (Rejected e)) v
                     end) /\
      (fates LostBefore -> post Q E (k (Rejected "ECONNRESET")) v) /\
      (fates LostAfter -> match st now w with
                          | Ok w' => post Q E (k (Rejected "ECONNRESET")) (view_of w')
                          | Err _ => post Q E (k (Rejected "ECONNRESET")) v
                          end)
  end.

Lemma post_weaken {A} (Q Q' : A -> view -> Prop) E E' (p : prog A) v :
  post Q E p v -> (forall a v, Q a v -> Q' a v) -> (forall v, E v -> E' v) -> post Q' E' p v.
Proof.
  intros Hp HQ HE. revert v Hp. induction p as [a|e|f k IH|st k IH]; intros v; cbn; auto.
  intros Hp now w Hw Hv. destruct (Hp now w Hw Hv) as (H1' & H2' & H3').
  split_and!; intros Ho; [specialize (H1' Ho)|by apply IH, H2'|specialize (H3' Ho)];
    destruct (st now w); by apply IH.
Qed.

Lemma post_bind {A B} (Q : B -> view -> Prop) E (p : prog A) (k : A -> prog B) v :
  post (fun a => post Q E (k a)) E p v -> post Q E (p ≫= k) v.
Proof.
  unfold mbind, job_mbind. revert v. induction p as [a|e|f j IH|st j IH]; intros v; cbn; auto.
  intros Hp now w Hw Hv. destruct (Hp now w Hw Hv) as (H1' & H2' & H3').
  split_and!; intros Ho; [specialize (H1' Ho)|by apply IH, H2'|specialize (H3' Ho)];
    destruct (st now w); by apply IH.
Qed.

Lemma post_catch {A} (Q : A -> view -> Prop) E (p : prog A) h v :
  post Q (fun v => forall e, post Q E (h e) v) p v -> post Q E (job_catch p h) v.
Proof.
  revert v. induction p as [a|e|f j IH|st j IH]; intros v; cbn; auto.
  intros Hp now w Hw Hv. destruct (Hp now w Hw Hv) as (H1' & H2' & H3').
  split_and!; intros Ho; [specialize (H1' Ho)|by apply IH, H2'|specialize (H3' Ho)];
    destruct (st now w); by apply IH.
Qed.

(** A statement: what it does to the view, and its answer. *)
Lemma post_stmt {A} (Q : A -> view -> Prop) (E : view -> Prop) (st : Z -> world -> res world)
    (f : Z -> world -> A) v :
  (forall now w w', sound w -> view_of w = v -> st now w = Ok w' ->
     (fates Runs -> Q (f now w) (view_of w')) /\ (fates LostAfter -> E (view_of w'))) ->
  (forall now w e, sound w -> view_of w = v -> st now w = Err e -> E v) ->
  (fates LostBefore \/ fates LostAfter -> E v) ->
  post Q E (stmt st f) v.
Proof.
  intros Hok Herr Hlost now w Hw Hv. split_and!; intros Ho; cbn.
  - destruct (st now w) eqn:Es; [by apply (Hok now w)|by eapply Herr].
  - by apply Hlost; left.
  - destruct (st now w) eqn:Es; [by apply (Hok now w)|by apply Hlost; right].
Qed.

Lemma moves_view T w w' st :
  ~ T c -> (view_of w).2 = Some st -> moves T w w' -> view_of w' = view_of w.
Proof.
  intros HT Hst [[Hw' [Hk _]] [Hc Ht]]. unfold view_of in *. cbn in Hst. rewrite Hc by done.
  destruct (tw_sessions w !! sid) as [r|] eqn:Er; [|done].
  destruct (Ht _ _ Er) as (r' & Er' & E'). rewrite Er'. cbn. do 2 f_equal.
  destruct (Hk _ _ Er) as [?|(r2 & Er2 & [])]; [congruence|]. simplify_eq.
  unfold row_stamps. congruence.
Qed.

(** A job that writes other commands leaves the view. *)
Lemma post_quiet {A} T (p : prog A) (Q : A -> view -> Prop) (E : view -> Prop) v st :
  ~ T c -> v.2 = Some st -> (forall w, safe sound (moves T) anything p w) ->
  (forall a, Q a v) -> E v -> post Q E p v.
Proof.
  intros HT Hst Hp HQ HE. revert Hp. induction p as [a|e|f k IH|s k IH]; intros Hp; cbn; auto.
  - intros now w Hw Hv. destruct (Hp w now w Hw) as [Hm Hs]. subst v.
    rewrite (moves_view _ _ _ _ HT Hst Hm). apply IH; [done..|]. intros w'.
    by apply (safe_anywhere _ _ _ _ (f now w)).
  - intros now w Hw Hv. destruct (Hp w now w Hw) as [H1' H2'].
    assert (Hrej : forall e, post Q E (k (Rejected e)) v).
    { intros e. apply IH; [done..|]. intros w'. eapply safe_anywhere; [|apply H2']; done. }
    split_and!; intros Ho; [|done|]; destruct (s now w) as [w'|]; try done;
      destruct H1' as (Hm & Hs & Hr); subst v; rewrite (moves_view _ _ _ _ HT Hst Hm); [|done].
    apply IH; [done..|]. intros w2. by apply (safe_anywhere _ _ _ _ w').
Qed.

Lemma post_ended {A} (p : prog A) (P : view -> Prop) v :
  ended p = true -> post (fun _ => P) P p v -> P v.
Proof. by destruct p. Qed.

(** ** The frames of the command *)

Definition lossy : Prop := fates LostBefore \/ fates LostAfter.

(** A statement that its columns cannot hold. *)
Lemma post_unfit {A} (Q : A -> view -> Prop) (E : view -> Prop) (st : Z -> world -> res world) f v :
  (forall now w, exists e, st now w = Err e) -> E v -> post Q E (stmt st f) v.
Proof.
  intros Hst HE. apply post_stmt; [|done..]. intros now w w' _ _ Hok.
  destruct (Hst now w). congruence.
Qed.

Lemma post_insert (Q : bool -> view -> Prop) (E : view -> Prop) row v st :
  v.2 = Some st -> co_terminalSessionId row = sid ->
  nullable int4 (co_exitCode row) && int8 (co_outputByteStart row) &&
   nullable int8 (co_outputByteEnd row) = true ->
  (v.1 = None -> Q true (Some row, v.2)) ->
  (v.1 = None -> lossy -> E (Some row, v.2)) ->
  (v.1 <> None -> Q false v) -> (lossy -> E v) ->
  post Q E (insertCommand c row) v.
Proof.
  intros Hst Hsid Hfit Hnew Hnew' Hold Hlost. unfold insertCommand. rewrite Hfit. cbn [negb].
  apply post_stmt; [| |done]; intros now w; [intros w'|intros e]; intros Hw <-;
    cbn in Hst, Hnew, Hnew', Hold.
  - case_bool_decide as Hc.
    + intros [= <-]. rewrite bool_decide_eq_false_2 by (destruct Hc as [? ->]; done). split.
      * intros. apply Hold. by destruct Hc as [? ->].
      * intros. apply Hlost. by right.
    + apply eq_None_not_Some in Hc. case_bool_decide; [done|]. intros [= <-].
      unfold view_of at 1 2. cbn. rewrite lookup_insert_eq, Hc, bool_decide_eq_true_2 by done.
      split; intros; [auto|apply Hnew'; [done|by right]].
  - case_bool_decide; [done|]. case_bool_decide as Hn; [|done].
    rewrite Hsid in Hn. by rewrite Hn in Hst.
Qed.

Lemma post_finalize (Q : bool -> view -> Prop) (E : view -> Prop) at_ exitCode end_ start v :
  nullable int4 exitCode && nullable int8 start && nullable int8 end_ = true ->
  (v.1 = None -> Q false v) ->
  (forall row, v.1 = Some row -> Q true (Some (finish_command at_ exitCode end_ start row), v.2)) ->
  (forall row, v.1 = Some row -> lossy ->
     E (Some (finish_command at_ exitCode end_ start row), v.2)) ->
  (lossy -> E v) ->
  post Q E (finalizeCommand c at_ exitCode end_ start) v.
Proof.
  intros Hfit Hnone Hrow Hrow' Hlost. unfold finalizeCommand. rewrite Hfit. cbn [negb].
  apply post_stmt; [|done|done]. intros now w w' Hw <- [= <-].
  unfold view_of in *. cbn in *. rewrite lookup_alter_eq.
  destruct (tw_commands w !! c) as [row|] eqn:Hc; cbn.
  - split; intros; [by apply Hrow|apply Hrow'; [done|by right]].
  - split; [auto|]. intros. apply Hlost. by right.
Qed.

(** A frame of the command does what the history says, or is lost. *)
Definition outcome (s : TerminalSession) (d : delivery) (v v' : view) : Prop :=
  v'.2 = v.2 /\
  ((v'.1 = v.1 /\ (lossy \/ fits d = false)) \/ (v'.1 = apply_delivery s d v.1 /\ fits d = true)).

Lemma outcome_lost s d v : lossy \/ fits d = false -> outcome s d v v.
Proof. intros. split; auto. Qed.
Lemma outcome_applied s d v : fits d = true -> outcome s d v (apply_delivery s d v.1, v.2).
Proof. intros. split; auto. Qed.

Lemma post_started s e v st :
  cs_commandId e = c -> ts_sessionId s = sid -> v.2 = Some st ->
  post (fun _ => outcome s (CommandStarted e) v) (outcome s (CommandStarted e) v)
    (recordCommandStarted s e) v.
Proof.
  intros Hid Hsid Hst. unfold recordCommandStarted. rewrite Hid. apply post_catch, post_bind.
  destruct (fits (CommandStarted e)) eqn:F.
  - destruct v as [o os]. pose proof (outcome_applied s (CommandStarted e) (o, os) F) as Ha.
    eapply post_insert; [done|exact Hsid|rewrite andb_true_r; exact F|..]; cbn [fst snd] in *.
    + by intros ->.
    + intros -> _ _. done.
    + intros Ho. by destruct o.
    + intros Hl _. apply outcome_lost. by left.
  - apply post_unfit; [|intros _; apply outcome_lost; by right]. intros now w.
    rewrite andb_true_r. change (int8 (co_outputByteStart (started_record s e))) with
      (fits (CommandStarted e)). rewrite F. eauto.
Qed.

Lemma finished_fits s e :
  fits (CommandFinished e) = true ->
  nullable int4 (co_exitCode (finished_record s e)) && int8 (co_outputByteStart (finished_record s e))
   && nullable int8 (co_outputByteEnd (finished_record s e)) = true.
Proof. cbn. by destruct (cf_outputByteStart e). Qed.

Lemma post_finished s e v st :
  cf_commandId e = c -> ts_sessionId s = sid -> v.2 = Some st ->
  post (fun _ => outcome s (CommandFinished e) v) (outcome s (CommandFinished e) v)
    (recordCommandFinished s e) v.
Proof.
  intros Hid Hsid Hst. unfold recordCommandFinished. rewrite Hid. apply post_catch, post_bind.
  destruct (fits (CommandFinished e)) eqn:F.
  - destruct v as [o os]. pose proof (outcome_applied s (CommandFinished e) (o, os) F) as Ha.
    apply post_finalize; cbn [fst snd] in *; try done.
    + intros ->. apply post_bind.
      eapply post_insert; [done|exact Hsid|by apply finished_fits|..]; cbn [fst snd].
      * intros _. exact Ha.
      * intros _ _ _. exact Ha.
      * done.
      * intros Hl _. apply outcome_lost. by left.
    + by intros row ->.
    + by intros row ->.
    + intros Hl _. apply outcome_lost. by left.
  - apply post_unfit; [|intros _; apply outcome_lost; by right]. intros now w.
    cbn in F. rewrite F. eauto.
Qed.

Lemma reported_command f : frame_command f <> Some c -> reported c f = None.
Proof.
  destruct f as [| | |event data ts| |]; cbn; try done. unfold command_of.
  destruct (as_string _) as [id|]; [|done]. cbn.
  destruct (bool_decide (event = "command_started")), (bool_decide (event = "command_finished"));
    cbn; try done; intros; rewrite bool_decide_eq_false_2 by congruence; done.
Qed.

Lemma post_owned b v st (Q : option TerminalSession -> view -> Prop) (E : view -> Prop) :
  v.2 = Some st ->
  (forall s, ts_sessionId s = sid -> session_stamps s = st ->
     Q (if bool_decide (ts_budId s = b) then Some s else None) v) ->
  (lossy -> E v) -> post Q E (resolveOwnedSession b sid) v.
Proof.
  intros Hst HQ HE. unfold resolveOwnedSession. apply post_bind. unfold getSession, query.
  apply post_stmt; [|done|done]. intros now w w' Hw <- [= <-].
  split; [|intros; apply HE; by right]. intros _. cbn in Hst.
  destruct (tw_sessions w !! sid) as [r|]; [|done]. simplify_eq/=.
  by apply (HQ (rowToSession (sid, r))).
Qed.

(** What a frame does to the command, [bud] being the Bud of the session. *)
Definition reaction (s : TerminalSession) (bud : string) (x : string * TerminalFrame) (v v' : view)
    : Prop :=
  v'.2 = v.2 /\
  match delivered_by bud c x with
  | None => v'.1 = v.1
  | Some d => v'.1 = apply_delivery s d v.1 \/ (v'.1 = v.1 /\ lossy)
  end.

Lemma outcome_reaction s s' d bud x v v' :
  ts_sessionId s = ts_sessionId s' -> session_stamps s = session_stamps s' ->
  delivered_by bud c x = (if fits d then Some d else None) ->
  outcome s d v v' -> reaction s' bud x v v'.
Proof.
  intros E1 E2 Hd [Hv Ho]. split; [done|]. rewrite Hd.
  destruct Ho as [[Ho Hf]|[Ho ->]].
  - destruct (fits d); [|done]. right. destruct Hf; [done|congruence].
  - left. rewrite Ho. unfold apply_delivery. by rewrite (first_record_stamps _ _ _ E1 E2).
Qed.

Lemma reaction_refl s bud x v : delivered_by bud c x = None \/ lossy -> reaction s bud x v v.
Proof. intros Hd. split; [done|]. destruct (delivered_by _ _ _), Hd; auto; done. Qed.

Lemma event_started s data ts :
  event_effects s sid "command_started" data ts =
  match as_string (field_lookup "command_id" data) with
  | Some id => recordCommandStarted s (command_started_event data ts id)
  | None => mret tt
  end :> prog unit.
Proof. reflexivity. Qed.

Lemma event_finished s data ts :
  event_effects s sid "command_finished" data ts =
  match as_string (field_lookup "command_id" data) with
  | Some id => recordCommandFinished s (command_finished_event data ts id)
  | None => mret tt
  end :> prog unit.
Proof. reflexivity. Qed.

Lemma post_handle s0 x v st :
  ts_sessionId s0 = sid -> session_stamps s0 = st -> v.2 = Some st ->
  post (fun _ => reaction s0 (ts_budId s0) x v) (reaction s0 (ts_budId s0) x v)
    (handle x.1 sid x.2) v.
Proof.
  intros Hsid Hs0 Hst. destruct (decide (frame_command x.2 = Some c)) as [Hc|Hc].
  - destruct x as [b f]. cbn [fst snd] in *. destruct f as [| | |event data ts| |]; try done.
    cbn [handle frame_command] in *. unfold handleTerminalEventInner.
    apply post_bind. apply (post_owned b v st); [done| |intros; apply reaction_refl; auto].
    intros s Hid Hss. assert (Hbud : ts_budId s = ts_budId s0).
    { unfold session_stamps in *. simplify_eq. congruence. }
    rewrite Hbud. case_bool_decide as Hb.
    2: { apply reaction_refl. left. unfold delivered_by. cbn.
         by rewrite bool_decide_eq_false_2 by congruence. }
    apply post_bind.
    assert (Hrest : forall v', reaction s0 (ts_budId s0) (b, EventFrame event data ts) v v' ->
      post (fun _ => reaction s0 (ts_budId s0) (b, EventFrame event data ts) v)
        (reaction s0 (ts_budId s0) (b, EventFrame event data ts) v)
        (noting [Emitted sid "terminal.event"
          [("session_id", JStr sid); ("event", JStr event); ("data", JObj data); ("ts", number ts)] true])
        v').
    { intros v' Hr. apply (post_quiet (fun _ => False) _ _ _ _ st).
      - by intros [].
      - rewrite <-Hst. apply Hr.
      - by apply fine_sync.
      - by intros _.
      - done. }
    assert (Hgo : forall d (p : prog unit), post (fun _ => outcome s d v) (outcome s d v) p v ->
      delivered_by (ts_budId s0) c (b, EventFrame event data ts) = (if fits d then Some d else None) ->
      post (fun _ => post (fun _ => reaction s0 (ts_budId s0) (b, EventFrame event data ts) v)
        (reaction s0 (ts_budId s0) (b, EventFrame event data ts) v)
        (noting [Emitted sid "terminal.event"
          [("session_id", JStr sid); ("event", JStr event); ("data", JObj data); ("ts", number ts)] true]))
        (reaction s0 (ts_budId s0) (b, EventFrame event data ts) v) p v).
    { intros d p Hp Hd. eapply post_weaken; [apply Hp| |]; intros;
        [apply Hrest|]; by eapply (outcome_reaction s); [congruence..|exact Hd|]. }
    unfold command_of in Hc. destruct (bool_decide (event = "command_started")) eqn:Ee1;
      [|destruct (bool_decide (event = "command_finished")) eqn:Ee2; [|done]]; cbn in Hc;
      [apply bool_decide_eq_true in Ee1 as ->; rewrite event_started
      |apply bool_decide_eq_true in Ee2 as ->; rewrite event_finished]; rewrite Hc;
      (eapply Hgo; [first [by eapply post_started|by eapply post_finished]|]);
      unfold delivered_by; cbn [fst snd reported]; rewrite bool_decide_eq_true_2 by congruence;
      rewrite Hc; cbn; by rewrite bool_decide_eq_true_2 by done.
  - eapply (post_quiet (fun id => frame_command x.2 = Some id)); [done|done| | |].
    + intros w. by apply fine_handle.
    + intros _. apply reaction_refl. left. unfold delivered_by. case_bool_decide; [|done].
      by apply reported_command.
    + apply reaction_refl. left. unfold delivered_by. case_bool_decide; [|done].
      by apply reported_command.
Qed.
End views.

(** ** A run with one session of the command *)

Section watching.
Context {R D : Type} `{DaemonTransportRouter R} `{TerminalOutputPersistence D} `{SessionIds}.
Context (idle : IdleConfig) (c sid : string) (fates : fate -> Prop).
Notation world := (tw R D).
Notation prog := (job R D).
Notation state := (station (R := R) (D := D)).
Implicit Types (w : world) (y : state).

(** The frames [xs] arrive at the session, among frames of other sessions that do not
    report the command, calls, nodes of all jobs, and changes of the rest of the service
    that leave the session in its thread and do not delete the command. *)
Inductive watched : list (string * TerminalFrame) -> state -> state -> Prop :=
  | watched_none y : watched [] y y
  | watched_frame b f xs y y' :
      watched xs y y' ->
      watched (xs ++ [(b, f)]) y (enqueueSessionIngest sid (handle b sid f) y')
  | watched_other b s f xs y y' :
      watched xs y y' -> s <> sid -> frame_command f <> Some c ->
      watched xs y (enqueueSessionIngest s (handle b s f) y')
  | watched_call k xs y y' : watched xs y y' -> watched xs y (receive_call idle k y')
  | watched_node xs y y' y'' : watched xs y y' -> station_node fates y' y'' -> watched xs y y''
  | watched_env xs y y' w' :
      watched xs y y' -> env_step (sn_world y') w' ->
      view_of c sid w' = view_of c sid (sn_world y') ->
      watched xs y (mkStation w' (sn_queues y') (sn_calls y')).

(** It is a run of the station. *)
Lemma watched_station xs y y' : watched xs y y' -> station_steps idle y y'.
Proof.
  induction 1; [constructor|..]; (eapply steps_more; [done|]).
  - constructor.
  - constructor.
  - constructor.
  - apply step_node. match goal with N : station_node _ _ _ |- _ => destruct N end;
      [by eapply node_queue|by eapply node_next|by eapply node_call].
  - by apply step_env.
Qed.

Definition quiet (p : prog unit) : Prop :=
  forall w, safe sound (moves (fun id => id <> c)) anything p w.

Lemma quiet_handle b s f : frame_command f <> Some c -> quiet (handle b s f).
Proof. intros Hf w. apply fine_handle. intros id Hid ->. congruence. Qed.
Lemma quiet_manager_call k : quiet (call_job idle k).
Proof. intros w. apply fine_call. Qed.

Lemma quiet_step p p' o now w w' st :
  sound w -> quiet p -> (view_of c sid w).2 = Some st -> job_step o now p w = (w', p') ->
  view_of c sid w' = view_of c sid w /\ quiet p' /\ sound w'.
Proof.
  intros Hw Hp Hst E. destruct (safe_step _ _ _ _ _ _ _ _ _ Hw (Hp w) E) as [Hm Hs]. split_and!.
  - destruct Hm as [Hm| ->]; [|done]. apply (moves_view _ _ (fun id => id <> c) _ _ st); auto.
  - intros v. by apply (safe_anywhere _ _ _ _ w').
  - destruct Hm as [[[? _] _]| ->]; done.
Qed.

Lemma post_step (Q : unit -> view -> Prop) E p p' o now w w' :
  sound w -> ended p = false -> post c sid fates Q E p (view_of c sid w) -> fates o ->
  job_step o now p w = (w', p') -> post c sid fates Q E p' (view_of c sid w').
Proof.
  intros Hw He Hp Ho Es. destruct p as [a|e|f k|st k]; cbn in Es; simplify_eq; [done..|by apply Hp|].
  destruct (Hp now w Hw eq_refl) as (HR & HB & HA).
  destruct o; [specialize (HR Ho)|specialize (HB Ho)|specialize (HA Ho)];
    destruct (st now w); simplify_eq; done.
Qed.

Context (s0 : TerminalSession).
Hypothesis Hsid : ts_sessionId s0 = sid.
Notation st := (session_stamps s0).
Notation bud := (ts_budId s0).
Notation reports xs := (omap (delivered_by bud c) xs).

(** The deliveries that took effect of those that were made. *)
Definition took (xs : list (string * TerminalFrame)) (h : list delivery) : Prop :=
  h `sublist_of` reports xs /\ (~ lossy fates -> h = reports xs).

Definition at_history (h : list delivery) w : Prop :=
  view_of c sid w = (history_row s0 h, Some st).

(** The frame at the head of the queue, from the view its predecessors left. *)
Definition head_runs (x : string * TerminalFrame) (h : list delivery) (p : prog unit) w : Prop :=
  let react := reaction c fates s0 bud x (history_row s0 h, Some st) in
  post c sid fates (fun _ => react) react p (view_of c sid w) /\ (view_of c sid w).2 = Some st.

Definition progress (xs : list (string * TerminalFrame)) y : Prop :=
  exists finished h, took finished h /\
    ((xs = finished /\ sn_queues y !! sid = None /\ at_history h (sn_world y)) \/
     (exists x rest p, xs = finished ++ x :: rest /\
        sn_queues y !! sid = Some (p :: ((fun x => handle x.1 sid x.2) <$> rest)) /\
        head_runs x h p (sn_world y) /\ tame p)).

Definition watching (xs : list (string * TerminalFrame)) y : Prop :=
  sound (sn_world y) /\
  (forall s ps, s <> sid -> sn_queues y !! s = Some ps -> Forall quiet ps) /\
  Forall quiet (sn_calls y) /\ progress xs y.

Lemma took_snoc xs h x v' :
  took xs h -> reaction c fates s0 bud x (history_row s0 h, Some st) v' ->
  exists h', took (xs ++ [x]) h' /\ v' = (history_row s0 h', Some st).
Proof.
  intros [Hsub Hall] [Hv Hr]. unfold took. rewrite omap_app. cbn [omap list_omap].
  destruct v' as [o os]. cbn in Hv. subst os. destruct (delivered_by bud c x) as [d|]; cbn in Hr.
  - destruct Hr as [->|[-> Hl]].
    + exists (h ++ [d]). rewrite history_snoc. split_and!; [by apply sublist_app| |done].
      intros Hn. by rewrite Hall.
    + exists h. split_and!; [by apply sublist_inserts_r| |done]. done.
  - subst o. exists h. rewrite app_nil_r. auto.
Qed.

Lemma head_starts x h w : at_history h w -> head_runs x h (handle x.1 sid x.2) w.
Proof.
  intros Hh. unfold head_runs. rewrite Hh. split; [|done]. by apply (post_handle _ _ _ _ _ _ st).
Qed.

Lemma history_present h w : at_history h w -> (view_of c sid w).2 = Some st.
Proof. by intros ->. Qed.

(** The rest of the station may change the world, when the view stays. *)
Lemma progress_view xs y w' qs cs :
  view_of c sid w' = view_of c sid (sn_world y) -> qs !! sid = sn_queues y !! sid ->
  progress xs y -> progress xs (mkStation w' qs cs).
Proof.
  intros Hv Hq (fs & h & Ht & Hc). exists fs, h. split; [done|].
  unfold at_history, head_runs in *. cbn [sn_world sn_queues]. rewrite Hv, Hq. done.
Qed.

Lemma progress_present xs y : progress xs y -> (view_of c sid (sn_world y)).2 = Some st.
Proof.
  intros (fs & h & _ & [(_ & _ & Hh)|(x & rest & p & _ & _ & [_ Hh] & _)]); [|done].
  by eapply history_present.
Qed.

Lemma watching_frame b f xs y :
  watching xs y -> watching (xs ++ [(b, f)]) (enqueueSessionIngest sid (handle b sid f) y).
Proof.
  intros (Hw & Hq & Hc & fs & h & Ht & Hp). split; [done|]. split.
  { intros s ps Hs. cbn. rewrite lookup_insert_ne by done. by apply Hq. }
  split; [done|]. exists fs, h. split; [done|]. right. cbn [sn_queues enqueueSessionIngest sn_world].
  rewrite lookup_insert_eq. destruct Hp as [(-> & -> & Hh)|(x & rest & p & -> & -> & Hh & Hp)].
  - exists (b, f), [], (handle b sid f). split_and!; [done|done| |apply tame_handle].
    by apply (head_starts (b, f)).
  - exists x, (rest ++ [(b, f)]), p. split_and!; [|by rewrite fmap_app|done|done].
    by rewrite <-(assoc_L (++)).
Qed.

Lemma watching_others xs y w' qs cs :
  watching xs y -> sound w' -> view_of c sid w' = view_of c sid (sn_world y) ->
  qs !! sid = sn_queues y !! sid ->
  (forall s ps, s <> sid -> qs !! s = Some ps -> Forall quiet ps) -> Forall quiet cs ->
  watching xs (mkStation w' qs cs).
Proof.
  intros (Hw & Hq & Hc & Hp) ? ? ? ? ?. do 3 (split; [done|]). by apply (progress_view _ y).
Qed.

(** The head of the queue takes a node. *)
Lemma watching_head xs p rest o now w' p' y :
  watching xs y -> sn_queues y !! sid = Some (p :: rest) -> ended p = false -> fates o ->
  job_step o now p (sn_world y) = (w', p') ->
  watching xs (mkStation w' (<[sid := p' :: rest]> (sn_queues y)) (sn_calls y)).
Proof.
  intros (Hw & Hq & Hc & fs & h & Ht & Hp) Hs He Ho E.
  destruct Hp as [(_ & ? & _)|(x & xs' & p0 & -> & Hs' & [Hh Hv] & Htame)]; [congruence|].
  rewrite Hs in Hs'. simplify_eq. destruct (next_node _ _ _ _ _ _ Hw Htame E) as [[Hw' _] Htame'].
  split; [done|]. split.
  { intros s ps Hne. cbn. rewrite lookup_insert_ne by done. by apply Hq. }
  split; [done|]. exists fs, h. split; [done|]. right. exists x, xs', p'. cbn [sn_queues sn_world].
  rewrite lookup_insert_eq. split_and!; [done..| |done]. split;
    [exact (post_step _ _ _ _ _ _ _ _ Hw He Hh Ho E)|].
  destruct Htame as [T HT]. destruct (safe_step _ _ _ _ _ _ _ _ _ Hw (HT _) E) as [[[Hl [_ Hm]]| ->] _];
    [|done]. unfold view_of in *. cbn in *.
  destruct (tw_sessions (sn_world y) !! sid) as [r|] eqn:Er; [|done].
  destruct (Hm _ _ Er) as (r' & Er' & E'). rewrite Er'. cbn in *. rewrite <-Hv. f_equal.
  destruct Hl as [_ [Hk _]]. destruct (Hk _ _ Er) as [?|(r2 & Er2 & [])]; [congruence|].
  simplify_eq. unfold row_stamps. congruence.
Qed.

(** A finished frame leaves the queue. *)
Lemma watching_next xs p rest y :
  watching xs y -> sn_queues y !! sid = Some (p :: rest) -> ended p = true ->
  watching xs (mkStation (sn_world y)
    (if bool_decide (rest = []) then delete sid (sn_queues y) else <[sid := rest]> (sn_queues y))
    (sn_calls y)).
Proof.
  intros (Hw & Hq & Hc & fs & h & Ht & Hp) Hs He.
  destruct Hp as [(_ & ? & _)|(x & xs' & p0 & -> & Hs' & [Hh Hv] & Htame)]; [congruence|].
  rewrite Hs in Hs'. simplify_eq. apply post_ended in Hh; [|done].
  destruct (took_snoc _ _ _ _ Ht Hh) as (h' & Ht' & Hv').
  split; [done|]. split.
  { intros s ps Hne. cbn. case_bool_decide; [rewrite lookup_delete_ne|rewrite lookup_insert_ne];
      try done; by apply Hq. }
  split; [done|]. exists (fs ++ [x]), h'. split; [done|]. cbn [sn_queues sn_world].
  destruct xs' as [|x2 xs2]; cbn [fmap list_fmap].
  - left. rewrite bool_decide_eq_true_2, lookup_delete_eq by done. done.
  - right. rewrite bool_decide_eq_false_2, lookup_insert_eq by done.
    exists x2, xs2, (handle x2.1 sid x2.2).
    split_and!; [by rewrite <-(assoc_L (++))|done|by apply head_starts|apply tame_handle].
Qed.

Lemma watching_node xs y y' : watching xs y -> station_node fates y y' -> watching xs y'.
Proof.
  intros Hy N. pose proof Hy as (Hw & Hq & Hc & Hp). pose proof (progress_present _ _ Hp) as Hst.
  destruct N as [s p rest o now w' p' y Hs He Ho E|s p rest y Hs He|before p after_ o now w' p' y Hs Ho E].
  - destruct (decide (s = sid)) as [->|Hne]; [by eapply watching_head|].
    pose proof (Hq _ _ Hne Hs) as [Hpq Hrest]%Forall_cons.
    destruct (quiet_step _ _ _ _ _ _ _ Hw Hpq Hst E) as (? & ? & ?).
    apply (watching_others _ y); [done..|by rewrite lookup_insert_ne| |done].
    intros i ps Hi [[<- <-]|[? Hps]]%lookup_insert_Some; [by constructor|by eapply Hq].
  - destruct (decide (s = sid)) as [->|Hne]; [by eapply watching_next|].
    pose proof (Hq _ _ Hne Hs) as [_ Hrest]%Forall_cons.
    apply (watching_others _ y); [done..| | |done].
    + case_bool_decide; [by rewrite lookup_delete_ne|by rewrite lookup_insert_ne].
    + intros i ps Hi. case_bool_decide; [intros [_ ?]%lookup_delete_Some; by eapply Hq|].
      intros [[<- <-]|[? Hps]]%lookup_insert_Some; [done|by eapply Hq].
  - rewrite Hs in Hc. apply Forall_app in Hc as [Hb [Hpq Ha]%Forall_cons].
    destruct (quiet_step _ _ _ _ _ _ _ Hw Hpq Hst E) as (? & ? & ?).
    apply (watching_others _ y); [done..|]. apply Forall_app. split; [done|by constructor].
Qed.

Lemma watched_watching xs y y' : watching [] y -> watched xs y y' -> watching xs y'.
Proof.
  intros Hy. induction 1 as [|b f xs y y' _ IH|b s f xs y y' _ IH Hs Hf|k xs y y' _ IH|
                            xs y y' y'' _ IH N|xs y y' w' _ IH E Hv].
  - done.
  - by apply watching_frame, IH.
  - pose proof (IH Hy) as (Hw & Hq & Hc & Hp). apply (watching_others _ y'); auto.
    + by rewrite lookup_insert_ne.
    + intros i ps Hi [[<- <-]|[? Hps]]%lookup_insert_Some; [|by eapply Hq].
      apply Forall_app. split; [|by apply Forall_singleton, quiet_handle].
      destruct (sn_queues y' !! s) eqn:Es; [by eapply Hq|constructor].
  - pose proof (IH Hy) as (Hw & Hq & Hc & Hp). apply (watching_others _ y'); auto.
    apply Forall_app. split; [done|]. apply Forall_singleton, quiet_manager_call.
  - by eapply watching_node; [apply IH|].
  - pose proof (IH Hy) as (Hw & Hq & Hc & Hp). apply (watching_others _ y'); auto.
    by destruct (env_lands _ _ Hw E).
Qed.
End watching.
