(* ===== verification/SessionClaims.v ===== *)
(** What the terminal session manager promises: the sessions stay sound whatever
    interleaves, and the row of a command is the history of its frames.  [Terminal] runs
    the claims on a station with two sessions, and shows three runs that end badly: a Bud
    that finishes the command of another, a grid watch that stays off with a viewer
    present, and a session that is ready after it was closed. *)
From Stdlib Require Import Strings.Byte ZArith QArith Qround Lia.
From stdpp Require Import base tactics strings gmap sorting option pretty.
From stdpp Require Import list.
From S2P Require Import Prelude JsRuntime Base64 Json JsText Carrier OutputStore.
From S2P Require Import OutputTable Sessions SessionStore SessionManager SessionProps SessionHistory.
Open Scope Z_scope.

Section claims.
Context {R D : Type} `{DaemonTransportRouter R} `{TerminalOutputPersistence D} `{SessionIds}.
Context (idle : IdleConfig).
Notation world := (tw R D).
Notation prog := (job R D).
Implicit Types (w : world).

(** A session that is in the table, open, in its thread. *)
Definition open_session (threadId : string) w (s : TerminalSession) : Prop :=
  exists r, tw_sessions w !! ts_sessionId s = Some r /\ open_in threadId r = true /\
    s = rowToSession (ts_sessionId s, r).

(** No job runs and no frame waits. *)
Definition at_rest (y : station (R := R) (D := D)) : Prop :=
  sound (sn_world y) /\ sn_queues y = ∅ /\ sn_calls y = [].

Lemma rest_steady y : at_rest y -> steady y.
Proof.
  intros (Hw & Hq & Hc). split; [done|]. split; [|by rewrite Hc]. intros s ps. by rewrite Hq.
Qed.

Lemma rows_of_head P w x :
  head (rows_of P w) = Some x -> tw_sessions w !! x.1 = Some x.2 /\ P x.1 x.2 = true.
Proof.
  intros Hx. assert (Hin : In x (rows_of P w)) by (destruct (rows_of P w); [done|]; simplify_eq/=; by left).
  apply List.filter_In in Hin as [Hin HP]. split; [|done].
  apply elem_of_map_to_list. destruct x. by apply base.list_elem_of_In.
Qed.

Lemma forThread_open t w :
  safe sound (fun _ _ => True) (fun w o => forall s, o = Some s -> open_session t w s)
    (getSessionForThread t) w.
Proof.
  apply safe_stmt. intros now v v' _ [= <-]. split; [done|]. intros s Hs.
  destruct (head _) as [x|] eqn:E; [|done]. apply rows_of_head in E as [E1 E2].
  simplify_eq/=. exists x.2. by destruct x.
Qed.

Lemma ensure_open t b u w :
  safe sound (fun _ _ => True) (fun w x => open_session t w x.1)
    (ensureSessionRecordForThread t b u) w.
Proof.
  unfold ensureSessionRecordForThread. eapply safe_bind; [apply forThread_open|].
  intros [s|] v Hv; [by apply (Hv s)|]. apply (safe_bind _ _ anything); [by intros ? ? ?|].
  intros id v2 _. apply safe_catch.
  - apply safe_stmt. intros now v3 v4 Hw E. split; [done|].
    destruct (insert_session_moves (fun _ => False) _ _ _ _ _ _ _ Hw E) as (_ & _ & Es).
    unfold open_session. rewrite Es. exists (new_session t b u now). cbn. rewrite lookup_insert_eq. split_and!; [done| |done].
    unfold open_in. cbn. by rewrite bool_decide_eq_true_2.
  - intros e v3. destruct (isUniqueViolation e); [|done].
    eapply safe_bind; [apply forThread_open|]. intros [s|] v4 Hs; [by apply (Hs s)|done].
Qed.

Lemma foreign_frame b s f now w :
  (forall r, tw_sessions w !! s = Some r -> se_budId r <> b) ->
  job_step Runs now (handle b s f) w = (w, Ret tt).
Proof.
  intros Hb. assert (Hs : match (fun r => rowToSession (s, r)) <$> tw_sessions w !! s with
    | Some x => if bool_decide (ts_budId x = b) then Some x else None
    | None => None end = None).
  { destruct (tw_sessions w !! s) as [r|] eqn:E; [|done]. cbn.
    by rewrite bool_decide_eq_false_2 by (by apply Hb). }
  destruct f; cbn -[bool_decide]; rewrite Hs; done.
Qed.

(** C35: Whatever interleaves of the frames of Buds, the calls of routes and agents, lost
    database answers, and the rest of the service: a thread has one open session at most,
    a closed state has the time of its closing, viewers are counted from one, and every
    command belongs to a session; no step changes who a session or a command belongs to,
    reopens or restarts it, or moves it to another thread; a frame from a Bud the session
    does not belong to has no effect; and the session [ensureSessionRecordForThread]
    answers with is, at that moment, the open one of the thread. *)
Theorem sessions_sound (y0 y : station (R := R) (D := D)) :
  at_rest y0 -> station_steps idle y0 y ->
  sound (sn_world y) /\
  (forall y', station_step idle y y' -> kept (sn_world y) (sn_world y')) /\
  (forall b s f now, (forall r, tw_sessions (sn_world y) !! s = Some r -> se_budId r <> b) ->
     job_step Runs now (handle b s f) (sn_world y) = (sn_world y, Ret tt)) /\
  (forall t b u, safe sound (fun _ _ => True) (fun w x => open_session t w x.1)
     (ensureSessionRecordForThread t b u) (sn_world y)).
Proof.
  intros Hy Hs. pose proof (steady_steps _ _ _ (rest_steady _ Hy) Hs) as Hsteady.
  split_and!; [apply Hsteady| | |intros; apply ensure_open].
  - intros y' St. by eapply steady_step.
  - intros. by apply foreign_frame.
Qed.

(** A start and a finish that tell of the same run of the command. *)
Definition one_run (e : CommandStartedEvent) (f : CommandFinishedEvent) : Prop :=
  cs_ts e <= cf_ts f /\ cf_durationMs f = Some (cf_ts f - cs_ts e) /\
  cf_outputByteStart f = Some (cs_outputByteStart e).

Definition complete_row (s : TerminalSession) (e : CommandStartedEvent) (f : CommandFinishedEvent)
    : TerminalCommandRecord :=
  finish_command (cf_ts f) (cf_exitCode f) (cf_outputByteEnd f) (cf_outputByteStart f)
    (started_record s e).

Lemma one_run_row s e f h :
  one_run e f -> Forall (fun d => d = CommandStarted e \/ d = CommandFinished f) h ->
  history_row s h = (if bool_decide (CommandFinished f ∈ h) then Some (complete_row s e f)
                     else if bool_decide (h = []) then None else Some (started_record s e)).
Proof.
  intros (Hle & Hd & Hb). induction h as [|d h IH] using rev_ind; [done|].
  rewrite Forall_app, Forall_singleton. intros [Hh Hl].
  rewrite history_snoc, IH by done. clear IH.
  assert (Hbnil : bool_decide (h ++ [d] = []) = false)
    by (apply bool_decide_eq_false; by destruct h).
  rewrite Hbnil. destruct Hl as [Hl|Hl]; subst d.
  - rewrite (bool_decide_ext (CommandFinished f ∈ h ++ [CommandStarted e]) (CommandFinished f ∈ h))
      by set_solver.
    destruct (bool_decide (_ ∈ h)); [done|]. by destruct (bool_decide (h = [])).
  - rewrite (bool_decide_eq_true_2 (CommandFinished f ∈ h ++ _)) by set_solver.
    destruct (bool_decide (_ ∈ h)), (bool_decide (h = [])); cbn; try done;
      unfold complete_row, finish_command, started_record, finished_record; cbn; rewrite ?Hb, ?Hd;
      cbn; try done; by replace (cf_ts f - Z.max (cf_ts f - cs_ts e) 0) with (cs_ts e) by lia.
Qed.

Lemma str_ge_trans a b d : str_lt a b = false -> str_lt b d = false -> str_lt a d = false.
Proof.
  intros H1' H2'. destruct (str_lt a d) eqn:E; [|done].
  destruct (str_lt_total d b) as [Hdb|[->|Hdb]]; [|congruence|congruence].
  by rewrite (str_lt_trans a d b) in H1'.
Qed.

#[local] Instance later_command_trans : Transitive later_command.
Proof.
  intros x y z. unfold later_command. intros [?|[? E1]] [?|[? E2]]; [left; lia..|].
  right. split; [lia|]. by eapply str_ge_trans.
Qed.

#[local] Instance later_command_total : Total later_command.
Proof.
  intros x y. unfold later_command. destruct (Z.lt_trichotomy (co_startedAt x.2) (co_startedAt y.2)) as [?|[E|?]];
    [right; left; lia| |left; left; lia].
  destruct (str_lt x.1 y.1) eqn:Ex; [right|left]; right; (split; [lia|]); [|done].
  destruct (str_lt y.1 x.1) eqn:Ey; [|done].
  pose proof (str_lt_trans _ _ _ Ex Ey) as Exx. by rewrite str_lt_irrefl in Exx.
Qed.

(** What the query for the latest command answers. *)
Definition latest_of (w : world) (s : string) (o : option (string * TerminalCommandRecord)) : Prop :=
  match o with
  | None => forall id c, tw_commands w !! id = Some c -> co_terminalSessionId c <> s
  | Some x => tw_commands w !! x.1 = Some x.2 /\ co_terminalSessionId x.2 = s /\
      forall id c, tw_commands w !! id = Some c -> co_terminalSessionId c = s -> later_command x (id, c)
  end.

Lemma latest_answer w s o now :
  job_step Runs now (getLatestCommandForSession s) w = (w, Ret o) -> latest_of w s o.
Proof.
  cbn. intros [= <-]. set (l := List.filter _ _).
  assert (Hin : forall id c, In (id, c) l <-> tw_commands w !! id = Some c /\ co_terminalSessionId c = s).
  { intros id c. unfold l. rewrite List.filter_In, bool_decide_eq_true. cbn.
    by rewrite <-base.list_elem_of_In, elem_of_map_to_list. }
  pose proof (StronglySorted_merge_sort later_command l) as Hs.
  pose proof (merge_sort_Permutation later_command l) as Hp.
  destruct (merge_sort later_command l) as [|[i r] k]; cbn.
  - intros id c Hc E. apply Permutation_nil in Hp. rewrite Hp in Hin. by apply (Hin id c).
  - assert (Hall : forall id c, In (id, c) l <-> (id, c) = (i, r) \/ In (id, c) k).
    { intros. rewrite <-!base.list_elem_of_In, <-Hp, elem_of_cons. done. }
    assert (In (i, r) l) as [Hi Hr]%Hin by (apply Hall; by left). split_and!; [done..|].
    intros id c Hc E. assert (In (id, c) l) as [[= -> ->]|Hk]%Hall by by apply Hin.
    + right. cbn. by rewrite str_lt_irrefl.
    + inversion Hs as [|? ? _ Hf]; subst. rewrite Forall_forall in Hf. by apply Hf, base.list_elem_of_In.
Qed.

(** C36: In any run in which one session reports a command: when its queue is empty, the
    row of the command is the history of the frames that the Bud of the session sent -
    owned by it, started by the first, finished by the last finish, with the output it
    spans - of a part of them if the database lost answers, of all of them if not.  A
    start and a finish of one run of the command give the same complete row in either
    order and however often they are delivered.  The latest command of a session is one
    that started last. *)
Theorem command_history (c sid : string) (fates : fate -> Prop) (r : TerminalSessionRow)
    (xs : list (string * TerminalFrame)) (y0 y : station (R := R) (D := D)) :
  at_rest y0 -> tw_sessions (sn_world y0) !! sid = Some r -> tw_commands (sn_world y0) !! c = None ->
  watched idle c sid fates xs y0 y -> sn_queues y !! sid = None ->
  let s := rowToSession (sid, r) in
  (exists h, h `sublist_of` omap (delivered_by (se_budId r) c) xs /\
     (~ lossy fates -> h = omap (delivered_by (se_budId r) c) xs) /\
     tw_commands (sn_world y) !! c = history_row s h) /\
  (forall e f h, one_run e f -> Forall (fun d => d = CommandStarted e \/ d = CommandFinished f) h ->
     CommandFinished f ∈ h -> history_row s h = Some (complete_row s e f)) /\
  (forall now o, job_step Runs now (getLatestCommandForSession sid) (sn_world y) = (sn_world y, Ret o) ->
     latest_of (sn_world y) sid o).
Proof.
  intros (Hw & Hq & Hc) Hr Hnone Hrun Hempty s.
  destruct (watched_watching idle c sid fates s eq_refl xs y0 y) as (_ & _ & _ & fs & h & [Ht1 Ht2] & Hp);
    [|done|].
  - split; [done|]. split; [intros i ps _; by rewrite Hq|]. rewrite Hc. split; [constructor|].
    exists [], []. split; [by split|]. left. rewrite Hq. split_and!; [done..|].
    unfold at_history, view_of. by rewrite Hr, Hnone.
  - split_and!; [| |intros now o; apply latest_answer].
    + destruct Hp as [(-> & _ & Hh)|(x & rest & p & _ & ? & _)]; [|congruence].
      exists h. split_and!; [done..|]. unfold at_history, view_of in Hh. congruence.
    + intros e f k H1' H2' H3'. rewrite (one_run_row s e f k H1' H2').
      by rewrite bool_decide_eq_true_2.
Qed.
End claims.

(** ** Runs *)

Module Terminal.
(** A router whose carriers take every frame. *)
#[export] Instance line : DaemonTransportRouter (list (string * frame)) := {
  getActiveBudIds := fun _ => ["bud-a"; "bud-b"];
  isBudOnline := fun _ _ => true;
  sendFrameToBud := fun bud f s => (Some true, s ++ [(bud, f)]);
  getTransportStatus := fun _ _ => mkStatus true "websocket"
}.
#[export] Instance ids : SessionIds := pretty.

Definition idle : IdleConfig := mkIdle 30 0.
Notation desk := (station (R := list (string * frame)) (D := OutputDb)).

Definition on_head (sid : string) (o : fate) (now : Z) (y : desk) : desk :=
  match sn_queues y !! sid with
  | Some (p :: rest) =>
      if ended p then
        mkStation (sn_world y) (if bool_decide (rest = []) then delete sid (sn_queues y)
                                else <[sid := rest]> (sn_queues y)) (sn_calls y)
      else let x := job_step o now p (sn_world y) in
           mkStation x.1 (<[sid := x.2 :: rest]> (sn_queues y)) (sn_calls y)
  | _ => y
  end.

(** The queue of a session runs for as many nodes as there are times. *)
Definition work (sid : string) (times : list Z) (y : desk) : desk :=
  foldl (fun y now => on_head sid Runs now y) y times.

(** The calls take nodes in the order of the schedule. *)
Definition on_call (now : Z) (i : nat) (y : desk) : desk :=
  match sn_calls y !! i with
  | Some p => let x := job_step Runs now p (sn_world y) in
      mkStation x.1 (sn_queues y) (take i (sn_calls y) ++ x.2 :: drop (S i) (sn_calls y))
  | None => y
  end.
Definition turns (now : Z) (schedule : list nat) (y : desk) : desk :=
  foldl (fun y i => on_call now i y) y schedule.

Lemma on_head_node sid now y y' :
  on_head sid Runs now y = y' -> y' = y \/ station_node (fun o => o = Runs) y y'.
Proof.
  intros <-. unfold on_head. destruct (sn_queues y !! sid) as [[|p rest]|] eqn:E; auto.
  right. destruct (ended p) eqn:Ep; [by eapply node_next|].
  destruct (job_step _ _ _ _) as [w' p'] eqn:Ej. by eapply node_queue.
Qed.

Lemma watched_work c sid xs (y0 y : desk) times :
  watched idle c sid (fun o => o = Runs) xs y0 y ->
  watched idle c sid (fun o => o = Runs) xs y0 (work sid times y).
Proof.
  unfold work. revert y. induction times as [|now times IH]; intros y Hy; [done|]. cbn. apply IH.
  destruct (on_head_node sid now y _ eq_refl) as [->|N]; [done|]. by eapply watched_node.
Qed.

Definition session_of (bud thread : string) : TerminalSessionRow :=
  set_state "active" (new_session thread bud (Some "ada") 0).

Definition desk_world : tw (list (string * frame)) OutputDb :=
  mkTw {["s1" := session_of "bud-a" "t1"; "s2" := session_of "bud-b" "t2"]} ∅ [] ∅ ∅ ∅ []
    (mkDb ∅ ∅) 0 [].
Definition desk0 : desk := mkStation desk_world ∅ [].

Lemma desk_rows i r :
  tw_sessions desk_world !! i = Some r ->
  (i = "s1" /\ r = session_of "bud-a" "t1") \/ (i = "s2" /\ r = session_of "bud-b" "t2").
Proof.
  cbn. intros [[<- <-]|[_ [<- <-]%lookup_singleton_Some]]%lookup_insert_Some; auto.
Qed.

Lemma desk_rest : at_rest desk0.
Proof.
  split; [|done]. split; [| |by intros ?..].
  - intros t i j r s [[-> ->]|[-> ->]]%desk_rows [[-> ->]|[-> ->]]%desk_rows; try done;
      unfold open_in; cbn; intros [E1%bool_decide_eq_true _]%andb_true_iff
        [E2%bool_decide_eq_true _]%andb_true_iff; congruence.
  - intros i r [[-> ->]|[-> ->]]%desk_rows; done.
Qed.

Definition started : TerminalFrame :=
  EventFrame "command_started" [("command_id", JStr "c1"); ("output_byte_start", number 16)] 1000.
Definition finished : TerminalFrame :=
  EventFrame "command_finished" [("command_id", JStr "c1"); ("exit_code", number 1);
    ("duration_ms", number 500); ("output_byte_start", number 16); ("output_byte_end", number 64)] 1500.

Definition frames : list (string * TerminalFrame) :=
  [("bud-a", finished); ("bud-b", started); ("bud-a", started); ("bud-a", finished)].

Definition arrived (y : desk) : desk :=
  foldl (fun y x => enqueueSessionIngest "s1" (handle x.1 "s1" x.2) y) y frames.
Definition desk1 : desk := work "s1" (replicate 24 2000) (arrived desk0).

Lemma desk1_watched : watched idle "c1" "s1" (fun o => o = Runs) frames desk0 desk1.
Proof.
  apply watched_work. unfold arrived, frames. cbn [foldl fst snd].
  apply (watched_frame _ _ _ _ _ _ [_; _; _]), (watched_frame _ _ _ _ _ _ [_; _]),
    (watched_frame _ _ _ _ _ _ [_]), (watched_frame _ _ _ _ _ _ []), watched_none.
Qed.

Definition closed_row : TerminalCommandRecord :=
  mkCommand "s1" (Some "t1") "bud-a" (Some "ada") None 1000 (Some 1500) (Some 1) 16 (Some 64).

(** The finish came first and twice, another Bud interfered: the row is complete. *)
Lemma command_history_witness :
  sn_queues desk1 !! "s1" = None /\ tw_commands (sn_world desk1) !! "c1" = Some closed_row /\
  exists h, tw_commands (sn_world desk1) !! "c1"
    = history_row (rowToSession ("s1", session_of "bud-a" "t1")) h /\
    h = omap (delivered_by "bud-a" "c1") frames.
Proof.
  split; [vm_compute; reflexivity|]. split; [vm_compute; reflexivity|].
  destruct (command_history idle "c1" "s1" (fun o => o = Runs) (session_of "bud-a" "t1") frames
    desk0 desk1 desk_rest eq_refl eq_refl desk1_watched eq_refl) as [(h & _ & Hall & Hrow) _].
  exists h. split; [exact Hrow|]. apply Hall. intros [Hl|Hl]; discriminate Hl.
Defined.

(** Two calls for the record of one thread, interleaved: one session. *)
Definition desk2 : desk :=
  turns 5 [0; 1; 0; 1; 0; 1; 1]%nat
    (receive_call idle (EnsureRecord "t3" "bud-b" None)
       (receive_call idle (EnsureRecord "t3" "bud-a" (Some "ada")) desk0)).

Lemma turns_steps now schedule (y0 y : desk) :
  station_steps idle y0 y -> station_steps idle y0 (turns now schedule y).
Proof.
  unfold turns. revert y. induction schedule as [|i schedule IH]; intros y Hy; [done|]. cbn.
  apply IH. unfold on_call. destruct (sn_calls y !! i) as [p|] eqn:E; [|done].
  eapply steps_more; [exact Hy|]. apply step_node. destruct (job_step _ _ _ _) as [w' p'] eqn:Ej.
  eapply node_call; [|done|exact Ej]. by rewrite take_drop_middle.
Qed.

Lemma desk2_steps : station_steps idle desk0 desk2.
Proof. apply turns_steps. eapply steps_more; [eapply steps_more; [constructor|]|]; apply step_call. Qed.

Lemma sessions_sound_witness :
  sound (sn_world desk2) /\ size (tw_sessions (sn_world desk2)) = 3%nat /\
  job_step Runs 6 (handle "bud-b" "s1" finished) (sn_world desk2) = (sn_world desk2, Ret tt).
Proof.
  destruct (sessions_sound idle desk0 desk2 desk_rest desk2_steps) as (Hs & _ & Hf & _).
  split; [exact Hs|]. split; [vm_compute; reflexivity|]. apply Hf. intros r Hr.
  vm_compute in Hr. injection Hr as <-. discriminate.
Defined.

(** *** What can go wrong *)

(** A Bud finishes the command of another Bud's session: the update asks for the command
    id only. *)
Definition forged : TerminalFrame :=
  EventFrame "command_finished" [("command_id", JStr "c1"); ("exit_code", number 137)] 9000.
Example foreign_finish_overwrites :
  tw_commands (sn_world (work "s2" (replicate 6 9000)
    (enqueueSessionIngest "s2" (handle "bud-b" "s2" forged) desk1))) !! "c1"
  = Some (mkCommand "s1" (Some "t1") "bud-a" (Some "ada") None 1000 (Some 9000) (Some 137) 16 None).
Proof. vm_compute. reflexivity. Qed.

(** The last viewer leaves and another joins while the session is looked up: the frames
    go out in the order of the answers, the grid is off and a viewer waits. *)
Definition sent_watches (y : desk) : list jsval :=
  (fun x => field_lookup "enabled" x.2) <$> tw_router (sn_world y).
Definition desk3 : desk :=
  turns 7 [0; 0; 0; 1; 2; 2; 2; 1; 1]%nat
    (receive_call idle (AddGridViewer "s1") (receive_call idle (RemoveGridViewer "s1")
       (receive_call idle (AddGridViewer "s1") desk0))).
Example watch_left_off :
  sent_watches desk3 = [JBool true; JBool true; JBool false] /\
  hasGridViewers "s1" (sn_world desk3) = true.
Proof. vm_compute. done. Qed.

(** A status that was on its way when the session was closed makes the closed session
    ready: asking for it answers that it runs. *)
Definition desk4 : desk :=
  work "s1" (replicate 4 30) (enqueueSessionIngest "s1" (handle "bud-a" "s1" (StatusFrame "ready" None))
    (turns 20 [0; 0; 0; 0]%nat (receive_call idle (CloseSession "s1" "requested") desk0))).
Example closed_session_ready :
  (fun r => (se_state r, se_closedAt r)) <$> tw_sessions (sn_world desk4) !! "s1"
  = Some ("ready", Some 20) /\
  sn_calls (turns 40 [0; 0; 0; 0]%nat (mkStation (sn_world desk4) ∅
      [r ← ensureSession "s1"; if en_ok r && en_resumed r
                               then mret tt else Throw "no"]))
  = [Ret tt].
Proof. vm_compute. done. Qed.
End Terminal.
