(* ===== verification/FilePaths.v ===== *)
(** The names and ranges a file request may carry
    ([service/src/files/file-session.ts], [parseSingleRange] of
    [files/file-edge.ts]): the root, the root-relative path, the path and
    position a viewer clicked, the permissions, the byte range.

    A string is kept in UTF-8; the characters the patterns name are ASCII, so
    that reading bytes for code units finds the same matches. *)
From Stdlib Require Import ZArith QArith Qround Lia.
From stdpp Require Import base tactics strings option pretty.
From stdpp Require Import list.
From S2P Require Import Prelude JsRuntime Json JsText.
Open Scope Z_scope.

(** ** What a check answers *)

(** [FileSessionValidationError] is thrown, or a value returned. *)
Inductive checked (A : Type) :=
  | Valid (a : A)
  | Invalid (code message : string).
Arguments Valid {A}.
Arguments Invalid {A}.

#[export] Instance checked_mret : MRet checked := fun A => Valid.
#[export] Instance checked_mbind : MBind checked :=
  fun A B k c => match c with Valid a => k a | Invalid e m => Invalid e m end.

(** ** Roots and permissions *)

Definition DEFAULT_FILE_ROOT_KEY : string := "workspace".
Definition FILE_SESSION_ROOT_KEYS : list string := ["workspace"].
Definition FILE_SESSION_PERMISSIONS : list string := ["stat"; "read"; "range"].

Definition normalizeFileRootKey (rootKey : string) : checked string :=
  let normalized := trim rootKey in
  if bool_decide (normalized ∈ FILE_SESSION_ROOT_KEYS) then Valid normalized
  else Invalid "unsupported_file_root" "Only the workspace file root is allowed in this phase".

(** The loop over the requested permissions. *)
Fixpoint collect_permissions (requested normalized : list string) : checked (list string) :=
  match requested with
  | [] => Valid normalized
  | permission :: requested =>
      let value := toLowerCase (trim permission) in
      if bool_decide (value ∈ FILE_SESSION_PERMISSIONS) then
        collect_permissions requested
          (if bool_decide (value ∈ normalized) then normalized else normalized ++ [value])
      else Invalid "unsupported_file_permission"
             ("File permission " +:+ permission +:+ " is not allowed")
  end.

Definition normalizeFileSessionPermissions (permissions : option (list string))
  : checked (list string) :=
  let requested := match permissions with
                   | Some (p :: ps) => p :: ps | _ => FILE_SESSION_PERMISSIONS end in
  normalized ← collect_permissions requested [];
  if bool_decide (normalized = []) then
    Invalid "empty_file_permissions" "At least one file permission must be allowed"
  else
    let normalized := if bool_decide ("range" ∈ normalized) && negb (bool_decide ("read" ∈ normalized))
                      then normalized ++ ["read"] else normalized in
    let normalized := if (bool_decide ("read" ∈ normalized) || bool_decide ("range" ∈ normalized))
                         && negb (bool_decide ("stat" ∈ normalized))
                      then normalized ++ ["stat"] else normalized in
    Valid normalized.

(** ** Root-relative paths *)

(** [s.split(c)] for a separator of one character. *)
Fixpoint split_on (c : Ascii.ascii) (s : string) : list string :=
  match s with
  | EmptyString => [""]
  | String x s =>
      if Ascii.eqb x c then "" :: split_on c s
      else match split_on c s with p :: ps => String x p :: ps | [] => [String x ""] end
  end.

Definition SLASH : Ascii.ascii := Ascii.ascii_of_N 47.
Definition COLON : Ascii.ascii := Ascii.ascii_of_N 58.
Definition NUL : string := String (Ascii.ascii_of_N 0) "".
Definition BACKSLASH : string := String bslash "".

Definition letter (c : Ascii.ascii) : bool := within 65 90 c || within 97 122 c.
Definition digit (c : Ascii.ascii) : bool := within 48 57 c.

(** [/^[a-zA-Z]:/]. *)
Definition drive_prefix (s : string) : bool :=
  match s with String a (String b _) => letter a && Ascii.eqb b COLON | _ => false end.

(** The loop over the parts. *)
Fixpoint keep_parts (parts : list string) : checked (list string) :=
  match parts with
  | [] => Valid []
  | part :: parts =>
      if negb (str_truthy part) || bool_decide (part = ".") then keep_parts parts
      else if bool_decide (part = "..") then
        Invalid "file_path_traversal" "File path must not contain parent-directory segments"
      else kept ← keep_parts parts; Valid (part :: kept)
  end.

Definition normalizeFileRelativePath (input : string) : checked string :=
  let trimmed := trim input in
  if negb (str_truthy trimmed) then Invalid "empty_file_path" "File path must not be empty"
  else if includes NUL trimmed then
    Invalid "invalid_file_path" "File path must not contain NUL bytes"
  else if starts_with "/" trimmed || starts_with "~" trimmed then
    Invalid "absolute_file_path" "File path must be root-relative"
  else if drive_prefix trimmed || includes BACKSLASH trimmed then
    Invalid "invalid_file_path" "File path must use POSIX-style relative separators"
  else
    parts ← keep_parts (split_on SLASH trimmed);
    if bool_decide (parts = []) then Invalid "empty_file_path" "File path must not be empty"
    else Valid (join "/" parts).

(** ** Positions in a file *)

(** The longest prefix of digits, and the rest. *)
Fixpoint span_digits (s : string) : string * string :=
  match s with
  | String c r => if digit c then let '(ds, r) := span_digits r in (String c ds, r) else ("", s)
  | EmptyString => ("", "")
  end.

(** The number a text of digits stands for. *)
Fixpoint decimal (acc : Z) (s : string) : Z :=
  match s with
  | EmptyString => acc
  | String c s => decimal (10 * acc + (Z.of_N (code c) - 48)) s
  end.

(** [/^\d+$/]. *)
Definition all_digits (s : string) : bool := str_truthy s && str_forall digit s.

Definition positive_message (label : string) : string :=
  "File " +:+ label +:+ " must be a positive integer".

(** [Number.isSafeInteger]: the integer, if it is one. *)
Definition safe_whole (n : jsnum) : option Z :=
  match n with
  | JFin q =>
      z ← as_integer q; if Z.abs z <=? MAX_SAFE_INTEGER then Some z else None
  | _ => None
  end.

Definition validatePositiveInteger (value : jsnum) (label : string) : checked Z :=
  match safe_whole value with
  | Some z => if z <? 1 then Invalid "invalid_file_path" (positive_message label) else Valid z
  | None => Invalid "invalid_file_path" (positive_message label)
  end.

(** [Number(digits)]; the integers past the largest double, which it makes
    infinite, are not safe either. *)
Definition number_of_digits (s : string) : jsnum :=
  JFin (inject_Z (number_of_bigint (decimal 0 s))).

Definition parsePositiveInteger (value label : string) : checked Z :=
  if negb (all_digits value) then Invalid "invalid_file_path" (positive_message label)
  else validatePositiveInteger (number_of_digits value) label.

(** What [.] does not match: line feed, carriage return, U+2028, U+2029. *)
Definition LINE_TERMINATORS : list string :=
  bytes_string <$> [[10]; [13]; [226; 128; 168]; [226; 128; 169]]%N.
Definition at_terminator (s : string) : bool := existsb (fun t => starts_with t s) LINE_TERMINATORS.
Fixpoint one_line (s : string) : bool :=
  match s with EmptyString => true | String _ r => negb (at_terminator s) && one_line r end.

(** [(?:-L?\d+)?$]. *)
Definition range_end (s : string) : bool :=
  match s with
  | EmptyString => true
  | String d r =>
      let r := match r with String l r' => if (code (lower_char l) =? 108)%N then r' else r | _ => r end in
      let '(ds, rest) := span_digits r in
      (code d =? 45)%N && str_truthy ds && negb (str_truthy rest)
  end.

(** [#L(?<line>\d+)(?:-L?\d+)?$], in either case. *)
Definition hash_suffix (s : string) : option string :=
  match s with
  | String h (String l r) =>
      let '(ds, rest) := span_digits r in
      if (code h =? 35)%N && (code (lower_char l) =? 108)%N && str_truthy ds && range_end rest
      then Some ds else None
  | _ => None
  end.

(** [(?<path>.+?)] before it: the shortest path. *)
Fixpoint hash_line (some : bool) (s : string) : option (string * string) :=
  match (if some then hash_suffix s else None) with
  | Some line => Some ("", line)
  | None =>
      match s with
      | EmptyString => None
      | String c r =>
          if at_terminator s then None
          else (fun pl : string * string => (String c pl.1, pl.2)) <$> hash_line true r
      end
  end.

(** Before and after the last [c]. *)
Fixpoint split_last (c : Ascii.ascii) (s : string) : option (string * string) :=
  match s with
  | EmptyString => None
  | String x r =>
      match split_last c r with
      | Some (a, b) => Some (String x a, b)
      | None => if Ascii.eqb x c then Some ("", r) else None
      end
  end.

(** [/^(?<path>.+):(?<line>\d+)$/]. *)
Definition colon_line (s : string) : option (string * string) :=
  '(path, line) ← split_last COLON s;
  if str_truthy path && one_line path && all_digits line then Some (path, line) else None.

(** [/^(?<path>.+):(?<line>\d+):(?<column>\d+)$/]. *)
Definition colon_line_column (s : string) : option (string * string * string) :=
  '(rest, column) ← colon_line s;
  '(path, line) ← colon_line rest;
  Some (path, line, column).

(** The scheme characters of [/^[a-zA-Z][a-zA-Z0-9+.-]*:\/\//] after the first. *)
Definition scheme_char (c : Ascii.ascii) : bool :=
  letter c || digit c || (code c =? 43)%N || (code c =? 46)%N || (code c =? 45)%N.
Fixpoint scheme_rest (s : string) : bool :=
  starts_with "://" s
  || match s with String c r => scheme_char c && scheme_rest r | EmptyString => false end.
Definition url_scheme (s : string) : bool :=
  match s with String c r => letter c && scheme_rest r | EmptyString => false end.

(** [/^[a-zA-Z]:([/\\]|$)/]. *)
Definition drive_path (s : string) : bool :=
  drive_prefix s
  && match s with
     | String _ (String _ (String c _)) => Ascii.eqb c SLASH || Ascii.eqb c bslash
     | _ => true
     end.

Fixpoint ends_with_char (c : Ascii.ascii) (s : string) : bool :=
  match s with
  | EmptyString => false
  | String x EmptyString => Ascii.eqb x c
  | String _ r => ends_with_char c r
  end.

(** The path and the position its text carries. *)
Definition parsed_location (rawPath : string) : checked (string * option Z * option Z) :=
  match hash_line false rawPath with
  | Some (path, line) => l ← parsePositiveInteger line "line"; Valid (path, Some l, None)
  | None =>
      match colon_line_column rawPath with
      | Some (path, line, column) =>
          l ← parsePositiveInteger line "line";
          c ← parsePositiveInteger column "column";
          Valid (path, Some l, Some c)
      | None =>
          match colon_line rawPath with
          | Some (path, line) => l ← parsePositiveInteger line "line"; Valid (path, Some l, None)
          | None => Valid (rawPath, None, None)
          end
      end
  end.

(** A position of the request, if it has one. *)
Definition explicit_position (value : option jsnum) (label : string) : checked (option Z) :=
  match value with
  | Some v => z ← validatePositiveInteger v label; Valid (Some z)
  | None => Valid None
  end.

Inductive ParsedViewerFilePath :=
  | RelativePath (rawPath relativePath : string) (line column : option Z)
  | AbsolutePosix (rawPath requestedPath : string) (line column : option Z).

Definition or_else {A} (a b : option A) : option A := match a with Some _ => a | None => b end.

Definition parseViewerFilePath (input : string) (line column : option jsnum)
  : checked ParsedViewerFilePath :=
  let rawPath := trim input in
  if negb (str_truthy rawPath) then Invalid "empty_file_path" "File path must not be empty"
  else if includes NUL rawPath then
    Invalid "invalid_file_path" "File path must not contain NUL bytes"
  else if url_scheme rawPath || starts_with "mailto:" (toLowerCase rawPath) then
    Invalid "invalid_file_path" "URLs are not supported file paths"
  else if drive_path rawPath then
    Invalid "invalid_file_path" "File path must use POSIX-style relative separators"
  else
    '(candidatePath, parsedLine, parsedColumn) ← parsed_location rawPath;
    if ends_with_char SLASH (trim candidatePath) then
      Invalid "invalid_file_path" "Directory paths are not supported"
    else
      explicitLine ← explicit_position line "line";
      explicitColumn ← explicit_position column "column";
      let line := or_else explicitLine parsedLine in
      let column := or_else explicitColumn parsedColumn in
      if starts_with "/" candidatePath then Valid (AbsolutePosix rawPath candidatePath line column)
      else
        relativePath ← normalizeFileRelativePath candidatePath;
        Valid (RelativePath rawPath relativePath line column).

(** ** Byte ranges *)

Record FileRange := mkRange {
  rangeStart : option Z;
  rangeEnd : option Z;
  rangeSuffixBytes : option Z;
}.
Definition whole_file : FileRange := mkRange None None None.

Definition parseSafeInteger (value : string) : option Z :=
  if all_digits value then safe_whole (number_of_digits value) else None.

(** [bytes=], digits, [-], digits, and nothing after; either may be missing. *)
Definition match_range (s : string) : option (string * string) :=
  rest ← strip_prefix "bytes=" s;
  let '(startText, rest) := span_digits rest in
  rest ← strip_prefix "-" rest;
  let '(endText, rest) := span_digits rest in
  if str_truthy rest then None else Some (startText, endText).

(** The message of a refusal, or the range. *)
Definition parseSingleRange (value : jsval) : string + FileRange :=
  match as_string value with
  | None | Some EmptyString => inl "Range header is required for range file reads"
  | Some value =>
      if includes "," value then inl "Multiple byte ranges are not supported"
      else
        match match_range (trim value) with
        | None => inl "Range must use a single bytes=start-end form"
        | Some (startText, endText) =>
            if negb (str_truthy startText) && negb (str_truthy endText) then
              inl "Range must include a start, end, or suffix length"
            else if negb (str_truthy startText) then
              match parseSafeInteger endText with
              | Some suffix =>
                  if suffix <=? 0 then inl "Suffix byte range must be a positive integer"
                  else inr (mkRange None None (Some suffix))
              | None => inl "Suffix byte range must be a positive integer"
              end
            else
              let end_ := if str_truthy endText then parseSafeInteger endText else None in
              match parseSafeInteger startText with
              | None => inl "Range offsets must be safe non-negative integers"
              | Some start =>
                  if (start <? 0)
                     || (str_truthy endText
                         && match end_ with None => true | Some e => e <? 0 end)
                  then inl "Range offsets must be safe non-negative integers"
                  else if match end_ with Some e => e <? start | None => false end then
                    inl "Range end must be greater than or equal to range start"
                  else inr (mkRange (Some start) end_ None)
              end
        end
  end.
