(* ===== verification/FilePathProps.v ===== *)
(** The paths and ranges of file requests: what the checks let through stays
    under the root, a position written after a path is the one read back, and a
    byte range is the one the header names. *)
From Stdlib Require Import Ascii ZArith QArith Qround Lia.
From stdpp Require Import base tactics strings option pretty sets gmap.
From stdpp Require Import list.
From S2P Require Import Prelude JsRuntime Json JsText FilePaths.
Open Scope Z_scope.

(** ** Characters of a text *)

(** No character of [s] is [c]. *)
Definition without (c : Ascii.ascii) (s : string) : bool := str_forall (fun x => negb (Ascii.eqb x c)) s.

Lemma str_forall_app p a b : str_forall p (a +:+ b) = str_forall p a && str_forall p b.
Proof. induction a as [|c a IH]; [done|]. str_simpl. cbn. by rewrite IH, andb_assoc. Qed.

Lemma starts_with_char c s :
  starts_with (String c "") s = match s with String x _ => Ascii.eqb x c | EmptyString => false end.
Proof.
  unfold starts_with. destruct s as [|x s]; [done|]. cbn.
  destruct (Ascii.ascii_dec c x) as [->|H]; [by rewrite Ascii.eqb_refl; destruct s|].
  symmetry. apply Ascii.eqb_neq. congruence.
Qed.

Lemma includes_char c s : includes (String c "") s = negb (without c s).
Proof.
  induction s as [|x s IH]; [done|]. cbn [includes]. rewrite starts_with_char, IH.
  unfold without. cbn [str_forall]. by destruct (Ascii.eqb x c).
Qed.

Lemma starts_with_app p s : starts_with p (p +:+ s) = true.
Proof.
  unfold starts_with. induction p as [|c p IH]; [by destruct s|]. str_simpl. cbn.
  by destruct (Ascii.ascii_dec c c).
Qed.

(** ** Splitting and joining *)

Lemma split_on_nonempty c s : split_on c s <> [].
Proof. destruct s as [|x s]; [done|]. cbn. case_match; [done|]. by case_match. Qed.

Lemma split_on_parts p c s :
  str_forall p s = true -> Forall (fun part => str_forall p part = true) (split_on c s).
Proof.
  induction s as [|x s IH]; cbn; [by repeat constructor|]. intros [Hx Hs]%andb_prop.
  specialize (IH Hs). case_match; [by constructor|].
  destruct (split_on c s) as [|q qs]; [by repeat constructor; cbn; rewrite Hx|].
  inversion_clear IH as [|? ? Hq Hqs]. constructor; [|done]. cbn. by rewrite Hx.
Qed.

Lemma split_on_without c s : Forall (fun part => without c part = true) (split_on c s).
Proof.
  induction s as [|x s IH]; cbn; [by repeat constructor|].
  case_match eqn:E; [by constructor|].
  destruct (split_on c s) as [|q qs]; [repeat constructor; unfold without; cbn; by rewrite E|].
  inversion_clear IH as [|? ? Hq Hqs]. constructor; [|done]. unfold without in *. cbn. by rewrite E.
Qed.

Lemma split_on_app c a s : without c a = true ->
  split_on c (a +:+ String c s) = a :: split_on c s.
Proof.
  unfold without. induction a as [|x a IH]; str_simpl; cbn; [by rewrite Ascii.eqb_refl|].
  intros [Hx Ha]%andb_prop. apply negb_true_iff in Hx. rewrite Hx.
  specialize (IH Ha). str_simpl. by rewrite IH.
Qed.

Lemma split_on_one c a : without c a = true -> split_on c a = [a].
Proof.
  unfold without. induction a as [|x a IH]; cbn; [done|].
  intros [Hx Ha]%andb_prop. apply negb_true_iff in Hx. by rewrite Hx, (IH Ha).
Qed.

Lemma split_join ps : ps <> [] -> Forall (fun p => without SLASH p = true) ps ->
  split_on SLASH (join "/" ps) = ps.
Proof.
  intros Hne Hps. induction Hps as [|p ps Hp Hps IH]; [done|].
  destruct ps as [|q ps]; [cbn; by apply split_on_one|].
  rewrite join_cons. change ("/" +:+ join "/" (q :: ps)) with (String SLASH (join "/" (q :: ps))).
  rewrite split_on_app by done. by rewrite IH.
Qed.

Lemma join_forall p sep ps :
  str_forall p sep = true -> Forall (fun x => str_forall p x = true) ps ->
  str_forall p (join sep ps) = true.
Proof.
  intros Hsep Hps. induction Hps as [|x ps Hx Hps IH]; [done|].
  destruct ps as [|y ps]; [done|]. rewrite join_cons, !str_forall_app. by rewrite Hx, Hsep, IH.
Qed.

(** ** The kept parts *)

(** A part that names an entry of its directory. *)
Definition is_name (part : string) : bool :=
  str_truthy part && negb (bool_decide (part = ".")).
Definition names (parts : list string) : list string := List.filter is_name parts.

(** Where a chain of parts leads from a directory: [""] and ["."] stay, [".."]
    goes up. *)
Definition enter (dir : list string) (part : string) : list string :=
  if negb (is_name part) then dir
  else if bool_decide (part = "..") then removelast dir else dir ++ [part].
Definition resolve (dir parts : list string) : list string := foldl enter dir parts.

Lemma keep_parts_spec parts :
  keep_parts parts =
    if bool_decide (".." ∈ parts) then
      Invalid "file_path_traversal" "File path must not contain parent-directory segments"
    else Valid (names parts).
Proof.
  induction parts as [|part parts IH]; [done|]. cbn [keep_parts names List.filter].
  unfold is_name at 1. rewrite IH.
  destruct (str_truthy part) eqn:Ep; cbn [negb orb andb].
  2: { destruct part; [|done]. repeat case_bool_decide; set_solver. }
  destruct (bool_decide_reflect (part = ".")) as [->|Hdot]; cbn [negb].
  1: repeat case_bool_decide; set_solver.
  destruct (bool_decide_reflect (part = "..")) as [->|Hup]; [by rewrite bool_decide_true by set_solver|].
  cbn [mbind checked_mbind]. repeat case_bool_decide; set_solver.
Qed.

Lemma resolve_names dir parts : ".." ∉ parts -> resolve dir parts = dir ++ names parts.
Proof.
  revert dir. induction parts as [|part parts IH]; intros dir Hup; [by rewrite app_nil_r|].
  cbn [resolve foldl names List.filter]. unfold enter at 2.
  destruct (is_name part); cbn [negb]; [|apply IH; set_solver].
  rewrite bool_decide_false by set_solver. fold (resolve (dir ++ [part]) parts).
  rewrite IH by set_solver. by rewrite <- app_assoc.
Qed.

Lemma names_all parts : Forall (fun p => is_name p = true) (names parts).
Proof. apply List.Forall_forall. intros p Hp. by apply List.filter_In in Hp as [_ ?]. Qed.

Lemma names_idem parts : Forall (fun p => is_name p = true) parts -> names parts = parts.
Proof. induction 1 as [|p ps Hp Hps IH]; [done|]. cbn. rewrite Hp. by f_equal. Qed.

Lemma names_Forall (P : string -> Prop) parts : Forall P parts -> Forall P (names parts).
Proof. induction 1; cbn; [done|]. case_match; [by constructor|done]. Qed.

Lemma names_elem x parts : x ∈ names parts -> x ∈ parts.
Proof. rewrite !list_elem_of_In. intros Hx. by apply List.filter_In in Hx as [? _]. Qed.

(** ** Root-relative paths *)

(** Why a path is refused. *)
Definition refused (code trimmed : string) : Prop :=
  (code = "empty_file_path" /\ names (split_on SLASH trimmed) = [])
  \/ (code = "invalid_file_path"
      /\ (without (Ascii.ascii_of_N 0) trimmed = false \/ drive_prefix trimmed = true
          \/ without bslash trimmed = false))
  \/ (code = "absolute_file_path"
      /\ (starts_with "/" trimmed = true \/ starts_with "~" trimmed = true))
  \/ (code = "file_path_traversal" /\ ".." ∈ split_on SLASH trimmed).

(** What the checks before the loop establish. *)
Definition screened (trimmed : string) : Prop :=
  without (Ascii.ascii_of_N 0) trimmed = true /\ without bslash trimmed = true
  /\ starts_with "/" trimmed = false /\ starts_with "~" trimmed = false
  /\ drive_prefix trimmed = false.

Lemma normalize_spec input :
  match normalizeFileRelativePath input with
  | Valid p =>
      screened (trim input) /\ ".." ∉ split_on SLASH (trim input)
      /\ names (split_on SLASH (trim input)) <> []
      /\ p = join "/" (names (split_on SLASH (trim input)))
  | Invalid code _ => refused code (trim input)
  end.
Proof.
  unfold normalizeFileRelativePath, refused, screened. rewrite keep_parts_spec. set (t := trim input).
  unfold NUL, BACKSLASH. rewrite !includes_char.
  destruct (str_truthy t) eqn:Et; cbn [negb]; [|by destruct t; [left|]].
  destruct (without (Ascii.ascii_of_N 0) t) eqn:E0; cbn [negb]; [|by eauto 6].
  destruct (starts_with "/" t) eqn:E1; cbn [orb]; [by eauto 8|].
  destruct (starts_with "~" t) eqn:E2; [by eauto 8|].
  destruct (drive_prefix t) eqn:E3; cbn [orb]; [by eauto 8|].
  destruct (without bslash t) eqn:E4; cbn [negb]; [|by eauto 8].
  case_bool_decide; cbn [mbind checked_mbind]; [by eauto 8|].
  case_bool_decide as E5; [by eauto 8|done].
Qed.

Lemma normalize_accepts trimmed :
  trim trimmed = trimmed -> screened trimmed -> ".." ∉ split_on SLASH trimmed ->
  names (split_on SLASH trimmed) <> [] ->
  normalizeFileRelativePath trimmed = Valid (join "/" (names (split_on SLASH trimmed))).
Proof.
  intros Ht (H0 & H4 & H1 & H2 & H3) Hup Hne. pose proof (normalize_spec trimmed) as Hs.
  destruct (normalizeFileRelativePath trimmed) as [p|code m]; rewrite Ht in Hs.
  - destruct Hs as (_ & _ & _ & ->). done.
  - unfold refused in Hs. rewrite H0, H4, H1, H2, H3 in Hs. naive_solver.
Qed.

Lemma screened_join parts :
  Forall (fun p => without (Ascii.ascii_of_N 0) p = true /\ without bslash p = true) parts ->
  without (Ascii.ascii_of_N 0) (join "/" parts) = true /\ without bslash (join "/" parts) = true.
Proof.
  intros H. split; (apply join_forall; [done|]; eapply Forall_impl; [exact H|]; naive_solver).
Qed.

Lemma join_relative p ps : is_name p = true -> without SLASH p = true ->
  starts_with "/" (join "/" (p :: ps)) = false.
Proof.
  unfold is_name, without. intros Hn Hw. rewrite starts_with_char.
  destruct p as [|c p]; [done|]. cbn in Hw. apply andb_prop in Hw as [Hc _].
  apply negb_true_iff in Hc. destruct ps; [done|]. rewrite join_cons. by str_simpl.
Qed.

(** A root-relative path of names. *)
Definition confined (p : string) : Prop :=
  p <> ""
  /\ Forall (fun part => part <> "" /\ part <> "." /\ part <> "..") (split_on SLASH p)
  /\ without (Ascii.ascii_of_N 0) p = true /\ without bslash p = true
  /\ starts_with "/" p = false.

Lemma normalize_names input p : normalizeFileRelativePath input = Valid p ->
  split_on SLASH p = names (split_on SLASH (trim input))
  /\ ".." ∉ split_on SLASH (trim input) /\ confined p.
Proof.
  intros E. pose proof (normalize_spec input) as Hs. rewrite E in Hs.
  destruct Hs as ((H0 & H4 & _) & Hup & Hne & ->).
  pose proof (split_on_parts _ SLASH _ H0) as P0. pose proof (split_on_parts _ SLASH _ H4) as P4.
  pose proof (split_on_without SLASH (trim input)) as Ps.
  set (text := split_on SLASH (trim input)) in *. pose proof (names_all text) as Hall.
  assert (Hsplit : split_on SLASH (join "/" (names text)) = names text)
    by (apply split_join; [done|by apply names_Forall]).
  destruct (screened_join (names text)) as [J0 J4];
    [apply Forall_and; split; by apply names_Forall|].
  assert (Jr : starts_with "/" (join "/" (names text)) = false).
  { pose proof (names_Forall _ _ Ps) as Hw.
    destruct (names text); [done|]. inversion_clear Hall. inversion_clear Hw. by apply join_relative. }
  unfold confined. rewrite Hsplit. split_and!; try done.
  - destruct (names text) as [|n ns]; [done|]. inversion_clear Hall. intros Ej.
    destruct n; [done|]. by destruct ns.
  - apply Forall_forall. intros part Hin.
    rewrite Forall_forall in Hall. specialize (Hall _ Hin). unfold is_name in Hall. zbool.
    destruct part; [done|]. split_and!; [done| |].
    + by apply bool_decide_eq_false in H1.
    + intros Ex. rewrite Ex in Hin. by apply Hup, names_elem.
Qed.

(** C39: Whatever text a request names a file by, the path it is given is confined to the
    root: its parts are the entries the text names, in order, none of them empty, ["."] or
    [".."], without NUL or backslash; walking the text from any directory never leaves that
    directory on the way and ends where the path says; and the path is its own normal form
    unless it begins with a tilde or a drive or with white space around it.  A text is refused
    for the reason the code it is refused with says. *)
Theorem paths_confined (input : string) :
  match normalizeFileRelativePath input with
  | Valid p =>
      let text := split_on SLASH (trim input) in
      split_on SLASH p = names text /\ confined p
      /\ (forall root, resolve root text = root ++ split_on SLASH p)
      /\ (forall root k, root `prefix_of` resolve root (take k text))
      /\ (trim p = p -> starts_with "~" p = false -> drive_prefix p = false ->
           normalizeFileRelativePath p = Valid p)
  | Invalid code _ => refused code (trim input)
  end.
Proof.
  pose proof (normalize_spec input) as Hs.
  destruct (normalizeFileRelativePath input) as [p|code m] eqn:E; [|done].
  destruct (normalize_names input p E) as (Hsplit & Hup & Hc). cbn zeta.
  split_and!; [done|done| | |].
  - intros root. rewrite Hsplit. by apply resolve_names.
  - intros root k. rewrite resolve_names; [by apply prefix_app_r|].
    intros (i & Hi & _)%elem_of_take. by apply Hup, (list_elem_of_lookup_2 _ i).
  - intros Ht Htilde Hdrive. destruct Hc as (Hne & Hparts & H0 & H4 & Hr).
    pose proof (names_all (split_on SLASH (trim input))) as Hall. rewrite <- Hsplit in Hall.
    destruct Hs as (_ & _ & Hnn & Hp). rewrite <- Hsplit in Hnn, Hp.
    rewrite normalize_accepts; rewrite ?(names_idem (split_on SLASH p)) by done; try done.
    + by rewrite <- Hp.
    + rewrite Forall_forall in Hparts. intros Hin. by destruct (Hparts _ Hin) as (_ & _ & []).
Qed.

(** A path the check lets through need not be in normal form: the tilde is looked for before
    the ["."] in front of it is dropped, and white space before the parts are cut. *)
Lemma tilde_let_through :
  normalizeFileRelativePath "./~/keys" = Valid "~/keys"
  /\ normalizeFileRelativePath "~/keys"
     = Invalid "absolute_file_path" "File path must be root-relative"
  /\ normalizeFileRelativePath "./ notes" = Valid " notes"
  /\ normalizeFileRelativePath " notes" = Valid "notes".
Proof. by vm_compute. Qed.

(** ** Permissions *)

(** Permissions a session may hold: some of the three, with what they imply. *)
Definition permissions_ok (ps : list string) : Prop :=
  NoDup ps /\ ps ⊆ FILE_SESSION_PERMISSIONS /\ "stat" ∈ ps /\ ("range" ∈ ps -> "read" ∈ ps).

Lemma collect_permissions_spec requested acc ps : NoDup acc -> acc ⊆ FILE_SESSION_PERMISSIONS ->
  collect_permissions requested acc = Valid ps -> NoDup ps /\ ps ⊆ FILE_SESSION_PERMISSIONS.
Proof.
  revert acc. induction requested as [|p requested IH]; intros acc Hd Hs; cbn [collect_permissions];
    [by intros [= <-]|].
  case_bool_decide as Hp; [|done]. apply IH; case_bool_decide as Hin; try done.
  - apply NoDup_app. split_and!; [done| |by apply NoDup_singleton]. set_solver.
  - intros x [Hx|Hx]%elem_of_app; [by apply Hs|]. apply list_elem_of_singleton in Hx. by subst.
Qed.

Lemma NoDup_snoc {A} (l : list A) x : NoDup l -> x ∉ l -> NoDup (l ++ [x]).
Proof. intros Hl Hx. apply NoDup_app. split_and!; [done| |by apply NoDup_singleton]. set_solver. Qed.

Lemma permissions_sound requested ps :
  normalizeFileSessionPermissions requested = Valid ps -> permissions_ok ps.
Proof.
  unfold normalizeFileSessionPermissions.
  destruct (collect_permissions _ []) as [qs|] eqn:E; [|done].
  apply collect_permissions_spec in E as [Hd Hs]; [|by constructor|set_solver].
  cbn [mbind checked_mbind]. case_bool_decide as Hne; [done|]. intros [= <-].
  assert (Hany : "stat" ∈ qs \/ "read" ∈ qs \/ "range" ∈ qs).
  { destruct qs as [|q qs]; [done|]. assert (Hq : q ∈ FILE_SESSION_PERMISSIONS) by set_solver.
    unfold FILE_SESSION_PERMISSIONS in Hq. set_solver. }
  set (qs' := if bool_decide ("range" ∈ qs) && negb (bool_decide ("read" ∈ qs)) then qs ++ ["read"] else qs).
  assert (H' : NoDup qs' /\ qs' ⊆ FILE_SESSION_PERMISSIONS /\ ("range" ∈ qs' -> "read" ∈ qs')
               /\ ("stat" ∈ qs' \/ "read" ∈ qs' \/ "range" ∈ qs')).
  { subst qs'. unfold FILE_SESSION_PERMISSIONS in *. repeat case_bool_decide; cbn [negb andb];
      split_and!; try done; try set_solver; try (by apply NoDup_snoc). }
  destruct H' as (Hd' & Hs' & Hr & Hany'). unfold permissions_ok, FILE_SESSION_PERMISSIONS in *.
  repeat case_bool_decide; cbn [negb andb orb]; split_and!; try done; try set_solver;
    try (by apply NoDup_snoc).
Qed.

(** ** Digits *)

Lemma digit_N c : digit c = true -> (48 <= code c <= 57)%N.
Proof. unfold digit, within. intros [H1 H2]%andb_prop. apply N.leb_le in H1, H2. lia. Qed.

Lemma digits_without c s : digit c = false -> str_forall digit s = true -> without c s = true.
Proof.
  intros Hc. apply str_forall_impl. intros x Hx. apply negb_true_iff, Ascii.eqb_neq. congruence.
Qed.

Lemma all_digits_forall s : all_digits s = true -> str_forall digit s = true.
Proof. by intros [_ ?]%andb_prop. Qed.

Lemma span_digits_app ds r : str_forall digit ds = true ->
  match r with String c _ => digit c = false | EmptyString => True end ->
  span_digits (ds +:+ r) = (ds, r).
Proof.
  intros Hds Hr. induction ds as [|d ds IH].
  - rewrite str_app_nil_l. destruct r as [|c r]; [done|]. cbn. by rewrite Hr.
  - cbn in Hds. apply andb_prop in Hds as [Hd Hds]. str_simpl. cbn. by rewrite Hd, IH.
Qed.

Lemma span_digits_spec s :
  let '(ds, r) := span_digits s in
  s = ds +:+ r /\ str_forall digit ds = true
  /\ match r with String c _ => digit c = false | EmptyString => True end.
Proof.
  induction s as [|c s IH]; [done|]. cbn. destruct (digit c) eqn:Ec; [|by rewrite str_app_nil_l].
  destruct (span_digits s) as [ds r]. destruct IH as (-> & Hds & Hr). cbn. by rewrite Ec.
Qed.

Lemma decimal_nonneg acc s : 0 <= acc -> str_forall digit s = true -> 0 <= decimal acc s.
Proof.
  revert acc. induction s as [|c s IH]; intros acc Hacc Hs; [done|]. cbn in *.
  apply andb_prop in Hs as [Hc%digit_N Hs]. apply IH; [lia|done].
Qed.

Lemma number_of_bigint_large z : 2 ^ 53 <= z -> 2 ^ 53 <= number_of_bigint z.
Proof.
  intros Hz. unfold number_of_bigint. rewrite Z.abs_eq by lia. case_match eqn:E; [done|]. zbool.
  assert (Hlog : 53 <= Z.log2 z) by (apply Z.log2_le_pow2; lia).
  set (e := Z.log2 z - 52). assert (He : 1 <= e) by lia.
  assert (Hm : 2 ^ 52 <= Z.shiftr z e).
  { rewrite Z.shiftr_div_pow2 by lia. apply Z.div_le_lower_bound; [lia|].
    rewrite <- Z.pow_add_r by lia. replace (e + 52) with (Z.log2 z) by lia.
    apply Z.log2_spec. lia. }
  rewrite Z.sgn_pos by lia. rewrite Z.mul_1_l.
  assert (Hs : forall m, 2 ^ 52 <= m -> 2 ^ 53 <= Z.shiftl m e).
  { intros m Hm'. rewrite Z.shiftl_mul_pow2 by lia.
    change (2 ^ 53) with (2 ^ 52 * 2 ^ 1). apply Z.mul_le_mono_nonneg; [lia|lia|lia|].
    apply Z.pow_le_mono_r; lia. }
  case_match; apply Hs; lia.
Qed.

(** A text of digits is a safe integer when its value is. *)
Lemma safe_integer_digits ds : str_forall digit ds = true ->
  safe_whole (number_of_digits ds)
  = if decimal 0 ds <=? MAX_SAFE_INTEGER then Some (decimal 0 ds) else None.
Proof.
  intros Hds. pose proof (decimal_nonneg 0 ds ltac:(lia) Hds) as Hn.
  unfold safe_whole, number_of_digits. rewrite as_integer_Z. cbn [mbind option_bind].
  destruct (Z.leb_spec (decimal 0 ds) MAX_SAFE_INTEGER) as [Hle|Hgt].
  - rewrite number_of_bigint_small by (unfold MAX_SAFE_INTEGER in Hle; lia).
    rewrite Z.abs_eq by done. by rewrite (proj2 (Z.leb_le _ _) Hle).
  - pose proof (number_of_bigint_large (decimal 0 ds)) as Hlarge. unfold MAX_SAFE_INTEGER in *.
    rewrite (proj2 (Z.leb_gt _ _)); [done|]. lia.
Qed.

(** The position a text of digits gives. *)
Definition position_number (ds label : string) : checked Z :=
  let n := decimal 0 ds in
  if (1 <=? n) && (n <=? MAX_SAFE_INTEGER) then Valid n
  else Invalid "invalid_file_path" (positive_message label).

Lemma parsePositiveInteger_spec ds label : all_digits ds = true ->
  parsePositiveInteger ds label = position_number ds label.
Proof.
  intros Hds. unfold parsePositiveInteger, position_number, validatePositiveInteger. rewrite Hds.
  rewrite safe_integer_digits by by apply all_digits_forall.
  cbn [negb]. destruct (decimal 0 ds <=? MAX_SAFE_INTEGER).
  - rewrite andb_true_r. destruct (Z.ltb_spec (decimal 0 ds) 1), (Z.leb_spec 1 (decimal 0 ds)); done || lia.
  - by rewrite andb_false_r.
Qed.

(** ** Positions written after a path *)

(** The ways a position is written after a path. *)
Inductive position :=
  | NoPosition
  | AtLine (line : string)                      (** [:12] *)
  | AtLineColumn (line column : string)         (** [:12:4] *)
  | AtHash (line : string)                      (** [#L12] *)
  | AtHashRange (line last : string).           (** [#L12-L34] *)

Definition position_text (pos : position) : string :=
  match pos with
  | NoPosition => ""
  | AtLine l => String COLON l
  | AtLineColumn l c => String COLON (l +:+ String COLON c)
  | AtHash l => "#L" +:+ l
  | AtHashRange l e => "#L" +:+ (l +:+ ("-L" +:+ e))
  end.

Definition position_digits (pos : position) : bool :=
  match pos with
  | NoPosition => true
  | AtLine l | AtHash l => all_digits l
  | AtLineColumn l e | AtHashRange l e => all_digits l && all_digits e
  end.

Definition position_read (pos : position) : checked (option Z * option Z) :=
  match pos with
  | NoPosition => Valid (None, None)
  | AtLine l | AtHash l | AtHashRange l _ => n ← position_number l "line"; Valid (Some n, None)
  | AtLineColumn l c =>
      n ← position_number l "line"; m ← position_number c "column"; Valid (Some n, Some m)
  end.

Definition HASH : Ascii.ascii := Ascii.ascii_of_N 35.

(** A path without the characters that introduce a position. *)
Definition plain_path (path : string) : Prop :=
  path <> "" /\ without HASH path = true /\ without COLON path = true
  /\ one_line path = true /\ without (Ascii.ascii_of_N 0) path = true.

(** What stands after a path: nothing, or a colon and a digit, or a hash. *)
Definition tail_ok (t : string) : Prop :=
  t = "" \/ (exists d r, t = String COLON (String d r) /\ digit d = true)
  \/ (exists r, t = String HASH r /\ without COLON r = true).

Lemma all_digits_cons s : all_digits s = true ->
  exists d r, s = String d r /\ digit d = true /\ str_forall digit r = true.
Proof.
  unfold all_digits. destruct s as [|d r]; [done|]. cbn. intros [Hd Hr]%andb_prop. eauto.
Qed.

Lemma without_digits c s : digit c = false -> all_digits s = true -> without c s = true.
Proof. intros Hc Hs. by apply digits_without, all_digits_forall. Qed.

Lemma without_app c a b : without c (a +:+ b) = without c a && without c b.
Proof. apply str_forall_app. Qed.

Lemma position_tail pos : position_digits pos = true -> tail_ok (position_text pos).
Proof.
  destruct pos as [|l|l c|l|l e]; cbn [position_digits position_text].
  - by left.
  - intros (d & r & -> & Hd & _)%all_digits_cons. right; left. eauto.
  - intros [(d & r & -> & Hd & _)%all_digits_cons _]%andb_prop. right; left. eauto.
  - intros Hl. right; right. exists (String "L"%char l). split; [done|].
    change (without COLON l = true). by apply without_digits.
  - intros [Hl He]%andb_prop. right; right. exists (String "L"%char (l +:+ ("-L" +:+ e))). split; [done|].
    change (without COLON (l +:+ ("-L" +:+ e)) = true). rewrite !without_app.
    by rewrite (without_digits COLON l), (without_digits COLON e).
Qed.

Lemma position_no_nul pos : position_digits pos = true ->
  without (Ascii.ascii_of_N 0) (position_text pos) = true.
Proof.
  assert (H0 : forall s, all_digits s = true -> without (Ascii.ascii_of_N 0) s = true)
    by (intros; by apply without_digits).
  destruct pos as [|l|l c|l|l e]; cbn [position_digits position_text]; intros Hd.
  - done.
  - by apply (H0 l).
  - apply andb_prop in Hd as [Hl Hc]. change (without (Ascii.ascii_of_N 0) (l +:+ String COLON c) = true).
    rewrite without_app, (H0 l Hl). by apply (H0 c).
  - by rewrite without_app, (H0 l).
  - apply andb_prop in Hd as [Hl He]. by rewrite !without_app, (H0 l), (H0 e).
Qed.

(** *** What the patterns find *)

Lemma starts_with_cut p c x r : without c p = true ->
  starts_with p (x +:+ String c r) = starts_with p x.
Proof.
  unfold starts_with, without. revert x. induction p as [|a p IH]; intros x; [by destruct x|].
  cbn [str_forall]. intros [Ha Hp]%andb_prop. apply negb_true_iff, Ascii.eqb_neq in Ha.
  destruct x as [|b x]; str_simpl; cbn.
  - by destruct (Ascii.ascii_dec a c).
  - destruct (Ascii.ascii_dec a b); [by apply IH|done].
Qed.

Lemma at_terminator_cut c x r : within 33 126 c = true ->
  at_terminator (x +:+ String c r) = at_terminator x.
Proof.
  intros Hc. unfold at_terminator. cbn [LINE_TERMINATORS existsb fmap list_fmap].
  by rewrite !starts_with_cut by (destruct c as [[] [] [] [] [] [] [] []]; done || discriminate Hc).
Qed.

Lemma one_line_cut c x r : within 33 126 c = true ->
  one_line (x +:+ String c r) = one_line x && one_line r.
Proof.
  intros Hc. induction x as [|a x IH].
  - rewrite str_app_nil_l. cbn [one_line]. pose proof (at_terminator_cut c "" r Hc) as E.
    rewrite str_app_nil_l in E. by rewrite E.
  - str_simpl. cbn [one_line]. rewrite <- str_app_cons, at_terminator_cut by done.
    rewrite IH. by rewrite andb_assoc.
Qed.

Lemma one_line_digits s : str_forall digit s = true -> one_line s = true.
Proof.
  induction s as [|d s IH]; [done|]. cbn [str_forall]. intros [Hd Hs]%andb_prop.
  pose proof (one_line_cut d "" s) as E. rewrite str_app_nil_l in E. rewrite E; [by apply IH|].
  apply digit_N in Hd. unfold within. apply andb_true_intro. split; apply N.leb_le; lia.
Qed.

Lemma hash_suffix_char s : hash_suffix s <> None ->
  exists r, s = String HASH r.
Proof.
  unfold hash_suffix. destruct s as [|h [|l r]]; try done. destruct (span_digits r) as [ds rest].
  case_match eqn:E; [|done]. intros _. exists (String l r). f_equal.
  repeat apply andb_prop in E as [E _]. apply N.eqb_eq in E. unfold HASH. rewrite <- E.
  symmetry. apply Ascii.ascii_N_embedding.
Qed.

Lemma hash_suffix_other c s : negb (Ascii.eqb c HASH) = true -> hash_suffix (String c s) = None.
Proof.
  intros Hc. destruct (hash_suffix (String c s)) eqn:E; [|done].
  destruct (hash_suffix_char (String c s)) as [r Hr]; [by rewrite E|]. simplify_eq.
Qed.

Lemma hash_line_none b s : without HASH s = true -> hash_line b s = None.
Proof.
  revert b. induction s as [|c s IH]; intros b Hs; [by destruct b|].
  apply andb_prop in Hs as [Hc Hs]. cbn [hash_line].
  rewrite hash_suffix_other by done. rewrite IH by done. by destruct b, (at_terminator _).
Qed.

Lemma hash_line_found b path r line : path <> "" \/ b = true ->
  without HASH path = true -> one_line path = true -> hash_suffix (String HASH r) = Some line ->
  hash_line b (path +:+ String HASH r) = Some (path, line).
Proof.
  intros Hb Hh Ho Hr. revert b Hb. induction path as [|c path IH]; intros b Hb.
  - rewrite str_app_nil_l. cbn [hash_line]. destruct b; [by rewrite Hr|by destruct Hb as [[]|]].
  - cbn [one_line] in Ho. apply andb_prop in Ho as [Ht Ho]. apply negb_true_iff in Ht.
    apply andb_prop in Hh as [Hc Hh].
    rewrite str_app_cons. cbn [hash_line].
    rewrite hash_suffix_other by done. rewrite <- str_app_cons, at_terminator_cut, Ht by done.
    rewrite IH by eauto. by destruct b.
Qed.

Lemma split_last_none c s : without c s = true -> split_last c s = None.
Proof.
  unfold without. induction s as [|x s IH]; [done|]. cbn. intros [Hx Hs]%andb_prop.
  apply negb_true_iff in Hx. by rewrite (IH Hs), Hx.
Qed.

Lemma split_last_app c a b : without c b = true -> split_last c (a +:+ String c b) = Some (a, b).
Proof.
  intros Hb. induction a as [|x a IH].
  - rewrite str_app_nil_l. cbn. by rewrite (split_last_none c b Hb), Ascii.eqb_refl.
  - str_simpl. cbn. by rewrite IH.
Qed.

Lemma colon_line_none s : without COLON s = true -> colon_line s = None.
Proof. intros Hs. unfold colon_line. by rewrite split_last_none. Qed.

Lemma colon_line_app path ds : path <> "" -> one_line path = true -> all_digits ds = true ->
  colon_line (path +:+ String COLON ds) = Some (path, ds).
Proof.
  intros Hne Ho Hds. unfold colon_line.
  rewrite split_last_app by by apply without_digits. cbn [mbind option_bind].
  by rewrite (proj2 (str_truthy_true path) Hne), Ho, Hds.
Qed.

Lemma hash_suffix_text r :
  hash_suffix (String HASH (String "L"%char r))
  = let '(ds, rest) := span_digits r in
    if str_truthy ds && range_end rest then Some ds else None.
Proof. done. Qed.

Lemma range_end_text e : all_digits e = true -> range_end (String "-"%char (String "L"%char e)) = true.
Proof.
  intros He. pose proof (span_digits_app e "" (all_digits_forall _ He) I) as Hs.
  rewrite str_app_nil in Hs. cbn [range_end].
  change (code (lower_char "L"%char) =? 108)%N with true. cbn iota. rewrite Hs.
  by apply andb_prop in He as [-> _].
Qed.

Lemma parsed_location_spec path pos :
  plain_path path -> position_digits pos = true ->
  parsed_location (path +:+ position_text pos)
  = '(l, c) ← position_read pos; Valid (path, l, c).
Proof.
  intros (Hne & Hh & Hc & Ho & _) Hd. unfold parsed_location.
  destruct pos as [|l|l c|l|l e]; cbn [position_digits position_text position_read] in *.
  - rewrite str_app_nil, hash_line_none by done. unfold colon_line_column.
    by rewrite colon_line_none.
  - rewrite hash_line_none by (rewrite without_app, Hh; by apply (without_digits HASH l)).
    unfold colon_line_column. rewrite colon_line_app by done. cbn [mbind option_bind].
    rewrite colon_line_none by done. cbn [mbind option_bind].
    rewrite parsePositiveInteger_spec by done. by destruct (position_number l "line").
  - apply andb_prop in Hd as [Hl Hcol].
    assert (E : path +:+ String COLON (l +:+ String COLON c)
                = (path +:+ String COLON l) +:+ String COLON c) by (by rewrite str_app_assoc, str_app_cons).
    rewrite E. rewrite hash_line_none.
    2: { rewrite !without_app, Hh. change (String COLON l) with (":" +:+ l).
         change (String COLON c) with (":" +:+ c). rewrite !without_app.
         by rewrite (without_digits HASH l), (without_digits HASH c). }
    assert (Ho' : one_line (path +:+ String COLON l) = true)
      by (rewrite one_line_cut, Ho by done; by apply one_line_digits, all_digits_forall).
    unfold colon_line_column. rewrite colon_line_app; [|by destruct path|done|done].
    cbn [mbind option_bind]. rewrite colon_line_app by done. cbn [mbind option_bind].
    rewrite !parsePositiveInteger_spec by done.
    destruct (position_number l "line"); [|done]. by destruct (position_number c "column").
  - change ("#L" +:+ l) with (String HASH (String "L"%char l)).
    pose proof (span_digits_app l "" (all_digits_forall _ Hd) I) as Hsp. rewrite str_app_nil in Hsp.
    rewrite (hash_line_found _ _ _ l); [|by left|done|done|].
    2: { rewrite hash_suffix_text, Hsp. by apply andb_prop in Hd as [-> _]. }
    rewrite parsePositiveInteger_spec by done. by destruct (position_number l "line").
  - apply andb_prop in Hd as [Hl He].
    change ("#L" +:+ (l +:+ ("-L" +:+ e)))
      with (String HASH (String "L"%char (l +:+ String "-"%char (String "L"%char e)))).
    rewrite (hash_line_found _ _ _ l); [|by left|done|done|].
    2: { rewrite hash_suffix_text, span_digits_app by (done || by apply all_digits_forall).
         rewrite range_end_text by done. by apply andb_prop in Hl as [-> _]. }
    rewrite parsePositiveInteger_spec by done. by destruct (position_number l "line").
Qed.

(** *** What is taken for a URL or a drive *)

Lemma starts_with_prefix p s : starts_with p s = true -> exists r, s = p +:+ r.
Proof.
  unfold starts_with. revert s. induction p as [|a p IH]; intros s; [by exists s|].
  destruct s as [|b s]; [done|]. cbn. destruct (Ascii.ascii_dec a b) as [<-|]; [|done].
  intros [r ->]%IH. by exists r.
Qed.

Lemma scheme_rest_app x t : without COLON x = true ->
  scheme_rest (x +:+ t) = str_forall scheme_char x && scheme_rest t.
Proof.
  unfold without. induction x as [|c x IH]; [done|]. cbn [str_forall].
  intros [Hc Hx]%andb_prop. apply negb_true_iff, Ascii.eqb_neq in Hc. str_simpl. cbn [scheme_rest].
  rewrite IH by done. rewrite andb_assoc.
  assert (E : starts_with "://" (String c (x +:+ t)) = false).
  { destruct (starts_with _ _) eqn:E; [|done]. apply starts_with_prefix in E as [r [= -> _]]. by destruct Hc. }
  by rewrite E.
Qed.

Lemma scheme_rest_tail t : tail_ok t -> scheme_rest t = false.
Proof.
  intros [->|[(d & r & -> & Hd)|(r & -> & _)]]; [done| |done].
  cbn [scheme_rest]. change (scheme_char COLON) with false. rewrite orb_false_r.
  destruct (starts_with _ _) eqn:E; [|done]. apply starts_with_prefix in E as [r' [= -> _]]. done.
Qed.

Lemma url_scheme_none path t : path <> "" -> without COLON path = true -> tail_ok t ->
  url_scheme (path +:+ t) = false.
Proof.
  intros Hne Hc Ht. destruct path as [|c path]; [done|]. str_simpl. cbn [url_scheme].
  apply andb_prop in Hc as [_ Hc]. rewrite scheme_rest_app, scheme_rest_tail by done.
  by rewrite !andb_false_r.
Qed.

Lemma drive_path_none path t : path <> "" -> without COLON path = true -> tail_ok t ->
  drive_path (path +:+ t) = false.
Proof.
  intros Hne Hc Ht. unfold drive_path, drive_prefix. destruct path as [|a [|b path]]; [done| |].
  - str_simpl. destruct Ht as [->|[(d & r & -> & Hd)|(r & -> & _)]]; [done| |].
    + assert (Hds : Ascii.eqb d SLASH = false /\ Ascii.eqb d bslash = false)
        by (destruct d as [[] [] [] [] [] [] [] []]; done || discriminate Hd).
      destruct Hds as [-> ->]. apply andb_false_r.
    + change (Ascii.eqb HASH COLON) with false. by rewrite !andb_false_r.
  - str_simpl. unfold without in Hc. cbn [str_forall] in Hc. apply andb_prop in Hc as [_ [Hb _]%andb_prop].
    apply negb_true_iff in Hb. by rewrite Hb, andb_false_r.
Qed.

Lemma toLowerCase_app a b : toLowerCase (a +:+ b) = toLowerCase a +:+ toLowerCase b.
Proof. induction a as [|c a IH]; [done|]. str_simpl. cbn. rewrite IH. by str_simpl. Qed.

Lemma lower_without_colon s : without COLON s = true -> without COLON (toLowerCase s) = true.
Proof.
  unfold without. induction s as [|c s IH]; [done|]. cbn [str_forall toLowerCase].
  intros [Hc Hs]%andb_prop. rewrite IH by done. rewrite andb_true_r.
  destruct c as [[] [] [] [] [] [] [] []]; done || discriminate Hc.
Qed.

Lemma mailto_none path t : without COLON path = true -> tail_ok t -> toLowerCase path <> "mailto" ->
  starts_with "mailto:" (toLowerCase (path +:+ t)) = false.
Proof.
  intros Hc Ht Hm. apply lower_without_colon in Hc. rewrite toLowerCase_app.
  set (p := toLowerCase path) in *.
  destruct (starts_with "mailto:" _) eqn:E; [|done]. apply starts_with_prefix in E as [r E].
  change ("mailto:" +:+ r) with ("mailto" +:+ String COLON r) in E.
  apply (f_equal (split_on COLON)) in E. rewrite (split_on_app COLON "mailto") in E by done.
  assert (Hone : without COLON (p +:+ toLowerCase t) = true -> False).
  { intros Hw. rewrite split_on_one in E by done. injection E as _ E'.
    symmetry in E'. by apply split_on_nonempty in E'. }
  destruct Ht as [->|[(d & u & -> & Hd)|(u & -> & Hu)]].
  - exfalso. apply Hone. by rewrite str_app_nil.
  - change (toLowerCase (String COLON (String d u))) with (String COLON (toLowerCase (String d u))) in E.
    rewrite split_on_app in E by done. by injection E as E _.
  - exfalso. apply Hone. rewrite without_app, Hc.
    change (without COLON (toLowerCase u) = true). by apply lower_without_colon.
Qed.

(** C40: A viewer opens the file whose path it wrote, at the place it wrote after it.  Let the
    text, stripped of the white space around it, be a path without colon, hash or line break,
    followed by a position in one of the forms the clients write ([:12], [:12:4], [#L12],
    [#L12-L34]) or none.  Then the path is read back as written, absolute as it stands and
    relative in its normal form (refused as [normalizeFileRelativePath] refuses it), and the
    line and column are the numbers written, unless the request names its own; a number that is
    zero or past the safe integers, and a path that ends in a slash, are refused. *)
Theorem viewer_paths (input path : string) (pos : position) (line column : option jsnum)
  (Hinput : trim input = path +:+ position_text pos)
  (Hpath : plain_path path) (Hmail : toLowerCase path <> "mailto")
  (Hpos : position_digits pos = true) :
  parseViewerFilePath input line column
  = '(l, c) ← position_read pos;
    if ends_with_char SLASH (trim path) then
      Invalid "invalid_file_path" "Directory paths are not supported"
    else
      line ← explicit_position line "line";
      column ← explicit_position column "column";
      if starts_with "/" path then
        Valid (AbsolutePosix (path +:+ position_text pos) path (or_else line l) (or_else column c))
      else
        relative ← normalizeFileRelativePath path;
        Valid (RelativePath (path +:+ position_text pos) relative (or_else line l)
                 (or_else column c)).
Proof.
  pose proof Hpath as (Hne & Hh & Hc & Ho & H0). pose proof (position_tail pos Hpos) as Ht.
  unfold parseViewerFilePath. rewrite Hinput.
  assert (Htr : str_truthy (path +:+ position_text pos) = true) by (by destruct path).
  unfold NUL. rewrite includes_char, without_app, H0, position_no_nul by done.
  rewrite Htr, url_scheme_none, mailto_none, drive_path_none, parsed_location_spec by done.
  cbn [negb orb andb]. by destruct (position_read pos) as [[l c]|].
Qed.

(** A link to a line of a file below the working directory. *)
Lemma viewer_paths_witness :
  parseViewerFilePath " ./src/a.ts:12:4 " None None
  = Valid (RelativePath "./src/a.ts:12:4" "src/a.ts" (Some 12) (Some 4))
  /\ parseViewerFilePath "/etc/hosts#L0" None None
     = Invalid "invalid_file_path" (positive_message "line").
Proof.
  split.
  - rewrite (viewer_paths " ./src/a.ts:12:4 " "./src/a.ts" (AtLineColumn "12" "4") None None);
      [reflexivity|reflexivity| |vm_compute; discriminate|reflexivity].
    by split_and!.
  - rewrite (viewer_paths "/etc/hosts#L0" "/etc/hosts" (AtHash "0") None None);
      [reflexivity|reflexivity| |vm_compute; discriminate|reflexivity].
    by split_and!.
Defined.

(** ** Byte ranges *)

(** What a single range of two texts of digits means. *)
Definition range_meaning (startText endText : string) : option FileRange :=
  let first := decimal 0 startText in
  let last := decimal 0 endText in
  if str_truthy startText then
    if str_truthy endText then
      if (first <=? last) && (last <=? MAX_SAFE_INTEGER)
      then Some (mkRange (Some first) (Some last) None) else None
    else if first <=? MAX_SAFE_INTEGER then Some (mkRange (Some first) None None) else None
  else if str_truthy endText && (0 <? last) && (last <=? MAX_SAFE_INTEGER)
       then Some (mkRange None None (Some last)) else None.

(** A range a frame may carry: a suffix, a start, or a start and an end after it. *)
Definition range_ok (r : FileRange) : Prop :=
  match r with
  | mkRange None None None => True
  | mkRange None None (Some n) => 0 < n <= MAX_SAFE_INTEGER
  | mkRange (Some a) None None => 0 <= a <= MAX_SAFE_INTEGER
  | mkRange (Some a) (Some b) None => 0 <= a /\ a <= b /\ b <= MAX_SAFE_INTEGER
  | _ => False
  end.

Lemma match_range_text a b : str_forall digit a = true -> str_forall digit b = true ->
  match_range ("bytes=" +:+ (a +:+ String "-"%char b)) = Some (a, b).
Proof.
  intros Ha Hb. unfold match_range.
  change (strip_prefix "bytes=" _) with (Some (a +:+ String "-"%char b)). cbn [mbind option_bind].
  rewrite span_digits_app by done. change (strip_prefix "-" _) with (Some b). cbn [mbind option_bind].
  pose proof (span_digits_app b "" Hb I) as E. rewrite str_app_nil in E. by rewrite E.
Qed.

Lemma strip_prefix_spec p s r : strip_prefix p s = Some r -> s = p +:+ r.
Proof.
  revert s. induction p as [|a p IH]; intros s; cbn; [by intros [= ->]|].
  destruct s as [|b s]; [done|]. case_bool_decide; [|done]. subst. by intros ->%IH.
Qed.

Lemma match_range_spec s a b : match_range s = Some (a, b) ->
  s = "bytes=" +:+ (a +:+ String "-"%char b)
  /\ str_forall digit a = true /\ str_forall digit b = true.
Proof.
  unfold match_range. destruct (strip_prefix "bytes=" s) as [r|] eqn:E1; [|done].
  apply strip_prefix_spec in E1 as ->. cbn [mbind option_bind].
  pose proof (span_digits_spec r) as Hr. destruct (span_digits r) as [a' r'].
  destruct Hr as (-> & Ha & _). destruct (strip_prefix "-" r') as [u|] eqn:E2; [|done].
  apply strip_prefix_spec in E2 as ->. cbn [mbind option_bind].
  pose proof (span_digits_spec u) as Hu. destruct (span_digits u) as [b' u'].
  destruct Hu as (-> & Hb & _). case_match eqn:E3; [done|]. intros [= <- <-].
  destruct u'; [|done]. by rewrite str_app_nil.
Qed.

Lemma parseSafeInteger_digits ds : all_digits ds = true ->
  parseSafeInteger ds = if decimal 0 ds <=? MAX_SAFE_INTEGER then Some (decimal 0 ds) else None.
Proof.
  intros Hds. unfold parseSafeInteger. rewrite Hds. by apply safe_integer_digits, all_digits_forall.
Qed.

(** The range of a header is that of its two texts of digits. *)
Lemma single_range s a b : trim s = "bytes=" +:+ (a +:+ String "-"%char b) ->
  includes "," s = false -> str_forall digit a = true -> str_forall digit b = true ->
  match parseSingleRange (JStr s) with
  | inr r => range_meaning a b = Some r | inl _ => range_meaning a b = None end.
Proof.
  intros Ht Hc Ha Hb. unfold parseSingleRange. cbn [as_string].
  destruct s as [|c0 s]; [by destruct a|]. rewrite Hc, Ht, match_range_text by done.
  pose proof (decimal_nonneg 0 a ltac:(lia) Ha). pose proof (decimal_nonneg 0 b ltac:(lia) Hb).
  unfold range_meaning. destruct (str_truthy a) eqn:Ea, (str_truthy b) eqn:Eb; cbn [negb andb];
    rewrite ?(parseSafeInteger_digits a) by (unfold all_digits; by rewrite Ea);
    rewrite ?(parseSafeInteger_digits b) by (unfold all_digits; by rewrite Eb).
  - destruct (Z.leb_spec (decimal 0 a) MAX_SAFE_INTEGER), (Z.leb_spec (decimal 0 b) MAX_SAFE_INTEGER);
      rewrite ?andb_true_r, ?andb_false_r; cbn [orb andb];
      repeat (case_match; zbool; simplify_eq); done || lia.
  - destruct (Z.leb_spec (decimal 0 a) MAX_SAFE_INTEGER);
      rewrite ?andb_true_r, ?andb_false_r; cbn [orb andb];
      repeat (case_match; zbool; simplify_eq); done || lia.
  - destruct (Z.leb_spec (decimal 0 b) MAX_SAFE_INTEGER);
      rewrite ?andb_true_r, ?andb_false_r; cbn [orb andb];
      repeat (case_match; zbool; simplify_eq); done || lia.
  - done.
Qed.

Lemma range_meaning_ok a b r : str_forall digit a = true -> range_meaning a b = Some r -> range_ok r.
Proof.
  intros Ha. pose proof (decimal_nonneg 0 a ltac:(lia) Ha). unfold range_meaning.
  repeat (case_match; try done); intros [= <-]; cbn; zbool; lia.
Qed.

(** What a header is taken for, a single range of digits with a meaning. *)
Lemma parsed_range v r : parseSingleRange v = inr r ->
  exists s a b, v = JStr s /\ trim s = "bytes=" +:+ (a +:+ String "-"%char b)
    /\ range_meaning a b = Some r /\ range_ok r /\ r <> whole_file.
Proof.
  intros H. pose proof H as Hp. unfold parseSingleRange in H.
  destruct v as [| | | |s| |]; try done. cbn [as_string] in H.
  destruct s as [|c s]; [done|]. destruct (includes "," (String c s)) eqn:Ec; [done|].
  destruct (match_range (trim (String c s))) as [[a b]|] eqn:Em; [|done].
  apply match_range_spec in Em as (Ht & Ha & Hb).
  pose proof (single_range _ a b Ht Ec Ha Hb) as Hs. rewrite Hp in Hs.
  exists (String c s), a, b. split_and!; try done; [exact (range_meaning_ok a b r Ha Hs)|].
  intros ->. unfold range_meaning, whole_file in Hs. by repeat case_match.
Qed.
