(* ===== verification/Jobs.v ===== *)
(** Asynchronous code over a shared world: jobs, how they run, and the rule by
    which an invariant of the world is kept by all of them.

    A job runs without interruption up to its next [await]: a database statement
    ([Stmt]), a promise somebody else settles ([Settle]), or a state of the world
    it waits for ([Until]). *)
From stdpp Require Import base tactics.
From S2P Require Import Prelude.

(** What happens to a statement: it runs, or the connection is lost before or
    after it took effect. *)
Inductive fate (E : Type) := Runs | LostBefore (e : E) | LostAfter (e : E).
Arguments Runs {E}.
Arguments LostBefore {E}.
Arguments LostAfter {E}.

Section jobs.
Context {W E : Type}.

(** The answer to a statement: the world it ran on, or its error. *)
Inductive settled := Done (w : W) | Fault (e : E).

Inductive job (A : Type) :=
  | Return (a : A)
  | Raise (e : E)
  | Sync (f : W -> W) (k : W -> job A)        (** [k] gets the world before [f] *)
  | Stmt (st : W -> E + W) (k : settled -> job A)
  | Settle (k : option E -> job A)
  | Until (ready : W -> option (job A)).
Arguments Return {A}.
Arguments Raise {A}.
Arguments Sync {A}.
Arguments Stmt {A}.
Arguments Settle {A}.
Arguments Until {A}.

(** Induction, a job behind an [Until] included. *)
Lemma job_induct {A} (P : job A -> Prop) :
  (forall a, P (Return a)) -> (forall e, P (Raise e)) ->
  (forall f k, (forall w, P (k w)) -> P (Sync f k)) ->
  (forall st k, (forall s, P (k s)) -> P (Stmt st k)) ->
  (forall k, (forall r, P (k r)) -> P (Settle k)) ->
  (forall ready, (forall w p, ready w = Some p -> P p) -> P (Until ready)) ->
  forall p, P p.
Proof.
  intros HR HE HS HT HA HU. fix IH 1. intros [a|e|f k|st k|k|ready].
  - apply HR.
  - apply HE.
  - apply HS. intros w. apply IH.
  - apply HT. intros s. apply IH.
  - apply HA. intros r. apply IH.
  - apply HU. intros w. destruct (ready w) as [q|]; [|intros ? [=]]. intros p [= <-]. apply IH.
Qed.

Fixpoint job_bind {A B} (k : A -> job B) (p : job A) : job B :=
  match p with
  | Return a => k a
  | Raise e => Raise e
  | Sync f c => Sync f (fun w => job_bind k (c w))
  | Stmt st c => Stmt st (fun s => job_bind k (c s))
  | Settle c => Settle (fun r => job_bind k (c r))
  | Until ready =>
      Until (fun w => match ready w with Some p => Some (job_bind k p) | None => None end)
  end.

#[export] Instance job_mret : MRet job := fun A => Return.
#[export] Instance job_mbind : MBind job := fun A B => job_bind.

(** [try { p } catch (err) { h }]. *)
Fixpoint job_catch {A} (p : job A) (h : E -> job A) : job A :=
  match p with
  | Return a => Return a
  | Raise e => h e
  | Sync f c => Sync f (fun w => job_catch (c w) h)
  | Stmt st c => Stmt st (fun s => job_catch (c s) h)
  | Settle c => Settle (fun r => job_catch (c r) h)
  | Until ready =>
      Until (fun w => match ready w with Some p => Some (job_catch p h) | None => None end)
  end.

(** Synchronous code, and what it answers of the world it starts at. *)
Definition sync {A} (f : W -> W) (answer : W -> A) : job A := Sync f (fun w => Return (answer w)).
Definition sync_ (f : W -> W) : job unit := sync f (fun _ => tt).
Definition ask {A} (answer : W -> A) : job A := sync id answer.

(** A statement, and what it answers of the world it runs on. *)
Definition stmt {A} (st : W -> E + W) (answer : W -> A) : job A :=
  Stmt st (fun s => match s with Done w => Return (answer w) | Fault e => Raise e end).
Definition query {A} (answer : W -> A) : job A := stmt inr answer.
Definition exec (st : W -> E + W) : job unit := stmt st (fun _ => tt).

(** [await promise] of somebody else. *)
Definition await : job unit :=
  Settle (fun r => match r with None => Return tt | Some e => Raise e end).

(** [await] of a promise already resolved: a later turn. *)
Definition pause : job unit := Settle (fun _ => Return tt).

(** [p.catch(() => null)], awaited. *)
Definition ignoring (p : job unit) : job unit := job_catch p (fun _ => Return tt).

(** The synchronous part of a job, up to its next [await]. *)
Fixpoint advance {A} (p : job A) (w : W) : W * job A :=
  match p with
  | Sync f k => advance (k w) (f w)
  | _ => (w, p)
  end.

(** The answer a statement gets, and the world it leaves. *)
Definition settle_stmt (o : fate E) (st : W -> E + W) (w : W) : settled * W :=
  match o, st w with
  | Runs, inr w' => (Done w, w')
  | Runs, inl e => (Fault e, w)
  | LostAfter e, inr w' => (Fault e, w')
  | LostAfter e, inl _ | LostBefore e, _ => (Fault e, w)
  end.

(** A job that waits goes on: the statement it waits for runs or is lost, the
    promise settles as [o] says, or the state it waits for has come. *)
Definition resume {A} (o : fate E) (p : job A) (w : W) : W * job A :=
  match p with
  | Return _ | Raise _ => (w, p)
  | Sync _ _ => advance p w
  | Stmt st k => let '(s, w') := settle_stmt o st w in advance (k s) w'
  | Settle k =>
      advance (k (match o with Runs => None | LostBefore e | LostAfter e => Some e end)) w
  | Until ready => match ready w with Some p' => advance p' w | None => (w, p) end
  end.

Definition ended {A} (p : job A) : bool :=
  match p with Return _ | Raise _ => true | _ => false end.

(** ** The rule

    [inv] is what every piece of code keeps, [le] how the world may grow. [safe Q w p]:
    from the world [w] on, whatever other jobs do between its nodes, [p] keeps [inv]
    and only grows the world, and [Q] holds of its answer. *)
Section safety.
Context (inv : W -> Prop) (le : W -> W -> Prop) `{!PreOrder le}.

Fixpoint safe {A} (Q : W -> A -> Prop) (w0 : W) (p : job A) : Prop :=
  match p with
  | Return a => Q w0 a
  | Raise _ => True
  | Sync f k =>
      forall w, inv w -> le w0 w -> inv (f w) /\ le w (f w) /\ safe Q (f w) (k w)
  | Stmt st k =>
      forall w, inv w -> le w0 w ->
        (forall w', st w = inr w' -> inv w' /\ le w w' /\ safe Q w' (k (Done w)))
        /\ (forall e, safe Q w (k (Fault e)))
  | Settle k => forall w r, inv w -> le w0 w -> safe Q w (k r)
  | Until ready =>
      forall w, inv w -> le w0 w -> match ready w with Some p => safe Q w p | None => True end
  end.

Definition upward {A} (Q : W -> A -> Prop) : Prop := forall w w' a, le w w' -> Q w a -> Q w' a.
Definition anything {A} (_ : W) (_ : A) : Prop := True.

Lemma safe_mono {A} (Q : W -> A -> Prop) w w' (p : job A) :
  upward Q -> le w w' -> safe Q w p -> safe Q w' p.
Proof.
  intros HQ Hle. destruct p; cbn; try done.
  - intros Ha. by eapply HQ.
  - intros H u Hu Hw. apply H; [done|by etrans].
  - intros H u Hu Hw. apply H; [done|by etrans].
  - intros H u r Hu Hw. apply H; [done|by etrans].
  - intros H u Hu Hw. apply H; [done|by etrans].
Qed.

Lemma job_safe_weaken {A} (Q S : W -> A -> Prop) w (p : job A) :
  safe Q w p -> (forall w a, Q w a -> S w a) -> safe S w p.
Proof.
  intros Hp HS. revert w Hp. induction p as [a|e|f k IH|st k IH|k IH|ready IH] using job_induct;
    intros w; cbn; [by apply HS|done| | | |].
  - intros H u Hu Hw. destruct (H u Hu Hw) as (? & ? & ?). eauto.
  - intros H u Hu Hw. destruct (H u Hu Hw) as [H1 H2]. split; [|eauto].
    intros w' Hst. destruct (H1 w' Hst) as (? & ? & ?). eauto.
  - intros H u r Hu Hw. eauto.
  - intros H u Hu Hw. specialize (H u Hu Hw). destruct (ready u) eqn:Er; [|done]. eauto.
Qed.

Lemma job_safe_bind {A B} (Q : W -> A -> Prop) (S : W -> B -> Prop) w (p : job A) (k : A -> job B) :
  safe Q w p -> (forall w' a, le w w' -> Q w' a -> safe S w' (k a)) -> safe S w (p ≫= k).
Proof.
  intros Hp Hk. unfold mbind, job_mbind. revert w Hp Hk.
  induction p as [a|e|f c IH|st c IH|c IH|ready IH] using job_induct;
    intros w; cbn; [intros; by apply Hk|done| | | |].
  - intros H Hk u Hu Hw. destruct (H u Hu Hw) as (? & ? & ?). split_and!; [done|done|].
    apply IH; [done|]. intros v a Hv. apply Hk. by do 2 (etrans; [done|]).
  - intros H Hk u Hu Hw. destruct (H u Hu Hw) as [H1 H2]. split.
    + intros w' Hst. destruct (H1 w' Hst) as (? & ? & ?). split_and!; [done|done|].
      apply IH; [done|]. intros v a Hv. apply Hk. by do 2 (etrans; [done|]).
    + intros e. apply IH; [done|]. intros v a Hv. apply Hk. by etrans.
  - intros H Hk u r Hu Hw. apply IH; [by apply H|]. intros v a Hv. apply Hk. by etrans.
  - intros H Hk u Hu Hw. specialize (H u Hu Hw). destruct (ready u) eqn:Er; [|done].
    eapply IH; [done|done|]. intros v a Hv. apply Hk. by etrans.
Qed.

Lemma job_safe_catch {A} (Q : W -> A -> Prop) w (p : job A) (h : E -> job A) :
  safe Q w p -> (forall w' e, le w w' -> safe Q w' (h e)) -> safe Q w (job_catch p h).
Proof.
  intros Hp Hh. revert w Hp Hh.
  induction p as [a|e|f c IH|st c IH|c IH|ready IH] using job_induct;
    intros w; cbn; [done|intros; by apply Hh| | | |].
  - intros H Hh u Hu Hw. destruct (H u Hu Hw) as (? & ? & ?). split_and!; [done|done|].
    apply IH; [done|]. intros v e Hv. apply Hh. by do 2 (etrans; [done|]).
  - intros H Hh u Hu Hw. destruct (H u Hu Hw) as [H1 H2]. split.
    + intros w' Hst. destruct (H1 w' Hst) as (? & ? & ?). split_and!; [done|done|].
      apply IH; [done|]. intros v e Hv. apply Hh. by do 2 (etrans; [done|]).
    + intros e. apply IH; [done|]. intros v e' Hv. apply Hh. by etrans.
  - intros H Hh u r Hu Hw. apply IH; [by apply H|]. intros v e Hv. apply Hh. by etrans.
  - intros H Hh u Hu Hw. specialize (H u Hu Hw). destruct (ready u) eqn:Er; [|done].
    eapply IH; [done|done|]. intros v e Hv. apply Hh. by etrans.
Qed.

Lemma job_safe_sync {A} (Q : W -> A -> Prop) w (f : W -> W) (answer : W -> A) :
  (forall u, inv u -> le w u -> inv (f u) /\ le u (f u) /\ Q (f u) (answer u)) ->
  safe Q w (sync f answer).
Proof. done. Qed.

Lemma safe_ask {A} (Q : W -> A -> Prop) w (answer : W -> A) :
  (forall u, inv u -> le w u -> Q u (answer u)) -> safe Q w (ask answer).
Proof. intros H u Hu Hw. split_and!; [done|done|by apply H]. Qed.

Lemma job_safe_stmt {A} (Q : W -> A -> Prop) w (st : W -> E + W) (answer : W -> A) :
  (forall u u', inv u -> le w u -> st u = inr u' -> inv u' /\ le u u' /\ Q u' (answer u)) ->
  safe Q w (stmt st answer).
Proof. intros H u Hu Hw. split; [|done]. intros u' Hst. by apply H. Qed.

Lemma job_safe_query {A} (Q : W -> A -> Prop) w (answer : W -> A) :
  (forall u, inv u -> le w u -> Q u (answer u)) -> safe Q w (query answer).
Proof. intros H. apply job_safe_stmt. intros u u' Hu Hw [= <-]. split_and!; [done|done|by apply H]. Qed.

Lemma safe_await w : safe anything w await.
Proof. intros u r Hu Hw. by destruct r. Qed.

Lemma safe_pause w : safe anything w pause.
Proof. done. Qed.

Lemma safe_ignoring w p : safe anything w p -> safe anything w (ignoring p).
Proof. intros H. by apply job_safe_catch. Qed.

(** What running a safe job does. *)
Lemma safe_advance {A} (Q : W -> A -> Prop) w (p : job A) w' p' :
  inv w -> safe Q w p -> advance p w = (w', p') -> inv w' /\ le w w' /\ safe Q w' p'.
Proof.
  revert w. induction p as [a|e|f k IH|st k IH|k IH|ready IH] using job_induct;
    intros w Hw Hp; cbn [advance]; try by intros [= <- <-].
  intros Hadv. destruct (Hp w Hw ltac:(done)) as (H1 & H2 & H3).
  destruct (IH w (f w) H1 H3 Hadv) as (? & ? & ?). split_and!; [done|by etrans|done].
Qed.

Lemma safe_resume {A} (Q : W -> A -> Prop) o w (p : job A) w' p' : upward Q ->
  inv w -> safe Q w p -> resume o p w = (w', p') -> inv w' /\ le w w' /\ safe Q w' p'.
Proof.
  intros HQ Hw Hp. destruct p as [a|e|f k|st k|k|ready]; cbn [resume].
  - by intros [= <- <-].
  - by intros [= <- <-].
  - by apply safe_advance.
  - assert (Hs : let '(s, v) := settle_stmt o st w in inv v /\ le w v /\ safe Q v (k s)).
    { destruct (Hp w Hw ltac:(done)) as [H1 H2].
      destruct o as [|e|e]; cbn [settle_stmt]; [destruct (st w) as [e'|u]| |destruct (st w) as [e'|u]];
        try (split_and!; [done|done|by apply H2]); destruct (H1 u eq_refl) as (? & ? & ?); [done|].
      split_and!; [done|done|]. by apply (Hp u). }
    destruct (settle_stmt o st w) as [s v]. destruct Hs as (Hv & Hle & Hk). intros Ha.
    destruct (safe_advance Q v _ _ _ Hv Hk Ha) as (? & ? & ?). split_and!; [done|by etrans|done].
  - apply safe_advance; [done|]. by apply Hp.
  - pose proof (Hp w Hw ltac:(done)) as Hr. destruct (ready w); [by apply safe_advance|by intros [= <- <-]].
Qed.

End safety.
End jobs.

Arguments job : clear implicits.
Arguments settled : clear implicits.
Arguments Done {W E}.
Arguments Fault {W E}.
Arguments Return {W E A}.
Arguments Raise {W E A}.
Arguments Sync {W E A}.
Arguments Stmt {W E A}.
Arguments Settle {W E A}.
Arguments Until {W E A}.
