(* ===== verification/FileRuntime.v ===== *)
(** The bridge between the frames a daemon sends for one file stream and the
    HTTP response that reads it ([service/src/files/file-runtime.ts]).

    [FileRuntimeStream] is the object as a value; a method answers the object it
    leaves and whether it called [cleanup]. The promise of [waitForOpen] is
    [opening]; [body] is what was written to the [PassThrough], and whether it was
    ended or destroyed. *)
From Stdlib Require Import Strings.Byte ZArith QArith Qround Lia.
From stdpp Require Import base tactics strings gmap option pretty.
From stdpp Require Import list.
From S2P Require Import Prelude JsRuntime Base64 Json DaemonState Carrier DataPlane.
Open Scope Z_scope.

(** ** Frames *)

Record FileOpenResultFrame := mkOpenResult {
  of_operation_id : option string;
  of_stream_id : string;
  of_accepted : bool;
  of_status_code : option Z;
  of_headers : list (string * string);
  of_content_identity : option (list (string * jsval));
  of_resolved_against : option string;
  of_resolved_relative_path : option string;
  of_size : option Z;
  of_error : option stream_error;
}.

(** An optional field: absent, or read by [read]. *)
Definition optional {A} (read : jsval -> option A) (v : jsval) : option (option A) :=
  match v with JUndef => Some None | _ => a ← read v; Some (Some a) end.

Definition as_bool (v : jsval) : option bool := match v with JBool b => Some b | _ => None end.

(** [z.number().int()] within bounds. *)
Definition int_between (lo : Z) (hi : option Z) (v : jsval) : option Z :=
  match v with
  | JNum (JFin q) =>
      z ← as_integer q;
      if (lo <=? z) && match hi with Some hi => z <=? hi | None => true end then Some z else None
  | _ => None
  end.

(** [z.record(z.string())]. *)
Definition string_record (v : jsval) : option (list (string * string)) :=
  match v with
  | JObj fs => mapM (fun kv : string * jsval => s ← as_string kv.2; Some (kv.1, s)) fs
  | _ => None
  end.

(** [FileOpenResultSchema.safeParse]. *)
Definition parse_open_result (raw : jsval) : option FileOpenResultFrame :=
  guard_env "file_open_result" raw (fun fs =>
    let field k := field_lookup k fs in
    operation ← optional as_string (field "operation_id");
    stream ← as_string (field "stream_id");
    accepted ← as_bool (field "accepted");
    status ← optional (int_between 100 (Some 599)) (field "status_code");
    headers ← optional string_record (field "headers");
    identity ← optional as_record (field "content_identity");
    against ← optional as_string (field "resolved_against");
    relative ← optional as_string (field "resolved_relative_path");
    size ← optional (int_between 0 None) (field "size");
    error ← parse_error (field "error");
    Some (mkOpenResult operation stream accepted status (headers ?? []) identity against relative
            size error)).

(** What a daemon answers to [file_resolve] ([service/src/files/file-resolve.ts]). *)
Record FileResolveResultFrame := mkResolveResult {
  rf_operation_id : string;
  rf_accepted : bool;
  rf_root_key : option string;
  rf_requested_path_kind : option string;
  rf_resolved_against : option string;
  rf_resolved_relative_path : option string;
  rf_content_identity : option (list (string * jsval));
  rf_size : option Z;
  rf_error : option stream_error;
}.

(** [FileResolveResultSchema.safeParse]. *)
Definition parse_resolve_result (raw : jsval) : option FileResolveResultFrame :=
  guard_env "file_resolve_result" raw (fun fs =>
    let field k := field_lookup k fs in
    operation ← as_string (field "operation_id");
    accepted ← as_bool (field "accepted");
    root ← optional as_string (field "root_key");
    kind ← optional as_string (field "requested_path_kind");
    against ← optional as_string (field "resolved_against");
    relative ← optional as_string (field "resolved_relative_path");
    identity ← optional as_record (field "content_identity");
    size ← optional (int_between 0 None) (field "size");
    error ← parse_error (field "error");
    Some (mkResolveResult operation accepted root kind against relative identity size error)).

(** ** The object *)

(** The promise [waitForOpen] returned. *)
Inductive opening_promise :=
  | NotAwaited
  | Opening_
  | Opened (frame : FileOpenResultFrame)
  | OpenFailed (message : string).

Record PassThrough := mkBody {
  pt_chunks : list (list byte);
  pt_ended : bool;
  pt_destroyed : bool;
}.

Definition empty_body : PassThrough := mkBody [] false false.
(** [body.write(chunk)]: an ended or destroyed stream takes nothing. *)
Definition pt_write (chunk : list byte) (b : PassThrough) : PassThrough :=
  if pt_ended b || pt_destroyed b then b
  else mkBody (pt_chunks b ++ [chunk]) (pt_ended b) (pt_destroyed b).
Definition pt_end (b : PassThrough) : PassThrough := mkBody (pt_chunks b) true (pt_destroyed b).
Definition pt_destroy (b : PassThrough) : PassThrough := mkBody (pt_chunks b) (pt_ended b) true.

Record FileRuntimeStream := mkFileRuntime {
  fr_streamId : string;
  fr_operationId : string;
  fr_maxReceivedBytes : option Z;
  fr_openResult : option FileOpenResultFrame;
  fr_opening : opening_promise;
  fr_completed : bool;
  fr_closedBeforeOpenResult : bool;
  fr_receivedBytes : Z;
  fr_body : PassThrough;
}.

Definition new_runtime (streamId operationId : string) (maxReceivedBytes : option Z)
  : FileRuntimeStream :=
  mkFileRuntime streamId operationId maxReceivedBytes None NotAwaited false false 0 empty_body.

Definition set_fr_openResult (v : option FileOpenResultFrame) (r : FileRuntimeStream) :=
  mkFileRuntime (fr_streamId r) (fr_operationId r) (fr_maxReceivedBytes r) v (fr_opening r)
    (fr_completed r) (fr_closedBeforeOpenResult r) (fr_receivedBytes r) (fr_body r).
Definition set_fr_opening (v : opening_promise) (r : FileRuntimeStream) :=
  mkFileRuntime (fr_streamId r) (fr_operationId r) (fr_maxReceivedBytes r) (fr_openResult r) v
    (fr_completed r) (fr_closedBeforeOpenResult r) (fr_receivedBytes r) (fr_body r).
Definition set_fr_completed (v : bool) (r : FileRuntimeStream) :=
  mkFileRuntime (fr_streamId r) (fr_operationId r) (fr_maxReceivedBytes r) (fr_openResult r)
    (fr_opening r) v (fr_closedBeforeOpenResult r) (fr_receivedBytes r) (fr_body r).
Definition set_fr_closedBeforeOpenResult (v : bool) (r : FileRuntimeStream) :=
  mkFileRuntime (fr_streamId r) (fr_operationId r) (fr_maxReceivedBytes r) (fr_openResult r)
    (fr_opening r) (fr_completed r) v (fr_receivedBytes r) (fr_body r).
Definition set_fr_receivedBytes (v : Z) (r : FileRuntimeStream) :=
  mkFileRuntime (fr_streamId r) (fr_operationId r) (fr_maxReceivedBytes r) (fr_openResult r)
    (fr_opening r) (fr_completed r) (fr_closedBeforeOpenResult r) v (fr_body r).
Definition on_body (f : PassThrough -> PassThrough) (r : FileRuntimeStream) :=
  mkFileRuntime (fr_streamId r) (fr_operationId r) (fr_maxReceivedBytes r) (fr_openResult r)
    (fr_opening r) (fr_completed r) (fr_closedBeforeOpenResult r) (fr_receivedBytes r)
    (f (fr_body r)).

(** [this.openResolve?.(frame)] and [this.openReject?.(err)]. *)
Definition openResolve (frame : FileOpenResultFrame) (r : FileRuntimeStream) : FileRuntimeStream :=
  match fr_opening r with Opening_ => set_fr_opening (Opened frame) r | _ => r end.
Definition openReject (message : string) (r : FileRuntimeStream) : FileRuntimeStream :=
  match fr_opening r with Opening_ => set_fr_opening (OpenFailed message) r | _ => r end.

Definition waitForOpen (r : FileRuntimeStream) : FileRuntimeStream :=
  match fr_openResult r with
  | Some frame => set_fr_opening (Opened frame) r
  | None =>
      if fr_completed r then
        set_fr_opening (OpenFailed "file stream closed before open result") r
      else set_fr_opening Opening_ r
  end.

(** The timer of [waitForOpen]. *)
Definition openTimeout (r : FileRuntimeStream) : FileRuntimeStream :=
  openReject "file open timed out" r.

Definition handleOpenResult (frame : FileOpenResultFrame) (r : FileRuntimeStream)
  : FileRuntimeStream * bool :=
  if fr_completed r && negb (fr_closedBeforeOpenResult r) then (r, false)
  else
    let r := openResolve frame (set_fr_openResult (Some frame) r) in
    if fr_closedBeforeOpenResult r then (set_fr_completed true r, true) else (r, false).

(** How [handleData] goes on: it throws, returns at once, or the chunk was
    written and it returns, now or when the body drains, or throws when the body
    fails. *)
Inductive data_outcome := DataThrows (message : string) | DataIgnored | DataWritten.
#[export] Instance data_outcome_eq_dec : EqDecision data_outcome.
Proof. solve_decision. Defined.

Definition handleData (chunk : list byte) (r : FileRuntimeStream)
  : FileRuntimeStream * bool * data_outcome :=
  if fr_completed r then (r, false, DataThrows "file stream is already closed")
  else if zlen chunk =? 0 then (r, false, DataIgnored)
  else
    let nextReceivedBytes := fr_receivedBytes r + zlen chunk in
    match fr_maxReceivedBytes r with
    | Some max =>
        if nextReceivedBytes >? max then
          let message := "file response exceeded max bytes " +:+ pretty max in
          (on_body pt_destroy (openReject message (set_fr_completed true r)), true,
           DataThrows message)
        else (on_body (pt_write chunk) (set_fr_receivedBytes nextReceivedBytes r), false, DataWritten)
    | None => (on_body (pt_write chunk) (set_fr_receivedBytes nextReceivedBytes r), false, DataWritten)
    end.

Definition handleReset (reason : string) (error : option stream_error) (r : FileRuntimeStream)
  : FileRuntimeStream * bool :=
  if fr_completed r then (r, false)
  else
    let message := match error with Some e => se_message e | None => reason end in
    (on_body pt_destroy (openReject message (set_fr_completed true r)), true).

Definition handleClose (r : FileRuntimeStream) : FileRuntimeStream * bool :=
  if fr_completed r then (r, false)
  else match fr_openResult r with
       | None => (on_body pt_end (set_fr_closedBeforeOpenResult true r), false)
       | Some _ => (on_body pt_end (set_fr_completed true r), true)
       end.

Definition abortFromClient (r : FileRuntimeStream) : FileRuntimeStream * bool :=
  handleReset "client_closed"
    (Some (final_error "CLIENT_CLOSED" "browser client closed the file response")) r.

Definition isComplete (r : FileRuntimeStream) : bool := fr_completed r.

(** ** What the calls keep *)

Definition body_bytes (r : FileRuntimeStream) : list byte := concat (pt_chunks (fr_body r)).

(** The bytes of the body are among the bytes counted, and those within the
    bound; only a closed or completed stream has an ended body. *)
Record runtime_ok (r : FileRuntimeStream) : Prop := {
  rk_count : zlen (body_bytes r) <= fr_receivedBytes r;
  rk_bound : forall max, fr_maxReceivedBytes r = Some max -> 0 <= max -> fr_receivedBytes r <= max;
  rk_ended : pt_ended (fr_body r) = true ->
             fr_completed r = true \/ fr_closedBeforeOpenResult r = true;
}.

(** How a call may change the object. *)
Record runtime_grows (r r' : FileRuntimeStream) : Prop := {
  rg_streamId : fr_streamId r' = fr_streamId r;
  rg_operationId : fr_operationId r' = fr_operationId r;
  rg_max : fr_maxReceivedBytes r' = fr_maxReceivedBytes r;
  rg_completed : fr_completed r = true -> fr_completed r' = true;
  rg_body : pt_chunks (fr_body r) `prefix_of` pt_chunks (fr_body r');
  rg_final : fr_completed r = true -> pt_chunks (fr_body r') = pt_chunks (fr_body r);
  rg_received : fr_receivedBytes r <= fr_receivedBytes r';
}.

#[export] Instance runtime_grows_preorder : PreOrder runtime_grows.
Proof.
  split.
  - intros r. by constructor.
  - intros a b c [] []. constructor; try congruence; try (by etrans); try tauto; try lia.
    intros H. rewrite rg_final1; [by apply rg_final0|by apply rg_completed0].
Qed.

Lemma new_runtime_ok streamId operationId max : runtime_ok (new_runtime streamId operationId max).
Proof. by constructor. Qed.

Lemma body_bytes_write chunk r :
  zlen (body_bytes (on_body (pt_write chunk) r)) <= zlen (body_bytes r) + zlen chunk.
Proof.
  unfold body_bytes, on_body, pt_write. cbn. case_match; cbn; [unfold zlen; lia|].
  rewrite concat_app, zlen_app. cbn. rewrite app_nil_r. lia.
Qed.

(** A call leaves a good object, grown; [cleanup] goes with completion. *)
Definition call_ok (r : FileRuntimeStream) (call : FileRuntimeStream * bool) : Prop :=
  runtime_ok call.1 /\ runtime_grows r call.1
  /\ (fr_completed r = false -> fr_completed call.1 = true -> call.2 = true).

Lemma openReject_same message r :
  fr_completed (openReject message r) = fr_completed r
  /\ fr_body (openReject message r) = fr_body r
  /\ fr_receivedBytes (openReject message r) = fr_receivedBytes r
  /\ fr_closedBeforeOpenResult (openReject message r) = fr_closedBeforeOpenResult r
  /\ fr_maxReceivedBytes (openReject message r) = fr_maxReceivedBytes r
  /\ fr_streamId (openReject message r) = fr_streamId r
  /\ fr_operationId (openReject message r) = fr_operationId r.
Proof. unfold openReject. by case_match. Qed.

(** Case analysis on a call: every branch sets fields of the object. *)
Local Ltac call_cases :=
  repeat case_match; simplify_eq/=; (split_and!; [constructor|constructor|]); cbn in *;
  zbool; rewrite ?andb_true_iff, ?andb_false_iff, ?negb_true_iff, ?negb_false_iff in *;
  try done; try lia; eauto; try (intros; congruence); try naive_solver lia.

Lemma waitForOpen_ok r : runtime_ok r -> runtime_ok (waitForOpen r) /\ runtime_grows r (waitForOpen r).
Proof. intros [H1 H2 H3]. unfold waitForOpen. repeat case_match; split; constructor; cbn; try done; naive_solver. Qed.

Lemma openTimeout_ok r : runtime_ok r -> runtime_ok (openTimeout r) /\ runtime_grows r (openTimeout r).
Proof. intros [H1 H2 H3]. unfold openTimeout, openReject. repeat case_match; split; constructor; cbn; try done; naive_solver. Qed.

Lemma handleOpenResult_ok frame r : runtime_ok r -> call_ok r (handleOpenResult frame r).
Proof.
  intros [H1 H2 H3]. unfold handleOpenResult, call_ok, openResolve. call_cases.
Qed.

Lemma handleReset_ok reason error r : runtime_ok r -> call_ok r (handleReset reason error r).
Proof. intros [H1 H2 H3]. unfold handleReset, call_ok, openReject. call_cases. Qed.

Lemma handleClose_ok r : runtime_ok r -> call_ok r (handleClose r).
Proof. intros [H1 H2 H3]. unfold handleClose, call_ok. call_cases. Qed.

Lemma written_ok chunk n r : runtime_ok r -> fr_completed r = false -> n = fr_receivedBytes r + zlen chunk ->
  (forall max, fr_maxReceivedBytes r = Some max -> 0 <= max -> n <= max) ->
  call_ok r (on_body (pt_write chunk) (set_fr_receivedBytes n r), false).
Proof.
  intros [H1 H2 H3] Hc -> Hn. pose proof (body_bytes_write chunk r) as Hb.
  pose proof (zlen_nonneg chunk). unfold call_ok. cbn [fst snd].
  split_and!; [constructor|constructor|by cbn; rewrite Hc]; cbn; try done.
  - unfold body_bytes in *. cbn in *. lia.
  - unfold pt_write. by case_match.
  - unfold pt_write. case_match; cbn; [done|by apply prefix_app_r].
  - by rewrite Hc.
  - lia.
Qed.

Lemma handleData_ok chunk r : runtime_ok r -> call_ok r (handleData chunk r).1.
Proof.
  intros Hr. unfold handleData. destruct (fr_completed r) eqn:Ec; [by split_and!; [..|cbn; congruence]|].
  case_match eqn:Ez; [by split_and!; [..|cbn; congruence]|].
  destruct (fr_maxReceivedBytes r) as [max|] eqn:Em.
  - case_match eqn:Eg; cbn [fst].
    + destruct Hr as [H1 H2 H3]. unfold call_ok, openReject. call_cases.
    + apply written_ok; try done. rewrite Em. intros max' [= <-] _. zbool. lia.
  - apply written_ok; try done. by rewrite Em.
Qed.
