(* ===== verification/FileSessions.v ===== *)
(** File sessions ([service/src/files/file-session.ts], the routes of
    [routes/files.ts] that create, read, list and revoke them, and the
    [file_session] table of [db/schema.ts]), and the world the file code runs in.

    [fworld] holds the tables the code reads and writes, the data plane and the
    daemon state store with it ([fw_plane]), the routers, the objects of the open
    file streams and the clock. The columns of [bud], [thread] and
    [terminal_session] are those the queries read. Authentication is not modelled:
    a handler starts with the viewer [requireViewer] found.

    [fw_history] is a history for the theorems. *)
From Stdlib Require Import Strings.Byte ZArith QArith Qround Lia.
From stdpp Require Import base tactics strings gmap sorting option pretty.
From stdpp Require Import list.
From S2P Require Import Prelude JsRuntime Base64 Json JsText DaemonState Carrier DataPlane.
From S2P Require Import ControlRouters FilePaths FileRuntime Jobs.
Open Scope Z_scope.

(** ** The table *)

Inductive FileSessionState := SessionReady | SessionUnavailable | SessionRevoked | SessionExpired.
#[export] Instance file_session_state_eq_dec : EqDecision FileSessionState.
Proof. solve_decision. Defined.

Record FileSessionRow := mkFileSession {
  fs_budId : string;
  fs_threadId : option string;
  fs_operationId : option string;
  fs_activeStreamId : option string;
  fs_rootKey : string;
  fs_relativePath : string;
  fs_permissions : list string;
  fs_maxBytes : Z;
  fs_state : FileSessionState;
  fs_contentIdentity : option (list (string * jsval));
  fs_displayMetadata : list (string * jsval);
  fs_auditCorrelationId : string;
  fs_expiresAt : Z;
  fs_revokedAt : option Z;
  fs_revokedByUserId : option string;
  fs_revokeReason : option string;
  fs_tenantId : option string;
  fs_createdByUserId : option string;
  fs_createdAt : Z;
  fs_updatedAt : Z;
}.

(** The columns the updates of [file-session.ts] and [file-edge.ts] write. *)
Definition set_revoked (by_ reason : string) (now : Z) (r : FileSessionRow) : FileSessionRow :=
  mkFileSession (fs_budId r) (fs_threadId r) (fs_operationId r) (fs_activeStreamId r) (fs_rootKey r)
    (fs_relativePath r) (fs_permissions r) (fs_maxBytes r) SessionRevoked (fs_contentIdentity r)
    (fs_displayMetadata r) (fs_auditCorrelationId r) (fs_expiresAt r) (Some now) (Some by_)
    (Some reason) (fs_tenantId r) (fs_createdByUserId r) (fs_createdAt r) now.
Definition set_stream (operationId : option string) (streamId : option string) (now : Z)
    (r : FileSessionRow) : FileSessionRow :=
  mkFileSession (fs_budId r) (fs_threadId r) (keep operationId (fs_operationId r)) streamId
    (fs_rootKey r) (fs_relativePath r) (fs_permissions r) (fs_maxBytes r) (fs_state r)
    (fs_contentIdentity r) (fs_displayMetadata r) (fs_auditCorrelationId r) (fs_expiresAt r)
    (fs_revokedAt r) (fs_revokedByUserId r) (fs_revokeReason r) (fs_tenantId r)
    (fs_createdByUserId r) (fs_createdAt r) now.
Definition set_identity (identity : list (string * jsval)) (now : Z) (r : FileSessionRow)
  : FileSessionRow :=
  mkFileSession (fs_budId r) (fs_threadId r) (fs_operationId r) (fs_activeStreamId r) (fs_rootKey r)
    (fs_relativePath r) (fs_permissions r) (fs_maxBytes r) (fs_state r) (Some identity)
    (fs_displayMetadata r) (fs_auditCorrelationId r) (fs_expiresAt r) (fs_revokedAt r)
    (fs_revokedByUserId r) (fs_revokeReason r) (fs_tenantId r) (fs_createdByUserId r)
    (fs_createdAt r) now.

(** The columns of the other tables the queries read. *)
Record BudColumns := mkBud { bd_createdByUserId : option string; bd_capabilities : jsval }.
Record ThreadColumns := mkThread {
  th_budId : string; th_createdByUserId : option string; th_deletedAt : option Z }.
Record MessageColumns := mkMessage {
  mg_threadId : string; mg_createdByUserId : option string; mg_metadata : jsval }.
Record TerminalColumns := mkTerminal { tm_threadId : option string; tm_budId : string; tm_closedAt : option Z }.

(** ** The world *)

Inductive http_method := GET | HEAD.
#[export] Instance http_method_eq_dec : EqDecision http_method.
Proof. solve_decision. Defined.

(** What a call of [openFileEdgeStream] works with: its arguments, the carrier and
    the ids it has chosen. *)
Record edge_call := mkCall {
  ec_viewer : string;
  ec_fileSessionId : string;
  ec_session : FileSessionRow;
  ec_mode : string;
  ec_range : FileRange;
  ec_transport : DataPlaneSessionTracker;        (** of [args.transportStatus] *)
  ec_tracker : nat;                              (** [dataTracker] *)
  ec_data : DataPlaneSessionTracker;
  ec_operationId : string;
  ec_streamId : string;
  ec_terminalSessionId : option string;
}.

(** The variables of the call once its stream is built, and which of its timers
    and listeners are set; [es_planeStream] is the data-plane stream it registered. *)
Record EdgeStream := mkEdge {
  es_call : edge_call;
  es_runtime : FileRuntimeStream;
  es_planeStream : nat;
  es_responseCompleted : bool;
  es_idleTimer : bool;
  es_ttlTimer : bool;
  es_onAborted : bool;
  es_onClosed : bool;
  es_onEnd : bool;
}.

(** Work started and not waited for. *)
Inductive detached :=
  | ClearActiveStream (streamId : string)
  | CancelStream (streamId : string)
  | CancelOperation (operationId : string).

(** What a thrown error says. *)
Inductive thrown :=
  | ValidationError (code message : string)
  | OtherError (message : string).

(** The promise of [waitForFileResolveResult]. *)
Inductive resolve_promise :=
  | Resolving
  | Resolved (frame : FileResolveResultFrame)
  | ResolveFailed (message : string).

(** An answer to a request: a JSON error, a JSON value, or a file response. *)
Inductive reply :=
  | Refusal (status : Z) (error message : string)
  | Answer (status : Z) (body : list (string * jsval))
  | FileEmpty (status : Z) (headers : list (string * string))
  | FileBody (status : Z) (headers : list (string * string)) (streamId : string).

Inductive history_event :=
  (* a request was given the row of its session *)
  | Looked (viewer fileSessionId : string) (row : FileSessionRow)
  (* and let through at a time *)
  | Allowed (viewer fileSessionId : string) (permission : string) (at_ : Z)
  | Revoked (fileSessionId : string)
  (* a [file_open] frame a carrier took *)
  | OpenSent (stream : nat) (call : edge_call) (budId : string) (sent : frame)
  (* a chunk the stream counted, and the answer to the request *)
  | Received (stream : nat) (chunk : list byte)
  | Replied (stream : nat) (answer : reply).

Record fworld := mkFw {
  fw_now : Z;
  fw_sessions : gmap string FileSessionRow;
  fw_buds : gmap string BudColumns;
  fw_threads : gmap string ThreadColumns;
  fw_terminals : gmap string TerminalColumns;
  fw_messages : gmap string MessageColumns;
  fw_plane : world;
  fw_routers : routers;
  fw_streams : gmap nat EdgeStream;           (** the objects, by reference *)
  fw_next : nat;
  fw_registry : list (string * nat);          (** [fileRuntimeStreams] *)
  fw_pending : list (string * nat);           (** [pendingFileResolves] *)
  fw_promises : list resolve_promise;
  fw_drawn : nat;
  fw_detached : list detached;
  fw_history : list history_event;
}.

Definition set_fw_now (v : Z) (w : fworld) : fworld :=
  mkFw v (fw_sessions w) (fw_buds w) (fw_threads w) (fw_terminals w) (fw_messages w)
    (fw_plane w) (fw_routers w) (fw_streams w) (fw_next w) (fw_registry w) (fw_pending w)
    (fw_promises w) (fw_drawn w) (fw_detached w) (fw_history w).
Definition set_fw_sessions (v : gmap string FileSessionRow) (w : fworld) : fworld :=
  mkFw (fw_now w) v (fw_buds w) (fw_threads w) (fw_terminals w) (fw_messages w) (fw_plane w)
    (fw_routers w) (fw_streams w) (fw_next w) (fw_registry w) (fw_pending w) (fw_promises w)
    (fw_drawn w) (fw_detached w) (fw_history w).
Definition set_fw_plane (v : world) (w : fworld) : fworld :=
  mkFw (fw_now w) (fw_sessions w) (fw_buds w) (fw_threads w) (fw_terminals w) (fw_messages w) v
    (fw_routers w) (fw_streams w) (fw_next w) (fw_registry w) (fw_pending w) (fw_promises w)
    (fw_drawn w) (fw_detached w) (fw_history w).
Definition set_fw_routers (v : routers) (w : fworld) : fworld :=
  mkFw (fw_now w) (fw_sessions w) (fw_buds w) (fw_threads w) (fw_terminals w) (fw_messages w)
    (fw_plane w) v (fw_streams w) (fw_next w) (fw_registry w) (fw_pending w) (fw_promises w)
    (fw_drawn w) (fw_detached w) (fw_history w).
Definition set_fw_streams (v : gmap nat EdgeStream) (w : fworld) : fworld :=
  mkFw (fw_now w) (fw_sessions w) (fw_buds w) (fw_threads w) (fw_terminals w) (fw_messages w)
    (fw_plane w) (fw_routers w) v (fw_next w) (fw_registry w) (fw_pending w) (fw_promises w)
    (fw_drawn w) (fw_detached w) (fw_history w).
Definition set_fw_next (v : nat) (w : fworld) : fworld :=
  mkFw (fw_now w) (fw_sessions w) (fw_buds w) (fw_threads w) (fw_terminals w) (fw_messages w)
    (fw_plane w) (fw_routers w) (fw_streams w) v (fw_registry w) (fw_pending w) (fw_promises w)
    (fw_drawn w) (fw_detached w) (fw_history w).
Definition set_fw_registry (v : list (string * nat)) (w : fworld) : fworld :=
  mkFw (fw_now w) (fw_sessions w) (fw_buds w) (fw_threads w) (fw_terminals w) (fw_messages w)
    (fw_plane w) (fw_routers w) (fw_streams w) (fw_next w) v (fw_pending w) (fw_promises w)
    (fw_drawn w) (fw_detached w) (fw_history w).
Definition set_fw_pending (v : list (string * nat)) (w : fworld) : fworld :=
  mkFw (fw_now w) (fw_sessions w) (fw_buds w) (fw_threads w) (fw_terminals w) (fw_messages w)
    (fw_plane w) (fw_routers w) (fw_streams w) (fw_next w) (fw_registry w) v (fw_promises w)
    (fw_drawn w) (fw_detached w) (fw_history w).
Definition set_fw_promises (v : list resolve_promise) (w : fworld) : fworld :=
  mkFw (fw_now w) (fw_sessions w) (fw_buds w) (fw_threads w) (fw_terminals w) (fw_messages w)
    (fw_plane w) (fw_routers w) (fw_streams w) (fw_next w) (fw_registry w) (fw_pending w) v
    (fw_drawn w) (fw_detached w) (fw_history w).
Definition set_fw_drawn (v : nat) (w : fworld) : fworld :=
  mkFw (fw_now w) (fw_sessions w) (fw_buds w) (fw_threads w) (fw_terminals w) (fw_messages w)
    (fw_plane w) (fw_routers w) (fw_streams w) (fw_next w) (fw_registry w) (fw_pending w)
    (fw_promises w) v (fw_detached w) (fw_history w).
Definition set_fw_detached (v : list detached) (w : fworld) : fworld :=
  mkFw (fw_now w) (fw_sessions w) (fw_buds w) (fw_threads w) (fw_terminals w) (fw_messages w)
    (fw_plane w) (fw_routers w) (fw_streams w) (fw_next w) (fw_registry w) (fw_pending w)
    (fw_promises w) (fw_drawn w) v (fw_history w).
Definition note (e : history_event) (w : fworld) : fworld :=
  mkFw (fw_now w) (fw_sessions w) (fw_buds w) (fw_threads w) (fw_terminals w) (fw_messages w)
    (fw_plane w) (fw_routers w) (fw_streams w) (fw_next w) (fw_registry w) (fw_pending w)
    (fw_promises w) (fw_drawn w) (fw_detached w) (fw_history w ++ [e]).

(** The ids [ulid()] draws, one after the other. *)
Class FileIds := file_ulid : nat -> string.

(** The configuration the file code reads. *)
Record FileConfig := mkFileConfig {
  cf_policy : DaemonTransportPolicy;
  cf_fileSessionDefaultMaxBytes : Z;
  cf_maxConcurrentFileStreams : Z;
}.

Notation fjob := (job fworld thrown).

(** A statement of the daemon state store on the shared database. *)
Definition on_db {A} (st : fworld -> db -> outcome A) (w : fworld) : thrown + fworld :=
  match st w (w_db (fw_plane w)) with
  | Throws m => inl (OtherError m)
  | Returns _ d => inr (set_fw_plane (set_w_db d (fw_plane w)) w)
  end.
Definition db_stmt {A} (st : fworld -> db -> outcome A) : fjob unit := exec (on_db st).

(** [prefix + ulid()]. *)
Definition draw_ulid `{FileIds} : fjob string :=
  sync (fun w => set_fw_drawn (S (fw_drawn w)) w) (fun w => file_ulid (fw_drawn w)).

(** A check inside a job. *)
Definition checking {A} (c : checked A) : fjob A :=
  match c with Valid a => mret a | Invalid code message => Raise (ValidationError code message) end.

(** ** Sessions *)

Definition FILE_READ_STREAM_TYPE : string := "file_read".
Definition DEFAULT_FILE_SESSION_TTL_SECONDS : Z := 15 * 60.
Definition MIN_FILE_SESSION_TTL_SECONDS : Z := 60.
Definition MAX_FILE_SESSION_TTL_SECONDS : Z := 60 * 60.
Definition MAX_FILE_SESSION_MAX_BYTES : Z := 1024 * 1024 * 1024.
Definition VIEWER_FILE_SESSION_MAX_BYTES : Z := 1024 * 1024.

Record CreateFileSessionBody := mkCreateBody {
  cb_root_key : string;
  cb_relative_path : string;
  cb_permissions : option (list string);
  cb_max_bytes : Z;
  cb_ttl_seconds : Z;
  cb_thread_id : option string;
  cb_display_metadata : list (string * jsval);
}.

(** [orderBy(desc(createdAt))]. *)
Definition newest_first (a b : string * FileSessionRow) : Prop := fs_createdAt b.2 <= fs_createdAt a.2.
#[export] Instance newest_first_dec a b : Decision (newest_first a b).
Proof. unfold newest_first. apply _. Defined.

(** [is_uuid] and [issue_message] are zod's: the shape of a uuid and the message of
    the first issue of a body it refuses; [file_url] is [new URL(path, base)]. *)
Section sessions.
Context `{FileIds} (config : FileConfig).
Context (is_uuid : string -> bool) (issue_message : jsval -> string) (file_url : string -> string).

Definition DEFAULT_FILE_SESSION_MAX_BYTES : Z :=
  Z.min (cf_fileSessionDefaultMaxBytes config) MAX_FILE_SESSION_MAX_BYTES.

Definition string_array (v : jsval) : option (list string) :=
  match v with JArr l => mapM as_string l | _ => None end.
Definition bounded_text (lo hi : Z) (v : jsval) : option string :=
  s ← as_string v; if (lo <=? js_length s) && (js_length s <=? hi) then Some s else None.
Definition uuid_text (v : jsval) : option string :=
  s ← as_string v; if is_uuid s then Some s else None.

(** [CreateFileSessionBodySchema.safeParse(request.body ?? {})]. *)
Definition parse_create_body (body : jsval) : option CreateFileSessionBody :=
  match (match body with JUndef | JNull => JObj [] | v => v end) with
  | JObj fs =>
      let field k := field_lookup k fs in
      root ← optional as_string (field "root_key");
      path ← bounded_text 1 4096 (field "relative_path");
      permissions ← optional string_array (field "permissions");
      bytes ← optional (int_between 1 (Some MAX_FILE_SESSION_MAX_BYTES)) (field "max_bytes");
      ttl ← optional (int_between MIN_FILE_SESSION_TTL_SECONDS (Some MAX_FILE_SESSION_TTL_SECONDS))
              (field "ttl_seconds");
      thread ← optional uuid_text (field "thread_id");
      metadata ← optional as_record (field "display_metadata");
      Some (mkCreateBody (root ?? DEFAULT_FILE_ROOT_KEY) path permissions
              (bytes ?? DEFAULT_FILE_SESSION_MAX_BYTES) (ttl ?? DEFAULT_FILE_SESSION_TTL_SECONDS)
              thread (metadata ?? []))
  | _ => None
  end.

(** [resolveFileTransportStatus]. *)
Definition resolveFileTransportStatus (budId : string) (w : fworld) : DataPlaneCarrierSelection :=
  selectDataPlaneCarrier (cf_policy config) budId None FILE_READ_STREAM_TYPE None None (fw_plane w).

Definition transport_available (s : DataPlaneCarrierSelection) : bool :=
  match s with Available _ _ _ _ _ => true | Unavailable _ _ _ _ _ _ => false end.

Definition unavailable_code (c : DataPlaneUnavailableCode) : string :=
  match c with
  | DATA_PLANE_UNAVAILABLE => "DATA_PLANE_UNAVAILABLE"
  | STREAM_FAMILY_UNSUPPORTED => "STREAM_FAMILY_UNSUPPORTED"
  | TRANSPORT_DEGRADED => "TRANSPORT_DEGRADED"
  end.

(** [serializeFileTransportStatus]. *)
Definition serializeFileTransportStatus (s : DataPlaneCarrierSelection) : list (string * jsval) :=
  let tracker := match s with
                 | Available _ t _ _ _ => Some t | Unavailable _ _ t _ _ _ => snd <$> t end in
  let of_tracker (f : DataPlaneSessionTracker -> option string) := ostr_value (tracker ≫= f) in
  [("available", JBool (transport_available s));
   ("code", match s with
            | Available _ _ _ _ _ => JNull | Unavailable c _ _ _ _ _ => JStr (unavailable_code c) end);
   ("message", match s with
               | Available _ _ _ _ _ => JNull | Unavailable _ m _ _ _ _ => JStr m end);
   ("device_session_id", of_tracker (fun t => Some (dt_deviceSessionId t)));
   ("control_transport_session_id", of_tracker dt_controlTransportSessionId);
   ("data_transport_session_id", of_tracker dt_transportSessionId);
   ("transport_kind", of_tracker (fun t => Some (kind_name (dt_transportKind t))));
   ("health", serializeCarrierHealth
                match s with Available _ _ h _ _ => Some h | Unavailable _ _ _ h _ _ => h end);
   ("selection_reason", JStr match s with Available _ _ _ r _ | Unavailable _ _ _ _ r _ => r end);
   ("candidate_transports", JArr (serializeCarrierSelectionCandidate <$>
      match s with Available _ _ _ _ c | Unavailable _ _ _ _ _ c => c end))].

Definition session_state (s : DataPlaneCarrierSelection) : FileSessionState :=
  if transport_available s then SessionReady else SessionUnavailable.
Definition state_name (s : FileSessionState) : string :=
  match s with
  | SessionReady => "ready" | SessionUnavailable => "unavailable"
  | SessionRevoked => "revoked" | SessionExpired => "expired"
  end.

(** [insert file_session]. *)
Definition insert_file_session (id : string) (row : FileSessionRow) (w : fworld) : thrown + fworld :=
  if bool_decide (is_Some (fw_sessions w !! id)) then inl (OtherError "unique_violation")
  else if negb (fk_ok (Some (fs_budId row)) (fw_buds w)) || negb (fk_ok (fs_threadId row) (fw_threads w))
  then inl (OtherError "foreign_key_violation")
  else inr (set_fw_sessions (<[id := row]> (fw_sessions w)) w).

Definition audit (type : string) (budId viewer : string) (operationId streamId : option string)
    (data : list (string * jsval)) (ulid : string) (w : fworld) (d : db) : outcome (string * AuditEventRow) :=
  appendAuditEvent
    (mkAuditArgs (Some ("aud_" +:+ ulid)) type (Some data) (Some budId) (Some viewer) operationId
       streamId (Some viewer) None) "" (fw_now w) d.

(** The row [createFileSession] inserts. *)
Definition new_file_session (viewer budId : string) (body : CreateFileSessionBody) (rootKey relativePath : string)
    (permissions : list string) (status : DataPlaneCarrierSelection)
    (identity : option (list (string * jsval))) (correlation : string) (now dbnow : Z)
  : FileSessionRow :=
  mkFileSession budId (cb_thread_id body) None None rootKey relativePath permissions
    (cb_max_bytes body) (session_state status) identity (cb_display_metadata body) correlation
    (now + cb_ttl_seconds body * 1000) None None None None (Some viewer) dbnow dbnow.

Definition opt_record (o : option (list (string * jsval))) : jsval :=
  match o with Some fs => JObj fs | None => JNull end.

(** [createFileSession]; the two inserts are one transaction. *)
Definition createFileSession (viewer budId : string) (body : CreateFileSessionBody)
    (transportStatus : option DataPlaneCarrierSelection) (identity : option (list (string * jsval)))
  : fjob (string * FileSessionRow * DataPlaneCarrierSelection) :=
  rootKey ← checking (normalizeFileRootKey (cb_root_key body));
  relativePath ← checking (normalizeFileRelativePath (cb_relative_path body));
  permissions ← checking (normalizeFileSessionPermissions (cb_permissions body));
  status ← ask (fun w => transportStatus ?? resolveFileTransportStatus budId w);
  now ← ask fw_now;
  session ← draw_ulid;
  correlation ← draw_ulid;
  event ← draw_ulid;
  let id := "fs_" +:+ session in
  let correlation := "fc_" +:+ correlation in
  let row dbnow := new_file_session viewer budId body rootKey relativePath permissions status identity
                     correlation now dbnow in
  row ← stmt (fun w =>
           match insert_file_session id (row (fw_now w)) w with
           | inl e => inl e
           | inr w =>
               on_db (audit "file.session_create" budId viewer None None
                 [("file_session_id", JStr id); ("audit_correlation_id", JStr correlation);
                  ("thread_id", ostr_value (cb_thread_id body)); ("root_key", JStr rootKey);
                  ("relative_path", JStr relativePath);
                  ("permissions", JArr (JStr <$> permissions));
                  ("max_bytes", JNum (JFin (inject_Z (cb_max_bytes body))));
                  ("state", JStr (state_name (session_state status)));
                  ("transport", JObj (serializeFileTransportStatus status));
                  ("content_identity", opt_record identity)] event) w
           end)
        (fun w => row (fw_now w));
  mret (id, row, status).

Definition owned_by (viewer : string) (r : FileSessionRow) : bool :=
  bool_decide (fs_createdByUserId r = Some viewer).

Definition find_session (viewer fileSessionId : string) (w : fworld) : option FileSessionRow :=
  r ← fw_sessions w !! fileSessionId; if owned_by viewer r then Some r else None.

Definition getAuthorizedFileSession (viewer fileSessionId : string) : fjob (option FileSessionRow) :=
  stmt (fun w => inr (match find_session viewer fileSessionId w with
                      | Some r => note (Looked viewer fileSessionId r) w | None => w end))
    (find_session viewer fileSessionId).

(** Rows of a bud, newest first; rows of one moment as the table lists them. *)
Definition listAuthorizedFileSessionsForBud (viewer budId : string) (limit : option nat)
  : fjob (list (string * FileSessionRow)) :=
  query (fun w =>
    take (limit ?? 50%nat)
      (merge_sort newest_first
        (List.filter (fun x : string * FileSessionRow =>
                        bool_decide (fs_budId x.2 = budId) && owned_by viewer x.2)
           (map_to_list (fw_sessions w))))).

(** The update of [revokeAuthorizedFileSession]: the rows it returns. *)
Definition revoke_rows (viewer fileSessionId reason : string) (now : Z) (w : fworld) : fworld :=
  match find_session viewer fileSessionId w with
  | Some r =>
      note (Revoked fileSessionId)
        (set_fw_sessions (<[fileSessionId := set_revoked viewer reason now r]> (fw_sessions w)) w)
  | None => w
  end.

Definition revokeAuthorizedFileSession (viewer fileSessionId : string) (reason : option string)
  : fjob (option FileSessionRow) :=
  existing ← getAuthorizedFileSession viewer fileSessionId;
  match existing with
  | None => mret None
  | Some existing =>
      if match fs_revokedAt existing with Some _ => true | None => false end then mret (Some existing)
      else
        now ← ask fw_now;
        let reason := reason ?? "user_requested" in
        row ← stmt (fun w => inr (revoke_rows viewer fileSessionId reason now w))
                (fun w => set_revoked viewer reason now <$> find_session viewer fileSessionId w);
        event ← draw_ulid;
        db_stmt (audit "file.session_revoke" (fs_budId existing) viewer None None
          [("file_session_id", JStr fileSessionId);
           ("audit_correlation_id", JStr (fs_auditCorrelationId existing));
           ("reason", JStr reason)] event);;
        mret (Some (row ?? existing))
  end.

Definition getAuthorizedThreadForFileSession (viewer threadId budId : string) : fjob bool :=
  query (fun w =>
    match fw_threads w !! threadId with
    | Some t => bool_decide (th_budId t = budId) && bool_decide (th_createdByUserId t = Some viewer)
    | None => false
    end).

Definition effectiveFileSessionState (now : Z) (r : FileSessionRow) : FileSessionState :=
  match fs_revokedAt r with
  | Some _ => SessionRevoked
  | None => if fs_expiresAt r <=? now then SessionExpired else fs_state r
  end.

Definition filePermissionAllowedForSession (r : FileSessionRow) (permission : string) : bool :=
  bool_decide (permission ∈ fs_permissions r).

(** ** The routes *)

(** [serializeFileSession]. *)
Definition serializeFileSession (id : string) (r : FileSessionRow)
    (status : option DataPlaneCarrierSelection) (now : Z) : list (string * jsval) :=
  [("file_session_id", JStr id); ("bud_id", JStr (fs_budId r));
   ("thread_id", ostr_value (fs_threadId r)); ("operation_id", ostr_value (fs_operationId r));
   ("active_stream_id", ostr_value (fs_activeStreamId r));
   ("root", JObj [("key", JStr (fs_rootKey r))]);
   ("path", JObj [("raw_path", match field_lookup "raw_path" (fs_displayMetadata r) with
                               | JStr p => JStr p | _ => JNull end);
                  ("relative_path", JStr (fs_relativePath r))]);
   ("permissions", JArr (JStr <$> fs_permissions r));
   ("state", JStr (state_name (effectiveFileSessionState now r)));
   ("file_url", JStr (file_url ("/api/files/" +:+ id)));
   ("max_bytes", JNum (JFin (inject_Z (fs_maxBytes r))));
   ("content_identity", opt_record (fs_contentIdentity r));
   ("expires_at", JStr (toISOString (fs_expiresAt r)));
   ("revoked_at", match fs_revokedAt r with Some t => JStr (toISOString t) | None => JNull end);
   ("audit_correlation_id", JStr (fs_auditCorrelationId r));
   ("display_metadata", JObj (fs_displayMetadata r));
   ("transport", match status with
                 | Some s => JObj (serializeFileTransportStatus s) | None => JNull end);
   ("degraded", match status with
                | Some (Unavailable code message _ _ _ _) =>
                    JObj [("available", JBool false); ("code", JStr (unavailable_code code));
                          ("message", JStr message)]
                | _ => JNull end);
   ("created_at", JStr (toISOString (fs_createdAt r)));
   ("updated_at", JStr (toISOString (fs_updatedAt r)))].

Definition getAuthorizedBud (viewer budId : string) : fjob bool :=
  query (fun w =>
    match fw_buds w !! budId with
    | Some b => bool_decide (bd_createdByUserId b = Some viewer)
    | None => false
    end).

(** [z.string().min(1)] of a path parameter; zod throws. *)
Definition required_param (s : string) : fjob unit :=
  if str_truthy s then mret tt else Raise (OtherError "ZodError").

Definition bud_not_found : reply := Refusal 404 "bud_not_found" "".
Definition session_not_found : reply := Refusal 404 "file_session_not_found" "".

(** [POST /api/buds/:budId/file-sessions]. *)
Definition create_route (viewer budId : string) (rawBody : jsval) : fjob reply :=
  required_param budId;;
  authorized ← getAuthorizedBud viewer budId;
  if negb authorized then mret bud_not_found
  else
    match parse_create_body rawBody with
    | None => mret (Refusal 400 "invalid_file_session_request" (issue_message rawBody))
    | Some body =>
        thread ← match cb_thread_id body with
                 | Some t => if str_truthy t
                             then getAuthorizedThreadForFileSession viewer t budId else mret true
                 | None => mret true
                 end;
        if negb thread then mret (Refusal 404 "thread_not_found" "")
        else
          job_catch
            ('(id, row, status) ← createFileSession viewer budId body None None;
             now ← ask fw_now;
             mret (Answer 201 (serializeFileSession id row (Some status) now)))
            (fun e => match e with
                      | ValidationError code message => mret (Refusal 400 code message)
                      | _ => Raise e
                      end)
    end.

(** [GET /api/buds/:budId/file-sessions]. *)
Definition list_route (viewer budId : string) : fjob reply :=
  required_param budId;;
  authorized ← getAuthorizedBud viewer budId;
  if negb authorized then mret bud_not_found
  else
    status ← ask (resolveFileTransportStatus budId);
    rows ← listAuthorizedFileSessionsForBud viewer budId None;
    now ← ask fw_now;
    mret (Answer 200
      [("file_sessions", JArr ((fun x : string * FileSessionRow =>
          JObj (serializeFileSession x.1 x.2 (Some status) now)) <$> rows));
       ("transport", JObj (serializeFileTransportStatus status))]).

(** [GET /api/file-sessions/:fileSessionId]. *)
Definition read_route (viewer fileSessionId : string) : fjob reply :=
  required_param fileSessionId;;
  found ← getAuthorizedFileSession viewer fileSessionId;
  match found with
  | None => mret session_not_found
  | Some r =>
      status ← ask (resolveFileTransportStatus (fs_budId r));
      now ← ask fw_now;
      mret (Answer 200 (serializeFileSession fileSessionId r (Some status) now))
  end.

(** [RevokeFileSessionBodySchema]: the reason, stripped of white space. *)
Definition parse_revoke_body (body : jsval) : option (option string) :=
  match (match body with JUndef | JNull => JObj [] | v => v end) with
  | JObj fs =>
      optional (fun v => s ← as_string v; bounded_text 1 200 (JStr (trim s)))
        (field_lookup "reason" fs)
  | _ => None
  end.

(** [DELETE /api/file-sessions/:fileSessionId]. *)
Definition revoke_route (viewer fileSessionId : string) (rawBody : jsval) : fjob reply :=
  required_param fileSessionId;;
  match parse_revoke_body rawBody with
  | None => mret (Refusal 400 "invalid_revoke_request" "")
  | Some reason =>
      revoked ← revokeAuthorizedFileSession viewer fileSessionId reason;
      match revoked with
      | None => mret session_not_found
      | Some r =>
          status ← ask (resolveFileTransportStatus (fs_budId r));
          now ← ask fw_now;
          mret (Answer 200 (serializeFileSession fileSessionId r (Some status) now))
      end
  end.
End sessions.
