(* ===== verification/FileResolve.v ===== *)
(** Opening a file a message names: the preflight of absolute paths
    ([service/src/files/file-resolve.ts]) and the route behind a click in the
    viewer ([routes/threads/files.ts]).

    A promise of [waitForFileResolveResult] is an entry of [fw_promises];
    [fw_pending] is the map of the operations that wait. *)
From Stdlib Require Import Strings.Byte ZArith QArith Qround Lia.
From stdpp Require Import base tactics strings gmap sorting option pretty.
From stdpp Require Import list.
From S2P Require Import Prelude JsRuntime Base64 Json JsText DaemonState Carrier DataPlane.
From S2P Require Import ControlRouters FilePaths FileRuntime Jobs FileSessions.
Open Scope Z_scope.

Definition num (z : Z) : jsval := JNum (JFin (inject_Z z)).

(** ** The preflight *)

Definition buildFileResolveControlFrame (operationId requestedPath messageId : string) (sentAt : Z)
    (maxBytes : option Z) : list (string * jsval) :=
  [("proto", JStr PROTO_VERSION); ("type", JStr "file_resolve"); ("id", JStr messageId);
   ("ts", num sentAt); ("ext", JObj []); ("operation_id", JStr operationId);
   ("root_key", JStr DEFAULT_FILE_ROOT_KEY); ("requested_path", JStr requestedPath);
   ("requested_path_kind", JStr "absolute_posix");
   ("max_bytes", num (maxBytes ?? VIEWER_FILE_SESSION_MAX_BYTES))].

(** The timer is the entry's own: it goes with the entry. *)
Definition clearPendingFileResolve (operationId : string) (w : fworld) : fworld :=
  set_fw_pending (JsMap.delete operationId (fw_pending w)) w.

(** The promise, by its place. *)
Definition waitForFileResolveResult (operationId : string) (w : fworld) : nat * fworld :=
  let w := clearPendingFileResolve operationId w in
  let p := length (fw_promises w) in
  (p, set_fw_pending (JsMap.set operationId p (fw_pending w))
        (set_fw_promises (fw_promises w ++ [Resolving]) w)).

(** The entry of an operation settles its promise and goes. *)
Definition settle_resolve (operationId : string) (v : resolve_promise) (w : fworld) : fworld :=
  match JsMap.get operationId (fw_pending w) with
  | None => w
  | Some p => set_fw_promises (<[p := v]> (fw_promises w)) (clearPendingFileResolve operationId w)
  end.

(** The timer of an entry. *)
Definition resolveTimeout (operationId : string) : fworld -> fworld :=
  settle_resolve operationId (ResolveFailed "file resolve timed out").

Definition handleFileResolveResult (raw : jsval) (w : fworld)
  : option FileResolveResultFrame * fworld :=
  match parse_resolve_result raw with
  | None => (None, w)
  | Some f => (Some f, settle_resolve (rf_operation_id f) (Resolved f) w)
  end.

Definition daemonSupportsAbsoluteFileResolve (capabilities : jsval) : bool :=
  match as_record capabilities with
  | None => false
  | Some fs =>
      match as_record (field_lookup "files" fs) with
      | None => false
      | Some files =>
          match field_lookup "resolve" files with
          | JObj r => match field_lookup "absolute_posix" r with JBool b => b | _ => false end
          | _ => false
          end
      end
  end.

Definition authorizedBudSupportsAbsoluteFileResolve (budId viewer : string) : fjob bool :=
  query (fun w =>
    match fw_buds w !! budId with
    | Some b => bool_decide (bd_createdByUserId b = Some viewer)
                && daemonSupportsAbsoluteFileResolve (bd_capabilities b)
    | None => false
    end).

Definition await_resolve (p : nat) : fjob (string + FileResolveResultFrame) :=
  Until (fun w =>
    match fw_promises w !! p with
    | Some (Resolved f) => Some (Return (inr f))
    | Some (ResolveFailed m) => Some (Return (inl m))
    | _ => None
    end).

Section resolve.
Context `{FileIds} (config : FileConfig) (is_uuid : string -> bool) (issue_message : jsval -> string).
Context (file_url : string -> string).
(** What the control carriers take ([ControlRouters]), and the message of a send that
    throws. *)
Context (drain : option GatewayDrainState) (ws_sends grpc_sends : frame -> bool) (send_error : string).

(** The send of the composite router, in the turn the promise is made. *)
Definition send_resolve (budId operationId requestedPath messageId : string) (maxBytes : option Z)
    (w : fworld) : nat * option bool * fworld :=
  let '(p, w) := waitForFileResolveResult operationId w in
  let '(sent, routers) :=
    @sendFrameToBud _ (daemonTransportRouter drain ws_sends grpc_sends (cf_policy config)) budId
      (buildFileResolveControlFrame operationId requestedPath messageId (fw_now w) maxBytes)
      (fw_routers w) in
  (p, sent, set_fw_routers routers w).

(** The frame, or the message of the error thrown. *)
Definition sendFileResolveRequest (budId operationId requestedPath : string) (maxBytes : option Z)
  : fjob (string + FileResolveResultFrame) :=
  message ← draw_ulid;
  '(p, sent) ← sync (fun w => (send_resolve budId operationId requestedPath ("msg_" +:+ message) maxBytes w).2)
                 (fun w => (send_resolve budId operationId requestedPath ("msg_" +:+ message) maxBytes w).1);
  match sent with
  | Some true => await_resolve p
  | Some false =>
      sync_ (clearPendingFileResolve operationId);; mret (inl "file resolve unavailable")
  | None =>
      sync_ (clearPendingFileResolve operationId);; mret (inl send_error)
  end.

Definition statusForFileResolveError (e : stream_error) : Z :=
  let among l := bool_decide (se_code e ∈ l) in
  if among ["FILE_NOT_FOUND"] then 404
  else if among ["POLICY_DENIED"; "UNSAFE_PATH"; "SYMLINK_DENIED"; "UNSAFE_FILE_TYPE"] then 403
  else if among ["LOCAL_READ_FAILED"] then 502
  else if match se_retryable e with Some true => true | _ => false end then 503 else 403.

(** What an accepted frame must carry. *)
Definition complete_resolve (f : FileResolveResultFrame)
  : option (string * string * list (string * jsval)) :=
  if bool_decide (rf_root_key f = Some DEFAULT_FILE_ROOT_KEY)
     && bool_decide (rf_requested_path_kind f = Some "absolute_posix")
     && bool_decide (rf_resolved_against f = Some "absolute_path")
     && ostr_truthy (rf_resolved_relative_path f)
     && match rf_size f with Some _ => true | None => false end
  then
    match rf_resolved_against f, rf_resolved_relative_path f, rf_content_identity f with
    | Some against, Some relative, Some identity => Some (against, relative, identity)
    | _, _, _ => None
    end
  else None.

(** [resolveAbsoluteViewerFilePath]: a refusal, or where the path is under the root. *)
Definition resolveAbsoluteViewerFilePath (budId viewer requestedPath : string)
  : fjob (reply + (string * string * list (string * jsval) * DataPlaneCarrierSelection)) :=
  status ← ask (resolveFileTransportStatus config budId);
  match status with
  | Unavailable code message _ _ _ _ => mret (inl (Refusal 424 (unavailable_code code) message))
  | Available _ _ _ _ _ =>
      supports ← authorizedBudSupportsAbsoluteFileResolve budId viewer;
      if negb supports then
        mret (inl (Refusal 424 "FILE_RESOLVE_UNAVAILABLE"
                     "Bud does not support absolute file path resolution"))
      else
        operation ← draw_ulid;
        answer ← sendFileResolveRequest budId ("op_" +:+ operation) requestedPath
                   (Some VIEWER_FILE_SESSION_MAX_BYTES);
        match answer with
        | inl message =>
            let timedOut := includes "timed out" (toLowerCase message) in
            mret (inl (Refusal (if timedOut then 504 else 424)
                         (if timedOut then "FILE_RESOLVE_TIMEOUT" else "FILE_RESOLVE_UNAVAILABLE") message))
        | inr f =>
            if negb (rf_accepted f) then
              let e := rf_error f ?? final_error "FILE_RESOLVE_REJECTED" "Bud rejected the file path" in
              mret (inl (Refusal (statusForFileResolveError e) (toLowerCase (se_code e)) (se_message e)))
            else
              match complete_resolve f with
              | None => mret (inl (Refusal 502 "invalid_file_resolve_result"
                                     "Bud returned an incomplete file resolve result"))
              | Some found => mret (inr (found, status))
              end
        end
  end.

(** ** The route *)

(** [source] of the body, as zod leaves it. *)
Definition parse_source (v : jsval) : option (list (string * jsval)) :=
  match v with
  | JObj fs =>
      let field k := field_lookup k fs in
      kind ← optional (fun v => s ← as_string v;
                         if bool_decide (s ∈ ["assistant_message"; "markdown_preview"; "unknown"])
                         then Some s else None) (field "kind");
      message ← optional (uuid_text is_uuid) (field "message_id");
      client ← optional (uuid_text is_uuid) (field "client_id");
      range ← optional (fun v => r ← as_record v;
                          a ← int_between 0 None (field_lookup "start" r);
                          b ← int_between 0 None (field_lookup "end" r);
                          if a <=? b then Some (a, b) else None) (field "text_range");
      Some ([("kind", JStr (kind ?? "unknown"))]
            ++ match message with Some m => [("message_id", JStr m)] | None => [] end
            ++ match client with Some c => [("client_id", JStr c)] | None => [] end
            ++ match range with
               | Some (a, b) => [("text_range", JObj [("start", num a); ("end", num b)])]
               | None => [] end)
  | _ => None
  end.

Record OpenThreadFileBody := mkOpenBody {
  ob_path : string;
  ob_source : option (list (string * jsval));
  ob_line : option Z;
  ob_column : option Z;
  ob_viewer_intent : string;
}.

Definition parse_open_body (body : jsval) : option OpenThreadFileBody :=
  match (match body with JUndef | JNull => JObj [] | v => v end) with
  | JObj fs =>
      let field k := field_lookup k fs in
      path ← (s ← as_string (field "path"); bounded_text 1 4096 (JStr (trim s)));
      source ← optional parse_source (field "source");
      line ← optional (int_between 1 None) (field "line");
      column ← optional (int_between 1 None) (field "column");
      intent ← optional (fun v => s ← as_string v; if bool_decide (s = "preview") then Some s else None)
                 (field "viewer_intent");
      Some (mkOpenBody path source line column (intent ?? "preview"))
  | _ => None
  end.

(** [extractTerminalPathContext]. *)
Definition extractTerminalPathContext (metadata : jsval) : option (list (string * jsval)) :=
  fs ← as_record metadata;
  context ← as_record (field_lookup "path_context" fs);
  let says k v := bool_decide (as_string (field_lookup k context) = Some v) in
  let text k := match field_lookup k context with JStr _ => true | _ => false end in
  if says "schema" "terminal_cwd_v1" && says "source" "terminal_runtime_cache"
     && says "reported_by" "prompt_ready_osc7" && text "terminal_session_id" && text "host_cwd"
     && text "captured_at"
  then Some context else None.

Definition loadSourceMessagePathContext (threadId viewer : string)
    (source : option (list (string * jsval))) : fjob (option (list (string * jsval))) :=
  match source ≫= (fun fs => as_string (field_lookup "message_id" fs)) with
  | None => mret None
  | Some messageId =>
      if negb (str_truthy messageId) then mret None
      else
        query (fun w =>
          m ← fw_messages w !! messageId;
          if bool_decide (mg_threadId m = threadId) && bool_decide (mg_createdByUserId m = Some viewer)
          then extractTerminalPathContext (mg_metadata m) else None)
  end.

(** A field that is there unless it is undefined ([compactRecord]). *)
Definition present (k : string) (o : option jsval) : list (string * jsval) :=
  match o with Some v => [(k, v)] | None => [] end.

Definition extensionLanguageMap : list (string * string) :=
  [(".c", "c"); (".cc", "cpp"); (".cpp", "cpp"); (".cs", "csharp"); (".css", "css"); (".go", "go");
   (".html", "html"); (".java", "java"); (".js", "javascript"); (".json", "json"); (".jsx", "jsx");
   (".kt", "kotlin"); (".mdx", "mdx"); (".mjs", "javascript"); (".py", "python"); (".rb", "ruby");
   (".rs", "rust"); (".sh", "bash"); (".sql", "sql"); (".swift", "swift"); (".toml", "toml");
   (".ts", "typescript"); (".tsx", "tsx"); (".yaml", "yaml"); (".yml", "yaml")].

Definition extensionForPath (path : string) : string :=
  let basename := List.last (split_on SLASH path) path in
  match split_last (Ascii.ascii_of_N 46) basename with
  | Some (before, after) =>
      if str_truthy before && str_truthy after then toLowerCase ("." +:+ after) else ""
  | None => ""
  end.

Definition buildViewerHint (relativePath : string) (line column : option Z) : list (string * jsval) :=
  let displayName := List.last (split_on SLASH relativePath) relativePath in
  let extension := extensionForPath displayName in
  let markdown := bool_decide (extension ∈ [".md"; ".markdown"; ".mdx"]) in
  let language := JsMap.get extension extensionLanguageMap in
  let kind := if markdown then "markdown"
              else match language with Some _ => "code" | None => "unknown" end in
  [("suggested_kind", JStr kind)] ++ present "language" (JStr <$> language)
  ++ [("display_name", JStr displayName)] ++ present "line" (num <$> line)
  ++ present "column" (num <$> column) ++ [("max_display_bytes", num VIEWER_FILE_SESSION_MAX_BYTES)].

Definition getAuthorizedThread (viewer threadId : string) : fjob (option ThreadColumns) :=
  query (fun w =>
    t ← fw_threads w !! threadId;
    if bool_decide (th_createdByUserId t = Some viewer) && bool_decide (th_deletedAt t = None)
    then Some t else None).

(** The end of the route: the session of the path found, and the hint. *)
Definition open_found (viewer threadId budId : string) (body : OpenThreadFileBody) (kind : string)
    (rawPath relativePath : string) (line column : option Z)
    (context : option (list (string * jsval))) (against : option string)
    (status : option DataPlaneCarrierSelection) (identity : option (list (string * jsval)))
  : fjob reply :=
  let metadata :=
    [("raw_path", JStr rawPath)] ++ present "source" (JObj <$> ob_source body)
    ++ present "path_context" (JObj <$> context) ++ [("requested_path_kind", JStr kind)]
    ++ present "resolved_against" (JStr <$> against) ++ present "line" (num <$> line)
    ++ present "column" (num <$> column) ++ [("viewer_intent", JStr (ob_viewer_intent body))] in
  '(id, row, status) ← createFileSession config viewer budId
    (mkCreateBody DEFAULT_FILE_ROOT_KEY relativePath (Some FILE_SESSION_PERMISSIONS)
       VIEWER_FILE_SESSION_MAX_BYTES DEFAULT_FILE_SESSION_TTL_SECONDS (Some threadId) metadata)
    status identity;
  now ← ask fw_now;
  mret (Answer 201
    [("file_session", JObj (serializeFileSession file_url id row (Some status) now));
     ("viewer", JObj (buildViewerHint relativePath line column))]).

(** [POST /api/threads/:threadId/files/open]. *)
Definition open_route (viewer threadId : string) (rawBody : jsval) : fjob reply :=
  (if is_uuid threadId then mret tt else Raise (OtherError "ZodError"));;
  found ← getAuthorizedThread viewer threadId;
  match found with
  | None => mret (Refusal 404 "thread_not_found" "")
  | Some thread =>
      match parse_open_body rawBody with
      | None => mret (Refusal 400 "invalid_file_open_request" (issue_message rawBody))
      | Some body =>
          let position o := (fun z : Z => JFin (inject_Z z)) <$> o in
          match parseViewerFilePath (ob_path body) (position (ob_line body)) (position (ob_column body)) with
          | Invalid _ message => mret (Refusal 400 "invalid_file_path" message)
          | Valid (AbsolutePosix rawPath requestedPath line column) =>
              resolved ← resolveAbsoluteViewerFilePath (th_budId thread) viewer requestedPath;
              match resolved with
              | inl refusal => mret refusal
              | inr (against, relative, identity, status) =>
                  open_found viewer threadId (th_budId thread) body "absolute_posix" rawPath relative
                    line column None (Some against) (Some status) (Some identity)
              end
          | Valid (RelativePath rawPath relative line column) =>
              context ← loadSourceMessagePathContext threadId viewer (ob_source body);
              open_found viewer threadId (th_budId thread) body "relative" rawPath relative
                line column context None None None
          end
      end
  end.
End resolve.
