(* ===== verification/FileEdge.v ===== *)
(** The file edge ([service/src/files/file-edge.ts]), the route that serves a
    file ([routes/files.ts]), and how the requests, the frames of the daemon, the
    timers and the readers of the responses interleave ([fstep]).

    [openFileEdgeStream] is one job. The closures it leaves behind, the callbacks
    of its data-plane stream, its timers and its listeners, act on the stream
    object by reference. *)
From Stdlib Require Import Strings.Byte ZArith QArith Qround Lia.
From stdpp Require Import base tactics strings gmap sorting option pretty.
From stdpp Require Import list.
From S2P Require Import Prelude JsRuntime Base64 Json JsText DaemonState Carrier DataPlane.
From S2P Require Import ControlRouters FilePaths FileRuntime Jobs FileSessions FileResolve.
Open Scope Z_scope.

(** ** Frames *)

Definition RESPONSE_HEADER_ALLOWLIST : list string :=
  ["accept-ranges"; "cache-control"; "content-disposition"; "content-length"; "content-range";
   "content-type"; "etag"; "expires"; "last-modified"].

Definition num_field (k : string) (o : option Z) : list (string * jsval) :=
  match o with Some z => [(k, num z)] | None => [] end.

Definition fileRangeFields (r : FileRange) : list (string * jsval) :=
  num_field "range_start" (rangeStart r) ++ num_field "range_end" (rangeEnd r)
  ++ num_field "range_suffix_bytes" (rangeSuffixBytes r).

Definition terminalSessionField (terminalSessionId : option string) : list (string * jsval) :=
  match terminalSessionId with
  | Some t => if str_truthy t then [("terminal_session_id", JStr t)] else []
  | None => []
  end.

(** [{ kind, host_cwd, source_message_id }], if the metadata carries a trusted one. *)
Definition resolutionHintForSession (metadata : list (string * jsval)) : option jsval :=
  context ← as_record (field_lookup "path_context" metadata);
  let says k v := bool_decide (as_string (field_lookup k context) = Some v) in
  if negb (says "schema" "terminal_cwd_v1" && says "source" "terminal_runtime_cache"
           && says "reported_by" "prompt_ready_osc7") then None
  else
    let hostCwd := match field_lookup "host_cwd" context with JStr s => trim s | _ => "" end in
    if negb (str_truthy hostCwd) then None
    else
      let source := match field_lookup "source" metadata with
                    | JObj fs =>
                        match field_lookup "message_id" fs with
                        | JStr m => if str_truthy (trim m) then [("source_message_id", JStr m)] else []
                        | _ => []
                        end
                    | _ => []
                    end in
      Some (JObj ([("kind", JStr "host_cwd"); ("host_cwd", JStr hostCwd)] ++ source)).

Definition resolutionHintField (r : FileSessionRow) : list (string * jsval) :=
  match resolutionHintForSession (fs_displayMetadata r) with
  | Some hint => [("resolution_hint", hint)] | None => [] end.

Definition expectedContentIdentityField (r : FileSessionRow) (mode : string) : list (string * jsval) :=
  match fs_contentIdentity r with
  | Some identity =>
      if bool_decide (mode = "range") then [("expected_content_identity", JObj identity)] else []
  | None => []
  end.

Definition buildFileOpenOperationRequest (fileSessionId : string) (session : FileSessionRow)
    (terminalSessionId : option string) (mode : string) (range : FileRange)
  : list (string * jsval) :=
  [("file_session_id", JStr fileSessionId); ("root_key", JStr (fs_rootKey session));
   ("relative_path", JStr (fs_relativePath session))]
  ++ terminalSessionField terminalSessionId ++ resolutionHintField session
  ++ [("mode", JStr mode)] ++ fileRangeFields range.

Definition buildFileOpenControlFrame (c : edge_call) (messageId : string) (sentAt : Z)
  : list (string * jsval) :=
  let session := ec_session c in
  [("proto", JStr PROTO_VERSION); ("type", JStr "file_open"); ("id", JStr messageId);
   ("ts", num sentAt); ("ext", JObj []); ("operation_id", JStr (ec_operationId c));
   ("stream_id", JStr (ec_streamId c)); ("file_session_id", JStr (ec_fileSessionId c))]
  ++ terminalSessionField (ec_terminalSessionId c)
  ++ [("stream_type", JStr FILE_READ_STREAM_TYPE); ("root_key", JStr (fs_rootKey session));
      ("relative_path", JStr (fs_relativePath session))]
  ++ resolutionHintField session
  ++ [("mode", JStr (ec_mode c))] ++ fileRangeFields (ec_range c)
  ++ expectedContentIdentityField session (ec_mode c)
  ++ [("max_bytes", num (fs_maxBytes session));
      ("initial_credit_bytes", num (initialCreditBytes (ec_data c)));
      ("max_chunk_bytes", num (maxChunkBytes (ec_data c)))].

Definition sanitizeResponseHeaders (headers : list (string * string)) : list (string * string) :=
  foldl (fun sanitized kv =>
           let lowerKey := toLowerCase kv.1 in
           if bool_decide (lowerKey ∈ RESPONSE_HEADER_ALLOWLIST) && str_truthy kv.2
           then JsMap.set lowerKey kv.2 sanitized else sanitized) [] headers.

Definition statusForFileOpenError (error : option stream_error) : Z :=
  match error with
  | None => 502
  | Some e =>
      let among l := bool_decide (se_code e ∈ l) in
      if among ["POLICY_DENIED"; "UNSUPPORTED_ROOT"; "UNSAFE_PATH"; "UNSAFE_FILE_TYPE"; "SYMLINK_DENIED"]
      then 403
      else if among ["FILE_NOT_FOUND"] then 404
      else if among ["RANGE_NOT_SATISFIABLE"] then 416
      else if among ["FILE_TOO_LARGE"] then 413
      else if among ["CONTENT_CHANGED"] then 409
      else 502
  end.

(** ** The stream object *)

Definition on_stream (ref : nat) (f : EdgeStream -> EdgeStream) (w : fworld) : fworld :=
  set_fw_streams (alter f ref (fw_streams w)) w.

Definition set_es_runtime (v : FileRuntimeStream) (e : EdgeStream) : EdgeStream :=
  mkEdge (es_call e) v (es_planeStream e) (es_responseCompleted e) (es_idleTimer e) (es_ttlTimer e)
    (es_onAborted e) (es_onClosed e) (es_onEnd e).
Definition set_responseCompleted (e : EdgeStream) : EdgeStream :=
  mkEdge (es_call e) (es_runtime e) (es_planeStream e) true (es_idleTimer e) (es_ttlTimer e)
    (es_onAborted e) (es_onClosed e) (es_onEnd e).
Definition set_idleTimer (v : bool) (e : EdgeStream) : EdgeStream :=
  mkEdge (es_call e) (es_runtime e) (es_planeStream e) (es_responseCompleted e) v (es_ttlTimer e)
    (es_onAborted e) (es_onClosed e) (es_onEnd e).
Definition set_ttlTimer (v : bool) (e : EdgeStream) : EdgeStream :=
  mkEdge (es_call e) (es_runtime e) (es_planeStream e) (es_responseCompleted e) (es_idleTimer e) v
    (es_onAborted e) (es_onClosed e) (es_onEnd e).
Definition set_edge_listeners (aborted closed ended : bool) (e : EdgeStream) : EdgeStream :=
  mkEdge (es_call e) (es_runtime e) (es_planeStream e) (es_responseCompleted e) (es_idleTimer e)
    (es_ttlTimer e) aborted closed ended.

Definition clearLimitTimers (e : EdgeStream) : EdgeStream := set_idleTimer false (set_ttlTimer false e).
Definition refreshIdleTimer (ref : nat) : fworld -> fworld := on_stream ref (set_idleTimer true).

(** [cleanup]. *)
Definition cleanup (ref : nat) (w : fworld) : fworld :=
  match fw_streams w !! ref with
  | None => w
  | Some e =>
      let streamId := ec_streamId (es_call e) in
      let w := on_stream ref (fun e => set_edge_listeners false false (es_onEnd e) (clearLimitTimers e)) w in
      let w := set_fw_registry (JsMap.delete streamId (fw_registry w)) w in
      let w := set_fw_plane
                 (upd_tracker (ec_tracker (es_call e))
                    (fun t => set_runtimeStreams (JsMap.delete streamId (runtimeStreams t)) t)
                    (fw_plane w)) w in
      set_fw_detached (fw_detached w ++ [ClearActiveStream streamId]) w
  end.

(** A method of the runtime object, with the [cleanup] it may call. *)
Definition call_runtime (ref : nat) (f : FileRuntimeStream -> FileRuntimeStream * bool) (w : fworld)
  : fworld :=
  match fw_streams w !! ref with
  | None => w
  | Some e =>
      let '(r, cleaned) := f (es_runtime e) in
      let w := on_stream ref (set_es_runtime r) w in
      if cleaned then cleanup ref w else w
  end.

Definition quietly (f : FileRuntimeStream -> FileRuntimeStream) (r : FileRuntimeStream)
  : FileRuntimeStream * bool := (f r, false).

Definition edge_stopped (ref : nat) (w : fworld) : bool :=
  match fw_streams w !! ref with
  | Some e => isComplete (es_runtime e) || es_responseCompleted e
  | None => true
  end.

Definition tracker_connected (t : nat) (w : fworld) : bool :=
  match w_trackers (fw_plane w) !! t with
  | Some tr => isDataPlaneSessionConnected tr | None => false end.

(** The synchronous part of [resetRemote]. *)
Definition send_reset (c : edge_call) (reason : string) (error : stream_error) (w : fworld) : fworld :=
  if tracker_connected (ec_tracker c) w
  then set_fw_plane (log (EvSendFrame (ec_tracker c) (OReset (ec_streamId c) reason error)) (fw_plane w)) w
  else w.

Definition resetRemote (c : edge_call) (reason : string) (error : stream_error) : fjob unit :=
  connected ← sync (send_reset c reason error) (tracker_connected (ec_tracker c));
  if (connected : bool) then ignoring await else pause.

Definition stream_reset_stmt (streamId : string) (from : list StreamState) (reason : string)
    (error : stream_error) : fjob unit :=
  db_stmt (fun w => transitionStream streamId from Reset None None (Some reason)
                      (Some (error_arg_of error)) (fw_now w)).
Definition operation_stmt (operationId : string) (from : list OperationState) (to : OperationState)
    (result : option (list (string * jsval))) (error : option stream_error) : fjob unit :=
  db_stmt (fun w => transitionOperation operationId from to result (error_arg_of <$> error) (fw_now w)).

Definition retryable_error (code message : string) : stream_error :=
  mkStreamError code message (Some true) None.

Section edge.
Context `{FileIds} (config : FileConfig).
(** The gateway drain state, what the control carriers take ([ControlRouters]), and
    the message of a send that throws. *)
Context (drain : option GatewayDrainState) (ws_sends grpc_sends : frame -> bool) (send_error : string).

(** The [file.stream_denied] audit event of a call. *)
Definition denied (c : edge_call) (by_ reason : string) (error : stream_error) : fjob unit :=
  event ← draw_ulid;
  db_stmt (audit "file.stream_denied" (fs_budId (ec_session c)) (ec_viewer c)
    (Some (ec_operationId c)) (Some (ec_streamId c))
    [("denied_by", JStr by_); ("reason", JStr reason); ("error", error_value (Some error));
     ("file_session_id", JStr (ec_fileSessionId c));
     ("audit_correlation_id", JStr (fs_auditCorrelationId (ec_session c)));
     ("transport_kind", JStr (kind_name (dt_transportKind (ec_data c))));
     ("data_transport_session_id", ostr_value (dt_transportSessionId (ec_data c)))] event).

Definition resetFromServiceLimit (ref : nat) (c : edge_call) (reason : string) (error : stream_error)
  : fjob unit :=
  stop ← ask (edge_stopped ref);
  if (stop : bool) then mret tt
  else
    ignoring (denied c "service" reason error);;
    resetRemote c reason error;;
    sync_ (call_runtime ref (handleReset reason (Some error)));;
    ignoring (stream_reset_stmt (ec_streamId c) live_stream_states reason error);;
    ignoring (operation_stmt (ec_operationId c) live_operation_states Failed None (Some error)).

Definition idle_error : stream_error :=
  retryable_error "STREAM_IDLE_TIMEOUT" "file stream exceeded the service idle timeout".
Definition ttl_error : stream_error :=
  retryable_error "STREAM_TTL_EXCEEDED" "file stream exceeded the service stream TTL".
Definition client_error : stream_error :=
  final_error "CLIENT_CLOSED" "browser client closed the file request".

(** [onClientClosed]. *)
Definition onClientClosed (ref : nat) (w : fworld) : fworld :=
  match fw_streams w !! ref with
  | None => w
  | Some e =>
      if edge_stopped ref w then w
      else
        let c := es_call e in
        let w := call_runtime ref abortFromClient (send_reset c "canceled" client_error w) in
        set_fw_detached (fw_detached w ++ [CancelStream (ec_streamId c); CancelOperation (ec_operationId c)]) w
  end.

(** ** The callbacks of the data-plane stream *)

Definition message_of (e : thrown) : string :=
  match e with ValidationError _ m | OtherError m => m end.

(** The synchronous part of [runtime.handleData], the chunk counted in the history. *)
Definition data_arrives (ref : nat) (chunk : list byte) (w : fworld) : fworld :=
  match fw_streams w !! ref with
  | None => w
  | Some e =>
      let '(_, outcome) := handleData chunk (es_runtime e) in
      let w := call_runtime ref (fun r => (handleData chunk r).1) w in
      match outcome with DataWritten => note (Received ref chunk) w | _ => w end
  end.

Definition data_answer (ref : nat) (chunk : list byte) (w : fworld) : data_outcome :=
  match fw_streams w !! ref with
  | Some e => (handleData chunk (es_runtime e)).2 | None => DataIgnored end.

Definition data_error (message : string) : stream_error :=
  final_error (if includes "exceeded max bytes" message then "FILE_RESPONSE_TOO_LARGE"
               else "FILE_RESPONSE_STREAM_FAILED") message.

Definition onData (ref : nat) (c : edge_call) (chunk : list byte) : fjob unit :=
  sync_ (refreshIdleTimer ref);;
  job_catch
    (outcome ← sync (data_arrives ref chunk) (data_answer ref chunk);
     match outcome with
     | DataThrows m => pause;; Raise (OtherError m)
     | DataIgnored => pause
     | DataWritten => await
     end)
    (fun e =>
       let error := data_error (message_of e) in
       ignoring (denied c "service" "response_consumer_failed" error);;
       ignoring (operation_stmt (ec_operationId c) live_operation_states Failed None (Some error));;
       Raise e);;
  sync_ (refreshIdleTimer ref).

Definition onReset (ref : nat) (c : edge_call) (reason : string) (frameError : option stream_error)
  : fjob unit :=
  sync_ (call_runtime ref (handleReset reason frameError));;
  let error := frameError ?? final_error "STREAM_RESET" reason in
  if bool_decide (reason = "canceled") then
    ignoring (operation_stmt (ec_operationId c) live_operation_states Canceled None (Some error))
  else
    ignoring (operation_stmt (ec_operationId c) [Offered] Rejected None (Some error));;
    ignoring (operation_stmt (ec_operationId c) [Accepted; Running] Failed None (Some error)).

Definition onClose (ref : nat) (c : edge_call) (finalOffset : Z) : fjob unit :=
  sync_ (call_runtime ref handleClose);;
  ignoring (operation_stmt (ec_operationId c) [Offered] Accepted None None);;
  ignoring (operation_stmt (ec_operationId c) [Accepted] Running None None);;
  ignoring (operation_stmt (ec_operationId c) [Running] Succeeded
              (Some [("final_offset", num finalOffset)]) None).

(** ** A request *)

(** The stream, its timers and listeners, its registrations and the frame that
    opens it, all in one turn: the new reference, and what the carrier said. *)
Definition open_stream (c : edge_call) (messageId : string) (w : fworld)
  : nat * option bool * fworld :=
  let ref := fw_next w in
  let '(planeStream, plane) :=
    registerDataPlaneRuntimeStream (ec_tracker c) (ec_streamId c) FILE_READ_STREAM_TYPE
      (initialCreditBytes (ec_data c)) None true true true (fw_plane w) in
  let runtime := new_runtime (ec_streamId c) (ec_operationId c) (Some (fs_maxBytes (ec_session c))) in
  let e := mkEdge c runtime planeStream false true true true false false in
  let w := set_fw_plane plane
             (set_fw_registry (JsMap.set (ec_streamId c) ref (fw_registry w))
                (set_fw_next (S ref) (set_fw_streams (<[ref := e]> (fw_streams w)) w))) in
  let opening := buildFileOpenControlFrame c messageId (fw_now w) in
  let '(sent, routers) :=
    sendDataPlaneControlFrame drain ws_sends grpc_sends (ec_data c) opening (fw_routers w) in
  let w := set_fw_routers routers w in
  match sent with
  | Some true => (ref, sent, note (OpenSent ref c (dt_budId (ec_data c)) opening) w)
  | _ => (ref, sent, w)
  end.

(** Ends with an answer: the history notes it. *)
Definition answering (ref : nat) (r : reply) : fjob reply :=
  sync (note (Replied ref r)) (fun _ => r).

(** [if (!sent)]. *)
Definition refused_open (ref : nat) (c : edge_call) (sent : option bool) : fjob reply :=
  let message := match sent with
                 | None => "selected data-plane carrier failed file_open: " +:+ send_error
                 | Some _ => "selected data-plane carrier refused file_open" end in
  let error := retryable_error "DATA_PLANE_UNAVAILABLE" message in
  denied c "service" (match sent with None => "carrier_send_failed" | Some _ => "carrier_refused_open" end)
    error;;
  stream_reset_stmt (ec_streamId c) [Opening] "transport_lost" error;;
  operation_stmt (ec_operationId c) [Offered] Rejected None (Some error);;
  answering ref (Refusal 424 "DATA_PLANE_UNAVAILABLE" message).

(** The [catch] of [waitForOpen]. *)
Definition open_failed (ref : nat) (c : edge_call) (message : string) : fjob reply :=
  let error := retryable_error "FILE_OPEN_TIMEOUT" message in
  sync_ (cleanup ref);;
  resetRemote c "timeout" error;;
  ignoring (stream_reset_stmt (ec_streamId c) [Opening] "timeout" error);;
  ignoring (operation_stmt (ec_operationId c) [Offered] Rejected None (Some error));;
  answering ref (Refusal 504 "file_open_timeout"
                   "Bud did not accept the file stream before the timeout").

(** [if (!openResult.accepted)]. *)
Definition open_rejected (ref : nat) (c : edge_call) (f : FileOpenResultFrame) : fjob reply :=
  let error := of_error f ?? final_error "FILE_OPEN_REJECTED" "Bud rejected the file stream" in
  sync_ (cleanup ref);;
  denied c "daemon" "open_rejected" error;;
  stream_reset_stmt (ec_streamId c) [Opening] "remote_error" error;;
  operation_stmt (ec_operationId c) [Offered] Rejected None (Some error);;
  answering ref
    (Refusal (statusForFileOpenError (of_error f))
       (toLowerCase match of_error f with Some e => se_code e | None => "file_open_rejected" end)
       match of_error f with Some e => se_message e | None => "Bud rejected the file stream" end).

(** [if (!openResult.status_code)]. *)
Definition open_invalid (ref : nat) (c : edge_call) : fjob reply :=
  let error := final_error "INVALID_FILE_OPEN_RESULT"
                 "Bud accepted the file stream without an HTTP status code" in
  sync_ (cleanup ref);;
  resetRemote c "protocol_error" error;;
  ignoring (denied c "daemon" "invalid_open_result" error);;
  ignoring (stream_reset_stmt (ec_streamId c) live_stream_states "protocol_error" error);;
  ignoring (operation_stmt (ec_operationId c) [Offered] Rejected None (Some error));;
  ignoring (operation_stmt (ec_operationId c) [Accepted; Running] Failed None (Some error));;
  answering ref (Refusal 502 "invalid_file_open_result"
                   "Bud accepted the file stream without an HTTP status code").

(** [update file_session set content_identity where file_session_id = id]. *)
Definition store_identity (id : string) (identity : list (string * jsval)) : fjob unit :=
  exec (fun w => inr (set_fw_sessions (alter (set_identity identity (fw_now w)) id (fw_sessions w)) w)).

(** The accepted stream becomes the response. *)
Definition open_accepted (ref : nat) (c : edge_call) (method : http_method) (status : Z)
    (f : FileOpenResultFrame) : fjob reply :=
  operation_stmt (ec_operationId c) [Offered] Accepted None None;;
  operation_stmt (ec_operationId c) [Accepted] Running None None;;
  db_stmt (fun w => transitionStream (ec_streamId c) [Opening] Open None None None None (fw_now w));;
  (match of_content_identity f with
   | Some identity => store_identity (ec_fileSessionId c) identity
   | None => mret tt
   end);;
  let headers := sanitizeResponseHeaders (of_headers f) in
  if bool_decide (method = HEAD) || (status =? 204) || (status =? 304) then
    sync_ (on_stream ref set_responseCompleted);;
    answering ref (FileEmpty status headers)
  else
    sync_ (on_stream ref (fun e => set_edge_listeners (es_onAborted e) true true e));;
    answering ref (FileBody status headers (ec_streamId c)).

(** [await runtime.waitForOpen(...)], once it was called. *)
Definition await_open (ref : nat) : fjob (string + FileOpenResultFrame) :=
  Until (fun w =>
    e ← fw_streams w !! ref;
    match fr_opening (es_runtime e) with
    | Opened f => Some (Return (inr f))
    | OpenFailed m => Some (Return (inl m))
    | _ => None
    end).

(** From the frame on. *)
Definition run_open (c : edge_call) (method : http_method) : fjob reply :=
  message ← draw_ulid;
  '(ref, sent) ← sync (fun w => (open_stream c ("msg_" +:+ message) w).2)
                   (fun w => (open_stream c ("msg_" +:+ message) w).1);
  if bool_decide (sent = Some true) then
    sync_ (call_runtime ref (quietly waitForOpen));;
    opened ← await_open ref;
    match opened with
    | inl message => open_failed ref c message
    | inr f =>
        if negb (of_accepted f) then open_rejected ref c f
        else match of_status_code f with
             | None => open_invalid ref c
             | Some status => open_accepted ref c method status f
             end
    end
  else
    sync_ (cleanup ref);;
    refused_open ref c sent.

Definition resolveThreadTerminalSessionId (r : FileSessionRow) : fjob (option string) :=
  match fs_threadId r with
  | None => mret None
  | Some threadId =>
      if negb (str_truthy threadId) then mret None
      else
        query (fun w =>
          fst <$> head (List.filter (fun x : string * TerminalColumns =>
            bool_decide (tm_threadId x.2 = Some threadId)
            && bool_decide (tm_budId x.2 = fs_budId r) && bool_decide (tm_closedAt x.2 = None))
            (map_to_list (fw_terminals w))))
  end.

(** The rows of a request: the operation, the stream, the columns of the session. *)
Definition record_open (c : edge_call) : fjob unit :=
  let bud := fs_budId (ec_session c) in
  db_stmt (fun w d => createOperation
    (mkOperationArgs (Some (ec_operationId c)) bud FILE_READ_STREAM_TYPE (Some "bulk") (Some Offered)
       (fs_threadId (ec_session c)) (ec_terminalSessionId c)
       (Some (dt_deviceSessionId (ec_transport c))) (dt_controlTransportSessionId (ec_transport c)) None
       (Some (buildFileOpenOperationRequest (ec_fileSessionId c) (ec_session c)
                (ec_terminalSessionId c) (ec_mode c) (ec_range c)))
       (Some (ec_viewer c)) None) "" (fw_now w) d);;
  db_stmt (fun w d => createStream
    (mkStreamArgs (Some (ec_streamId c)) (Some (ec_operationId c)) bud FILE_READ_STREAM_TYPE
       (Some "bulk") (Some Opening) (Some (dt_deviceSessionId (ec_transport c)))
       (dt_transportSessionId (ec_transport c)) (Some (ec_viewer c)) None) "" (fw_now w) d);;
  exec (fun w => inr (set_fw_sessions
    (alter (set_stream (Some (ec_operationId c)) (Some (ec_streamId c)) (fw_now w))
       (ec_fileSessionId c) (fw_sessions w)) w));;
  event ← draw_ulid;
  db_stmt (audit "file.stream_open" bud (ec_viewer c) (Some (ec_operationId c)) (Some (ec_streamId c))
    ([("file_session_id", JStr (ec_fileSessionId c));
      ("audit_correlation_id", JStr (fs_auditCorrelationId (ec_session c)));
      ("root_key", JStr (fs_rootKey (ec_session c)));
      ("relative_path", JStr (fs_relativePath (ec_session c)))]
     ++ terminalSessionField (ec_terminalSessionId c)
     ++ [("mode", JStr (ec_mode c)); ("transport_kind", JStr (kind_name (dt_transportKind (ec_data c))));
         ("control_transport_session_id", ostr_value (dt_controlTransportSessionId (ec_transport c)));
         ("data_transport_session_id", ostr_value (dt_transportSessionId (ec_transport c)));
         ("max_chunk_bytes", num (maxChunkBytes (ec_data c)));
         ("initial_credit_bytes", num (initialCreditBytes (ec_data c)));
         ("max_in_flight_bytes", num (maxInFlightBytes (ec_data c)))]) event).

(** [openFileEdgeStream]; [transport] is the tracker of the available status. *)
Definition openFileEdgeStream (viewer fileSessionId : string) (session : FileSessionRow)
    (transport : DataPlaneSessionTracker) (method : http_method) (rangeHeader : option string)
    (requiredPermission : string) : fjob reply :=
  let mode := if bool_decide (method = HEAD) then "stat"
              else if bool_decide (requiredPermission = "range") then "range" else "read" in
  match (if bool_decide (mode = "range")
         then parseSingleRange match rangeHeader with Some h => JStr h | None => JUndef end
         else inr whole_file) with
  | inl message => mret (Refusal 416 "invalid_range" message)
  | inr range =>
      found ← ask (fun w => getActiveDataPlaneSessionForBud (cf_policy config) (fs_budId session)
                     (Some (dt_deviceSessionId transport)) (Some FILE_READ_STREAM_TYPE)
                     (Some (dt_transportKind transport)) false None (fw_plane w));
      match found with
      | None =>
          mret (Refusal 424 "DATA_PLANE_UNAVAILABLE"
                  "Bud data-plane carrier detached before file request could start")
      | Some (tracker, data) =>
          '(active, limit) ← ask (fun w => checkDataPlaneRuntimeStreamCapacity (fs_budId session)
                                  FILE_READ_STREAM_TYPE (cf_maxConcurrentFileStreams config) (fw_plane w));
          match limit with
          | Some (code, message) =>
              event ← draw_ulid;
              db_stmt (audit "file.stream_denied" (fs_budId session) viewer None None
                [("denied_by", JStr "service"); ("reason", JStr "concurrent_stream_limit");
                 ("file_session_id", JStr fileSessionId);
                 ("audit_correlation_id", JStr (fs_auditCorrelationId session));
                 ("active_streams", num active);
                 ("max_concurrent_streams", num (cf_maxConcurrentFileStreams config));
                 ("transport_kind", JStr (kind_name (dt_transportKind data)));
                 ("data_transport_session_id", ostr_value (dt_transportSessionId data))] event);;
              mret (Refusal 429 code message)
          | None =>
              operation ← draw_ulid;
              stream ← draw_ulid;
              terminal ← resolveThreadTerminalSessionId session;
              let c := mkCall viewer fileSessionId session mode range transport tracker data
                         ("op_" +:+ operation) ("st_" +:+ stream) terminal in
              record_open c;;
              run_open c method
          end
      end
  end.

(** The history notes a session that is neither revoked nor expired. *)
Definition admitting (viewer fileSessionId permission : string) (session : FileSessionRow) (w : fworld)
  : fworld :=
  match effectiveFileSessionState (fw_now w) session with
  | SessionReady | SessionUnavailable => note (Allowed viewer fileSessionId permission (fw_now w)) w
  | _ => w
  end.

(** [GET] and [HEAD /api/files/:fileSessionId]. *)
Definition file_route (viewer fileSessionId : string) (method : http_method)
    (rangeHeader : option string) : fjob reply :=
  required_param fileSessionId;;
  found ← getAuthorizedFileSession viewer fileSessionId;
  match found with
  | None => mret session_not_found
  | Some session =>
      let requiredPermission :=
        if bool_decide (method = HEAD) then "stat"
        else if ostr_truthy rangeHeader then "range" else "read" in
      if negb (filePermissionAllowedForSession session requiredPermission) then
        mret (Refusal 403 "file_permission_denied" "")
      else
        state ← sync (admitting viewer fileSessionId requiredPermission session)
                  (fun w => effectiveFileSessionState (fw_now w) session);
        match state with
        | SessionExpired => mret (Refusal 410 "file_session_expired" "")
        | SessionRevoked => mret (Refusal 410 "file_session_revoked" "")
        | _ =>
            status ← ask (resolveFileTransportStatus config (fs_budId session));
            match status with
            | Unavailable code message _ _ _ _ =>
                mret (Refusal 424 (unavailable_code code) message)
            | Available _ transport _ _ _ =>
                if bool_decide (state = SessionUnavailable) then
                  mret (Refusal 424 "FILE_TRANSPORT_UNAVAILABLE" "File session is not currently usable")
                else
                  openFileEdgeStream viewer fileSessionId session transport method rangeHeader
                    requiredPermission
            end
        end
  end.
End edge.

(** [handleFileOpenResult]. *)
Definition handleFileOpenResult (raw : jsval) (w : fworld) : option FileOpenResultFrame * fworld :=
  match parse_open_result raw with
  | None => (None, w)
  | Some f =>
      match JsMap.get (of_stream_id f) (fw_registry w) with
      | None => (Some f, w)
      | Some ref => (Some f, call_runtime ref (handleOpenResult f) w)
      end
  end.

(** ** Interleavings *)

Inductive request :=
  | FileRequest (viewer fileSessionId : string) (method : http_method) (range : option string)
  | CreateRequest (viewer budId : string) (body : jsval)
  | ListRequest (viewer budId : string)
  | ReadRequest (viewer fileSessionId : string)
  | RevokeRequest (viewer fileSessionId : string) (body : jsval)
  | OpenRequest (viewer threadId : string) (body : jsval).

(** A row whose references to other tables may have been set to null. *)
Definition unlinked (r r' : FileSessionRow) : Prop :=
  exists thread operation stream,
    r' = mkFileSession (fs_budId r) thread operation stream (fs_rootKey r) (fs_relativePath r)
           (fs_permissions r) (fs_maxBytes r) (fs_state r) (fs_contentIdentity r)
           (fs_displayMetadata r) (fs_auditCorrelationId r) (fs_expiresAt r) (fs_revokedAt r)
           (fs_revokedByUserId r) (fs_revokeReason r) (fs_tenantId r) (fs_createdByUserId r)
           (fs_createdAt r) (fs_updatedAt r).

(** What the rest of the service may do meanwhile: time passes, other tables, the
    routers and the data plane change, ids are drawn, references are set to null. A
    data-plane stream that is not new is not registered again. *)
Record outside (w w' : fworld) : Prop := {
  out_now : fw_now w <= fw_now w';
  out_sessions : exists f, (forall r, unlinked r (f r)) /\ fw_sessions w' = f <$> fw_sessions w;
  out_plane_next : (w_next (fw_plane w) <= w_next (fw_plane w'))%nat;
  out_plane : forall t tr' sid s, w_trackers (fw_plane w') !! t = Some tr' ->
    JsMap.get sid (runtimeStreams tr') = Some s ->
    (s < w_next (fw_plane w'))%nat
    /\ ((s < w_next (fw_plane w))%nat ->
        exists tr, w_trackers (fw_plane w) !! t = Some tr /\ JsMap.get sid (runtimeStreams tr) = Some s);
  out_streams : fw_streams w' = fw_streams w;
  out_next : fw_next w' = fw_next w;
  out_registry : fw_registry w' = fw_registry w;
  out_pending : fw_pending w' = fw_pending w;
  out_promises : fw_promises w' = fw_promises w;
  out_detached : fw_detached w' = fw_detached w;
  out_history : fw_history w' = fw_history w;
}.

Record fstation := mkFstation { fn_world : fworld; fn_jobs : list (fjob unit) }.

Definition start_job {A} (p : fjob A) (y : fstation) : fstation :=
  let '(w, p) := advance (p;; mret tt) (fn_world y) in mkFstation w (fn_jobs y ++ [p]).
Definition at_once (f : fworld -> fworld) (y : fstation) : fstation :=
  mkFstation (f (fn_world y)) (fn_jobs y).

Section steps.
Context `{FileIds} (config : FileConfig) (is_uuid : string -> bool) (issue_message : jsval -> string).
Context (file_url : string -> string).
Context (drain : option GatewayDrainState) (ws_sends grpc_sends : frame -> bool) (send_error : string).

Definition serve (r : request) : fjob reply :=
  match r with
  | FileRequest viewer id method range => file_route config drain ws_sends grpc_sends send_error viewer id method range
  | CreateRequest viewer bud body => create_route config is_uuid issue_message file_url viewer bud body
  | ListRequest viewer bud => list_route config file_url viewer bud
  | ReadRequest viewer id => read_route config file_url viewer id
  | RevokeRequest viewer id body => revoke_route config file_url viewer id body
  | OpenRequest viewer thread body =>
      open_route config is_uuid issue_message file_url drain ws_sends grpc_sends send_error viewer thread body
  end.

Definition detached_job (d : detached) : fjob unit :=
  match d with
  | ClearActiveStream sid =>
      ignoring (exec (fun w => inr (set_fw_sessions
        ((fun r => if bool_decide (fs_activeStreamId r = Some sid)
                   then set_stream None None (fw_now w) r else r) <$> fw_sessions w) w)))
  | CancelStream sid => ignoring (stream_reset_stmt sid live_stream_states "canceled" client_error)
  | CancelOperation op =>
      ignoring (operation_stmt op live_operation_states Canceled None (Some client_error))
  end.

Inductive fstep (y : fstation) : fstation -> Prop :=
  | F_request r : fstep y (start_job (serve r) y)
  | F_resume i p o w' p' :
      fn_jobs y !! i = Some p -> resume o p (fn_world y) = (w', p') ->
      fstep y (mkFstation w' (<[i := p']> (fn_jobs y)))
  | F_open_result raw : fstep y (at_once (fun w => (handleFileOpenResult raw w).2) y)
  | F_resolve_result raw : fstep y (at_once (fun w => (handleFileResolveResult raw w).2) y)
  | F_resolve_timeout operationId : fstep y (at_once (resolveTimeout operationId) y)
  | F_data ref e chunk :
      fw_streams (fn_world y) !! ref = Some e -> fstep y (start_job (onData ref (es_call e) chunk) y)
  | F_reset ref e reason error :
      fw_streams (fn_world y) !! ref = Some e -> fstep y (start_job (onReset ref (es_call e) reason error) y)
  | F_close ref e finalOffset :
      fw_streams (fn_world y) !! ref = Some e -> fstep y (start_job (onClose ref (es_call e) finalOffset) y)
  | F_idle ref e :
      fw_streams (fn_world y) !! ref = Some e -> es_idleTimer e = true ->
      fstep y (start_job (resetFromServiceLimit ref (es_call e) "idle_timeout" idle_error)
                 (at_once (on_stream ref (set_idleTimer false)) y))
  | F_ttl ref e :
      fw_streams (fn_world y) !! ref = Some e -> es_ttlTimer e = true ->
      fstep y (start_job (resetFromServiceLimit ref (es_call e) "ttl_exceeded" ttl_error)
                 (at_once (on_stream ref (set_ttlTimer false)) y))
  | F_open_timeout ref : fstep y (at_once (call_runtime ref (quietly openTimeout)) y)
  | F_client_closed ref e :
      fw_streams (fn_world y) !! ref = Some e -> es_onAborted e || es_onClosed e = true ->
      fstep y (at_once (onClientClosed ref) y)
  | F_body_end ref e :
      fw_streams (fn_world y) !! ref = Some e -> es_onEnd e = true ->
      pt_ended (fr_body (es_runtime e)) = true ->
      fstep y (at_once (on_stream ref set_responseCompleted) y)
  | F_body_destroyed ref : fstep y (at_once (call_runtime ref (quietly (on_body pt_destroy))) y)
  | F_detached d ds1 ds2 :
      fw_detached (fn_world y) = ds1 ++ d :: ds2 ->
      fstep y (start_job (detached_job d) (at_once (set_fw_detached (ds1 ++ ds2)) y))
  | F_outside w' : outside (fn_world y) w' -> fstep y (mkFstation w' (fn_jobs y)).

Inductive fsteps (y : fstation) : fstation -> Prop :=
  | fsteps_none : fsteps y y
  | fsteps_more y1 y2 : fsteps y y1 -> fstep y1 y2 -> fsteps y y2.
End steps.
