(* ===== verification/FileProps.v ===== *)
(** The invariant of the file code: rows that are confined and stay so, streams
    that count what they forward and let go of their registrations when they end,
    and a history in which every frame sent to a daemon was admitted. *)
From Stdlib Require Import Strings.Byte ZArith QArith Qround Lia.
From stdpp Require Import base tactics strings gmap sorting option pretty.
From stdpp Require Import list.
From S2P Require Import Prelude JsRuntime Base64 Json JsText DaemonState Carrier DataPlane.
From S2P Require Import ControlRouters FilePaths FilePathProps FileRuntime Jobs FileSessions FileResolve FileEdge.
Open Scope Z_scope.
#[local] Arguments JsMap.delete : simpl never.
#[local] Arguments JsMap.set : simpl never.

(** ** Rows *)

(** What never changes in a row, with its value sound. *)
Record row_ok (r : FileSessionRow) : Prop := {
  ro_root : fs_rootKey r = DEFAULT_FILE_ROOT_KEY;
  ro_path : confined (fs_relativePath r);
  ro_permissions : permissions_ok (fs_permissions r);
  ro_bytes : 1 <= fs_maxBytes r <= MAX_FILE_SESSION_MAX_BYTES;
  ro_revoked : fs_revokedAt r <> None -> fs_state r = SessionRevoked;
}.

Record row_grows (r r' : FileSessionRow) : Prop := {
  rw_bud : fs_budId r' = fs_budId r;
  rw_root : fs_rootKey r' = fs_rootKey r;
  rw_path : fs_relativePath r' = fs_relativePath r;
  rw_permissions : fs_permissions r' = fs_permissions r;
  rw_bytes : fs_maxBytes r' = fs_maxBytes r;
  rw_expires : fs_expiresAt r' = fs_expiresAt r;
  rw_owner : fs_createdByUserId r' = fs_createdByUserId r;
  rw_state : fs_state r' = fs_state r \/ fs_revokedAt r' <> None;
  rw_revoked : fs_revokedAt r <> None -> fs_revokedAt r' <> None;
}.

#[export] Instance row_grows_preorder : PreOrder row_grows.
Proof.
  split.
  - intros r. constructor; auto.
  - intros a b c [] []. constructor; try congruence; [|tauto].
    destruct rw_state1 as [E|]; [|by right]. destruct rw_state0 as [E'|]; [left; congruence|right; tauto].
Qed.

(** ** The world *)

(** The runtime object is registered nowhere. *)
Definition freed (w : fworld) (ref : nat) : Prop :=
  (forall sid, JsMap.get sid (fw_registry w) <> Some ref)
  /\ forall e tr, fw_streams w !! ref = Some e ->
       w_trackers (fw_plane w) !! ec_tracker (es_call e) = Some tr ->
       JsMap.get (ec_streamId (es_call e)) (runtimeStreams tr) <> Some (es_planeStream e).

(** A request was let through: it was given its row, not revoked before, and found it
    the viewer's, not revoked, not expired and granting the permission. *)
Definition admission (viewer id : string) (r : FileSessionRow) (permission : string)
    (pre : list history_event) : Prop :=
  exists h1 h2 at_,
    pre = h1 ++ Looked viewer id r :: h2 /\ Allowed viewer id permission at_ ∈ h2
    /\ Revoked id ∉ h1
    /\ fs_createdByUserId r = Some viewer /\ fs_revokedAt r = None /\ at_ < fs_expiresAt r
    /\ permission ∈ fs_permissions r /\ row_ok r.

(** The call follows an admission that [pre] has seen, by a carrier of the bud. *)
Definition admitted_call (c : edge_call) (pre : list history_event) : Prop :=
  admission (ec_viewer c) (ec_fileSessionId c) (ec_session c) (ec_mode c) pre
  /\ range_ok (ec_range c) /\ dt_budId (ec_data c) = fs_budId (ec_session c).

Definition received (ref : nat) (h : list history_event) : list (list byte) :=
  omap (fun ev => match ev with
                  | Received ref' chunk => if decide (ref' = ref) then Some chunk else None
                  | _ => None end) h.

#[local] Arguments received : simpl never.

Record stream_ok (w : fworld) (ref : nat) (e : EdgeStream) : Prop := {
  sk_runtime : runtime_ok (es_runtime e);
  sk_max : fr_maxReceivedBytes (es_runtime e) = Some (fs_maxBytes (ec_session (es_call e)));
  sk_row : row_ok (ec_session (es_call e));
  sk_ref : (ref < fw_next w)%nat;
  sk_plane : (es_planeStream e < w_next (fw_plane w))%nat;
  sk_freed : fr_completed (es_runtime e) = true -> freed w ref;
  sk_body : pt_chunks (fr_body (es_runtime e)) `prefix_of` received ref (fw_history w);
  sk_open : pt_ended (fr_body (es_runtime e)) || pt_destroyed (fr_body (es_runtime e)) = false ->
            pt_chunks (fr_body (es_runtime e)) = received ref (fw_history w);
}.

Definition refusal (r : reply) : bool := match r with Refusal _ _ _ => true | _ => false end.

Record inv (w : fworld) : Prop := {
  iv_rows : forall id r, fw_sessions w !! id = Some r -> row_ok r;
  iv_revoked : forall id, Revoked id ∈ fw_history w ->
    exists r, fw_sessions w !! id = Some r /\ fs_revokedAt r <> None;
  iv_looked : forall h1 v id r h2, fw_history w = h1 ++ Looked v id r :: h2 ->
    row_ok r /\ fs_createdByUserId r = Some v /\ (fs_revokedAt r = None -> Revoked id ∉ h1);
  iv_current : forall v id r, Looked v id r ∈ fw_history w ->
    exists r', fw_sessions w !! id = Some r' /\ row_grows r r';
  iv_sent : forall h1 ref c bud f h2, fw_history w = h1 ++ OpenSent ref c bud f :: h2 ->
    admitted_call c h1 /\ bud = fs_budId (ec_session c)
    /\ exists messageId sentAt, f = buildFileOpenControlFrame c messageId sentAt;
  iv_streams : forall ref e, fw_streams w !! ref = Some e -> stream_ok w ref e;
  iv_registry : forall sid ref, JsMap.get sid (fw_registry w) = Some ref ->
    exists e, fw_streams w !! ref = Some e /\ ec_streamId (es_call e) = sid;
  iv_plane : forall t tr sid s, w_trackers (fw_plane w) !! t = Some tr ->
    JsMap.get sid (runtimeStreams tr) = Some s -> (s < w_next (fw_plane w))%nat;
  iv_received : forall ref chunk, Received ref chunk ∈ fw_history w -> (ref < fw_next w)%nat;
  iv_replied : forall ref r, Replied ref r ∈ fw_history w -> refusal r = true ->
    freed w ref /\ (ref < fw_next w)%nat;
}.

Record grows (w w' : fworld) : Prop := {
  gr_now : fw_now w <= fw_now w';
  gr_next : (fw_next w <= fw_next w')%nat;
  gr_history : fw_history w `prefix_of` fw_history w';
  gr_streams : forall ref e, fw_streams w !! ref = Some e ->
    exists e', fw_streams w' !! ref = Some e' /\ es_call e' = es_call e
               /\ es_planeStream e' = es_planeStream e /\ runtime_grows (es_runtime e) (es_runtime e');
  gr_freed : forall ref, (ref < fw_next w)%nat -> freed w ref -> freed w' ref;
  gr_sessions : forall id r, fw_sessions w !! id = Some r ->
    exists r', fw_sessions w' !! id = Some r' /\ row_grows r r';
}.

#[export] Instance grows_preorder : PreOrder grows.
Proof.
  split.
  - intros w. constructor; try done.
    + intros ref e He. by exists e.
    + intros id r Hr. by exists r.
  - intros a b c [] []. constructor.
    + lia.
    + lia.
    + by etrans.
    + intros ref e He. destruct (gr_streams0 ref e He) as (e1 & H1 & E1 & P1 & R1).
      destruct (gr_streams1 ref e1 H1) as (e2 & H2 & E2 & P2 & R2).
      exists e2. split_and!; [done|congruence|congruence|by etrans].
    + intros ref Hr Hf. apply gr_freed1; [lia|]. by apply gr_freed0.
    + intros id r Hr. destruct (gr_sessions0 id r Hr) as (r1 & H1 & G1).
      destruct (gr_sessions1 id r1 H1) as (r2 & H2 & G2). exists r2. split; [done|by etrans].
Qed.

(** ** Changes that keep the invariant *)

(** Data-plane registrations only go, but for new ones. *)
Definition plane_ok (p p' : world) : Prop :=
  (w_next p <= w_next p')%nat
  /\ forall t tr' sid s, w_trackers p' !! t = Some tr' -> JsMap.get sid (runtimeStreams tr') = Some s ->
       (s < w_next p')%nat
       /\ ((s < w_next p)%nat ->
           exists tr, w_trackers p !! t = Some tr /\ JsMap.get sid (runtimeStreams tr) = Some s).

Definition rows_evolve (m m' : gmap string FileSessionRow) : Prop :=
  (forall id r, m !! id = Some r -> exists r', m' !! id = Some r' /\ row_grows r r')
  /\ forall id r', m' !! id = Some r' ->
       (exists r, m !! id = Some r /\ (row_ok r -> row_ok r')) \/ row_ok r'.

Definition body_open (r : FileRuntimeStream) : bool :=
  negb (pt_ended (fr_body r) || pt_destroyed (fr_body r)).

(** A stream object changes; what it forwarded stays. *)
Definition stream_moves (w' : fworld) (ref : nat) (e e' : EdgeStream) : Prop :=
  es_call e' = es_call e /\ es_planeStream e' = es_planeStream e
  /\ runtime_ok (es_runtime e') /\ runtime_grows (es_runtime e) (es_runtime e')
  /\ (fr_completed (es_runtime e') = true -> fr_completed (es_runtime e) = true \/ freed w' ref)
  /\ pt_chunks (fr_body (es_runtime e')) = pt_chunks (fr_body (es_runtime e))
  /\ (body_open (es_runtime e') = true -> body_open (es_runtime e) = true).

Lemma edge_moves_refl w' ref e : runtime_ok (es_runtime e) -> stream_moves w' ref e e.
Proof. intros Hr. split_and!; try done; auto. Qed.

Lemma rows_evolve_refl m : rows_evolve m m.
Proof. split; [intros id r Hr; by exists r|]. intros id r Hr. left. by exists r. Qed.

Lemma plane_ok_refl w : inv w -> plane_ok (fw_plane w) (fw_plane w).
Proof.
  intros Hw. split; [done|]. intros t tr sid s Ht Hs. split; [by eapply iv_plane|]. intros _. by exists tr.
Qed.

#[export] Hint Resolve rows_evolve_refl plane_ok_refl : bud.

Lemma freed_keep w w' ref :
  (forall sid, JsMap.get sid (fw_registry w') = Some ref -> JsMap.get sid (fw_registry w) = Some ref) ->
  (forall e', fw_streams w' !! ref = Some e' ->
     exists e, fw_streams w !! ref = Some e /\ es_call e' = es_call e
               /\ es_planeStream e' = es_planeStream e /\ (es_planeStream e < w_next (fw_plane w))%nat) ->
  plane_ok (fw_plane w) (fw_plane w') -> freed w ref -> freed w' ref.
Proof.
  intros Hreg Hst [_ Hp] [H1 H2]. split; [intros sid Hs; by eapply H1, Hreg|].
  intros e' tr' He' Htr' Hget. destruct (Hst e' He') as (e & He & Ec & Ep & Hlt).
  rewrite Ec, Ep in *. destruct (Hp _ _ _ _ Htr' Hget) as [_ Hold].
  destruct (Hold Hlt) as (tr & Htr & Hg). by eapply H2.
Qed.

Lemma evolve w w' : inv w ->
  fw_now w <= fw_now w' -> rows_evolve (fw_sessions w) (fw_sessions w') ->
  plane_ok (fw_plane w) (fw_plane w') -> fw_next w' = fw_next w ->
  (forall sid ref, JsMap.get sid (fw_registry w') = Some ref -> JsMap.get sid (fw_registry w) = Some ref) ->
  fw_history w' = fw_history w ->
  (forall ref, match fw_streams w !! ref, fw_streams w' !! ref with
               | Some e, Some e' => stream_moves w' ref e e' | None, None => True | _, _ => False end) ->
  inv w' /\ grows w w'.
Proof.
  intros Hw Hnow [Hrows Hrows'] Hplane Hnext Hreg Hhist Hst.
  assert (Hfreed : forall ref, (ref < fw_next w)%nat -> freed w ref -> freed w' ref).
  { intros ref _. apply freed_keep; [intros sid; apply (Hreg sid ref)| |done].
    intros e' He'. specialize (Hst ref). rewrite He' in Hst.
    destruct (fw_streams w !! ref) as [e|] eqn:He; [|done]. destruct Hst as (? & ? & _).
    exists e. split_and!; try done. by apply (sk_plane w ref e), iv_streams. }
  split; constructor; rewrite ?Hnext, ?Hhist; try done.
  - intros id r' Hr'. destruct (Hrows' id r' Hr') as [(r & Hr & Hok)|]; [|done]. by eapply Hok, iv_rows.
  - intros id Hin. destruct (iv_revoked w Hw id Hin) as (r & Hr & Hn).
    destruct (Hrows id r Hr) as (r' & Hr' & Hg). exists r'. split; [done|by apply (rw_revoked r r')].
  - apply (iv_looked w Hw).
  - intros v id r Hin. destruct (iv_current w Hw v id r Hin) as (r1 & H1 & G1).
    destruct (Hrows id r1 H1) as (r2 & H2 & G2). exists r2. split; [done|by etrans].
  - apply (iv_sent w Hw).
  - intros ref e' He'. specialize (Hst ref). rewrite He' in Hst.
    destruct (fw_streams w !! ref) as [e|] eqn:He; [|done].
    destruct Hst as (Ec & Ep & Hrt & Hg & Hc & Hb & Ho). destruct (iv_streams w Hw ref e He).
    constructor; rewrite ?Ec, ?Ep, ?Hnext, ?Hhist, ?Hb, ?(rg_max _ _ Hg); try done.
    + destruct Hplane. lia.
    + intros Hd. destruct (Hc Hd) as [Hd'|]; [|done]. by apply Hfreed, sk_freed0.
    + intros Hn. apply sk_open0. unfold body_open in Ho. rewrite Hn in Ho. cbn in Ho.
      specialize (Ho eq_refl). by apply negb_true_iff in Ho.
  - intros sid ref Hs. apply Hreg in Hs. destruct (iv_registry w Hw sid ref Hs) as (e & He & Hid).
    specialize (Hst ref). rewrite He in Hst. destruct (fw_streams w' !! ref) as [e'|]; [|done].
    exists e'. split; [done|]. destruct Hst as (-> & _). done.
  - intros t tr sid s Ht Hs. destruct Hplane as [_ Hp]. by destruct (Hp t tr sid s Ht Hs).
  - apply (iv_received w Hw).
  - intros ref r Hin Hr. destruct (iv_replied w Hw ref r Hin Hr). split; [by apply Hfreed|done].
  - intros ref e He. specialize (Hst ref). rewrite He in Hst.
    destruct (fw_streams w' !! ref) as [e'|]; [|done]. destruct Hst as (? & ? & _ & ? & _). by exists e'.
Qed.

(** Everything but the streams, the registry and the history. *)
Lemma evolve_calm w w' : inv w ->
  fw_now w <= fw_now w' -> rows_evolve (fw_sessions w) (fw_sessions w') ->
  plane_ok (fw_plane w) (fw_plane w') -> fw_next w' = fw_next w -> fw_registry w' = fw_registry w ->
  fw_history w' = fw_history w -> fw_streams w' = fw_streams w -> inv w' /\ grows w w'.
Proof.
  intros Hw Hnow Hrows Hplane Hnext Hreg Hhist Hst. apply evolve; try done; [by rewrite Hreg|].
  intros ref. rewrite Hst. destruct (fw_streams w !! ref) eqn:He; [|done].
  apply edge_moves_refl. by apply (sk_runtime w ref), iv_streams.
Qed.

(** Only the database of the data plane. *)
Lemma plane_ok_db w d : inv w -> plane_ok (fw_plane w) (set_w_db d (fw_plane w)).
Proof. apply plane_ok_refl. Qed.

(** ** The stream objects *)

Lemma on_stream_lookup ref ref' f w :
  fw_streams (on_stream ref f w) !! ref'
  = if decide (ref' = ref) then f <$> fw_streams w !! ref else fw_streams w !! ref'.
Proof. cbn. case_decide; [subst; by rewrite lookup_alter_eq|by rewrite lookup_alter_ne]. Qed.

(** A change of one object that does not complete it, or of one already let go. *)
Lemma on_stream_moves ref f w : inv w ->
  (forall e, fw_streams w !! ref = Some e ->
     stream_moves (on_stream ref f w) ref e (f e)) ->
  inv (on_stream ref f w) /\ grows w (on_stream ref f w).
Proof.
  intros Hw Hf. apply evolve;
    [done|apply Z.le_refl|cbn; apply rows_evolve_refl|cbn; by apply plane_ok_refl|done|done|done|].
  intros ref'. rewrite on_stream_lookup. case_decide as E.
  - subst. destruct (fw_streams w !! ref) as [e|] eqn:He; [|done]. by apply Hf.
  - destruct (fw_streams w !! ref') as [e|] eqn:He; [|done].
    apply edge_moves_refl. by apply (sk_runtime w ref'), iv_streams.
Qed.

(** Timers, listeners and flags. *)
Definition same_runtime (f : EdgeStream -> EdgeStream) : Prop :=
  forall e, es_call (f e) = es_call e /\ es_planeStream (f e) = es_planeStream e
            /\ es_runtime (f e) = es_runtime e.

Lemma same_runtime_moves w' ref f e : same_runtime f -> runtime_ok (es_runtime e) ->
  stream_moves w' ref e (f e).
Proof. intros Hf Hr. destruct (Hf e) as (E1 & E2 & E3). unfold stream_moves. rewrite E1, E2, E3. by split_and!; auto. Qed.

Lemma on_stream_ok ref f w : same_runtime f -> inv w ->
  inv (on_stream ref f w) /\ grows w (on_stream ref f w).
Proof.
  intros Hf Hw. apply on_stream_moves; [done|]. intros e He. apply same_runtime_moves; [done|].
  by apply (sk_runtime w ref), iv_streams.
Qed.

Lemma cleanup_lookup ref ref' w :
  fw_streams (cleanup ref w) !! ref'
  = if decide (ref' = ref)
    then (fun e => set_edge_listeners false false (es_onEnd e) (clearLimitTimers e)) <$> fw_streams w !! ref
    else fw_streams w !! ref'.
Proof.
  unfold cleanup. destruct (fw_streams w !! ref) as [e|] eqn:He.
  - cbn. case_decide; [subst; by rewrite lookup_alter_eq, He|by rewrite lookup_alter_ne].
  - case_decide; [by subst|done].
Qed.

Lemma plane_ok_cleanup t sid p :
  (forall t tr sid s, w_trackers p !! t = Some tr -> JsMap.get sid (runtimeStreams tr) = Some s ->
     (s < w_next p)%nat) ->
  plane_ok p (upd_tracker t (fun tr => set_runtimeStreams (JsMap.delete sid (runtimeStreams tr)) tr) p).
Proof.
  intros Hp. split; [done|]. cbn. intros t' tr' sid' s Ht' Hs.
  assert (Hold : exists tr, w_trackers p !! t' = Some tr /\ JsMap.get sid' (runtimeStreams tr) = Some s).
  { destruct (decide (t' = t)) as [->|Hne]; [|rewrite lookup_alter_ne in Ht' by done; by exists tr'].
    rewrite lookup_alter_eq in Ht'. destruct (w_trackers p !! t) as [tr|] eqn:Htr; [|done].
    injection Ht' as <-. cbn in Hs. exists tr. split; [done|].
    rewrite JsMap.get_delete in Hs. by case_decide. }
  destruct Hold as (tr & Htr & Hg). split; [by eapply Hp|]. intros _. by exists tr.
Qed.

Lemma cleanup_ok ref w : inv w ->
  inv (cleanup ref w) /\ grows w (cleanup ref w) /\ ((ref < fw_next w)%nat -> freed (cleanup ref w) ref).
Proof.
  intros Hw. assert (H : inv (cleanup ref w) /\ grows w (cleanup ref w)).
  { apply evolve; [done| | | |unfold cleanup; by case_match| |unfold cleanup; by case_match|].
    - unfold cleanup. case_match; apply Z.le_refl.
    - unfold cleanup. case_match; cbn; apply rows_evolve_refl.
    - unfold cleanup. case_match; cbn; [apply plane_ok_cleanup; by apply iv_plane|by apply plane_ok_refl].
    - intros sid ref'. unfold cleanup. case_match; [|done]. cbn. rewrite JsMap.get_delete.
      by case_decide.
    - intros ref'. rewrite cleanup_lookup. case_decide as E.
      + subst. destruct (fw_streams w !! ref) as [e|] eqn:He; [|done]. cbn.
        apply (same_runtime_moves _ _ (fun e => set_edge_listeners false false (es_onEnd e) (clearLimitTimers e)));
          [done|]. by apply (sk_runtime w ref), iv_streams.
      + destruct (fw_streams w !! ref') as [e|] eqn:He; [|done].
        apply edge_moves_refl. by apply (sk_runtime w ref'), iv_streams. }
  destruct H as [H1 H2]. split_and!; [done|done|]. intros _. split.
  - intros sid Hs. pose proof (iv_registry _ H1 sid ref Hs) as (e & He & Hid).
    rewrite cleanup_lookup, decide_True in He by done.
    unfold cleanup in Hs. destruct (fw_streams w !! ref) as [e0|] eqn:He0; [|done].
    cbn in He. injection He as <-. cbn in Hid, Hs. subst. by rewrite JsMap.get_delete_eq in Hs.
  - intros e tr He Htr. rewrite cleanup_lookup, decide_True in He by done.
    unfold cleanup in Htr. destruct (fw_streams w !! ref) as [e0|] eqn:He0; [|done].
    cbn in He. injection He as <-. cbn in *. rewrite lookup_alter_eq in Htr.
    destruct (w_trackers (fw_plane w) !! ec_tracker (es_call e0)) as [tr0|]; [|done].
    injection Htr as <-. cbn. by rewrite JsMap.get_delete_eq.
Qed.

(** A method of the runtime object that writes nothing to its body. *)
Definition method_at (r : FileRuntimeStream) (call : FileRuntimeStream * bool) : Prop :=
  call_ok r call /\ pt_chunks (fr_body call.1) = pt_chunks (fr_body r)
  /\ (body_open call.1 = true -> body_open r = true).
Definition method_ok (f : FileRuntimeStream -> FileRuntimeStream * bool) : Prop :=
  forall r, runtime_ok r -> method_at r (f r).

Lemma cleanup_swap ref r w e : fw_streams w !! ref = Some e ->
  cleanup ref (on_stream ref (set_es_runtime r) w) = on_stream ref (set_es_runtime r) (cleanup ref w).
Proof.
  intros He. unfold cleanup at 1. rewrite on_stream_lookup, decide_True, He by done. cbn [fmap option_fmap option_map].
  unfold cleanup. rewrite He. unfold on_stream, set_fw_streams, set_fw_registry, set_fw_plane, set_fw_detached.
  cbn. f_equal. rewrite !alter_alter_eq. by apply alter_ext.
Qed.

Lemma call_runtime_at ref f w : inv w ->
  (forall e, fw_streams w !! ref = Some e -> method_at (es_runtime e) (f (es_runtime e))) ->
  inv (call_runtime ref f w) /\ grows w (call_runtime ref f w).
Proof.
  intros Hw Hf. unfold call_runtime. destruct (fw_streams w !! ref) as [e|] eqn:He; [|done].
  pose proof (iv_streams w Hw ref e He) as Hs. destruct (Hf e eq_refl) as ((Hok & Hg & Hc) & Hb & Ho).
  destruct (f (es_runtime e)) as [r cleaned]. cbn in *. destruct cleaned.
  - rewrite (cleanup_swap ref r w e He). destruct (cleanup_ok ref w Hw) as (H1 & H2 & H3).
    destruct (on_stream_moves ref (set_es_runtime r) (cleanup ref w) H1) as [H4 H5].
    + intros e' He'. rewrite cleanup_lookup, decide_True, He in He' by done. injection He' as <-.
      unfold stream_moves. cbn. split_and!; try done. intros _. right.
      apply (freed_keep (cleanup ref w)); [done| | |].
      * intros e'. rewrite on_stream_lookup, decide_True, cleanup_lookup, decide_True, He by done.
        intros [= <-]. eexists. split_and!; [done|done|done|]. cbn.
        destruct (gr_streams _ _ H2 ref e He) as (e1 & He1 & _ & <- & _).
        by apply (sk_plane _ ref e1), iv_streams.
      * exact (plane_ok_refl _ H1).
      * apply H3. by apply sk_ref in Hs.
    + split; [done|by etrans].
  - apply on_stream_moves; [done|]. intros e' He'. simplify_eq. unfold stream_moves. cbn.
    split_and!; try done. intros Hd. left. destruct (fr_completed (es_runtime e)) eqn:Ec; [done|].
    by specialize (Hc eq_refl Hd).
Qed.

Lemma call_runtime_ok ref f w : method_ok f -> inv w ->
  inv (call_runtime ref f w) /\ grows w (call_runtime ref f w).
Proof.
  intros Hf Hw. apply call_runtime_at; [done|]. intros e He. by apply Hf, (sk_runtime w ref), iv_streams.
Qed.

Lemma quiet_method f : (forall r, runtime_ok r -> runtime_ok (f r) /\ runtime_grows r (f r)
    /\ fr_completed (f r) = fr_completed r /\ pt_chunks (fr_body (f r)) = pt_chunks (fr_body r)
    /\ (body_open (f r) = true -> body_open r = true)) -> method_ok (quietly f).
Proof.
  intros H r Hr. destruct (H r Hr) as (H1 & H2 & H3 & H4 & H5). unfold quietly, method_at, call_ok. cbn.
  split_and!; try done. congruence.
Qed.

Lemma waitForOpen_method : method_ok (quietly waitForOpen).
Proof.
  apply quiet_method. intros r Hr. destruct (waitForOpen_ok r Hr). split_and!; try done;
    unfold waitForOpen; by repeat case_match.
Qed.

Lemma openTimeout_method : method_ok (quietly openTimeout).
Proof.
  apply quiet_method. intros r Hr. destruct (openTimeout_ok r Hr). split_and!; try done;
    unfold openTimeout, openReject; by repeat case_match.
Qed.

Lemma destroy_method : method_ok (quietly (on_body pt_destroy)).
Proof.
  apply quiet_method. intros r [H1 H2 H3]. split_and!; try done; try by constructor.
  unfold body_open. cbn. by rewrite orb_true_r.
Qed.

Lemma handleOpenResult_method frame : method_ok (handleOpenResult frame).
Proof.
  intros r Hr. split; [by apply handleOpenResult_ok|].
  unfold handleOpenResult, openResolve, body_open. by repeat (case_match; simplify_eq/=).
Qed.

Lemma handleReset_method reason error : method_ok (handleReset reason error).
Proof.
  intros r Hr. split; [by apply handleReset_ok|].
  unfold handleReset, body_open. case_match; [done|]. cbn.
  destruct (openReject_same (match error with Some e => se_message e | None => reason end)
              (set_fr_completed true r)) as (_ & -> & _). cbn. by rewrite orb_true_r.
Qed.

Lemma handleClose_method : method_ok handleClose.
Proof.
  intros r Hr. split; [by apply handleClose_ok|].
  unfold handleClose, body_open. by repeat (case_match; simplify_eq/=).
Qed.

#[export] Hint Resolve waitForOpen_method openTimeout_method destroy_method handleOpenResult_method
  handleReset_method handleClose_method : bud.

(** ** The history *)

Lemma snoc_split {A} (l : list A) x h1 y h2 : l ++ [x] = h1 ++ y :: h2 ->
  (h2 = [] /\ y = x /\ h1 = l) \/ (exists h3, h2 = h3 ++ [x] /\ l = h1 ++ y :: h3).
Proof.
  destruct h2 as [|z h2 _] using rev_ind.
  - intros [-> ->]%app_inj_tail. by left.
  - change (h1 ++ y :: h2 ++ [z]) with (h1 ++ (y :: h2) ++ [z]). rewrite app_assoc.
    intros [-> ->]%app_inj_tail. right. by exists h2.
Qed.

Lemma received_app ref a b : received ref (a ++ b) = received ref a ++ received ref b.
Proof. apply omap_app. Qed.

(** What an event may be noted for. *)
Definition note_ok (w : fworld) (ev : history_event) : Prop :=
  match ev with
  | Looked v id r => find_session v id w = Some r
  | Allowed _ _ _ _ => True
  | Revoked id => exists r, fw_sessions w !! id = Some r /\ fs_revokedAt r <> None
  | OpenSent ref c bud f =>
      admitted_call c (fw_history w) /\ bud = fs_budId (ec_session c)
      /\ exists messageId sentAt, f = buildFileOpenControlFrame c messageId sentAt
  | Received _ _ => False
  | Replied ref r => refusal r = true -> freed w ref /\ (ref < fw_next w)%nat
  end.

Lemma find_session_Some v id w r : find_session v id w = Some r ->
  fw_sessions w !! id = Some r /\ fs_createdByUserId r = Some v.
Proof.
  unfold find_session, owned_by. destruct (fw_sessions w !! id) as [r'|]; [|done]. cbn.
  case_bool_decide; [|done]. by intros [= <-].
Qed.

Lemma note_inv ev w : inv w -> note_ok w ev -> inv (note ev w) /\ grows w (note ev w).
Proof.
  intros Hw Hev.
  assert (Hrec : forall ref, received ref (fw_history w ++ [ev]) = received ref (fw_history w)).
  { intros ref. rewrite received_app. destruct ev; try done; by rewrite app_nil_r. }
  split; constructor; cbn; try apply Hw; try done.
  - intros id [Hin|Hin]%elem_of_app; [by apply (iv_revoked w Hw)|].
    apply list_elem_of_singleton in Hin. by subst.
  - intros h1 v id r h2 [(-> & <- & ->)|(h3 & -> & E)]%snoc_split; [|by eapply (iv_looked w Hw)].
    cbn in Hev. apply find_session_Some in Hev as [Hr Ho].
    split_and!; [by eapply iv_rows|done|]. intros Hn Hin.
    destruct (iv_revoked w Hw id Hin) as (r' & Hr' & Hn'). congruence.
  - intros v id r [Hin|Hin%list_elem_of_singleton]%elem_of_app; [by eapply (iv_current w Hw)|]. subst.
    apply find_session_Some in Hev as [Hr _]. by exists r.
  - intros h1 ref c bud f h2 [(-> & <- & ->)|(h3 & -> & E)]%snoc_split; [done|].
    by eapply (iv_sent w Hw).
  - intros ref e He. destruct (iv_streams w Hw ref e He). constructor; cbn; rewrite ?Hrec; done.
  - intros ref chunk [Hin|Hin]%elem_of_app; [by eapply (iv_received w Hw)|].
    apply list_elem_of_singleton in Hin. by subst.
  - intros ref r [Hin|Hin]%elem_of_app Hr; [by eapply (iv_replied w Hw)|].
    apply list_elem_of_singleton in Hin. subst. by apply Hev.
  - by apply prefix_app_r.
  - intros ref e He. by exists e.
  - intros id r Hr. by exists r.
Qed.

(** ** Data *)

(** Counting a chunk that was written. *)
Lemma data_arrives_written ref e chunk r w : inv w -> fw_streams w !! ref = Some e ->
  handleData chunk (es_runtime e) = (r, false, DataWritten) ->
  inv (note (Received ref chunk) (on_stream ref (set_es_runtime r) w))
  /\ grows w (note (Received ref chunk) (on_stream ref (set_es_runtime r) w)).
Proof.
  intros Hw He Hd. pose proof (iv_streams w Hw ref e He) as Hs.
  destruct (handleData_ok chunk (es_runtime e) (sk_runtime _ _ _ Hs)) as (Hok & Hg & _).
  rewrite Hd in Hok, Hg. cbn in Hok, Hg.
  set (w' := note (Received ref chunk) (on_stream ref (set_es_runtime r) w)).
  assert (Hlook : forall ref', fw_streams w' !! ref'
            = if decide (ref' = ref) then Some (set_es_runtime r e) else fw_streams w !! ref').
  { intros ref'. change (fw_streams w' !! ref') with (fw_streams (on_stream ref (set_es_runtime r) w) !! ref').
    rewrite on_stream_lookup. case_decide; [by rewrite He|done]. }
  assert (Hfree : forall ref', freed w ref' -> freed w' ref').
  { intros ref'. apply freed_keep; [done| |exact (plane_ok_refl w Hw)]. intros e'. rewrite Hlook.
    case_decide; [subst; intros [= <-]; exists e; split_and!; try done; apply Hs|].
    intros He'. exists e'. split_and!; try done. by apply (sk_plane w ref'), iv_streams. }
  assert (Hbody : fr_completed r = fr_completed (es_runtime e)
            /\ fr_body r = pt_write chunk (fr_body (es_runtime e))).
  { unfold handleData in Hd. by repeat (case_match; simplify_eq/=). }
  destruct Hbody as [Hcomp Hbody].
  assert (Hrec : forall ref', received ref' (fw_history w ++ [Received ref chunk])
            = if decide (ref' = ref) then received ref' (fw_history w) ++ [chunk] else received ref' (fw_history w)).
  { intros ref'. rewrite received_app. unfold received at 2. cbn.
    repeat case_decide; subst; try done; by rewrite app_nil_r. }
  split; constructor; cbn; try apply Hw; try done.
  - intros id [Hin|Hin%list_elem_of_singleton]%elem_of_app; [by apply (iv_revoked w Hw)|done].
  - intros h1 v id r' h2 [(_ & [=] & _)|(h3 & -> & E)]%snoc_split. by eapply (iv_looked w Hw).
  - intros v id r' [Hin|Hin%list_elem_of_singleton]%elem_of_app; [by eapply (iv_current w Hw)|done].
  - intros h1 ref' c bud f h2 [(_ & [=] & _)|(h3 & -> & E)]%snoc_split. by eapply (iv_sent w Hw).
  - intros ref' e'. change (alter (set_es_runtime r) ref (fw_streams w)) with (fw_streams w').
    rewrite Hlook. case_decide as E.
    + subst ref'. intros [= <-]. destruct Hs. constructor; cbn; rewrite ?Hrec, ?decide_True by done; try done.
      * by rewrite (rg_max _ _ Hg).
      * rewrite Hcomp. intros Hc. by apply Hfree, sk_freed0.
      * rewrite Hbody. unfold pt_write. case_match eqn:Eo; cbn; [by apply prefix_app_r|].
        by rewrite (sk_open0 eq_refl).
      * rewrite Hbody. unfold pt_write. case_match eqn:Eo; cbn; [congruence|]. intros _.
        by rewrite (sk_open0 eq_refl).
    + intros He'. destruct (iv_streams w Hw ref' e' He').
      constructor; cbn; rewrite ?Hrec, ?decide_False by done; try done. auto.
  - intros sid ref' Hr. destruct (iv_registry w Hw sid ref' Hr) as (e' & He' & Hid).
    change (alter (set_es_runtime r) ref (fw_streams w)) with (fw_streams w'). rewrite Hlook.
    case_decide; [subst ref'; eexists; split; [done|]; cbn; congruence|by exists e'].
  - intros ref' chunk' [Hin|Hin%list_elem_of_singleton]%elem_of_app; [by eapply (iv_received w Hw)|].
    simplify_eq. apply Hs.
  - intros ref' r' [Hin|Hin%list_elem_of_singleton]%elem_of_app Hr; [|done].
    destruct (iv_replied w Hw ref' r' Hin Hr). split; [by apply Hfree|done].
  - by apply prefix_app_r.
  - intros ref' e' He'. change (alter (set_es_runtime r) ref (fw_streams w)) with (fw_streams w').
    rewrite Hlook. case_decide; [subst ref'; simplify_eq; by eexists|by exists e'].
  - intros ref' _. apply Hfree.
  - intros id r' Hr. by exists r'.
Qed.

Lemma data_method chunk r : runtime_ok r -> (handleData chunk r).2 <> DataWritten ->
  method_at r (handleData chunk r).1.
Proof.
  intros Hr Hn. split; [by apply handleData_ok|]. revert Hn. unfold handleData, body_open.
  destruct (fr_completed r); [done|]. destruct (zlen chunk =? 0); [done|].
  destruct (fr_maxReceivedBytes r) as [max|]; [|done]. case_match; [|done]. intros _. cbn.
  destruct (openReject_same ("file response exceeded max bytes " +:+ pretty max) (set_fr_completed true r))
    as (_ & -> & _). cbn. by rewrite orb_true_r.
Qed.

Lemma data_arrives_ok ref chunk w : inv w ->
  inv (data_arrives ref chunk w) /\ grows w (data_arrives ref chunk w).
Proof.
  intros Hw. unfold data_arrives. destruct (fw_streams w !! ref) as [e|] eqn:He; [|done].
  pose proof (iv_streams w Hw ref e He) as Hs.
  destruct (decide ((handleData chunk (es_runtime e)).2 = DataWritten)) as [Hd|Hd].
  - destruct (handleData chunk (es_runtime e)) as [[r cleaned] outcome] eqn:E. cbn in Hd. subst outcome.
    assert (cleaned = false) as -> by (unfold handleData in E; by repeat (case_match; simplify_eq/=)).
    assert (Ec : call_runtime ref (fun r => (handleData chunk r).1) w = on_stream ref (set_es_runtime r) w)
      by (unfold call_runtime; by rewrite He, E).
    rewrite Ec. by apply (data_arrives_written ref e).
  - destruct (handleData chunk (es_runtime e)) as [call outcome] eqn:E.
    assert (H : inv (call_runtime ref (fun r => (handleData chunk r).1) w)
                /\ grows w (call_runtime ref (fun r => (handleData chunk r).1) w)).
    { apply call_runtime_at; [done|]. intros e' He'. simplify_eq.
      apply data_method; [by apply (sk_runtime w ref)|by rewrite E]. }
    by destruct outcome.
Qed.

(** ** The tables *)

Lemma rows_evolve_alter m id f :
  (forall r, row_grows r (f r)) -> (forall r, row_ok r -> row_ok (f r)) -> rows_evolve m (alter f id m).
Proof.
  intros Hg Ho. split.
  - intros id' r Hr. destruct (decide (id' = id)) as [->|Hne].
    + rewrite lookup_alter_eq, Hr. by exists (f r).
    + rewrite lookup_alter_ne by done. by exists r.
  - intros id' r'. destruct (decide (id' = id)) as [->|Hne].
    + rewrite lookup_alter_eq. destruct (m !! id) as [r|]; [|done]. intros [= <-]. left. exists r. auto.
    + rewrite lookup_alter_ne by done. intros Hr. left. by exists r'.
Qed.

Lemma rows_evolve_fmap m f :
  (forall r, row_grows r (f r)) -> (forall r, row_ok r -> row_ok (f r)) -> rows_evolve m (f <$> m).
Proof.
  intros Hg Ho. split; intros id r; rewrite lookup_fmap.
  - intros ->. by exists (f r).
  - destruct (m !! id) as [r0|]; [|done]. intros [= <-]. left. exists r0. auto.
Qed.

Lemma rows_evolve_insert m id r : m !! id = None -> row_ok r -> rows_evolve m (<[id := r]> m).
Proof.
  intros Hn Ho. split; intros id' r'.
  - intros Hr. rewrite lookup_insert_ne by congruence. by exists r'.
  - destruct (decide (id' = id)) as [->|Hne]; [rewrite lookup_insert_eq|rewrite lookup_insert_ne by done].
    + intros [= <-]. by right.
    + intros Hr. left. by exists r'.
Qed.

Lemma rows_evolve_update m id r r' : m !! id = Some r -> row_grows r r' -> (row_ok r -> row_ok r') ->
  rows_evolve m (<[id := r']> m).
Proof.
  intros Hr Hg Ho. split; intros id' x; destruct (decide (id' = id)) as [->|Hne];
    rewrite ?lookup_insert_eq, ?lookup_insert_ne by done.
  - rewrite Hr. intros [= <-]. by exists r'.
  - intros Hx. by exists x.
  - intros [= <-]. left. by exists r.
  - intros Hx. left. by exists x.
Qed.

Lemma set_stream_grows op sid now r : row_grows r (set_stream op sid now r).
Proof. constructor; auto. Qed.
Lemma set_stream_sound op sid now r : row_ok r -> row_ok (set_stream op sid now r).
Proof. intros []. by constructor. Qed.
Lemma set_identity_grows identity now r : row_grows r (set_identity identity now r).
Proof. constructor; auto. Qed.
Lemma set_identity_sound identity now r : row_ok r -> row_ok (set_identity identity now r).
Proof. intros []. by constructor. Qed.
Lemma set_revoked_grows v reason now r : row_grows r (set_revoked v reason now r).
Proof. by constructor; auto. Qed.
Lemma set_revoked_sound v reason now r : row_ok r -> row_ok (set_revoked v reason now r).
Proof. intros []. by constructor. Qed.
Lemma unlinked_grows r r' : unlinked r r' -> row_grows r r' /\ (row_ok r -> row_ok r').
Proof. intros (t & o & s & ->). split; [constructor; auto|intros []; by constructor]. Qed.

#[export] Hint Resolve set_stream_grows set_stream_sound set_identity_grows set_identity_sound
  set_revoked_grows set_revoked_sound rows_evolve_alter rows_evolve_fmap : bud.

Local Ltac calm Hw :=
  apply evolve_calm;
  try first [assumption | apply Z.le_refl | apply rows_evolve_refl | exact (plane_ok_refl _ Hw) | reflexivity].

(** A statement that changes rows of the session table. *)
Lemma sessions_evolve m w : inv w -> rows_evolve (fw_sessions w) m ->
  inv (set_fw_sessions m w) /\ grows w (set_fw_sessions m w).
Proof.
  intros Hw Hm. calm Hw.
Qed.

(** Ids, routers, detached work. *)
Lemma plane_evolve p w : inv w -> plane_ok (fw_plane w) p ->
  inv (set_fw_plane p w) /\ grows w (set_fw_plane p w).
Proof. intros Hw Hp. calm Hw. Qed.

Lemma drawn_evolve n w : inv w -> inv (set_fw_drawn n w) /\ grows w (set_fw_drawn n w).
Proof. intros Hw. calm Hw. Qed.
Lemma routers_evolve r w : inv w -> inv (set_fw_routers r w) /\ grows w (set_fw_routers r w).
Proof. intros Hw. calm Hw. Qed.
Lemma detached_evolve l w : inv w -> inv (set_fw_detached l w) /\ grows w (set_fw_detached l w).
Proof. intros Hw. calm Hw. Qed.

Lemma pending_evolve l w : inv w -> inv (set_fw_pending l w) /\ grows w (set_fw_pending l w).
Proof. intros Hw. calm Hw. Qed.
Lemma promises_evolve l w : inv w -> inv (set_fw_promises l w) /\ grows w (set_fw_promises l w).
Proof. intros Hw. calm Hw. Qed.

Lemma settle_resolve_ok op v w : inv w -> inv (settle_resolve op v w) /\ grows w (settle_resolve op v w).
Proof.
  intros Hw. unfold settle_resolve, clearPendingFileResolve. case_match; [|done].
  destruct (pending_evolve (JsMap.delete op (fw_pending w)) w Hw) as [H1 H2].
  destruct (promises_evolve (<[n := v]> (fw_promises w)) _ H1). split; [done|by etrans].
Qed.

Lemma on_db_ok {A} (st : fworld -> db -> outcome A) w w' : inv w -> on_db st w = inr w' ->
  inv w' /\ grows w w'.
Proof.
  intros Hw. unfold on_db. case_match; intros E; simplify_eq.
  apply plane_evolve; [done|exact (plane_ok_refl w Hw)].
Qed.

Lemma send_reset_ok c reason error w : inv w ->
  inv (send_reset c reason error w) /\ grows w (send_reset c reason error w).
Proof.
  intros Hw. unfold send_reset. case_match; [|done].
  apply plane_evolve; [done|exact (plane_ok_refl w Hw)].
Qed.

Lemma revoke_rows_ok v id reason now w : inv w ->
  inv (revoke_rows v id reason now w) /\ grows w (revoke_rows v id reason now w).
Proof.
  intros Hw. unfold revoke_rows. destruct (find_session v id w) as [r|] eqn:Hf; [|done].
  apply find_session_Some in Hf as [Hr _].
  assert (Hm : rows_evolve (fw_sessions w) (<[id := set_revoked v reason now r]> (fw_sessions w))).
  { eapply rows_evolve_update; [done|apply set_revoked_grows|apply set_revoked_sound]. }
  destruct (sessions_evolve _ w Hw Hm) as [H1 H2].
  destruct (note_inv (Revoked id) _ H1) as [H3 H4]; [|split; [done|by etrans]].
  cbn. rewrite lookup_insert_eq. by eexists.
Qed.

Lemma outside_ok w w' : inv w -> outside w w' -> inv w' /\ grows w w'.
Proof.
  intros Hw []. destruct out_sessions as (f & Hf & Es). calm Hw; [|by split].
  rewrite Es. apply rows_evolve_fmap; intros r; by apply unlinked_grows.
Qed.

(** ** Opening a stream *)

Lemma admission_prefix v id r perm h h' : h `prefix_of` h' -> admission v id r perm h -> admission v id r perm h'.
Proof.
  intros [k ->] (h1 & h2 & at_ & -> & Hin & Hrest). exists h1, (h2 ++ k), at_. split.
  - by rewrite <- app_assoc.
  - split; [|done]. apply elem_of_app. by left.
Qed.

Lemma admitted_call_prefix c h h' : h `prefix_of` h' -> admitted_call c h -> admitted_call c h'.
Proof. intros Hp (Ha & Hc). split; [by eapply admission_prefix|done]. Qed.

Lemma admission_row v id r perm h : admission v id r perm h -> row_ok r.
Proof. by intros (?&?&?&?&?&?&?&?&?&?&?). Qed.

Lemma register_plane_ok t sid ty rc sc d r c p s p' :
  (forall t tr sid s, w_trackers p !! t = Some tr -> JsMap.get sid (runtimeStreams tr) = Some s ->
     (s < w_next p)%nat) ->
  registerDataPlaneRuntimeStream t sid ty rc sc d r c p = (s, p') ->
  plane_ok p p' /\ (s < w_next p')%nat.
Proof.
  intros Hp. unfold registerDataPlaneRuntimeStream, getDataPlaneRuntimeStream.
  destruct (w_trackers p !! t) as [tr|] eqn:Ht; cbn [mbind option_bind].
  - destruct (JsMap.get sid (runtimeStreams tr)) as [s0|] eqn:Hs.
    + intros [= <- <-]. split; [|by eapply Hp]. split; [done|].
      intros t' tr' sid' s' Ht' Hs'. split; [by eapply Hp|]. intros _. by exists tr'.
    + intros [= <- <-]. split; [|cbn; lia]. split; [cbn; lia|]. cbn. intros t' tr' sid' s' Ht' Hs'.
      destruct (decide (t' = t)) as [->|Hne].
      * rewrite lookup_alter_eq, Ht in Ht'. injection Ht' as <-. cbn in Hs'.
        rewrite JsMap.get_set in Hs'. case_decide.
        -- injection Hs' as <-. split; [lia|]. lia.
        -- pose proof (Hp _ _ _ _ Ht Hs'). split; [lia|]. intros _. by exists tr.
      * rewrite lookup_alter_ne in Ht' by done. pose proof (Hp _ _ _ _ Ht' Hs'). split; [lia|].
        intros _. by exists tr'.
  - intros [= <- <-]. split; [|cbn; lia]. split; [cbn; lia|]. cbn. intros t' tr' sid' s' Ht' Hs'.
    destruct (decide (t' = t)) as [->|Hne]; [by rewrite lookup_alter_eq, Ht in Ht'|].
    rewrite lookup_alter_ne in Ht' by done. pose proof (Hp _ _ _ _ Ht' Hs'). split; [lia|].
    intros _. by exists tr'.
Qed.

(** The new object, before the frame is sent. *)
Lemma build_stream_ok c planeStream p w : inv w -> row_ok (ec_session c) ->
  plane_ok (fw_plane w) p -> (planeStream < w_next p)%nat ->
  let ref := fw_next w in
  let e := mkEdge c (new_runtime (ec_streamId c) (ec_operationId c) (Some (fs_maxBytes (ec_session c))))
             planeStream false true true true false false in
  let w' := set_fw_plane p
              (set_fw_registry (JsMap.set (ec_streamId c) ref (fw_registry w))
                 (set_fw_next (S ref) (set_fw_streams (<[ref := e]> (fw_streams w)) w))) in
  inv w' /\ grows w w' /\ fw_streams w' !! ref = Some e.
Proof.
  intros Hw Hrow Hp Hs ref e w'.
  assert (Hnew : fw_streams w !! ref = None).
  { destruct (fw_streams w !! ref) eqn:E; [|done]. pose proof (sk_ref _ _ _ (iv_streams w Hw _ _ E)). lia. }
  assert (Hlook : forall ref', ref' <> ref -> fw_streams w' !! ref' = fw_streams w !! ref')
    by (intros; cbn; by rewrite lookup_insert_ne).
  assert (Href : fw_streams w' !! ref = Some e) by (cbn; by rewrite lookup_insert_eq).
  assert (Hfree : forall ref', (ref' < fw_next w)%nat -> freed w ref' -> freed w' ref').
  { intros ref' Hlt. apply freed_keep; [| |done].
    - intros sid. cbn. rewrite JsMap.get_set. case_decide; [|done]. intros [= <-]. subst ref. lia.
    - intros e'. rewrite Hlook by (subst ref; lia). intros He'. exists e'. split_and!; try done.
      by apply (sk_plane w ref'), iv_streams. }
  assert (Hnone : received ref (fw_history w) = []).
  { unfold received. destruct (omap _ _) as [|chunk l] eqn:E; [done|]. exfalso.
    assert (Hin : chunk ∈ omap (fun ev => match ev with
                  | Received ref' chunk => if decide (ref' = ref) then Some chunk else None
                  | _ => None end) (fw_history w)) by (rewrite E; by left).
    apply list_elem_of_omap in Hin as (ev & Hev & Heq). destruct ev; try done. case_decide; [|done].
    subst. pose proof (iv_received w Hw _ _ Hev). lia. }
  split_and!; [| |done].
  - constructor; try apply Hw.
    + intros ref' e' He'. destruct (decide (ref' = ref)) as [->|Hne].
      * rewrite Href in He'. injection He' as <-.
        constructor; cbn; rewrite ?Hnone; try done; try apply new_runtime_ok; try (subst ref; lia).
      * rewrite Hlook in He' by done. destruct (iv_streams w Hw ref' e' He').
        constructor; try done; [cbn; lia|destruct Hp; cbn in *; lia|auto].
    + intros sid ref'. cbn [fw_registry w' set_fw_plane set_fw_registry]. rewrite JsMap.get_set.
      case_decide as Esid; [intros [= <-]; subst sid; exists e; done|].
      intros Hr. destruct (iv_registry w Hw sid ref' Hr) as (e' & He' & Hid). exists e'.
      rewrite Hlook; [done|]. intros ->. congruence.
    + intros t tr sid s Ht Hg. destruct Hp as [_ Hp]. by destruct (Hp t tr sid s Ht Hg).
    + intros ref' chunk Hin. pose proof (iv_received w Hw ref' chunk Hin). cbn. lia.
    + intros ref' r Hin Hr. destruct (iv_replied w Hw ref' r Hin Hr). split; [by apply Hfree|cbn; lia].
  - constructor; try done; try (cbn; lia).
    + intros ref' e' He'. rewrite Hlook by congruence. by exists e'.
    + intros id r Hr. by exists r.
Qed.
