(* ===== verification/FileSafety.v ===== *)
(** Every job of the file code keeps the invariant, whatever runs between its
    nodes, and so does every step of the system. *)
From Stdlib Require Import Strings.Byte ZArith QArith Qround Lia.
From stdpp Require Import base tactics strings gmap sorting option pretty.
From stdpp Require Import list.
From S2P Require Import Prelude JsRuntime Base64 Json JsText DaemonState Carrier DataPlane DataPlaneProps.
From S2P Require Import ControlRouters FilePaths FilePathProps FileRuntime Jobs FileSessions FileResolve FileEdge FileProps.
Open Scope Z_scope.

Create HintDb fsafe.

(** The job keeps the invariant from [w] on. *)
Notation keeps w p := (safe inv grows anything w p).
Notation gives Q w p := (safe inv grows Q w p).

Lemma keeps_then {A B} w (p : fjob A) (k : A -> fjob B) :
  keeps w p -> (forall w' a, grows w w' -> keeps w' (k a)) -> keeps w (p ≫= k).
Proof. intros Hp Hk. eapply job_safe_bind; [apply _|exact Hp|]. intros w' a Hw _. by apply Hk. Qed.

Lemma gives_bind {A B} Q (S : fworld -> B -> Prop) w (p : fjob A) (k : A -> fjob B) :
  gives Q w p -> (forall w' a, grows w w' -> Q w' a -> gives S w' (k a)) -> gives S w (p ≫= k).
Proof. apply job_safe_bind; apply _. Qed.

Lemma then_gives {A B} (S : fworld -> B -> Prop) w (p : fjob A) (k : A -> fjob B) :
  keeps w p -> (forall w' a, grows w w' -> gives S w' (k a)) -> gives S w (p ≫= k).
Proof. intros Hp Hk. eapply job_safe_bind; [apply _|exact Hp|]. intros w' a Hw _. by apply Hk. Qed.

Lemma keeps_return {A} w (a : A) : keeps w (mret a : fjob A).
Proof. done. Qed.
Lemma keeps_raise {A} w e : keeps w (Raise e : fjob A).
Proof. done. Qed.
Lemma keeps_catch {A} w (p : fjob A) h : keeps w p -> (forall w' e, keeps w' (h e)) -> keeps w (job_catch p h).
Proof. intros Hp Hh. apply job_safe_catch; [apply _|done|]. intros w' e _. apply Hh. Qed.
Lemma keeps_ignoring w p : keeps w p -> keeps w (ignoring p : fjob unit).
Proof. apply safe_ignoring; apply _. Qed.
Lemma keeps_ask {A} w (f : fworld -> A) : keeps w (ask f : fjob A).
Proof. by apply safe_ask; try apply _. Qed.
Lemma keeps_query {A} w (f : fworld -> A) : keeps w (query f : fjob A).
Proof. by apply job_safe_query; try apply _. Qed.
Lemma keeps_pause w : keeps w (pause : fjob unit).
Proof. apply safe_pause. Qed.
Lemma keeps_await w : keeps w (await : fjob unit).
Proof. apply safe_await. Qed.

(** Synchronous code and statements that keep the invariant of any world. *)
Definition keeping (f : fworld -> fworld) : Prop := forall w, inv w -> inv (f w) /\ grows w (f w).
Definition statement_ok (st : fworld -> thrown + fworld) : Prop :=
  forall w w', inv w -> st w = inr w' -> inv w' /\ grows w w'.

Lemma keeps_sync {A} w f (answer : fworld -> A) : keeping f -> keeps w (sync f answer : fjob A).
Proof. intros Hf. apply job_safe_sync. intros u Hu _. destruct (Hf u Hu). done. Qed.
Lemma keeps_sync_ w f : keeping f -> keeps w (sync_ f : fjob unit).
Proof. apply keeps_sync. Qed.
Lemma keeps_stmt {A} w st (answer : fworld -> A) : statement_ok st -> keeps w (stmt st answer : fjob A).
Proof. intros Hs. apply job_safe_stmt. intros u u' Hu _ E. destruct (Hs u u' Hu E). done. Qed.
Lemma keeps_exec w st : statement_ok st -> keeps w (exec st : fjob unit).
Proof. apply keeps_stmt. Qed.
Lemma keeps_db {A} w (st : fworld -> db -> outcome A) : keeps w (db_stmt st).
Proof. apply keeps_exec. intros u u'. apply on_db_ok. Qed.
Lemma keeps_draw `{FileIds} w : keeps w draw_ulid.
Proof. apply keeps_sync. intros u. apply drawn_evolve. Qed.
Lemma keeps_checking {A} w (c : checked A) : keeps w (checking c).
Proof. by destruct c. Qed.
Lemma gives_checking {A} w (c : checked A) : gives (fun _ a => c = Valid a) w (checking c).
Proof. by destruct c. Qed.

#[export] Hint Resolve keeps_return keeps_raise keeps_ask keeps_query keeps_pause keeps_await
  keeps_ignoring keeps_sync_ keeps_exec keeps_db keeps_draw keeps_checking : fsafe.

(** Node after node, where nothing needs to be remembered. *)
Ltac keep_going :=
  repeat first
    [ progress (intros; cbn beta iota zeta)
    | solve [auto with fsafe]
    | apply keeps_then
    | apply keeps_catch
    | case_match ].

Lemma keeping_stream ref f : same_runtime f -> keeping (on_stream ref f).
Proof. intros Hf w. by apply on_stream_ok. Qed.
Lemma keeping_call ref f : method_ok f -> keeping (call_runtime ref f).
Proof. intros Hf w. by apply call_runtime_ok. Qed.
Lemma keeping_cleanup ref : keeping (cleanup ref).
Proof. intros w Hw. destruct (cleanup_ok ref w Hw) as (? & ? & _). done. Qed.
Lemma keeping_sessions f : (forall w, rows_evolve (fw_sessions w) (f w)) ->
  statement_ok (fun w => inr (set_fw_sessions (f w) w)).
Proof. intros Hf w w' Hw [= <-]. by apply sessions_evolve. Qed.
Lemma keeping_refresh ref : keeping (refreshIdleTimer ref).
Proof. by apply keeping_stream. Qed.

#[export] Hint Resolve keeping_stream keeping_call keeping_cleanup keeping_refresh : fsafe.
#[export] Hint Resolve waitForOpen_method openTimeout_method destroy_method handleOpenResult_method
  handleReset_method handleClose_method : fsafe.

(** ** The closures of a stream *)

Section edge.
Context `{FileIds} (config : FileConfig).
Context (drain : option GatewayDrainState) (ws_sends grpc_sends : frame -> bool) (send_error : string).

Lemma keeps_denied w c by_ reason error : keeps w (denied c by_ reason error).
Proof. unfold denied. keep_going. Qed.
Lemma keeps_stream_reset w sid from reason error : keeps w (stream_reset_stmt sid from reason error).
Proof. apply keeps_db. Qed.
Lemma keeps_operation w op from to result error : keeps w (operation_stmt op from to result error).
Proof. apply keeps_db. Qed.
Lemma keeps_resetRemote w c reason error : keeps w (resetRemote c reason error).
Proof.
  unfold resetRemote. apply keeps_then; [|keep_going].
  apply keeps_sync. intros u. apply send_reset_ok.
Qed.
#[local] Hint Resolve keeps_denied keeps_stream_reset keeps_operation keeps_resetRemote : fsafe.

Lemma keeps_service_limit w ref c reason error : keeps w (resetFromServiceLimit ref c reason error).
Proof. unfold resetFromServiceLimit. keep_going. Qed.

Lemma keeps_onData w ref c chunk : keeps w (onData ref c chunk).
Proof.
  unfold onData. apply keeps_then; [by auto with fsafe|]. intros. apply keeps_then; [|by auto with fsafe].
  apply keeps_catch; [|keep_going]. apply keeps_then; [|keep_going].
  apply keeps_sync. intros u. apply data_arrives_ok.
Qed.

Lemma keeps_onReset w ref c reason error : keeps w (onReset ref c reason error).
Proof. unfold onReset. keep_going. Qed.
Lemma keeps_onClose w ref c offset : keeps w (onClose ref c offset).
Proof. unfold onClose. keep_going. Qed.

Lemma keeping_clientClosed ref : keeping (onClientClosed ref).
Proof.
  intros w Hw. unfold onClientClosed. destruct (fw_streams w !! ref) as [e|] eqn:He; [|done].
  case_match; [done|]. destruct (send_reset_ok (es_call e) "canceled" client_error w Hw) as [H1 H2].
  destruct (call_runtime_ok ref abortFromClient _ (handleReset_method _ _) H1) as [H3 H4].
  destruct (detached_evolve
    (fw_detached (call_runtime ref abortFromClient (send_reset (es_call e) "canceled" client_error w))
     ++ [CancelStream (ec_streamId (es_call e)); CancelOperation (ec_operationId (es_call e))]) _ H3) as [H5 H6].
  split; [done|]. by do 2 (etrans; [done|]).
Qed.

(** ** A request *)

(** The stream is known and registered nowhere. *)
Definition let_go (ref : nat) (w : fworld) : Prop := freed w ref /\ (ref < fw_next w)%nat.

Lemma let_go_grows ref w w' : grows w w' -> let_go ref w -> let_go ref w'.
Proof. intros [] [Hf Hr]. split; [by apply gr_freed|lia]. Qed.

Lemma keeps_answering w ref r : (refusal r = true -> let_go ref w) -> keeps w (answering ref r).
Proof.
  intros Hr u Hu Hw. destruct (note_inv (Replied ref r) u Hu) as [H1 H2]; [|done].
  intros Hre. by apply (let_go_grows ref w u Hw), Hr.
Qed.

Lemma gives_cleanup w ref : (ref < fw_next w)%nat -> gives (fun w _ => let_go ref w) w (sync_ (cleanup ref) : fjob unit).
Proof.
  intros Hr. apply job_safe_sync. intros u Hu Hw. destruct (cleanup_ok ref u Hu) as (H1 & H2 & H3).
  pose proof (gr_next _ _ Hw). pose proof (gr_next _ _ H2). split_and!; [done|done|].
  split; [apply H3; lia|lia].
Qed.

(** From a stream let go of to the refusal. *)
Ltac refusing :=
  repeat (apply keeps_then;
          [solve [auto with fsafe]
          |let w := fresh "w" in let Hg := fresh "Hg" in intros w ? Hg;
           match goal with L : let_go ?ref _ |- _ => apply (let_go_grows ref _ w Hg) in L end]);
  by apply keeps_answering.

Lemma keeps_refused_open w ref c sent : let_go ref w -> keeps w (refused_open send_error ref c sent).
Proof. intros L. unfold refused_open. refusing. Qed.

Lemma keeps_open_failed w ref c m : (ref < fw_next w)%nat -> keeps w (open_failed ref c m).
Proof.
  intros Hr. unfold open_failed. eapply gives_bind; [by apply gives_cleanup|].
  intros w' ? Hw L. cbn beta in L. refusing.
Qed.

Lemma keeps_open_rejected w ref c f : (ref < fw_next w)%nat -> keeps w (open_rejected ref c f).
Proof.
  intros Hr. unfold open_rejected. eapply gives_bind; [by apply gives_cleanup|].
  intros w' ? Hw L. cbn beta in L. refusing.
Qed.

Lemma keeps_open_invalid w ref c : (ref < fw_next w)%nat -> keeps w (open_invalid ref c).
Proof.
  intros Hr. unfold open_invalid. eapply gives_bind; [by apply gives_cleanup|].
  intros w' ? Hw L. cbn beta in L. refusing.
Qed.

Lemma keeps_store_identity w id identity : keeps w (store_identity id identity).
Proof. apply keeps_exec, keeping_sessions. intros u. auto with bud. Qed.

Lemma keeps_open_accepted w ref c method status f : keeps w (open_accepted ref c method status f).
Proof.
  assert (Hl : forall a b d, same_runtime (fun e => set_edge_listeners (a e) b d e)) by done.
  unfold open_accepted. do 3 (apply keeps_then; [by auto with fsafe|intros]).
  apply keeps_then; [case_match; [apply keeps_store_identity|done]|]. intros.
  case_match; (apply keeps_then; [apply keeps_sync_, keeping_stream; done|]); intros; by apply keeps_answering.
Qed.

Lemma keeps_await_open w ref : keeps w (await_open ref).
Proof.
  intros u Hu Hw. destruct (fw_streams u !! ref) as [e|]; [|done]. cbn.
  by destruct (fr_opening (es_runtime e)).
Qed.

Lemma open_stream_ok c m w : inv w -> admitted_call c (fw_history w) ->
  let '(ref, _, w') := open_stream drain ws_sends grpc_sends c m w in
  inv w' /\ grows w w' /\ (ref < fw_next w')%nat.
Proof.
  intros Hw Hc. unfold open_stream.
  destruct (registerDataPlaneRuntimeStream _ _ _ _ _ _ _ _ _) as [s p] eqn:Er.
  apply register_plane_ok in Er as [Hp Hs]; [|by apply iv_plane].
  assert (Hrow : row_ok (ec_session c)) by (destruct Hc as [Ha _]; by eapply admission_row).
  destruct (build_stream_ok c s p w Hw Hrow Hp Hs) as (H1 & H2 & H3). cbn zeta in H1, H2, H3.
  set (w1 := set_fw_plane p _) in *. cbn zeta.
  destruct (sendDataPlaneControlFrame _ _ _ _ _ _) as [sent routers].
  destruct (routers_evolve routers w1 H1) as [H4 H5].
  assert (H6 : grows w (set_fw_routers routers w1)) by by etrans.
  assert (H7 : (fw_next w < fw_next (set_fw_routers routers w1))%nat) by (cbn; lia).
  destruct sent as [[]|]; [|done|done].
  destruct (note_inv (OpenSent (fw_next w) c (dt_budId (ec_data c))
              (buildFileOpenControlFrame c m (fw_now w))) _ H4) as [H8 H9].
  - split_and!; [by eapply admitted_call_prefix; [apply (gr_history _ _ H6)|]| |by eauto].
    by destruct Hc as (_ & _ & ->).
  - split_and!; [done|by etrans|done].
Qed.

Lemma keeps_run_open w c method : admitted_call c (fw_history w) -> keeps w (run_open drain ws_sends grpc_sends send_error c method).
Proof.
  intros Hc. unfold run_open. apply keeps_then; [by auto with fsafe|]. intros w1 message Hw1.
  eapply (gives_bind (fun w x => (x.1 < fw_next w)%nat)).
  { apply job_safe_sync. intros u Hu Hw.
    pose proof (open_stream_ok c ("msg_" +:+ message) u Hu) as Ho.
    destruct (open_stream _ _ _ _ _ u) as [[ref sent] u']. apply Ho.
    eapply admitted_call_prefix; [|exact Hc]. apply gr_history. by etrans. }
  intros w2 [ref sent] Hw2 Hr. cbn [fst] in Hr. case_match.
  - apply keeps_then; [by auto with fsafe|]. intros w3 ? Hw3.
    apply keeps_then; [apply keeps_await_open|]. intros w4 opened Hw4.
    assert (Hr' : (ref < fw_next w4)%nat) by (pose proof (gr_next _ _ Hw3); pose proof (gr_next _ _ Hw4); lia).
    destruct opened as [m|f]; [by apply keeps_open_failed|].
    case_match; [by apply keeps_open_rejected|].
    case_match; [apply keeps_open_accepted|by apply keeps_open_invalid].
  - eapply gives_bind; [by apply gives_cleanup|]. intros w3 ? Hw3 L. by apply keeps_refused_open.
Qed.

Lemma keeps_record_open w c : keeps w (record_open c).
Proof.
  unfold record_open. do 2 (apply keeps_then; [apply keeps_db|intros]).
  apply keeps_then; [apply keeps_exec, keeping_sessions; intros; auto with bud|]. intros.
  apply keeps_then; [apply keeps_draw|]. intros. apply keeps_db.
Qed.

Lemma keeps_terminal w r : keeps w (resolveThreadTerminalSessionId r).
Proof. unfold resolveThreadTerminalSessionId. keep_going. Qed.

(** The carrier that serves a bud is one of its own. *)
Lemma active_session_bud configured bud dev ty kind w n t :
  getActiveDataPlaneSessionForBud configured bud dev ty kind false None w = Some (n, t) ->
  dt_budId t = bud.
Proof.
  unfold getActiveDataPlaneSessionForBud, rankedDataPlaneSessions. intros E.
  assert (Hin : (n, t) ∈ filter (fun nt : nat * DataPlaneSessionTracker =>
      active_candidate ty kind false nt.2 = true)
      (rankedDataPlaneSessions configured bud dev None w)).
  { unfold rankedDataPlaneSessions. destruct (filter _ _) as [|x l]; [done|]. injection E as ->. by left. }
  apply list_elem_of_filter in Hin as [_ Hin]. unfold rankedDataPlaneSessions in Hin.
  rewrite sort_by_rank_perm, list_elem_of_filter in Hin. by destruct Hin as [[? _] _].
Qed.

Lemma keeps_open w viewer id session transport method range permission :
  admission viewer id session permission (fw_history w) ->
  permission = (if bool_decide (method = HEAD) then "stat"
                else if ostr_truthy range then "range" else "read") ->
  keeps w (openFileEdgeStream config drain ws_sends grpc_sends send_error viewer id session transport method range permission).
Proof.
  intros Ha Hp. unfold openFileEdgeStream.
  set (mode := if bool_decide (method = HEAD) then "stat"
               else if bool_decide (permission = "range") then "range" else "read").
  assert (Hm : mode = permission).
  { subst mode. rewrite Hp. destruct (bool_decide (method = HEAD)); [done|]. by destruct (ostr_truthy range). }
  clearbody mode. subst mode.
  destruct (if bool_decide (permission = "range") then _ else _) as [m|r] eqn:Er; [done|].
  assert (Hr : range_ok r).
  { case_bool_decide; [|by injection Er as <-]. apply parsed_range in Er.
    by destruct Er as (?&?&?&?&?&?&?&?). }
  eapply (gives_bind (fun _ found => forall n t, found = Some (n, t) -> dt_budId t = fs_budId session)).
  { apply safe_ask; [apply _|]. intros u Hu Hw n t. apply active_session_bud. }
  intros w1 found Hw1 Hbud. destruct found as [[tracker data]|]; [|done].
  apply keeps_then; [by auto with fsafe|]. intros w2 [active limit] Hw2.
  destruct limit as [[code message]|]; [keep_going|].
  apply keeps_then; [by auto with fsafe|]. intros w3 operation Hw3.
  apply keeps_then; [by auto with fsafe|]. intros w4 stream Hw4.
  apply keeps_then; [apply keeps_terminal|]. intros w5 terminal Hw5. cbn zeta.
  apply keeps_then; [apply keeps_record_open|]. intros w6 ? Hw6.
  apply keeps_run_open. split_and!; [|done|by eapply Hbud].
  cbn. eapply admission_prefix; [|exact Ha]. apply gr_history. by do 5 (etrans; [done|]).
Qed.

Lemma gives_session w viewer id :
  gives (fun w found => forall r, found = Some r -> Looked viewer id r ∈ fw_history w) w
    (getAuthorizedFileSession viewer id).
Proof.
  apply job_safe_stmt. intros u u' Hu Hw [= <-].
  destruct (find_session viewer id u) as [r|] eqn:Hf; [|by split_and!].
  destruct (note_inv (Looked viewer id r) u Hu Hf). split_and!; [done|done|].
  intros r' [= <-]. cbn. apply elem_of_app. right. by left.
Qed.

Lemma admitting_ok viewer id permission session w : inv w -> Looked viewer id session ∈ fw_history w ->
  permission ∈ fs_permissions session ->
  let w' := admitting viewer id permission session w in
  let state := effectiveFileSessionState (fw_now w) session in
  inv w' /\ grows w w'
  /\ ((state = SessionReady \/ state = SessionUnavailable) ->
      admission viewer id session permission (fw_history w')).
Proof.
  intros Hw Hlook Hp. cbn zeta. unfold admitting.
  destruct (note_inv (Allowed viewer id permission (fw_now w)) w Hw I) as [H1 H2].
  apply list_elem_of_split in Hlook as (h1 & h2 & Eh).
  destruct (iv_looked w Hw h1 viewer id session h2 Eh) as (Hrow & Howner & Hrev).
  unfold effectiveFileSessionState in *.
  destruct (fs_revokedAt session) as [t|] eqn:Er; [split_and!; [done|done|naive_solver]|].
  destruct (fs_expiresAt session <=? fw_now w) eqn:Ex; [split_and!; [done|done|naive_solver]|].
  assert (Ha : admission viewer id session permission
                 (fw_history w ++ [Allowed viewer id permission (fw_now w)])).
  { exists h1, (h2 ++ [Allowed viewer id permission (fw_now w)]), (fw_now w). zbool. split_and!; try done.
    - rewrite Eh. by rewrite <- app_assoc.
    - apply elem_of_app. right. by left.
    - by apply Hrev. }
  destruct (fs_state session); split_and!; try done; naive_solver.
Qed.

Lemma keeps_file_route w viewer id method range :
  keeps w (file_route config drain ws_sends grpc_sends send_error viewer id method range).
Proof.
  unfold file_route. apply keeps_then; [unfold required_param; by case_match|]. intros w1 ? Hw1.
  eapply gives_bind; [apply gives_session|]. intros w2 found Hw2 Hlook.
  destruct found as [session|]; [|done]. specialize (Hlook session eq_refl).
  set (permission := if bool_decide (method = HEAD) then "stat"
                     else if ostr_truthy range then "range" else "read").
  destruct (filePermissionAllowedForSession session permission) eqn:Ep; cbn [negb]; [|done].
  apply bool_decide_eq_true in Ep.
  eapply (gives_bind (fun w st => (st = SessionReady \/ st = SessionUnavailable) ->
                        admission viewer id session permission (fw_history w))).
  { apply job_safe_sync. intros u Hu Hw. by apply admitting_ok; [|eapply elem_of_prefix; [exact Hlook|apply gr_history]|]. }
  intros w3 state Hw3 Hstate. destruct state; [| |done|done];
    (apply keeps_then; [by auto with fsafe|]; intros w4 status Hw4;
     destruct status as [n transport health reason candidates|]; [|done]; case_bool_decide; [done|];
     apply keeps_open; [|done]; eapply admission_prefix; [apply (gr_history _ _ Hw4)|]; auto).
Qed.
End edge.

(** ** The other routes *)

Section routes.
Context `{FileIds} (config : FileConfig) (is_uuid : string -> bool) (issue_message : jsval -> string).
Context (file_url : string -> string) (default_positive : 1 <= cf_fileSessionDefaultMaxBytes config).

Lemma keeps_bud w viewer bud : keeps w (getAuthorizedBud viewer bud).
Proof. apply keeps_query. Qed.
Lemma keeps_thread w viewer thread bud : keeps w (getAuthorizedThreadForFileSession viewer thread bud).
Proof. apply keeps_query. Qed.
Lemma keeps_session w viewer id : keeps w (getAuthorizedFileSession viewer id).
Proof. eapply job_safe_weaken; [apply gives_session|done]. Qed.
Lemma keeps_required w s : keeps w (required_param s).
Proof. unfold required_param. by case_match. Qed.
#[local] Hint Resolve keeps_bud keeps_thread keeps_session keeps_required : fsafe.

Lemma insert_session_ok id row w w' : row_ok row -> inv w -> insert_file_session id row w = inr w' ->
  inv w' /\ grows w w'.
Proof.
  intros Hrow Hw. unfold insert_file_session. case_bool_decide as Hn; [done|]. case_match; [done|].
  intros [= <-]. apply sessions_evolve; [done|]. apply rows_evolve_insert; [|done].
  by destruct (fw_sessions w !! id); [destruct Hn|].
Qed.

Lemma root_key_ok key root : normalizeFileRootKey key = Valid root -> root = DEFAULT_FILE_ROOT_KEY.
Proof.
  unfold normalizeFileRootKey. case_bool_decide as Hin; [|done]. intros [= <-].
  by apply list_elem_of_singleton in Hin.
Qed.

Lemma new_session_ok viewer bud body key root input path requested permissions st identity cor now dbnow :
  1 <= cb_max_bytes body <= MAX_FILE_SESSION_MAX_BYTES ->
  normalizeFileRootKey key = Valid root -> normalizeFileRelativePath input = Valid path ->
  normalizeFileSessionPermissions requested = Valid permissions ->
  row_ok (new_file_session viewer bud body root path permissions st identity cor now dbnow).
Proof.
  intros Hb Hr Hp Hq. constructor; try done.
  - by eapply root_key_ok.
  - by apply (normalize_names input).
  - by eapply permissions_sound.
Qed.

Lemma keeps_create w viewer bud body status identity : 1 <= cb_max_bytes body <= MAX_FILE_SESSION_MAX_BYTES ->
  keeps w (createFileSession config viewer bud body status identity).
Proof.
  intros Hbytes. unfold createFileSession.
  eapply gives_bind; [apply gives_checking|]. intros w1 root Hw1 Hroot. cbn beta in Hroot.
  eapply gives_bind; [apply gives_checking|]. intros w2 path Hw2 Hpath. cbn beta in Hpath.
  eapply gives_bind; [apply gives_checking|]. intros w3 permissions Hw3 Hperm. cbn beta in Hperm.
  apply keeps_then; [by auto with fsafe|]. intros w4 st ?. apply keeps_then; [by auto with fsafe|]. intros w5 now ?.
  do 3 (apply keeps_then; [by auto with fsafe|intros]). apply keeps_then; [|by auto with fsafe].
  apply keeps_stmt. intros u u' Hu E.
  destruct (insert_file_session _ _ u) as [e|u1] eqn:Ei; [done|].
  apply insert_session_ok in Ei as [Hi Hg]; [|by eapply new_session_ok|done].
  apply on_db_ok in E as [Hi' Hg']; [|done]. split; [done|by etrans].
Qed.

Lemma int_between_spec lo hi v z : int_between lo (Some hi) v = Some z -> lo <= z <= hi.
Proof.
  unfold int_between. destruct v as [| | |[q| |]| | |]; try done. destruct (as_integer q); [|done].
  cbn [mbind option_bind]. case_match; [|done]. intros [= <-]. zbool. lia.
Qed.

Lemma optional_spec {A} (read : jsval -> option A) v x : optional read v = Some (Some x) -> read v = Some x.
Proof. unfold optional. destruct v; try done; (destruct (read _); [|done]); by intros [= <-]. Qed.

Lemma parse_create_bytes raw body : parse_create_body config is_uuid raw = Some body ->
  1 <= cb_max_bytes body <= MAX_FILE_SESSION_MAX_BYTES.
Proof.
  unfold parse_create_body. destruct (match raw with JUndef | JNull => _ | v => v end) as [| | | | | |fs]; try done.
  cbn zeta. destruct (optional as_string _) as [root|]; [|done]. cbn [mbind option_bind].
  destruct (bounded_text _ _ _) as [path|]; [|done]. cbn [mbind option_bind].
  destruct (optional string_array _) as [permissions|]; [|done]. cbn [mbind option_bind].
  destruct (optional (int_between 1 _) _) as [bytes|] eqn:Eb; [|done]. cbn [mbind option_bind].
  destruct (optional (int_between MIN_FILE_SESSION_TTL_SECONDS _) _) as [ttl|]; [|done]. cbn [mbind option_bind].
  destruct (optional (uuid_text _) _) as [thread|]; [|done]. cbn [mbind option_bind].
  destruct (optional as_record _) as [metadata|]; [|done]. intros [= <-]. cbn [cb_max_bytes].
  destruct bytes as [z|]; cbn [default from_option id].
  - by apply optional_spec, int_between_spec in Eb.
  - unfold DEFAULT_FILE_SESSION_MAX_BYTES, MAX_FILE_SESSION_MAX_BYTES. lia.
Qed.

Lemma keeps_create_route w viewer bud raw :
  keeps w (create_route config is_uuid issue_message file_url viewer bud raw).
Proof.
  unfold create_route. apply keeps_then; [by auto with fsafe|]. intros.
  apply keeps_then; [by auto with fsafe|]. intros. case_match; [done|].
  destruct (parse_create_body config is_uuid raw) as [body|] eqn:Eb; [|done].
  apply parse_create_bytes in Eb. apply keeps_then; [by repeat case_match; auto with fsafe|].
  intros. case_match; [done|]. apply keeps_catch; [|intros; by case_match].
  apply keeps_then; [by apply keeps_create|]. intros u [[id row] st] Hu.
  apply keeps_then; [by auto with fsafe|done].
Qed.

Lemma keeps_list_route w viewer bud : keeps w (list_route config file_url viewer bud).
Proof.
  unfold list_route. apply keeps_then; [by auto with fsafe|]. intros.
  apply keeps_then; [by auto with fsafe|]. intros. case_match; [done|].
  apply keeps_then; [by auto with fsafe|]. intros. apply keeps_then; [apply keeps_query|]. intros.
  apply keeps_then; [by auto with fsafe|done].
Qed.

Lemma keeps_read_route w viewer id : keeps w (read_route config file_url viewer id).
Proof. unfold read_route. keep_going. Qed.

Lemma keeps_revoke w viewer id reason : keeps w (revokeAuthorizedFileSession viewer id reason).
Proof.
  unfold revokeAuthorizedFileSession. apply keeps_then; [by auto with fsafe|]. intros.
  case_match; [|done]. case_match; [done|]. apply keeps_then; [by auto with fsafe|]. intros.
  apply keeps_then; [|keep_going]. apply keeps_stmt. intros u u' Hu [= <-]. by apply revoke_rows_ok.
Qed.

Lemma keeps_revoke_route w viewer id raw : keeps w (revoke_route config file_url viewer id raw).
Proof.
  unfold revoke_route. apply keeps_then; [by auto with fsafe|]. intros. case_match; [|done].
  apply keeps_then; [apply keeps_revoke|]. keep_going.
Qed.
End routes.

(** ** The viewer's route *)

Section viewer.
Context `{FileIds} (config : FileConfig) (is_uuid : string -> bool) (issue_message : jsval -> string).
Context (file_url : string -> string).
Context (drain : option GatewayDrainState) (ws_sends grpc_sends : frame -> bool) (send_error : string).

Lemma send_resolve_ok bud op path m max w : inv w ->
  inv (send_resolve config drain ws_sends grpc_sends bud op path m max w).2
  /\ grows w (send_resolve config drain ws_sends grpc_sends bud op path m max w).2.
Proof.
  intros Hw. unfold send_resolve, waitForFileResolveResult, clearPendingFileResolve. cbn zeta.
  destruct (pending_evolve (JsMap.delete op (fw_pending w)) w Hw) as [H1 G1]. set (w1 := set_fw_pending _ w) in *.
  destruct (promises_evolve (fw_promises w1 ++ [Resolving]) w1 H1) as [H2 G2].
  destruct (pending_evolve (JsMap.set op (length (fw_promises w1)) (fw_pending w1)) _ H2) as [H3 G3].
  destruct (sendFrameToBud _ _ _) as [sent routers]. cbn [snd].
  destruct (routers_evolve routers _ H3) as [H4 G4].
  split; [done|]. by do 3 (etrans; [done|]).
Qed.

Lemma keeping_clear op : keeping (clearPendingFileResolve op).
Proof. intros w. apply pending_evolve. Qed.
#[local] Hint Resolve keeping_clear : fsafe.

Lemma keeps_await_resolve w p : keeps w (await_resolve p).
Proof. intros u Hu Hw. by destruct (fw_promises u !! p) as [[]|]. Qed.

Lemma keeps_send_resolve w bud op path max :
  keeps w (sendFileResolveRequest config drain ws_sends grpc_sends send_error bud op path max).
Proof.
  unfold sendFileResolveRequest. apply keeps_then; [by auto with fsafe|]. intros.
  apply keeps_then; [apply keeps_sync; intros u; apply send_resolve_ok|]. intros w2 [p sent] Hw2.
  destruct sent as [[]|]; [apply keeps_await_resolve|..]; keep_going.
Qed.

Lemma keeps_absolute w bud viewer path :
  keeps w (resolveAbsoluteViewerFilePath config drain ws_sends grpc_sends send_error bud viewer path).
Proof.
  unfold resolveAbsoluteViewerFilePath. apply keeps_then; [by auto with fsafe|]. intros.
  case_match; [|done]. apply keeps_then; [apply keeps_query|]. intros. case_match; [done|].
  apply keeps_then; [by auto with fsafe|]. intros. apply keeps_then; [apply keeps_send_resolve|]. intros.
  by repeat case_match.
Qed.

Lemma keeps_open_found w viewer thread bud body kind raw rel line column context against status identity :
  keeps w (open_found config file_url viewer thread bud body kind raw rel line column context against
             status identity).
Proof.
  unfold open_found. apply keeps_then; [apply keeps_create; cbn; unfold VIEWER_FILE_SESSION_MAX_BYTES,
    MAX_FILE_SESSION_MAX_BYTES; lia|]. intros u [[id row] st] Hu. apply keeps_then; [by auto with fsafe|done].
Qed.

Lemma keeps_open_route w viewer thread raw :
  keeps w (open_route config is_uuid issue_message file_url drain ws_sends grpc_sends send_error
             viewer thread raw).
Proof.
  unfold open_route. apply keeps_then; [by case_match|]. intros. apply keeps_then; [apply keeps_query|].
  intros. case_match; [|done]. case_match; [|done]. case_match; [|done]. case_match.
  - apply keeps_then; [unfold loadSourceMessagePathContext; keep_going|]. intros. apply keeps_open_found.
  - apply keeps_then; [apply keeps_absolute|]. intros u r Hu.
    destruct r as [refusal|[[[against rel] identity] status]]; [done|apply keeps_open_found].
Qed.
End viewer.

(** ** The system *)

Section system.
Context `{FileIds} (config : FileConfig) (is_uuid : string -> bool) (issue_message : jsval -> string).
Context (file_url : string -> string) (default_positive : 1 <= cf_fileSessionDefaultMaxBytes config).
Context (drain : option GatewayDrainState) (ws_sends grpc_sends : frame -> bool) (send_error : string).
Notation fstep := (fstep config is_uuid issue_message file_url drain ws_sends grpc_sends send_error).
Notation fsteps := (fsteps config is_uuid issue_message file_url drain ws_sends grpc_sends send_error).

Lemma keeps_serve w r :
  keeps w (serve config is_uuid issue_message file_url drain ws_sends grpc_sends send_error r).
Proof.
  destruct r; cbn [serve].
  - apply keeps_file_route.
  - by apply keeps_create_route.
  - apply keeps_list_route.
  - apply keeps_read_route.
  - apply keeps_revoke_route.
  - by apply keeps_open_route.
Qed.

Lemma keeps_detached w d : keeps w (detached_job d).
Proof.
  destruct d; cbn [detached_job]; apply keeps_ignoring; try apply keeps_db.
  apply keeps_exec, keeping_sessions. intros u. apply rows_evolve_fmap; intros r; case_bool_decide; first [done|auto with bud].
Qed.

(** The world keeps the invariant and so will every job. *)
Definition station_ok (y : fstation) : Prop :=
  inv (fn_world y) /\ Forall (fun p => keeps (fn_world y) p) (fn_jobs y).

Lemma jobs_later w w' (ps : list (fjob unit)) : grows w w' ->
  Forall (fun p => keeps w p) ps -> Forall (fun p => keeps w' p) ps.
Proof.
  intros Hg Hps. eapply Forall_impl; [exact Hps|]. intros p Hp.
  by apply (safe_mono inv grows anything w w' p).
Qed.

Lemma start_ok {A} (p : fjob A) y : station_ok y -> keeps (fn_world y) p ->
  station_ok (start_job p y) /\ grows (fn_world y) (fn_world (start_job p y)).
Proof.
  intros [Hw Hj] Hp. unfold start_job. destruct (advance _ _) as [w' p'] eqn:Ea.
  eapply safe_advance in Ea as (H1 & H2 & H3); [| |done|apply (keeps_then _ p); [exact Hp|done]]; [|apply _].
  split; [|done]. split; [done|]. cbn. apply Forall_app. split; [by eapply jobs_later|by constructor].
Qed.

Lemma at_once_ok f y : keeping f -> station_ok y ->
  station_ok (at_once f y) /\ grows (fn_world y) (fn_world (at_once f y)).
Proof.
  intros Hf [Hw Hj]. destruct (Hf _ Hw) as [H1 H2]. split; [|done]. split; [done|].
  by eapply jobs_later.
Qed.

Lemma keeping_open_result raw : keeping (fun w => (handleFileOpenResult raw w).2).
Proof.
  intros w Hw. unfold handleFileOpenResult. case_match; [|done]. case_match; [|done].
  apply call_runtime_ok; [apply handleOpenResult_method|done].
Qed.

Lemma fstep_ok y y' : station_ok y -> fstep y y' ->
  station_ok y' /\ grows (fn_world y) (fn_world y').
Proof.
  intros Hy Hs. destruct Hs.
  - by apply start_ok; [|apply keeps_serve].
  - destruct Hy as [Hw Hj]. pose proof (Forall_lookup_1 _ _ _ _ Hj H0) as Hp.
    eapply safe_resume in H1 as (H2 & H3 & H4); [| | |done|exact Hp]; [|apply _|done].
    split; [|done]. split; [done|]. cbn. apply Forall_insert; [by eapply jobs_later|done].
  - apply (at_once_ok (fun w => (handleFileOpenResult raw w).2)); [apply keeping_open_result|done].
  - apply (at_once_ok (fun w => (handleFileResolveResult raw w).2)); [|done].
    intros w Hw. unfold handleFileResolveResult. case_match; [by apply settle_resolve_ok|done].
  - apply at_once_ok; [|done]. intros w. apply settle_resolve_ok.
  - apply start_ok; [done|apply keeps_onData].
  - apply start_ok; [done|apply keeps_onReset].
  - apply start_ok; [done|apply keeps_onClose].
  - destruct (at_once_ok _ y (keeping_stream ref (set_idleTimer false) ltac:(done)) Hy) as [H2 H3].
    destruct (start_ok (resetFromServiceLimit ref (es_call e) "idle_timeout" idle_error) _ H2) as [H4 H5];
      [apply keeps_service_limit|]. split; [done|by etrans].
  - destruct (at_once_ok _ y (keeping_stream ref (set_ttlTimer false) ltac:(done)) Hy) as [H2 H3].
    destruct (start_ok (resetFromServiceLimit ref (es_call e) "ttl_exceeded" ttl_error) _ H2) as [H4 H5];
      [apply keeps_service_limit|]. split; [done|by etrans].
  - apply at_once_ok; [by auto with fsafe|done].
  - apply at_once_ok; [apply keeping_clientClosed|done].
  - apply at_once_ok; [by apply keeping_stream|done].
  - apply at_once_ok; [by auto with fsafe|done].
  - destruct (at_once_ok (set_fw_detached (ds1 ++ ds2)) y) as [H2 H3]; [intros w; apply detached_evolve|done|].
    destruct (start_ok (detached_job d) _ H2) as [H4 H5]; [apply keeps_detached|].
    split; [done|by etrans].
  - destruct Hy as [Hw Hj]. destruct (outside_ok _ _ Hw H0) as [H2 H3].
    split; [|done]. split; [done|]. by eapply jobs_later.
Qed.

Lemma fsteps_ok y y' : station_ok y -> fsteps y y' ->
  station_ok y' /\ grows (fn_world y) (fn_world y').
Proof.
  intros Hy. induction 1 as [|y1 y2 _ [IH1 IH2] Hs]; [done|].
  destruct (fstep_ok y1 y2 IH1 Hs). split; [done|by etrans].
Qed.
End system.

(** Where a system starts: sound rows, no stream and no history. *)
Record starting (w : fworld) : Prop := {
  st_rows : forall id r, fw_sessions w !! id = Some r -> row_ok r;
  st_plane : forall t tr sid s, w_trackers (fw_plane w) !! t = Some tr ->
    JsMap.get sid (runtimeStreams tr) = Some s -> (s < w_next (fw_plane w))%nat;
  st_streams : fw_streams w = ∅;
  st_registry : fw_registry w = [];
  st_history : fw_history w = [];
}.

Lemma starting_ok w : starting w -> station_ok (mkFstation w []).
Proof.
  intros [H1 H2 H3 H4 H5]. split; [|done]. cbn. constructor; rewrite ?H3, ?H4, ?H5; try done.
  - intros id Hin. by apply elem_of_nil in Hin.
  - intros h1 v id r h2 E. by destruct h1.
  - intros v id r Hin. by apply elem_of_nil in Hin.
  - intros h1 ref c bud f h2 E. by destruct h1.
  - intros ref chunk Hin. by apply elem_of_nil in Hin.
  - intros ref r Hin. by apply elem_of_nil in Hin.
Qed.
