(* ===== verification/FileClaims.v ===== *)
(** What the file code promises, over every interleaving of requests, frames,
    timers and readers ([fsteps]); the witnesses run the code ([play]). *)
From Stdlib Require Import Strings.Byte ZArith QArith Qround Lia.
From stdpp Require Import base tactics strings gmap sorting option pretty.
From stdpp Require Import list.
From S2P Require Import Prelude JsRuntime Base64 Json JsText DaemonState Carrier DataPlane.
From S2P Require Import ControlRouters FilePaths FilePathProps FileRuntime Jobs FileSessions FileResolve.
From S2P Require Import FileEdge FileProps FileSafety.
Open Scope Z_scope.

(** ** Runs *)

(** A step to take: a request, the next part of a job, or one of the events of the
    stream objects. *)
Inductive code :=
  | Serve (r : request)
  | Go (job : nat)
  | GoLost (job : nat)
  | Answered (raw : jsval)
  | Data (ref : nat) (chunk : list byte)
  | Closed (ref : nat) (finalOffset : Z)
  | Idle (ref : nat)
  | Ttl (ref : nat)
  | Gone (ref : nat)
  | Late.

Section play.
Context `{FileIds} (config : FileConfig) (is_uuid : string -> bool) (issue_message : jsval -> string).
Context (file_url : string -> string).
Context (drain : option GatewayDrainState) (ws_sends grpc_sends : frame -> bool) (send_error : string).
Notation fstep := (fstep config is_uuid issue_message file_url drain ws_sends grpc_sends send_error).
Notation fsteps := (fsteps config is_uuid issue_message file_url drain ws_sends grpc_sends send_error).

Definition go (o : fate thrown) (i : nat) (y : fstation) : fstation :=
  match fn_jobs y !! i with
  | Some p => let '(w, p') := resume o p (fn_world y) in mkFstation w (<[i := p']> (fn_jobs y))
  | None => y
  end.

(** On a stream whose listener or timer is set. *)
Definition on_ref (ref : nat) (ready : EdgeStream -> bool) (f : EdgeStream -> fstation -> fstation)
    (y : fstation) : fstation :=
  match fw_streams (fn_world y) !! ref with
  | Some e => if ready e then f e y else y
  | None => y
  end.

Definition play (c : code) (y : fstation) : fstation :=
  match c with
  | Serve r =>
      start_job (serve config is_uuid issue_message file_url drain ws_sends grpc_sends send_error r) y
  | Go i => go Runs i y
  | GoLost i => go (LostBefore (OtherError "connection lost")) i y
  | Answered raw => at_once (fun w => (handleFileOpenResult raw w).2) y
  | Data ref chunk => on_ref ref (fun _ => true) (fun e => start_job (onData ref (es_call e) chunk)) y
  | Closed ref n => on_ref ref (fun _ => true) (fun e => start_job (onClose ref (es_call e) n)) y
  | Idle ref =>
      on_ref ref es_idleTimer (fun e y =>
        start_job (resetFromServiceLimit ref (es_call e) "idle_timeout" idle_error)
          (at_once (on_stream ref (set_idleTimer false)) y)) y
  | Ttl ref =>
      on_ref ref es_ttlTimer (fun e y =>
        start_job (resetFromServiceLimit ref (es_call e) "ttl_exceeded" ttl_error)
          (at_once (on_stream ref (set_ttlTimer false)) y)) y
  | Gone ref =>
      on_ref ref (fun e => es_onAborted e || es_onClosed e) (fun _ => at_once (onClientClosed ref)) y
  | Late =>
      match fw_detached (fn_world y) with
      | d :: ds => start_job (detached_job d) (at_once (set_fw_detached ds) y)
      | [] => y
      end
  end.
Definition plays (cs : list code) (y : fstation) : fstation := foldl (fun y c => play c y) y cs.

Lemma go_step o i y : go o i y = y \/ fstep y (go o i y).
Proof.
  unfold go. destruct (fn_jobs y !! i) as [p|] eqn:E; [|by left]. right.
  destruct (resume o p (fn_world y)) as [w p'] eqn:Er. by eapply F_resume.
Qed.

Lemma play_step c y : play c y = y \/ fstep y (play c y).
Proof.
  destruct c as [r|i|i|raw|ref chunk|ref n|ref|ref|ref|]; cbn [play]; unfold on_ref.
  - right. apply F_request.
  - apply go_step.
  - apply go_step.
  - right. apply F_open_result.
  - destruct (fw_streams _ !! ref) as [e|] eqn:E; [|by left]. right. by apply F_data.
  - destruct (fw_streams _ !! ref) as [e|] eqn:E; [|by left]. right. by apply F_close.
  - destruct (fw_streams _ !! ref) as [e|] eqn:E; [|by left].
    destruct (es_idleTimer e) eqn:Et; [right; by apply F_idle|by left].
  - destruct (fw_streams _ !! ref) as [e|] eqn:E; [|by left].
    destruct (es_ttlTimer e) eqn:Et; [right; by apply F_ttl|by left].
  - destruct (fw_streams _ !! ref) as [e|] eqn:E; [|by left].
    destruct (es_onAborted e || es_onClosed e) eqn:Et; [right; by eapply F_client_closed|by left].
  - destruct (fw_detached (fn_world y)) as [|d ds] eqn:E; [by left|]. right.
    by apply (F_detached _ _ _ _ _ _ _ _ _ d [] ds).
Qed.

Lemma plays_steps cs y0 y : fsteps y0 y -> fsteps y0 (plays cs y).
Proof.
  unfold plays. revert y. induction cs as [|c cs IH]; intros y Hy; [done|]. cbn. apply IH.
  destruct (play_step c y) as [->|Hs]; [done|]. by eapply fsteps_more.
Qed.
End play.

(** A bud connected by a websocket, and two file sessions of its owner. *)
Module Desk.
Definition notes : FileSessionRow :=
  mkFileSession "bud" None None None "workspace" "docs/a.md" ["stat"; "read"; "range"] 8
    SessionReady None [] "fa_1" 1000 None None None None (Some "ada") 0 0.
Definition lost : FileSessionRow := set_revoked "ada" "manual" 1 notes.
Definition carrier : DataPlaneSessionTracker :=
  mkTracker "bud" "ds" (Some "ts") (Some "ts") DWebsocket RoleControlData (Some DrainActive) false false
    None ["file_read"] 0 0 [] 16384 1048576 1048576 true true.
Definition after {A} (o : outcome A) (d : db) : db := match o with Returns _ d' => d' | Throws _ => d end.
Definition tables : db :=
  let d := after (registerDeviceSession (mkDeviceArgs (Some "ds") "bud" None None None None) "" 0 0 empty_db)
             empty_db in
  after (registerTransportSession (mkTransportArgs (Some "ts") "bud" (Some "ds") "websocket" None None None
           None) "" 0 0 d) d.
Definition plane : world :=
  mkWorld {[0%nat := carrier]} ∅ [(tracker_key carrier, 0%nat)] 0 tables [].
Definition carriers : routers :=
  mkComposite
    (mkWs (mkRegistry {[0%nat := mkSession "bud" "s0" JUndef None None (Some DrainActive) 0 true
                                  (Some true) None None None None]} [("bud", 0%nat)] []) [])
    (mkGrpc (mkRegistry ∅ [] []) []).
Definition world0 : fworld :=
  mkFw 5 (<["f1" := notes]> {["f2" := lost]}) {["bud" := mkBud (Some "ada") JNull]} ∅ ∅ ∅
    plane carriers ∅ 0 [] [] [] 0 [] [].
#[export] Instance ids : FileIds := fun n => pretty n.
Definition config : FileConfig := mkFileConfig WebsocketBaseline 1048576 2.
Definition run (cs : list code) (y : fstation) : fstation :=
  plays config (fun _ => true) (fun _ => "") (fun p => p) None (fun _ => true) (fun _ => true) "" cs y.
Definition desk0 : fstation := mkFstation world0 [].

Definition opened : jsval :=
  JObj [("proto", JStr PROTO_VERSION); ("type", JStr "file_open_result"); ("id", JStr "m");
        ("ts", num 1); ("ext", JObj []); ("stream_id", JStr "st_1"); ("accepted", JBool true);
        ("status_code", num 200)].
End Desk.

(** ** The claims *)

Section claims.
Context `{FileIds} (config : FileConfig) (is_uuid : string -> bool) (issue_message : jsval -> string).
Context (file_url : string -> string).
Context (drain : option GatewayDrainState) (ws_sends grpc_sends : frame -> bool) (send_error : string).
Notation fsteps := (fsteps config is_uuid issue_message file_url drain ws_sends grpc_sends send_error).

Lemma run_ok w y : starting w -> 1 <= cf_fileSessionDefaultMaxBytes config ->
  fsteps (mkFstation w []) y -> station_ok y /\ grows w (fn_world y).
Proof. intros Hw Hd. apply (fsteps_ok config); [done|by apply starting_ok]. Qed.

(** C37: A daemon is asked for a file only by a request that may have it.  In any run, however
    requests, frames of the daemon, timers, readers of responses, lost statements and the rest
    of the service interleave: every [file_open] frame a carrier took carries the file session
    its request named, was sent to the bud of that session, and comes after the request was
    given that session as the viewer's own, granting the permission of the mode, not revoked
    (no revocation came before) and, when it was let through, not expired; its byte range is
    one a header can mean; and it is the frame of the stream the request built.  Every session
    row stays confined to the workspace root, with permissions from the three known ones and a
    byte limit within one gigabyte, never loses a row, its path, owner, bud, permissions,
    limits or expiry, and a revoked one stays revoked. *)
Theorem file_requests_guarded (w : fworld) (y y' : fstation)
  (Hstart : starting w) (Hdefault : 1 <= cf_fileSessionDefaultMaxBytes config)
  (Hrun : fsteps (mkFstation w []) y) (Hlater : fsteps y y') :
  (forall h1 ref c bud f h2, fw_history (fn_world y) = h1 ++ OpenSent ref c bud f :: h2 ->
     let session := ec_session c in
     admission (ec_viewer c) (ec_fileSessionId c) session (ec_mode c) h1
     /\ range_ok (ec_range c) /\ bud = fs_budId session
     /\ (exists messageId sentAt, f = buildFileOpenControlFrame c messageId sentAt)
     /\ exists row, fw_sessions (fn_world y) !! ec_fileSessionId c = Some row /\ row_grows session row)
  /\ (forall id row, fw_sessions (fn_world y) !! id = Some row ->
        row_ok row /\ exists row', fw_sessions (fn_world y') !! id = Some row' /\ row_grows row row').
Proof.
  destruct (run_ok w y Hstart Hdefault Hrun) as [Hy _]. pose proof (proj1 Hy) as Hw.
  destruct (fsteps_ok config is_uuid issue_message file_url Hdefault _ _ _ _ y y' Hy Hlater) as [_ Hg].
  split.
  - intros h1 ref c bud f h2 E. cbn zeta.
    destruct (iv_sent _ Hw _ _ _ _ _ _ E) as ((Ha & Hr & _) & Hb & Hf).
    split_and!; [done..|]. destruct Ha as (k1 & k2 & at_ & -> & _).
    apply (iv_current _ Hw (ec_viewer c)). rewrite E. set_solver.
  - intros id row Hrow. split; [by apply (iv_rows _ Hw id)|by apply (gr_sessions _ _ Hg)].
Qed.

(** C38: What a reader of a file gets is what its daemon sent, in order, and no more than the
    session allows.  In any run, for every stream a request built: the chunks written to the
    response are the first of those the stream counted, all of them while the response is
    open, and their bytes never exceed the byte limit of the file session; once the stream is
    complete, or the request was answered with an error, it is registered nowhere, neither
    for frames nor on the carrier, where it would count against the limit on concurrent
    streams; and later the stream keeps its call, only appends to its response, and appends
    nothing once complete. *)
Theorem file_streams_bounded (w : fworld) (y y' : fstation) (ref : nat) (e : EdgeStream)
  (Hstart : starting w) (Hdefault : 1 <= cf_fileSessionDefaultMaxBytes config)
  (Hrun : fsteps (mkFstation w []) y) (Hlater : fsteps y y')
  (He : fw_streams (fn_world y) !! ref = Some e) :
  let counted := received ref (fw_history (fn_world y)) in
  let body := fr_body (es_runtime e) in
  pt_chunks body `prefix_of` counted
  /\ (pt_ended body || pt_destroyed body = false -> pt_chunks body = counted)
  /\ zlen (body_bytes (es_runtime e)) <= fs_maxBytes (ec_session (es_call e)) <= MAX_FILE_SESSION_MAX_BYTES
  /\ (fr_completed (es_runtime e) = true -> freed (fn_world y) ref)
  /\ (forall r, Replied ref r ∈ fw_history (fn_world y) -> refusal r = true -> freed (fn_world y) ref)
  /\ exists e', fw_streams (fn_world y') !! ref = Some e' /\ es_call e' = es_call e
       /\ pt_chunks body `prefix_of` pt_chunks (fr_body (es_runtime e'))
       /\ (fr_completed (es_runtime e) = true ->
             fr_completed (es_runtime e') = true
             /\ pt_chunks (fr_body (es_runtime e')) = pt_chunks body).
Proof.
  destruct (run_ok w y Hstart Hdefault Hrun) as [Hy _]. pose proof (proj1 Hy) as Hw.
  destruct (fsteps_ok config is_uuid issue_message file_url Hdefault _ _ _ _ y y' Hy Hlater) as [_ Hg].
  destruct (iv_streams _ Hw ref e He) as [[Hc Hb _] Hm Hrow _ _ Hf Hp Ho].
  destruct (gr_streams _ _ Hg ref e He) as (e' & He' & Ec & _ & []). pose proof (ro_bytes _ Hrow).
  cbn zeta. split_and!; try done; try lia.
  - etrans; [exact Hc|]. apply Hb; [done|lia].
  - intros r Hin Hr. by destruct (iv_replied _ Hw ref r Hin Hr).
  - exists e'. split_and!; auto.
Qed.
End claims.

(** ** The claims at work *)

Module Work.
Import Desk.
Notation steps := (fsteps config (fun _ => true) (fun _ => "") (fun p => p) None (fun _ => true) (fun _ => true) "").

Lemma notes_ok : row_ok notes.
Proof.
  constructor; [done| | |vm_compute; split; discriminate|done].
  - by apply (normalize_names " ./docs//a.md").
  - by apply (permissions_sound (Some ["stat"; "read"; "range"])).
Qed.

Lemma world0_starting : starting world0.
Proof.
  pose proof notes_ok as [H1 H2 H3 H4 _].
  constructor; try done; cbn.
  - intros id r [[_ <-]|[_ [_ <-]%lookup_singleton_Some]]%lookup_insert_Some; [apply notes_ok|].
    by constructor.
  - intros t tr sid s [_ <-]%lookup_singleton_Some. done.
Qed.

Lemma run_steps cs y : steps desk0 y -> steps desk0 (run cs y).
Proof. apply plays_steps. Qed.

Definition chunk (s : string) : list byte := String.list_byte_of_string s.

(** Ada reads her file; the daemon accepts, sends two chunks and closes. Meanwhile
    others ask for it, and for the revoked one, and are refused. *)
Definition desk1 : fstation :=
  run ([Serve (FileRequest "ada" "f1" GET None); Serve (FileRequest "eve" "f1" GET None);
        Serve (FileRequest "ada" "f2" GET None)]
       ++ replicate 7 (Go 0) ++ [Go 1; Go 2; Answered opened; Data 0 (chunk "hi ")]
       ++ replicate 7 (Go 0) ++ [Data 0 (chunk "ada")]) desk0.
Definition desk2 : fstation := run [Closed 0 6; Late; Data 0 (chunk "!")] desk1.

Lemma desk1_steps : steps desk0 desk1.
Proof. apply run_steps. constructor. Qed.
Lemma later_steps : steps desk1 desk2.
Proof. apply plays_steps. constructor. Qed.

Definition call_at (y : fstation) : option edge_call :=
  head (omap (fun e => match e with OpenSent _ c _ _ => Some c | _ => None end) (fw_history (fn_world y))).
Lemma file_requests_guarded_witness :
  exists h1 c f h2,
    fw_history (fn_world desk1) = h1 ++ OpenSent 0 c "bud" f :: h2
    /\ admission "ada" "f1" notes "read" h1
    /\ field_lookup "relative_path" f = JStr "docs/a.md"
    /\ exists row, fw_sessions (fn_world desk2) !! "f2" = Some row /\ fs_revokedAt row <> None.
Proof.
  assert (Hd : 1 <= cf_fileSessionDefaultMaxBytes config) by (vm_compute; discriminate).
  destruct (file_requests_guarded config (fun _ => true) (fun _ => "") (fun p => p) None (fun _ => true)
    (fun _ => true) "" world0 desk1 desk2 world0_starting Hd desk1_steps later_steps) as [Hsent Hrows].
  assert (E : exists h1 c f h2, fw_history (fn_world desk1) = h1 ++ OpenSent 0 c "bud" f :: h2
              /\ ec_viewer c = "ada" /\ ec_fileSessionId c = "f1" /\ ec_session c = notes
              /\ ec_mode c = "read" /\ field_lookup "relative_path" f = JStr "docs/a.md").
  { eexists [_; _], _, _, [_; _; _; _]. split; [vm_compute; reflexivity|]. vm_compute. auto. }
  destruct E as (h1 & c & f & h2 & E & Ev & Ei & Es & Em & Ef).
  exists h1, c, f, h2. split_and!; [exact E| |exact Ef|].
  - destruct (Hsent h1 _ c _ f h2 E) as [Ha _]. by rewrite Ev, Ei, Es, Em in Ha.
  - destruct (Hrows "f2" lost) as (_ & row & Hrow & Hg); [vm_compute; reflexivity|].
    exists row. split; [exact Hrow|]. by apply (rw_revoked _ _ Hg).
Defined.

Definition response (y : fstation) : option (string * bool) :=
  (fun e => (String.string_of_list_byte (body_bytes (es_runtime e)), fr_completed (es_runtime e)))
  <$> fw_streams (fn_world y) !! 0%nat.

Lemma file_streams_bounded_witness :
  response desk1 = Some ("hi ada", false) /\ response desk2 = Some ("hi ada", true)
  /\ freed (fn_world desk2) 0
  /\ forall y, steps desk2 y -> response y = Some ("hi ada", true).
Proof.
  assert (Hd : 1 <= cf_fileSessionDefaultMaxBytes config) by (vm_compute; discriminate).
  assert (H2 : steps desk0 desk2) by apply run_steps, desk1_steps.
  split; [vm_compute; reflexivity|].
  assert (E : exists e, fw_streams (fn_world desk2) !! 0%nat = Some e
              /\ String.string_of_list_byte (body_bytes (es_runtime e)) = "hi ada"
              /\ fr_completed (es_runtime e) = true).
  { eexists. split; [vm_compute; reflexivity|]. vm_compute. auto. }
  destruct E as (e & He & Hb & Hc).
  split; [unfold response; rewrite He; cbn [fmap option_fmap option_map]; by rewrite Hb, Hc|].
  assert (H : forall y, steps desk2 y -> freed (fn_world desk2) 0 /\ response y = Some ("hi ada", true)).
  { intros y Hy.
    destruct (file_streams_bounded config (fun _ => true) (fun _ => "") (fun p => p) None (fun _ => true)
      (fun _ => true) "" world0 desk2 y 0 e world0_starting Hd H2 Hy He)
      as (_ & _ & _ & Hf & _ & e' & He' & _ & _ & Hsame).
    split; [by apply Hf|]. destruct (Hsame Hc) as [Hc' Hb'].
    unfold response. rewrite He'. cbn [fmap option_fmap option_map]. unfold body_bytes in *.
    by rewrite Hb', Hb, Hc'. }
  split; [apply (H desk2); constructor|]. intros y Hy. by apply H.
Defined.

(** A [HEAD] request was answered and the daemon never closes its stream: neither
    time limit nor the client's leaving does anything, and the stream stays
    registered, on the carrier too, where it counts as one of the concurrent
    streams. *)
Definition headed : fstation :=
  run ([Serve (FileRequest "ada" "f1" HEAD None)] ++ replicate 7 (Go 0) ++ [Answered opened]
       ++ replicate 7 (Go 0)) desk0.
Example head_stream_kept :
  let y := run ([Idle 0; Ttl 0; Gone 0; Go 1; Go 2; Late]) headed in
  (ended <$> fn_jobs y) = [true; true; true]
  /\ fw_registry (fn_world y) = [("st_1", 0%nat)]
  /\ (runtimeStreams <$> w_trackers (fw_plane (fn_world y)) !! 0%nat) = Some [("st_1", 0%nat)]
  /\ (fun e => (es_idleTimer e, es_ttlTimer e)) <$> fw_streams (fn_world y) !! 0%nat = Some (false, false)
  /\ (checkDataPlaneRuntimeStreamCapacity "bud" FILE_READ_STREAM_TYPE 1 (fw_plane (fn_world y))).2 <> None.
Proof. cbn zeta. split_and!; vm_compute; done. Qed.

(** A path [normalizeFileRelativePath] lets through and refuses when it sees it
    again: the viewer's route normalises twice, the second time outside a handler. *)
Definition world1 : fworld :=
  mkFw 5 ∅ {["bud" := mkBud (Some "ada") JNull]} {["t1" := mkThread "bud" (Some "ada") None]} ∅ ∅
    plane carriers ∅ 0 [] [] [] 0 [] [].
Definition clicked (path : string) : fstation :=
  run ([Serve (OpenRequest "ada" "t1" (JObj [("path", JStr path)]))] ++ replicate 8 (Go 0))
    (mkFstation world1 []).
Example click_throws :
  fn_jobs (clicked "./~/keys")
  = [Raise (ValidationError "absolute_file_path" "File path must be root-relative")]
  /\ fn_jobs (clicked "./docs/keys") = [Return tt].
Proof. vm_compute. done. Qed.
End Work.
